(* ===== verification/_CoqProject ===== *)
-Q . S2P
Prelude.v
GoStd.v
GoTime.v
GoJson.v
GoFloat.v
GoFmt.v
Errors.v
CatalogAdmission.v
Values.v
Proto.v
Json.v
TaggedJson.v
Budget.v
Domain.v
Validation.v
Canonical.v
Scopes.v
Admission.v
Connections.v
Lifecycle.v
Source.v
Adapters.v
RoundTrip.v
WireSizes.v
Settings.v
Dispatch.v
SourceSession.v
Utility.v
Messages.v
ExecOptions.v
Exec.v
ExecStream.v
LogTypes.v
LogLines.v
LogSession.v
LogSources.v
LogReady.v
LogEnd.v
LogManager.v
LogRegistry.v
LogEvents.v
Metadata.v
MetadataSync.v
MetadataGen.v
MetadataWatch.v
NetSession.v
Networker.v
