(* ===== verification/Prelude.v ===== *)
(** * plugin-sdk: a verification development of the resource core

    The repository is the Go SDK that plugins of a desktop host are built with. A
    plugin registers providers for resource types; the SDK's controller admits
    requests against an accepted catalog, dispatches them to provider callbacks on
    a leased native client, checks what comes back, and carries it to the host
    over protobuf. Around the resource core are smaller services (port forwarding,
    logs, exec, metrics, settings, tools), each a manager over sessions.

    ** The files and what they model

    Shared ground.
    - [Prelude]: results, tactics, hint databases, list lemmas.
    - [GoStd], [GoTime], [GoJson], [GoFloat], [GoFmt]: the parts of Go's language
      and standard library the modelled code uses: strings as bytes, UTF-8,
      strconv, binary64, RFC 3339, the token reader of encoding/json, fmt's verbs
      over abstract operands.
    - [Errors]: pkg/resource/v2/errors.go and [Controller.classify].

    Values and their encodings (pkg/resource/v2).
    - [Values]: the tagged [Value], its validation and its wire size.
    - [Json], [TaggedJson]: value_json.go, the strict reader, the lossless tagged
      codec and the native codec.
    - [Budget]: the structural budget of validation.go, the first check of every
      validator, encoder and request.
    - [Proto]: adapter_admission.go and internal/wirecost, the budget of decoded
      protobuf messages. [Adapters]: adapters.go, adapters_source.go and the
      decoder. [Canonical], [RoundTrip], [WireSizes]: the canonical scope order of
      read_target_identity.go, the round trips and the sizes of source_document.go.

    The domain and its checks.
    - [Domain]: domain.go; [Validation]: validation.go, schema_validation.go.
    - [Scopes]: the scope algebra and relationship bindings. [Admission]:
      controller_admission.go, which capability and registration serve a request
      and whether an answer is bound to it. [CatalogAdmission]:
      internal/catalogadmission, the accepted revisions a request carries.

    The controller.
    - [Connections]: profiles and the host overlay (connection_overlay.go,
      controller_inventory.go). [Lifecycle]: controller_lifecycle.go, the client
      generations as a step relation.
    - [Dispatch]: controller_dispatch.go and action_schema.go. [Source]: the
      frames and the phase tracker of source_phase.go. [SourceSession]:
      controller_source.go.
    - [Metadata]: connection_metadata.go, facts about connections with their exact
      JSON size and their admission. [MetadataSync]: controller_metadata.go, the
      coordinator as interleaved sections under the controller's lock;
      [MetadataGen] and [MetadataWatch]: what holds of its generations and
      observations, of what it publishes and of what its watchers receive.

    Beside the resource core.
    - [Settings]: settings/, the typed preferences store.
    - [Utility]: pkg/utility, the connection a utility service borrows from the
      resource controller. [Messages]: the message fields the services share.
    - [NetSession], [Networker]: pkg/v1/networker, the sessions and their messages,
      and the port-forward manager as interleaved critical sections.
    - [ExecOptions], [Exec], [ExecStream]: pkg/v1/exec, the terminal options and
      their admission, the session manager with its output buffer, and the
      conversions of stream.go.
    - pkg/v1/logs. [LogTypes]: its messages; [LogLines]: the handler registry and
      the timestamp of a line. [LogSession]: one session of manager.go, its
      orchestrator, source goroutines, watcher and updates, as a step relation
      whose labels say what it asks of the manager; [LogSources], [LogReady],
      [LogEnd]: what holds of it in every interleaving. [LogManager]: the calls,
      the registry of sessions, the channel and the creations on a lease, over the
      steps of sessions; [LogRegistry]: its invariant; [LogEvents]: what becomes of
      every event on its way to the stream.

    ** How the parts interact

    A request enters [Dispatch] (or [SourceSession]). It is validated ([Validation],
    after [Budget]), leases a client ([Lifecycle], on a profile of [Connections]),
    resolves a registration ([Admission], [Scopes]) under the revision the request
    carries ([CatalogAdmission]), calls the callback, is fenced again, and its
    answer is bound to the request. [Dispatch] and [SourceSession] are proved
    against an arbitrary host that answers each effect, so [Lifecycle] is used
    through what it promises: a lease grants a live client of the route. What is
    answered is valid, so [RoundTrip] and [WireSizes] apply to it: the encoder
    sends it, and the decoder returns it in canonical form.

    ** How code is represented

    A function that returns an error is a result; [outcome] adds [None] for a
    panic, and theorems say where it cannot occur. Errors are compared whole, code
    and text. Slices and maps are lists, in the iteration order of this run for
    maps, so a theorem holds for every order; a nilable container is an option
    where the code distinguishes nil. Integers carry their width in hypotheses or
    in checks where it matters. Concurrent components are step relations whose
    steps are the critical sections of the code. Code outside the repository (the
    generated protobuf structs' runtime, protowire, provider callbacks, clocks) is
    a parameter; classes such as [Protowire], [ProtoRuntimeLaws] state its
    documented behaviour, with concrete instances in the witnesses.

    ** Groups of theorems

    - Exactness: a validator accepts exactly what its specification describes and
      always answers ([ValidateValue_iff], [ValidateSourcePage_iff],
      [metadataAdmission_iff], [admitProto_iff], [ValidateSchemaValue_iff],
      [validateDocumentCoverage_iff], [parseJSON_strict]).
    - Round trips: what is encoded is read back ([native_roundtrip],
      [value_roundtrip], [page_roundtrip], [frame_roundtrip]), and sizes computed
      without encoding are exact ([wire_sizes_exact], [page_cost_incremental]).
    - Scopes denote sets of coordinates and the operations on scopes are the
      operations on sets ([intersectScope_denotes], [scopeContains_iff]).
    - Dispatch and sessions refine their contracts: every answer was admitted,
      called once, fenced and bound ([dispatch_sound], [dispatch_confined],
      [checkPage_bound]); sessions emit protocol sessions ([source_session_iff],
      [OpenSource_protocol], [OpenSource_returns]), and on every path what a session
      hands over has passed the tracker's checks of single items, and a finite one's
      whole sequence its grammar ([OpenSource_confined]).
    - Lifecycles: no leased work on a destroyed client, one destruction, progress,
      finality of Close ([lease_protects_client], [client_destroyed_once],
      [teardown_progress], [close_final]). Tunnels: none is lost, none starts after
      StopAll, terminal states last, and each lease is returned ([no_orphan],
      [stop_final], [terminal_states], [tunnel_lifetime]). Terminals: what is
      emitted and buffered is what the command wrote, an attached client continues
      the replay without a gap, repeating at most the one chunk in flight, an ended
      session leaves nothing behind, a request that ends cannot end the session it
      created, and Close drains the workers with nobody reading their output
      ([exec_output], [attach_seamless], [session_cleanup], [exec_admission],
      [close_drains]).
      Logs: sources stream within the bounds; the lines a reader yields while the
      session is not paused are delivered once and in order; on the way to the
      client nothing is lost or reordered while the session is open; readiness is
      announced once and after the sources it counts; a lease is returned, and
      Close returns, only after the goroutines of the session, except source
      goroutines that UpdateSessionOptions re-enabled when the session had already
      drained, which run on ([late_source_reads])
      ([log_streams_bounded], [log_delivery], [log_outputs_ordered],
      [session_ready], [session_over], [log_lease_held], [log_close_waits]). The
      [Example]s of [LogEnd] and [LogRegistry] are runs that show where the manager
      falls short of its comments.
    - Metadata: what is published is valid and within its 256 KiB whatever the order
      of entries, names a live generation, and reaches every watcher in order or as
      a resynchronisation ([metadata_published_valid], [metadata_generation_safe],
      [metadata_watch_faithful], [metadata_snapshot_exact]).
    - Settings: normalization is a projection, commits are atomic.

    ** Bounds and fuel

    Varint sizes take ten turns of seven bits, enough for 64-bit integers
    ([varintSize_exact]). Readers of JSON and values are structural or carry fuel
    with a theorem that it suffices: [readJSON] by the length of the input, [valueAt]
    with 66 levels because values deeper than 64 are refused before a level is
    entered. The paging loop of [OpenSource] takes a bound on pages and returns with
    any larger one, since cursors may not repeat.

    ** Not modelled

    - Encoders of JSON documents of the domain (domain_json.go, resource options)
      and the adapters that carry them (ResourceType, Catalog, ActionRequest and the
      ancillary ones); identities computed as hashes of JSON.
    - The transports: pkg/resource/v2/plugin, the gRPC servers and clients of
      every service, hashicorp/go-plugin wiring, interceptors. They move messages
      between the modelled encoders and the network.
    - The metric manager and tools: their admission rests on JSON schemas and
      envelopes that are not modelled. Of connection metadata, its JSON codecs and
      the reflective deep copy of snapshots, which are immutable values here. The
      state and configuration stores: file input and output.
    - Controllers without a connection lifecycle, which call their providers
      without a client: [Lifecycle] is the controller that has one.
    - Loggers, telemetry, profiling, examples, test harnesses, generated code. *)
From stdpp Require Export base option list strings gmap sorting.
From Stdlib Require Export ZArith Lia Ascii.

(** ** Results: a Go function's [(value, error)] pair *)

(** The Go code returns either a usable value with a nil error or an error
    whose accompanying value is discarded, so one sum per call is enough. *)
Inductive res (E A : Type) : Type :=
| Ok (a : A)
| Err (e : E).
Arguments Ok {E A} a.
Arguments Err {E A} e.

#[export] Instance res_ret {E} : MRet (res E) := λ A a, Ok a.
#[export] Instance res_bind {E} : MBind (res E) := λ A B k m,
  match m with Ok a => k a | Err e => Err e end.
#[export] Instance res_fmap {E} : FMap (res E) := λ A B f m,
  match m with Ok a => Ok (f a) | Err e => Err e end.

Definition is_ok {E A} (r : res E A) : bool :=
  match r with Ok _ => true | Err _ => false end.

(** [if c { return e }] of a Go guard. *)
Definition guard_err {E} (c : bool) (e : E) : res E unit :=
  if c then Err e else Ok tt.

(** ** Automation *)

Create HintDb gostd.
Create Rewrite HintDb gostd.

(** Unfolds one successful monadic chain: every guard in [H] is decided, every
    bind is split, contradictory branches close. *)
Lemma bind_ok {E A B} (m : res E A) (k : A → res E B) b :
  m ≫= k = Ok b → ∃ a, m = Ok a ∧ k a = Ok b.
Proof. destruct m as [a|e]; [|done]. by exists a. Qed.

Lemma guard_err_ok {E} c (e : E) u : guard_err c e = Ok u → c = false.
Proof. by destruct c. Qed.

Lemma guard_err_iff {E} c (e : E) u : guard_err c e = Ok u ↔ c = false.
Proof. destruct c, u; split; done. Qed.

Lemma bind_guard_iff {E B} c (e : E) (k : unit → res E B) b :
  guard_err c e ≫= k = Ok b ↔ c = false ∧ k tt = Ok b.
Proof. destruct c; simpl; split; [done|by intros [? _]|done|by intros [_ ?]]. Qed.

Lemma bind_ok_iff {E A B} (m : res E A) (k : A → res E B) b :
  m ≫= k = Ok b ↔ ∃ a, m = Ok a ∧ k a = Ok b.
Proof. split; [apply bind_ok|]. by intros (a & -> & ?). Qed.

Lemma bind_unit_iff {E B} (m : res E unit) (k : unit → res E B) b :
  m ≫= k = Ok b ↔ m = Ok tt ∧ k tt = Ok b.
Proof. destruct m as [[]|e]; simpl; naive_solver. Qed.

Ltac bind_inv H :=
  lazymatch type of H with
  | (guard_err _ _ ≫= _) = Ok _ =>
    let Hg := fresh "Hg" in
    apply bind_ok in H as (? & Hg%guard_err_ok & H); bind_inv H
  | (_ ≫= _) = Ok _ =>
    let x := fresh "x" in let Hm := fresh "Hm" in
    apply bind_ok in H as (x & Hm & H); cbn beta iota in H; bind_inv H
  | _ => idtac
  end.

Lemma Forall_mp {A} (P Q : A → Prop) l :
  Forall (λ a, P a → Q a) l → Forall P l → Forall Q l.
Proof. intros H. induction H; intros HP; constructor; inversion HP; auto. Qed.

(** Boolean connectives and comparisons as propositions. *)
Ltac propify :=
  repeat match goal with
  | H : _ || _ = false |- _ => apply orb_false_iff in H as [? ?]
  | H : _ && _ = true |- _ => apply andb_true_iff in H as [? ?]
  | H : negb _ = false |- _ => apply negb_false_iff in H
  | H : negb _ = true |- _ => apply negb_true_iff in H
  | H : (_ <? _)%Z = true |- _ => apply Z.ltb_lt in H
  | H : (_ <? _)%Z = false |- _ => apply Z.ltb_ge in H
  | H : (_ <=? _)%Z = true |- _ => apply Z.leb_le in H
  | H : (_ <=? _)%Z = false |- _ => apply Z.leb_gt in H
  | H : (_ =? _)%Z = true |- _ => apply Z.eqb_eq in H
  | H : (_ =? _)%Z = false |- _ => apply Z.eqb_neq in H
  | H : (_ <? _)%nat = true |- _ => apply Nat.ltb_lt in H
  | H : (_ <? _)%nat = false |- _ => apply Nat.ltb_ge in H
  | H : (_ =? _)%nat = true |- _ => apply Nat.eqb_eq in H
  | H : (_ =? _)%nat = false |- _ => apply Nat.eqb_neq in H
  | H : bool_decide _ = true |- _ => apply bool_decide_eq_true in H
  | H : bool_decide _ = false |- _ => apply bool_decide_eq_false in H
  end.

(** The same connectives in a goal [b = false]. *)
Ltac false_split :=
  repeat match goal with
  | |- _ || _ = false => apply orb_false_iff; split
  | |- negb _ = false => apply negb_false_iff
  | |- (_ <? _)%Z = false => apply Z.ltb_ge
  | |- (_ <=? _)%Z = false => apply Z.leb_gt
  | |- (_ =? _)%Z = false => apply Z.eqb_neq
  | |- (_ <? _)%nat = false => apply Nat.ltb_ge
  | |- (_ =? _)%nat = true => apply Nat.eqb_eq
  | |- (_ =? _)%Z = true => apply Z.eqb_eq
  | |- bool_decide _ = false => apply bool_decide_eq_false
  end.

(** Passes the first guard of a chain: its condition, split into atoms, is left
    to [tac]; what [tac] does not close becomes a goal. *)
Ltac pass_guard_using tac :=
  lazymatch goal with
  | |- context [mbind ?k (guard_err ?c ?e)] =>
    let Hg := fresh "Hg" in
    assert (Hg : c = false) by (false_split; tac);
    rewrite Hg; clear Hg; cbn [guard_err mbind res_bind]
  end.
Tactic Notation "pass_guard" "by" tactic3(tac) := pass_guard_using tac.
Tactic Notation "pass_guard" := pass_guard_using ltac:(first [done | lia]).

(** The sum over a list of which one element changes. *)
Lemma sum_list_with_set {A} (f : A → nat) (l : list A) n a b : l !! n = Some a →
  (sum_list_with f (<[n := b]> l) + f a = sum_list_with f l + f b)%nat.
Proof.
  revert n. induction l as [|c l IH]; intros [|n] H; simplify_eq/=; [lia|]. specialize (IH n H). lia.
Qed.
