(* ===== verification/GoStd.v ===== *)
(** * The part of Go's language and standard library the SDK's logic uses

    Byte strings and [utf8.ValidString], decimal [strconv] conversions,
    [strings.Split], big-endian [uint16] framing and IEEE binary64 values.
    Go strings are byte sequences: a [string] here is read as bytes, never as
    Unicode text. *)
From S2P Require Import Prelude.
From Stdlib Require Export SpecFloat.
Local Open Scope Z_scope.

(** ** Bytes and strings *)

Abbreviation bytes := (list ascii).

Definition byte_val (c : ascii) : Z := Z.of_N (N_of_ascii c).
Definition byte_of (n : Z) : ascii := ascii_of_N (Z.to_N n).
Definition bytes_of (s : string) : bytes := Stdlib.Strings.String.list_ascii_of_string s.
Definition string_of (b : bytes) : string := Stdlib.Strings.String.string_of_list_ascii b.

(** Go's [len] of a string. *)
Definition slen (s : string) : Z := Z.of_nat (length (bytes_of s)).
Definition blen (b : bytes) : Z := Z.of_nat (length b).

(** ** unicode/utf8 *)

Definition byte_in (lo hi : Z) (c : ascii) : bool :=
  (lo <=? byte_val c) && (byte_val c <=? hi).
Definition utf8_cont : ascii → bool := byte_in 128 191.

(** The second byte's range depends on the first: overlong forms, surrogates
    and code points above U+10FFFF are excluded there. *)
Definition utf8_second3 (a b : ascii) : bool :=
  if byte_val a =? 224 then byte_in 160 191 b
  else if byte_val a =? 237 then byte_in 128 159 b
  else utf8_cont b.
Definition utf8_second4 (a b : ascii) : bool :=
  if byte_val a =? 240 then byte_in 144 191 b
  else if byte_val a =? 244 then byte_in 128 143 b
  else utf8_cont b.

Fixpoint utf8_valid (s : bytes) : bool :=
  match s with
  | [] => true
  | a :: s1 =>
    if byte_in 0 127 a then utf8_valid s1 else
    match s1 with
    | [] => false
    | b :: s2 =>
      if byte_in 194 223 a then utf8_cont b && utf8_valid s2 else
      match s2 with
      | [] => false
      | c :: s3 =>
        if byte_in 224 239 a then utf8_second3 a b && utf8_cont c && utf8_valid s3 else
        match s3 with
        | [] => false
        | d :: s4 =>
          byte_in 240 244 a && utf8_second4 a b && utf8_cont c && utf8_cont d
          && utf8_valid s4
        end
      end
    end
  end.

(** [utf8.ValidString]. *)
Definition utf8_valid_string (s : string) : bool := utf8_valid (bytes_of s).

(** ** strings *)

Fixpoint split_go (sep : ascii) (cur : bytes) (s : bytes) : list string :=
  match s with
  | [] => [string_of (rev cur)]
  | c :: s => if Ascii.eqb c sep then string_of (rev cur) :: split_go sep [] s
              else split_go sep (c :: cur) s
  end.
(** [strings.Split] with a one-byte separator. *)
Definition strings_split (s : string) (sep : ascii) : list string :=
  split_go sep [] (bytes_of s).

(** ** strconv, base 10 *)

Definition max_int64 : Z := 9223372036854775807.
Definition max_uint64 : Z := 18446744073709551615.
Definition max_uint16 : Z := 65535.

Definition is_digit (c : ascii) : bool := byte_in 48 57 c.
Definition digit (c : ascii) : Z := byte_val c - 48.
Definition digits_number (ds : bytes) : Z := foldl (λ n c, n * 10 + digit c) 0 ds.

(** The low [width] decimal digits of [n], most significant first. *)
Fixpoint pad_digits (width : nat) (n : Z) : bytes :=
  match width with
  | O => []
  | S w => pad_digits w (n / 10) ++ [byte_of (48 + n mod 10)]
  end.

(** The number of decimal digits; halving bounds the divisions by ten. *)
Fixpoint ndigits_go (fuel : nat) (n : Z) : nat :=
  match fuel with
  | O => 1
  | S f => if n <? 10 then 1 else S (ndigits_go f (n / 10))
  end.
Definition ndigits (n : Z) : nat := ndigits_go (Z.to_nat (Z.log2 n)) n.

(** The value of a nonempty all-digit string, leading zeros allowed. *)
Definition digits_value (ds : bytes) : option Z :=
  if negb (length ds =? 0)%nat && forallb is_digit ds then Some (digits_number ds) else None.

(** [strconv.ParseUint(s, 10, 64)]; [None] is a nonnil error. *)
Definition parse_uint64 (s : string) : option Z :=
  n ← digits_value (bytes_of s); if n <=? max_uint64 then Some n else None.

(** [strconv.ParseInt(s, 10, 64)]: one optional sign, then digits. *)
Definition parse_int64 (s : string) : option Z :=
  match bytes_of s with
  | "-"%char :: t => n ← digits_value t; if n <=? max_int64 + 1 then Some (- n) else None
  | "+"%char :: t => n ← digits_value t; if n <=? max_int64 then Some n else None
  | t => n ← digits_value t; if n <=? max_int64 then Some n else None
  end.

(** The value [strconv.ParseUint] and [strconv.ParseInt] return when their error
    is dropped: 0 on a syntax error, the nearest limit when out of range. *)
Definition ParseUint_value (s : string) : Z :=
  match digits_value (bytes_of s) with Some n => Z.min n max_uint64 | None => 0 end.
Definition ParseInt_value (s : string) : Z :=
  match bytes_of s with
  | "-"%char :: t => from_option (λ n, - Z.min n (max_int64 + 1)) 0 (digits_value t)
  | "+"%char :: t => from_option (λ n, Z.min n max_int64) 0 (digits_value t)
  | t => from_option (λ n, Z.min n max_int64) 0 (digits_value t)
  end.

(** [strconv.FormatUint(n, 10)] and [strconv.FormatInt(n, 10)]. *)
Definition format_digits (n : Z) : bytes := pad_digits (ndigits n) n.
Definition format_uint (n : Z) : string := string_of (format_digits n).
Definition format_int (n : Z) : string :=
  if n <? 0 then string_of ("-"%char :: format_digits (- n)) else format_uint n.

(** ** encoding/binary: big-endian uint16 *)

Definition put_uint16 (n : Z) : bytes := [byte_of (Z.shiftr n 8); byte_of (Z.land n 255)].
Definition get_uint16 (b : bytes) : Z :=
  match b with
  | [h; l] => Z.lor (Z.shiftl (byte_val h) 8) (byte_val l)
  | _ => 0
  end.

(** ** float64 *)

Abbreviation float64 := spec_float.

Definition f64_is_nan (x : float64) : bool :=
  match x with S754_nan => true | _ => false end.
Definition f64_is_inf (x : float64) : bool :=
  match x with S754_infinity _ => true | _ => false end.
Definition f64_is_zero (x : float64) : bool :=
  match x with S754_zero _ => true | _ => false end.
(** [math.Signbit]. *)
Definition f64_signbit (x : float64) : bool :=
  match x with
  | S754_zero s | S754_infinity s | S754_finite s _ _ => s
  | S754_nan => false
  end.
(** [float64(n)] for an integer: round to nearest, ties to even. *)
Definition f64_of_Z (n : Z) : float64 := binary_normalize 53 1024 n 0 false.
(** [math.Trunc(x) == x]; false on NaN, which compares unequal to itself. *)
Definition f64_is_integral (x : float64) : bool :=
  match x with
  | S754_zero _ | S754_infinity _ => true
  | S754_nan => false
  | S754_finite _ m e => if 0 <=? e then true else Z.pos m mod 2 ^ (- e) =? 0
  end.
(** [int(x)] for a finite [x] in range: truncation toward zero. *)
Definition f64_to_Z (x : float64) : Z :=
  match x with
  | S754_finite s m e =>
    let a := if 0 <=? e then Z.pos m * 2 ^ e else Z.pos m / 2 ^ (- e) in
    if s then - a else a
  | _ => 0
  end.
(** The float nearest to the positive rational [p / q]. *)
Definition f64_of_ratio (s : bool) (p q : Z) : float64 :=
  let '(m, e, l) := SFdiv_core_binary 53 1024 p 0 q 0 in
  binary_round_aux 53 1024 s m e l.

(** ** Lemmas *)

Lemma string_of_bytes_of s : string_of (bytes_of s) = s.
Proof. apply Stdlib.Strings.String.string_of_list_ascii_of_string. Qed.

Lemma bytes_of_string_of b : bytes_of (string_of b) = b.
Proof. apply Stdlib.Strings.String.list_ascii_of_string_of_list_ascii. Qed.

#[export] Hint Rewrite string_of_bytes_of bytes_of_string_of : gostd.

Lemma bytes_of_inj s t : bytes_of s = bytes_of t → s = t.
Proof. intros H. by rewrite <- (string_of_bytes_of s), H, string_of_bytes_of. Qed.

Lemma slen_nonneg s : 0 ≤ slen s.
Proof. unfold slen. lia. Qed.
#[export] Hint Resolve slen_nonneg : gostd.

Lemma slen_zero s : slen s = 0 ↔ s = EmptyString.
Proof. unfold slen. destruct s; [done|]. simpl. split; [lia|done]. Qed.

Lemma byte_val_range c : 0 ≤ byte_val c < 256.
Proof.
  unfold byte_val. pose proof (N_ascii_bounded c). lia.
Qed.

Lemma byte_val_of n : 0 ≤ n < 256 → byte_val (byte_of n) = n.
Proof.
  intros H. unfold byte_val, byte_of. rewrite N_ascii_embedding; lia.
Qed.

Lemma length_put_uint16 n : length (put_uint16 n) = 2%nat.
Proof. done. Qed.

Lemma lor_high_low n k : 0 ≤ k → Z.lor (Z.shiftl (Z.shiftr n k) k) (n mod 2 ^ k) = n.
Proof.
  intros Hk. apply Z.bits_inj'. intros i Hi.
  rewrite Z.lor_spec, Z.shiftl_spec by done.
  destruct (Z.lt_ge_cases i k).
  - rewrite Z.testbit_neg_r by lia. by rewrite Z.mod_pow2_bits_low by lia.
  - rewrite Z.shiftr_spec, Z.sub_add, Z.mod_pow2_bits_high by lia. by rewrite orb_false_r.
Qed.

Lemma get_put_uint16 n : 0 ≤ n ≤ max_uint16 → get_uint16 (put_uint16 n) = n.
Proof.
  unfold max_uint16. intros H. unfold get_uint16, put_uint16.
  assert (0 ≤ Z.shiftr n 8 < 256).
  { rewrite Z.shiftr_div_pow2 by done. split; [apply Z.div_pos; lia|].
    apply Z.div_lt_upper_bound; lia. }
  assert (Z.land n 255 = n mod 2 ^ 8) as -> by (apply (Z.land_ones n 8); done).
  rewrite !byte_val_of by (try done; apply Z.mod_pos_bound; done).
  by apply lor_high_low.
Qed.

(** *** Decimal conversions *)

Lemma byte_of_val c : byte_of (byte_val c) = c.
Proof. unfold byte_of, byte_val. by rewrite N2Z.id, ascii_N_embedding. Qed.

Lemma is_digit_range c : is_digit c = true → 0 ≤ digit c ≤ 9.
Proof. unfold is_digit, byte_in, digit. intros H. propify. lia. Qed.

Lemma digits_number_snoc ds c : digits_number (ds ++ [c]) = digits_number ds * 10 + digit c.
Proof. unfold digits_number. by rewrite foldl_snoc. Qed.

Lemma digits_number_bound ds :
  forallb is_digit ds = true → 0 ≤ digits_number ds < 10 ^ Z.of_nat (length ds).
Proof.
  induction ds as [|c ds IH] using rev_ind; [done|].
  rewrite forallb_app, digits_number_snoc, length_app. simpl. intros H. propify.
  pose proof (is_digit_range c ltac:(done)). specialize (IH ltac:(done)).
  rewrite Nat2Z.inj_add, Z.pow_add_r by lia. simpl. lia.
Qed.

Lemma length_pad_digits w : ∀ n, length (pad_digits w n) = w.
Proof. induction w as [|w IH]; intros n; [done|]. simpl. rewrite length_app, IH. simpl. lia. Qed.

Lemma digit_byte k : 0 ≤ k < 10 → digit (byte_of (48 + k)) = k ∧ is_digit (byte_of (48 + k)) = true.
Proof.
  intros H. unfold digit, is_digit, byte_in. rewrite byte_val_of by lia.
  split; [lia|]. apply andb_true_iff. rewrite !Z.leb_le. lia.
Qed.

Lemma pad_digits_digits w : ∀ n, forallb is_digit (pad_digits w n) = true.
Proof.
  induction w as [|w IH]; intros n; [done|]. simpl. rewrite forallb_app, IH. simpl.
  rewrite (proj2 (digit_byte (n mod 10) ltac:(apply Z.mod_pos_bound; lia))). done.
Qed.

Lemma digits_number_pad w : ∀ n, 0 ≤ n < 10 ^ Z.of_nat w → digits_number (pad_digits w n) = n.
Proof.
  induction w as [|w IH]; intros n Hn; [simpl in *; unfold digits_number; simpl; lia|].
  cbn [pad_digits]. rewrite digits_number_snoc.
  rewrite Nat2Z.inj_succ, Z.pow_succ_r in Hn by lia.
  rewrite IH by (split; [apply Z.div_pos; lia|apply Z.div_lt_upper_bound; lia]).
  rewrite (proj1 (digit_byte (n mod 10) ltac:(apply Z.mod_pos_bound; lia))).
  pose proof (Z.div_mod n 10). lia.
Qed.

Lemma pad_digits_number ds :
  forallb is_digit ds = true → pad_digits (length ds) (digits_number ds) = ds.
Proof.
  induction ds as [|c ds IH] using rev_ind; [done|].
  rewrite forallb_app, digits_number_snoc, length_app. simpl. intros H. propify.
  pose proof (is_digit_range c ltac:(done)). rewrite Nat.add_comm. cbn [pad_digits Nat.add].
  rewrite Z.div_add_l, Z.div_small, Z.add_0_r, IH by (done || lia).
  replace ((digits_number ds * 10 + digit c) mod 10) with (digit c)
    by (rewrite Z.add_comm, Z.mod_add, Z.mod_small; lia).
  do 2 f_equal.
  unfold digit. replace (48 + (byte_val c - 48)) with (byte_val c) by lia. apply byte_of_val.
Qed.

Lemma ndigits_go_spec fuel : ∀ n,
  0 ≤ n < 10 * 2 ^ Z.of_nat fuel →
  n < 10 ^ Z.of_nat (ndigits_go fuel n)
  ∧ (n = 0 ∨ 10 ^ (Z.of_nat (ndigits_go fuel n) - 1) ≤ n) ∧ (1 ≤ ndigits_go fuel n)%nat.
Proof.
  induction fuel as [|f IH]; intros n Hn; cbn [ndigits_go]; [simpl in *; lia|].
  destruct (n <? 10) eqn:E; propify; [simpl; lia|].
  rewrite Nat2Z.inj_succ, Z.pow_succ_r in Hn by lia.
  destruct (IH (n / 10)) as (H1 & H2 & H3).
  { split; [apply Z.div_pos; lia|]. apply Z.div_lt_upper_bound; lia. }
  set (k := ndigits_go f (n / 10)) in *.
  assert (1 ≤ n / 10) by (apply Z.div_le_lower_bound; lia).
  split_and!; [|right|lia].
  - rewrite Nat2Z.inj_succ, Z.pow_succ_r by lia.
    pose proof (Z.mod_pos_bound n 10). pose proof (Z.div_mod n 10). lia.
  - rewrite Nat2Z.inj_succ. replace (Z.succ (Z.of_nat k) - 1) with (Z.succ (Z.of_nat k - 1)) by lia.
    rewrite Z.pow_succ_r by lia. destruct H2; [lia|].
    pose proof (Z.mul_div_le n 10). lia.
Qed.

Lemma ndigits_spec n :
  0 ≤ n → n < 10 ^ Z.of_nat (ndigits n)
  ∧ (n = 0 ∨ 10 ^ (Z.of_nat (ndigits n) - 1) ≤ n) ∧ (1 ≤ ndigits n)%nat.
Proof.
  intros Hn. apply ndigits_go_spec. split; [done|].
  destruct (Z.eq_dec n 0) as [->|]; [simpl; lia|].
  rewrite Z2Nat.id by apply Z.log2_nonneg.
  pose proof (Z.log2_spec n). rewrite Z.pow_succ_r in * by apply Z.log2_nonneg. lia.
Qed.

Lemma pow10_lt a b : 0 ≤ b → 10 ^ a < 10 ^ b → a < b.
Proof. intros Hb H. apply (Z.pow_lt_mono_r_iff 10); lia. Qed.

(** The digit count is determined by the two bounds. *)
Lemma ndigits_unique n k :
  (1 ≤ k)%nat → 0 ≤ n < 10 ^ Z.of_nat k → (k = 1%nat ∨ 10 ^ (Z.of_nat k - 1) ≤ n) →
  ndigits n = k.
Proof.
  intros Hk Hn Hlow. destruct (ndigits_spec n) as (H1 & H2 & H3); [lia|].
  assert (Z.of_nat (ndigits n) - 1 < Z.of_nat k).
  { destruct H2 as [->|]; [change (ndigits 0) with 1%nat; lia|]. apply pow10_lt; lia. }
  destruct Hlow as [->|]; [lia|].
  assert (Z.of_nat k - 1 < Z.of_nat (ndigits n)) by (apply pow10_lt; lia). lia.
Qed.

Lemma format_digits_length n k :
  0 ≤ n < 10 ^ Z.of_nat k → (1 ≤ k)%nat → (length (format_digits n) ≤ k)%nat.
Proof.
  intros Hn Hk. unfold format_digits. rewrite length_pad_digits.
  destruct (ndigits_spec n) as (_ & H2 & H3); [lia|]. destruct H2 as [->|H2]; [done|].
  assert (Z.of_nat (ndigits n) - 1 < Z.of_nat k); [|lia].
  apply (Z.pow_lt_mono_r_iff 10); lia.
Qed.

Lemma format_digits_value n : 0 ≤ n → digits_value (format_digits n) = Some n.
Proof.
  intros Hn. destruct (ndigits_spec n Hn) as (H1 & _ & H3).
  unfold digits_value, format_digits. rewrite length_pad_digits, pad_digits_digits.
  rewrite (proj2 (Nat.eqb_neq _ _)) by lia. simpl. by rewrite digits_number_pad.
Qed.

Lemma digits_value_nonneg ds n : digits_value ds = Some n → 0 ≤ n.
Proof.
  unfold digits_value. case_match; [|done]. intros [= <-]. propify.
  by apply digits_number_bound.
Qed.

(** Canonical digit strings, without a redundant leading zero, are exactly the
    formatted ones. *)
Lemma digits_value_canonical ds n :
  digits_value ds = Some n → (length ds = 1%nat ∨ head ds ≠ Some "0"%char) →
  format_digits n = ds.
Proof.
  unfold digits_value. intros H Hlead. case_match; [|done]. injection H as <-. propify.
  pose proof (digits_number_bound ds ltac:(done)) as Hb.
  unfold format_digits. rewrite (ndigits_unique _ (length ds)); [by apply pad_digits_number|lia|done|].
  destruct Hlead as [|Hlead]; [by left|right].
  destruct ds as [|c ds]; [done|]. cbn [forallb] in *. propify.
  assert (1 ≤ digit c).
  { pose proof (is_digit_range c ltac:(done)). destruct (Z.eq_dec (digit c) 0) as [E|]; [|lia].
    destruct Hlead. simpl. f_equal. rewrite <- (byte_of_val c). unfold digit in E.
    by replace (byte_val c) with 48 by lia. }
  assert (Hgen : ∀ l, forallb is_digit l = true →
    digit c * 10 ^ Z.of_nat (length l) ≤ digits_number (c :: l)).
  { induction l as [|x l IH] using rev_ind; intros Hl; [unfold digits_number; simpl; lia|].
    rewrite forallb_app in Hl. simpl in Hl. propify.
    rewrite app_comm_cons, digits_number_snoc, length_app. simpl.
    rewrite Nat2Z.inj_add, Z.pow_add_r by lia. simpl.
    pose proof (is_digit_range x ltac:(done)). specialize (IH ltac:(done)). lia. }
  specialize (Hgen ds ltac:(done)). cbn [length]. rewrite Nat2Z.inj_succ, Z.sub_1_r, Z.pred_succ.
  pose proof (Z.pow_pos_nonneg 10 (Z.of_nat (length ds))). nia.
Qed.

Lemma digits_number_cons_zero ds : digits_number ("0"%char :: ds) = digits_number ds.
Proof. done. Qed.

(** No redundant leading zero. *)
Lemma format_digits_lead n :
  0 ≤ n → head (format_digits n) = Some "0"%char → n = 0.
Proof.
  intros Hn H. destruct (ndigits_spec n Hn) as (H1 & H2 & H3).
  destruct H2 as [|H2]; [done|]. exfalso.
  pose proof (digits_number_pad _ _ (conj Hn H1)) as Hv. fold (format_digits n) in Hv.
  pose proof (length_pad_digits (ndigits n) n) as Hl. fold (format_digits n) in Hl.
  pose proof (pad_digits_digits (ndigits n) n) as Hd. fold (format_digits n) in Hd.
  destruct (format_digits n) as [|c ds]; [done|]. injection H as ->.
  rewrite digits_number_cons_zero in Hv. cbn [forallb] in Hd. propify.
  pose proof (digits_number_bound ds ltac:(done)). simpl in Hl.
  replace (Z.of_nat (ndigits n) - 1) with (Z.of_nat (length ds)) in H2 by lia. lia.
Qed.

Lemma format_digits_nonempty n : 0 ≤ n → format_digits n ≠ [].
Proof.
  intros Hn E. pose proof (length_pad_digits (ndigits n) n) as Hl.
  fold (format_digits n) in Hl. rewrite E in Hl. simpl in Hl.
  pose proof (ndigits_spec n Hn). lia.
Qed.

Lemma format_digits_digits n : forallb is_digit (format_digits n) = true.
Proof. apply pad_digits_digits. Qed.

Lemma parse_format_uint n : 0 ≤ n ≤ max_uint64 → parse_uint64 (format_uint n) = Some n.
Proof.
  intros H. unfold parse_uint64, format_uint. rewrite bytes_of_string_of, format_digits_value by lia.
  simpl. by rewrite (proj2 (Z.leb_le _ _)) by lia.
Qed.

Lemma format_digits_head n c : head (format_digits n) = Some c → is_digit c = true.
Proof.
  unfold format_digits. pose proof (pad_digits_digits (ndigits n) n) as H.
  destruct (pad_digits _ _); [done|]. simpl in *. intros [= ->]. by propify.
Qed.

Lemma parse_format_int n : - max_int64 - 1 ≤ n ≤ max_int64 → parse_int64 (format_int n) = Some n.
Proof.
  intros H. unfold parse_int64, format_int. destruct (n <? 0) eqn:E; propify.
  - rewrite bytes_of_string_of, format_digits_value by lia. simpl.
    rewrite (proj2 (Z.leb_le _ _)) by lia. f_equal; lia.
  - unfold format_uint. rewrite bytes_of_string_of.
    pose proof (format_digits_head n) as Hh. pose proof (format_digits_value n E) as Hv.
    destruct (format_digits n) as [|c ds]; [done|].
    specialize (Hh c eq_refl).
    destruct c as [[] [] [] [] [] [] [] []]; try discriminate Hh;
      rewrite Hv; simpl; by rewrite (proj2 (Z.leb_le _ _)) by lia.
Qed.

(** *** Slices *)

Lemma length_bytes_of s : Z.of_nat (length (bytes_of s)) = slen s.
Proof. done. Qed.

Lemma log2_small a k : 0 ≤ a < 2 ^ k → 0 < k → Z.log2 a < k.
Proof.
  intros Ha Hk. destruct (Z.eq_dec a 0) as [->|]; [done|]. apply Z.log2_lt_pow2; lia.
Qed.

Lemma get_uint16_value h l : get_uint16 [h; l] = byte_val h * 256 + byte_val l.
Proof.
  unfold get_uint16. pose proof (byte_val_range h). pose proof (byte_val_range l).
  rewrite <- Z.add_nocarry_lor; [by rewrite Z.shiftl_mul_pow2|].
  apply Z.bits_inj'. intros i Hi. rewrite Z.land_spec, Z.bits_0, Z.shiftl_spec by done.
  destruct (Z.lt_ge_cases i 8); [by rewrite Z.testbit_neg_r by lia|].
  rewrite (Z.bits_above_log2 (byte_val l)); [by rewrite andb_false_r|lia|].
  apply Z.lt_le_trans with 8; [by apply log2_small; lia|done].
Qed.

Lemma put_get_uint16 h l : put_uint16 (get_uint16 [h; l]) = [h; l].
Proof.
  pose proof (byte_val_range h). pose proof (byte_val_range l).
  unfold put_uint16. rewrite get_uint16_value.
  rewrite Z.shiftr_div_pow2 by done. change (Z.land ?x 255) with (Z.land x (Z.ones 8)).
  rewrite Z.land_ones by done. change (2 ^ 8) with 256.
  rewrite Z.div_add_l, (Z.div_small (byte_val l)) by lia.
  replace ((byte_val h * 256 + byte_val l) mod 256) with (byte_val l)
    by (rewrite Z.add_comm, Z.mod_add, Z.mod_small; lia).
  rewrite Z.add_0_r. unfold byte_of, byte_val. by rewrite !N2Z.id, !ascii_N_embedding.
Qed.

Lemma get_uint16_bound b : 0 ≤ get_uint16 b ≤ max_uint16.
Proof.
  destruct b as [|h [|l [|]]]; try (unfold max_uint16; simpl; lia).
  rewrite get_uint16_value. pose proof (byte_val_range h). pose proof (byte_val_range l).
  unfold max_uint16. lia.
Qed.
