(* ===== verification/GoTime.v ===== *)
(** * The instants of Go's [time] package the value codec uses

    A [time.Time] already converted to UTC: whole Unix seconds and nanoseconds.
    [time.Parse] and [Time.Format] at [RFC3339Nano], over the proleptic
    Gregorian calendar. *)
From S2P Require Import Prelude GoStd.
Local Open Scope Z_scope.

Record Time := mkTime { Unix : Z; Nanosecond : Z }.
#[export] Instance Time_eq_dec : EqDecision Time.
Proof. solve_decision. Defined.

(** ** Calendar *)

(** Days since 1970-01-01 of a civil date. *)
Definition days_from_civil (y m d : Z) : Z :=
  let y := if m <=? 2 then y - 1 else y in
  let era := y / 400 in
  let yoe := y mod 400 in
  let doy := (153 * (if 2 <? m then m - 3 else m + 9) + 2) / 5 + d - 1 in
  era * 146097 + (yoe * 365 + yoe / 4 - yoe / 100 + doy) - 719468.

(** The civil date of a day number. *)
Definition civil_from_days (z : Z) : Z * Z * Z :=
  let z := z + 719468 in
  let era := z / 146097 in
  let doe := z mod 146097 in
  let yoe := (doe - doe / 1460 + doe / 36524 - doe / 146096) / 365 in
  let doy := doe - (365 * yoe + yoe / 4 - yoe / 100) in
  let mp := (5 * doy + 2) / 153 in
  let d := doy - (153 * mp + 2) / 5 + 1 in
  let m := if mp <? 10 then mp + 3 else mp - 9 in
  (if m <=? 2 then yoe + era * 400 + 1 else yoe + era * 400, m, d).

Definition is_leap (y : Z) : bool :=
  (y mod 4 =? 0) && (negb (y mod 100 =? 0) || (y mod 400 =? 0)).
Definition days_in (m y : Z) : Z :=
  if m =? 2 then if is_leap y then 29 else 28
  else if (m =? 4) || (m =? 6) || (m =? 9) || (m =? 11) then 30 else 31.

(** [t.UTC().Year()]. *)
Definition utc_year (t : Time) : Z := let '(y, _, _) := civil_from_days (Unix t / 86400) in y.

(** ** Parsing *)

Definition byte_at (b : bytes) (i : nat) : ascii := default (byte_of 0) (b !! i).
Definition num2 (b : bytes) (i : nat) : Z := digit (byte_at b i) * 10 + digit (byte_at b (S i)).

Fixpoint span_digits (b : bytes) : bytes * bytes :=
  match b with
  | c :: b' => if is_digit c then let '(ds, r) := span_digits b' in (c :: ds, r) else ([], b)
  | [] => ([], [])
  end.

(** Nanoseconds of up to nine fraction digits. *)
Definition nanos_of (ds : bytes) : Z := digits_number ds * 10 ^ (9 - Z.of_nat (length ds)).

(** The optional fraction: a period followed by at least one digit. *)
Definition parse_fraction (b : bytes) : Z * bytes :=
  match b with
  | "."%char :: ((c :: _) as r) =>
    if is_digit c then let '(ds, r) := span_digits r in (nanos_of ds, r) else (0, b)
  | _ => (0, b)
  end.

(** The zone suffix: [Z] or a signed [hh:mm], nothing after it. *)
Definition parse_zone (b : bytes) : option Z :=
  match b with
  | ["Z"%char] => Some 0
  | [s; h1; h2; ":"%char; m1; m2] =>
    if forallb is_digit [h1; h2; m1; m2] then
      let hr := digit h1 * 10 + digit h2 in
      let mm := digit m1 * 10 + digit m2 in
      if (24 <? hr) || (60 <? mm) then None
      else if Ascii.eqb s "+" then Some ((hr * 60 + mm) * 60)
      else if Ascii.eqb s "-" then Some (- ((hr * 60 + mm) * 60))
      else None
    else None
  | _ => None
  end.

(** [time.Parse(time.RFC3339Nano, s)] on a string whose date and time digits and
    separators have been checked: the local year and the instant. *)
Definition parse_rfc3339nano (b : bytes) : option (Z * Time) :=
  let year := num2 b 0 * 100 + num2 b 2 in
  let month := num2 b 5 in let day := num2 b 8 in
  let hour := num2 b 11 in let min := num2 b 14 in let sec := num2 b 17 in
  if (month <? 1) || (12 <? month) || (day <? 1) || (days_in month year <? day)
     || (23 <? hour) || (59 <? min) || (59 <? sec) then None
  else
    let '(nanos, rest) := parse_fraction (drop 19 b) in
    offset ← parse_zone rest;
    Some (year, mkTime (days_from_civil year month day * 86400
                        + hour * 3600 + min * 60 + sec - offset) nanos).

(** ** Formatting *)

(** Removes trailing zero digits. *)
Definition trim_zeros (ds : bytes) : bytes :=
  reverse ((fix go (l : bytes) := match l with
                                  | c :: l' => if Ascii.eqb c "0" then go l' else l
                                  | [] => []
                                  end) (reverse ds)).

(** At least four year digits, a minus sign before year 0. *)
Definition year_text (y : Z) : bytes :=
  let a := Z.abs y in
  (if y <? 0 then ["-"%char] else [])
  ++ (if a <? 10000 then pad_digits 4 a else format_digits a).

(** [t.Format(time.RFC3339Nano)] of a UTC time. *)
Definition format_rfc3339nano (t : Time) : bytes :=
  let '(y, m, d) := civil_from_days (Unix t / 86400) in
  let s := Unix t mod 86400 in
  year_text y ++ ["-"%char] ++ pad_digits 2 m ++ ["-"%char] ++ pad_digits 2 d
  ++ ["T"%char] ++ pad_digits 2 (s / 3600) ++ [":"%char] ++ pad_digits 2 (s / 60 mod 60)
  ++ [":"%char] ++ pad_digits 2 (s mod 60)
  ++ (if Nanosecond t =? 0 then [] else "."%char :: trim_zeros (pad_digits 9 (Nanosecond t)))
  ++ ["Z"%char].

(** ** The calendar *)

(** The first day of year [c] of a 400-year era, which starts in March. *)
Definition era_first (c : Z) : Z := 365 * c + c / 4 - c / 100 + c / 400.
(** The numerator of the year estimate. *)
Definition era_scaled (doe : Z) : Z := doe - doe / 1460 + doe / 36524 - doe / 146096.

Definition upto (n : nat) : list Z := map Z.of_nat (seq 0 n).
Lemma upto_elem n z : 0 ≤ z < Z.of_nat n → z ∈ upto n.
Proof.
  intros H. unfold upto. apply list_elem_of_fmap. exists (Z.to_nat z). split; [lia|].
  apply elem_of_seq. lia.
Qed.
Lemma forallb_upto (f : Z → bool) n : forallb f (upto n) = true → ∀ z, 0 ≤ z < Z.of_nat n → f z = true.
Proof.
  intros H z Hz. apply (proj1 (List.forallb_forall _ _) H).
  apply list_elem_of_In, upto_elem, Hz.
Qed.

Lemma era_scaled_step d : 0 ≤ d < 146096 → era_scaled d ≤ era_scaled (d + 1).
Proof. intros H. unfold era_scaled. Z.to_euclidean_division_equations. lia. Qed.

Lemma era_scaled_mono a b : 0 ≤ a ≤ b → b ≤ 146096 → era_scaled a ≤ era_scaled b.
Proof.
  intros Hab Hb. replace b with (a + Z.of_nat (Z.to_nat (b - a))) in * by lia.
  generalize (Z.to_nat (b - a)) as n, Hb. induction n as [|n IH]; intros Hn; [rewrite Z.add_0_r; lia|].
  rewrite Nat2Z.inj_succ in *. replace (a + Z.succ (Z.of_nat n)) with (a + Z.of_nat n + 1) in * by lia.
  etransitivity; [apply IH; lia|]. apply era_scaled_step. lia.
Qed.

Definition era_check (c : Z) : bool :=
  ((c =? 0) || (era_scaled (era_first c - 1) <? 365 * c))
  && ((c =? 400) || (365 * c <=? era_scaled (era_first c))).
Lemma era_checked : forallb era_check (upto 401) = true.
Proof. vm_compute. reflexivity. Qed.

Lemma year_of_era doe : 0 ≤ doe < 146097 →
  let c := era_scaled doe / 365 in 0 ≤ c < 400 ∧ era_first c ≤ doe < era_first (c + 1).
Proof.
  intros Hd c. pose proof (forallb_upto _ _ era_checked) as Hc.
  pose proof (era_scaled_mono 0 doe ltac:(lia) ltac:(lia)) as H0. change (era_scaled 0) with 0 in H0.
  pose proof (era_scaled_mono doe 146096 ltac:(lia) ltac:(lia)) as H1.
  change (era_scaled 146096) with 145999 in H1.
  assert (0 ≤ c < 400) as Hr by (subst c; split; [apply Z.div_pos; lia|apply Z.div_lt_upper_bound; lia]).
  assert (365 * c ≤ era_scaled doe < 365 * (c + 1)) as Hs
    by (subst c; Z.to_euclidean_division_equations; lia).
  split; [done|]. clearbody c. unfold era_check in Hc. split.
  - destruct (Z.lt_ge_cases doe (era_first c)); [exfalso|done].
    destruct (Z.eq_dec c 0) as [->|Hc0]; [change (era_first 0) with 0 in *; lia|].
    specialize (Hc c ltac:(lia)). propify.
    match goal with H : (c =? 0) || _ = true |- _ => apply orb_true_iff in H as [?|?] end; propify; [lia|].
    assert (era_first c ≤ 146097) by (unfold era_first; Z.to_euclidean_division_equations; lia).
    pose proof (era_scaled_mono doe (era_first c - 1) ltac:(lia) ltac:(lia)). lia.
  - destruct (Z.lt_ge_cases doe (era_first (c + 1))); [done|exfalso].
    destruct (Z.eq_dec c 399) as [->|Hc0]; [change (era_first (399 + 1)) with 146097 in *; lia|].
    specialize (Hc (c + 1) ltac:(lia)). propify.
    match goal with H : (c + 1 =? 400) || _ = true |- _ => apply orb_true_iff in H as [?|?] end; propify; [lia|].
    assert (0 ≤ era_first (c + 1)) by (unfold era_first; Z.to_euclidean_division_equations; lia).
    pose proof (era_scaled_mono (era_first (c + 1)) doe ltac:(lia) ltac:(lia)). lia.
Qed.

(** The month and day of a day of the March-based year. *)
Definition month_of (doy : Z) : Z := let mp := (5 * doy + 2) / 153 in if mp <? 10 then mp + 3 else mp - 9.
Definition day_of (doy : Z) : Z := doy - (153 * ((5 * doy + 2) / 153) + 2) / 5 + 1.
Definition doy_of (m d : Z) : Z := (153 * (if 2 <? m then m - 3 else m + 9) + 2) / 5 + d - 1.
Definition month_check (doy : Z) : bool :=
  let m := month_of doy in let d := day_of doy in
  (1 <=? m) && (m <=? 12) && (1 <=? d) && (doy_of m d =? doy)
  && (d <=? if m =? 2 then (if doy =? 365 then 29 else 28) else days_in m 0).
Lemma months_checked : forallb month_check (upto 366) = true.
Proof. vm_compute. reflexivity. Qed.

Definition leap_check (c : Z) : bool :=
  (era_first (c + 1) - era_first c <=? 365) || is_leap (c + 1).
Lemma leaps_checked : forallb leap_check (upto 400) = true.
Proof. vm_compute. reflexivity. Qed.

Lemma is_leap_period y k : is_leap (y + k * 400) = is_leap y.
Proof.
  unfold is_leap.
  replace ((y + k * 400) mod 4) with (y mod 4) by (Z.to_euclidean_division_equations; lia).
  replace ((y + k * 400) mod 100) with (y mod 100) by (Z.to_euclidean_division_equations; lia).
  by rewrite Z.mod_add by lia.
Qed.

Lemma civil_from_days_valid z :
  let '(y, m, d) := civil_from_days z in
  1 ≤ m ≤ 12 ∧ 1 ≤ d ≤ days_in m y ∧ days_from_civil y m d = z.
Proof.
  unfold civil_from_days. set (era := (z + 719468) / 146097). set (doe := (z + 719468) mod 146097).
  assert (Hd : 0 ≤ doe < 146097) by (apply Z.mod_pos_bound; lia).
  assert (Hz : z + 719468 = era * 146097 + doe) by (subst era doe; Z.to_euclidean_division_equations; lia).
  pose proof (year_of_era doe Hd) as [Hc Hf]. fold (era_scaled doe). set (c := era_scaled doe / 365) in *.
  clearbody era doe c.
  assert (Hdoy : doe - (365 * c + c / 4 - c / 100) = doe - era_first c)
    by (unfold era_first; rewrite (Z.div_small c 400) by lia; lia).
  rewrite Hdoy. set (doy := doe - era_first c) in *.
  pose proof (forallb_upto _ _ leaps_checked c ltac:(lia)) as Hleap. unfold leap_check in Hleap.
  assert (Hlen : era_first (c + 1) - era_first c ≤ 366) by (unfold era_first; Z.to_euclidean_division_equations; lia).
  pose proof (forallb_upto _ _ months_checked doy ltac:(subst doy; lia)) as Hm.
  unfold month_check in Hm. fold (month_of doy) (day_of doy). propify.
  set (m := month_of doy) in *. set (d := day_of doy) in *.
  assert (Hdays : d ≤ days_in m (if m <=? 2 then c + era * 400 + 1 else c + era * 400)).
  { unfold days_in in *. destruct (m =? 2) eqn:E2; propify; [|done]. subst m.
    rewrite E2. change (2 <=? 2) with true. cbv iota.
    replace (c + era * 400 + 1) with (c + 1 + era * 400) by lia. rewrite is_leap_period.
    destruct (doy =? 365) eqn:E365; propify; [|destruct (is_leap (c + 1)); lia].
    apply orb_true_iff in Hleap as [Hl| ->]; propify; lia. }
  split_and!; try done; try lia.
  unfold days_from_civil.
  replace (if m <=? 2 then (if m <=? 2 then c + era * 400 + 1 else c + era * 400) - 1
           else if m <=? 2 then c + era * 400 + 1 else c + era * 400) with (c + era * 400)
    by (destruct (m <=? 2); lia).
  rewrite Z.div_add, Z.mod_add, Z.div_small, Z.mod_small by lia. fold (doy_of m d). lia.
Qed.

(** ** Formatting reads back *)

Definition nanos_ok (t : Time) : Prop := 0 ≤ Nanosecond t < 1000000000.
Definition year_ok (t : Time) : Prop := 1 ≤ utc_year t ≤ 9999.

Lemma num_digit x : digit (byte_of (48 + x mod 10)) = x mod 10.
Proof. apply digit_byte, Z.mod_pos_bound. lia. Qed.
Lemma num_is_digit x : is_digit (byte_of (48 + x mod 10)) = true.
Proof. apply digit_byte, Z.mod_pos_bound. lia. Qed.

(** The date and time part: nineteen bytes. *)
Definition stamp (y m d s : Z) : bytes :=
  pad_digits 4 y ++ "-"%char :: pad_digits 2 m ++ "-"%char :: pad_digits 2 d
  ++ "T"%char :: pad_digits 2 (s / 3600) ++ ":"%char :: pad_digits 2 (s / 60 mod 60)
  ++ ":"%char :: pad_digits 2 (s mod 60).

Lemma format_stamp t : year_ok t →
  let '(y, m, d) := civil_from_days (Unix t / 86400) in
  format_rfc3339nano t = stamp y m d (Unix t mod 86400) ++
    (if Nanosecond t =? 0 then [] else "."%char :: trim_zeros (pad_digits 9 (Nanosecond t))) ++ ["Z"%char].
Proof.
  unfold year_ok, utc_year, format_rfc3339nano.
  destruct (civil_from_days (Unix t / 86400)) as [[y m] d]. intros Hy.
  unfold year_text. rewrite (proj2 (Z.ltb_ge _ _)), Z.abs_eq, (proj2 (Z.ltb_lt _ _)) by lia.
  unfold stamp. rewrite <- !app_assoc. cbn [app]. done.
Qed.

(** *** Trailing zeros *)

Lemma digits_number_app a b :
  digits_number (a ++ b) = digits_number a * 10 ^ Z.of_nat (length b) + digits_number b.
Proof.
  induction b as [|c b IH] using rev_ind; [rewrite app_nil_r; unfold digits_number at 3; simpl; lia|].
  rewrite app_assoc, !digits_number_snoc, IH, length_app, Nat2Z.inj_add, Z.pow_add_r by lia.
  change (10 ^ Z.of_nat (length [c])) with 10. lia.
Qed.

Lemma digits_number_zeros k : digits_number (repeat "0"%char k) = 0.
Proof. induction k as [|k IH]; [done|]. cbn [repeat]. by rewrite digits_number_cons_zero. Qed.

Lemma trim_zeros_spec ds : ∃ k, ds = trim_zeros ds ++ repeat "0"%char k.
Proof.
  unfold trim_zeros. set (go := fix go (l : bytes) := _).
  assert (Hg : ∀ l, ∃ k, l = repeat "0"%char k ++ go l).
  { induction l as [|c l [k IH]]; [by exists O|]. simpl. destruct (Ascii.eqb c "0") eqn:E.
    - apply Ascii.eqb_eq in E as ->. exists (S k). simpl. by rewrite IH at 1.
    - by exists O. }
  destruct (Hg (reverse ds)) as [k Hk]. exists k.
  rewrite <- (reverse_involutive ds), Hk at 1. rewrite reverse_app. f_equal.
  clear. induction k as [|k IH]; [done|]. cbn [repeat]. rewrite reverse_cons, IH.
  clear. induction k as [|k IH]; [done|]. cbn [repeat app]. by rewrite IH.
Qed.

Lemma trim_zeros_digits n ds :
  forallb is_digit ds = true → digits_number ds = n → 0 < n → length ds = 9%nat →
  let ts := trim_zeros ds in
  forallb is_digit ts = true ∧ (1 ≤ length ts ≤ 9)%nat ∧ nanos_of ts = n.
Proof.
  intros Hd Hn Hpos Hl ts. destruct (trim_zeros_spec ds) as [k Hk]. fold ts in Hk.
  rewrite Hk, forallb_app in Hd. apply andb_true_iff in Hd as [Hd _].
  assert (Hlen : (length ts + k = 9)%nat) by (rewrite Hk, length_app, repeat_length in Hl; lia).
  split; [done|]. rewrite Hk, digits_number_app, digits_number_zeros, repeat_length, Z.add_0_r in Hn.
  split.
  - split; [|lia]. destruct ts; [|simpl; lia]. unfold digits_number in Hn. simpl in Hn. lia.
  - unfold nanos_of. replace (9 - Z.of_nat (length ts)) with (Z.of_nat k) by lia. done.
Qed.

Lemma span_digits_app ds r : forallb is_digit ds = true →
  match r with c :: _ => is_digit c = false | [] => True end → span_digits (ds ++ r) = (ds, r).
Proof.
  intros Hd Hr. induction ds as [|c ds IH].
  - destruct r as [|c r]; [done|]. simpl. by rewrite Hr.
  - cbn [forallb] in Hd. apply andb_true_iff in Hd as [Hc Hd]. cbn [span_digits app].
    by rewrite Hc, IH.
Qed.

(** The fraction and zone of a formatted time. *)
Definition tail_text (n : Z) : bytes :=
  (if n =? 0 then [] else "."%char :: trim_zeros (pad_digits 9 n)) ++ ["Z"%char].

Lemma fraction_digits n : 0 < n < 1000000000 →
  let ts := trim_zeros (pad_digits 9 n) in
  forallb is_digit ts = true ∧ (1 ≤ length ts ≤ 9)%nat ∧ nanos_of ts = n.
Proof.
  intros Hn. apply trim_zeros_digits; [apply pad_digits_digits| |lia|apply length_pad_digits].
  apply digits_number_pad. simpl. lia.
Qed.

Lemma parse_fraction_tail n : 0 ≤ n < 1000000000 → parse_fraction (tail_text n) = (n, ["Z"%char]).
Proof.
  intros Hn. unfold tail_text. destruct (n =? 0) eqn:E; propify; [by subst|].
  destruct (fraction_digits n ltac:(lia)) as (Hd & Hl & Hv).
  set (ts := trim_zeros _) in *. destruct ts as [|c r] eqn:Ets; [simpl in Hl; lia|].
  cbn [app parse_fraction]. cbn [forallb] in Hd. apply andb_true_iff in Hd as [Hc Hd].
  rewrite Hc. change (c :: r ++ ["Z"%char]) with ((c :: r) ++ ["Z"%char]).
  rewrite span_digits_app by (cbn [forallb]; rewrite ?Hc; done). by rewrite Hv.
Qed.

Lemma drop_stamp y m d s r : drop 19 (stamp y m d s ++ r) = r.
Proof. done. Qed.

Lemma parse_format t : year_ok t → nanos_ok t →
  parse_rfc3339nano (format_rfc3339nano t) = Some (utc_year t, t).
Proof.
  intros Hy Hn. pose proof (format_stamp t Hy) as Hf. unfold year_ok, utc_year in *.
  pose proof (civil_from_days_valid (Unix t / 86400)) as Hc.
  destruct (civil_from_days (Unix t / 86400)) as [[y m] d]. destruct Hc as (Hm & Hd & Hz).
  rewrite Hf. fold (tail_text (Nanosecond t)). unfold parse_rfc3339nano. rewrite drop_stamp.
  rewrite parse_fraction_tail by done.
  pose proof (Z.mod_pos_bound (Unix t) 86400 ltac:(lia)) as Hs.
  set (s := Unix t mod 86400) in *.
  assert (Hdim : days_in m y ≤ 31) by (unfold days_in; repeat case_match; lia).
  unfold num2, byte_at, stamp.
  cbn [pad_digits app lookup list_lookup default from_option id].
  rewrite !num_digit.
  replace (((y / 10 / 10 / 10) mod 10 * 10 + (y / 10 / 10) mod 10) * 100 + ((y / 10) mod 10 * 10 + y mod 10)) with y
    by (Z.to_euclidean_division_equations; lia).
  replace ((m / 10) mod 10 * 10 + m mod 10) with m by (Z.to_euclidean_division_equations; lia).
  replace ((d / 10) mod 10 * 10 + d mod 10) with d by (Z.to_euclidean_division_equations; lia).
  replace ((s / 3600 / 10) mod 10 * 10 + (s / 3600) mod 10) with (s / 3600) by (Z.to_euclidean_division_equations; lia).
  replace ((s / 60 mod 60 / 10) mod 10 * 10 + (s / 60 mod 60) mod 10) with (s / 60 mod 60) by (Z.to_euclidean_division_equations; lia).
  replace ((s mod 60 / 10) mod 10 * 10 + (s mod 60) mod 10) with (s mod 60) by (Z.to_euclidean_division_equations; lia).
  match goal with |- (if ?c then _ else _) = _ => assert (c = false) as -> end.
  { false_split; Z.to_euclidean_division_equations; lia. }
  cbn [parse_zone mbind option_bind]. f_equal. f_equal. destruct t as [u n]. cbn in *.
  f_equal. rewrite Hz. subst s. Z.to_euclidean_division_equations; lia.
Qed.
