(* ===== verification/GoJson.v ===== *)
(** * Go's [encoding/json] token reader

    [json.Decoder] over a complete byte slice, with [UseNumber]: the token state
    machine of [Token] and [More], and the lexers for strings, numbers and
    literals it runs on scalars. *)
From S2P Require Import Prelude GoStd.
Local Open Scope Z_scope.

(** ** Lexing scalars *)

Definition is_space (c : ascii) : bool :=
  (byte_val c =? 32) || (byte_val c =? 9) || (byte_val c =? 10) || (byte_val c =? 13).

Fixpoint skip_space (b : bytes) : bytes :=
  match b with
  | c :: b' => if is_space c then skip_space b' else b
  | [] => []
  end.

Definition hex_value (c : ascii) : option Z :=
  if byte_in 48 57 c then Some (byte_val c - 48)
  else if byte_in 97 102 c then Some (byte_val c - 87)
  else if byte_in 65 70 c then Some (byte_val c - 55)
  else None.

(** [strconv.ParseUint(s, 16, 16)] on four bytes. *)
Definition hex4 (a b c d : ascii) : option Z :=
  x ← hex_value a; y ← hex_value b; z ← hex_value c; w ← hex_value d;
  Some (((x * 16 + y) * 16 + z) * 16 + w).

(** [utf8.AppendRune] for a valid code point. *)
Definition encode_rune (r : Z) : bytes :=
  if r <? 128 then [byte_of r]
  else if r <? 2048 then [byte_of (192 + r / 64); byte_of (128 + r mod 64)]
  else if r <? 65536 then
    [byte_of (224 + r / 4096); byte_of (128 + r / 64 mod 64); byte_of (128 + r mod 64)]
  else [byte_of (240 + r / 262144); byte_of (128 + r / 4096 mod 64);
        byte_of (128 + r / 64 mod 64); byte_of (128 + r mod 64)].

Definition replacement_char : Z := 65533.
Definition is_high_surrogate (r : Z) : bool := (55296 <=? r) && (r <=? 56319).
Definition is_low_surrogate (r : Z) : bool := (56320 <=? r) && (r <=? 57343).

(** The number of bytes of the valid sequence at the front, 0 for none. *)
Definition utf8_width (b : bytes) : nat :=
  match b with
  | a :: _ =>
    if byte_in 0 127 a then 1%nat
    else if byte_in 194 223 a && utf8_valid (take 2 b) then 2%nat
    else if byte_in 224 239 a && utf8_valid (take 3 b) then 3%nat
    else if byte_in 240 244 a && utf8_valid (take 4 b) then 4%nat
    else O
  | [] => O
  end.

(** The single-letter escapes. *)
Definition escape_byte (c : ascii) : option Z :=
  let v := byte_val c in
  if (v =? 34) || (v =? 92) || (v =? 47) then Some v
  else if v =? 98 then Some 8
  else if v =? 102 then Some 12
  else if v =? 110 then Some 10
  else if v =? 114 then Some 13
  else if v =? 116 then Some 9
  else None.

(** The body of a string literal after its opening quote: the decoded bytes and
    what follows the closing quote. [None] is a syntax error. Each turn reads at
    least one byte. *)
Fixpoint lex_string (fuel : nat) (b : bytes) : option (bytes * bytes) :=
  match fuel with
  | O => None
  | S f =>
    match b with
    | [] => None
    | c :: t =>
      if byte_val c =? 34 then Some ([], t)
      else if byte_val c <? 32 then None
      else if byte_val c =? 92 then
        match t with
        | "u"%char :: a1 :: a2 :: a3 :: a4 :: t1 =>
          u ← hex4 a1 a2 a3 a4;
          if is_high_surrogate u || is_low_surrogate u then
            match t1 with
            | "\"%char :: "u"%char :: b1 :: b2 :: b3 :: b4 :: t2 =>
              match hex4 b1 b2 b3 b4 with
              | Some l =>
                if is_high_surrogate u && is_low_surrogate l then
                  '(s, r) ← lex_string f t2;
                  Some (encode_rune ((u - 55296) * 1024 + (l - 56320) + 65536) ++ s, r)
                else '(s, r) ← lex_string f t1; Some (encode_rune replacement_char ++ s, r)
              | None => None
              end
            | _ => '(s, r) ← lex_string f t1; Some (encode_rune replacement_char ++ s, r)
            end
          else '(s, r) ← lex_string f t1; Some (encode_rune u ++ s, r)
        | e :: t1 =>
          v ← escape_byte e;
          '(s, r) ← lex_string f t1; Some (byte_of v :: s, r)
        | [] => None
        end
      else
        match utf8_width b with
        | O => '(s, r) ← lex_string f t; Some (encode_rune replacement_char ++ s, r)
        | w => '(s, r) ← lex_string f (drop w b); Some (take w b ++ s, r)
        end
    end
  end.

Fixpoint span_digit_bytes (b : bytes) : bytes * bytes :=
  match b with
  | c :: b' => if is_digit c then let '(ds, r) := span_digit_bytes b' in (c :: ds, r) else ([], b)
  | [] => ([], [])
  end.

(** One or more digits. *)
Definition lex_digits1 (b : bytes) : option (bytes * bytes) :=
  let '(ds, r) := span_digit_bytes b in
  match ds with [] => None | _ => Some (ds, r) end.

Definition lex_int_part (b : bytes) : option (bytes * bytes) :=
  match b with
  | "0"%char :: t => Some (["0"%char], t)
  | _ => lex_digits1 b
  end.
Definition lex_frac_part (b : bytes) : option (bytes * bytes) :=
  match b with
  | "."%char :: t => '(ds, r) ← lex_digits1 t; Some ("."%char :: ds, r)
  | _ => Some ([], b)
  end.
Definition is_exp (c : ascii) : bool := Ascii.eqb c "e" || Ascii.eqb c "E".
Definition is_sign (c : ascii) : bool := Ascii.eqb c "+" || Ascii.eqb c "-".
Definition lex_exp_part (b : bytes) : option (bytes * bytes) :=
  match b with
  | e :: t =>
    if is_exp e then
      match t with
      | s :: t' => if is_sign s then '(ds, r) ← lex_digits1 t'; Some (e :: s :: ds, r)
                   else '(ds, r) ← lex_digits1 t; Some (e :: ds, r)
      | [] => None
      end
    else Some ([], b)
  | [] => Some ([], [])
  end.
(** The longest JSON number at the front. *)
Definition lex_number (b : bytes) : option (bytes * bytes) :=
  let '(sign, b) := match b with "-"%char :: t => (["-"%char], t) | _ => ([], b) end in
  '(i, b) ← lex_int_part b;
  '(f, b) ← lex_frac_part b;
  '(e, b) ← lex_exp_part b;
  Some (sign ++ i ++ f ++ e, b).

Fixpoint strip_prefix (p b : bytes) : option bytes :=
  match p, b with
  | [], _ => Some b
  | x :: p, y :: b => if Ascii.eqb x y then strip_prefix p b else None
  | _ :: _, [] => None
  end.

Inductive json_token :=
| TDelim (c : ascii)
| TString (s : string)
| TNumber (s : string)
| TBool (b : bool)
| TNull.

Definition lex_literal (word : string) (t : json_token) (b : bytes) : option (json_token * bytes) :=
  r ← strip_prefix (bytes_of word) b; Some (t, r).

(** One scalar value starting at a non-space byte. *)
Definition lex_scalar (b : bytes) : option (json_token * bytes) :=
  match b with
  | c :: t =>
    if Ascii.eqb c "034"%char then '(s, r) ← lex_string (S (length t)) t; Some (TString (string_of s), r)
    else if Ascii.eqb c "t" then lex_literal "true" (TBool true) b
    else if Ascii.eqb c "f" then lex_literal "false" (TBool false) b
    else if Ascii.eqb c "n" then lex_literal "null" TNull b
    else '(s, r) ← lex_number b; Some (TNumber (string_of s), r)
  | [] => None
  end.

(** ** json.Decoder *)

Inductive tokenState :=
| tokenTopValue | tokenArrayStart | tokenArrayValue | tokenArrayComma
| tokenObjectStart | tokenObjectKey | tokenObjectColon | tokenObjectValue | tokenObjectComma.
#[export] Instance tokenState_eq_dec : EqDecision tokenState.
Proof. solve_decision. Defined.

Record Decoder := mkDecoder {
  input : bytes;
  tstate : tokenState;
  tstack : list tokenState
}.
Definition NewDecoder (data : bytes) : Decoder := mkDecoder data tokenTopValue [].

(** [io.EOF] is told apart from every syntax error. *)
Inductive token_error := TokenEOF | TokenSyntax.

Definition tokenValueAllowed (s : tokenState) : bool :=
  match s with
  | tokenTopValue | tokenArrayStart | tokenArrayValue | tokenObjectValue => true
  | _ => false
  end.
Definition tokenValueEnd (s : tokenState) : tokenState :=
  match s with
  | tokenArrayStart | tokenArrayValue => tokenArrayComma
  | tokenObjectValue => tokenObjectComma
  | s => s
  end.

Definition decode_scalar (d : Decoder) : res token_error (json_token * Decoder) :=
  if tokenValueAllowed (tstate d) then
    match lex_scalar (input d) with
    | Some (t, r) => Ok (t, mkDecoder r (tokenValueEnd (tstate d)) (tstack d))
    | None => Err TokenSyntax
    end
  else Err TokenSyntax.

(** [Decode] of an object key, a string, with the state put aside. *)
Definition decode_key (d : Decoder) : res token_error (json_token * Decoder) :=
  match lex_scalar (input d) with
  | Some (t, r) => Ok (t, mkDecoder r tokenObjectColon (tstack d))
  | None => Err TokenSyntax
  end.

Definition open_delim (c : ascii) (start : tokenState) (t : bytes) (d : Decoder)
    : res token_error (json_token * Decoder) :=
  if tokenValueAllowed (tstate d)
  then Ok (TDelim c, mkDecoder t start (tstate d :: tstack d))
  else Err TokenSyntax.

Definition close_delim (c : ascii) (a b : tokenState) (t : bytes) (d : Decoder)
    : res token_error (json_token * Decoder) :=
  if bool_decide (tstate d = a) || bool_decide (tstate d = b) then
    match tstack d with
    | s :: ss => Ok (TDelim c, mkDecoder t (tokenValueEnd s) ss)
    | [] => Err TokenSyntax
    end
  else Err TokenSyntax.

(** A separator moves the state on and the loop continues; a second separator
    is always an error, so two turns are enough. *)
Fixpoint token_go (fuel : nat) (d : Decoder) : res token_error (json_token * Decoder) :=
  match fuel with
  | O => Err TokenSyntax
  | S f =>
    let b := skip_space (input d) in
    let d := mkDecoder b (tstate d) (tstack d) in
    match b with
    | [] => Err TokenEOF
    | c :: t =>
      if Ascii.eqb c "[" then open_delim c tokenArrayStart t d
      else if Ascii.eqb c "]" then close_delim c tokenArrayStart tokenArrayComma t d
      else if Ascii.eqb c "{" then open_delim c tokenObjectStart t d
      else if Ascii.eqb c "}" then close_delim c tokenObjectStart tokenObjectComma t d
      else if Ascii.eqb c ":" then
        if bool_decide (tstate d = tokenObjectColon)
        then token_go f (mkDecoder t tokenObjectValue (tstack d)) else Err TokenSyntax
      else if Ascii.eqb c "," then
        if bool_decide (tstate d = tokenArrayComma)
        then token_go f (mkDecoder t tokenArrayValue (tstack d))
        else if bool_decide (tstate d = tokenObjectComma)
        then token_go f (mkDecoder t tokenObjectKey (tstack d)) else Err TokenSyntax
      else if Ascii.eqb c "034"%char
              && (bool_decide (tstate d = tokenObjectStart) || bool_decide (tstate d = tokenObjectKey))
      then decode_key d
      else decode_scalar d
    end
  end.
Definition Token (d : Decoder) : res token_error (json_token * Decoder) := token_go 3 d.

Definition More (d : Decoder) : bool :=
  match skip_space (input d) with
  | c :: _ => negb (Ascii.eqb c "]") && negb (Ascii.eqb c "}")
  | [] => false
  end.

(** [json.Valid]: one value, tokens until its brackets are closed, then only
    space; the scanner refuses more than 10000 open brackets. *)
Fixpoint json_valid_go (fuel : nat) (d : Decoder) : bool :=
  match fuel with
  | O => false
  | S f =>
    match Token d with
    | Ok (_, d') =>
      if 10000 <? Z.of_nat (length (tstack d')) then false
      else match tstack d' with
           | [] => match skip_space (input d') with [] => true | _ => false end
           | _ => json_valid_go f d'
           end
    | Err _ => false
    end
  end.
Definition json_Valid (data : bytes) : bool := json_valid_go (S (length data)) (NewDecoder data).

(** ** Lexers consume input *)

Lemma skip_space_length b : (length (skip_space b) ≤ length b)%nat.
Proof. induction b as [|c b IH]; [done|]. simpl. case_match; simpl; lia. Qed.

Lemma strip_prefix_length p : ∀ b r, strip_prefix p b = Some r → length b = (length p + length r)%nat.
Proof.
  induction p as [|x p IH]; intros b r; [by intros [= ->]|]. destruct b as [|y b]; [done|].
  simpl. case_match; [|done]. intros Hp. apply IH in Hp. lia.
Qed.

Lemma span_digit_bytes_length b : ∀ ds r, span_digit_bytes b = (ds, r) →
  length b = (length ds + length r)%nat.
Proof.
  induction b as [|c b IH]; intros ds r H; simpl in H; [by simplify_eq|].
  destruct (is_digit c); [|by simplify_eq].
  destruct (span_digit_bytes b) as [ds' r'] eqn:E. simplify_eq.
  simpl. by rewrite (IH _ _ eq_refl).
Qed.

Lemma lex_digits1_length b ds r : lex_digits1 b = Some (ds, r) → (length r < length b)%nat.
Proof.
  unfold lex_digits1. destruct (span_digit_bytes b) as [ds' r'] eqn:E.
  apply span_digit_bytes_length in E. destruct ds'; [done|]. intros [= <- <-]. simpl in *. lia.
Qed.

Lemma lex_int_part_length b i r : lex_int_part b = Some (i, r) → (length r < length b)%nat.
Proof.
  unfold lex_int_part. destruct b as [|c t]; [done|].
  destruct (decide (c = "0"%char)) as [->|Hc]; [intros [= <- <-]; simpl; lia|].
  intros H. apply (lex_digits1_length _ i). rewrite <- H.
  by destruct c as [[] [] [] [] [] [] [] []].
Qed.

Lemma lex_frac_part_length b i r : lex_frac_part b = Some (i, r) → (length r ≤ length b)%nat.
Proof.
  unfold lex_frac_part. destruct b as [|c t]; [by intros [= <- <-]|].
  destruct (decide (c = "."%char)) as [->|Hc].
  - intros ((ds & r') & H & [= <- <-])%bind_Some. apply lex_digits1_length in H. simpl. lia.
  - intros H. assert (Some (@nil ascii, c :: t) = Some (i, r)) as [= <- <-]; [|done].
    rewrite <- H. by destruct c as [[] [] [] [] [] [] [] []].
Qed.

Lemma lex_exp_part_length b i r : lex_exp_part b = Some (i, r) → (length r ≤ length b)%nat.
Proof.
  unfold lex_exp_part. destruct b as [|c t]; [by intros [= <- <-]|].
  destruct (is_exp c); [|by intros [= <- <-]]. destruct t as [|s t]; [done|].
  destruct (is_sign s); intros ((ds & r') & H & [= <- <-])%bind_Some;
    apply lex_digits1_length in H; simpl in *; lia.
Qed.

Lemma lex_number_length b n r : lex_number b = Some (n, r) → (length r < length b)%nat.
Proof.
  unfold lex_number.
  set (p := match b with "-"%char :: t => (["-"%char], t) | _ => ([], b) end).
  assert (length p.2 ≤ length b)%nat as Hp.
  { subst p. destruct b as [|[[] [] [] [] [] [] [] []] t]; simpl; lia. }
  destruct p as [sign b0]. simpl in Hp. intros H.
  apply bind_Some in H as ([i b1] & Hi & H). apply bind_Some in H as ([f b2] & Hf & H).
  apply bind_Some in H as ([e b3] & He & [= <- <-]).
  apply lex_int_part_length in Hi. apply lex_frac_part_length in Hf.
  apply lex_exp_part_length in He. lia.
Qed.

Lemma lex_string_length fuel : ∀ b s r, lex_string fuel b = Some (s, r) → (length r < length b)%nat.
Proof.
  induction fuel as [|f IH]; intros b s r H; [done|]. cbn [lex_string] in H.
  assert (Hgo : ∀ (g : bytes → bytes) t, (length t ≤ length b)%nat →
    ('(s, r) ← lex_string f t; Some (g s, r)) = Some (s, r) → (length r < length b)%nat).
  { intros g t Ht ((s' & r') & E & [= <- <-])%bind_Some. apply IH in E. lia. }
  destruct b as [|c t]; [done|].
  destruct (byte_val c =? 34); [injection H as <- <-; simpl; lia|].
  destruct (byte_val c <? 32); [done|].
  destruct (byte_val c =? 92).
  - destruct t as [|e t1]; [done|].
    destruct (decide (e = "u"%char)) as [->|He].
    + destruct t1 as [|a1 [|a2 [|a3 [|a4 t2]]]]; try (by cbn in H).
      apply bind_Some in H as (u & Hu & H).
      destruct (_ || _).
      * repeat case_match; try done; try (eapply Hgo; [|exact H]; simpl; lia).
      * eapply Hgo; [|exact H]; simpl; lia.
    + assert (H' : (v ← escape_byte e; '(s, r) ← lex_string f t1; Some (byte_of v :: s, r)) = Some (s, r)).
      { rewrite <- H. destruct e as [[] [] [] [] [] [] [] []]; try done. }
      apply bind_Some in H' as (v & Hv & H'). eapply Hgo; [|exact H']. simpl. lia.
  - destruct (utf8_width (c :: t)) as [|w].
    + eapply Hgo; [|exact H]; simpl; lia.
    + eapply Hgo; [|exact H]. rewrite length_drop. simpl. lia.
Qed.

Lemma lex_scalar_length b t r : lex_scalar b = Some (t, r) → (length r < length b)%nat.
Proof.
  unfold lex_scalar, lex_literal. destruct b as [|c b']; [done|].
  destruct (Ascii.eqb c "034").
  { intros ((s & r') & E & [= <- <-])%bind_Some. apply lex_string_length in E. simpl. lia. }
  destruct (Ascii.eqb c "t").
  { intros (r' & E & [= <- <-])%bind_Some. apply strip_prefix_length in E. simpl in *. lia. }
  destruct (Ascii.eqb c "f").
  { intros (r' & E & [= <- <-])%bind_Some. apply strip_prefix_length in E. simpl in *. lia. }
  destruct (Ascii.eqb c "n").
  { intros (r' & E & [= <- <-])%bind_Some. apply strip_prefix_length in E. simpl in *. lia. }
  intros ((n & r') & E & [= <- <-])%bind_Some. by apply lex_number_length in E.
Qed.

(** Every token consumes input. *)
Lemma token_go_length fuel : ∀ d t d', token_go fuel d = Ok (t, d') →
  (length (input d') < length (input d))%nat.
Proof.
  induction fuel as [|f IH]; intros d t d' H; [done|]. cbn [token_go] in H.
  pose proof (skip_space_length (input d)) as Hs.
  destruct (skip_space (input d)) as [|c b]; [done|]. cbn [length] in Hs.
  assert (Hstep : ∀ st, token_go f (mkDecoder b st (tstack d)) = Ok (t, d') →
                        (length (input d') < length (input d))%nat).
  { intros st E. apply IH in E. simpl in E. lia. }
  unfold open_delim, close_delim, decode_key, decode_scalar in H. cbn [tstate tstack input] in H.
  repeat (case_match; simplify_eq); simpl; try lia; try done; try (by eapply Hstep);
    match goal with E : lex_scalar _ = Some _ |- _ => apply lex_scalar_length in E; simpl in E; lia end.
Qed.

Lemma Token_length d t d' : Token d = Ok (t, d') → (length (input d') < length (input d))%nat.
Proof. apply token_go_length. Qed.

(** Three turns are as good as any larger number. *)
Lemma token_go_enough k d : token_go (3 + k) d = token_go 3 d.
Proof.
  cbn [token_go Nat.add]. destruct (skip_space (input d)) as [|c b]; [done|]. cbn [tstate tstack input].
  repeat (case_match; try done); cbn [token_go input tstate tstack];
    destruct (skip_space b) as [|c' b']; try done; repeat (case_match; try done).
Qed.
