(* ===== verification/GoFloat.v ===== *)
(** * strconv: binary64 values to and from decimal text

    [ParseFloat] on JSON number text, correctly rounded, and
    [AppendFloat(x, 'g', -1, 64)]: the shortest digits that read back as [x],
    the closest ones among them. *)
From S2P Require Import Prelude GoStd GoJson.
Local Open Scope Z_scope.

(** [m * 10^e] rounded to nearest even. Far outside the exponent range the
    rounding is known without computing the power: 10^309 overflows and 10^-343
    is below half the least subnormal. *)
Definition f64_of_decimal (s : bool) (m e : Z) : float64 :=
  if m =? 0 then S754_zero s
  else
    let top := Z.of_nat (ndigits m) + e in
    if 310 <? top then S754_infinity s
    else if top <? -330 then S754_zero s
    else if 0 <=? e then f64_of_ratio s (m * 10 ^ e) 1
    else f64_of_ratio s m (10 ^ (- e)).

Definition exp_value (b : bytes) : Z :=
  match b with
  | _ :: "-"%char :: ds => - digits_number ds
  | _ :: "+"%char :: ds => digits_number ds
  | _ :: ds => digits_number ds
  | [] => 0
  end.

(** [strconv.ParseFloat(s, 64)]; [None] is a nonnil error, a syntax error or a
    magnitude that rounds to infinity. *)
Definition parse_float (b : bytes) : option float64 :=
  let '(neg, b) := match b with "-"%char :: t => (true, t) | _ => (false, b) end in
  '(i, b) ← lex_int_part b;
  '(f, b) ← lex_frac_part b;
  '(e, b) ← lex_exp_part b;
  match b with
  | [] =>
    let frac := drop 1 f in
    let x := f64_of_decimal neg (digits_number (i ++ frac))
               (exp_value e - Z.of_nat (length frac)) in
    if f64_is_inf x then None else Some x
  | _ => None
  end.

(** ** Formatting *)

(** [digs.d] without trailing zeros and [digs.dp]: [0.d1d2... * 10^dp]. *)
Definition strip_trailing_zeros (ds : bytes) : bytes :=
  reverse ((fix go (l : bytes) := match l with
                                  | c :: l' => if Ascii.eqb c "0" then go l' else l
                                  | [] => []
                                  end) (reverse ds)).

Definition exponent_text (exp : Z) : bytes :=
  let a := Z.abs exp in
  ["e"%char; if exp <? 0 then "-"%char else "+"%char]
  ++ (if a <? 10 then "0"%char :: format_digits a else format_digits a).

(** [fmtE]: one digit, the rest as a fraction, a signed exponent of at least two digits. *)
Definition fmtE (ds : bytes) (dp : Z) : bytes :=
  match ds with
  | [] => "0"%char :: exponent_text 0
  | [d] => d :: exponent_text (dp - 1)
  | d :: f => d :: "."%char :: f ++ exponent_text (dp - 1)
  end.

(** [fmtF] with exactly the digits present. *)
Definition fmtF (ds : bytes) (dp : Z) : bytes :=
  let nd := Z.of_nat (length ds) in
  let whole :=
    if 0 <? dp then take (Z.to_nat dp) ds ++ repeat "0"%char (Z.to_nat (dp - nd))
    else ["0"%char] in
  if dp <? nd
  then whole ++ "."%char :: repeat "0"%char (Z.to_nat (- dp)) ++ drop (Z.to_nat dp) ds
  else whole.

Definition fmtG (neg : bool) (ds : bytes) (dp : Z) : bytes :=
  (if neg then ["-"%char] else [])
  ++ (if (dp - 1 <? -4) || (6 <=? dp - 1) then fmtE ds dp else fmtF ds dp).

(** The scale [E] with [10^(E-1) <= p/q < 10^E]. *)
Definition decimal_scale (p q : Z) : Z :=
  let k := Z.of_nat (ndigits p) - Z.of_nat (ndigits q) in
  if (if 0 <=? k then p <? q * 10 ^ k else p * 10 ^ (- k) <? q) then k else k + 1.

Definition float_text (neg : bool) (n d E : Z) : bytes :=
  let ds := pad_digits (Z.to_nat n) d in
  if d =? 10 ^ n then fmtG neg ["1"%char] (E + 1)
  else fmtG neg (strip_trailing_zeros ds) E.

#[export] Instance float64_eq_dec : EqDecision float64.
Proof. solve_decision. Defined.

Definition reads_back (x : float64) (b : bytes) : bool := bool_decide (parse_float b = Some x).

(** The candidate with [n] digits for [p/q], closest first, ties to even. *)
Definition shortest_candidates (neg : bool) (p q E n : Z) : list bytes :=
  let s := n - E in
  let '(p, q) := if 0 <=? s then (p * 10 ^ s, q) else (p, q * 10 ^ (- s)) in
  let lo := p / q in
  let r := p mod q in
  let low := float_text neg n lo E in
  let high := float_text neg n (lo + 1) E in
  if r =? 0 then [low]
  else if (2 * r <? q) || ((2 * r =? q) && Z.even lo) then [low; high] else [high; low].

Fixpoint shortest_go (fuel : nat) (neg : bool) (p q E n : Z) (x : float64) : option bytes :=
  match fuel with
  | O => None
  | S f =>
    match List.find (reads_back x) (shortest_candidates neg p q E n) with
    | Some t => Some t
    | None => shortest_go f neg p q E (n + 1) x
    end
  end.

(** Seventeen significant digits always identify a binary64 value; [None] marks
    a search that did not find them. *)
Definition shortest (x : float64) : option bytes :=
  match x with
  | S754_finite s m e =>
    let p := if 0 <=? e then Z.pos m * 2 ^ e else Z.pos m in
    let q := if 0 <=? e then 1 else 2 ^ (- e) in
    shortest_go 17 s p q (decimal_scale p q) 1 x
  | S754_zero s => Some (if s then ["-"; "0"]%char else ["0"%char])
  | _ => None
  end.

(** [strconv.AppendFloat(nil, x, 'g', -1, 64)] of a finite value. *)
Definition format_float (x : float64) : bytes := default [] (shortest x).

Lemma shortest_go_reads_back fuel : ∀ neg p q E n x t,
  shortest_go fuel neg p q E n x = Some t → reads_back x t = true.
Proof.
  induction fuel as [|f IH]; intros neg p q E n x t H; [done|]. cbn [shortest_go] in H.
  destruct (List.find _ _) as [t'|] eqn:Hf; [|by eapply IH].
  injection H as ->. by apply List.find_some in Hf as [_ ?].
Qed.

(** Whenever the search finds digits, they read back as the value itself. *)
Lemma format_float_reads_back x t :
  shortest x = Some t → f64_is_zero x = false → parse_float (format_float x) = Some x.
Proof.
  unfold format_float, shortest. intros H Hz. destruct x as [| | |s m e]; try done.
  rewrite H. apply shortest_go_reads_back in H. by apply bool_decide_eq_true in H.
Qed.

Lemma format_float_zero s : parse_float (format_float (S754_zero s)) = Some (S754_zero s).
Proof. by destruct s. Qed.

(** ** Integers as binary64 values *)

Lemma digits2_pos_size p : digits2_pos p = Pos.size p.
Proof. induction p as [p IH|p IH|]; cbn; by rewrite ?IH. Qed.

Lemma digits2_bound p : 2 ^ (Z.pos (digits2_pos p) - 1) ≤ Z.pos p < 2 ^ Z.pos (digits2_pos p).
Proof.
  rewrite digits2_pos_size. pose proof (Pos.size_gt p) as Hg. pose proof (Pos.size_le p) as Hl.
  assert (2 ^ Z.pos (Pos.size p) = 2 * 2 ^ (Z.pos (Pos.size p) - 1)).
  { rewrite <- (Z.pow_succ_r 2) by lia. f_equal. lia. }
  change (2 ^ Z.pos (Pos.size p)) with (Z.pos 2 ^ Z.pos (Pos.size p)) in *.
  rewrite <- Pos2Z.inj_pow in *. lia.
Qed.

Lemma Zdigits2_le m k : 0 ≤ k → 0 ≤ m < 2 ^ k → 0 ≤ Zdigits2 m ≤ k.
Proof.
  intros Hk Hm. destruct m as [|p|p]; [simpl; lia| |lia]. cbn [Zdigits2]. split; [lia|].
  pose proof (digits2_bound p) as [Hl _].
  assert (2 ^ (Z.pos (digits2_pos p) - 1) < 2 ^ k) as Hlt by lia.
  apply Z.pow_lt_mono_r_iff in Hlt; lia.
Qed.

Lemma shr_1_bound r : 0 ≤ shr_m r → 0 ≤ shr_m (shr_1 r) ≤ shr_m r.
Proof. destruct r as [[|[p|p|]|p] b c]; simpl; lia. Qed.
Lemma iter_shr_bound p : ∀ r, 0 ≤ shr_m r → 0 ≤ shr_m (iter_pos shr_1 p r) ≤ shr_m r.
Proof.
  induction p as [p IH|p IH|]; intros r Hr; cbn [iter_pos].
  - pose proof (shr_1_bound r Hr). pose proof (IH (shr_1 r) ltac:(lia)).
    pose proof (IH (iter_pos shr_1 p (shr_1 r)) ltac:(lia)). lia.
  - pose proof (IH r Hr). pose proof (IH (iter_pos shr_1 p r) ltac:(lia)). lia.
  - by apply shr_1_bound.
Qed.
Lemma shr_bound r e n : 0 ≤ shr_m r →
  0 ≤ shr_m (shr r e n).1 ≤ shr_m r ∧ (shr r e n).2 = e + Z.max 0 n.
Proof.
  intros Hr. destruct n as [|p|p]; cbn [shr fst snd]; [lia| |lia].
  pose proof (iter_shr_bound p r Hr). lia.
Qed.

Lemma shr_fexp_bound m e k h : 0 ≤ k → 0 ≤ m < 2 ^ k → -100 ≤ e ≤ h → k ≤ 500 →
  let r := shr_fexp 53 1024 m e loc_Exact in
  0 ≤ shr_m r.1 ≤ m ∧ -100 ≤ r.2 ≤ Z.max h (k + h - 53).
Proof.
  intros Hk Hm He Hb. unfold shr_fexp. cbn [shr_record_of_loc].
  pose proof (Zdigits2_le m k Hk Hm).
  pose proof (shr_bound (Build_shr_record m false false) e (fexp 53 1024 (Zdigits2 m + e) - e) ltac:(simpl; lia)) as [H1 H2].
  cbv zeta. split; [exact H1|]. rewrite H2. unfold fexp, emin. lia.
Qed.

Lemma round_bound m l : 0 ≤ m → 0 ≤ round_nearest_even m l ≤ m + 1.
Proof. intros Hm. destruct l as [|[]]; simpl; try lia. destruct (Z.even m); lia. Qed.

Lemma round_aux_finite s m e : 0 ≤ m < 2 ^ 100 → -100 ≤ e ≤ 100 →
  f64_is_nan (binary_round_aux 53 1024 s m e loc_Exact) || f64_is_inf (binary_round_aux 53 1024 s m e loc_Exact) = false.
Proof.
  intros Hm He. unfold binary_round_aux.
  pose proof (shr_fexp_bound m e 100 100 ltac:(lia) Hm ltac:(lia) ltac:(lia)) as H1. cbv zeta in H1.
  destruct (shr_fexp 53 1024 m e loc_Exact) as [r1 e1]. cbn [fst snd] in H1.
  pose proof (round_bound (shr_m r1) (loc_of_shr_record r1) ltac:(lia)) as Hr.
  set (m1 := round_nearest_even (shr_m r1) (loc_of_shr_record r1)) in *.
  assert (0 ≤ m1 < 2 ^ 101) as Hm1.
  { assert (2 ^ 101 = 2 * 2 ^ 100) by done. lia. }
  pose proof (shr_fexp_bound m1 e1 101 147 ltac:(lia) Hm1 ltac:(lia) ltac:(lia)) as H2. cbv zeta in H2.
  destruct (shr_fexp 53 1024 m1 e1 loc_Exact) as [r2 e2]. cbn [fst snd] in H2.
  destruct (shr_m r2) as [|p|p]; [done| |lia].
  rewrite (proj2 (Z.leb_le e2 (1024 - 53))) by lia. done.
Qed.

Lemma iter_xO m p : Z.pos (Pos.iter xO m p) = Z.pos m * 2 ^ Z.pos p.
Proof.
  induction p as [|p IH] using Pos.peano_ind; [simpl; lia|].
  rewrite Pos.iter_succ. rewrite (Pos2Z.inj_succ p), Z.pow_succ_r by lia.
  change (Z.pos (xO (Pos.iter xO m p))) with (2 * Z.pos (Pos.iter xO m p)). lia.
Qed.

(** [float64] of a 64-bit integer is finite, and exact up to 53 bits. *)
Lemma f64_of_Z_finite n : - 2 ^ 64 ≤ n ≤ 2 ^ 64 → f64_is_nan (f64_of_Z n) || f64_is_inf (f64_of_Z n) = false.
Proof.
  intros Hn. unfold f64_of_Z, binary_normalize.
  assert (∀ s p, Z.pos p ≤ 2 ^ 64 →
    f64_is_nan (binary_round 53 1024 s p 0) || f64_is_inf (binary_round 53 1024 s p 0) = false) as Hp.
  { intros s p Hp. unfold binary_round, shl_align.
    pose proof (Zdigits2_le (Z.pos p) 65 ltac:(lia) ltac:(assert (2 ^ 65 = 2 * 2 ^ 64) by done; lia)) as Hd.
    cbn [Zdigits2] in Hd. set (d := Z.pos (digits2_pos p)) in *. rewrite Z.add_0_r, Z.sub_0_r.
    destruct (fexp 53 1024 d) as [|q|q] eqn:Ef; [apply round_aux_finite; lia|apply round_aux_finite; lia|].
    unfold fexp, emin in Ef. pose proof (digits2_bound p) as [Hl Hu]. fold d in Hl, Hu.
    apply round_aux_finite; [|lia]. rewrite iter_xO. split; [lia|].
    assert (Z.pos q ≤ 53 - d) as Hq by lia.
    assert (Z.pos p * 2 ^ Z.pos q < 2 ^ (d + Z.pos q)).
    { rewrite Z.pow_add_r by lia. apply Z.mul_lt_mono_pos_r; [apply Z.pow_pos_nonneg; lia|done]. }
    assert (2 ^ (d + Z.pos q) ≤ 2 ^ 100) by (apply Z.pow_le_mono_r; lia). lia. }
  destruct n as [|p|p]; [done|apply Hp; lia|apply Hp; lia].
Qed.

Lemma f64_of_pos_exact s p : Z.pos p < 2 ^ 53 →
  f64_is_integral (binary_round 53 1024 s p 0) = true
  ∧ f64_to_Z (binary_round 53 1024 s p 0) = (if s then - Z.pos p else Z.pos p).
Proof.
  intros Hp. pose proof (digits2_bound p) as [Hl Hu].
  pose proof (Zdigits2_le (Z.pos p) 53 ltac:(lia) ltac:(lia)) as Hd. cbn [Zdigits2] in Hd.
  set (d := Z.pos (digits2_pos p)) in *.
  assert (∃ m, Z.pos m = Z.pos p * 2 ^ (53 - d) ∧ Z.pos (digits2_pos m) = 53
     ∧ binary_round 53 1024 s p 0 = binary_round_aux 53 1024 s (Z.pos m) (d - 53) loc_Exact) as (m & Hm & Hdm & ->).
  { unfold binary_round, shl_align. fold d. rewrite Z.add_0_r, Z.sub_0_r.
    assert (fexp 53 1024 d = d - 53) as Hf by (unfold fexp, emin; lia). rewrite Hf.
    assert (∀ m, Z.pos m = Z.pos p * 2 ^ (53 - d) → Z.pos (digits2_pos m) = 53) as Hdig.
    { intros m Hm. pose proof (digits2_bound m) as [Hl' Hu'].
      assert (2 ^ 52 ≤ Z.pos m < 2 ^ 53) as [H1 H2].
      { rewrite Hm. replace 52 with (d - 1 + (53 - d)) at 1 by lia. replace 53 with (d + (53 - d)) at 4 by lia.
        rewrite !Z.pow_add_r by lia. pose proof (Z.pow_pos_nonneg 2 (53 - d) ltac:(lia) ltac:(lia)). nia. }
      assert (2 ^ (Z.pos (digits2_pos m) - 1) < 2 ^ 53) as Ha by lia. apply Z.pow_lt_mono_r_iff in Ha; [|lia..].
      assert (2 ^ 52 < 2 ^ Z.pos (digits2_pos m)) as Hb by lia. apply Z.pow_lt_mono_r_iff in Hb; lia. }
    destruct (d - 53) as [|q|q] eqn:Eq; [|lia|].
    - exists p. assert (Z.pos p = Z.pos p * 2 ^ (53 - d)) as Hpe by (replace (53 - d) with 0 by lia; lia).
      split_and!; [done|by apply Hdig|done].
    - exists (Pos.iter xO p q). assert (Z.pos (Pos.iter xO p q) = Z.pos p * 2 ^ (53 - d)) as Hpe.
      { rewrite iter_xO. do 2 f_equal. lia. }
      split_and!; [done|by apply Hdig|done]. }
  assert (∀ x e, Z.pos (digits2_pos x) = 53 → -52 ≤ e ≤ 0 →
    binary_round_aux 53 1024 s (Z.pos x) e loc_Exact = S754_finite s x e) as Haux.
  { intros x e Hx He. unfold binary_round_aux, shr_fexp. cbn [Zdigits2]. rewrite Hx.
    assert (fexp 53 1024 (53 + e) - e = 0) as -> by (unfold fexp, emin; lia).
    cbn [shr shr_record_of_loc loc_of_shr_record round_nearest_even shr_m Zdigits2]. rewrite Hx.
    assert (fexp 53 1024 (53 + e) - e = 0) as -> by (unfold fexp, emin; lia).
    cbn [shr shr_record_of_loc shr_m]. rewrite (proj2 (Z.leb_le e (1024 - 53))) by lia. done. }
  rewrite Haux by lia. cbn [f64_is_integral f64_to_Z]. pose proof (Z.pow_pos_nonneg 2 (53 - d) ltac:(lia) ltac:(lia)).
  destruct (Z.leb_spec 0 (d - 53)) as [He|He].
  - replace (d - 53) with 0 by lia. replace (53 - d) with 0 in Hm by lia. rewrite Hm. split; [done|].
    rewrite !Z.mul_1_r. by destruct s.
  - replace (- (d - 53)) with (53 - d) by lia. rewrite Hm, Z.mod_mul, Z.div_mul by lia. done.
Qed.

Lemma f64_of_Z_exact n : - 2 ^ 53 < n < 2 ^ 53 →
  f64_is_integral (f64_of_Z n) = true ∧ f64_to_Z (f64_of_Z n) = n.
Proof.
  intros Hn. destruct n as [|p|p]; [done| |]; unfold f64_of_Z, binary_normalize.
  - apply (f64_of_pos_exact false p). lia.
  - apply (f64_of_pos_exact true p). lia.
Qed.
