(* ===== verification/GoFmt.v ===== *)
(** * Formatted texts and contexts (fmt, context)

    What the managers share of Go's library: the text of [fmt.Sprintf] and
    [fmt.Errorf] as its format with its operands, which is compared and reported
    but not parsed, and [context.AfterFunc]. *)
From S2P Require Import Prelude.

Inductive operand (E : Type) :=
| OString (s : string)
| OStrings (l : list string)
| OInt (n : Z)
| OError (e : E).
Arguments OString {E}.
Arguments OStrings {E}.
Arguments OInt {E}.
Arguments OError {E}.

Inductive formatted (E : Type) := Sprintf (format : string) (operands : list (operand E)).
Arguments Sprintf {E}.

(** A function registered with [context.AfterFunc]: none, waiting, started, or
    finished or withdrawn. *)
Inductive hook := NoHook | Armed | Fired | Spent.
#[export] Instance hook_eq_dec : EqDecision hook.
Proof. solve_decision. Defined.
(** [stop()] withdraws a function that has not started. *)
Definition withdraw (h : hook) : hook := match h with Armed => Spent | h => h end.
