(* ===== verification/Errors.v ===== *)
(** * Error classification (pkg/resource/v2/errors.go, Controller.classify)

    Go's [error] values as trees: the two context sentinels, [io.EOF], plain
    text errors, [*ResourceOperationError] with its optional cause, [%w]
    wrapping and [errors.Join].  [errors.Is] and [errors.As] walk the tree in
    the documented preorder. *)
From S2P Require Import Prelude GoStd.
Local Open Scope Z_scope.

Inductive error : Type :=
| ECanceled
| EDeadlineExceeded
| EEOF
| EText (text : string)
| EOp (cause : option error) (code title message : string) (suggestions : list string)
| EOpNil  (** a nil [*ResourceOperationError] stored in an [error] *)
| EWrap (text : string) (cause : error)
| EJoin (causes : list error).

(** The result of Go code that can fail. *)
Abbreviation result := (res error).

Definition NewError (code detail : string) : error := EOp None code "" detail [].
Definition invalid (detail : string) : error := NewError "INVALID_REQUEST" detail.
Definition limited (detail : string) : error := NewError "RESOURCE_LIMIT" detail.

(** [errors.Is(err, target)] for one of the sentinels, chosen by [p]. *)
Fixpoint errors_is (p : error → bool) (e : error) : bool :=
  p e ||
  match e with
  | EOp (Some c) _ _ _ _ | EWrap _ c => errors_is p c
  | EJoin cs => existsb (errors_is p) cs
  | _ => false
  end.

Definition is_canceled (e : error) : bool :=
  errors_is (λ e, match e with ECanceled => true | _ => false end) e.
Definition is_deadline (e : error) : bool :=
  errors_is (λ e, match e with EDeadlineExceeded => true | _ => false end) e.
Definition is_eof (e : error) : bool :=
  errors_is (λ e, match e with EEOF => true | _ => false end) e.

(** [errors.As(err, &classified)] at [*ResourceOperationError]: the first match
    in preorder; the inner option is [None] for a stored nil pointer. *)
Fixpoint errors_as_op (e : error) : option (option string) :=
  match e with
  | EOp _ code _ _ _ => Some (Some code)
  | EOpNil => Some None
  | EWrap _ c => errors_as_op c
  | EJoin cs =>
    (fix first (cs : list error) : option (option string) :=
       match cs with
       | [] => None
       | c :: cs => match errors_as_op c with Some r => Some r | None => first cs end
       end) cs
  | _ => None
  end.

(** The vocabulary [IsErrorCode] switches on. *)
Definition error_codes : list string :=
  ["NOT_FOUND"; "ALREADY_EXISTS"; "PERMISSION_DENIED"; "INVALID_INPUT";
   "CONFLICT"; "INTERNAL"; "UNAVAILABLE"; "TIMEOUT"; "FILTER_UNKNOWN_FIELD";
   "FILTER_INVALID_OPERATOR"; "FORBIDDEN"; "UNAUTHORIZED"; "CONNECTION_ERROR";
   "CERTIFICATE_ERROR"; "INVALID_REQUEST"; "UNSUPPORTED"; "CANCELLED";
   "RESOURCE_LIMIT"; "CONTINUATION_EXPIRED"; "RESET_REQUIRED"; "PARTIAL_RESULT";
   "PROVIDER_ERROR"; "GRANT_DENIED"; "CONNECTION_NOT_STARTED"; "OWNER_UNAVAILABLE";
   "DELEGATION_NOT_ACTIVE"].
Definition IsErrorCode (code : string) : bool := bool_decide (code ∈ error_codes).

(** The authority codes [ErrorCode] reports before looking for cancellation. *)
Definition authority_codes : list string :=
  ["GRANT_DENIED"; "CONNECTION_NOT_STARTED"; "OWNER_UNAVAILABLE"; "DELEGATION_NOT_ACTIVE"].

Definition classified_code (e : error) : option string := mjoin (errors_as_op e).

Definition ErrorCode_of (e : error) : string :=
  let classified := classified_code e in
  if from_option (λ c, bool_decide (c ∈ authority_codes)) false classified
  then default "" classified
  else if is_canceled e then "CANCELLED"
  else if is_deadline e then "TIMEOUT"
  else if from_option IsErrorCode false classified then default "" classified
  else "INTERNAL".

(** [ErrorCode(err)] with [None] for a nil error. *)
Definition ErrorCode (err : option error) : string :=
  match err with None => "" | Some e => ErrorCode_of e end.

(** An [ErrorClassifier]: a returned error, a declined one, or a panic. *)
Inductive classification := Classified (e : error) | Declined | Panicked.

Definition try_classifier (k : option (error → classification)) (e : error)
    (next : error) : error :=
  match k with
  | None => next
  | Some f =>
    match f e with
    | Classified out => out
    | Declined => next
    | Panicked => NewError "INTERNAL" "Provider error classifier panicked."
    end
  end.

(** [Controller.classify]: [reg] and [cfg] are the selected registration's and
    the controller's classifiers. *)
Definition classify (reg cfg : option (error → classification)) (err : option error)
    : option error :=
  match err with
  | None => None
  | Some e =>
    if is_canceled e || is_deadline e
    then Some (EOp (Some e) (ErrorCode (Some e)) "" "" [])
    else match errors_as_op e with
         | Some _ => Some e
         | None => Some (try_classifier reg e (try_classifier cfg e e))
         end
  end.

(** [Controller.guard]: a recovered panic replaces the error, then both are
    classified. *)
Definition guard (panicked : bool) (reg cfg : option (error → classification))
    (err : option error) : option error :=
  classify reg cfg
    (if panicked then Some (NewError "INTERNAL" "Provider handler panicked.") else err).

(** ** Properties *)

Lemma ErrorCode_of_cases e :
  ErrorCode_of e ∈ authority_codes ∨ ErrorCode_of e = "CANCELLED" ∨
  ErrorCode_of e = "TIMEOUT" ∨ IsErrorCode (ErrorCode_of e) ∨ ErrorCode_of e = "INTERNAL".
Proof.
  unfold ErrorCode_of. destruct (classified_code e) as [c|]; simpl.
  - destruct (bool_decide_reflect (c ∈ authority_codes)); [by left|].
    destruct (is_canceled e); [auto|]. destruct (is_deadline e); [auto|].
    destruct (IsErrorCode c) eqn:H; [|auto 10]. rewrite H. auto 10.
  - destruct (is_canceled e); [auto|]. destruct (is_deadline e); auto 10.
Qed.

Lemma authority_codes_known c : c ∈ authority_codes → IsErrorCode c = true.
Proof. unfold authority_codes. intros H. repeat (apply elem_of_cons in H as [->|H]; [done|]). by apply elem_of_nil in H. Qed.

(** [ErrorCode] never widens the reviewed vocabulary: every nonnil error,
    whatever its wrapping, joining or provider-chosen code, is reported under a
    code [IsErrorCode] accepts, and only the nil error has the empty code. *)
Theorem ErrorCode_vocabulary err :
  match err with
  | None => ErrorCode err = ""
  | Some _ => IsErrorCode (ErrorCode err) = true
  end.
Proof.
  destruct err as [e|]; [|done]. simpl.
  destruct (ErrorCode_of_cases e) as [H|[->|[->|[H| ->]]]];
    [by apply authority_codes_known|done|done|by apply Is_true_true|done].
Qed.

Lemma ErrorCode_of_canceled_wrap e :
  is_canceled e || is_deadline e = true →
  ErrorCode_of (EOp (Some e) (ErrorCode_of e) "" "" []) = ErrorCode_of e.
Proof.
  intros Hc.
  assert (Hwrap : ∀ c, ErrorCode_of (EOp (Some e) c "" "" []) =
    if bool_decide (c ∈ authority_codes) then c
    else if is_canceled e then "CANCELLED" else "TIMEOUT").
  { intros c. unfold ErrorCode_of, is_canceled, is_deadline in *. simpl.
    case_match; [done|]. case_match; [done|]. simpl in Hc. by rewrite Hc. }
  rewrite Hwrap. destruct (bool_decide_reflect (ErrorCode_of e ∈ authority_codes)) as [|Hn]; [done|].
  unfold ErrorCode_of in *. destruct (from_option _ false (classified_code e)) eqn:Ha.
  - destruct Hn. destruct (classified_code e); [|done]. simpl in *. by apply bool_decide_eq_true in Ha.
  - destruct (is_canceled e); [done|]. simpl in Hc. by rewrite Hc.
Qed.

(** The classification every public controller method ends with keeps the
    reported code of any error when neither classifier is installed: wrapping
    a cancellation to attach a public code does not change that code, and an
    error that is already a [ResourceOperationError] passes through. *)
Theorem classify_preserves_code err :
  ErrorCode (classify None None err) = ErrorCode err.
Proof.
  destruct err as [e|]; [|done]. simpl.
  destruct (is_canceled e || is_deadline e) eqn:Hc.
  - by apply ErrorCode_of_canceled_wrap.
  - by destruct (errors_as_op e).
Qed.

(** A recovered panic in a provider handler is always reported as [INTERNAL],
    whatever the handler had set and whatever the classifiers would answer. *)
Lemma guard_panic_internal reg cfg err :
  ErrorCode (guard true reg cfg err) = "INTERNAL".
Proof. done. Qed.
