(* ===== verification/CatalogAdmission.v ===== *)
(** * Qualified catalog observations (internal/catalogadmission)

    The context slot that carries accepted catalog revisions, its lookup, and
    the SDK-private frame that takes the slot across an RPC boundary.  A Go
    [context.Context] is represented by the one slot this package owns. *)
From S2P Require Import Prelude GoStd.
Local Open Scope Z_scope.

(** ** State *)

Record Limits := mkLimits {
  RevisionBytes : Z;
  MetadataBytes : Z;
  Observations : Z
}.

Record ViolationError := mkViolation { vCode : string; vMessage : string }.

Record Observation := mkObservation {
  oProvider : string;
  oConnection : string;
  oRevision : string
}.
#[export] Instance Observation_eq_dec : EqDecision Observation.
Proof. solve_decision. Defined.

(** The value stored under [routesKey]; an absent value reads as no entries. *)
Record Context := mkContext { routesKey : option (list Observation) }.

Abbreviation vres := (res ViolationError).

Definition Entries (ctx : Context) : list Observation := default [] (routesKey ctx).

Definition Append (ctx : Context) (entry : Observation) : Context :=
  mkContext (Some (Entries ctx ++ [entry])).

Definition Clear (ctx : Context) : Context := mkContext (Some []).

(** ** Lookup *)

Definition same_route (a b : Observation) : bool :=
  bool_decide (oProvider a = oProvider b) && bool_decide (oConnection a = oConnection b).

(** The loop of [Qualified], carrying [revision] and [found]. *)
Fixpoint qualified_go (provider connection revision : string) (found : bool)
    (entries : list Observation) : string * bool :=
  match entries with
  | [] => (revision, found)
  | entry :: rest =>
    if bool_decide (oProvider entry = provider) && bool_decide (oConnection entry = connection)
    then if found then ("", true)
         else qualified_go provider connection (oRevision entry) true rest
    else qualified_go provider connection revision found rest
  end.

Definition Qualified (ctx : Context) (provider connection : string) : string * bool :=
  qualified_go provider connection "" false (Entries ctx).

(** ** Admission *)

Definition resetRequired : string := "RESET_REQUIRED".
Definition resourceLimit : string := "RESOURCE_LIMIT".
Definition tooManyObservations : string := "Too many route catalog observations.".

Definition ValidateRevision (revision : string) (maxBytes : Z) : vres unit :=
  guard_err (bool_decide (revision = "") || (maxBytes <? slen revision)
             || negb (utf8_valid_string revision))
    (mkViolation resetRequired "An explicit valid accepted catalog revision is required.").

Definition fieldBound : ViolationError :=
  mkViolation resourceLimit "Catalog observation exceeds frame field bound.".

(** One iteration of the loop of [EncodedSize]: the checks of an entry against
    the entries before it. *)
Definition encodedSize_entry (limits : Limits) (previous : list Observation)
    (entry : Observation) (size : Z) : vres Z :=
  guard_err (existsb (λ p, same_route p entry) previous)
    (mkViolation resetRequired "Duplicate qualified catalog revision.") ;;
  guard_err ((max_uint16 <? slen (oProvider entry)) || (max_uint16 <? slen (oConnection entry))
             || (max_uint16 <? slen (oRevision entry))) fieldBound ;;
  guard_err (bool_decide (oProvider entry = "") || bool_decide (oConnection entry = "")
             || (RevisionBytes limits <? slen (oProvider entry))
             || (RevisionBytes limits <? slen (oConnection entry))
             || negb (utf8_valid_string (oProvider entry))
             || negb (utf8_valid_string (oConnection entry)))
    (mkViolation resetRequired "Invalid qualified catalog route.") ;;
  ValidateRevision (oRevision entry) (RevisionBytes limits) ;;
  Ok (size + (6 + slen (oProvider entry) + slen (oConnection entry) + slen (oRevision entry))).

Fixpoint encodedSize_loop (limits : Limits) (previous entries : list Observation)
    (size : Z) : vres Z :=
  match entries with
  | [] => Ok size
  | entry :: rest =>
    size ← encodedSize_entry limits previous entry size;
    encodedSize_loop limits (previous ++ [entry]) rest size
  end.

Definition EncodedSize (ctx : Context) (defaultRevision : string) (limits : Limits) : vres Z :=
  let entries := Entries ctx in
  let n := Z.of_nat (length entries) in
  if n =? 0 then Ok 0 else
  guard_err ((Observations limits <? n) || (max_uint16 <? n))
    (mkViolation resourceLimit tooManyObservations) ;;
  size ← encodedSize_loop limits [] entries 3;
  guard_err (MetadataBytes limits <? size + slen defaultRevision + 256)
    (mkViolation resourceLimit "Catalog revision metadata exceeds bound.") ;;
  Ok size.

(** ** The frame *)

Definition frameVersion : Z := 1.
Definition frameHeaderBytes : nat := 3.
Definition frameLengthBytes : nat := 2.

(** One length-prefixed field appended at the running offset. *)
Definition encode_field (field : string) : vres bytes :=
  guard_err (max_uint16 <? slen field) fieldBound ;;
  Ok (put_uint16 (slen field) ++ bytes_of field).

Fixpoint encode_fields (fields : list string) : vres bytes :=
  match fields with
  | [] => Ok []
  | f :: rest => b ← encode_field f; bs ← encode_fields rest; Ok (b ++ bs)
  end.

Fixpoint encode_entries (entries : list Observation) : vres bytes :=
  match entries with
  | [] => Ok []
  | e :: rest =>
    b ← encode_fields [oProvider e; oConnection e; oRevision e];
    bs ← encode_entries rest;
    Ok (b ++ bs)
  end.

(** [Marshal]; [None] is the nil frame of an empty observation set. *)
Definition Marshal (ctx : Context) (defaultRevision : string) (limits : Limits)
    : vres (option bytes) :=
  size ← EncodedSize ctx defaultRevision limits;
  if size =? 0 then Ok None else
  let entries := Entries ctx in
  guard_err (max_uint16 <? Z.of_nat (length entries))
    (mkViolation resourceLimit tooManyObservations) ;;
  body ← encode_entries entries;
  Ok (Some ([byte_of 1] ++ put_uint16 (Z.of_nat (length entries)) ++ body)).

Definition malformedFrame : ViolationError :=
  mkViolation resetRequired "Malformed qualified catalog revision metadata.".

(** [frame[i : i+n]]. *)
Definition slice (frame : bytes) (i n : nat) : bytes := take n (drop i frame).

Definition decode_field (frame : bytes) (offset : nat) (maxBytes : Z) : vres (string * nat) :=
  guard_err (Z.of_nat (length frame) - Z.of_nat offset <? Z.of_nat frameLengthBytes)
    malformedFrame ;;
  let size := get_uint16 (slice frame offset frameLengthBytes) in
  let offset := (offset + frameLengthBytes)%nat in
  guard_err ((size =? 0) || (maxBytes <? size)
             || (Z.of_nat (length frame) - Z.of_nat offset <? size)
             || negb (utf8_valid (slice frame offset (Z.to_nat size)))) malformedFrame ;;
  Ok (string_of (slice frame offset (Z.to_nat size)), (offset + Z.to_nat size)%nat).

Definition decodeObservation (frame : bytes) (offset : nat) (maxBytes : Z)
    : vres (Observation * nat) :=
  '(provider, offset) ← decode_field frame offset maxBytes;
  '(connection, offset) ← decode_field frame offset maxBytes;
  '(revision, offset) ← decode_field frame offset maxBytes;
  Ok (mkObservation provider connection revision, offset).

(** The [for range count] loop of [Unmarshal]. *)
Fixpoint decode_entries (frame : bytes) (maxBytes : Z) (count : nat) (offset : nat)
    (entries : list Observation) : vres (list Observation * nat) :=
  match count with
  | O => Ok (entries, offset)
  | S count =>
    '(entry, next) ← decodeObservation frame offset maxBytes;
    guard_err (existsb (λ p, same_route p entry) entries) malformedFrame ;;
    decode_entries frame maxBytes count next (entries ++ [entry])
  end.

Definition Unmarshal (ctx : Context) (frame : bytes) (defaultRevision : string)
    (limits : Limits) : vres Context :=
  guard_err (MetadataBytes limits <? blen frame + slen defaultRevision + 256)
    (mkViolation resourceLimit "Catalog revision metadata exceeds bound.") ;;
  guard_err ((length frame <? frameHeaderBytes)%nat
             || negb (byte_val (default (byte_of 0) (head frame)) =? frameVersion))
    malformedFrame ;;
  let count := get_uint16 (slice frame 1 2) in
  guard_err (Observations limits <? count) (mkViolation resourceLimit tooManyObservations) ;;
  guard_err (count =? 0) malformedFrame ;;
  '(entries, offset) ← decode_entries frame (RevisionBytes limits) (Z.to_nat count)
                         frameHeaderBytes [];
  guard_err (negb (offset =? length frame)%nat) malformedFrame ;;
  Ok (mkContext (Some entries)).

(** ** Properties of the frame *)

Lemma slice_app pre mid post :
  slice (pre ++ mid ++ post) (length pre) (length mid) = mid.
Proof. unfold slice. by rewrite drop_app_length, take_app_length. Qed.

Lemma slice_app' pre mid post i n :
  i = length pre → n = length mid → slice (pre ++ mid ++ post) i n = mid.
Proof. intros -> ->. apply slice_app. Qed.

(** What [EncodedSize] has established about one retained entry. *)
Definition field_ok (limits : Limits) (s : string) : Prop :=
  0 < slen s ≤ max_uint16 ∧ slen s ≤ RevisionBytes limits ∧ utf8_valid_string s = true.
Definition entry_ok (limits : Limits) (e : Observation) : Prop :=
  field_ok limits (oProvider e) ∧ field_ok limits (oConnection e)
  ∧ field_ok limits (oRevision e).
Definition entry_size (e : Observation) : Z :=
  6 + slen (oProvider e) + slen (oConnection e) + slen (oRevision e).
Definition entries_size (es : list Observation) : Z := foldr (λ e n, entry_size e + n) 0 es.

(** No two entries name the same provider and connection. *)
Definition routes_distinct (previous es : list Observation) : Prop :=
  ∀ es1 e es2, es = es1 ++ e :: es2 → existsb (λ p, same_route p e) (previous ++ es1) = false.

Lemma routes_distinct_nil previous : routes_distinct previous [].
Proof. intros [] ? ? H; discriminate H. Qed.

Lemma routes_distinct_cons previous e es :
  routes_distinct previous (e :: es) ↔
  existsb (λ p, same_route p e) previous = false ∧ routes_distinct (previous ++ [e]) es.
Proof.
  split.
  - intros H. split.
    + specialize (H [] e es eq_refl). by rewrite app_nil_r in H.
    + intros es1 e' es2 ->. specialize (H (e :: es1) e' es2 eq_refl). by rewrite <- app_assoc.
  - intros [H1 H2] [|e0 es1] e' es2 [= <- Hes].
    + by rewrite app_nil_r.
    + rewrite Hes in H2. specialize (H2 es1 e' es2 eq_refl). by rewrite <- app_assoc in H2.
Qed.

Lemma slen_pos s : s ≠ "" → 0 < slen s.
Proof. intros H. pose proof (slen_nonneg s). assert (slen s ≠ 0) by (by rewrite slen_zero). lia. Qed.

Lemma encodedSize_entry_ok limits previous e size n :
  encodedSize_entry limits previous e size = Ok n →
  existsb (λ p, same_route p e) previous = false ∧ entry_ok limits e ∧ n = size + entry_size e.
Proof.
  unfold encodedSize_entry, ValidateRevision. intros H. bind_inv H.
  injection H as <-. propify.
  split; [done|]. split; [|unfold entry_size; lia].
  repeat split; try done; try lia; by apply slen_pos.
Qed.

Lemma encodedSize_entry_intro limits previous e size :
  existsb (λ p, same_route p e) previous = false → entry_ok limits e →
  encodedSize_entry limits previous e size = Ok (size + entry_size e).
Proof.
  intros Hd (Hp & Hc & Hr).
  assert (Hne : ∀ s, field_ok limits s → bool_decide (s = "") = false).
  { intros s [[Hs _] _]. apply bool_decide_eq_false. intros ->. done. }
  assert (Hle : ∀ s, field_ok limits s → (max_uint16 <? slen s) = false
      ∧ (RevisionBytes limits <? slen s) = false ∧ utf8_valid_string s = true).
  { intros s (? & ? & ?). by rewrite !(proj2 (Z.ltb_ge _ _)) by lia. }
  unfold encodedSize_entry, ValidateRevision. rewrite Hd, !Hne by done.
  destruct (Hle _ Hp) as (-> & -> & ->), (Hle _ Hc) as (-> & -> & ->),
    (Hle _ Hr) as (-> & -> & ->). simpl. unfold entry_size. f_equal; lia.
Qed.

Lemma encodedSize_loop_ok limits es : ∀ previous size n,
  encodedSize_loop limits previous es size = Ok n ↔
  routes_distinct previous es ∧ Forall (entry_ok limits) es ∧ n = size + entries_size es.
Proof.
  induction es as [|e es IH]; intros previous size n; cbn [encodedSize_loop].
  - change (entries_size []) with 0. split; [intros [= ->]; split_and!; [apply routes_distinct_nil|done|lia]|].
    intros (_ & _ & ->). f_equal; lia.
  - change (entries_size (e :: es)) with (entry_size e + entries_size es).
    rewrite routes_distinct_cons, Forall_cons. split.
    + intros (m & (Hd & He & ->)%encodedSize_entry_ok & H)%bind_ok.
      apply IH in H as (? & ? & ->). split_and!; try done. lia.
    + intros ([Hd Hds] & [He Hes] & ->). rewrite encodedSize_entry_intro by done.
      simpl. apply IH. split_and!; try done. lia.
Qed.

(** The bytes of one admitted entry. *)
Definition field_bytes (s : string) : bytes := put_uint16 (slen s) ++ bytes_of s.
Definition entry_bytes (e : Observation) : bytes :=
  field_bytes (oProvider e) ++ field_bytes (oConnection e) ++ field_bytes (oRevision e).

Lemma encode_entries_ok limits es :
  Forall (entry_ok limits) es → encode_entries es = Ok (concat (entry_bytes <$> es)).
Proof.
  induction 1 as [|e es (Hp & Hc & Hr) _ IH]; [done|].
  assert (Hf : ∀ s, field_ok limits s → encode_field s = Ok (field_bytes s)).
  { intros s (? & _). unfold encode_field. by pass_guard. }
  cbn [encode_entries encode_fields]. rewrite !Hf by done. simpl. rewrite IH. simpl.
  unfold entry_bytes. by rewrite <- !app_assoc, app_nil_r.
Qed.

Lemma length_field_bytes s : Z.of_nat (length (field_bytes s)) = 2 + slen s.
Proof. unfold field_bytes. rewrite length_app. simpl. pose proof (length_bytes_of s). lia. Qed.

Lemma length_entries_bytes es :
  Z.of_nat (length (concat (entry_bytes <$> es))) = entries_size es.
Proof.
  induction es as [|e es IH]; [done|]. rewrite fmap_cons. cbn [concat].
  change (entries_size (e :: es)) with (entry_size e + entries_size es).
  rewrite length_app. unfold entry_bytes at 1, entry_size. rewrite !length_app. pose proof (length_field_bytes (oProvider e)).
  pose proof (length_field_bytes (oConnection e)). pose proof (length_field_bytes (oRevision e)).
  lia.
Qed.

Lemma decode_field_at limits pre s post :
  field_ok limits s →
  decode_field (pre ++ field_bytes s ++ post) (length pre) (RevisionBytes limits)
  = Ok (s, length (pre ++ field_bytes s)).
Proof.
  intros (Hlen & Hmax & Hutf). unfold decode_field, field_bytes, frameLengthBytes.
  pose proof (length_bytes_of s) as Hb.
  set (frame := pre ++ _ ++ post).
  assert (Hf : length frame = (length pre + (2 + length (bytes_of s)) + length post)%nat)
    by (unfold frame; rewrite !length_app; simpl; lia).
  assert (Hs1 : slice frame (length pre) 2 = put_uint16 (slen s))
    by (unfold frame; rewrite <- app_assoc; by apply slice_app').
  assert (Hs2 : slice frame (length pre + 2) (Z.to_nat (slen s)) = bytes_of s).
  { unfold frame. rewrite <- app_assoc, app_assoc.
    apply slice_app'; [by rewrite length_app|unfold slen; lia]. }
  rewrite Hs1, get_put_uint16 by lia. rewrite Hs2. clearbody frame.
  pass_guard. pass_guard. rewrite string_of_bytes_of.
  do 2 f_equal. rewrite !length_app. simpl. lia.
Qed.

Lemma decodeObservation_at limits pre e post :
  entry_ok limits e →
  decodeObservation (pre ++ entry_bytes e ++ post) (length pre) (RevisionBytes limits)
  = Ok (e, length (pre ++ entry_bytes e)).
Proof.
  intros (Hp & Hc & Hr). unfold decodeObservation, entry_bytes.
  rewrite <- !app_assoc, decode_field_at by done. cbn [mbind res_bind].
  rewrite app_assoc, decode_field_at by done. cbn [mbind res_bind].
  rewrite app_assoc, decode_field_at by done. cbn [mbind res_bind].
  rewrite <- !app_assoc. by destruct e.
Qed.

Lemma decode_entries_at limits es : ∀ pre previous,
  routes_distinct previous es → Forall (entry_ok limits) es →
  decode_entries (pre ++ concat (entry_bytes <$> es)) (RevisionBytes limits) (length es)
    (length pre) previous
  = Ok (previous ++ es, length (pre ++ concat (entry_bytes <$> es))).
Proof.
  induction es as [|e es IH]; intros pre previous Hd Hok.
  - simpl. by rewrite !app_nil_r.
  - apply routes_distinct_cons in Hd as [Hd Hds]. apply Forall_cons in Hok as [He Hes].
    rewrite fmap_cons. cbn [decode_entries concat length].
    rewrite decodeObservation_at by done. cbn [mbind res_bind]. rewrite Hd.
    cbn [guard_err mbind res_bind].
    rewrite app_assoc, IH by done. by rewrite <- !app_assoc.
Qed.

(** The facts [Marshal] has established when it returns a frame. *)
Lemma Marshal_frame ctx dflt limits frame :
  Marshal ctx dflt limits = Ok (Some frame) →
  let es := Entries ctx in
  let n := Z.of_nat (length es) in
  0 < n ≤ max_uint16 ∧ n ≤ Observations limits
  ∧ routes_distinct [] es ∧ Forall (entry_ok limits) es
  ∧ frame = [byte_of 1] ++ put_uint16 n ++ concat (entry_bytes <$> es)
  ∧ EncodedSize ctx dflt limits = Ok (3 + entries_size es)
  ∧ 3 + entries_size es + slen dflt + 256 ≤ MetadataBytes limits.
Proof.
  intros H. cbn zeta. unfold Marshal in H. apply bind_ok in H as (size & Hsize & H).
  pose proof Hsize as Hs. unfold EncodedSize in Hs.
  destruct (_ =? 0) eqn:Hn in Hs; [by injection Hs as <-|].
  bind_inv Hs. injection Hs as ->. apply encodedSize_loop_ok in Hm as (Hd & Hok & ->).
  assert (0 ≤ entries_size (Entries ctx)) by (rewrite <- length_entries_bytes; lia).
  rewrite (proj2 (Z.eqb_neq _ _)) in H by lia. bind_inv H. injection H as <-.
  rewrite (encode_entries_ok limits) in Hm by done. injection Hm as <-. propify.
  split_and!; try done; lia.
Qed.

(** C29: Marshalling loses nothing: whenever [Marshal] returns a frame, the peer's
    [Unmarshal] under the same limits and default revision accepts it from any
    context and recovers exactly the marshalled observations, in order. *)
Theorem frame_roundtrip ctx ctx' dflt limits frame :
  Marshal ctx dflt limits = Ok (Some frame) →
  Unmarshal ctx' frame dflt limits = Ok (mkContext (Some (Entries ctx))).
Proof.
  intros (Hn & Hobs & Hd & Hok & -> & _ & Hmeta)%Marshal_frame. cbn zeta in *.
  set (es := Entries ctx) in *. set (n := Z.of_nat (length es)) in *.
  set (body := concat (entry_bytes <$> es)).
  pose proof (length_entries_bytes es) as Hlen. fold body in Hlen.
  assert (Hslice : slice ([byte_of 1] ++ put_uint16 n ++ body) 1 2 = put_uint16 n)
    by by apply slice_app'.
  set (frame := [byte_of 1] ++ put_uint16 n ++ body) in *.
  assert (Hfl : Z.of_nat (length frame) = 3 + entries_size es)
    by (unfold frame; rewrite !length_app; cbn [length put_uint16]; lia).
  unfold Unmarshal. rewrite Hslice, get_put_uint16 by lia. unfold blen.
  pass_guard. pass_guard by (first [done | unfold frameHeaderBytes; lia]).
  pass_guard. pass_guard. unfold n at 1. rewrite Nat2Z.id.
  pose proof (decode_entries_at limits es ([byte_of 1] ++ put_uint16 n) [] Hd Hok) as Hdec.
  rewrite <- app_assoc in Hdec. fold body frame in Hdec.
  change frameHeaderBytes with (length ([byte_of 1] ++ put_uint16 n)). rewrite Hdec.
  cbn [mbind res_bind]. by pass_guard.
Qed.

(** A returned frame is exactly as long as [EncodedSize] computed before
    allocating it, so [Marshal]'s indexed writes never fall outside the buffer
    and leave no byte unwritten; and that size respects the metadata budget. *)
Theorem frame_size ctx dflt limits frame :
  Marshal ctx dflt limits = Ok (Some frame) →
  EncodedSize ctx dflt limits = Ok (blen frame)
  ∧ blen frame + slen dflt + 256 ≤ MetadataBytes limits.
Proof.
  intros (_ & _ & _ & _ & -> & Hsize & Hmeta)%Marshal_frame. cbn zeta in *.
  pose proof (length_entries_bytes (Entries ctx)) as Hlen.
  assert (blen ([byte_of 1] ++ put_uint16 (Z.of_nat (length (Entries ctx)))
      ++ concat (entry_bytes <$> Entries ctx)) = 3 + entries_size (Entries ctx)) as ->
    by (unfold blen; rewrite !length_app; cbn [length put_uint16]; lia).
  done.
Qed.

Lemma decode_field_inv limits frame off s off' :
  decode_field frame off (RevisionBytes limits) = Ok (s, off') →
  field_ok limits s ∧ drop off frame = field_bytes s ++ drop off' frame.
Proof.
  unfold decode_field, frameLengthBytes. intros H. bind_inv H. injection H as <- <-. propify.
  unfold slice in *.
  remember (drop off frame) as tail eqn:Hd. symmetry in Hd.
  destruct tail as [|h [|l rest]];
    apply (f_equal length) in Hd as Hl; rewrite length_drop in Hl; simpl in Hl; try lia.
  assert (Hrest : drop (off + 2) frame = rest)
    by (rewrite <- drop_drop, Hd; done).
  rewrite Hrest in *. cbn [take] in *. rewrite take_0 in *. set (n := get_uint16 [h; l]) in *.
  pose proof (get_uint16_bound [h; l]) as Hn. fold n in Hn.
  assert (Hlen : length (take (Z.to_nat n) rest) = Z.to_nat n)
    by (rewrite length_take; lia).
  assert (Hs : slen (string_of (take (Z.to_nat n) rest)) = n)
    by (unfold slen; rewrite bytes_of_string_of, Hlen; lia).
  split.
  - unfold field_ok, utf8_valid_string. rewrite Hs, bytes_of_string_of. split_and!; try done; lia.
  - unfold field_bytes. rewrite Hs, bytes_of_string_of. unfold n at 1. rewrite put_get_uint16.
    rewrite <- drop_drop, Hrest. simpl. by rewrite take_drop.
Qed.

Lemma decodeObservation_inv limits frame off e off' :
  decodeObservation frame off (RevisionBytes limits) = Ok (e, off') →
  entry_ok limits e ∧ drop off frame = entry_bytes e ++ drop off' frame.
Proof.
  unfold decodeObservation. intros H.
  apply bind_ok in H as ([p o1] & [Hp H1]%decode_field_inv & H).
  apply bind_ok in H as ([c o2] & [Hc H2]%decode_field_inv & H).
  apply bind_ok in H as ([r o3] & [Hr H3]%decode_field_inv & H).
  cbn beta iota in H. injection H as <- <-. split; [done|]. unfold entry_bytes.
  cbn [oProvider oConnection oRevision]. by rewrite H1, H2, H3, <- !app_assoc.
Qed.

Lemma decode_entries_inv limits frame count : ∀ off prev es' off',
  decode_entries frame (RevisionBytes limits) count off prev = Ok (es', off') →
  ∃ es, es' = prev ++ es ∧ length es = count ∧ routes_distinct prev es
    ∧ Forall (entry_ok limits) es
    ∧ drop off frame = concat (entry_bytes <$> es) ++ drop off' frame.
Proof.
  induction count as [|count IH]; intros off prev es' off' H.
  - injection H as <- <-. exists []. rewrite app_nil_r.
    split_and!; try done. apply routes_distinct_nil.
  - cbn [decode_entries] in H.
    apply bind_ok in H as ([e next] & [He Hnext]%decodeObservation_inv & H).
    bind_inv H. apply IH in H as (es & -> & <- & Hd & Hok & Hrest).
    exists (e :: es). rewrite <- app_assoc, routes_distinct_cons, Forall_cons, fmap_cons.
    cbn [concat]. split_and!; try done. by rewrite Hnext, Hrest, <- app_assoc.
Qed.

Lemma Entries_mk es : Entries (mkContext (Some es)) = es.
Proof. done. Qed.

(** The frame is canonical: every byte string [Unmarshal] accepts is the one
    frame [Marshal] produces for the observations it decoded, so no two frames
    carry the same observations and decoded contexts always re-encode. *)
Theorem frame_canonical ctx ctx' frame dflt limits :
  Unmarshal ctx frame dflt limits = Ok ctx' →
  Marshal ctx' dflt limits = Ok (Some frame).
Proof.
  unfold Unmarshal, frameHeaderBytes, frameVersion. intros H.
  apply bind_ok in H as (_ & Hmeta%guard_err_ok & H).
  apply bind_ok in H as (_ & Hhead%guard_err_ok & H).
  apply bind_ok in H as (_ & Hobs%guard_err_ok & H).
  apply bind_ok in H as (_ & Hcnt%guard_err_ok & H).
  apply bind_ok in H as ([es off] & Hdec & H). cbn beta iota in H.
  apply bind_ok in H as (_ & Hend%guard_err_ok & [= <-]).
  apply orb_false_iff in Hhead as [Hlen3 Hver]. propify.
  set (count := get_uint16 (slice frame 1 2)) in *.
  pose proof (get_uint16_bound (slice frame 1 2)) as Hbound. fold count in Hbound.
  apply decode_entries_inv in Hdec as (es0 & -> & Hlen & Hd & Hok & Hbytes). simpl app.
  rewrite Hend, drop_all, app_nil_r in Hbytes.
  assert (Hcount : Z.of_nat (length es0) = count) by lia.
  destruct frame as [|v [|h [|l body]]]; simpl in Hlen3; try lia.
  change (body = concat (entry_bytes <$> es0)) in Hbytes. subst body.
  assert (Hv : v = byte_of 1).
  { cbn [head default] in Hver. unfold byte_of. rewrite <- Hver. unfold byte_val.
    by rewrite N2Z.id, ascii_N_embedding. }
  pose proof (length_entries_bytes es0) as Hes. unfold blen in Hmeta. cbn [length] in Hmeta.
  assert (Hsize : EncodedSize (mkContext (Some es0)) dflt limits = Ok (3 + entries_size es0)).
  { unfold EncodedSize. rewrite Entries_mk, Hcount.
    rewrite (proj2 (Z.eqb_neq _ _)) by done. pass_guard.
    rewrite (proj2 (encodedSize_loop_ok limits es0 [] 3 _)) by done. cbn [mbind res_bind].
    by pass_guard. }
  unfold Marshal. rewrite Hsize. cbn [mbind res_bind]. rewrite Entries_mk.
  rewrite (proj2 (Z.eqb_neq _ _)) by lia. pass_guard.
  rewrite (encode_entries_ok limits) by done. cbn [mbind res_bind].
  rewrite Hcount, Hv. change count with (get_uint16 [h; l]). by rewrite put_get_uint16.
Qed.

(** ** Lookup is fail-closed *)

Definition on_route (provider connection : string) (e : Observation) : Prop :=
  oProvider e = provider ∧ oConnection e = connection.
#[export] Instance on_route_dec provider connection e : Decision (on_route provider connection e).
Proof. unfold on_route. apply _. Defined.

Lemma qualified_go_spec provider connection es : ∀ revision found,
  qualified_go provider connection revision found es =
  match filter (on_route provider connection) es with
  | [] => (revision, found)
  | [e] => if found then ("", true) else (oRevision e, true)
  | _ => ("", true)
  end.
Proof.
  induction es as [|e es IH]; intros revision found; [done|].
  cbn [qualified_go]. rewrite filter_cons, <- bool_decide_and.
  change (oProvider e = provider ∧ oConnection e = connection)
    with (on_route provider connection e).
  rewrite (bool_decide_decide (on_route provider connection e)).
  destruct (decide _).
  - destruct found; [by destruct (filter _ es)|]. rewrite IH.
    by destruct (filter _ es) as [|? []].
  - apply IH.
Qed.

(** [Qualified] answers with a revision only when the route was observed
    exactly once. An unobserved route is reported absent, and a route with two
    or more observations is reported present with the empty revision, which no
    revision check accepts, even when the duplicates agree. *)
Theorem Qualified_fail_closed ctx provider connection :
  Qualified ctx provider connection =
  match filter (on_route provider connection) (Entries ctx) with
  | [] => ("", false)
  | [e] => (oRevision e, true)
  | _ => ("", true)
  end.
Proof. apply qualified_go_spec. Qed.

(** ** Witnesses *)

Definition sample_limits : Limits := mkLimits 4096 16384 64.
Definition sample_ctx : Context :=
  Append (Append (mkContext None) (mkObservation "p" "c1" "r1")) (mkObservation "p" "c2" "r2").
Definition sample_frame : bytes :=
  [byte_of 1] ++ put_uint16 2 ++
  concat (entry_bytes <$> [mkObservation "p" "c1" "r1"; mkObservation "p" "c2" "r2"]).

Lemma frame_roundtrip_witness :
  Unmarshal (mkContext None) sample_frame "dflt" sample_limits
  = Ok (mkContext (Some (Entries sample_ctx))).
Proof.
  apply (frame_roundtrip sample_ctx (mkContext None) "dflt" sample_limits sample_frame).
  vm_compute. reflexivity.
Defined.

Lemma frame_size_witness :
  EncodedSize sample_ctx "dflt" sample_limits = Ok (blen sample_frame)
  ∧ blen sample_frame + slen "dflt" + 256 ≤ MetadataBytes sample_limits.
Proof.
  apply (frame_size sample_ctx "dflt" sample_limits sample_frame).
  vm_compute. reflexivity.
Defined.

Lemma frame_canonical_witness :
  Marshal (mkContext (Some (Entries sample_ctx))) "dflt" sample_limits = Ok (Some sample_frame).
Proof.
  apply (frame_canonical (mkContext None) _ sample_frame "dflt" sample_limits).
  vm_compute. reflexivity.
Defined.
