(* ===== verification/Values.v ===== *)
(** * Tagged values (pkg/resource/v2/domain.go, validation.go)

    [Value] with every field of the Go struct, active or not; the canonical
    integer and timestamp syntaxes; [ValidateValue] with its node, depth, byte
    and wire budgets; and the protobuf size accounting of [valueWireSize].

    A Go map is the list of its entries in the order this run iterates it, so
    the definitions are exact for every iteration order and the theorems hold
    for all of them. *)
From S2P Require Import Prelude GoStd GoTime Errors.
Local Open Scope Z_scope.

(** ** Limits *)

Definition maxDocumentBytes : Z := Z.shiftl 16 20.
Definition maxDomainDepth : Z := 64.
Definition maxDomainNodes : Z := 262144.
Definition maxDomainFields : Z := 1048576.
Definition maxPageRecords : Z := 256.
Definition MaxMessageBytes : Z := Z.shiftl 32 20.
Definition MaxValueDepth : Z := maxDomainDepth.
Definition MaxPageBodyBytes : Z := MaxMessageBytes.
Definition maxDecimalIntegerLength : Z := 20.

Definition valueKindNull := "null".
Definition valueKindBool := "bool".
Definition valueKindString := "string".
Definition valueKindInt64 := "int64".
Definition valueKindUint64 := "uint64".
Definition valueKindDouble := "double".
Definition valueKindTimestamp := "timestamp".
Definition valueKindList := "list".
Definition valueKindMap := "map".

(** ** Data *)

(** Every field of the struct is present whatever the kind. [None] is a nil
    slice or map, [Some []] an empty one. *)
Inductive Value : Type := mkValue {
  vKind : string;
  vBool : bool;
  vString : string;
  vInt : string;
  vUint : string;
  vDouble : float64;
  vTimestamp : string;
  vList : option (list Value);
  vMap : option (list (string * Value))
}.

Definition zero_float : float64 := S754_zero false.
(** [Value{Kind: kind}]. *)
Definition tagged_zero (kind : string) : Value :=
  mkValue kind false "" "" "" zero_float "" None None.
Definition listOf {A} (o : option (list A)) : list A := default [] o.

Section value_rect.
Context (P : Value → Prop).
Context (H : ∀ k b s i u d t l m,
  Forall P (listOf l) → Forall (λ e, P e.2) (listOf m) →
  P (mkValue k b s i u d t l m)).

(** Induction over the nested lists and maps. *)
Fixpoint Value_nested_ind (v : Value) : P v :=
  let 'mkValue k b s i u d t l m := v in
  H k b s i u d t l m
    match l with
    | None => List.Forall_nil _
    | Some l => (fix go l := match l return Forall P l with
                             | [] => List.Forall_nil _
                             | v :: l => List.Forall_cons _ _ _ (Value_nested_ind v) (go l)
                             end) l
    end
    match m with
    | None => List.Forall_nil _
    | Some m => (fix go m := match m return Forall (λ e, P e.2) m with
                             | [] => List.Forall_nil _
                             | (k, v) :: m =>
                               List.Forall_cons _ (k, v) _ (Value_nested_ind v) (go m)
                             end) m
    end.
End value_rect.

(** ** Scalar syntax *)

Definition byte_is (b : bytes) (i : nat) (c : ascii) : bool := Ascii.eqb (byte_at b i) c.

Definition canonicalInt (s : string) (unsigned : bool) : result unit :=
  let b := bytes_of s in
  guard_err (maxDecimalIntegerLength <? slen s) (invalid "integer out of range") ;;
  guard_err (bool_decide (s = "") || bool_decide (s = "-0") || byte_is b 0 "+"
             || ((1 <? slen s) && byte_is b 0 "0")
             || ((2 <? slen s) && bool_decide (take 2 b = ["-"; "0"]%char)))
    (invalid "noncanonical integer") ;;
  guard_err (byte_is b 0 "-" && unsigned) (invalid "negative unsigned integer") ;;
  let start := if byte_is b 0 "-" then 1%nat else O in
  guard_err (start =? length b)%nat (invalid "invalid integer") ;;
  guard_err (negb (forallb is_digit (drop start b))) (invalid "invalid integer") ;;
  if unsigned
  then guard_err (negb (bool_decide (is_Some (parse_uint64 s)))) (invalid "uint64 out of range")
  else guard_err (negb (bool_decide (is_Some (parse_int64 s)))) (invalid "int64 out of range").

(** [strings.IndexByte]. *)
Definition index_byte (b : bytes) (c : ascii) : option nat :=
  fst <$> list_find (λ x, x = c) b.

Definition maxFractionDigits : nat := 9.

Definition validateTimestampPrecision (b : bytes) : result unit :=
  match index_byte b "." with
  | None => Ok tt
  | Some i =>
    let digits := length (span_digits (drop (S i) b)).1 in
    guard_err ((digits <? 1)%nat || (maxFractionDigits <? digits)%nat) (invalid "timestamp precision")
  end.

Definition timestampZoneLength : nat := 6.

(** [a > b] on strings of equal length. *)
Fixpoint bytes_gt (a b : bytes) : bool :=
  match a, b with
  | x :: a, y :: b =>
    if byte_val y <? byte_val x then true
    else if byte_val x <? byte_val y then false else bytes_gt a b
  | _ :: _, [] => true
  | [], _ => false
  end.

Definition validateTimestampZone (b : bytes) : result unit :=
  if byte_is b (length b - 1) "Z" then Ok tt
  else
    guard_err (length b <? timestampZoneLength)%nat (invalid "invalid timestamp zone") ;;
    let z := drop (length b - timestampZoneLength) b in
    guard_err ((negb (byte_is z 0 "+") && negb (byte_is z 0 "-")) || negb (byte_is z 3 ":")
               || bytes_gt (take 2 (drop 1 z)) (bytes_of "23")
               || bytes_gt (take 2 (drop 4 z)) (bytes_of "59"))
      (invalid "invalid timestamp zone").

Definition timestamp_digits : list nat := [0; 1; 2; 3; 5; 6; 8; 9; 11; 12; 14; 15; 17; 18]%nat.

Definition year_bad (y : Z) : bool := (y <? 1) || (9999 <? y).

Definition timestamp (s : string) : result Time :=
  let b := bytes_of s in
  guard_err ((slen s <? 20) || (40 <? slen s)) (invalid "invalid timestamp") ;;
  guard_err (bool_decide (","%char ∈ b)) (invalid "invalid timestamp fraction") ;;
  guard_err (negb (byte_is b 4 "-" && byte_is b 7 "-" && byte_is b 10 "T"
                   && byte_is b 13 ":" && byte_is b 16 ":")) (invalid "invalid timestamp shape") ;;
  guard_err (negb (forallb (λ i, is_digit (byte_at b i)) timestamp_digits))
    (invalid "invalid timestamp digit") ;;
  validateTimestampPrecision b ;;
  match parse_rfc3339nano b with
  | None => Err (invalid "timestamp out of range")
  | Some (year, t) =>
    guard_err (year_bad year || year_bad (utc_year t)) (invalid "timestamp out of range") ;;
    validateTimestampZone b ;;
    Ok t
  end.

(** [text] and [token] of the shared token rules. *)
Definition text (s : string) (required : bool) : result unit :=
  guard_err (negb (utf8_valid_string s) || (required && bool_decide (s = "")))
    (invalid "invalid or empty UTF-8 token").
Definition token (s : option string) : result unit :=
  match s with Some s => text s true | None => Ok tt end.

(** ** Validation *)

Definition float_nonzero (x : float64) : bool := negb (f64_is_zero x) || f64_signbit x.

Definition inactiveValuePayload (v : Value) : bool :=
  let k := vKind v in
  (bool_decide (k ≠ valueKindBool) && vBool v)
  || (bool_decide (k ≠ valueKindString) && bool_decide (vString v ≠ ""))
  || (bool_decide (k ≠ valueKindInt64) && bool_decide (vInt v ≠ ""))
  || (bool_decide (k ≠ valueKindUint64) && bool_decide (vUint v ≠ ""))
  || (bool_decide (k ≠ valueKindDouble) && float_nonzero (vDouble v))
  || (bool_decide (k ≠ valueKindTimestamp) && bool_decide (vTimestamp v ≠ ""))
  || (bool_decide (k ≠ valueKindList) && negb (if vList v is None then true else false))
  || (bool_decide (k ≠ valueKindMap) && negb (if vMap v is None then true else false)).

Record valueValidationBudget := mkVB { nodes : Z; vbytes : Z }.

Section budget_loops.
Context (walk : Value → Z → valueValidationBudget → result valueValidationBudget).

Definition walk_items (depth : Z) :=
  fix go (vs : list Value) (b : valueValidationBudget) : result valueValidationBudget :=
    match vs with
    | [] => Ok b
    | v :: vs => b ← walk v (depth + 1) b; go vs b
    end.

(** [valueValidationBudget.list]. *)
Definition list_ (values : list Value) (depth : Z) (b : valueValidationBudget) :=
  guard_err (maxDomainNodes - nodes b <? Z.of_nat (length values)) (limited "value node limit") ;;
  walk_items depth values b.

Definition walk_entries (depth : Z) :=
  fix go (vs : list (string * Value)) (b : valueValidationBudget) : result valueValidationBudget :=
    match vs with
    | [] => Ok b
    | (k, v) :: vs =>
      let b := mkVB (nodes b) (vbytes b + slen k) in
      guard_err (maxDocumentBytes <? vbytes b) (limited "value byte limit") ;;
      text k false ;;
      b ← walk v (depth + 1) b; go vs b
    end.

(** [valueValidationBudget.mapEntries]. *)
Definition mapEntries (values : list (string * Value)) (depth : Z) (b : valueValidationBudget) :=
  guard_err (maxDomainNodes - nodes b <? Z.of_nat (length values)) (limited "value node limit") ;;
  walk_entries depth values b.

(** The [switch v.Kind] that ends [walk]. *)
Definition walk_tag (v : Value) (depth : Z) (b : valueValidationBudget) : result valueValidationBudget :=
  let k := vKind v in
  if bool_decide (k = valueKindNull) || bool_decide (k = valueKindBool)
     || bool_decide (k = valueKindString) then Ok b
  else if bool_decide (k = valueKindInt64) then canonicalInt (vInt v) false ;; Ok b
  else if bool_decide (k = valueKindUint64) then canonicalInt (vUint v) true ;; Ok b
  else if bool_decide (k = valueKindDouble) then
    guard_err (f64_is_nan (vDouble v) || f64_is_inf (vDouble v)) (invalid "nonfinite double") ;; Ok b
  else if bool_decide (k = valueKindTimestamp) then timestamp (vTimestamp v) ;; Ok b
  else if bool_decide (k = valueKindList) then
    match vList v with Some l => list_ l depth b | None => list_ [] depth b end
  else if bool_decide (k = valueKindMap) then
    match vMap v with Some m => mapEntries m depth b | None => mapEntries [] depth b end
  else Err (invalid "unknown value kind").
End budget_loops.

(** [valueValidationBudget.walk]. *)
Fixpoint walk (v : Value) (depth : Z) (b : valueValidationBudget) : result valueValidationBudget :=
  let b := mkVB (nodes b + 1) (vbytes b) in
  guard_err ((maxDomainDepth <? depth) || (maxDomainNodes <? nodes b))
    (limited "value complexity limit") ;;
  let b := mkVB (nodes b) (vbytes b + slen (vString v)) in
  guard_err (maxDocumentBytes <? vbytes b) (limited "value byte limit") ;;
  guard_err (negb (utf8_valid_string (vString v))) (invalid "invalid UTF-8 value") ;;
  guard_err (inactiveValuePayload v) (invalid "inactive value payload") ;;
  walk_tag walk v depth b.

(** ** Wire size *)

(** google.golang.org/protobuf/encoding/protowire. *)
Class Protowire := {
  SizeVarint : Z → Z;
  EncodeZigZag : Z → Z
}.
(** Its documentation: a varint takes between 1 and 10 bytes. *)
Class ProtowireLaws `{Protowire} : Prop := {
  SizeVarint_range n : 1 ≤ SizeVarint n ≤ 10
}.

Definition protobufTagBytes : Z := 1.
Definition protobufBoolBytes : Z := 2.
Definition protobufDoubleBytes : Z := 9.

(** A [uint64] loses seven bits per turn, so ten turns always suffice. *)
Fixpoint varint_loop (fuel : nat) (n size : Z) : Z :=
  match fuel with
  | O => size
  | S f => if 128 <=? n then varint_loop f (Z.shiftr n 7) (size + 1) else size
  end.
Definition varintSize (n : Z) : Z := varint_loop 10 n 1.

(** [None] is the panic on a negative size. *)
Definition messageFieldSize (n : Z) : option Z :=
  if n <? 0 then None else Some (protobufTagBytes + varintSize n + n).

(** [t, _ := timestamp(s)]: the zero [time.Time] on error. *)
Definition zero_time : Time := mkTime (-62135596800) 0.
Definition timestamp_or_zero (s : string) : Time :=
  match timestamp s with Ok t => t | Err _ => zero_time end.

(** [for ... { size += f(x) }]. *)
Definition add_sizes {A} (f : A → option Z) :=
  fix go (l : list A) (size : Z) : option Z :=
    match l with
    | [] => Some size
    | a :: l => n ← f a; go l (size + n)
    end.

Section wire_size.
Context `{Protowire}.

Definition entry_size (size : Value → option Z) (e : string * Value) : option Z :=
  n ← size e.2;
  entry ← messageFieldSize n;
  key ← (if bool_decide (e.1 = "") then Some 0 else messageFieldSize (slen e.1));
  messageFieldSize (entry + key).

(** [None] is a panic: an unknown kind. *)
Fixpoint valueWireSize (v : Value) : option Z :=
  let k := vKind v in
  if bool_decide (k = valueKindNull) || bool_decide (k = valueKindBool) then Some protobufBoolBytes
  else if bool_decide (k = valueKindString) then messageFieldSize (slen (vString v))
  else if bool_decide (k = valueKindInt64) then
    Some (protobufTagBytes + SizeVarint (EncodeZigZag (ParseInt_value (vInt v))))
  else if bool_decide (k = valueKindUint64) then Some (1 + varintSize (ParseUint_value (vUint v)))
  else if bool_decide (k = valueKindDouble) then Some protobufDoubleBytes
  else if bool_decide (k = valueKindTimestamp) then
    let t := timestamp_or_zero (vTimestamp v) in
    let size := if negb (Unix t =? 0)
                then protobufTagBytes + SizeVarint (EncodeZigZag (Unix t)) else 0 in
    let size := if 0 <? Nanosecond t
                then size + (protobufTagBytes + varintSize (Nanosecond t)) else size in
    messageFieldSize size
  else if bool_decide (k = valueKindList) then
    match vList v with
    | Some l => add_sizes (λ v, valueWireSize v ≫= messageFieldSize) l 0 ≫= messageFieldSize
    | None => messageFieldSize 0
    end
  else if bool_decide (k = valueKindMap) then
    match vMap v with
    | Some m => add_sizes (entry_size valueWireSize) m 0 ≫= messageFieldSize
    | None => messageFieldSize 0
    end
  else None.

(** A panic escapes as an outcome of its own: no Go error is returned. *)
Definition ValidateValue (v : Value) : option (result unit) :=
  match walk v 0 (mkVB 0 0) with
  | Err e => Some (Err e)
  | Ok _ =>
    size ← valueWireSize v;
    Some (guard_err (maxDocumentBytes <? size) (limited "encoded value byte limit"))
  end.

Definition ValueWireSize (v : Value) : option (result Z) :=
  r ← ValidateValue v;
  match r with
  | Err e => Some (Err e)
  | Ok _ =>
    size ← valueWireSize v;
    Some (guard_err (maxDocumentBytes <? size) (limited "encoded value byte limit") ;; Ok size)
  end.
End wire_size.

(** ** Specification *)

Definition int64_range (n : Z) : Prop := - max_int64 - 1 ≤ n ≤ max_int64.
Definition uint64_range (n : Z) : Prop := 0 ≤ n ≤ max_uint64.

(** The values a payload may take under each tag; every other field is zero. *)
Inductive well_tagged : Value → Prop :=
| WT_null : well_tagged (tagged_zero valueKindNull)
| WT_bool b : well_tagged (mkValue valueKindBool b "" "" "" zero_float "" None None)
| WT_string s : utf8_valid_string s = true →
    well_tagged (mkValue valueKindString false s "" "" zero_float "" None None)
| WT_int n : int64_range n →
    well_tagged (mkValue valueKindInt64 false "" (format_int n) "" zero_float "" None None)
| WT_uint n : uint64_range n →
    well_tagged (mkValue valueKindUint64 false "" "" (format_uint n) zero_float "" None None)
| WT_double x : f64_is_nan x = false → f64_is_inf x = false →
    well_tagged (mkValue valueKindDouble false "" "" "" x "" None None)
| WT_timestamp s t : timestamp s = Ok t →
    well_tagged (mkValue valueKindTimestamp false "" "" "" zero_float s None None)
| WT_list l : Forall well_tagged (listOf l) →
    well_tagged (mkValue valueKindList false "" "" "" zero_float "" l None)
| WT_map m : Forall (λ e, utf8_valid_string e.1 = true ∧ well_tagged e.2) (listOf m) →
    well_tagged (mkValue valueKindMap false "" "" "" zero_float "" None m).

Definition sum_of {A} (f : A → Z) : list A → Z :=
  fix go l := match l with [] => 0 | a :: l => f a + go l end.
Definition max_of {A} (f : A → Z) : list A → Z :=
  fix go l := match l with [] => 0 | a :: l => Z.max (f a) (go l) end.

Fixpoint value_nodes (v : Value) : Z :=
  1 + match vList v with Some l => sum_of value_nodes l | None => 0 end
  + match vMap v with Some m => sum_of (λ e, value_nodes e.2) m | None => 0 end.
Fixpoint value_bytes (v : Value) : Z :=
  slen (vString v)
  + match vList v with Some l => sum_of value_bytes l | None => 0 end
  + match vMap v with Some m => sum_of (λ e, slen e.1 + value_bytes e.2) m | None => 0 end.
Fixpoint value_depth (v : Value) : Z :=
  Z.max match vList v with Some l => max_of (λ v, 1 + value_depth v) l | None => 0 end
        match vMap v with Some m => max_of (λ e, 1 + value_depth e.2) m | None => 0 end.

Definition fits (v : Value) (depth : Z) (b : valueValidationBudget) : Prop :=
  depth + value_depth v ≤ maxDomainDepth ∧ nodes b + value_nodes v ≤ maxDomainNodes
  ∧ vbytes b + value_bytes v ≤ maxDocumentBytes.
Definition charge (v : Value) (b : valueValidationBudget) : valueValidationBudget :=
  mkVB (nodes b + value_nodes v) (vbytes b + value_bytes v).

(** ** Canonical integers *)


Lemma bytes_of_nil s : bytes_of s = [] ↔ s = EmptyString.
Proof. split; [|by intros ->]. intros H. by apply bytes_of_inj. Qed.

Lemma byte_is_cons b c : c ≠ byte_of 0 → byte_is b 0 c = true ↔ head b = Some c.
Proof.
  unfold byte_is, byte_at. rewrite Ascii.eqb_eq. destruct b as [|x b]; simpl; naive_solver.
Qed.

Lemma digit_not_byte b c :
  forallb is_digit b = true → is_digit c = false → c ≠ byte_of 0 → byte_is b 0 c = false.
Proof.
  intros Hb Hc Hz. apply not_true_iff_false. rewrite byte_is_cons by done.
  destruct b as [|x b]; [done|]. intros [= ->]. cbn in Hb. by rewrite Hc in Hb.
Qed.


Lemma format_digits_length_pos n : 0 ≤ n → (1 ≤ length (format_digits n))%nat.
Proof. intros Hn. pose proof (format_digits_nonempty n Hn). destruct (format_digits n); simpl; [done|lia]. Qed.

Lemma canonicalInt_digits s :
  canonicalInt s true = Ok tt ↔ ∃ n, uint64_range n ∧ bytes_of s = format_digits n.
Proof.
  unfold canonicalInt, uint64_range. rewrite !bind_guard_iff, guard_err_iff, andb_true_r. split.
  - intros (H1 & H2 & H3 & H4 & H5 & H6). rewrite H3 in *. cbn [drop] in *. propify.
    destruct H6 as [n Hn]. unfold parse_uint64 in Hn.
    destruct (digits_value (bytes_of s)) as [m|] eqn:Hv; [|done]. simpl in Hn.
    destruct (m <=? max_uint64) eqn:Hm; [|done]. injection Hn as ->. propify.
    exists n. split; [split; [by eapply digits_value_nonneg|done]|].
    symmetry. apply (digits_value_canonical _ _ Hv).
    match goal with H : _ && byte_is _ 0 "0" = false |- _ => rename H into Hz end.
    apply andb_false_iff in Hz as [Hz|Hz]; [left|right].
    + propify. unfold slen in Hz. destruct (bytes_of s); [done|]. simpl in *. lia.
    + intros Hh. apply byte_is_cons in Hh; [|done]. congruence.
  - intros (n & Hn & Hs). pose proof (format_digits_digits n) as Hd.
    pose proof (format_digits_length_pos n ltac:(lia)) as Hlen. rewrite <- Hs in *.
    assert (Hsign : byte_is (bytes_of s) 0 "-" = false) by by apply digit_not_byte.
    assert (length (bytes_of s) ≤ 20)%nat
      by (rewrite Hs; apply format_digits_length; unfold max_uint64 in Hn; lia).
    rewrite Hsign. cbn [drop]. split_and!; try done.
    + unfold slen, maxDecimalIntegerLength. apply Z.ltb_ge. lia.
    + assert (byte_is (bytes_of s) 0 "+" = false) as -> by by apply digit_not_byte.
      false_split; try done.
      * intros ->. simpl in Hlen. lia.
      * intros ->. done.
      * apply andb_false_iff. destruct (byte_is (bytes_of s) 0 "0") eqn:Hz; [left|by right].
        apply byte_is_cons in Hz; [|done]. rewrite Hs in Hz. apply format_digits_lead in Hz; [|lia].
        subst n. unfold slen. by rewrite Hs.
      * apply andb_false_iff. right. apply bool_decide_eq_false. intros Ht.
        destruct (bytes_of s); [done|]. by injection Ht as -> _.
    + apply Nat.eqb_neq. lia.
    + by rewrite drop_0, Hd.
    + apply negb_false_iff, bool_decide_eq_true. exists n. unfold parse_uint64. rewrite Hs.
      rewrite format_digits_value by lia. simpl. by rewrite (proj2 (Z.leb_le _ _)) by lia.
Qed.

Lemma canonicalInt_uint s :
  canonicalInt s true = Ok tt ↔ ∃ n, uint64_range n ∧ s = format_uint n.
Proof.
  rewrite canonicalInt_digits. unfold format_uint. split; intros (n & Hn & H); exists n; split; try done.
  - by rewrite <- H, string_of_bytes_of.
  - by rewrite H, bytes_of_string_of.
Qed.



Lemma parse_int64_digits s :
  forallb is_digit (bytes_of s) = true →
  parse_int64 s = (n ← digits_value (bytes_of s); if n <=? max_int64 then Some n else None).
Proof.
  unfold parse_int64. destruct (bytes_of s) as [|c t]; [done|]. cbn [forallb].
  intros [Hc _]%andb_true_iff.
  by destruct c as [[] [] [] [] [] [] [] []]; try discriminate Hc.
Qed.

Lemma canonicalInt_unsigned s :
  byte_is (bytes_of s) 0 "-" = false →
  canonicalInt s false = Ok tt ↔
    canonicalInt s true = Ok tt ∧ is_Some (parse_int64 s).
Proof.
  intros Hs. unfold canonicalInt. rewrite !bind_guard_iff, !guard_err_iff, Hs. cbn [andb].
  rewrite !negb_false_iff, !bool_decide_eq_true, drop_0.
  assert (forallb is_digit (bytes_of s) = true → is_Some (parse_int64 s) →
          is_Some (parse_uint64 s)); [|naive_solver].
  intros Hd. rewrite parse_int64_digits by done. unfold parse_uint64, max_int64, max_uint64.
  destruct (digits_value (bytes_of s)) as [m|]; [|done]. simpl.
  destruct (m <=? 9223372036854775807) eqn:Hm; [|by intros [? ?]]. propify.
  rewrite (proj2 (Z.leb_le _ _)) by lia. done.
Qed.

Lemma canonicalInt_negative s t :
  bytes_of s = "-"%char :: t →
  canonicalInt s false = Ok tt ↔
    ∃ n, - max_int64 - 1 ≤ n < 0 ∧ t = format_digits (- n).
Proof.
  intros Hb. unfold canonicalInt. rewrite !bind_guard_iff, guard_err_iff, Hb.
  change (byte_is ("-"%char :: t) 0 "-") with true. cbn [andb drop]. split.
  - intros (H1 & H2 & _ & H4 & H5 & H6). propify. destruct H6 as [n Hn].
    unfold parse_int64 in Hn. rewrite Hb in Hn.
    destruct (digits_value t) as [m|] eqn:Hv; [|done]. simpl in Hn.
    destruct (m <=? max_int64 + 1) eqn:Hm; [|done]. injection Hn as <-. propify.
    pose proof (digits_value_nonneg _ _ Hv).
    assert (Hhead : head t ≠ Some "0"%char).
    { intros Hh. destruct t as [|c t]; [done|]. injection Hh as ->.
      destruct t as [|c' t].
      - match goal with H : s ≠ "-0"%string |- _ => destruct H end. by apply bytes_of_inj.
      - match goal with H : _ && bool_decide (take 2 _ = _) = false |- _ => rename H into Hz end.
        apply andb_false_iff in Hz as [Hz|Hz]; propify.
        + unfold slen in Hz. rewrite Hb in Hz. simpl in Hz. lia.
        + done. }
    pose proof (digits_value_canonical _ _ Hv (or_intror Hhead)) as Hf.
    exists (- m). rewrite Z.opp_involutive. split; [|done].
    destruct (Z.eq_dec m 0) as [->|]; [|lia]. exfalso. by rewrite <- Hf in Hhead.
  - intros (n & Hn & ->). pose proof (format_digits_length_pos (- n) ltac:(lia)).
    assert (length (format_digits (- n)) ≤ 19)%nat
      by (apply format_digits_length; unfold max_int64 in Hn; lia).
    assert (Hne : ∀ r, format_digits (- n) ≠ "0"%char :: r).
    { intros r E. assert (- n = 0); [|lia]. apply format_digits_lead; [lia|]. by rewrite E. }
    split_and!; try done.
    + unfold slen, maxDecimalIntegerLength. rewrite Hb. simpl. apply Z.ltb_ge. lia.
    + false_split; try done.
      * intros ->. done.
      * intros ->. injection Hb as E. by destruct (Hne []).
      * by rewrite andb_false_r.
      * apply andb_false_iff. right. apply bool_decide_eq_false. intros E.
        destruct (format_digits (- n)) as [|c r]; [done|]. injection E as ->. by destruct (Hne r).
    + apply Nat.eqb_neq. simpl. lia.
    + change (negb (forallb is_digit (format_digits (- n))) = false). by rewrite format_digits_digits.
    + apply negb_false_iff, bool_decide_eq_true. exists n. unfold parse_int64. rewrite Hb.
      rewrite format_digits_value by lia. simpl. rewrite (proj2 (Z.leb_le _ _)) by lia. f_equal; lia.
Qed.

Lemma format_int_bytes n :
  bytes_of (format_int n) = if n <? 0 then "-"%char :: format_digits (- n) else format_digits n.
Proof. unfold format_int, format_uint. case_match; by rewrite bytes_of_string_of. Qed.

Lemma canonicalInt_int s :
  canonicalInt s false = Ok tt ↔ ∃ n, int64_range n ∧ s = format_int n.
Proof.
  destruct (byte_is (bytes_of s) 0 "-") eqn:Hsign.
  - apply byte_is_cons in Hsign; [|done].
    destruct (bytes_of s) as [|c t] eqn:Hb; [done|]. injection Hsign as ->.
    rewrite canonicalInt_negative by done. unfold int64_range.
    split; intros (n & Hn & Ht); exists n; (split; [try (unfold max_int64 in *; lia)|]).
    + apply bytes_of_inj. rewrite format_int_bytes, (proj2 (Z.ltb_lt _ _)) by lia. by rewrite Hb, Ht.
    + destruct (n <? 0) eqn:E; propify; [lia|]. exfalso. subst s. rewrite format_int_bytes in Hb.
      rewrite (proj2 (Z.ltb_ge _ _)) in Hb by lia.
      pose proof (format_digits_digits n) as Hd. by rewrite Hb in Hd.
    + subst s. rewrite format_int_bytes in Hb. destruct (n <? 0); [by injection Hb as <-|].
      pose proof (format_digits_digits n) as Hd. by rewrite Hb in Hd.
  - rewrite canonicalInt_unsigned, canonicalInt_digits by done. unfold uint64_range, int64_range. split.
    + intros [(n & Hn & Hb) [m Hm]]. exists n.
      rewrite parse_int64_digits, Hb, format_digits_value in Hm
        by (rewrite ?Hb; first [apply format_digits_digits|lia]). simpl in Hm.
      destruct (n <=? max_int64) eqn:E; [|done]. propify. split; [unfold max_int64 in *; lia|].
      apply bytes_of_inj. by rewrite format_int_bytes, (proj2 (Z.ltb_ge _ _)) by lia.
    + intros (n & Hn & ->). rewrite format_int_bytes in *. destruct (n <? 0) eqn:E; [done|]. propify.
      split; [exists n; split; [unfold max_int64, max_uint64 in *; lia|done]|].
      exists n. by apply parse_format_int.
Qed.

(** ** Validation *)

(** Decides the tag comparisons a concrete kind leaves. *)
Ltac kinds :=
  cbn [vKind vBool vString vInt vUint vDouble vTimestamp vList vMap];
  repeat first [rewrite (bool_decide_true (_ = _)) by reflexivity
               |rewrite (bool_decide_false (_ = _)) by discriminate];
  cbn [orb andb negb].

Lemma float_zero_iff x : float_nonzero x = false ↔ x = zero_float.
Proof. by destruct x as [[]|[]| |[] ? ?]. Qed.

Lemma is_none_iff {A} (o : option A) : negb (if o is None then true else false) = false ↔ o = None.
Proof. by destruct o. Qed.

Lemma bool_decide_neq_and (P : Prop) `{Decision P} b :
  bool_decide (¬ P) && b = false ↔ (¬ P → b = false).
Proof.
  destruct (bool_decide_reflect (¬ P)), b; simpl; naive_solver.
Qed.

Lemma inactive_iff v :
  inactiveValuePayload v = false ↔
  (vKind v ≠ valueKindBool → vBool v = false) ∧
  (vKind v ≠ valueKindString → vString v = "") ∧
  (vKind v ≠ valueKindInt64 → vInt v = "") ∧
  (vKind v ≠ valueKindUint64 → vUint v = "") ∧
  (vKind v ≠ valueKindDouble → vDouble v = zero_float) ∧
  (vKind v ≠ valueKindTimestamp → vTimestamp v = "") ∧
  (vKind v ≠ valueKindList → vList v = None) ∧
  (vKind v ≠ valueKindMap → vMap v = None).
Proof.
  unfold inactiveValuePayload. rewrite !orb_false_iff, !bool_decide_neq_and.
  rewrite !bool_decide_eq_false, float_zero_iff, !is_none_iff.
  assert (∀ a b : string, ¬ a ≠ b ↔ a = b) as Hn by (intros; destruct (decide (a = b)); naive_solver).
  rewrite !Hn. tauto.
Qed.

Ltac use_inactive :=
  repeat match goal with
  | H : ?a ≠ ?b → _ |- _ =>
    first [specialize (H ltac:(discriminate)); simpl in H | clear H]
  end; subst.

Lemma bool_decide_orb3 (P Q R : Prop) `{Decision P, Decision Q, Decision R} :
  bool_decide P || bool_decide Q || bool_decide R = true → P ∨ Q ∨ R.
Proof. rewrite !orb_true_iff, !bool_decide_eq_true. tauto. Qed.

Lemma sum_of_nonneg {A} (f : A → Z) l : (∀ a, 0 ≤ f a) → 0 ≤ sum_of f l.
Proof. intros H. induction l as [|a l IH]; [done|]. cbn. specialize (H a). lia. Qed.
Lemma max_of_nonneg {A} (f : A → Z) l : 0 ≤ max_of f l.
Proof. induction l as [|a l IH]; [done|]. cbn. lia. Qed.

Lemma sum_of_length {A} (f : A → Z) l : (∀ a, 1 ≤ f a) → Z.of_nat (length l) ≤ sum_of f l.
Proof. intros H. induction l as [|a l IH]; [done|]. cbn. specialize (H a). lia. Qed.

Lemma value_nodes_eq v :
  value_nodes v = 1 + sum_of value_nodes (listOf (vList v))
                  + sum_of (λ e, value_nodes e.2) (listOf (vMap v)).
Proof. by destruct v as [k b s i u d t [l|] [m|]]. Qed.
Lemma value_bytes_eq v :
  value_bytes v = slen (vString v) + sum_of value_bytes (listOf (vList v))
                  + sum_of (λ e, slen e.1 + value_bytes e.2) (listOf (vMap v)).
Proof. by destruct v as [k b s i u d t [l|] [m|]]. Qed.
Lemma value_depth_eq v :
  value_depth v = Z.max (max_of (λ v, 1 + value_depth v) (listOf (vList v)))
                        (max_of (λ e, 1 + value_depth e.2) (listOf (vMap v))).
Proof. by destruct v as [k b s i u d t [l|] [m|]]. Qed.

Lemma Forall_sum_nonneg {A} (f : A → Z) l : Forall (λ a, 0 ≤ f a) l → 0 ≤ sum_of f l.
Proof. induction 1; cbn; lia. Qed.
Lemma Forall_sum_length {A} (f : A → Z) l :
  Forall (λ a, 1 ≤ f a) l → Z.of_nat (length l) ≤ sum_of f l.
Proof. induction 1; cbn [length]; [done|]. cbn [sum_of]. lia. Qed.

Lemma value_nodes_pos v : 1 ≤ value_nodes v.
Proof.
  induction v as [k b s i u d t l m Hl Hm] using Value_nested_ind. rewrite value_nodes_eq. simpl.
  apply Forall_sum_length in Hl. apply (Forall_sum_length (λ e, value_nodes e.2)) in Hm. lia.
Qed.
Lemma value_bytes_nonneg v : 0 ≤ value_bytes v.
Proof.
  induction v as [k b s i u d t l m Hl Hm] using Value_nested_ind. rewrite value_bytes_eq. simpl.
  apply Forall_sum_nonneg in Hl.
  assert (0 ≤ sum_of (λ e, slen e.1 + value_bytes e.2) (listOf m)).
  { apply Forall_sum_nonneg. eapply Forall_impl; [exact Hm|]. intros [] ?. simpl in *.
    pose proof (slen_nonneg s0). lia. }
  pose proof (slen_nonneg s). lia.
Qed.
Lemma value_depth_nonneg v : 0 ≤ value_depth v.
Proof.
  rewrite value_depth_eq. pose proof (max_of_nonneg (λ v, 1 + value_depth v) (listOf (vList v))). lia.
Qed.

(** The walk's verdict and charge for one value, as the induction carries it. *)
Definition walk_exact (v : Value) : Prop := ∀ depth b b',
  walk v depth b = Ok b' ↔ well_tagged v ∧ fits v depth b ∧ b' = charge v b.

Lemma walk_items_exact vs : Forall walk_exact vs → ∀ depth b b',
  depth ≤ maxDomainDepth → nodes b ≤ maxDomainNodes → vbytes b ≤ maxDocumentBytes →
  walk_items walk depth vs b = Ok b' ↔
  Forall well_tagged vs
  ∧ depth + max_of (λ v, 1 + value_depth v) vs ≤ maxDomainDepth
  ∧ nodes b + sum_of value_nodes vs ≤ maxDomainNodes
  ∧ vbytes b + sum_of value_bytes vs ≤ maxDocumentBytes
  ∧ b' = mkVB (nodes b + sum_of value_nodes vs) (vbytes b + sum_of value_bytes vs).
Proof.
  induction 1 as [|v vs Hv _ IH]; intros depth b b' Hd Hn Hb; cbn [walk_items sum_of max_of].
  - rewrite !Z.add_0_r. destruct b; simpl in *. naive_solver.
  - rewrite bind_ok_iff, Forall_cons. unfold walk_exact, fits, charge in Hv. split.
    + intros (b1 & H1 & H2). apply Hv in H1 as (Hw & (Hd1 & Hn1 & Hb1) & ->).
      pose proof (value_depth_nonneg v).
      apply IH in H2 as (Hws & Hd2 & Hn2 & Hb2 & ->); try done.
      cbn [nodes vbytes] in *. rewrite !Z.add_assoc. split_and!; try done; lia.
    + intros ((Hw & Hws) & Hd2 & Hn2 & Hb2 & ->).
      assert (0 ≤ sum_of value_nodes vs) by
        (apply sum_of_nonneg; intros a; pose proof (value_nodes_pos a); lia).
      assert (0 ≤ sum_of value_bytes vs) by (apply sum_of_nonneg, value_bytes_nonneg).
      exists (charge v b). split; [apply Hv; split_and!; try done; lia|].
      unfold charge. apply IH; cbn [nodes vbytes]; try lia.
      rewrite !Z.add_assoc. split_and!; try done; lia.
Qed.

Lemma walk_entries_exact vs : Forall (λ e, walk_exact e.2) vs → ∀ depth b b',
  depth ≤ maxDomainDepth → nodes b ≤ maxDomainNodes → vbytes b ≤ maxDocumentBytes →
  walk_entries walk depth vs b = Ok b' ↔
  Forall (λ e, utf8_valid_string e.1 = true ∧ well_tagged e.2) vs
  ∧ depth + max_of (λ e, 1 + value_depth e.2) vs ≤ maxDomainDepth
  ∧ nodes b + sum_of (λ e, value_nodes e.2) vs ≤ maxDomainNodes
  ∧ vbytes b + sum_of (λ e, slen e.1 + value_bytes e.2) vs ≤ maxDocumentBytes
  ∧ b' = mkVB (nodes b + sum_of (λ e, value_nodes e.2) vs)
              (vbytes b + sum_of (λ e, slen e.1 + value_bytes e.2) vs).
Proof.
  induction 1 as [|[k v] vs Hv _ IH]; intros depth b b' Hd Hn Hb; cbn [walk_entries sum_of max_of fst snd].
  - rewrite !Z.add_0_r. destruct b; simpl in *. naive_solver.
  - unfold text. rewrite !bind_guard_iff, bind_ok_iff, Forall_cons, andb_false_l, orb_false_r, negb_false_iff.
    cbn [fst snd nodes vbytes] in *. unfold walk_exact, fits, charge in Hv.
    pose proof (slen_nonneg k). split.
    + intros (Hkb & Hk & b1 & H1 & H2). apply Hv in H1 as (Hw & (Hd1 & Hn1 & Hb1) & ->).
      pose proof (value_depth_nonneg v). cbn [nodes vbytes] in *.
      apply IH in H2 as (Hws & Hd2 & Hn2 & Hb2 & ->); try done.
      cbn [nodes vbytes] in *. rewrite !Z.add_assoc. split_and!; try done; lia.
    + intros (((Hk & Hw) & Hws) & Hd2 & Hn2 & Hb2 & ->).
      assert (0 ≤ sum_of (λ e : string * Value, value_nodes e.2) vs) by
        (apply sum_of_nonneg; intros a; pose proof (value_nodes_pos a.2); lia).
      assert (0 ≤ sum_of (λ e : string * Value, slen e.1 + value_bytes e.2) vs) by
        (apply sum_of_nonneg; intros [k' a]; pose proof (value_bytes_nonneg a);
         pose proof (slen_nonneg k'); cbn; lia).
      pose proof (value_bytes_nonneg v).
      split; [apply Z.ltb_ge; lia|]. split; [done|].
      exists (charge v (mkVB (nodes b) (vbytes b + slen k))).
      split; [apply Hv; cbn [nodes vbytes]; split_and!; try done; lia|].
      unfold charge. apply IH; cbn [nodes vbytes]; try lia.
      rewrite !Z.add_assoc. split_and!; try done; lia.
Qed.

Lemma fits_leaf v depth b :
  listOf (vList v) = [] → listOf (vMap v) = [] →
  fits v depth b ↔ depth ≤ maxDomainDepth ∧ nodes b + 1 ≤ maxDomainNodes
                   ∧ vbytes b + slen (vString v) ≤ maxDocumentBytes.
Proof.
  intros Hl Hm. unfold fits. rewrite value_depth_eq, value_nodes_eq, value_bytes_eq, Hl, Hm. cbn.
  rewrite Z.add_0_r, !Z.add_0_r. done.
Qed.

Lemma charge_leaf v b :
  listOf (vList v) = [] → listOf (vMap v) = [] →
  charge v b = mkVB (nodes b + 1) (vbytes b + slen (vString v)).
Proof. intros Hl Hm. unfold charge. rewrite value_nodes_eq, value_bytes_eq, Hl, Hm. cbn. by rewrite !Z.add_0_r. Qed.

Lemma walk_eq v depth b b' :
  walk v depth b = Ok b' ↔
  depth ≤ maxDomainDepth ∧ nodes b + 1 ≤ maxDomainNodes
  ∧ vbytes b + slen (vString v) ≤ maxDocumentBytes
  ∧ utf8_valid_string (vString v) = true ∧ inactiveValuePayload v = false
  ∧ walk_tag walk v depth (mkVB (nodes b + 1) (vbytes b + slen (vString v))) = Ok b'.
Proof.
  assert (Hw : walk v depth b =
    guard_err ((maxDomainDepth <? depth) || (maxDomainNodes <? nodes b + 1))
      (limited "value complexity limit") ≫= λ _,
    guard_err (maxDocumentBytes <? vbytes b + slen (vString v)) (limited "value byte limit") ≫= λ _,
    guard_err (negb (utf8_valid_string (vString v))) (invalid "invalid UTF-8 value") ≫= λ _,
    guard_err (inactiveValuePayload v) (invalid "inactive value payload") ≫= λ _,
    walk_tag walk v depth (mkVB (nodes b + 1) (vbytes b + slen (vString v)))).
  { destruct v as [k bo s i u d t [l|] [m|]]; done. }
  rewrite Hw, !bind_guard_iff, orb_false_iff, !Z.ltb_ge, negb_false_iff. tauto.
Qed.

Lemma walk_tag_listOf k bo s i u d t l m depth b :
  walk_tag walk (mkValue k bo s i u d t l m) depth b =
  if bool_decide (k = valueKindNull) || bool_decide (k = valueKindBool)
     || bool_decide (k = valueKindString) then Ok b
  else if bool_decide (k = valueKindInt64) then canonicalInt i false ;; Ok b
  else if bool_decide (k = valueKindUint64) then canonicalInt u true ;; Ok b
  else if bool_decide (k = valueKindDouble) then
    guard_err (f64_is_nan d || f64_is_inf d) (invalid "nonfinite double") ;; Ok b
  else if bool_decide (k = valueKindTimestamp) then timestamp t ;; Ok b
  else if bool_decide (k = valueKindList) then list_ walk (listOf l) depth b
  else if bool_decide (k = valueKindMap) then mapEntries walk (listOf m) depth b
  else Err (invalid "unknown value kind").
Proof. by destruct l, m. Qed.

Lemma walk_tag_well_tagged v depth b b' :
  Forall walk_exact (listOf (vList v)) → Forall (λ e, walk_exact e.2) (listOf (vMap v)) →
  depth ≤ maxDomainDepth → nodes b ≤ maxDomainNodes → vbytes b ≤ maxDocumentBytes →
  utf8_valid_string (vString v) = true → inactiveValuePayload v = false →
  walk_tag walk v depth b = Ok b' → well_tagged v.
Proof.
  intros Hl Hm Hd Hn Hb Hu Hi%inactive_iff Hw.
  destruct v as [k bo s i u d t l m]. rewrite walk_tag_listOf in Hw. simpl in *.
  destruct Hi as (? & ? & ? & ? & ? & ? & ? & ?).
  destruct (_ || _) eqn:E3.
  { apply bool_decide_orb3 in E3 as [->|[->| ->]]; use_inactive; by constructor. }
  clear E3. repeat case_bool_decide; try done; subst k; use_inactive.
  - apply bind_ok_iff in Hw as ([] & (n & Hr & ->)%canonicalInt_int & _). by constructor.
  - apply bind_ok_iff in Hw as ([] & (n & Hr & ->)%canonicalInt_uint & _). by constructor.
  - apply bind_guard_iff in Hw as [[? ?]%orb_false_iff _]. by constructor.
  - apply bind_ok_iff in Hw as (t' & Ht & _). by econstructor.
  - unfold list_ in Hw. apply bind_guard_iff in Hw as [_ Hw].
    apply walk_items_exact in Hw; [|done..]. constructor. apply Hw.
  - unfold mapEntries in Hw. apply bind_guard_iff in Hw as [_ Hw].
    apply walk_entries_exact in Hw; [|done..]. constructor. apply Hw.
Qed.



Lemma nodes_of_list l :
  Z.of_nat (length l) ≤ sum_of value_nodes l ∧ 0 ≤ sum_of value_bytes l.
Proof.
  split; [apply sum_of_length, value_nodes_pos|apply sum_of_nonneg, value_bytes_nonneg].
Qed.

Lemma nodes_of_entries (m : list (string * Value)) :
  Z.of_nat (length m) ≤ sum_of (λ e, value_nodes e.2) m
  ∧ 0 ≤ sum_of (λ e, slen e.1 + value_bytes e.2) m.
Proof.
  split; [apply sum_of_length; intros a; apply value_nodes_pos|].
  apply sum_of_nonneg. intros [k v]. pose proof (value_bytes_nonneg v).
  pose proof (slen_nonneg k). cbn. lia.
Qed.

(** An absent payload counts nothing. *)
Ltac unfold_empty :=
  change (slen EmptyString) with 0;
  repeat match goal with
  | |- context [sum_of ?f (listOf None)] => change (sum_of f (listOf None)) with 0
  | |- context [max_of ?f (listOf None)] => change (max_of f (listOf None)) with 0
  end.

Lemma walk_tag_exact v depth b b' :
  Forall walk_exact (listOf (vList v)) → Forall (λ e, walk_exact e.2) (listOf (vMap v)) →
  well_tagged v → depth ≤ maxDomainDepth → nodes b + 1 ≤ maxDomainNodes →
  vbytes b + slen (vString v) ≤ maxDocumentBytes →
  walk_tag walk v depth (mkVB (nodes b + 1) (vbytes b + slen (vString v))) = Ok b' ↔
  fits v depth b ∧ b' = charge v b.
Proof.
  intros Hl Hm Hw Hd Hn Hb.
  destruct Hw; unfold tagged_zero in *; rewrite walk_tag_listOf; kinds;
    cbn [vString vList vMap] in *; rewrite ?fits_leaf, ?charge_leaf by done.
  1-3: naive_solver.
  - rewrite (proj2 (canonicalInt_int _)) by eauto. cbn [mbind res_bind vString]. naive_solver.
  - rewrite (proj2 (canonicalInt_uint _)) by eauto. cbn [mbind res_bind vString]. naive_solver.
  - rewrite H, H0. cbn [mbind res_bind vString guard_err orb]. naive_solver.
  - rewrite H. cbn [mbind res_bind vString]. naive_solver.
  - unfold list_. pose proof (nodes_of_list (listOf l)).
    rewrite bind_guard_iff, Z.ltb_ge, walk_items_exact by (cbn [nodes vbytes]; done || lia).
    unfold fits, charge. rewrite value_nodes_eq, value_bytes_eq, value_depth_eq.
    cbn [vString vList vMap nodes vbytes]. unfold_empty. rewrite ?Z.add_0_l, ?Z.add_0_r, ?Z.add_assoc.
    pose proof (max_of_nonneg (λ v, 1 + value_depth v) (listOf l)).
    rewrite Z.max_l by done. split; [intros (? & ? & ? & ? & ? & ->)|intros ((? & ? & ?) & ->)];
      split_and!; done || lia.
  - unfold mapEntries. pose proof (nodes_of_entries (listOf m)).
    rewrite bind_guard_iff, Z.ltb_ge, walk_entries_exact by (cbn [nodes vbytes]; done || lia).
    unfold fits, charge. rewrite value_nodes_eq, value_bytes_eq, value_depth_eq.
    cbn [vString vList vMap nodes vbytes]. unfold_empty. rewrite ?Z.add_0_l, ?Z.add_0_r, ?Z.add_assoc.
    pose proof (max_of_nonneg (λ e : string * Value, 1 + value_depth e.2) (listOf m)).
    rewrite Z.max_r by done. split; [intros (? & ? & ? & ? & ? & ->)|intros ((? & ? & ?) & ->)];
      split_and!; done || lia.
Qed.

Lemma well_tagged_active v :
  well_tagged v → utf8_valid_string (vString v) = true ∧ inactiveValuePayload v = false.
Proof. destruct 1; (split; [done|]); apply inactive_iff; kinds; naive_solver. Qed.

Lemma fits_shared v depth b :
  fits v depth b → depth ≤ maxDomainDepth ∧ nodes b + 1 ≤ maxDomainNodes
                   ∧ vbytes b + slen (vString v) ≤ maxDocumentBytes.
Proof.
  unfold fits. pose proof (value_depth_nonneg v). rewrite value_nodes_eq, value_bytes_eq.
  pose proof (nodes_of_list (listOf (vList v))). pose proof (nodes_of_entries (listOf (vMap v))). lia.
Qed.

Lemma walk_spec v : walk_exact v.
Proof.
  induction v as [k bo s i u d t l m Hl Hm] using Value_nested_ind.
  set (v := mkValue k bo s i u d t l m) in *. intros depth b b'. rewrite walk_eq. split.
  - intros (H1 & H2 & H3 & Hu & Hi & Hw).
    assert (well_tagged v) as Hv.
    { eapply walk_tag_well_tagged; [..|exact Hw]; try done. }
    split; [done|]. by apply walk_tag_exact in Hw.
  - intros (Hv & Hf & ->). pose proof (well_tagged_active v Hv) as [Hu Hi].
    pose proof (fits_shared v depth b Hf) as (? & ? & ?).
    split_and!; try done. by apply walk_tag_exact.
Qed.

(** ** Wire size *)

Lemma varint_loop_spec fuel : ∀ n size, 0 ≤ n < 128 ^ Z.of_nat (S fuel) →
  ∃ k, varint_loop fuel n size = size + k ∧ 0 ≤ k ≤ Z.of_nat fuel
       ∧ n < 128 ^ (k + 1) ∧ (k = 0 ∨ 128 ^ k ≤ n).
Proof.
  induction fuel as [|f IH]; intros n size Hn; cbn [varint_loop].
  - exists 0. split_and!; lia.
  - destruct (128 <=? n) eqn:E; propify; [|exists 0; split_and!; lia].
    rewrite Z.shiftr_div_pow2 by lia. change (2 ^ 7) with 128.
    rewrite Nat2Z.inj_succ, Z.pow_succ_r in Hn by lia.
    destruct (IH (n / 128) (size + 1)) as (k & -> & Hk & Hlt & Hge).
    { split; [apply Z.div_pos; lia|]. apply Z.div_lt_upper_bound; lia. }
    exists (k + 1). rewrite !Z.pow_add_r in * by lia. split_and!; try lia.
    + pose proof (Z.mod_pos_bound n 128). pose proof (Z.div_mod n 128). lia.
    + right. pose proof (Z.mul_div_le n 128). destruct Hge as [->|]; lia.
Qed.

Lemma varintSize_range n : 1 ≤ varintSize n ≤ 10 + 1.
Proof.
  assert (Hg : ∀ f n s, s ≤ varint_loop f n s ≤ s + Z.of_nat f).
  { induction f as [|f IH]; intros m s; cbn [varint_loop]; [lia|].
    case_match; [|lia]. specialize (IH (Z.shiftr m 7) (s + 1)). lia. }
  apply (Hg 10%nat n 1).
Qed.

Lemma varintSize_bound n : uint64_range n →
  1 ≤ varintSize n ≤ 10 ∧ n < 128 ^ varintSize n
  ∧ (varintSize n = 1 ∨ 128 ^ (varintSize n - 1) ≤ n).
Proof.
  unfold uint64_range, max_uint64, varintSize. intros Hn.
  destruct (varint_loop_spec 10 n 1) as (k & -> & Hk & Hlt & Hge); [simpl; lia|].
  rewrite (Z.add_comm 1 k), Z.add_simpl_r.
  assert (k ≠ 10). { intros ->. destruct Hge as [|Hge]; [done|]. simpl in Hge. lia. }
  split_and!; [lia..|exact Hlt|destruct Hge; [left; lia|by right]].
Qed.

(** [varintSize] is the base-128 digit count: for every [uint64] it returns
    the [k] between 1 and 10 with [128^(k-1) <= n < 128^k] (or 1 for zero), so
    the loop's ten turns always reach the end. *)
Theorem varintSize_exact n : uint64_range n →
  1 ≤ varintSize n ≤ 10 ∧ n < 128 ^ varintSize n
  ∧ (varintSize n = 1 ∨ 128 ^ (varintSize n - 1) ≤ n).
Proof. apply varintSize_bound. Qed.

Lemma varintSize_exact_witness : uint64_range 300 ∧ varintSize 300 = 2 ∧
  (1 ≤ varintSize 300 ≤ 10 ∧ 300 < 128 ^ varintSize 300
   ∧ (varintSize 300 = 1 ∨ 128 ^ (varintSize 300 - 1) ≤ 300)).
Proof.
  split; [split; vm_compute; discriminate|]. split; [reflexivity|].
  apply (varintSize_exact 300). split; vm_compute; discriminate.
Defined.

Lemma messageFieldSize_some n : 0 ≤ n → ∃ m, messageFieldSize n = Some m ∧ n < m ≤ n + 12.
Proof.
  intros Hn. unfold messageFieldSize, protobufTagBytes. rewrite (proj2 (Z.ltb_ge _ _)) by done.
  eexists; split; [done|]. pose proof (varintSize_range n). lia.
Qed.

Section bounds.
Context `{ProtowireLaws}.

(** Bytes one semantic node can cost beyond its text: a timestamp's two
    varints, and the value, key and entry headers of a map member. *)
Definition node_cost : Z := 72.

Definition size_bounded (v : Value) : Prop := ∃ n,
  valueWireSize v = Some n ∧ 0 ≤ n ∧ n + 36 ≤ value_bytes v + node_cost * value_nodes v.

Lemma add_sizes_bounded {A} (f : A → option Z) (g : A → Z) l :
  Forall (λ a, ∃ n, f a = Some n ∧ 0 ≤ n ≤ g a) l → ∀ size,
  ∃ n, add_sizes f l size = Some n ∧ size ≤ n ≤ size + sum_of g l.
Proof.
  induction 1 as [|a l (n & Ha & Hn) _ IH]; intros size; cbn [add_sizes sum_of].
  - exists size. split; [done|lia].
  - rewrite Ha. cbn. destruct (IH (size + n)) as (m & -> & ?). exists m. split; [done|lia].
Qed.

Lemma entry_size_bounded k v : size_bounded v →
  ∃ n, entry_size valueWireSize (k, v) = Some n
       ∧ 0 ≤ n ≤ slen k + value_bytes v + node_cost * value_nodes v.
Proof.
  intros (n & Hv & Hn0 & Hn). unfold entry_size. cbn [fst snd]. rewrite Hv. cbn.
  destruct (messageFieldSize_some n Hn0) as (e & -> & He). cbn.
  pose proof (slen_nonneg k) as Hk. case_bool_decide; cbn.
  - destruct (messageFieldSize_some (e + 0)) as (r & -> & Hr); [lia|]. eexists; split; [done|lia].
  - destruct (messageFieldSize_some (slen k) Hk) as (kn & -> & Hkn). cbn.
    destruct (messageFieldSize_some (e + kn)) as (r & -> & Hr); [lia|]. eexists; split; [done|lia].
Qed.

Lemma sum_of_linear {A} (f g : A → Z) c l :
  sum_of (λ a, f a + c * g a) l = sum_of f l + c * sum_of g l.
Proof. induction l as [|a l IH]; [cbn; lia|]. cbn [sum_of]. rewrite IH. lia. Qed.


Lemma timestamp_size_bounded t :
  ∃ n, messageFieldSize
         (let size := if negb (Unix t =? 0)
                      then protobufTagBytes + SizeVarint (EncodeZigZag (Unix t)) else 0 in
          if 0 <? Nanosecond t
          then size + (protobufTagBytes + varintSize (Nanosecond t)) else size) = Some n
       ∧ 0 ≤ n ≤ 36.
Proof.
  pose proof (SizeVarint_range (EncodeZigZag (Unix t))).
  pose proof (varintSize_range (Nanosecond t)). unfold protobufTagBytes. cbv zeta.
  match goal with |- ∃ n, messageFieldSize ?x = _ ∧ _ => assert (0 ≤ x ≤ 23) as Hx end.
  { destruct (negb _), (_ <? _); lia. }
  match goal with |- ∃ n, messageFieldSize ?x = _ ∧ _ => set (size := x) in * end.
  destruct (messageFieldSize_some size) as (n & -> & ?); [lia|]. exists n. split; [done|lia].
Qed.

Lemma list_size_bounded l : Forall size_bounded l →
  ∃ n, add_sizes (λ v, valueWireSize v ≫= messageFieldSize) l 0 ≫= messageFieldSize = Some n
       ∧ 0 ≤ n ≤ sum_of value_bytes l + node_cost * sum_of value_nodes l + 12.
Proof.
  intros Hl.
  destruct (add_sizes_bounded (λ v, valueWireSize v ≫= messageFieldSize)
              (λ v, value_bytes v + node_cost * value_nodes v) l) with (size := 0) as (n & -> & Hn).
  { eapply Forall_impl; [exact Hl|]. intros v (n & -> & Hn0 & Hn). cbn.
    destruct (messageFieldSize_some n Hn0) as (r & -> & ?). eexists; split; [done|lia]. }
  rewrite sum_of_linear in Hn. cbn.
  destruct (messageFieldSize_some n) as (r & -> & ?); [lia|]. eexists; split; [done|lia].
Qed.

Lemma entries_size_bounded (m : list (string * Value)) : Forall (λ e, size_bounded e.2) m →
  ∃ n, add_sizes (entry_size valueWireSize) m 0 ≫= messageFieldSize = Some n
       ∧ 0 ≤ n ≤ sum_of (λ e, slen e.1 + value_bytes e.2) m
                 + node_cost * sum_of (λ e, value_nodes e.2) m + 12.
Proof.
  intros Hm.
  destruct (add_sizes_bounded (entry_size valueWireSize)
              (λ e, (slen e.1 + value_bytes e.2) + node_cost * value_nodes e.2) m)
    with (size := 0) as (n & -> & Hn).
  { eapply Forall_impl; [exact Hm|]. intros [k v] Hv. by apply entry_size_bounded. }
  rewrite (sum_of_linear (λ e, slen e.1 + value_bytes e.2)) in Hn. cbn.
  destruct (messageFieldSize_some n) as (r & -> & ?); [lia|]. eexists; split; [done|lia].
Qed.

Lemma valueWireSize_bounded v : well_tagged v → size_bounded v.
Proof.
  induction v as [k bo s i u d t l m Hl Hm] using Value_nested_ind. intros Hw.
  unfold size_bounded. rewrite value_bytes_eq, value_nodes_eq. cbn [vString vList vMap].
  pose proof (nodes_of_list (listOf l)). pose proof (nodes_of_entries (listOf m)).
  pose proof (slen_nonneg s). unfold node_cost.
  assert (Hleaf : ∀ n B N, 0 ≤ n ≤ 36 → 0 ≤ B → 0 ≤ N → ∃ n', Some n = Some n' ∧ 0 ≤ n' ∧
    n' + 36 ≤ B + 72 * (1 + N)) by (intros n B N ? ? ?; exists n; split; [done|lia]).
  inversion Hw; subst; cbn [valueWireSize vKind]; kinds.
  - eexists; split; [done|]. unfold protobufBoolBytes. lia.
  - eexists; split; [done|]. unfold protobufBoolBytes. lia.
  - destruct (messageFieldSize_some (slen s)) as (n & -> & ?); [done|]. eexists; split; [done|lia].
  - pose proof (SizeVarint_range (EncodeZigZag (ParseInt_value (format_int n)))).
    eexists; split; [done|]. unfold protobufTagBytes. lia.
  - pose proof (varintSize_range (ParseUint_value (format_uint n))). eexists; split; [done|]. lia.
  - eexists; split; [done|]. unfold protobufDoubleBytes. lia.
  - destruct (timestamp_size_bounded (timestamp_or_zero t)) as (n & Hn & ?).
    exists n. split; [exact Hn|lia].
  - match goal with H : Forall well_tagged _ |- _ => apply (Forall_mp _ _ _ Hl) in H as Hs end.
    apply list_size_bounded in Hs as (n & Hn & ?). exists n. unfold node_cost in *.
    split; [destruct l; exact Hn|lia].
  - assert (Forall (λ e, size_bounded e.2) (listOf m)) as Hs.
    { eapply Forall_mp; [exact Hm|]. eapply Forall_impl; [eassumption|]. naive_solver. }
    apply entries_size_bounded in Hs as (n & Hn & ?). exists n. unfold node_cost in *.
    split; [destruct m; exact Hn|lia].
Qed.

Lemma walk_accepts v b : walk v 0 (mkVB 0 0) = Ok b →
  well_tagged v ∧ fits v 0 (mkVB 0 0).
Proof. intros Hw. by apply walk_spec in Hw as (? & ? & _). Qed.

(** Validation never panics and its size arithmetic never leaves the [int]
    range: whatever the fields hold, [ValidateValue] returns; and for every
    value the walk accepts, the wire size exists and is below [2^26], whatever
    sizes the protobuf runtime reports within its documented 1 to 10 bytes. *)
Theorem ValidateValue_total v :
  (∃ r, ValidateValue v = Some r)
  ∧ ∀ b, walk v 0 (mkVB 0 0) = Ok b → ∃ n, valueWireSize v = Some n ∧ 0 ≤ n < 2 ^ 26.
Proof.
  assert (Hsize : ∀ b, walk v 0 (mkVB 0 0) = Ok b →
    ∃ n, valueWireSize v = Some n ∧ 0 ≤ n < 2 ^ 26).
  { intros b Hb. apply walk_accepts in Hb as (Hw & _ & Hn & Hb).
    destruct (valueWireSize_bounded v Hw) as (n & Hv & ? & ?). exists n. split; [done|].
    change maxDocumentBytes with 16777216 in *. change (2 ^ 26) with 67108864.
    unfold maxDomainNodes, node_cost in *. cbn [nodes vbytes] in *. lia. }
  split; [|done]. unfold ValidateValue. destruct (walk v 0 _) as [b|e] eqn:Hwalk; [|eauto].
  destruct (Hsize b eq_refl) as (n & -> & _). cbn. eauto.
Qed.

Lemma ValidateValue_accepts v :
  ValidateValue v = Some (Ok tt) ↔
  well_tagged v ∧ value_depth v ≤ maxDomainDepth ∧ value_nodes v ≤ maxDomainNodes
  ∧ value_bytes v ≤ maxDocumentBytes
  ∧ ∃ size, valueWireSize v = Some size ∧ size ≤ maxDocumentBytes.
Proof.
  unfold ValidateValue. split.
  - destruct (walk v 0 _) as [b|e] eqn:Hwalk; [|done].
    apply walk_accepts in Hwalk as (Hw & Hd & Hn & Hb). simpl in *.
    intros (size & Hs & [= Hg])%bind_Some. apply guard_err_iff in Hg. propify. eauto 10.
  - intros (Hw & Hd & Hn & Hb & size & Hs & Hle).
    rewrite (proj2 (walk_spec v 0 (mkVB 0 0) (charge v (mkVB 0 0)))).
    + rewrite Hs. cbn. by rewrite (proj2 (Z.ltb_ge _ _)).
    + split_and!; try done; simpl; lia.
Qed.
(** C18: [ValidateValue] accepts exactly the well-tagged trees within the four
    budgets: every field but the tag's own payload is zero, integers are the
    canonical decimal text of a number in range, doubles are finite,
    timestamps parse, text and keys are UTF-8, and nesting, node count, text
    bytes and protobuf size are within their limits. *)
Theorem ValidateValue_iff v :
  ValidateValue v = Some (Ok tt) ↔
  well_tagged v ∧ value_depth v ≤ maxDomainDepth ∧ value_nodes v ≤ maxDomainNodes
  ∧ value_bytes v ≤ maxDocumentBytes
  ∧ ∃ size, valueWireSize v = Some size ∧ size ≤ maxDocumentBytes.
Proof. apply ValidateValue_accepts. Qed.
End bounds.

(** ** Iteration order *)

(** The same value seen through different map iteration orders, at any level. *)
Inductive reordered : Value → Value → Prop :=
| Reordered k b s i u d t l l' m m1 m' :
    (l = None ↔ l' = None) → (m = None ↔ m' = None) →
    Forall2 reordered (listOf l) (listOf l') →
    listOf m ≡ₚ m1 →
    Forall2 (λ e e', e.1 = e'.1 ∧ reordered e.2 e'.2) m1 (listOf m') →
    reordered (mkValue k b s i u d t l m) (mkValue k b s i u d t l' m').

Lemma sum_of_perm {A} (f : A → Z) l l' : l ≡ₚ l' → sum_of f l = sum_of f l'.
Proof. induction 1; cbn in *; lia. Qed.
Lemma max_of_perm {A} (f : A → Z) l l' : l ≡ₚ l' → max_of f l = max_of f l'.
Proof. induction 1; cbn in *; lia. Qed.
Lemma sum_of_ext {A} (f : A → Z) l l' : Forall2 (λ a b, f a = f b) l l' → sum_of f l = sum_of f l'.
Proof. induction 1; cbn in *; lia. Qed.
Lemma max_of_ext {A} (f : A → Z) l l' : Forall2 (λ a b, f a = f b) l l' → max_of f l = max_of f l'.
Proof. induction 1; cbn in *; lia. Qed.

(** The facts about the parts that [reordered] carries to the whole. *)
Lemma Forall2_mp {A B} (P : A → Prop) (R : A → B → Prop) (Q : A → B → Prop) l l' :
  Forall P l → Forall2 R l l' → (∀ a b, P a → R a b → Q a b) → Forall2 Q l l'.
Proof. intros HP HR H. induction HR; inversion HP; constructor; auto. Qed.

Section reordering.
Context (Q : Value → Value → Prop).
(** Induction on [reordered] through its nested lists. *)
Lemma reordered_nested_ind :
  (∀ k b s i u d t l l' m m1 m', (l = None ↔ l' = None) → (m = None ↔ m' = None) →
     Forall2 (λ v v', reordered v v' ∧ Q v v') (listOf l) (listOf l') → listOf m ≡ₚ m1 →
     Forall2 (λ e e', e.1 = e'.1 ∧ reordered e.2 e'.2 ∧ Q e.2 e'.2) m1 (listOf m') →
     Q (mkValue k b s i u d t l m) (mkValue k b s i u d t l' m')) →
  ∀ v v', reordered v v' → Q v v'.
Proof.
  intros H v. induction v as [k b s i u d t l m Hl Hm] using Value_nested_ind.
  intros v' Hr. inversion Hr; subst. apply H with (m1 := m1); try done.
  - eapply Forall2_mp; [exact Hl|eassumption|]. naive_solver.
  - eapply Forall2_mp; [by eapply Permutation_Forall; [eassumption|exact Hm]|eassumption|].
    naive_solver.
Qed.
End reordering.

Lemma Forall_transfer {A B} (P : A → Prop) (P' : B → Prop) l l' :
  Forall2 (λ a b, P a → P' b) l l' → Forall P l → Forall P' l'.
Proof. induction 1; intros HF; inversion HF; constructor; auto. Qed.

Lemma reordered_measures v v' : reordered v v' →
  value_nodes v = value_nodes v' ∧ value_bytes v = value_bytes v' ∧ value_depth v = value_depth v'.
Proof.
  revert v v'. apply reordered_nested_ind. intros k b s i u d t l l' m m1 m' _ _ Hl Hp Hm.
  rewrite !value_nodes_eq, !value_bytes_eq, !value_depth_eq. cbn [vString vList vMap].
  rewrite !(sum_of_perm _ _ _ Hp), !(max_of_perm _ _ _ Hp).
  rewrite (sum_of_ext value_nodes (listOf l) (listOf l')),
    (sum_of_ext value_bytes (listOf l) (listOf l')),
    (max_of_ext (λ v, 1 + value_depth v) (listOf l) (listOf l')),
    (sum_of_ext (λ e, value_nodes e.2) m1 (listOf m')),
    (sum_of_ext (λ e, slen e.1 + value_bytes e.2) m1 (listOf m')),
    (max_of_ext (λ e, 1 + value_depth e.2) m1 (listOf m')); [done|..];
    (eapply Forall2_impl; [eassumption|]); cbn; intros [] []; naive_solver lia.
Qed.

Lemma reordered_well_tagged v v' : reordered v v' → well_tagged v ↔ well_tagged v'.
Proof.
  revert v v'. apply reordered_nested_ind. intros k b s i u d t l l' m m1 m' Hnl Hnm Hl Hp Hm.
  assert (HL : Forall well_tagged (listOf l) ↔ Forall well_tagged (listOf l')).
  { split; apply Forall_transfer; [|apply Forall2_flip]; (eapply Forall2_impl; [exact Hl|]); naive_solver. }
  assert (HM : Forall (λ e, utf8_valid_string e.1 = true ∧ well_tagged e.2) (listOf m) ↔
               Forall (λ e, utf8_valid_string e.1 = true ∧ well_tagged e.2) (listOf m')).
  { rewrite Hp. split; apply Forall_transfer; [|apply Forall2_flip];
      (eapply Forall2_impl; [exact Hm|]); cbn; intros [] []; naive_solver. }
  split; intros Hw; inversion Hw; subst;
    try (rewrite (proj1 Hnl eq_refl)); try (rewrite (proj1 Hnm eq_refl));
    try (rewrite (proj2 Hnl eq_refl)); try (rewrite (proj2 Hnm eq_refl)).
  all: try (by econstructor); constructor; tauto.
Qed.

Section reordering_size.
Context `{Protowire}.

Lemma add_sizes_perm {A} (f : A → option Z) l l' :
  l ≡ₚ l' → ∀ s, add_sizes f l s = add_sizes f l' s.
Proof.
  induction 1 as [|a l l' _ IH|a b l|l l' l'' _ IH1 _ IH2]; intros s; cbn [add_sizes].
  - done.
  - destruct (f a); [apply IH|done].
  - destruct (f a), (f b); cbn; [|done..]. f_equal. lia.
  - by rewrite IH1, IH2.
Qed.

Lemma add_sizes_ext {A} (f : A → option Z) l l' :
  Forall2 (λ a b, f a = f b) l l' → ∀ s, add_sizes f l s = add_sizes f l' s.
Proof.
  induction 1 as [|a b l l' Hab _ IH]; intros s; cbn [add_sizes]; [done|].
  rewrite Hab. destruct (f b); [apply IH|done].
Qed.

Lemma valueWireSize_listOf k b s i u d t l m :
  valueWireSize (mkValue k b s i u d t l m) =
  if bool_decide (k = valueKindList)
  then add_sizes (λ v, valueWireSize v ≫= messageFieldSize) (listOf l) 0 ≫= messageFieldSize
  else if bool_decide (k = valueKindMap)
  then add_sizes (entry_size valueWireSize) (listOf m) 0 ≫= messageFieldSize
  else valueWireSize (mkValue k b s i u d t None None).
Proof.
  cbn [valueWireSize vKind vList vMap]. repeat case_bool_decide; subst; try done.
  - by destruct l.
  - by destruct m.
Qed.

Lemma reordered_wire_size v v' : reordered v v' → valueWireSize v = valueWireSize v'.
Proof.
  revert v v'. apply reordered_nested_ind. intros k b s i u d t l l' m m1 m' Hnl Hnm Hl Hp Hm.
  rewrite (valueWireSize_listOf _ _ _ _ _ _ _ l m), (valueWireSize_listOf _ _ _ _ _ _ _ l' m').
  rewrite (add_sizes_ext (λ v, valueWireSize v ≫= messageFieldSize) (listOf l) (listOf l'));
    [|eapply Forall2_impl; [exact Hl|]; by intros v v' [_ ->]].
  rewrite (add_sizes_perm _ _ _ Hp), (add_sizes_ext (entry_size valueWireSize) m1 (listOf m'));
    [done|].
  eapply Forall2_impl; [exact Hm|]. intros [k1 v1] [k2 v2] (Hk & _ & Hv). cbn in *.
  unfold entry_size. cbn [fst snd]. by rewrite Hk, Hv.
Qed.
End reordering_size.

(** The verdict of [ValidateValue] does not depend on Go's randomised map
    iteration: running the validator over the same value with any map, at any
    depth, iterated in another order accepts or rejects alike. *)
Theorem ValidateValue_order_independent `{ProtowireLaws} v v' :
  reordered v v' → ValidateValue v = Some (Ok tt) ↔ ValidateValue v' = Some (Ok tt).
Proof.
  intros Hr. rewrite !ValidateValue_accepts, (reordered_well_tagged v v' Hr),
    (reordered_wire_size v v' Hr).
  by destruct (reordered_measures v v' Hr) as (-> & -> & ->).
Qed.

(** ** Witnesses *)

(** The runtime's own functions: arguments are 64-bit patterns. *)
#[local] Instance protowire_runtime : Protowire := {|
  SizeVarint n := (9 * (Z.log2 (n mod 2 ^ 64) + 1) + 64) / 64;
  EncodeZigZag n := if n <? 0 then - 2 * n - 1 else 2 * n
|}.
#[local] Instance protowire_runtime_laws : ProtowireLaws.
Proof.
  split. intros n. cbn [SizeVarint protowire_runtime].
  pose proof (Z.mod_pos_bound n (2 ^ 64)). pose proof (Z.log2_nonneg (n mod 2 ^ 64)).
  assert (Z.log2 (n mod 2 ^ 64) < 64) by (apply log2_small; lia).
  split; [apply Z.div_le_lower_bound; lia|]. apply Z.lt_succ_r, Z.div_lt_upper_bound; lia.
Qed.

Definition sample_int : Value := mkValue "int64" false "" "-12" "" zero_float "" None None.
Definition sample_list : Value :=
  mkValue "list" false "" "" "" zero_float "" (Some [tagged_zero "null"]) None.
Definition sample_map (m : list (string * Value)) : Value :=
  mkValue "map" false "" "" "" zero_float "" None (Some m).

Lemma ValidateValue_total_witness :
  (∃ r, ValidateValue sample_int = Some r)
  ∧ ∀ b, walk sample_int 0 (mkVB 0 0) = Ok b → ∃ n, valueWireSize sample_int = Some n ∧ 0 ≤ n < 2 ^ 26.
Proof. exact (ValidateValue_total sample_int). Defined.

Lemma ValidateValue_iff_witness :
  ValidateValue (sample_map [("b", sample_int); ("a", sample_list)]) = Some (Ok tt) ∧
  well_tagged (sample_map [("b", sample_int); ("a", sample_list)]).
Proof.
  split; [vm_compute; reflexivity|].
  eapply (proj1 (ValidateValue_iff (sample_map [("b", sample_int); ("a", sample_list)]))).
  vm_compute; reflexivity.
Defined.

Lemma ValidateValue_order_independent_witness :
  reordered (sample_map [("b", sample_int); ("a", sample_list)])
            (sample_map [("a", sample_list); ("b", sample_int)]) ∧
  ValidateValue (sample_map [("a", sample_list); ("b", sample_int)]) = Some (Ok tt).
Proof.
  assert (Hi : reordered sample_int sample_int) by (eapply Reordered; cbn; done || constructor).
  assert (Hl : reordered sample_list sample_list).
  { eapply Reordered; cbn; try done; repeat constructor. eapply Reordered; cbn; done || constructor. }
  assert (Hr : reordered (sample_map [("b", sample_int); ("a", sample_list)])
                         (sample_map [("a", sample_list); ("b", sample_int)])).
  { eapply Reordered with (m1 := [("a", sample_list); ("b", sample_int)]); cbn.
    1-3: done || constructor.
    - apply perm_swap.
    - repeat constructor; assumption. }
  split; [exact Hr|].
  eapply (proj1 (ValidateValue_order_independent _ _ Hr)). vm_compute; reflexivity.
Defined.
