(* ===== verification/Proto.v ===== *)
(** * Protobuf messages (the messages of proto/resource/v2/*.proto,
    pkg/resource/v2/adapter_admission.go, internal/wirecost)

    A generated message is the set of its populated fields. The generated
    structs themselves are not source; what is modelled is what the adapters do
    with them: reading and writing fields, admission, sizes. *)
From S2P Require Import Prelude GoStd GoFloat Errors Values.
Local Open Scope Z_scope.

(** ** The message tree *)

(** A populated value of a field: proto3 strings, bytes, unsigned varints
    (uint32, uint64, bool), zigzag varints (sint64), doubles and messages, which
    keep their unknown fields. *)
Inductive pvalue : Type :=
| PString (s : string)
| PBytes (b : bytes)
| PVarint (n : Z)
| PSint (n : Z)
| PDouble (x : float64)
| PMsg (unknown : bytes) (fields : list (Z * list pvalue)).

(** The populated fields of a message, by number; a repeated field has all its
    elements, a singular one a single value. *)
Definition message : Type := list (Z * list pvalue).
Definition pmsg (m : message) : pvalue := PMsg [] m.

Section pvalue_ind.
Context (P : pvalue → Prop).
Hypothesis HString : ∀ s, P (PString s).
Hypothesis HBytes : ∀ b, P (PBytes b).
Hypothesis HVarint : ∀ n, P (PVarint n).
Hypothesis HSint : ∀ n, P (PSint n).
Hypothesis HDouble : ∀ x, P (PDouble x).
Hypothesis HMsg : ∀ u fs, Forall (λ f, Forall P f.2) fs → P (PMsg u fs).
Fixpoint pvalue_nested_ind (v : pvalue) : P v :=
  match v with
  | PString s => HString s
  | PBytes b => HBytes b
  | PVarint n => HVarint n
  | PSint n => HSint n
  | PDouble x => HDouble x
  | PMsg u fs =>
    HMsg u fs ((fix all fs : Forall (λ f, Forall P f.2) fs :=
      match fs with
      | [] => List.Forall_nil _
      | f :: fs =>
        List.Forall_cons _ _ _
          ((fix each vs : Forall P vs :=
              match vs with
              | [] => List.Forall_nil _
              | v :: vs => List.Forall_cons _ _ _ (pvalue_nested_ind v) (each vs)
              end) f.2) (all fs)
      end) fs)
  end.
End pvalue_ind.

(** ** Writing fields: proto3 omits scalars at their default *)

Definition put_string (n : Z) (s : string) : message := if bool_decide (s = "") then [] else [(n, [PString s])].
Definition put_optional (n : Z) (s : option string) : message :=
  match s with Some s => [(n, [PString s])] | None => [] end.
Definition put_bytes (n : Z) (b : bytes) : message := match b with [] => [] | _ => [(n, [PBytes b])] end.
Definition put_uint (n : Z) (x : Z) : message := if x =? 0 then [] else [(n, [PVarint x])].
Definition put_bool (n : Z) (x : bool) : message := if x then [(n, [PVarint 1])] else [].
Definition put_sint (n : Z) (x : Z) : message := if x =? 0 then [] else [(n, [PSint x])].
Definition put_message (n : Z) (m : message) : message := [(n, [pmsg m])].
Definition put_some (n : Z) (m : option message) : message :=
  match m with Some m => put_message n m | None => [] end.
Definition put_repeated (n : Z) (l : list pvalue) : message := match l with [] => [] | _ => [(n, l)] end.
Definition put_messages (n : Z) (l : list message) : message := put_repeated n (map pmsg l).
Definition put_strings (n : Z) (l : list string) : message := put_repeated n (map PString l).

(** ** Reading fields *)

Definition values (n : Z) (m : message) : list pvalue := concat (map snd (filter (λ f, f.1 = n) m)).
Definition as_string (l : list pvalue) : string := match l with PString s :: _ => s | _ => "" end.
Definition as_optional (l : list pvalue) : option string := match l with PString s :: _ => Some s | _ => None end.
Definition as_bytes (l : list pvalue) : bytes := match l with PBytes b :: _ => b | _ => [] end.
Definition as_uint (l : list pvalue) : Z := match l with PVarint x :: _ => x | _ => 0 end.
Definition as_sint (l : list pvalue) : Z := match l with PSint x :: _ => x | _ => 0 end.
Definition as_message (l : list pvalue) : option message := match l with PMsg _ m :: _ => Some m | _ => None end.
Definition as_messages : list pvalue → list message := omap (λ v, match v with PMsg _ m => Some m | _ => None end).
Definition as_strings : list pvalue → list string := omap (λ v, match v with PString s => Some s | _ => None end).
Definition get_string (n : Z) (m : message) : string := as_string (values n m).
Definition get_optional (n : Z) (m : message) : option string := as_optional (values n m).
Definition get_bytes (n : Z) (m : message) : bytes := as_bytes (values n m).
Definition get_uint (n : Z) (m : message) : Z := as_uint (values n m).
Definition get_sint (n : Z) (m : message) : Z := as_sint (values n m).
Definition get_message (n : Z) (m : message) : option message := as_message (values n m).
Definition get_messages (n : Z) (m : message) : list message := as_messages (values n m).
Definition get_strings (n : Z) (m : message) : list string := as_strings (values n m).
(** The member of a oneof that is set: the first of its fields. *)
Definition oneof (numbers : list Z) (m : message) : option (Z * pvalue) :=
  match filter (λ f, f.1 ∈ numbers) m with (n, v :: _) :: _ => Some (n, v) | _ => None end.

(** ** Sizes: the length of the wire encoding *)

Definition zigzag (n : Z) : Z := if n <? 0 then - 2 * n - 1 else 2 * n.
(** Field number and wire type share one varint. *)
Definition tag_size (n : Z) : Z := varintSize (8 * n).
Definition delimited (n : Z) : Z := varintSize n + n.
Fixpoint payload_size (v : pvalue) : Z :=
  match v with
  | PString s => delimited (slen s)
  | PBytes b => delimited (blen b)
  | PVarint n => varintSize n
  | PSint n => varintSize (zigzag n)
  | PDouble _ => 8
  | PMsg u fs => delimited (blen u + sum_of (λ f, sum_of (λ v, tag_size f.1 + payload_size v) f.2) fs)
  end.
Definition field_size (f : Z * list pvalue) : Z := sum_of (λ v, tag_size f.1 + payload_size v) f.2.
Definition message_size (m : message) : Z := sum_of field_size m.
Definition encoded_size (v : pvalue) : Z := match v with PMsg u m => blen u + message_size m | _ => 0 end.

(** google.golang.org/protobuf/proto and the rest of protowire. *)
Class ProtoRuntime := {
  proto_Size : pvalue → Z;
  SizeTag : Z → Z;
  SizeBytes : Z → Z
}.
(** Their documentation: the sizes of the wire encodings. *)
Class ProtoRuntimeLaws `{Protowire, ProtoRuntime} : Prop := {
  Size_encoding p : proto_Size p = encoded_size p;
  SizeTag_encoding n : 0 < n → SizeTag n = tag_size n;
  SizeBytes_encoding n : 0 ≤ n → SizeBytes n = delimited n;
  SizeVarint_encoding n : uint64_range n → SizeVarint n = varintSize n;
  EncodeZigZag_encoding n : int64_range n → EncodeZigZag n = zigzag n
}.

(** ** Admission of decoded messages *)

Definition MaxProtoDepth : Z := MaxValueDepth * 3 + 16.
Definition wrapperNodes : Z := maxDomainNodes * 4.

Record protoAdmissionBudget := mkPB { pb_nodes : Z; pb_fields : Z; pb_bytes : Z }.

Definition charge_bytes (n : Z) (bad : bool) (b : protoAdmissionBudget) : result protoAdmissionBudget :=
  let b := mkPB (pb_nodes b) (pb_fields b) (pb_bytes b + n) in
  guard_err bad (invalid "invalid protobuf UTF-8") ;;
  guard_err (MaxMessageBytes <? pb_bytes b) (limited "protobuf byte limit") ;;
  Ok b.
Definition charge_fields (n : Z) (b : protoAdmissionBudget) : result protoAdmissionBudget :=
  let b := mkPB (pb_nodes b) (pb_fields b + n) (pb_bytes b) in
  guard_err (maxDomainFields <? pb_fields b) (limited "protobuf field limit") ;; Ok b.
Definition enter_message (u : bytes) (depth : Z) (b : protoAdmissionBudget) : result protoAdmissionBudget :=
  let b := mkPB (pb_nodes b + 1) (pb_fields b) (pb_bytes b) in
  guard_err ((MaxProtoDepth <? depth) || (wrapperNodes <? pb_nodes b)) (limited "protobuf complexity limit") ;;
  guard_err (negb (length u =? 0)%nat) (NewError "UNSUPPORTED" "unknown resource protobuf field") ;;
  Ok b.

(** [for ... { if b, err = f(x, b); err != nil { return err } }] *)
Definition fold_result {A B} (f : A → B → result B) :=
  fix go (l : list A) (b : B) : result B :=
    match l with [] => Ok b | a :: l => b ← f a b; go l b end.

(** [scalar], whose message case is [visit] one level down; a singular field
    charges one field, a repeated one its length. *)
Fixpoint scalar (v : pvalue) (depth : Z) (b : protoAdmissionBudget) : result protoAdmissionBudget :=
  match v with
  | PString s => charge_bytes (slen s) (negb (utf8_valid_string s)) b
  | PBytes x => charge_bytes (blen x) false b
  | PVarint _ | PSint _ | PDouble _ => charge_bytes 0 false b
  | PMsg u fs =>
    b ← enter_message u (depth + 1) b;
    fold_result (λ f b,
      b ← charge_fields (Z.of_nat (length f.2)) b;
      fold_result (λ v b, scalar v (depth + 1) b) f.2 b) fs b
  end.
Definition visit (v : pvalue) (depth : Z) : protoAdmissionBudget → result protoAdmissionBudget := scalar v (depth - 1).

(** [None] is a nil message. *)
Definition admitProto `{ProtoRuntime} (p : option pvalue) : result unit :=
  match p with
  | None => Err (invalid "missing protobuf message")
  | Some p =>
    visit p 0 (mkPB 0 0 0) ;;
    guard_err (MaxMessageBytes <? proto_Size p) (limited "protobuf message byte limit")
  end.

(** [wirecost.Count] for messages without map or packed fields. *)
Fixpoint count_nodes (v : pvalue) : Z :=
  match v with PMsg _ fs => 1 + sum_of (λ f, sum_of count_nodes f.2) fs | _ => 0 end.
Fixpoint count_fields (v : pvalue) : Z :=
  match v with PMsg _ fs => sum_of (λ f, Z.of_nat (length f.2) + sum_of count_fields f.2) fs | _ => 0 end.
Definition Count (v : pvalue) : Z * Z := (count_nodes v, count_fields v).


(** ** What admission accepts *)

Fixpoint text_bytes (v : pvalue) : Z :=
  match v with
  | PString s => slen s
  | PBytes b => blen b
  | PMsg _ fs => sum_of (λ f, sum_of text_bytes f.2) fs
  | _ => 0
  end.
(** How many messages deep. *)
Fixpoint message_height (v : pvalue) : Z :=
  match v with PMsg _ fs => 1 + max_of (λ f, max_of message_height f.2) fs | _ => 0 end.
(** Valid UTF-8 everywhere and no unknown field. *)
Inductive known : pvalue → Prop :=
| Known_string s : utf8_valid_string s = true → known (PString s)
| Known_bytes b : known (PBytes b)
| Known_varint n : known (PVarint n)
| Known_sint n : known (PSint n)
| Known_double x : known (PDouble x)
| Known_message fs : Forall (λ f, Forall known f.2) fs → known (PMsg [] fs).

Definition pb_plus (a b : protoAdmissionBudget) : protoAdmissionBudget :=
  mkPB (pb_nodes a + pb_nodes b) (pb_fields a + pb_fields b) (pb_bytes a + pb_bytes b).
Definition pb_cost (v : pvalue) : protoAdmissionBudget := mkPB (count_nodes v) (count_fields v) (text_bytes v).
Definition pb_fits (b : protoAdmissionBudget) : Prop :=
  pb_nodes b ≤ wrapperNodes ∧ pb_fields b ≤ maxDomainFields ∧ pb_bytes b ≤ MaxMessageBytes.
Definition pb_nonneg (b : protoAdmissionBudget) : Prop := 0 ≤ pb_nodes b ∧ 0 ≤ pb_fields b ∧ 0 ≤ pb_bytes b.

Lemma sum_of_pointwise {A} (f g : A → Z) l : (∀ a, f a = g a) → sum_of f l = sum_of g l.
Proof. intros Hfg. induction l as [|a l IH]; cbn [sum_of]; [done|by rewrite Hfg, IH]. Qed.
Lemma pb_cost_nonneg v : pb_nonneg (pb_cost v).
Proof.
  unfold pb_nonneg, pb_cost. cbn [pb_nodes pb_fields pb_bytes].
  induction v as [s|b|n|n|x|u fs Hfs] using pvalue_nested_ind; cbn [count_nodes count_fields text_bytes];
    try lia; try (pose proof (slen_nonneg s); lia); try (unfold blen; lia).
  assert (Hsum : ∀ g : pvalue → Z, Forall (λ f : Z * list pvalue, Forall (λ v, 0 ≤ g v) f.2) fs →
    0 ≤ sum_of (λ f, sum_of g f.2) fs).
  { intros g Hg. apply Forall_sum_nonneg. eapply Forall_impl; [exact Hg|]. intros f. apply Forall_sum_nonneg. }
  split_and!.
  - enough (0 ≤ sum_of (λ f, sum_of count_nodes f.2) fs) by lia. apply Hsum. eapply Forall_impl; [exact Hfs|].
    intros f Hf. eapply Forall_impl; [exact Hf|]. naive_solver.
  - apply Forall_sum_nonneg. eapply Forall_impl; [exact Hfs|]. intros f Hf. enough (0 ≤ sum_of count_fields f.2) by lia.
    apply Forall_sum_nonneg. eapply Forall_impl; [exact Hf|]. naive_solver.
  - apply Hsum. eapply Forall_impl; [exact Hfs|]. intros f Hf. eapply Forall_impl; [exact Hf|]. naive_solver.
Qed.

(** A charging step: it succeeds exactly when the charge fits and [ok] holds. *)
Definition charges (m : protoAdmissionBudget → result protoAdmissionBudget) (c : protoAdmissionBudget) (ok : Prop) : Prop :=
  pb_nonneg c ∧ ∀ b b', pb_fits b → m b = Ok b' ↔ b' = pb_plus b c ∧ pb_fits b' ∧ ok.

Lemma pb_eq a b : pb_nodes a = pb_nodes b → pb_fields a = pb_fields b → pb_bytes a = pb_bytes b → a = b.
Proof. destruct a, b. cbn. by intros -> -> ->. Qed.
Lemma pb_plus_assoc a b c : pb_plus (pb_plus a b) c = pb_plus a (pb_plus b c).
Proof. apply pb_eq; cbn; lia. Qed.

Lemma charges_bind m k c d p q : charges m c p → charges k d q → charges (λ b, b ← m b; k b) (pb_plus c d) (p ∧ q).
Proof.
  intros [Hc Hm] [Hd Hk]. split; [unfold pb_nonneg in *; cbn; lia|]. intros b b' Hb. rewrite bind_ok_iff. split.
  - intros (b1 & H1 & H2). apply Hm in H1 as (-> & Hf & Hp); [|done]. apply Hk in H2 as (-> & Hf' & Hq); [|done].
    split_and!; [apply pb_plus_assoc|done..].
  - intros (-> & Hf & Hp & Hq). rewrite <- pb_plus_assoc in *. exists (pb_plus b c).
    assert (pb_fits (pb_plus b c)) by (unfold pb_fits, pb_nonneg, pb_plus in *; cbn in *; lia).
    split; [by apply Hm|by apply Hk].
Qed.

Lemma charges_ext m c d p q : charges m c p → c = d → (p ↔ q) → charges m d q.
Proof. intros [Hc Hm] <- Hpq. split; [done|]. intros b b' Hb. rewrite (Hm b b' Hb). tauto. Qed.

Definition pb_sum {A} (f : A → protoAdmissionBudget) (l : list A) : protoAdmissionBudget :=
  foldr (λ a b, pb_plus (f a) b) (mkPB 0 0 0) l.
Lemma charges_fold {A} (f : A → protoAdmissionBudget → result protoAdmissionBudget) (c : A → protoAdmissionBudget)
    (ok : A → Prop) l :
  Forall (λ a, charges (f a) (c a) (ok a)) l → charges (fold_result f l) (pb_sum c l) (Forall ok l).
Proof.
  induction 1 as [|a l Ha _ IH].
  - split; [done|]. intros b b' Hb. cbn. split.
    + intros [= <-]. split_and!; [apply pb_eq; cbn; lia|done|done].
    + intros (-> & _). f_equal. apply pb_eq; cbn; lia.
  - cbn [pb_sum foldr]. eapply charges_ext; [exact (charges_bind _ _ _ _ _ _ Ha IH)|done|].
    by rewrite Forall_cons.
Qed.

Lemma charge_bytes_charges n bad : 0 ≤ n → charges (charge_bytes n bad) (mkPB 0 0 n) (bad = false).
Proof.
  intros Hn. split; [done|]. intros b b' Hb. unfold charge_bytes. rewrite !bind_guard_iff, Z.ltb_ge.
  unfold pb_fits, pb_plus in *. cbn [pb_nodes pb_fields pb_bytes]. rewrite !Z.add_0_r. split.
  - intros (? & ? & [= <-]). cbn. split_and!; done || lia.
  - intros (-> & Hf & ?). cbn in Hf. split_and!; [done|lia|done].
Qed.
Lemma charge_fields_charges n : 0 ≤ n → charges (charge_fields n) (mkPB 0 n 0) True.
Proof.
  intros Hn. split; [done|]. intros b b' Hb. unfold charge_fields. rewrite bind_guard_iff, Z.ltb_ge.
  unfold pb_fits, pb_plus in *. cbn [pb_nodes pb_fields pb_bytes]. rewrite !Z.add_0_r. split.
  - intros (? & [= <-]). cbn. split_and!; done || lia.
  - intros (-> & Hf & ?). cbn in Hf. split_and!; [lia|done].
Qed.
Lemma enter_message_charges u depth : charges (enter_message u depth) (mkPB 1 0 0) (u = [] ∧ depth ≤ MaxProtoDepth).
Proof.
  split; [done|]. intros b b' Hb. unfold enter_message.
  rewrite !bind_guard_iff, orb_false_iff, !Z.ltb_ge, negb_false_iff, Nat.eqb_eq, length_zero_iff_nil.
  unfold pb_fits, pb_plus in *. cbn [pb_nodes pb_fields pb_bytes]. rewrite !Z.add_0_r. split.
  - intros ([? ?] & ? & [= <-]). cbn. split_and!; done || lia.
  - intros (-> & Hf & ? & ?). cbn in Hf. split_and!; done || lia.
Qed.

Lemma pb_sum_components {A} (f : A → protoAdmissionBudget) l :
  pb_sum f l = mkPB (sum_of (λ a, pb_nodes (f a)) l) (sum_of (λ a, pb_fields (f a)) l) (sum_of (λ a, pb_bytes (f a)) l).
Proof. induction l as [|a l IH]; [done|]. cbn [pb_sum foldr sum_of]. fold (pb_sum f l). by rewrite IH. Qed.

Lemma max_of_le {A} (f : A → Z) l n : max_of f l ≤ n ↔ 0 ≤ n ∧ Forall (λ a, f a ≤ n) l.
Proof.
  induction l as [|a l IH]; cbn [max_of]; [rewrite Forall_nil; tauto|]. rewrite Forall_cons. split.
  - intros Hm. assert (max_of f l ≤ n) as [? ?]%IH by lia. split_and!; [done|lia|done].
  - intros (? & ? & ?). assert (max_of f l ≤ n) by (by apply IH). lia.
Qed.

Definition admissible (v : pvalue) (depth : Z) : Prop := known v ∧ depth + message_height v ≤ MaxProtoDepth.

Lemma message_admissible u fs depth :
  0 ≤ depth + 1 →
  (u = [] ∧ depth + 1 ≤ MaxProtoDepth) ∧ Forall (λ f, True ∧ Forall (λ v, admissible v (depth + 1)) f.2) fs
  ↔ admissible (PMsg u fs) depth.
Proof.
  intros Hd. unfold admissible. cbn [message_height].
  assert (Hmax : depth + (1 + max_of (λ f : Z * list pvalue, max_of message_height f.2) fs) ≤ MaxProtoDepth ↔
    depth + 1 ≤ MaxProtoDepth ∧ Forall (λ f : Z * list pvalue, Forall (λ v, depth + 1 + message_height v ≤ MaxProtoDepth) f.2) fs).
  { assert (Hone : ∀ f : Z * list pvalue, depth + 1 ≤ MaxProtoDepth →
      max_of message_height f.2 ≤ MaxProtoDepth - depth - 1
      ↔ Forall (λ v, depth + 1 + message_height v ≤ MaxProtoDepth) f.2).
    { intros f Hm. rewrite max_of_le. split; [intros [_ Hv]|intros Hv; split; [lia|]];
        (eapply Forall_impl; [exact Hv|]; intros v; cbv beta; lia). }
    split.
    - intros Hm. assert (max_of (λ f : Z * list pvalue, max_of message_height f.2) fs ≤ MaxProtoDepth - depth - 1)
        as [? Hf]%max_of_le by lia.
      split; [lia|]. eapply Forall_impl; [exact Hf|]. intros f. apply Hone. lia.
    - intros [Hm Hf]. enough (max_of (λ f : Z * list pvalue, max_of message_height f.2) fs ≤ MaxProtoDepth - depth - 1) by lia.
      apply max_of_le. split; [lia|]. eapply Forall_impl; [exact Hf|]. intros f. by apply Hone. }
  rewrite Hmax. split.
  - intros [[-> Hm] Hf]. split; [constructor|split; [done|]];
      (eapply Forall_impl; [exact Hf|]; intros f [_ Hv]; eapply Forall_impl; [exact Hv|]; intros v []; done).
  - intros [Hk [Hm Hf]]. inversion Hk as [| | | | |fs' Hfs]; subst. split; [done|].
    rewrite Forall_forall in *. intros f Hin. split; [done|]. specialize (Hf f Hin). specialize (Hfs f Hin).
    rewrite Forall_forall in *. intros v Hv. split; [by apply Hfs|by apply Hf].
Qed.

Definition field_cost (f : Z * list pvalue) : protoAdmissionBudget :=
  pb_plus (mkPB 0 (Z.of_nat (length f.2)) 0) (pb_sum pb_cost f.2).
Lemma message_cost u fs : pb_plus (mkPB 1 0 0) (pb_sum field_cost fs) = pb_cost (PMsg u fs).
Proof.
  rewrite pb_sum_components. unfold pb_cost, pb_plus. cbn [pb_nodes pb_fields pb_bytes count_nodes count_fields text_bytes].
  assert (Hf : ∀ f, field_cost f = mkPB (sum_of count_nodes f.2) (Z.of_nat (length f.2) + sum_of count_fields f.2)
    (sum_of text_bytes f.2)).
  { intros f. unfold field_cost. by rewrite pb_sum_components. }
  f_equal; [f_equal|rewrite Z.add_0_l|rewrite Z.add_0_l]; apply sum_of_pointwise; intros f; by rewrite Hf.
Qed.

(** The recursion charges the cost of the whole tree. *)
Lemma scalar_charges v : ∀ depth, -1 ≤ depth → depth ≤ MaxProtoDepth →
  charges (scalar v depth) (pb_cost v) (admissible v depth).
Proof.
  assert (Hleaf : ∀ w depth, depth ≤ MaxProtoDepth → message_height w = 0 → (admissible w depth ↔ known w)).
  { intros w depth Hd Hh. unfold admissible. rewrite Hh. split; [by intros []|split; [done|lia]]. }
  induction v as [s|b|n|n|x|u fs Hfs] using pvalue_nested_ind; intros depth Hd Hm; cbn [scalar].
  - eapply charges_ext; [apply charge_bytes_charges, slen_nonneg|done|].
    rewrite negb_false_iff, Hleaf by done. split; [by constructor|by inversion 1].
  - eapply charges_ext; [apply charge_bytes_charges; unfold blen; lia|done|].
    rewrite Hleaf by done. split; [by constructor|done].
  - eapply charges_ext; [by apply charge_bytes_charges|done|]. rewrite Hleaf by done. split; [by constructor|done].
  - eapply charges_ext; [by apply charge_bytes_charges|done|]. rewrite Hleaf by done. split; [by constructor|done].
  - eapply charges_ext; [by apply charge_bytes_charges|done|]. rewrite Hleaf by done. split; [by constructor|done].
  - destruct (decide (depth + 1 ≤ MaxProtoDepth)) as [Hdeep|Hdeep].
    + eapply charges_ext.
      * apply charges_bind; [apply enter_message_charges|]. eapply charges_fold, Forall_impl; [exact Hfs|].
        intros f Hf. apply charges_bind; [apply charge_fields_charges; lia|]. eapply charges_fold, Forall_impl; [exact Hf|].
        intros v Hv. apply (Hv (depth + 1)); lia.
      * apply (message_cost u fs).
      * rewrite <- (message_admissible u fs depth) by lia. done.
    + split; [apply pb_cost_nonneg|]. intros b b' Hb. split.
      * intros Hs. apply bind_ok in Hs as (b1 & He & _). by apply enter_message_charges in He as (_ & _ & _ & ?).
      * intros (_ & _ & Ha). apply message_admissible in Ha as [[_ ?] _]; [done|lia].
Qed.

Lemma admitProto_accepts `{ProtoRuntime} p :
  admitProto (Some p) = Ok tt ↔
  known p ∧ message_height p ≤ MaxProtoDepth + 1
  ∧ (Count p).1 ≤ wrapperNodes ∧ (Count p).2 ≤ maxDomainFields
  ∧ text_bytes p ≤ MaxMessageBytes ∧ proto_Size p ≤ MaxMessageBytes.
Proof.
  unfold admitProto, visit, Count. rewrite bind_ok_iff. cbn [fst snd].
  assert (Hc : charges (scalar p (0 - 1)) (pb_cost p) (admissible p (0 - 1))) by (apply scalar_charges; done).
  destruct Hc as [_ Hc]. assert (H0 : pb_fits (mkPB 0 0 0)) by done. split.
  - intros (b & Hs & Hg). apply Hc in Hs as (-> & Hf & Hk & Hh); [|done]. apply guard_err_iff in Hg.
    unfold pb_fits, pb_plus, pb_cost in Hf. cbn in Hf. apply Z.ltb_ge in Hg. split_and!; done || lia.
  - intros (Hk & Hh & Hn & Hf & Ht & Hs). exists (pb_plus (mkPB 0 0 0) (pb_cost p)). split.
    + apply Hc; [done|]. split_and!; [done|unfold pb_fits; cbn; lia..|]. split; [done|lia].
    + apply guard_err_iff, Z.ltb_ge, Hs.
Qed.

(** C25: [admitProto] accepts a decoded message exactly when it is well formed and
    within every budget: valid UTF-8 and no unknown field anywhere, at most
    [MaxProtoDepth] messages below the root, its strings, bytes and encoding
    within [MaxMessageBytes], and its message and field occurrences, which are
    precisely those [wirecost.Count] reports to a host assembling the message
    piece by piece, within their limits. *)
Theorem admitProto_iff `{ProtoRuntime} p :
  admitProto (Some p) = Ok tt ↔
  known p ∧ message_height p ≤ MaxProtoDepth + 1
  ∧ (Count p).1 ≤ wrapperNodes ∧ (Count p).2 ≤ maxDomainFields
  ∧ text_bytes p ≤ MaxMessageBytes ∧ proto_Size p ≤ MaxMessageBytes.
Proof. apply admitProto_accepts. Qed.

(** ** Reading what was written *)

Lemma values_app n a b : values n (a ++ b) = values n a ++ values n b.
Proof. unfold values. rewrite (list.filter_app (λ f : Z * list pvalue, f.1 = n) a b). by rewrite map_app, concat_app. Qed.
Lemma values_one n m l : values n [(m, l)] = if m =? n then l else [].
Proof.
  unfold values. rewrite (list.filter_cons (λ f : Z * list pvalue, f.1 = n) (m, l) []). cbn [fst]. destruct (Z.eqb_spec m n); case_decide; try done.
  cbn. by rewrite app_nil_r.
Qed.

Section written.
Context (n m : Z).
Lemma values_string s : values n (put_string m s) = if m =? n then (if bool_decide (s = "") then [] else [PString s]) else [].
Proof. unfold put_string. case_bool_decide; [by case_match|]. apply values_one. Qed.
Lemma values_optional o : values n (put_optional m o) = if m =? n then (if o is Some s then [PString s] else []) else [].
Proof. destruct o; cbn [put_optional]; [apply values_one|by case_match]. Qed.
Lemma values_bytes b : values n (put_bytes m b) = if m =? n then (match b with [] => [] | _ => [PBytes b] end) else [].
Proof. destruct b; cbn [put_bytes]; [by case_match|apply values_one]. Qed.
Lemma values_uint x : values n (put_uint m x) = if m =? n then (if x =? 0 then [] else [PVarint x]) else [].
Proof. unfold put_uint. destruct (x =? 0); [by case_match|]. apply values_one. Qed.
Lemma values_sint x : values n (put_sint m x) = if m =? n then (if x =? 0 then [] else [PSint x]) else [].
Proof. unfold put_sint. destruct (x =? 0); [by case_match|]. apply values_one. Qed.
Lemma values_message x : values n (put_message m x) = if m =? n then [pmsg x] else [].
Proof. apply values_one. Qed.
Lemma values_some o : values n (put_some m o) = if m =? n then (if o is Some x then [pmsg x] else []) else [].
Proof. destruct o; cbn [put_some]; [apply values_one|by case_match]. Qed.
Lemma values_repeated l : values n (put_repeated m l) = if m =? n then l else [].
Proof. destruct l; cbn [put_repeated]; [by case_match|]. apply values_one. Qed.
End written.

Lemma as_string_written s : as_string (if bool_decide (s = "") then [] else [PString s]) = s.
Proof. by case_bool_decide. Qed.
Lemma as_optional_written o : as_optional (if o is Some s then [PString s] else []) = o.
Proof. by destruct o. Qed.
Lemma as_bytes_written b : as_bytes (match b with [] => [] | _ => [PBytes b] end) = b.
Proof. by destruct b. Qed.
Lemma as_uint_written x : as_uint (if x =? 0 then [] else [PVarint x]) = x.
Proof. by destruct (Z.eqb_spec x 0). Qed.
Lemma as_sint_written x : as_sint (if x =? 0 then [] else [PSint x]) = x.
Proof. by destruct (Z.eqb_spec x 0). Qed.
Lemma as_message_some o : as_message (if o is Some x then [pmsg x] else []) = o.
Proof. by destruct o. Qed.
Lemma as_messages_written l : as_messages (map pmsg l) = l.
Proof. unfold as_messages. induction l as [|m l IH]; cbn; [done|by rewrite IH]. Qed.
Lemma as_strings_written l : as_strings (map PString l) = l.
Proof. unfold as_strings. induction l as [|s l IH]; cbn; [done|by rewrite IH]. Qed.

Lemma oneof_one (ns : list Z) k x : k ∈ ns → oneof ns [(k, [x])] = Some (k, x).
Proof. intros Hk. unfold oneof. by rewrite (filter_cons_True (λ f : Z * list pvalue, f.1 ∈ ns)). Qed.
(** The members of a oneof are not among the fields before it. *)
Lemma oneof_skip (ns : list Z) a b : Forall (λ f : Z * list pvalue, f.1 ∉ ns) a → oneof ns (a ++ b) = oneof ns b.
Proof. intros Ha. unfold oneof. rewrite (list.filter_app (λ f : Z * list pvalue, f.1 ∈ ns) a b).
  assert (filter (λ f : Z * list pvalue, f.1 ∈ ns) a = []) as ->; [|done].
  induction Ha as [|f a Hf _ IH]; [done|]. by rewrite (filter_cons_False (λ f : Z * list pvalue, f.1 ∈ ns)). Qed.
Lemma skip_string (ns : list Z) n s : n ∉ ns → Forall (λ f : Z * list pvalue, f.1 ∉ ns) (put_string n s).
Proof. intros Hn. unfold put_string. case_bool_decide; repeat constructor. done. Qed.
Lemma skip_uint (ns : list Z) n x : n ∉ ns → Forall (λ f : Z * list pvalue, f.1 ∉ ns) (put_uint n x).
Proof. intros Hn. unfold put_uint. case_match; repeat constructor. done. Qed.

Create Rewrite HintDb proto.
#[export] Hint Rewrite values_app values_string values_optional values_bytes values_uint values_sint
  values_message values_some values_repeated : proto.
(** Computes every field read of the goal from the fields written. *)
Ltac read_fields :=
  unfold get_string, get_optional, get_bytes, get_uint, get_sint, get_message, get_messages, get_strings,
    put_messages, put_strings;
  autorewrite with proto; cbn [Z.eqb Pos.eqb];
  rewrite ?app_nil_l, ?app_nil_r;
  rewrite ?as_string_written, ?as_optional_written, ?as_bytes_written, ?as_uint_written, ?as_sint_written,
    ?as_message_some, ?as_messages_written, ?as_strings_written.
