(* ===== verification/Json.v ===== *)
(** * Strict JSON reading (pkg/resource/v2/value_json.go)

    The surrogate-pair check over raw text, the bounded token-tree reader with
    its six modes, and the decoding of tagged values. *)
From S2P Require Import Prelude GoStd GoTime GoJson GoFloat Errors Values.
Local Open Scope Z_scope.

(** ** Outcomes *)

(** A call that returns [(value, error)], or does not return one: [None] is a
    panic, or exhausted fuel in a bounded recursion, which theorems exclude. *)
Definition outcome (A : Type) : Type := option (result A).
#[export] Instance outcome_ret : MRet outcome := λ A a, Some (Ok a).
#[export] Instance outcome_bind : MBind outcome := λ A B k m,
  match m with
  | Some (Ok a) => k a
  | Some (Err e) => Some (Err e)
  | None => None
  end.
Definition returns {A} (r : result A) : outcome A := Some r.
Definition fails {A} (e : error) : outcome A := Some (Err e).

(** ** Unicode *)

Definition jsonEscapeBytes : nat := 6.
Definition hexDigits : nat := 4.

Definition hex4_at (b : bytes) (i : nat) : option Z :=
  hex4 (byte_at b i) (byte_at b (S i)) (byte_at b (S (S i))) (byte_at b (S (S (S i)))).

(** [data[i:]], from the [u] of the escape on; returns [data[next:]]. *)
Definition checkUnicodeEscape (b : bytes) : result bytes :=
  guard_err (length b <=? hexDigits)%nat (invalid "truncated Unicode escape") ;;
  match hex4_at b 1 with
  | None => Err (invalid "invalid Unicode escape")
  | Some u =>
    let b := drop (1 + hexDigits) b in
    if (55296 <=? u) && (u <=? 56319) then
      guard_err ((length b <=? jsonEscapeBytes - 1)%nat || negb (byte_is b 0 "\") || negb (byte_is b 1 "u"))
        (invalid "unpaired Unicode surrogate") ;;
      match hex4_at b 2 with
      | Some lo =>
        guard_err ((lo <? 56320) || (57343 <? lo)) (invalid "unpaired Unicode surrogate") ;;
        Ok (drop jsonEscapeBytes b)
      | None => Err (invalid "unpaired Unicode surrogate")
      end
    else
      guard_err ((56320 <=? u) && (u <=? 57343)) (invalid "unpaired Unicode surrogate") ;;
      Ok b
  end.

(** [data[i:]] inside a string; returns [data[i:]] at its closing quote or at
    the end. Each turn drops a byte, so the length is enough fuel. *)
Fixpoint checkJSONStringUnicode (fuel : nat) (b : bytes) : result bytes :=
  match fuel with
  | O => Ok b
  | S f =>
    match b with
    | [] => Ok []
    | c :: t =>
      if Ascii.eqb c "034"%char then Ok b
      else if negb (Ascii.eqb c "\") then checkJSONStringUnicode f t
      else match t with
           | [] => Err (invalid "truncated JSON escape")
           | e :: t' =>
             if negb (Ascii.eqb e "u") then checkJSONStringUnicode f t'
             else next ← checkUnicodeEscape t; checkJSONStringUnicode f next
           end
    end
  end.

Fixpoint checkUnicode_go (fuel : nat) (b : bytes) : result unit :=
  match fuel with
  | O => Ok tt
  | S f =>
    match b with
    | [] => Ok tt
    | c :: t =>
      if negb (Ascii.eqb c "034"%char) then checkUnicode_go f t
      else rest ← checkJSONStringUnicode (length t) t; checkUnicode_go f (drop 1 rest)
    end
  end.
Definition checkUnicode (data : bytes) : result unit :=
  guard_err (negb (utf8_valid data)) (invalid "invalid UTF-8 JSON") ;;
  checkUnicode_go (length data) data.

(** ** Decoded JSON and native Go values *)

(** The dynamic types of [any] the codecs switch on. Integers are split by
    signedness; a [float32] is kept as its exact binary64 value. *)
Inductive any : Type :=
| ANil
| ABool (b : bool)
| AString (s : string)
| ANumber (s : string)
| AInt (n : Z)
| AUint (n : Z)
| AFloat (x : float64)
| ATime (t : Time)
| AList (l : list any)
| AMap (m : list (string * any))
| AOther.

(** ** The tree reader *)

Inductive jsonReadMode :=
| jsonReadTree | jsonReadTagged | jsonReadValidate
| jsonReadDomain | jsonReadDomainValue | jsonReadResourceOptions.
#[export] Instance jsonReadMode_eq_dec : EqDecision jsonReadMode.
Proof. solve_decision. Defined.

Record jsonTreeReader := mkReader {
  decoder : Decoder;
  mode : jsonReadMode;
  rnodes : Z;
  rfields : Z;
  inResourceData : bool;
  inConnection : bool;
  resourceDataDepth : Z
}.

Definition set_decoder (r : jsonTreeReader) (d : Decoder) : jsonTreeReader :=
  mkReader d (mode r) (rnodes r) (rfields r) (inResourceData r) (inConnection r) (resourceDataDepth r).
Definition add_node (r : jsonTreeReader) : jsonTreeReader :=
  mkReader (decoder r) (mode r) (rnodes r + 1) (rfields r) (inResourceData r) (inConnection r)
    (resourceDataDepth r).
Definition add_field (r : jsonTreeReader) : jsonTreeReader :=
  mkReader (decoder r) (mode r) (rnodes r) (rfields r + 1) (inResourceData r) (inConnection r)
    (resourceDataDepth r).
Definition set_context (r : jsonTreeReader) (data connection : bool) (depth : Z) : jsonTreeReader :=
  mkReader (decoder r) (mode r) (rnodes r) (rfields r) data connection depth.

Definition is_mode (r : jsonTreeReader) (m : jsonReadMode) : bool := bool_decide (mode r = m).

Definition taggedChildDepth : Z := 2.

Definition depthLimit (r : jsonTreeReader) : Z :=
  if is_mode r jsonReadResourceOptions && inResourceData r then
    taggedChildDepth * MaxValueDepth + 1 + resourceDataDepth r
  else if is_mode r jsonReadTagged then taggedChildDepth * MaxValueDepth + 1
  else if is_mode r jsonReadDomainValue then taggedChildDepth * MaxValueDepth + maxDomainDepth + 1
  else maxDomainDepth.

(** [json.Token] as the [any] the decoder returns. *)
Definition scalar_any (t : json_token) : any :=
  match t with
  | TString s => AString s
  | TNumber s => ANumber s
  | TBool b => ABool b
  | TNull | TDelim _ => ANil
  end.

(** Scalars outside the parts a mode keeps are read as nil. *)
Definition drops_scalar (r : jsonTreeReader) (depth : Z) : bool :=
  is_mode r jsonReadValidate || is_mode r jsonReadResourceOptions
  || ((is_mode r jsonReadDomain || is_mode r jsonReadDomainValue) && (1 <? depth)).

Definition keeps_object (r : jsonTreeReader) (depth : Z) : bool :=
  is_mode r jsonReadTree || is_mode r jsonReadTagged
  || ((is_mode r jsonReadDomain || is_mode r jsonReadDomainValue) && (depth =? 0)).
Definition keeps_array (r : jsonTreeReader) : bool :=
  is_mode r jsonReadTree || is_mode r jsonReadTagged.

(** The member context of [jsonReadResourceOptions]. *)
Definition enter_member (r : jsonTreeReader) (depth : Z) (k : string) : jsonTreeReader :=
  if is_mode r jsonReadResourceOptions then
    let connection := inConnection r || ((depth =? 0) && bool_decide (k = "connection")) in
    if bool_decide (k = "resource_data") && ((depth =? 0) || ((depth =? 1) && connection))
    then set_context r true connection (depth + 1)
    else set_context r (inResourceData r) connection (resourceDataDepth r)
  else r.

Definition next_token (r : jsonTreeReader) (detail : string) : outcome (json_token * jsonTreeReader) :=
  match Token (decoder r) with
  | Ok (t, d) => Some (Ok (t, set_decoder r d))
  | Err _ => fails (invalid detail)
  end.

Definition closing (r : jsonTreeReader) (c : ascii) (detail : string) : outcome jsonTreeReader :=
  match Token (decoder r) with
  | Ok (TDelim x, d) => if Ascii.eqb x c then Some (Ok (set_decoder r d)) else fails (invalid detail)
  | _ => fails (invalid detail)
  end.

(** [acc] holds the members read so far; outside the kept parts only their keys
    matter. Fuel is spent per call; [read_terminates] shows how much is enough. *)
Fixpoint read (fuel : nat) (r : jsonTreeReader) (depth : Z) : outcome (any * jsonTreeReader) :=
  match fuel with
  | O => None
  | S f =>
    let r := add_node r in
    if (depthLimit r <? depth) || (maxDomainNodes <? rnodes r)
    then fails (limited "JSON complexity limit")
    else
      '(t, r) ← next_token r "invalid JSON";
      match t with
      | TDelim c =>
        if Ascii.eqb c "{" then object f r depth []
        else if Ascii.eqb c "[" then array f r depth []
        else fails (invalid "unexpected JSON delimiter")
      | t => Some (Ok (if drops_scalar r depth then ANil else scalar_any t, r))
      end
  end
with object (fuel : nat) (r : jsonTreeReader) (depth : Z) (acc : list (string * any))
    : outcome (any * jsonTreeReader) :=
  match fuel with
  | O => None
  | S f =>
    if More (decoder r) then
      let r := add_field r in
      if maxDomainFields <? rfields r then fails (limited "JSON field limit") else
      '(key, r) ← next_token r "invalid JSON member";
      match key with
      | TString k =>
        if bool_decide (k ∈ acc.*1) then fails (invalid "duplicate JSON member") else
        '(v, r') ← read f (enter_member r depth k) (depth + 1);
        let r := set_context r' (inResourceData r) (inConnection r) (resourceDataDepth r) in
        object f r depth (acc ++ [(k, v)])
      | _ => fails (invalid "invalid JSON key")
      end
    else
      r ← closing r "}" "invalid JSON object";
      Some (Ok (if keeps_object r depth then AMap acc else ABool true, r))
  end
with array (fuel : nat) (r : jsonTreeReader) (depth : Z) (acc : list any)
    : outcome (any * jsonTreeReader) :=
  match fuel with
  | O => None
  | S f =>
    if More (decoder r) then
      let r := add_field r in
      if maxDomainFields <? rfields r then fails (limited "JSON field limit") else
      '(v, r) ← read f r (depth + 1);
      array f r depth (if keeps_array r then acc ++ [v] else acc)
    else
      r ← closing r "]" "invalid JSON array";
      Some (Ok (if keeps_array r then AList acc else ABool true, r))
  end.

(** Two calls per byte of input at most. *)
Definition read_fuel (data : bytes) : nat := 2 * length data + 2.

Definition readJSON (data : bytes) (byteLimit : Z) (m : jsonReadMode) : outcome any :=
  if byteLimit <? blen data then fails (limited "JSON byte limit") else
  returns (checkUnicode data) ≫= λ _,
  '(v, r) ← read (read_fuel data) (mkReader (NewDecoder data) m 0 0 false false 0) 0;
  match Token (decoder r) with
  | Err TokenEOF => Some (Ok v)
  | _ => fails (invalid "trailing JSON")
  end.

Definition parseJSONWithLimit (data : bytes) (byteLimit : Z) : outcome any :=
  readJSON data byteLimit jsonReadTree.
Definition parseJSON (data : bytes) : outcome any := parseJSONWithLimit data maxDocumentBytes.

Definition ValidateJSON (data : bytes) : outcome unit :=
  readJSON data MaxMessageBytes jsonReadValidate ;; Some (Ok tt).
Definition ValidateResourceOptionsJSON (data : bytes) : outcome unit :=
  readJSON data MaxMessageBytes jsonReadResourceOptions ;; Some (Ok tt).

(** ** Termination *)

Definition rlen (r : jsonTreeReader) : nat := length (input (decoder r)).

Lemma outcome_bind_some {A B} (m : outcome A) (k : A → outcome B) b :
  m ≫= k = Some (Ok b) ↔ ∃ a, m = Some (Ok a) ∧ k a = Some (Ok b).
Proof. destruct m as [[a|e]|]; simpl; naive_solver. Qed.

(** Neither stuck, nor followed by something stuck. *)
Lemma outcome_bind_defined {A B} (m : outcome A) (k : A → outcome B) :
  m ≠ None → (∀ a, m = Some (Ok a) → k a ≠ None) → m ≫= k ≠ None.
Proof. destruct m as [[a|e]|]; simpl; naive_solver. Qed.

Lemma next_token_length r detail t r' :
  next_token r detail = Some (Ok (t, r')) → (rlen r' < rlen r)%nat.
Proof.
  unfold next_token, rlen. destruct (Token (decoder r)) as [[t' d]|] eqn:E; [|done].
  intros [= <- <-]. by apply Token_length in E.
Qed.

Lemma closing_length r c detail r' :
  closing r c detail = Some (Ok r') → (rlen r' < rlen r)%nat.
Proof.
  unfold closing, rlen. destruct (Token (decoder r)) as [[t' d]|] eqn:E; [|done].
  apply Token_length in E. destruct t'; try done. case_match; [|done]. by intros [= <-].
Qed.

Lemma next_token_defined r detail : next_token r detail ≠ None.
Proof. unfold next_token. repeat case_match; done. Qed.
Lemma closing_defined r c detail : closing r c detail ≠ None.
Proof. unfold closing. repeat case_match; done. Qed.

Lemma read_progress f :
  (∀ r depth v r', read f r depth = Some (Ok (v, r')) → (rlen r' < rlen r)%nat) ∧
  (∀ r depth acc v r', object f r depth acc = Some (Ok (v, r')) → (rlen r' < rlen r)%nat) ∧
  (∀ r depth acc v r', array f r depth acc = Some (Ok (v, r')) → (rlen r' < rlen r)%nat).
Proof.
  induction f as [|f (IHr & IHo & IHa)]; [done|]. split_and!.
  - intros r depth v r' H. cbn [read] in H. case_match; [done|].
    apply outcome_bind_some in H as ([t r1] & Ht & H). apply next_token_length in Ht.
    change (rlen (add_node r)) with (rlen r) in Ht.
    destruct t; try (by injection H as <- <-).
    repeat case_match; try done; [apply IHo in H|apply IHa in H]; lia.
  - intros r depth acc v r' H. cbn [object] in H. case_match.
    + case_match; [done|]. apply outcome_bind_some in H as ([k r1] & Ht & H).
      apply next_token_length in Ht. change (rlen (add_field r)) with (rlen r) in Ht.
      destruct k; try done. case_match; [done|].
      apply outcome_bind_some in H as ([v1 r2] & Hr & H). apply IHr in Hr. apply IHo in H.
      unfold enter_member in Hr. assert (∀ d x y z, rlen (set_context d x y z) = rlen d) as Hc by done.
      rewrite Hc in H. repeat case_match; rewrite ?Hc in Hr; lia.
    + apply outcome_bind_some in H as (r1 & Hc & [= <- <-]). by apply closing_length in Hc.
  - intros r depth acc v r' H. cbn [array] in H. case_match.
    + case_match; [done|]. apply outcome_bind_some in H as ([v1 r2] & Hr & H).
      apply IHr in Hr. change (rlen (add_field r)) with (rlen r) in Hr. apply IHa in H. lia.
    + apply outcome_bind_some in H as (r1 & Hc & [= <- <-]). by apply closing_length in Hc.
Qed.

Lemma enter_member_length r depth k : rlen (enter_member r depth k) = rlen r.
Proof. unfold enter_member. repeat case_match; done. Qed.

(** Two calls per remaining byte. *)
Lemma read_defined f :
  (∀ r depth, (2 * rlen r + 1 ≤ f)%nat → read f r depth ≠ None) ∧
  (∀ r depth acc, (2 * rlen r + 1 ≤ f)%nat → object f r depth acc ≠ None) ∧
  (∀ r depth acc, (2 * rlen r + 2 ≤ f)%nat → array f r depth acc ≠ None).
Proof.
  induction f as [|f (IHr & IHo & IHa)]; [split_and!; intros; lia|]. split_and!.
  - intros r depth Hf. cbn [read]. case_match; [done|].
    apply outcome_bind_defined; [apply next_token_defined|].
    intros [t r1] Ht%next_token_length. change (rlen (add_node r)) with (rlen r) in Ht.
    destruct t; try done. repeat case_match; try done; [apply IHo|apply IHa]; lia.
  - intros r depth acc Hf. cbn [object]. case_match.
    + case_match; [done|]. apply outcome_bind_defined; [apply next_token_defined|].
      intros [k r1] Ht%next_token_length. change (rlen (add_field r)) with (rlen r) in Ht.
      destruct k; try done. case_match; [done|].
      apply outcome_bind_defined; [apply IHr; rewrite enter_member_length; lia|].
      intros [v r2] Hr%(read_progress f). rewrite enter_member_length in Hr.
      apply IHo. change (rlen (set_context r2 ?x ?y ?z)) with (rlen r2). lia.
    + apply outcome_bind_defined; [apply closing_defined|done].
  - intros r depth acc Hf. cbn [array]. case_match.
    + case_match; [done|].
      apply outcome_bind_defined; [apply IHr; change (rlen (add_field r)) with (rlen r); lia|].
      intros [v r2] Hr%(read_progress f). change (rlen (add_field r)) with (rlen r) in Hr.
      apply IHa. lia.
    + apply outcome_bind_defined; [apply closing_defined|done].
Qed.

Lemma readJSON_defined data byteLimit m : readJSON data byteLimit m ≠ None.
Proof.
  unfold readJSON. case_match; [done|].
  apply outcome_bind_defined; [done|]. intros [] _.
  apply outcome_bind_defined; [|by intros [v r] _; repeat case_match].
  apply read_defined. unfold rlen, read_fuel. cbn. lia.
Qed.

(** The reader always answers: in every mode, for every byte string and byte
    limit, [readJSON] returns a tree or an error; two calls per input byte are
    enough, so no document loops or overruns the recursion. *)
Theorem readJSON_terminates data byteLimit m : ∃ r, readJSON data byteLimit m = Some r.
Proof. pose proof (readJSON_defined data byteLimit m). destruct (readJSON _ _ _); [eauto|done]. Qed.

(** ** Strictness *)

(** What a kept tree promises: JSON values only, no member named twice. *)
Inductive strict : any → Prop :=
| strict_nil : strict ANil
| strict_bool b : strict (ABool b)
| strict_string s : strict (AString s)
| strict_number s : strict (ANumber s)
| strict_list l : Forall strict l → strict (AList l)
| strict_map m : NoDup m.*1 → Forall (λ e, strict e.2) m → strict (AMap m).

Fixpoint any_nodes (v : any) : Z :=
  1 + match v with
      | AList l => sum_of any_nodes l
      | AMap m => sum_of (λ e, any_nodes e.2) m
      | _ => 0
      end.
Fixpoint any_fields (v : any) : Z :=
  match v with
  | AList l => sum_of (λ v, 1 + any_fields v) l
  | AMap m => sum_of (λ e, 1 + any_fields e.2) m
  | _ => 0
  end.
Fixpoint any_depth (v : any) : Z :=
  match v with
  | AList l => max_of (λ v, 1 + any_depth v) l
  | AMap m => max_of (λ e, 1 + any_depth e.2) m
  | _ => 0
  end.

(** A reader in one of the modes that keep the whole tree. *)
Definition keeping (r : jsonTreeReader) : Prop := mode r = jsonReadTree ∨ mode r = jsonReadTagged.

Lemma keeping_flags r depth : keeping r →
  keeps_array r = true ∧ keeps_object r depth = true ∧ drops_scalar r depth = false.
Proof.
  unfold keeping, keeps_array, keeps_object, drops_scalar, is_mode.
  intros [-> | ->]; repeat split; done.
Qed.

(** Advancing the decoder or the counters changes neither mode nor limit. *)
Definition same_limits (r r' : jsonTreeReader) : Prop :=
  mode r' = mode r ∧ depthLimit r' = depthLimit r.

Lemma enter_member_keeping r depth k : keeping r → enter_member r depth k = r.
Proof. unfold keeping, enter_member, is_mode. by intros [-> | ->]. Qed.

Lemma next_token_inv r detail t r' : next_token r detail = Some (Ok (t, r')) →
  ∃ d, r' = set_decoder r d.
Proof. unfold next_token. destruct (Token _) as [[? d]|]; [|done]. intros [= <- <-]. eauto. Qed.
Lemma closing_inv r c detail r' : closing r c detail = Some (Ok r') → ∃ d, r' = set_decoder r d.
Proof.
  unfold closing. destruct (Token _) as [[t d]|]; [|done]. destruct t; try done.
  case_match; [|done]. intros [= <-]. eauto.
Qed.

Lemma keeping_limit r r' : keeping r → mode r' = mode r → keeping r' ∧ depthLimit r' = depthLimit r.
Proof.
  unfold keeping, depthLimit, is_mode. intros [H|H] Hm; rewrite Hm, H; split; auto; done.
Qed.

(** What reading one subtree does to the counters. *)
Definition grew (r r' : jsonTreeReader) (n k : Z) : Prop :=
  mode r' = mode r ∧ rnodes r' = rnodes r + n ∧ rfields r' = rfields r + k
  ∧ (rnodes r ≤ maxDomainNodes → rnodes r' ≤ maxDomainNodes)
  ∧ (rfields r ≤ maxDomainFields → rfields r' ≤ maxDomainFields).

Lemma grew_trans r1 r2 r3 n k n' k' :
  grew r1 r2 n k → grew r2 r3 n' k' → grew r1 r3 (n + n') (k + k').
Proof. unfold grew. intros (-> & ? & ? & ? & ?) (-> & ? & ? & ? & ?). split_and!; auto; lia. Qed.

Lemma grew_set_decoder r d : grew r (set_decoder r d) 0 0.
Proof. unfold grew. cbn. split_and!; auto; lia. Qed.

Lemma grew_next_token r detail t r' : next_token r detail = Some (Ok (t, r')) → grew r r' 0 0.
Proof. intros [d ->]%next_token_inv. apply grew_set_decoder. Qed.
Lemma grew_closing r c detail r' : closing r c detail = Some (Ok r') → grew r r' 0 0.
Proof. intros [d ->]%closing_inv. apply grew_set_decoder. Qed.
Lemma grew_node r : rnodes r + 1 ≤ maxDomainNodes → grew r (add_node r) 1 0.
Proof. unfold grew. cbn. intros. split_and!; auto; lia. Qed.
Lemma grew_field r : rfields r + 1 ≤ maxDomainFields → grew r (add_field r) 0 1.
Proof. unfold grew. cbn. intros. split_and!; auto; lia. Qed.

Lemma grew_keeping r r' n k : keeping r → grew r r' n k → keeping r' ∧ depthLimit r' = depthLimit r.
Proof. intros Hk (Hm & _). by apply keeping_limit. Qed.

Lemma sum_of_app {A} (f : A → Z) l l' : sum_of f (l ++ l') = sum_of f l + sum_of f l'.
Proof. induction l as [|a l IH]; [done|]. cbn [sum_of app]. lia. Qed.

Definition sound_read (f : nat) : Prop := ∀ r depth v r',
  keeping r → read f r depth = Some (Ok (v, r')) →
  strict v ∧ depth + any_depth v ≤ depthLimit r ∧ grew r r' (any_nodes v) (any_fields v).

Definition sound_object (f : nat) : Prop := ∀ r depth acc v r',
  keeping r → depth ≤ depthLimit r → NoDup acc.*1 → object f r depth acc = Some (Ok (v, r')) →
  ∃ es, v = AMap (acc ++ es) ∧ NoDup (acc ++ es).*1 ∧ Forall (λ e, strict e.2) es
    ∧ depth + max_of (λ e, 1 + any_depth e.2) es ≤ depthLimit r
    ∧ grew r r' (sum_of (λ e, any_nodes e.2) es) (sum_of (λ e, 1 + any_fields e.2) es).

Definition sound_array (f : nat) : Prop := ∀ r depth acc v r',
  keeping r → depth ≤ depthLimit r → array f r depth acc = Some (Ok (v, r')) →
  ∃ es, v = AList (acc ++ es) ∧ Forall strict es
    ∧ depth + max_of (λ v, 1 + any_depth v) es ≤ depthLimit r
    ∧ grew r r' (sum_of any_nodes es) (sum_of (λ v, 1 + any_fields v) es).

Lemma read_sound_step f : sound_object f → sound_array f → sound_read (S f).
Proof.
  intros IHo IHa r depth v r' Hk H. cbn [read] in H.
  destruct (_ || _) eqn:Hg; [done|]. propify.
  assert (G1 : grew r (add_node r) 1 0) by (apply grew_node; cbn in *; lia).
  destruct (grew_keeping _ _ _ _ Hk G1) as [Hk1 Hl1]. rewrite Hl1 in *.
  apply outcome_bind_some in H as ([t r1] & Ht & H). apply grew_next_token in Ht.
  pose proof (grew_trans _ _ _ _ _ _ _ G1 Ht) as G2. rewrite !Z.add_0_r in G2.
  destruct (grew_keeping _ _ _ _ Hk G2) as [Hk2 Hl2].
  destruct (keeping_flags r1 depth Hk2) as (Hka & Hko & Hds).
  destruct t as [c| | | |]; try (rewrite Hds in H; injection H as <- <-; cbn;
    rewrite ?Z.add_0_r; split_and!; [constructor|lia|done]).
  destruct (Ascii.eqb c "{"); [|destruct (Ascii.eqb c "["); [|done]].
  - apply IHo in H as (es & -> & Hnd & Hs & Hd & Hgr); [|done|lia|constructor].
    split_and!; [by constructor|cbn [any_depth app]; lia|].
    pose proof (grew_trans _ _ _ _ _ _ _ G2 Hgr) as G3. by rewrite Z.add_0_l in G3.
  - apply IHa in H as (es & -> & Hs & Hd & Hgr); [|done|lia].
    split_and!; [by constructor|cbn [any_depth app]; lia|].
    pose proof (grew_trans _ _ _ _ _ _ _ G2 Hgr) as G3. by rewrite Z.add_0_l in G3.
Qed.

Lemma set_context_grew r x y z : grew r (set_context r x y z) 0 0.
Proof. unfold grew. cbn. split_and!; auto; lia. Qed.

Lemma object_sound_step f : sound_read f → sound_object f → sound_object (S f).
Proof.
  intros IHr IHo r depth acc v r' Hk Hd Hnd H. cbn [object] in H. case_match.
  - destruct (maxDomainFields <? rfields (add_field r)) eqn:Hg; [done|]. propify.
    assert (G1 : grew r (add_field r) 0 1) by (apply grew_field; cbn in *; lia).
    apply outcome_bind_some in H as ([t r1] & Ht & H). apply grew_next_token in Ht.
    pose proof (grew_trans _ _ _ _ _ _ _ G1 Ht) as G2. cbn [Z.add] in G2.
    destruct (grew_keeping _ _ _ _ Hk G2) as [Hk2 Hl2].
    destruct t as [|k| | |]; try done. case_bool_decide as Hin; [done|].
    apply outcome_bind_some in H as ([w r2] & Hr & H).
    rewrite enter_member_keeping in Hr by done.
    apply IHr in Hr as (Hs & Hdw & Hgw); [|done].
    pose proof (grew_trans _ _ _ _ _ _ _ G2 Hgw) as G3.
    pose proof (grew_trans _ _ _ _ _ _ _ G3 (set_context_grew r2 (inResourceData r1) (inConnection r1) (resourceDataDepth r1))) as G4.
    destruct (grew_keeping _ _ _ _ Hk G4) as [Hk4 Hl4].
    apply IHo in H as (es & -> & Hnd' & Hses & Hdes & Hges); [|done|lia|].
    + exists ((k, w) :: es). rewrite <- app_assoc in *. cbn [app sum_of max_of snd].
      split_and!; try done; [by constructor|lia|].
      pose proof (grew_trans _ _ _ _ _ _ _ G4 Hges) as G5.
      unfold grew in *. destruct G5 as (? & ? & ? & ? & ?). split_and!; auto; lia.
    + rewrite fmap_app. apply NoDup_app. split_and!; [done| |apply NoDup_singleton].
      intros x Hx ->%list_elem_of_singleton. done.
  - apply outcome_bind_some in H as (r1 & Hc & [= <- <-]). apply grew_closing in Hc.
    destruct (keeping_flags r1 depth) as (_ & -> & _); [by apply (grew_keeping _ _ _ _ Hk Hc)|].
    exists []. rewrite app_nil_r. split_and!; try done; cbn; lia.
Qed.

Lemma array_sound_step f : sound_read f → sound_array f → sound_array (S f).
Proof.
  intros IHr IHa r depth acc v r' Hk Hd H. cbn [array] in H. case_match.
  - destruct (maxDomainFields <? rfields (add_field r)) eqn:Hg; [done|]. propify.
    assert (G1 : grew r (add_field r) 0 1) by (apply grew_field; cbn in *; lia).
    destruct (grew_keeping _ _ _ _ Hk G1) as [Hk1 Hl1].
    apply outcome_bind_some in H as ([w r2] & Hr & H).
    apply IHr in Hr as (Hs & Hdw & Hgw); [|done].
    pose proof (grew_trans _ _ _ _ _ _ _ G1 Hgw) as G3.
    destruct (grew_keeping _ _ _ _ Hk G3) as [Hk3 Hl3].
    destruct (keeping_flags r2 depth Hk3) as (Hka & _). rewrite Hka in H.
    apply IHa in H as (es & -> & Hses & Hdes & Hges); [|done|lia].
    exists (w :: es). rewrite <- app_assoc. cbn [app sum_of max_of].
    split_and!; try done; [by constructor|lia|].
    pose proof (grew_trans _ _ _ _ _ _ _ G3 Hges) as G5.
    unfold grew in *. destruct G5 as (? & ? & ? & ? & ?). split_and!; auto; lia.
  - apply outcome_bind_some in H as (r1 & Hc & [= <- <-]). apply grew_closing in Hc.
    destruct (keeping_flags r1 depth) as (-> & _); [by apply (grew_keeping _ _ _ _ Hk Hc)|].
    exists []. rewrite app_nil_r. split_and!; try done; cbn; lia.
Qed.

Lemma read_sound f : sound_read f ∧ sound_object f ∧ sound_array f.
Proof.
  induction f as [|f (IHr & IHo & IHa)]; [split_and!; intros ?; done|].
  split_and!; [by apply read_sound_step|by apply object_sound_step|by apply array_sound_step].
Qed.

(** An accepted document is strict and bounded: [parseJSON] never returns a
    tree in which some object names a member twice, and every tree it returns
    nests at most 64 deep, has at most 262144 nodes and 1048576 members and
    elements, and comes from well-formed UTF-8 of at most 16 MiB. *)
Theorem parseJSON_strict data v : parseJSON data = Some (Ok v) →
  strict v ∧ any_depth v ≤ maxDomainDepth ∧ any_nodes v ≤ maxDomainNodes
  ∧ any_fields v ≤ maxDomainFields ∧ utf8_valid data = true ∧ blen data ≤ maxDocumentBytes.
Proof.
  unfold parseJSON, parseJSONWithLimit, readJSON. intros H.
  destruct (maxDocumentBytes <? blen data) eqn:Hlen; [done|]. propify.
  apply outcome_bind_some in H as ([] & Hu & H).
  apply outcome_bind_some in H as ([w r] & Hr & H).
  assert (w = v) as ->.
  { destruct (Token (decoder r)) as [|[|]]; try done. by injection H as ->. }
  apply (proj1 (read_sound _)) in Hr as (Hs & Hd & Hg); [|by left].
  destruct Hg as (_ & Hn & Hf & Hn' & Hf'). cbn in *.
  split_and!; try done.
  - unfold maxDomainNodes in *. lia.
  - unfold maxDomainFields in *. lia.
  - injection Hu as Hu. unfold checkUnicode in Hu. apply bind_unit_iff in Hu as [Hu _].
    apply guard_err_iff in Hu. by propify.
Qed.

(** A document written with apostrophes for quotation marks. *)
Definition json_text (s : string) : bytes :=
  map (λ c, if Ascii.eqb c "'" then "034"%char else c) (bytes_of s).

Definition sample_tree : any :=
  AMap [("a", AList [ANumber "-1.5e3"; ABool true]); ("b", AMap [("a", ANil)])].

Lemma parseJSON_strict_witness :
  parseJSON (json_text "{'a' : [-1.5e3, true], 'b':{'a':null}}") = Some (Ok sample_tree)
  ∧ strict sample_tree.
Proof.
  assert (H : parseJSON (json_text "{'a' : [-1.5e3, true], 'b':{'a':null}}") = Some (Ok sample_tree))
    by (vm_compute; reflexivity).
  split; [exact H|]. exact (proj1 (parseJSON_strict _ _ H)).
Defined.
