(* ===== verification/TaggedJson.v ===== *)
(** * The lossless tagged codec and the native codec (pkg/resource/v2/value_json.go)

    [Value] to and from its tagged JSON, with the exact size computed before
    allocation, and [Value] to and from native Go values. *)
From S2P Require Import Prelude GoStd GoTime GoJson GoFloat Errors Values Json.
Local Open Scope Z_scope.

(** ** Decoding tagged trees *)

(** [m[k]], in continuation form. *)
Definition at_member {A R} (k : string) (absent : R) (found : A → R) : list (string * A) → R :=
  fix go m :=
    match m with
    | [] => absent
    | (k', v) :: m => if bool_decide (k' = k) then found v else go m
    end.

Definition taggedMemberCount : nat := 2.

Definition timestamp_text (t : Time) : string := string_of (format_rfc3339nano t).

Definition taggedStringValue (kind : string) (raw : any) : result Value :=
  match raw with
  | AString s =>
    if bool_decide (kind = valueKindString) then
      Ok (mkValue kind false s "" "" zero_float "" None None)
    else if bool_decide (kind = valueKindInt64) then
      Ok (mkValue kind false "" s "" zero_float "" None None)
    else if bool_decide (kind = valueKindUint64) then
      Ok (mkValue kind false "" "" s zero_float "" None None)
    else if bool_decide (kind = valueKindTimestamp) then
      t ← timestamp s;
      Ok (mkValue kind false "" "" "" zero_float (timestamp_text t) None None)
    else Ok (tagged_zero kind)
  | _ => Err (invalid "string value payload")
  end.

Section tagged_containers.
Context (taggedValue : any → Z → Z → result (Value * Z)).

Definition tagged_items (depth : Z) :=
  fix go (l : list any) (nodes : Z) : result (list Value * Z) :=
    match l with
    | [] => Ok ([], nodes)
    | item :: l =>
      '(e, nodes) ← taggedValue item (depth + 1) nodes;
      '(es, nodes) ← go l nodes;
      Ok (e :: es, nodes)
    end.
Definition tagged_entries (depth : Z) :=
  fix go (m : list (string * any)) (nodes : Z) : result (list (string * Value) * Z) :=
    match m with
    | [] => Ok ([], nodes)
    | (k, item) :: m =>
      '(e, nodes) ← taggedValue item (depth + 1) nodes;
      '(es, nodes) ← go m nodes;
      Ok ((k, e) :: es, nodes)
    end.

Definition taggedContainerValue (kind : string) (raw : any) (depth nodes : Z) : result (Value * Z) :=
  if bool_decide (kind = valueKindList) then
    match raw with
    | AList a =>
      '(es, nodes) ← tagged_items depth a nodes;
      Ok (mkValue kind false "" "" "" zero_float "" (Some es) None, nodes)
    | _ => Err (invalid "list value payload")
    end
  else
    match raw with
    | AMap m =>
      '(es, nodes) ← tagged_entries depth m nodes;
      Ok (mkValue kind false "" "" "" zero_float "" None (Some es), nodes)
    | _ => Err (invalid "map value payload")
    end.
End tagged_containers.

(** [kind] is [m["kind"]], [None] when it is absent or not a string. *)
Definition member_kind (m : list (string * any)) : option string :=
  at_member "kind" None (λ v, match v with AString s => Some s | _ => None end) m.

Fixpoint taggedValue (raw : any) (depth nodes : Z) : result (Value * Z) :=
  let nodes := nodes + 1 in
  guard_err ((maxDomainDepth <? depth) || (maxDomainNodes <? nodes)) (limited "value complexity limit") ;;
  match raw with
  | AMap m =>
    match member_kind m with
    | None => Err (invalid "value kind must be string")
    | Some kind =>
      if bool_decide (kind = valueKindNull) then
        guard_err (negb (length m =? 1)%nat) (invalid "null value has payload or unknown fields") ;;
        Ok (tagged_zero valueKindNull, nodes)
      else
        guard_err (negb (length m =? taggedMemberCount)%nat)
          (invalid "tagged value requires kind and value only") ;;
        at_member "value" (Err (invalid "tagged value lacks payload")) (λ x,
          if bool_decide (kind = valueKindBool) then
            match x with
            | ABool b => Ok (mkValue kind b "" "" "" zero_float "" None None, nodes)
            | _ => Err (invalid "bool value payload")
            end
          else if bool_decide (kind = valueKindString) || bool_decide (kind = valueKindInt64)
               || bool_decide (kind = valueKindUint64) || bool_decide (kind = valueKindTimestamp) then
            v ← taggedStringValue kind x; Ok (v, nodes)
          else if bool_decide (kind = valueKindDouble) then
            match x with
            | ANumber n =>
              match parse_float (bytes_of n) with
              | Some f =>
                guard_err (f64_is_nan f || f64_is_inf f) (invalid "invalid double") ;;
                Ok (mkValue kind false "" "" "" f "" None None, nodes)
              | None => Err (invalid "invalid double")
              end
            | _ => Err (invalid "double value payload")
            end
          else if bool_decide (kind = valueKindList) || bool_decide (kind = valueKindMap) then
            taggedContainerValue taggedValue kind x depth nodes
          else Err (invalid "unknown value kind")) m
    end
  | _ => Err (invalid "tagged value must be object")
  end.

(** The receiver is [None] for a nil pointer; an error leaves it unchanged. *)
Definition UnmarshalJSON `{Protowire} (v : option Value) (data : bytes) : outcome Value :=
  match v with
  | None => fails (invalid "nil value receiver")
  | Some _ =>
    raw ← readJSON data maxDocumentBytes jsonReadTagged;
    '(out, _) ← (Some (taggedValue raw 0 0) : outcome (Value * Z));
    (ValidateValue out : outcome unit) ;;
    Some (Ok out)
  end.

(** ** Encoding *)

Definition hex_digit (n : Z) : ascii := if n <? 10 then byte_of (48 + n) else byte_of (87 + n).
Definition u00 (c : ascii) : bytes :=
  ["\"; "u"; "0"; "0"]%char
  ++ [hex_digit (Z.shiftr (byte_val c) 4); hex_digit (Z.land (byte_val c) 15)].

(** The two-byte escapes of the first switch. *)
Definition short_escape (c : ascii) : option ascii :=
  let v := byte_val c in
  if (v =? 34) || (v =? 92) then Some c
  else if v =? 8 then Some "b"%char
  else if v =? 12 then Some "f"%char
  else if v =? 10 then Some "n"%char
  else if v =? 13 then Some "r"%char
  else if v =? 9 then Some "t"%char
  else None.
Definition html_byte (c : ascii) : bool :=
  (byte_val c =? 60) || (byte_val c =? 62) || (byte_val c =? 38).
Definition jsonControlLimit : Z := 32.
(** [0x80 0xa8] and [0x80 0xa9] after [0xe2]: U+2028 and U+2029. *)
Definition line_separator (c d e : ascii) : bool :=
  (byte_val c =? 226) && (byte_val d =? 128) && ((byte_val e =? 168) || (byte_val e =? 169)).

Fixpoint json_string_body (s : bytes) : bytes :=
  match s with
  | [] => []
  | c :: t =>
    match short_escape c with
    | Some e => "\"%char :: e :: json_string_body t
    | None =>
      if html_byte c then u00 c ++ json_string_body t
      else if byte_val c <? jsonControlLimit then u00 c ++ json_string_body t
      else
        match t with
        | d :: e :: t' =>
          if line_separator c d e
          then ["\"; "u"; "2"; "0"; "2"]%char ++ hex_digit (Z.land (byte_val e) 15) :: json_string_body t'
          else c :: json_string_body t
        | _ => c :: json_string_body t
        end
    end
  end.
Definition appendJSONString (dst : bytes) (s : string) : bytes :=
  dst ++ "034"%char :: json_string_body (bytes_of s) ++ ["034"%char].

Definition appendTaggedEnd (dst : bytes) : result bytes :=
  let dst := dst ++ ["}"%char] in
  guard_err (maxDocumentBytes <? blen dst) (limited "encoded value byte limit") ;; Ok dst.

(** [a < b] on Go strings: bytewise. *)
Fixpoint bytes_lt (a b : bytes) : bool :=
  match a, b with
  | _, [] => false
  | [], _ :: _ => true
  | x :: a, y :: b =>
    if byte_val x <? byte_val y then true
    else if byte_val y <? byte_val x then false else bytes_lt a b
  end.
Definition string_lt (a b : string) : bool := bytes_lt (bytes_of a) (bytes_of b).

(** [sort.Strings] of the keys, each still paired with [values[k]]. *)
Fixpoint insert_entry {A} (e : string * A) (l : list (string * A)) : list (string * A) :=
  match l with
  | [] => [e]
  | x :: l' => if string_lt x.1 e.1 then x :: insert_entry e l' else e :: l
  end.
Definition sort_entries {A} (m : list (string * A)) : list (string * A) := foldr insert_entry [] m.

Section append_containers.
Context (appendTagged : Value → bytes → result bytes).

Definition append_items :=
  fix go (first : bool) (l : list Value) (dst : bytes) : result bytes :=
    match l with
    | [] => Ok dst
    | v :: l =>
      dst ← appendTagged v (if first then dst else dst ++ [","%char]);
      go false l dst
    end.
Definition appendTaggedList (dst : bytes) (values : list Value) : result bytes :=
  dst ← append_items true values (dst ++ ["["%char]); Ok (dst ++ ["]"%char]).

(** The members in key order, each with what appends its value. *)
Fixpoint append_members (first : bool) (l : list (string * (bytes → result bytes))) (dst : bytes)
    : result bytes :=
  match l with
  | [] => Ok dst
  | (k, append_value) :: l =>
    let dst := if first then dst else dst ++ [","%char] in
    dst ← append_value (appendJSONString dst k ++ [":"%char]);
    append_members false l dst
  end.
Definition appendTaggedMap (dst : bytes) (values : list (string * Value)) : result bytes :=
  dst ← append_members true (sort_entries (map (λ e, (e.1, appendTagged e.2)) values)) (dst ++ ["{"%char]);
  Ok (dst ++ ["}"%char]).
End append_containers.

(** [{"kind":] and [,"value":]. *)
Definition kind_prefix : bytes := ["{"%char; "034"%char] ++ bytes_of "kind" ++ ["034"%char; ":"%char].
Definition value_prefix : bytes := [","%char; "034"%char] ++ bytes_of "value" ++ ["034"%char; ":"%char].

Definition format_bool (b : bool) : bytes := bytes_of (if b then "true" else "false").

Fixpoint appendTagged (v : Value) (dst : bytes) : result bytes :=
  let dst := appendJSONString (dst ++ kind_prefix) (vKind v) in
  let k := vKind v in
  if bool_decide (k = valueKindNull) then Ok (dst ++ ["}"%char])
  else
    let dst := dst ++ value_prefix in
    dst ←
      (if bool_decide (k = valueKindBool) then Ok (dst ++ format_bool (vBool v))
       else if bool_decide (k = valueKindString) then Ok (appendJSONString dst (vString v))
       else if bool_decide (k = valueKindInt64) then Ok (appendJSONString dst (vInt v))
       else if bool_decide (k = valueKindUint64) then Ok (appendJSONString dst (vUint v))
       else if bool_decide (k = valueKindDouble) then Ok (dst ++ format_float (vDouble v))
       else if bool_decide (k = valueKindTimestamp) then
         Ok (dst ++ "034"%char :: format_rfc3339nano (timestamp_or_zero (vTimestamp v)) ++ ["034"%char])
       else if bool_decide (k = valueKindList) then
         match vList v with
         | Some l => appendTaggedList appendTagged dst l
         | None => appendTaggedList appendTagged dst []
         end
       else if bool_decide (k = valueKindMap) then
         match vMap v with
         | Some m => appendTaggedMap appendTagged dst m
         | None => appendTaggedMap appendTagged dst []
         end
       else Ok dst);
    appendTaggedEnd dst.

(** ** Sizes *)

Definition jsonQuoteBytes : Z := 2.
Definition jsonShortEscapeBytes : Z := 2.
Definition jsonEscapeSize : Z := 6.

Fixpoint quoted_size (s : bytes) (size : Z) : Z :=
  match s with
  | [] => size
  | c :: t =>
    match short_escape c with
    | Some _ => quoted_size t (size + jsonShortEscapeBytes)
    | None =>
      if html_byte c then quoted_size t (size + jsonEscapeSize)
      else if byte_val c <? jsonControlLimit then quoted_size t (size + jsonEscapeSize)
      else
        match t with
        | d :: e :: t' =>
          if line_separator c d e then quoted_size t' (size + jsonEscapeSize)
          else quoted_size t (size + 1)
        | _ => quoted_size t (size + 1)
        end
    end
  end.
Definition quotedJSONSize (s : string) : Z := quoted_size (bytes_of s) jsonQuoteBytes.

Record jsonValueBudget := mkJB { jnodes : Z; jfields : Z }.

Definition taggedObjectBytes : Z := 9.
Definition taggedPayloadBytes : Z := 9.
Definition jsonContainerBytes : Z := 2.
Definition taggedBaseNodes : Z := 2.

Section size_containers.
Context (taggedJSONSize : Value → Z → jsonValueBudget → result (Z * jsonValueBudget)).

Definition size_items (depth : Z) :=
  fix go (first : bool) (l : list Value) (size : Z) (b : jsonValueBudget) : result (Z * jsonValueBudget) :=
    match l with
    | [] => Ok (size, b)
    | v :: l =>
      '(n, b) ← taggedJSONSize v (depth + taggedChildDepth) b;
      let size := if first then size + n else size + n + 1 in
      guard_err (maxDocumentBytes <? size) (limited "encoded JSON byte limit") ;;
      go false l size b
    end.
Definition taggedListJSONSize (values : list Value) (depth size : Z) (b : jsonValueBudget) :=
  size_items depth true values (size + jsonContainerBytes)
    (mkJB (jnodes b) (jfields b + Z.of_nat (length values))).

Definition size_entries (depth : Z) :=
  fix go (first : bool) (l : list (string * Value)) (size : Z) (b : jsonValueBudget)
      : result (Z * jsonValueBudget) :=
    match l with
    | [] => Ok (size, b)
    | (k, v) :: l =>
      '(n, b) ← taggedJSONSize v (depth + taggedChildDepth) b;
      let size := size + (quotedJSONSize k + 1 + n) in
      let size := if first then size else size + 1 in
      guard_err (maxDocumentBytes <? size) (limited "encoded JSON byte limit") ;;
      go false l size b
    end.
Definition taggedMapJSONSize (values : list (string * Value)) (depth size : Z) (b : jsonValueBudget) :=
  size_entries depth true values (size + jsonContainerBytes)
    (mkJB (jnodes b) (jfields b + Z.of_nat (length values))).
End size_containers.

Fixpoint taggedJSONSize (v : Value) (depth : Z) (b : jsonValueBudget) : result (Z * jsonValueBudget) :=
  let k := vKind v in
  let b := mkJB (jnodes b + taggedBaseNodes) (jfields b + 1) in
  let b := if bool_decide (k = valueKindNull) then b else mkJB (jnodes b + 1) (jfields b + 1) in
  guard_err ((taggedChildDepth * MaxValueDepth + 1 <? depth + 1) || (maxDomainNodes <? jnodes b)
             || (maxDomainFields <? jfields b)) (limited "tagged JSON structural limit") ;;
  let size := taggedObjectBytes + quotedJSONSize k in
  if bool_decide (k = valueKindNull) then Ok (size, b)
  else
    let size := size + taggedPayloadBytes in
    '(size, b) ←
      (if bool_decide (k = valueKindBool) then Ok (size + (if vBool v then 4 else 5), b)
       else if bool_decide (k = valueKindString) then Ok (size + quotedJSONSize (vString v), b)
       else if bool_decide (k = valueKindInt64) then Ok (size + quotedJSONSize (vInt v), b)
       else if bool_decide (k = valueKindUint64) then Ok (size + quotedJSONSize (vUint v), b)
       else if bool_decide (k = valueKindDouble) then Ok (size + blen (format_float (vDouble v)), b)
       else if bool_decide (k = valueKindTimestamp) then
         Ok (size + (jsonQuoteBytes + blen (format_rfc3339nano (timestamp_or_zero (vTimestamp v)))), b)
       else if bool_decide (k = valueKindList) then
         match vList v with
         | Some l => taggedListJSONSize taggedJSONSize l depth size b
         | None => taggedListJSONSize taggedJSONSize [] depth size b
         end
       else if bool_decide (k = valueKindMap) then
         match vMap v with
         | Some m => taggedMapJSONSize taggedJSONSize m depth size b
         | None => taggedMapJSONSize taggedJSONSize [] depth size b
         end
       else Ok (size, b));
    guard_err ((maxDocumentBytes <? size) || (maxDomainFields <? jfields b)) (limited "encoded JSON limit") ;;
    Ok (size, b).

Definition MarshalJSON `{Protowire} (v : Value) : outcome bytes :=
  (ValidateValue v : outcome unit) ;;
  (Some (taggedJSONSize v 0 (mkJB 0 0)) : outcome (Z * jsonValueBudget)) ;;
  Some (appendTagged v []).

(** ** Native values *)

(** [TimestampValue] of a time already in UTC. *)
Definition TimestampValue (t : Time) : Value :=
  mkValue valueKindTimestamp false "" "" "" zero_float (timestamp_text t) None None.

Definition unsupported (detail : string) : error := NewError "UNSUPPORTED" detail.

Definition int_value (n : Z) : Value :=
  mkValue valueKindInt64 false "" (format_int n) "" zero_float "" None None.
Definition uint_value (n : Z) : Value :=
  mkValue valueKindUint64 false "" "" (format_uint n) zero_float "" None None.
Definition double_value (x : float64) : Value :=
  mkValue valueKindDouble false "" "" "" x "" None None.

(** The integer widths share one formatting, so one constructor per sign. *)
Definition nativeScalarValue (raw : any) : result Value :=
  match raw with
  | ANil => Ok (tagged_zero valueKindNull)
  | ABool b => Ok (mkValue valueKindBool b "" "" "" zero_float "" None None)
  | AInt n => Ok (int_value n)
  | AUint n => Ok (uint_value n)
  | AFloat x => Ok (double_value x)
  | ATime t => Ok (TimestampValue t)
  | _ => Err (unsupported "unsupported native value type")
  end.

Definition float_syntax (c : ascii) : bool := Ascii.eqb c "." || is_exp c.

Definition nativeJSONNumber (s : string) : result Value :=
  let b := bytes_of s in
  guard_err (negb (json_Valid b)) (invalid "invalid native JSON number") ;;
  if existsb float_syntax b then
    match parse_float b with
    | Some f => Ok (double_value f)
    | None => Err (invalid "native double out of range")
    end
  else
    match parse_int64 s with
    | Some n => Ok (int_value n)
    | None =>
      match parse_uint64 s with
      | Some n => Ok (uint_value n)
      | None => Err (invalid "native integer out of range")
      end
    end.

Record nativeValueConverter := mkNC { cnodes : Z; cbytes : Z }.

Section convert_containers.
Context (convert : any → Z → nativeValueConverter → result (Value * nativeValueConverter)).

Definition convert_items (depth : Z) :=
  fix go (l : list any) (c : nativeValueConverter) : result (list Value * nativeValueConverter) :=
    match l with
    | [] => Ok ([], c)
    | raw :: l =>
      '(e, c) ← convert raw (depth + 1) c;
      '(es, c) ← go l c;
      Ok (e :: es, c)
    end.
Definition convert_list (values : list any) (depth : Z) (c : nativeValueConverter)
    : result (Value * nativeValueConverter) :=
  guard_err (maxDomainNodes - cnodes c <? Z.of_nat (length values)) (limited "native list limit") ;;
  '(es, c) ← convert_items depth values c;
  Ok (mkValue valueKindList false "" "" "" zero_float "" (Some es) None, c).

Definition convert_members (depth : Z) :=
  fix go (m : list (string * any)) (c : nativeValueConverter)
      : result (list (string * Value) * nativeValueConverter) :=
    match m with
    | [] => Ok ([], c)
    | (k, raw) :: m =>
      let c := mkNC (cnodes c) (cbytes c + slen k) in
      guard_err (maxDocumentBytes <? cbytes c) (limited "native value byte limit") ;;
      text k false ;;
      '(e, c) ← convert raw (depth + 1) c;
      '(es, c) ← go m c;
      Ok ((k, e) :: es, c)
    end.
Definition convert_map (values : list (string * any)) (depth : Z) (c : nativeValueConverter)
    : result (Value * nativeValueConverter) :=
  guard_err (maxDomainNodes - cnodes c <? Z.of_nat (length values)) (limited "native map limit") ;;
  '(es, c) ← convert_members depth values c;
  Ok (mkValue valueKindMap false "" "" "" zero_float "" None (Some es), c).
End convert_containers.

Fixpoint convert (raw : any) (depth : Z) (c : nativeValueConverter)
    : result (Value * nativeValueConverter) :=
  let c := mkNC (cnodes c + 1) (cbytes c) in
  guard_err ((maxDomainDepth <? depth) || (maxDomainNodes <? cnodes c))
    (limited "native value complexity limit") ;;
  '(v, c) ←
    match raw with
    | AString x =>
      Ok (mkValue valueKindString false x "" "" zero_float "" None None,
          mkNC (cnodes c) (cbytes c + slen x))
    | ANumber x =>
      let c := mkNC (cnodes c) (cbytes c + slen x) in
      guard_err (maxDocumentBytes <? cbytes c) (limited "native number byte limit") ;;
      v ← nativeJSONNumber x; Ok (v, c)
    | AList x => convert_list convert x depth c
    | AMap x => convert_map convert x depth c
    | raw => v ← nativeScalarValue raw; Ok (v, c)
    end;
  guard_err (maxDocumentBytes <? cbytes c) (limited "native value byte limit") ;;
  Ok (v, c).

Definition ValueFromNative `{Protowire} (raw : any) : outcome Value :=
  '(v, _) ← (Some (convert raw 0 (mkNC 0 0)) : outcome (Value * nativeValueConverter));
  (ValidateValue v : outcome unit) ;;
  Some (Ok v).

Definition JSONToValue `{Protowire} (data : bytes) : outcome Value :=
  raw ← parseJSON data;
  v ← ValueFromNative raw;
  if bool_decide (vKind v = valueKindMap) then Some (Ok v)
  else fails (invalid "resource body root must be map").

(** The closure of [NativeFromValue]; [None] is its panic. *)
Fixpoint native_of (v : Value) : option any :=
  let k := vKind v in
  if bool_decide (k = valueKindNull) then Some ANil
  else if bool_decide (k = valueKindBool) then Some (ABool (vBool v))
  else if bool_decide (k = valueKindString) then Some (AString (vString v))
  else if bool_decide (k = valueKindInt64) then Some (AInt (ParseInt_value (vInt v)))
  else if bool_decide (k = valueKindUint64) then Some (AUint (ParseUint_value (vUint v)))
  else if bool_decide (k = valueKindDouble) then Some (AFloat (vDouble v))
  else if bool_decide (k = valueKindTimestamp) then Some (ATime (timestamp_or_zero (vTimestamp v)))
  else if bool_decide (k = valueKindList) then
    match vList v with
    | Some l => AList <$> mapM native_of l
    | None => Some (AList [])
    end
  else if bool_decide (k = valueKindMap) then
    match vMap v with
    | Some m => AMap <$> mapM (λ e, a ← native_of e.2; Some (e.1, a)) m
    | None => Some (AMap [])
    end
  else None.

Definition NativeFromValue `{Protowire} (v : Value) : outcome any :=
  (ValidateValue v : outcome unit) ;;
  match native_of v with Some a => Some (Ok a) | None => None end.

(** ** Exact sizes *)

Lemma blen_app a b : blen (a ++ b) = blen a + blen b.
Proof. unfold blen. rewrite length_app. lia. Qed.
Lemma blen_cons c b : blen (c :: b) = 1 + blen b.
Proof. unfold blen. cbn [length]. lia. Qed.
Lemma blen_nonneg b : 0 ≤ blen b.
Proof. unfold blen. lia. Qed.
Lemma blen_nil : blen [] = 0.
Proof. done. Qed.

Lemma quoted_size_body n : ∀ s size, (length s ≤ n)%nat →
  quoted_size s size = size + blen (json_string_body s).
Proof.
  induction n as [|n IH]; intros [|c t] size Hn; cbn [quoted_size json_string_body length] in *;
    rewrite ?blen_nil; try lia.
  unfold jsonShortEscapeBytes, jsonEscapeSize.
  destruct (short_escape c); [rewrite IH, !blen_cons by lia; lia|].
  destruct (html_byte c); [rewrite IH, blen_app by lia; unfold u00, blen; simpl; lia|].
  destruct (byte_val c <? jsonControlLimit);
    [rewrite IH, blen_app by lia; unfold u00, blen; simpl; lia|].
  destruct t as [|d [|e t']]; [rewrite IH, blen_cons by (simpl in *; lia); lia..|].
  destruct (line_separator c d e); [|rewrite IH, blen_cons by (simpl in *; lia); lia].
  rewrite IH by (simpl in *; lia). unfold blen. simpl. lia.
Qed.

(** [quotedJSONSize] is exact: for every string, whatever bytes it holds, it
    is the number of bytes [appendJSONString] appends. *)
Theorem quotedJSONSize_exact dst s :
  blen (appendJSONString dst s) = blen dst + quotedJSONSize s.
Proof.
  unfold appendJSONString, quotedJSONSize, jsonQuoteBytes.
  rewrite (quoted_size_body (length (bytes_of s))) by done.
  rewrite blen_app, blen_cons, blen_app. change (blen ["034"%char]) with 1. lia.
Qed.

Ltac blens := repeat (rewrite blen_app in * || rewrite blen_cons in * || rewrite blen_nil in * ).

(** The quoted text itself. *)
Definition quoted (s : string) : bytes := "034"%char :: json_string_body (bytes_of s) ++ ["034"%char].

Lemma quotedJSONSize_quoted s : quotedJSONSize s = blen (quoted s).
Proof.
  unfold quotedJSONSize, quoted, jsonQuoteBytes. rewrite (quoted_size_body (length (bytes_of s))) by done.
  rewrite blen_cons, blen_app. change (blen ["034"%char]) with 1. lia.
Qed.

(** The text [appendTagged] appends, without its limit. *)
Fixpoint comma_tail (l : list bytes) : bytes :=
  match l with [] => [] | x :: l => ","%char :: x ++ comma_tail l end.
Definition commas (l : list bytes) : bytes :=
  match l with [] => [] | x :: l => x ++ comma_tail l end.

(** Items from the first one on, or after an earlier one. *)
Definition items_text (first : bool) (l : list bytes) : bytes :=
  if first then commas l else comma_tail l.

Definition member_text (e : string * bytes) : bytes := quoted e.1 ++ ":"%char :: e.2.

Fixpoint tagged_text (v : Value) : bytes :=
  let k := vKind v in
  kind_prefix ++ quoted k ++
  if bool_decide (k = valueKindNull) then ["}"%char]
  else value_prefix ++
    (if bool_decide (k = valueKindBool) then format_bool (vBool v)
     else if bool_decide (k = valueKindString) then quoted (vString v)
     else if bool_decide (k = valueKindInt64) then quoted (vInt v)
     else if bool_decide (k = valueKindUint64) then quoted (vUint v)
     else if bool_decide (k = valueKindDouble) then format_float (vDouble v)
     else if bool_decide (k = valueKindTimestamp) then
       "034"%char :: format_rfc3339nano (timestamp_or_zero (vTimestamp v)) ++ ["034"%char]
     else if bool_decide (k = valueKindList) then
       "["%char :: commas (match vList v with Some l => map tagged_text l | None => [] end) ++ ["]"%char]
     else if bool_decide (k = valueKindMap) then
       "{"%char :: commas (map member_text (sort_entries
         (match vMap v with Some m => map (λ e, (e.1, tagged_text e.2)) m | None => [] end)))
       ++ ["}"%char]
     else [])
    ++ ["}"%char].

Lemma insert_entry_map {A B} (f : A → B) e l :
  insert_entry (e.1, f e.2) (map (λ e, (e.1, f e.2)) l) = map (λ e, (e.1, f e.2)) (insert_entry e l).
Proof.
  induction l as [|x l IH]; [done|]. cbn [insert_entry map fst snd]. case_match; [|done].
  cbn [map]. by rewrite IH.
Qed.

Lemma sort_entries_map {A B} (f : A → B) m :
  sort_entries (map (λ e, (e.1, f e.2)) m) = map (λ e, (e.1, f e.2)) (sort_entries m).
Proof.
  unfold sort_entries. induction m as [|e m IH]; [done|]. cbn [map foldr]. rewrite IH.
  apply (insert_entry_map f).
Qed.

Lemma insert_entry_perm {A} (e : string * A) l : insert_entry e l ≡ₚ e :: l.
Proof.
  induction l as [|x l IH]; [done|]. cbn [insert_entry]. case_match; [|done].
  rewrite IH. apply perm_swap.
Qed.
Lemma sort_entries_perm {A} (m : list (string * A)) : sort_entries m ≡ₚ m.
Proof.
  unfold sort_entries. induction m as [|e m IH]; [done|]. cbn [foldr]. by rewrite insert_entry_perm, IH.
Qed.

(** *** The encoder writes the text *)

Definition fits_text (dst t : bytes) : Prop := blen dst + blen t ≤ maxDocumentBytes.
Definition append_exact (v : Value) : Prop := ∀ dst,
  fits_text dst (tagged_text v) → appendTagged v dst = Ok (dst ++ tagged_text v).

Lemma append_items_exact l : Forall append_exact l → ∀ first dst,
  fits_text dst (items_text first (map tagged_text l)) →
  append_items appendTagged first l dst =
    Ok (dst ++ items_text first (map tagged_text l)).
Proof.
  unfold fits_text, items_text. induction 1 as [|v l Hv _ IH]; intros first dst Hf.
  - destruct first; cbn; by rewrite app_nil_r.
  - cbn [append_items map commas comma_tail] in *. pose proof (blen_nonneg (comma_tail (map tagged_text l))).
    rewrite Hv.
    + cbn [mbind res_bind]. rewrite IH.
      * destruct first; cbn [commas comma_tail]; by rewrite <- !app_assoc.
      * destruct first; blens; lia.
    + unfold fits_text. destruct first; blens; lia.
Qed.

Lemma append_members_exact (l : list (string * Value)) : Forall (λ e, append_exact e.2) l → ∀ first dst,
  let texts := map (λ e, member_text (e.1, tagged_text e.2)) l in
  fits_text dst (items_text first texts) →
  append_members first (map (λ e, (e.1, appendTagged e.2)) l) dst =
    Ok (dst ++ items_text first texts).
Proof.
  unfold fits_text, items_text. induction 1 as [|[k v] l Hv _ IH]; intros first dst Hf.
  - destruct first; cbn; by rewrite app_nil_r.
  - cbn [append_members map commas comma_tail fst snd] in *.
    set (texts := map _ l) in *. pose proof (blen_nonneg (comma_tail texts)).
    unfold appendJSONString. fold (quoted k).
    assert (Hdst : blen (if first then dst else dst ++ [","%char]) + blen (quoted k) + 1
                   + blen (tagged_text v) + blen (comma_tail texts) ≤ maxDocumentBytes).
    { unfold member_text in Hf. cbn [fst snd] in Hf. destruct first; blens; lia. }
    rewrite Hv.
    + cbn [mbind res_bind]. rewrite IH.
      * destruct first; unfold member_text; cbn [fst snd commas comma_tail];
          rewrite <- ?app_assoc; cbn [app]; rewrite <- ?app_assoc; done.
      * destruct first; blens; lia.
    + unfold fits_text. blens. lia.
Qed.

Lemma appendTagged_unfold k b s i u d t l m dst :
  appendTagged (mkValue k b s i u d t l m) dst =
  let dst := appendJSONString (dst ++ kind_prefix) k in
  if bool_decide (k = valueKindNull) then Ok (dst ++ ["}"%char])
  else
    let dst := dst ++ value_prefix in
    dst ←
      (if bool_decide (k = valueKindBool) then Ok (dst ++ format_bool b)
       else if bool_decide (k = valueKindString) then Ok (appendJSONString dst s)
       else if bool_decide (k = valueKindInt64) then Ok (appendJSONString dst i)
       else if bool_decide (k = valueKindUint64) then Ok (appendJSONString dst u)
       else if bool_decide (k = valueKindDouble) then Ok (dst ++ format_float d)
       else if bool_decide (k = valueKindTimestamp) then
         Ok (dst ++ "034"%char :: format_rfc3339nano (timestamp_or_zero t) ++ ["034"%char])
       else if bool_decide (k = valueKindList) then appendTaggedList appendTagged dst (listOf l)
       else if bool_decide (k = valueKindMap) then appendTaggedMap appendTagged dst (listOf m)
       else Ok dst);
    appendTaggedEnd dst.
Proof. destruct l, m; done. Qed.

Definition list_text (l : list Value) : bytes := "["%char :: commas (map tagged_text l) ++ ["]"%char].
Definition map_text (m : list (string * Value)) : bytes :=
  "{"%char :: commas (map (λ e, member_text (e.1, tagged_text e.2)) (sort_entries m)) ++ ["}"%char].

Definition payload_text k b s i u d t l m : bytes :=
  if bool_decide (k = valueKindBool) then format_bool b
  else if bool_decide (k = valueKindString) then quoted s
  else if bool_decide (k = valueKindInt64) then quoted i
  else if bool_decide (k = valueKindUint64) then quoted u
  else if bool_decide (k = valueKindDouble) then format_float d
  else if bool_decide (k = valueKindTimestamp) then
    "034"%char :: format_rfc3339nano (timestamp_or_zero t) ++ ["034"%char]
  else if bool_decide (k = valueKindList) then list_text (listOf l)
  else if bool_decide (k = valueKindMap) then map_text (listOf m)
  else [].

Lemma tagged_text_unfold k b s i u d t l m :
  tagged_text (mkValue k b s i u d t l m) =
  kind_prefix ++ quoted k ++
  if bool_decide (k = valueKindNull) then ["}"%char]
  else value_prefix ++ payload_text k b s i u d t l m ++ ["}"%char].
Proof.
  cbn [tagged_text vKind vBool vString vInt vUint vDouble vTimestamp vList vMap].
  unfold payload_text, list_text, map_text.
  assert (Hm : map member_text (sort_entries (map (λ e : string * Value, (e.1, tagged_text e.2)) (listOf m)))
    = map (λ e : string * Value, member_text (e.1, tagged_text e.2)) (sort_entries (listOf m))).
  { by rewrite sort_entries_map, map_map. }
  rewrite <- Hm. destruct l, m; done.
Qed.

Lemma append_list_exact l dst : Forall append_exact l →
  fits_text dst (list_text l) → appendTaggedList appendTagged dst l = Ok (dst ++ list_text l).
Proof.
  unfold fits_text, appendTaggedList, list_text. intros Hl Hf. blens.
  rewrite append_items_exact; [|done|unfold fits_text, items_text; blens; lia].
  cbn [mbind res_bind items_text]. by rewrite <- !app_assoc.
Qed.

Lemma append_map_exact m dst : Forall (λ e, append_exact e.2) m →
  fits_text dst (map_text m) → appendTaggedMap appendTagged dst m = Ok (dst ++ map_text m).
Proof.
  unfold fits_text, appendTaggedMap, map_text. intros Hm Hf. blens.
  rewrite (sort_entries_map appendTagged), append_members_exact.
  - cbn [mbind res_bind items_text]. by rewrite <- !app_assoc.
  - eapply Permutation_Forall; [symmetry; apply sort_entries_perm|done].
  - unfold fits_text, items_text. blens. lia.
Qed.

Lemma appendTaggedEnd_exact dst : blen dst + 1 ≤ maxDocumentBytes →
  appendTaggedEnd dst = Ok (dst ++ ["}"%char]).
Proof. intros H. unfold appendTaggedEnd. pass_guard by (blens; lia). done. Qed.

Lemma appendTagged_exact v : append_exact v.
Proof.
  induction v as [k b s i u d t l m Hl Hm] using Value_nested_ind. intros dst Hf.
  unfold fits_text in Hf. rewrite appendTagged_unfold. rewrite tagged_text_unfold in *. cbv zeta.
  unfold appendJSONString. fold (quoted k) (quoted s) (quoted i) (quoted u).
  case_bool_decide; [by rewrite <- !app_assoc|].
  set (d0 := ((dst ++ kind_prefix) ++ quoted k) ++ value_prefix).
  assert (Hd0 : blen d0 + blen (payload_text k b s i u d t l m) + 1 ≤ maxDocumentBytes)
    by (subst d0; blens; lia).
  match goal with |- ?p ≫= _ = _ =>
    assert (p = Ok (d0 ++ payload_text k b s i u d t l m)) as -> end.
  - unfold payload_text in *. repeat (case_bool_decide; [first [done|
      apply append_list_exact; [done|unfold fits_text; lia]|
      apply append_map_exact; [done|unfold fits_text; lia]]|]). by rewrite app_nil_r.
  - cbn [mbind res_bind]. rewrite appendTaggedEnd_exact by (blens; lia).
    subst d0. by rewrite <- !app_assoc.
Qed.

(** *** The size pass computes its length *)

Definition size_exact (v : Value) : Prop := ∀ depth b n b',
  taggedJSONSize v depth b = Ok (n, b') → n = blen (tagged_text v).

Lemma size_items_exact l : Forall size_exact l → ∀ depth first size b n b',
  size_items taggedJSONSize depth first l size b = Ok (n, b') →
  n = size + blen (items_text first (map tagged_text l)).
Proof.
  unfold items_text. induction 1 as [|v l Hv _ IH]; intros depth first size b n b' H; cbn [size_items] in H.
  - injection H as -> _. destruct first; cbn [map commas comma_tail]; blens; lia.
  - bind_inv H. destruct x as [nv b1]. apply Hv in Hm as ->. bind_inv H. apply IH in H as ->.
    destruct first; cbn [map commas comma_tail]; blens; lia.
Qed.

Lemma size_entries_exact m : Forall (λ e, size_exact e.2) m → ∀ depth first size b n b',
  size_entries taggedJSONSize depth first m size b = Ok (n, b') →
  n = size + blen (items_text first (map (λ e, member_text (e.1, tagged_text e.2)) m)).
Proof.
  unfold items_text. induction 1 as [|[k v] m Hv _ IH]; intros depth first size b n b' H;
    cbn [size_entries] in H.
  - injection H as -> _. destruct first; cbn [map commas comma_tail]; blens; lia.
  - bind_inv H. destruct x as [nv b1]. apply Hv in Hm as ->. bind_inv H. apply IH in H as ->.
    rewrite quotedJSONSize_quoted. unfold member_text.
    destruct first; cbn [map commas comma_tail fst snd]; blens; lia.
Qed.

(** The order of the members does not change the length. *)
Lemma blen_commas l : blen (commas l) = sum_of blen l + Z.max 0 (Z.of_nat (length l) - 1).
Proof.
  assert (Ht : ∀ l, blen (comma_tail l) = sum_of blen l + Z.of_nat (length l)).
  { induction l0 as [|x l0 IH]; [done|]. cbn [comma_tail sum_of length]. blens. lia. }
  destruct l as [|x l]; [done|]. cbn [commas sum_of length]. blens. rewrite Ht. lia.
Qed.
Lemma blen_commas_perm l l' : l ≡ₚ l' → blen (commas l) = blen (commas l').
Proof. intros H. rewrite !blen_commas, (sum_of_perm _ _ _ H), (Permutation_length H). done. Qed.

Lemma taggedJSONSize_unfold k bo s i u d t l m depth b :
  taggedJSONSize (mkValue k bo s i u d t l m) depth b =
  let b := mkJB (jnodes b + taggedBaseNodes) (jfields b + 1) in
  let b := if bool_decide (k = valueKindNull) then b else mkJB (jnodes b + 1) (jfields b + 1) in
  guard_err ((taggedChildDepth * MaxValueDepth + 1 <? depth + 1) || (maxDomainNodes <? jnodes b)
             || (maxDomainFields <? jfields b)) (limited "tagged JSON structural limit") ;;
  let size := taggedObjectBytes + quotedJSONSize k in
  if bool_decide (k = valueKindNull) then Ok (size, b)
  else
    let size := size + taggedPayloadBytes in
    '(size, b) ←
      (if bool_decide (k = valueKindBool) then Ok (size + (if bo then 4 else 5), b)
       else if bool_decide (k = valueKindString) then Ok (size + quotedJSONSize s, b)
       else if bool_decide (k = valueKindInt64) then Ok (size + quotedJSONSize i, b)
       else if bool_decide (k = valueKindUint64) then Ok (size + quotedJSONSize u, b)
       else if bool_decide (k = valueKindDouble) then Ok (size + blen (format_float d), b)
       else if bool_decide (k = valueKindTimestamp) then
         Ok (size + (jsonQuoteBytes + blen (format_rfc3339nano (timestamp_or_zero t))), b)
       else if bool_decide (k = valueKindList) then taggedListJSONSize taggedJSONSize (listOf l) depth size b
       else if bool_decide (k = valueKindMap) then taggedMapJSONSize taggedJSONSize (listOf m) depth size b
       else Ok (size, b));
    guard_err ((maxDocumentBytes <? size) || (maxDomainFields <? jfields b)) (limited "encoded JSON limit") ;;
    Ok (size, b).
Proof. destruct l, m; done. Qed.

Lemma taggedJSONSize_exact v : size_exact v.
Proof.
  induction v as [k bo s i u d t l m Hl Hm] using Value_nested_ind. intros depth b n b' H.
  rewrite taggedJSONSize_unfold in H. cbv zeta in H. rewrite tagged_text_unfold.
  apply bind_ok in H as (_ & _ & H). rewrite quotedJSONSize_quoted in H.
  assert (Hk : blen kind_prefix = 8) by done. assert (Hv : blen value_prefix = 9) by done.
  unfold taggedObjectBytes, taggedPayloadBytes in H.
  case_bool_decide; [injection H as <- _; blens; lia|].
  apply bind_ok in H as ([size b1] & Hp & H). cbn beta iota in H.
  apply bind_ok in H as (_ & _ & H). injection H as <- _. blens. rewrite Hk, Hv.
  enough (size = 18 + blen (quoted k) + blen (payload_text k bo s i u d t l m)) by lia.
  unfold payload_text. rewrite ?quotedJSONSize_quoted in Hp.
  repeat (case_bool_decide; [first
    [injection Hp as <- _; unfold jsonQuoteBytes; try destruct bo; blens; first [lia|unfold blen; simpl; lia]|
     apply size_items_exact in Hp; [|done]; unfold items_text, list_text, jsonContainerBytes in *; blens; lia|
     apply size_entries_exact in Hp; [|done]]|]).
  - unfold items_text, map_text, jsonContainerBytes in *. blens.
    rewrite (blen_commas_perm _ _ (Permutation_map _ (sort_entries_perm (listOf m)))). lia.
  - injection Hp as <- _. blens. lia.
Qed.

Lemma taggedJSONSize_limit v depth b0 n b :
  taggedJSONSize v depth b0 = Ok (n, b) → n ≤ maxDocumentBytes.
Proof.
  destruct v as [k bo s i u d t l m]. rewrite taggedJSONSize_unfold. cbv zeta. intros Hs.
  apply bind_ok in Hs as (_ & _ & Hs). destruct (decide (k = valueKindNull)) as [->|Hk].
  - injection Hs as <- _. vm_compute. discriminate.
  - rewrite (bool_decide_false (k = valueKindNull)) in Hs by done.
    apply bind_ok in Hs as ([size b1] & Hp & Hs). cbn beta iota in Hs.
    apply bind_ok in Hs as (? & Hg%guard_err_ok & Hs). injection Hs as <- _. by propify.
Qed.

(** [MarshalJSON] allocates exactly what it writes: when the size pass
    succeeds, appending succeeds too and the text has precisely the computed
    length, so the buffer is never grown and the encoder's own limit never
    fires; the length is the same for every map iteration order. *)
Theorem MarshalJSON_size `{Protowire} v n b :
  ValidateValue v = Some (Ok tt) → taggedJSONSize v 0 (mkJB 0 0) = Ok (n, b) →
  ∃ out, MarshalJSON v = Some (Ok out) ∧ blen out = n ∧ n ≤ maxDocumentBytes.
Proof.
  intros Hv Hs. pose proof (taggedJSONSize_exact v _ _ _ _ Hs) as ->.
  pose proof (taggedJSONSize_limit v _ _ _ _ Hs) as Hle.
  exists (tagged_text v). unfold MarshalJSON. rewrite Hv, Hs. cbn [mbind outcome_bind].
  rewrite appendTagged_exact by (unfold fits_text; done). done.
Qed.

#[local] Instance protowire_sample : Protowire := {|
  SizeVarint n := varintSize (n mod 2 ^ 64);
  EncodeZigZag n := if n <? 0 then - 2 * n - 1 else 2 * n
|}.

Definition marshal_sample : Value :=
  sample_map [("b", sample_int); ("a&", sample_list);
              ("t", mkValue "timestamp" false "" "" "" zero_float "2024-02-29T12:00:00.500+01:00" None None);
              ("d", mkValue "double" false "" "" "" (f64_of_Z (-3)) "" None None)].

Lemma MarshalJSON_size_witness :
  ∃ out, MarshalJSON marshal_sample = Some (Ok out) ∧ blen out = 202 ∧ 202 ≤ maxDocumentBytes.
Proof.
  apply (MarshalJSON_size marshal_sample 202 (mkJB 17 16)); vm_compute; reflexivity.
Defined.

(** ** Timestamps *)

Lemma byte_is_iff b i c : byte_is b i c = true ↔ byte_at b i = c.
Proof. unfold byte_is. apply Ascii.eqb_eq. Qed.

Definition stamp_seps : list (nat * ascii) :=
  [(4%nat, "-"); (7%nat, "-"); (10%nat, "T"); (13%nat, ":"); (16%nat, ":")]%char.

(** A byte that is neither a digit nor a separator is in none of the first 19 places. *)
Lemma stamp_free b c :
  forallb (λ i, is_digit (byte_at b i)) timestamp_digits = true →
  Forall (λ e, byte_at b e.1 = e.2) stamp_seps →
  is_digit c = false → c ∉ ["-"; "T"; ":"]%char → ∀ i, (i < 19)%nat → byte_at b i ≠ c.
Proof.
  intros Hd Hs Hc Hn i Hi. unfold timestamp_digits, stamp_seps in *. cbn [forallb] in Hd.
  repeat match goal with H : _ && _ = true |- _ => apply andb_true_iff in H as [? ?] end.
  repeat match goal with H : Forall _ _ |- _ => apply Forall_cons in H as [? ?] end. cbn [fst snd] in *.
  do 19 (destruct i as [|i]; [first
    [intros <-; congruence
    |match goal with H : byte_at _ _ = _ |- _ => rewrite H; intros <-; apply Hn; set_solver end]|]).
  lia.
Qed.

Lemma timestamp_guards s t : timestamp s = Ok t →
  (20 ≤ length (bytes_of s))%nat
  ∧ forallb (λ i, is_digit (byte_at (bytes_of s) i)) timestamp_digits = true
  ∧ Forall (λ e, byte_at (bytes_of s) e.1 = e.2) stamp_seps
  ∧ validateTimestampPrecision (bytes_of s) = Ok tt
  ∧ ∃ y, parse_rfc3339nano (bytes_of s) = Some (y, t) ∧ year_bad (utc_year t) = false.
Proof.
  unfold timestamp. intros H. bind_inv H. unfold slen in *.
  destruct (parse_rfc3339nano (bytes_of s)) as [[y t']|] eqn:E; [|done]. bind_inv H. injection H as ->.
  propify. repeat match goal with H : byte_is _ _ _ = true |- _ => apply byte_is_iff in H end.
  split_and!; [lia|done| | |eauto].
  - unfold stamp_seps. repeat constructor; done.
  - by match goal with H : validateTimestampPrecision _ = Ok ?u |- _ => destruct u end.
Qed.

Lemma list_find_none_prefix {A} (P : A → Prop) `{∀ x, Decision (P x)} l r :
  (∀ i x, l !! i = Some x → ¬ P x) →
  list_find P (l ++ r) = prod_map (λ n, n + length l)%nat id <$> list_find P r.
Proof.
  intros Hn. apply list_find_app_r. apply list_find_None, Forall_lookup. eauto.
Qed.

Lemma byte_at_take b n i x : take n b !! i = Some x → (i < n)%nat ∧ byte_at b i = x.
Proof. intros [H Hi]%lookup_take_Some. split; [done|]. unfold byte_at. by rewrite H. Qed.

(** At most nine fraction digits are below a second. *)
Lemma nanos_of_bound ds : forallb is_digit ds = true → (length ds ≤ 9)%nat →
  0 ≤ nanos_of ds < 1000000000.
Proof.
  intros Hd Hl. unfold nanos_of. pose proof (digits_number_bound ds Hd) as Hb.
  assert (0 < 10 ^ (9 - Z.of_nat (length ds))) by (apply Z.pow_pos_nonneg; lia).
  assert (10 ^ Z.of_nat (length ds) * 10 ^ (9 - Z.of_nat (length ds)) = 1000000000) as <-
    by (rewrite <- Z.pow_add_r by lia; by replace (Z.of_nat (length ds) + (9 - Z.of_nat (length ds))) with 9 by lia).
  nia.
Qed.

Lemma span_digits_digits b : forallb is_digit (span_digits b).1 = true.
Proof.
  induction b as [|c b IH]; [done|]. simpl. destruct (is_digit c) eqn:E; [|done].
  destruct (span_digits b). simpl in *. by rewrite E.
Qed.

Lemma parse_fraction_nanos b n r : parse_fraction b = (n, r) →
  (∀ t, b = "."%char :: t → (length (span_digits t).1 ≤ 9)%nat) → 0 ≤ n < 1000000000.
Proof.
  intros H Hl. destruct b as [|c t]; [by injection H as <- _|].
  destruct (decide (c = "."%char)) as [->|Hc].
  - destruct t as [|c t]; [by injection H as <- _|]. cbn [parse_fraction] in H.
    destruct (is_digit c) eqn:E; [|by injection H as <- _].
    specialize (Hl _ eq_refl). pose proof (span_digits_digits (c :: t)) as Hd.
    destruct (span_digits (c :: t)) as [ds r'] eqn:Es. injection H as <- _.
    by apply nanos_of_bound.
  - assert (parse_fraction (c :: t) = (0, c :: t)) as Hz
      by by destruct c as [[] [] [] [] [] [] [] []].
    rewrite Hz in H. by injection H as <- _.
Qed.

Lemma timestamp_range s t : timestamp s = Ok t → year_ok t ∧ nanos_ok t.
Proof.
  intros Ht. destruct (timestamp_guards s t Ht) as (Hlen & Hd & Hs & Hp & y & Hparse & Hy).
  set (b := bytes_of s) in *. split; [unfold year_bad in Hy; propify; unfold year_ok; lia|].
  unfold parse_rfc3339nano in Hparse. case_match; [done|].
  destruct (parse_fraction (drop 19 b)) as [n r] eqn:Ef.
  apply bind_Some in Hparse as (off & _ & [= _ <-]). unfold nanos_ok. cbn [Nanosecond].
  eapply parse_fraction_nanos; [exact Ef|]. intros t0 Ht0.
  unfold validateTimestampPrecision, index_byte in Hp.
  rewrite <- (take_drop 19 b) in Hp at 1. rewrite list_find_none_prefix in Hp.
  - rewrite Ht0 in Hp. cbn [list_find] in Hp. rewrite decide_True in Hp by done.
    cbn [fmap option_fmap option_map prod_map fst id] in Hp. rewrite length_take_le in Hp by lia.
    replace (S (0 + 19)) with (19 + 1)%nat in Hp by done. rewrite <- drop_drop, Ht0 in Hp.
    apply guard_err_iff in Hp. apply orb_false_iff in Hp as [_ Hp]. cbn [drop] in Hp.
    apply Nat.ltb_ge in Hp. done.
  - intros i x [Hi <-]%byte_at_take Hx. by apply (stamp_free b "." Hd Hs eq_refl) in Hx; [|set_solver|].
Qed.

Lemma format_bytes t : year_ok t →
  ∃ y m d s, format_rfc3339nano t = stamp y m d s ++ tail_text (Nanosecond t).
Proof.
  intros Hy. pose proof (format_stamp t Hy) as Hf.
  destruct (civil_from_days (Unix t / 86400)) as [[y m] d]. eauto.
Qed.

Lemma digits_not_in c ds : forallb is_digit ds = true → is_digit c = false → c ∉ ds.
Proof.
  intros Hd Hc Hin. apply list_elem_of_In in Hin. apply (proj1 (List.forallb_forall _ _) Hd) in Hin.
  congruence.
Qed.

Lemma stamp_bytes y m d s :
  Forall (λ c, is_digit c = true ∨ c ∈ ["-"; "T"; ":"]%char) (stamp y m d s).
Proof.
  unfold stamp. cbn [pad_digits app].
  repeat (apply Forall_cons; split;
    [first [left; apply num_is_digit|right; apply list_elem_of_In; simpl; by auto 10]|]).
  apply Forall_nil; exact I.
Qed.

Lemma stamp_free_of c y m d s : is_digit c = false → c ∉ ["-"; "T"; ":"]%char → c ∉ stamp y m d s.
Proof.
  intros Hc Hn Hin. pose proof (stamp_bytes y m d s) as Hs. rewrite Forall_forall in Hs.
  destruct (Hs c Hin); [congruence|done].
Qed.

Lemma tail_length n : 0 ≤ n < 1000000000 → (1 ≤ length (tail_text n) ≤ 11)%nat.
Proof.
  intros Hn. unfold tail_text. destruct (n =? 0) eqn:E; propify; [simpl; lia|].
  destruct (fraction_digits n ltac:(lia)) as (_ & Hl & _). rewrite length_app. cbn [length]. lia.
Qed.

Lemma tail_no_comma n : 0 ≤ n < 1000000000 → ","%char ∉ tail_text n.
Proof.
  intros Hn. unfold tail_text. destruct (n =? 0) eqn:E; propify; [set_solver|].
  destruct (fraction_digits n ltac:(lia)) as (Hd & _ & _).
  rewrite not_elem_of_app, not_elem_of_cons. split_and!; [done|by apply digits_not_in|set_solver].
Qed.

Lemma tail_precision n p : 0 ≤ n < 1000000000 → "."%char ∉ p →
  validateTimestampPrecision (p ++ tail_text n) = Ok tt.
Proof.
  intros Hn Hp. unfold validateTimestampPrecision, index_byte.
  rewrite list_find_none_prefix.
  2:{ intros i x Hi ->. apply Hp. by eapply list_elem_of_lookup_2. }
  unfold tail_text. destruct (n =? 0) eqn:E; propify; [done|].
  destruct (fraction_digits n ltac:(lia)) as (Hd & Hl & _). set (ts := trim_zeros _) in *.
  cbn [app list_find]. rewrite decide_True by done. cbn [fmap option_fmap option_map prod_map fst id].
  replace (S (0 + length p)) with (length p + 1)%nat by lia. rewrite <- drop_drop, drop_app_length.
  change (drop 1 ("."%char :: ts ++ ["Z"%char])) with (ts ++ ["Z"%char]).
  rewrite span_digits_app by done. cbn [fst]. apply guard_err_iff.
  apply orb_false_iff. rewrite !Nat.ltb_ge. unfold maxFractionDigits. lia.
Qed.

Lemma not_separator c : is_digit c = false → bool_decide (c ∉ ["-"; "T"; ":"]%char) = true →
  ∀ y m d s, c ∉ stamp y m d s.
Proof. intros Hc Hn y m d s. apply stamp_free_of; [done|]. by apply bool_decide_eq_true in Hn. Qed.

Lemma format_no_comma t : year_ok t → nanos_ok t → ","%char ∉ format_rfc3339nano t.
Proof.
  intros Hy Hn. destruct (format_bytes t Hy) as (y & m & d & s & ->).
  rewrite not_elem_of_app. split; [by apply not_separator|by apply tail_no_comma].
Qed.

Lemma stamp_shape y m d s r :
  let b := stamp y m d s ++ r in
  byte_is b 4 "-" && byte_is b 7 "-" && byte_is b 10 "T" && byte_is b 13 ":" && byte_is b 16 ":" = true
  ∧ forallb (λ i, is_digit (byte_at b i)) timestamp_digits = true.
Proof.
  unfold byte_is, byte_at, stamp, timestamp_digits.
  cbn [pad_digits app lookup list_lookup default from_option id forallb].
  by rewrite !num_is_digit.
Qed.

Lemma format_zone t : year_ok t → validateTimestampZone (format_rfc3339nano t) = Ok tt.
Proof.
  intros Hy. destruct (format_bytes t Hy) as (y & m & d & s & ->).
  unfold tail_text. rewrite app_assoc. generalize (stamp y m d s ++
    (if Nanosecond t =? 0 then [] else "."%char :: trim_zeros (pad_digits 9 (Nanosecond t)))) as p.
  intros p. unfold validateTimestampZone.
  assert (byte_is (p ++ ["Z"%char]) (length (p ++ ["Z"%char]) - 1) "Z" = true) as ->; [|done].
  apply byte_is_iff. unfold byte_at. rewrite length_app, lookup_app_r by (simpl; lia).
  by replace (length p + length ["Z"%char] - 1 - length p)%nat with O by (simpl; lia).
Qed.

Lemma timestamp_text_parses t : year_ok t → nanos_ok t → timestamp (timestamp_text t) = Ok t.
Proof.
  intros Hy Hn. unfold timestamp, timestamp_text, slen. rewrite bytes_of_string_of.
  rewrite (parse_format t Hy Hn), (format_zone t Hy).
  pose proof (format_no_comma t Hy Hn). pose proof (tail_length _ Hn).
  destruct (format_bytes t Hy) as (y & m & d & s & Hf).
  destruct (stamp_shape y m d s (tail_text (Nanosecond t))) as [Hsep Hdig]. rewrite <- Hf in *.
  assert (Hp : validateTimestampPrecision (format_rfc3339nano t) = Ok tt)
    by (rewrite Hf; apply tail_precision; [done|by apply not_separator]).
  assert (Hlen : length (format_rfc3339nano t) = (19 + length (tail_text (Nanosecond t)))%nat)
    by (rewrite Hf, length_app; done).
  pass_guard by lia. pass_guard by done. rewrite Hsep, Hdig, Hp. cbn [negb guard_err mbind res_bind].
  pass_guard by (unfold year_bad, year_ok in *; apply orb_false_iff; rewrite !Z.ltb_ge; lia).
  done.
Qed.

(** Timestamps are canonicalised without loss: formatting any accepted
    timestamp as UTC RFC 3339 gives a text that is accepted and denotes the
    same instant to the nanosecond, whatever zone offset, fraction length or
    trailing zeros the original used. *)
Theorem timestamp_canonical s t :
  timestamp s = Ok t → timestamp (timestamp_text t) = Ok t.
Proof. intros Ht. destruct (timestamp_range s t Ht). by apply timestamp_text_parses. Qed.

Lemma timestamp_canonical_witness :
  timestamp "2024-03-01T00:30:00.120+02:00" = Ok (mkTime 1709245800 120000000)
  ∧ timestamp_text (mkTime 1709245800 120000000) = "2024-02-29T22:30:00.12Z"
  ∧ timestamp (timestamp_text (mkTime 1709245800 120000000)) = Ok (mkTime 1709245800 120000000).
Proof.
  assert (H : timestamp "2024-03-01T00:30:00.120+02:00" = Ok (mkTime 1709245800 120000000))
    by (vm_compute; reflexivity).
  split; [exact H|]. split; [vm_compute; reflexivity|]. exact (timestamp_canonical _ _ H).
Defined.

(** ** Native round trip *)

(** What a value becomes through Go's native types: empty containers are
    nonnil and timestamps are in canonical text. *)
Fixpoint normalize (v : Value) : Value :=
  let k := vKind v in
  mkValue k (vBool v) (vString v) (vInt v) (vUint v) (vDouble v)
    (if bool_decide (k = valueKindTimestamp) then timestamp_text (timestamp_or_zero (vTimestamp v))
     else vTimestamp v)
    (if bool_decide (k = valueKindList)
     then Some (match vList v with Some l => map normalize l | None => [] end) else vList v)
    (if bool_decide (k = valueKindMap)
     then Some (match vMap v with Some m => map (λ e, (e.1, normalize e.2)) m | None => [] end)
     else vMap v).

Definition fits_native (v : Value) (depth : Z) (c : nativeValueConverter) : Prop :=
  depth + value_depth v ≤ maxDomainDepth ∧ cnodes c + value_nodes v ≤ maxDomainNodes
  ∧ cbytes c + value_bytes v ≤ maxDocumentBytes.

(** The native form of [v] converts back, charging what [v] measures. *)
Definition native_exact (v : Value) : Prop := ∃ a, native_of v = Some a ∧
  ∀ depth c, fits_native v depth c →
    convert a depth c = Ok (normalize v, mkNC (cnodes c + value_nodes v) (cbytes c + value_bytes v)).

Lemma native_items_exact l : Forall native_exact l →
  ∃ es, mapM native_of l = Some es ∧ length es = length l ∧ ∀ depth c,
    depth + max_of (λ v, 1 + value_depth v) l ≤ maxDomainDepth →
    cnodes c + sum_of value_nodes l ≤ maxDomainNodes →
    cbytes c + sum_of value_bytes l ≤ maxDocumentBytes →
    convert_items convert depth es c =
      Ok (map normalize l, mkNC (cnodes c + sum_of value_nodes l) (cbytes c + sum_of value_bytes l)).
Proof.
  induction 1 as [|v l (a & Ha & Hv) _ (es & Hes & Hlen & IH)].
  - exists []. split_and!; [done..|]. intros depth [] _ _ _. cbn. by rewrite !Z.add_0_r.
  - exists (a :: es). cbn [mapM]. rewrite Ha. cbn [mbind option_bind]. rewrite Hes. cbn [length].
    split_and!; [done|lia|]. intros depth c Hd Hn Hb. cbn [sum_of max_of convert_items map] in *.
    pose proof (nodes_of_list l). pose proof (max_of_nonneg (λ v, 1 + value_depth v) l).
    rewrite Hv by (unfold fits_native; lia). cbn [mbind res_bind].
    rewrite IH by (cbn [cnodes cbytes]; lia). cbn [mbind res_bind cnodes cbytes]. by rewrite !Z.add_assoc.
Qed.

Lemma native_members_exact (m : list (string * Value)) :
  Forall (λ e, utf8_valid_string e.1 = true ∧ native_exact e.2) m →
  ∃ es, mapM (λ e, a ← native_of e.2; Some (e.1, a)) m = Some es ∧ length es = length m ∧ ∀ depth c,
    depth + max_of (λ e, 1 + value_depth e.2) m ≤ maxDomainDepth →
    cnodes c + sum_of (λ e, value_nodes e.2) m ≤ maxDomainNodes →
    cbytes c + sum_of (λ e, slen e.1 + value_bytes e.2) m ≤ maxDocumentBytes →
    convert_members convert depth es c =
      Ok (map (λ e, (e.1, normalize e.2)) m,
          mkNC (cnodes c + sum_of (λ e, value_nodes e.2) m)
               (cbytes c + sum_of (λ e, slen e.1 + value_bytes e.2) m)).
Proof.
  induction 1 as [|[k v] m (Hk & a & Ha & Hv) _ (es & Hes & Hlen & IH)].
  - exists []. split_and!; [done..|]. intros depth [] _ _ _. cbn. by rewrite !Z.add_0_r.
  - exists ((k, a) :: es). cbn [mapM fst snd] in *. rewrite Ha. cbn [mbind option_bind]. rewrite Hes.
    cbn [length]. split_and!; [done|lia|]. intros depth c Hd Hn Hb.
    cbn [sum_of max_of convert_members map fst snd cbytes cnodes] in *.
    pose proof (nodes_of_entries m). pose proof (max_of_nonneg (λ e : string * Value, 1 + value_depth e.2) m).
    pose proof (value_bytes_nonneg v). pass_guard. unfold text. rewrite Hk. cbn [negb orb andb guard_err mbind res_bind].
    rewrite Hv by (unfold fits_native; cbn [cnodes cbytes]; lia). cbn [mbind res_bind].
    rewrite IH by (cbn [cnodes cbytes]; lia). cbn [mbind res_bind cnodes cbytes]. by rewrite !Z.add_assoc.
Qed.

Lemma convert_guarded raw v c' depth c :
  depth ≤ maxDomainDepth → cnodes c + 1 ≤ maxDomainNodes → cbytes c' ≤ maxDocumentBytes →
  match raw with
  | AString x => Ok (mkValue valueKindString false x "" "" zero_float "" None None,
                     mkNC (cnodes c + 1) (cbytes c + slen x))
  | ANumber x =>
    guard_err (maxDocumentBytes <? cbytes c + slen x) (limited "native number byte limit") ;;
    v ← nativeJSONNumber x; Ok (v, mkNC (cnodes c + 1) (cbytes c + slen x))
  | AList x => convert_list convert x depth (mkNC (cnodes c + 1) (cbytes c))
  | AMap x => convert_map convert x depth (mkNC (cnodes c + 1) (cbytes c))
  | raw => v ← nativeScalarValue raw; Ok (v, mkNC (cnodes c + 1) (cbytes c))
  end = Ok (v, c') →
  convert raw depth c = Ok (v, c').
Proof.
  intros Hd Hn Hb Hm. destruct raw; cbn [convert cnodes cbytes]; pass_guard;
    first [rewrite Hm; cbn [mbind res_bind]; pass_guard; reflexivity
          |injection Hm as <- <-; pass_guard; reflexivity].
Qed.

Lemma ParseInt_format n : int64_range n → ParseInt_value (format_int n) = n.
Proof.
  unfold int64_range. intros Hn. pose proof (parse_format_int n Hn) as Hp.
  unfold ParseInt_value, parse_int64 in *.
  destruct (bytes_of (format_int n)) as [|c t]; [done|].
  destruct c as [[] [] [] [] [] [] [] []];
    (destruct (digits_value _) as [x|]; [|done]; cbn in Hp |- *; case_match; [|done];
     propify; injection Hp as <-; lia).
Qed.

Lemma ParseUint_format n : uint64_range n → ParseUint_value (format_uint n) = n.
Proof.
  unfold uint64_range. intros Hn. pose proof (parse_format_uint n Hn) as Hp.
  unfold ParseUint_value, parse_uint64 in *. destruct (digits_value _) as [x|]; [|done].
  cbn in Hp. case_match; [|done]. propify. injection Hp as <-. lia.
Qed.

Lemma leaf_charge v b n : listOf (vList v) = [] → listOf (vMap v) = [] →
  mkNC (n + value_nodes v) (b + value_bytes v) = mkNC (n + 1) (b + slen (vString v)).
Proof.
  intros Hl Hm. rewrite value_nodes_eq, value_bytes_eq, Hl, Hm. cbn [sum_of].
  by rewrite !Z.add_0_r.
Qed.

Lemma fits_native_shared v depth c : fits_native v depth c →
  depth ≤ maxDomainDepth ∧ cnodes c + 1 ≤ maxDomainNodes ∧ cbytes c + value_bytes v ≤ maxDocumentBytes.
Proof.
  unfold fits_native. pose proof (value_depth_nonneg v). rewrite (value_nodes_eq v).
  pose proof (nodes_of_list (listOf (vList v))). pose proof (nodes_of_entries (listOf (vMap v))). lia.
Qed.

(** Scalars, one node and at most one text. *)
Lemma native_leaf v raw : listOf (vList v) = [] → listOf (vMap v) = [] → native_of v = Some raw →
  (∀ depth c, cbytes c + value_bytes v ≤ maxDocumentBytes →
    match raw with
    | AString x => Ok (mkValue valueKindString false x "" "" zero_float "" None None,
                       mkNC (cnodes c + 1) (cbytes c + slen x))
    | ANumber x =>
      guard_err (maxDocumentBytes <? cbytes c + slen x) (limited "native number byte limit") ;;
      v ← nativeJSONNumber x; Ok (v, mkNC (cnodes c + 1) (cbytes c + slen x))
    | AList x => convert_list convert x depth (mkNC (cnodes c + 1) (cbytes c))
    | AMap x => convert_map convert x depth (mkNC (cnodes c + 1) (cbytes c))
    | raw => v ← nativeScalarValue raw; Ok (v, mkNC (cnodes c + 1) (cbytes c))
    end = Ok (normalize v, mkNC (cnodes c + 1) (cbytes c + slen (vString v)))) →
  native_exact v.
Proof.
  intros Hl Hm Hraw Hconv. exists raw. split; [done|]. intros depth c Hf%fits_native_shared.
  destruct Hf as (Hd & Hn & Hb). rewrite leaf_charge by done.
  apply convert_guarded; [done..| |by apply Hconv].
  cbn [cbytes]. rewrite value_bytes_eq, Hl, Hm in Hb. cbn [sum_of] in Hb. lia.
Qed.

Lemma slen_empty : slen "" = 0.
Proof. done. Qed.

Lemma native_of_list l : Forall native_exact (listOf l) →
  native_exact (mkValue valueKindList false "" "" "" zero_float "" l None).
Proof.
  intros Hl. destruct (native_items_exact _ Hl) as (es & Hes & Hlen & Hconv).
  exists (AList es). split; [destruct l; cbn [native_of vList vKind]; kinds;
    [change (listOf (Some l)) with l in Hes; by rewrite Hes|by injection Hes as <-]|].
  intros depth c Hf. pose proof (fits_native_shared _ _ _ Hf) as (Hd & Hn & Hb).
  destruct Hf as (Hd' & Hn' & Hb'). rewrite value_depth_eq in Hd'.
  rewrite value_nodes_eq, value_bytes_eq in *. cbn [vString vList vMap] in *.
  pose proof (nodes_of_list (listOf l)). unfold_empty. change (slen "") with 0 in *.
  pose proof (max_of_nonneg (λ e : string * Value, 1 + value_depth e.2) (listOf None)).
  change (sum_of _ (listOf None)) with 0 in *. 
  apply convert_guarded; cbn [cbytes]; try lia.
  unfold convert_list. cbn [cnodes]. rewrite Hlen. pass_guard.
  rewrite Hconv by (cbn [cnodes cbytes]; lia). cbn [mbind res_bind cnodes cbytes]. f_equal. f_equal.
  - by destruct l.
  - f_equal; lia.
Qed.

Lemma native_of_map m :
  Forall (λ e, utf8_valid_string e.1 = true ∧ native_exact e.2) (listOf m) →
  native_exact (mkValue valueKindMap false "" "" "" zero_float "" None m).
Proof.
  intros Hl. destruct (native_members_exact _ Hl) as (es & Hes & Hlen & Hconv).
  exists (AMap es). split; [destruct m; cbn [native_of vMap vKind]; kinds;
    [change (listOf (Some l)) with l in Hes; by rewrite Hes|by injection Hes as <-]|].
  intros depth c Hf. pose proof (fits_native_shared _ _ _ Hf) as (Hd & Hn & Hb).
  destruct Hf as (Hd' & Hn' & Hb'). rewrite value_depth_eq in Hd'.
  rewrite value_nodes_eq, value_bytes_eq in *. cbn [vString vList vMap] in *.
  pose proof (nodes_of_entries (listOf m)). unfold_empty. change (slen "") with 0 in *.
  pose proof (max_of_nonneg (λ v, 1 + value_depth v) (listOf None)).
  change (sum_of _ (listOf None)) with 0 in *.
  apply convert_guarded; cbn [cbytes]; try lia.
  unfold convert_map. cbn [cnodes]. rewrite Hlen. pass_guard.
  rewrite Hconv by (cbn [cnodes cbytes]; lia). cbn [mbind res_bind cnodes cbytes]. f_equal. f_equal.
  - by destruct m.
  - f_equal; lia.
Qed.

Lemma native_of_exact v : well_tagged v → native_exact v.
Proof.
  induction v as [k b s i u d t l m Hl Hm] using Value_nested_ind. intros Hw.
  assert (Hz : ∀ c, cbytes c + slen "" = cbytes c) by (intros; rewrite slen_empty; lia).
  inversion Hw; subst.
  - apply (native_leaf _ ANil); [done..|]. intros. cbn [vString tagged_zero]. by rewrite Hz.
  - apply (native_leaf _ (ABool b)); [done..|]. intros. cbn [vString]. by rewrite Hz.
  - by apply (native_leaf _ (AString s)).
  - apply (native_leaf _ (AInt n)); [done..|cbn [native_of vKind vInt]; kinds; by rewrite ParseInt_format|].
    intros. cbn [vString]. by rewrite Hz.
  - apply (native_leaf _ (AUint n)); [done..|cbn [native_of vKind vUint]; kinds; by rewrite ParseUint_format|].
    intros. cbn [vString]. by rewrite Hz.
  - apply (native_leaf _ (AFloat d)); [done..|]. intros. cbn [vString]. by rewrite Hz.
  - apply (native_leaf _ (ATime (timestamp_or_zero t))); [done..|]. intros. cbn [vString]. by rewrite Hz.
  - apply native_of_list. by eapply Forall_mp.
  - apply native_of_map. rewrite Forall_forall in *. intros e He.
    match goal with H : ∀ x, x ∈ listOf m → _ ∧ well_tagged _ |- _ => destruct (H e He) end. auto.
Qed.

(** Normalising keeps every measure the validator looks at. *)
Lemma normalize_well_tagged v : well_tagged v → well_tagged (normalize v).
Proof.
  induction v as [k b s i u d t l m Hl Hm] using Value_nested_ind. intros Hw.
  inversion Hw; subst; cbn [normalize vKind vBool vString vInt vUint vDouble vTimestamp vList vMap]; kinds;
    try (by constructor).
  - eapply WT_timestamp. unfold timestamp_or_zero.
    match goal with H : timestamp t = Ok _ |- _ => rewrite H;
      destruct (timestamp_range _ _ H); by apply timestamp_text_parses end.
  - constructor. change (listOf (Some ?x)) with x.
    assert (Forall well_tagged (map normalize (listOf l))) as HF; [|by destruct l].
    apply Forall_fmap. by eapply Forall_mp.
  - constructor. change (listOf (Some ?x)) with x.
    assert (Forall (λ e, utf8_valid_string e.1 = true ∧ well_tagged e.2)
              (map (λ e, (e.1, normalize e.2)) (listOf m))) as HF; [|by destruct m].
    apply Forall_fmap. rewrite Forall_forall in *. intros e He. cbn.
    match goal with H : ∀ x, x ∈ listOf m → _ ∧ well_tagged _ |- _ => destruct (H e He) end. auto.
Qed.

Lemma normalize_fields k b s i u d t l m :
  normalize (mkValue k b s i u d t l m) =
  mkValue k b s i u d
    (if bool_decide (k = valueKindTimestamp) then timestamp_text (timestamp_or_zero t) else t)
    (if bool_decide (k = valueKindList) then Some (map normalize (listOf l)) else l)
    (if bool_decide (k = valueKindMap) then Some (map (λ e, (e.1, normalize e.2)) (listOf m)) else m).
Proof. destruct l, m; done. Qed.

Lemma sum_of_map_ext {A} (f : A → Z) (g : A → A) l :
  Forall (λ a, f (g a) = f a) l → sum_of f (map g l) = sum_of f l.
Proof. induction 1; cbn [map sum_of]; lia. Qed.
Lemma max_of_map_ext {A} (f : A → Z) (g : A → A) l :
  Forall (λ a, f (g a) = f a) l → max_of f (map g l) = max_of f l.
Proof. induction 1; cbn [map max_of]; lia. Qed.

Lemma normalize_measures v :
  value_nodes (normalize v) = value_nodes v ∧ value_bytes (normalize v) = value_bytes v
  ∧ value_depth (normalize v) = value_depth v.
Proof.
  induction v as [k b s i u d t l m Hl Hm] using Value_nested_ind.
  rewrite normalize_fields, !value_nodes_eq, !value_bytes_eq, !value_depth_eq. cbn [vString vList vMap].
  assert (HL : ∀ f, Forall (λ v : Value, f (normalize v) = f v) (listOf l) →
    sum_of f (listOf (if bool_decide (k = valueKindList) then Some (map normalize (listOf l)) else l))
      = sum_of f (listOf l)) by (intros f Hf; destruct (bool_decide (k = valueKindList));
        [by apply sum_of_map_ext|done]).
  assert (HM : ∀ f, Forall (λ e : string * Value, f (e.1, normalize e.2) = f e) (listOf m) →
    sum_of f (listOf (if bool_decide (k = valueKindMap)
                      then Some (map (λ e, (e.1, normalize e.2)) (listOf m)) else m))
      = sum_of f (listOf m)) by (intros f Hf; destruct (bool_decide (k = valueKindMap));
        [by apply (sum_of_map_ext f (λ e, (e.1, normalize e.2)))|done]).
  rewrite !HL by (eapply Forall_impl; [exact Hl|]; naive_solver).
  rewrite !HM by (eapply Forall_impl; [exact Hm|]; intros [] ?; cbn in *; naive_solver lia).
  split_and!; [done..|]. f_equal.
  - destruct (bool_decide (k = valueKindList)); [|done]. apply (max_of_map_ext (λ v, 1 + value_depth v)).
    eapply Forall_impl; [exact Hl|]. naive_solver lia.
  - destruct (bool_decide (k = valueKindMap)); [|done].
    apply (max_of_map_ext (λ e : string * Value, 1 + value_depth e.2) (λ e, (e.1, normalize e.2))).
    eapply Forall_impl; [exact Hm|]. intros [] ?. cbn in *. naive_solver lia.
Qed.

Lemma add_sizes_map {A} (f : A → option Z) (g : A → A) l : Forall (λ a, f (g a) = f a) l →
  ∀ s, add_sizes f (map g l) s = add_sizes f l s.
Proof.
  induction 1 as [|a l Ha _ IH]; intros s; cbn [map add_sizes]; [done|].
  rewrite Ha. destruct (f a); [apply IH|done].
Qed.

Lemma normalize_wire_size `{Protowire} v : well_tagged v →
  valueWireSize (normalize v) = valueWireSize v.
Proof.
  induction v as [k b s i u d t l m Hl Hm] using Value_nested_ind. intros Hw.
  rewrite normalize_fields. inversion Hw; subst; kinds; try done.
  - match goal with H : timestamp t = Ok _ |- _ => rename H into Ht end.
    cbn [valueWireSize vKind vTimestamp]. kinds. destruct (timestamp_range _ _ Ht).
    assert (E : timestamp_or_zero t = t0) by (unfold timestamp_or_zero; by rewrite Ht). rewrite E.
    assert (timestamp_or_zero (timestamp_text t0) = t0) as ->; [|done].
    unfold timestamp_or_zero. by rewrite timestamp_text_parses.
  - rewrite (valueWireSize_listOf valueKindList _ _ _ _ _ _ (Some _) None),
      (valueWireSize_listOf valueKindList _ _ _ _ _ _ l None). kinds. change (listOf (Some ?x)) with x.
    rewrite (add_sizes_map (λ v, valueWireSize v ≫= messageFieldSize)); [done|].
    eapply Forall_impl; [eapply Forall_mp; [exact Hl|eassumption]|]. intros v Hv. cbn. by rewrite Hv.
  - rewrite (valueWireSize_listOf valueKindMap _ _ _ _ _ _ None (Some _)),
      (valueWireSize_listOf valueKindMap _ _ _ _ _ _ None m). kinds. change (listOf (Some ?x)) with x.
    rewrite (add_sizes_map (entry_size valueWireSize) (λ e, (e.1, normalize e.2))); [done|].
    rewrite Forall_forall in *. intros [k v] Hkv. unfold entry_size. cbn [fst snd].
    match goal with H : ∀ x, x ∈ listOf m → _ ∧ well_tagged _ |- _ => destruct (H _ Hkv) as [_ Hv] end.
    specialize (Hm _ Hkv Hv). cbn in Hm. by rewrite Hm.
Qed.

(** C26: Native values keep everything: every valid value converts to native Go
    types without error, and converting those back yields the same tagged value
    with integers digit for digit, doubles bit for bit, strings and nesting
    untouched, and timestamps at the same instant in canonical text. *)
Theorem native_roundtrip `{ProtowireLaws} v : ValidateValue v = Some (Ok tt) →
  ∃ a, NativeFromValue v = Some (Ok a) ∧ ValueFromNative a = Some (Ok (normalize v)).
Proof.
  intros Hv. pose proof Hv as (Hw & Hd & Hn & Hb & size & Hs & Hle)%ValidateValue_accepts.
  destruct (native_of_exact v Hw) as (a & Ha & Hconv). exists a. split.
  - unfold NativeFromValue. rewrite Hv, Ha. done.
  - unfold ValueFromNative. rewrite Hconv by (unfold fits_native; cbn; lia).
    cbn [mbind outcome_bind].
    assert (ValidateValue (normalize v) = Some (Ok tt)) as ->; [|done].
    destruct (normalize_measures v) as (En & Eb & Ed).
    apply ValidateValue_accepts. rewrite En, Eb, Ed, (normalize_wire_size v Hw).
    split_and!; try done; [by apply normalize_well_tagged|eauto].
Qed.

#[local] Instance protowire_sample_laws : ProtowireLaws.
Proof.
  split. intros n. cbn [SizeVarint protowire_sample].
  destruct (varintSize_bound (n mod 2 ^ 64)); [pose proof (Z.mod_pos_bound n (2 ^ 64) eq_refl); unfold uint64_range, max_uint64; lia|lia].
Qed.

Lemma native_roundtrip_witness : ∃ a, NativeFromValue marshal_sample = Some (Ok a) ∧
  ValueFromNative a = Some (Ok (normalize marshal_sample)).
Proof. apply (native_roundtrip marshal_sample). vm_compute. reflexivity. Defined.
