(* ===== verification/Budget.v ===== *)
(** * Structural budgets (pkg/resource/v2/validation.go, metadataBudget)

    The reflection walk that bounds nesting, nodes, fields and bytes of any
    request, response or metadata value before its semantic validation.

    [reflected] is what the walk sees of a Go value: its kind, its visible
    fields in declaration order, its elements and its map entries in this run's
    iteration order. [Reflect] gives that view of each modelled struct. *)
From S2P Require Import Prelude GoStd GoTime GoJson Errors Values Json TaggedJson.
Local Open Scope Z_scope.

Inductive reflected : Type :=
| RNil                                          (** a nil pointer or interface *)
| RRef (v : reflected)                          (** what a nonnil one holds *)
| RString (s : string)
| RFloat (x : float64)
| RScalar (zero : bool)                         (** booleans and integers *)
| RTime (localYear utcYear : Z)
| RValue (v : Value)
| RStruct (fields : list (bool * reflected))    (** visible fields; [true] marks omitempty *)
| RSeq (vs : list reflected)                    (** slices and arrays of nonbytes *)
| RBytes (raw : bool) (b : option bytes)        (** byte slices; [raw] is json.RawMessage *)
| RMap (entries : list (reflected * reflected)).

Class Reflect (A : Type) := reflect : A → reflected.

#[export] Instance reflect_string : Reflect string := RString.
#[export] Instance reflect_bool : Reflect bool := λ b, RScalar (negb b).
#[export] Instance reflect_float : Reflect float64 := RFloat.
#[export] Instance reflect_value : Reflect Value := RValue.
#[export] Instance reflect_pointer `{Reflect A} : Reflect (option A) := λ o,
  match o with None => RNil | Some a => RRef (reflect a) end.
#[export] Instance reflect_slice `{Reflect A} : Reflect (list A) := λ l, RSeq (map reflect l).
Definition reflect_uint (n : Z) : reflected := RScalar (n =? 0).
(** A slice that may be nil: nil and empty are walked alike. *)
Definition reflect_nilable `{Reflect A} (o : option (list A)) : reflected := reflect (listOf o).
Definition reflect_map `{Reflect A} (m : list (string * A)) : reflected :=
  RMap (map (λ e, (RString e.1, reflect e.2)) m).

(** A field without and with the [omitempty] option. *)
Definition field `{Reflect A} (a : A) : bool * reflected := (false, reflect a).
Definition omitted `{Reflect A} (a : A) : bool * reflected := (true, reflect a).

(** ** The walk *)

Record metadataBudget := mkMB { mnodes : Z; mfields : Z; mbytes : Z; mvalues : Z }.
Record budgetLimits := mkBL { depthLimit : Z; nodeLimit : Z; jsonOutput : bool }.

Definition emptyJSONField (v : reflected) : bool :=
  match v with
  | RSeq l => (length l =? 0)%nat
  | RBytes _ b => match b with Some (_ :: _) => false | _ => true end
  | RMap m => (length m =? 0)%nat
  | RString s => bool_decide (s = "")
  | RScalar z => z
  | RFloat x => f64_is_zero x
  | RNil => true
  | RRef _ => false
  | RTime _ _ | RValue _ | RStruct _ => false
  end.

Definition validateNativeTime (localYear utcYear : Z) : result unit :=
  guard_err (year_bad localYear || year_bad utcYear) (invalid "timestamp out of range").

Section walk.
Context (L : budgetLimits).

Definition valueNode (depth : Z) (b : metadataBudget) : outcome metadataBudget :=
  if depthLimit L <? depth then fails (limited "domain nesting limit") else
  let b := mkMB (mnodes b + 1) (mfields b) (mbytes b) (mvalues b) in
  if nodeLimit L <? mnodes b then fails (limited "domain node limit") else Some (Ok b).

(** The byte charge and UTF-8 rule of one string. *)
Definition charge_string (s : string) (b : metadataBudget) : outcome metadataBudget :=
  let b := mkMB (mnodes b) (mfields b) (mbytes b + if jsonOutput L then quotedJSONSize s else slen s)
                (mvalues b) in
  if MaxMessageBytes <? mbytes b then fails (limited "domain byte limit") else
  returns (text s false) ≫= λ _, Some (Ok b).

Definition valueString (s : string) (depth : Z) (b : metadataBudget) : outcome metadataBudget :=
  b ← valueNode depth b; charge_string s b.

Definition charge_fields (n : Z) (b : metadataBudget) : outcome metadataBudget :=
  let b := mkMB (mnodes b) (mfields b + n) (mbytes b) (mvalues b) in
  if maxDomainFields <? mfields b then fails (limited "domain field limit") else Some (Ok b).

Definition valueContainer (len : Z) (depth : Z) (b : metadataBudget) : outcome metadataBudget :=
  b ← valueNode depth b; charge_fields len b.

Section value_loops.
Context (valueFields : Value → Z → metadataBudget → outcome metadataBudget).
Definition value_items (depth : Z) :=
  fix go (l : list Value) (b : metadataBudget) : outcome metadataBudget :=
    match l with
    | [] => Some (Ok b)
    | v :: l => b ← valueNode (depth + 2) b; b ← valueFields v (depth + 2) b; go l b
    end.
Definition value_entries (depth : Z) :=
  fix go (m : list (string * Value)) (b : metadataBudget) : outcome metadataBudget :=
    match m with
    | [] => Some (Ok b)
    | (k, v) :: m =>
      b ← valueString k (depth + 2) b;
      b ← valueNode (depth + 2) b;
      b ← valueFields v (depth + 2) b;
      go m b
    end.
End value_loops.

Fixpoint valueFields (v : Value) (depth : Z) (b : metadataBudget) : outcome metadataBudget :=
  let b := mkMB (mnodes b) (mfields b) (mbytes b) (mvalues b + 1) in
  if maxDomainNodes <? mvalues b then fails (limited "aggregate value node limit") else
  b ← valueString (vKind v) (depth + 1) b;
  b ← valueNode (depth + 1) b;
  b ← valueString (vString v) (depth + 1) b;
  b ← valueString (vInt v) (depth + 1) b;
  b ← valueString (vUint v) (depth + 1) b;
  b ← valueNode (depth + 1) b;
  if f64_is_inf (vDouble v) || f64_is_nan (vDouble v) then fails (invalid "nonfinite metadata number") else
  b ← valueString (vTimestamp v) (depth + 1) b;
  b ← valueContainer (Z.of_nat (length (listOf (vList v)))) (depth + 1) b;
  b ← match vList v with Some l => value_items valueFields depth l b | None => Some (Ok b) end;
  b ← valueContainer (Z.of_nat (length (listOf (vMap v)))) (depth + 1) b;
  match vMap v with Some m => value_entries valueFields depth m b | None => Some (Ok b) end.

(** [base64.StdEncoding.EncodedLen]. *)
Definition base64_len (n : Z) : Z := (n + 2) / 3 * 4.

Definition byteSlice (raw : bool) (o : option bytes) (b : metadataBudget) : outcome metadataBudget :=
  let len := blen (default [] o) in
  charge ←
    (if jsonOutput L && raw then
       match o with
       | None => Some (Ok 4)
       | Some data => ValidateJSON data ;; Some (Ok len)
       end
     else if jsonOutput L then Some (Ok (jsonQuoteBytes + base64_len len))
     else Some (Ok len) : outcome Z);
  let b := mkMB (mnodes b) (mfields b) (mbytes b + charge) (mvalues b) in
  if MaxMessageBytes <? mbytes b then fails (limited "domain byte limit") else Some (Ok b).

Section visit_loops.
Context (visit : reflected → Z → metadataBudget → outcome metadataBudget).
Definition structFields (depth : Z) :=
  fix go (fields : list (bool * reflected)) (b : metadataBudget) : outcome metadataBudget :=
    match fields with
    | [] => Some (Ok b)
    | (omitEmpty, v) :: fields =>
      if jsonOutput L && omitEmpty && emptyJSONField v then go fields b
      else b ← visit v (depth + 1) b; go fields b
    end.
Definition visit_items (depth : Z) :=
  fix go (vs : list reflected) (b : metadataBudget) : outcome metadataBudget :=
    match vs with
    | [] => Some (Ok b)
    | v :: vs => b ← visit v (depth + 1) b; go vs b
    end.
Definition visit_entries (depth : Z) :=
  fix go (m : list (reflected * reflected)) (b : metadataBudget) : outcome metadataBudget :=
    match m with
    | [] => Some (Ok b)
    | (k, v) :: m =>
      b ← visit k (depth + 1) b; b ← visit v (depth + 1) b; go m b
    end.
(** [sequence] and [mapEntries]. *)
Definition sequence (vs : list reflected) (depth : Z) (b : metadataBudget) : outcome metadataBudget :=
  b ← charge_fields (Z.of_nat (length vs)) b; visit_items depth vs b.
Definition mapEntries (m : list (reflected * reflected)) (depth : Z) (b : metadataBudget)
    : outcome metadataBudget :=
  b ← charge_fields (Z.of_nat (length m)) b; visit_entries depth m b.
End visit_loops.

Fixpoint visit (v : reflected) (depth : Z) (b : metadataBudget) : outcome metadataBudget :=
  b ← valueNode depth b;
  match v with
  | RNil | RScalar _ => Some (Ok b)
  | RRef v => visit v (depth + 1) b
  | RString s => charge_string s b
  | RFloat x =>
    if f64_is_inf x || f64_is_nan x then fails (invalid "nonfinite metadata number") else Some (Ok b)
  | RTime y u => returns (validateNativeTime y u) ≫= λ _, Some (Ok b)
  | RValue v => valueFields v depth b
  | RStruct fields => structFields visit depth fields b
  | RSeq vs => sequence visit vs depth b
  | RBytes raw o => byteSlice raw o b
  | RMap m => mapEntries visit m depth b
  end.
End walk.

Definition reflectionDepthAllowance : Z := 4.
Definition reflectionNodeAllowance : Z := 16.

Definition metadataAdmission (v : reflected) (depth_limit node_limit : Z) (json : bool) : outcome unit :=
  visit (mkBL depth_limit node_limit json) v 0 (mkMB 0 0 0 0) ;; Some (Ok tt).

Definition admission `{Reflect A} (v : A) : outcome unit :=
  metadataAdmission (reflect v) (maxDomainDepth * reflectionDepthAllowance)
    (maxDomainNodes * reflectionNodeAllowance) false.
Definition ValidateMetadata `{Reflect A} (v : A) : outcome unit :=
  metadataAdmission (reflect v) maxDomainDepth maxDomainNodes true.

(** ** What the walk computes

    A cost (nodes, fields, bytes and tagged values), a height, and a leaf
    condition per reflected value; the walk is shown to be their sum compared
    with the limits. *)

Section reflected_ind.
Variable P : reflected → Prop.
Hypothesis Hnil : P RNil.
Hypothesis Href : ∀ v, P v → P (RRef v).
Hypothesis Hstring : ∀ s, P (RString s).
Hypothesis Hfloat : ∀ x, P (RFloat x).
Hypothesis Hscalar : ∀ z, P (RScalar z).
Hypothesis Htime : ∀ y u, P (RTime y u).
Hypothesis Hvalue : ∀ v, P (RValue v).
Hypothesis Hstruct : ∀ fs, Forall (λ f, P f.2) fs → P (RStruct fs).
Hypothesis Hseq : ∀ vs, Forall P vs → P (RSeq vs).
Hypothesis Hbytes : ∀ raw b, P (RBytes raw b).
Hypothesis Hmap : ∀ m, Forall (λ e, P e.1 ∧ P e.2) m → P (RMap m).

Fixpoint reflected_nested_ind (v : reflected) : P v :=
  match v with
  | RNil => Hnil
  | RRef v => Href v (reflected_nested_ind v)
  | RString s => Hstring s
  | RFloat x => Hfloat x
  | RScalar z => Hscalar z
  | RTime y u => Htime y u
  | RValue v => Hvalue v
  | RStruct fs =>
    Hstruct fs ((fix go fs := match fs return Forall (λ f, P f.2) fs with
                              | [] => Forall_nil_2 _
                              | (o, f) :: fs => Forall_cons_2 (λ f, P f.2) (o, f) fs (reflected_nested_ind f) (go fs)
                              end) fs)
  | RSeq vs =>
    Hseq vs ((fix go vs := match vs return Forall P vs with
                           | [] => Forall_nil_2 _
                           | v :: vs => Forall_cons_2 P v vs (reflected_nested_ind v) (go vs)
                           end) vs)
  | RBytes raw b => Hbytes raw b
  | RMap m =>
    Hmap m ((fix go m := match m return Forall (λ e, P e.1 ∧ P e.2) m with
                         | [] => Forall_nil_2 _
                         | (k, v) :: m =>
                           Forall_cons_2 (λ e, P e.1 ∧ P e.2) (k, v) m
                             (conj (reflected_nested_ind k) (reflected_nested_ind v)) (go m)
                         end) m)
  end.
End reflected_ind.

Definition spent : metadataBudget := mkMB 0 0 0 0.
Definition nodes_cost (n : Z) : metadataBudget := mkMB n 0 0 0.
Definition fields_cost (n : Z) : metadataBudget := mkMB 0 n 0 0.
Definition bytes_cost (n : Z) : metadataBudget := mkMB 0 0 n 0.
Definition plus (a b : metadataBudget) : metadataBudget :=
  mkMB (mnodes a + mnodes b) (mfields a + mfields b) (mbytes a + mbytes b) (mvalues a + mvalues b).
Definition sum_cost {A} (f : A → metadataBudget) (l : list A) : metadataBudget :=
  foldr (λ a acc, plus (f a) acc) spent l.
Definition max_height {A} (f : A → Z) (l : list A) : Z := foldr (λ a acc, f a `max` acc) 0 l.

Section measures.
Context (L : budgetLimits).

Definition string_bytes (s : string) : Z := if jsonOutput L then quotedJSONSize s else slen s.

(** The nine visible fields of a tagged value and its nested values. *)
Fixpoint value_cost (v : Value) : metadataBudget :=
  plus (mkMB 9 (Z.of_nat (length (listOf (vList v))) + Z.of_nat (length (listOf (vMap v))))
             (string_bytes (vKind v) + string_bytes (vString v) + string_bytes (vInt v)
              + string_bytes (vUint v) + string_bytes (vTimestamp v)) 1)
    (plus match vList v with Some l => sum_cost (λ v, plus (nodes_cost 1) (value_cost v)) l | None => spent end
          match vMap v with
          | Some m => sum_cost (λ e, plus (mkMB 2 0 (string_bytes (fst e)) 0) (value_cost (snd e))) m
          | None => spent
          end).
Fixpoint value_height (v : Value) : Z :=
  1 `max` (match vList v with Some l => max_height (λ v, 2 + value_height v) l | None => 0 end
           `max` match vMap v with Some m => max_height (λ e, 2 + value_height (snd e)) m | None => 0 end).

Definition finite (x : float64) : Prop := f64_is_inf x = false ∧ f64_is_nan x = false.

Inductive value_clean : Value → Prop :=
| Value_clean v :
  Forall (λ s, utf8_valid_string s = true) [vKind v; vString v; vInt v; vUint v; vTimestamp v] →
  finite (vDouble v) →
  Forall value_clean (listOf (vList v)) →
  Forall (λ e, utf8_valid_string e.1 = true ∧ value_clean e.2) (listOf (vMap v)) →
  value_clean v.

(** The charge of a byte slice: base64 in JSON, and raw JSON as it stands. *)
Definition bytes_charge (raw : bool) (o : option bytes) : Z :=
  if jsonOutput L then
    if raw then match o with None => 4 | Some d => blen d end
    else jsonQuoteBytes + base64_len (blen (default [] o))
  else blen (default [] o).

(** JSON output drops an empty field marked omitempty. *)
Definition dropped (f : bool * reflected) : bool := jsonOutput L && fst f && emptyJSONField (snd f).

Fixpoint cost (v : reflected) : metadataBudget :=
  plus (nodes_cost 1)
    match v with
    | RNil | RScalar _ | RFloat _ | RTime _ _ => spent
    | RRef v => cost v
    | RString s => bytes_cost (string_bytes s)
    | RValue v => value_cost v
    | RStruct fs => sum_cost (λ f, if dropped f then spent else cost (snd f)) fs
    | RSeq vs => plus (fields_cost (Z.of_nat (length vs))) (sum_cost cost vs)
    | RBytes raw o => bytes_cost (bytes_charge raw o)
    | RMap m => plus (fields_cost (Z.of_nat (length m))) (sum_cost (λ e, plus (cost (fst e)) (cost (snd e))) m)
    end.
Fixpoint height (v : reflected) : Z :=
  match v with
  | RNil | RScalar _ | RFloat _ | RTime _ _ | RString _ | RBytes _ _ => 0
  | RRef v => 1 + height v
  | RValue v => value_height v
  | RStruct fs => max_height (λ f, if dropped f then 0 else 1 + height (snd f)) fs
  | RSeq vs => max_height (λ v, 1 + height v) vs
  | RMap m => max_height (λ e, 1 + (height (fst e) `max` height (snd e))) m
  end.

Inductive clean : reflected → Prop :=
| Clean_nil : clean RNil
| Clean_ref v : clean v → clean (RRef v)
| Clean_string s : utf8_valid_string s = true → clean (RString s)
| Clean_float x : finite x → clean (RFloat x)
| Clean_scalar z : clean (RScalar z)
| Clean_time y u : year_bad y = false → year_bad u = false → clean (RTime y u)
| Clean_value v : value_clean v → clean (RValue v)
| Clean_struct fs : Forall (λ f, dropped f = true ∨ clean f.2) fs → clean (RStruct fs)
| Clean_seq vs : Forall clean vs → clean (RSeq vs)
| Clean_bytes raw o :
  (jsonOutput L = true → raw = true → ∀ d, o = Some d → ValidateJSON d = Some (Ok tt)) → clean (RBytes raw o)
| Clean_map m : Forall (λ e, clean e.1 ∧ clean e.2) m → clean (RMap m).

Definition within (b : metadataBudget) : Prop :=
  mnodes b ≤ nodeLimit L ∧ mfields b ≤ maxDomainFields ∧ mbytes b ≤ MaxMessageBytes
  ∧ mvalues b ≤ maxDomainNodes.
Definition nonneg (c : metadataBudget) : Prop :=
  0 ≤ mnodes c ∧ 0 ≤ mfields c ∧ 0 ≤ mbytes c ∧ 0 ≤ mvalues c.
End measures.

(** ** The walk adds the cost *)

Lemma plus_spent a : plus a spent = a.
Proof. destruct a. unfold plus, spent. simpl. f_equal; lia. Qed.
Lemma spent_plus a : plus spent a = a.
Proof. by destruct a. Qed.
Lemma plus_assoc a b c : plus (plus a b) c = plus a (plus b c).
Proof. unfold plus. simpl. f_equal; lia. Qed.
Lemma nonneg_plus a b : nonneg a → nonneg b → nonneg (plus a b).
Proof. unfold nonneg, plus. simpl. lia. Qed.

Lemma quotedJSONSize_nonneg s : 0 ≤ quotedJSONSize s.
Proof. rewrite quotedJSONSize_quoted. unfold blen. lia. Qed.

Section adds.
Context (L : budgetLimits).

(** A step that adds [c] when [ok] holds and the sum stays within the limits,
    reports an error otherwise, and is never stuck. *)
Definition adds (m : metadataBudget → outcome metadataBudget) (c : metadataBudget) (ok : Prop) : Prop :=
  nonneg c ∧ ∀ b, within L b →
    m b ≠ None ∧ ∀ b', m b = Some (Ok b') ↔ ok ∧ b' = plus b c ∧ within L (plus b c).

Lemma adds_proper m c ok c' ok' : adds m c ok → c = c' → (ok ↔ ok') → adds m c' ok'.
Proof. intros [Hc H] <- Hiff. split; [done|]. intros b Hb. destruct (H b Hb) as [? H']. 
  split; [done|]. intros b'. rewrite H'. tauto. Qed.

Lemma adds_ok : adds (λ b, Some (Ok b)) spent True.
Proof.
  split; [done|]. intros b Hb. split; [done|]. intros b'. rewrite plus_spent. naive_solver.
Qed.

Lemma adds_bind m k c1 c2 P Q : adds m c1 P → adds k c2 Q → adds (λ b, m b ≫= k) (plus c1 c2) (P ∧ Q).
Proof.
  intros [Hc1 H1] [Hc2 H2]. split; [by apply nonneg_plus|]. intros b Hb. destruct (H1 b Hb) as [Hd1 Hm].
  split.
  - apply outcome_bind_defined; [done|]. intros a Ha. apply Hm in Ha as (_ & -> & Hw). by apply H2.
  - intros b'. rewrite outcome_bind_some, <- plus_assoc. split.
    + intros (a & Ha & Hk). apply Hm in Ha as (HP & -> & Hw). apply (H2 _ Hw) in Hk. tauto.
    + intros ((HP & HQ) & -> & Hw).
      assert (within L (plus b c1)) as Hw1 by (unfold within, nonneg, plus in *; simpl in *; lia).
      exists (plus b c1). split; [by apply Hm|]. by apply H2.
Qed.

Lemma adds_fail m c P (t : bool) e : adds m c P → adds (λ b, if t then fails e else m b) c (t = false ∧ P).
Proof.
  intros [Hc H]. split; [done|]. intros b Hb. destruct (H b Hb) as [? Hm]. destruct t.
  - split; [done|]. intros b'. split; [done|naive_solver].
  - split; [done|]. intros b'. rewrite Hm. naive_solver.
Qed.

(** One charge followed by its limit check. *)
Lemma adds_charge c e (over : metadataBudget → bool) : nonneg c →
  (∀ b, within L b → over (plus b c) = false ↔ within L (plus b c)) →
  adds (λ b, if over (plus b c) then fails e else Some (Ok (plus b c))) c True.
Proof.
  intros Hc Ho. split; [done|]. intros b Hb. specialize (Ho b Hb). destruct (over (plus b c)).
  - split; [done|]. intros b'. split; [done|]. intros (_ & _ & Hw). by apply Ho in Hw.
  - split; [done|]. intros b'. split; [intros [= <-]; naive_solver|]. by intros (_ & -> & _).
Qed.

Lemma adds_ext m m' c P : (∀ b, m b = m' b) → adds m c P → adds m' c P.
Proof. intros He [Hc H]. split; [done|]. intros b Hb. rewrite <- He. auto. Qed.

Lemma adds_pure (r : result unit) P : (r = Ok tt ↔ P) →
  adds (λ b, returns r ≫= λ _, Some (Ok b)) spent P.
Proof.
  intros HP. split; [done|]. intros b Hb. rewrite plus_spent. destruct r as [[]|e]; simpl.
  - split; [done|]. intros b'. naive_solver.
  - split; [done|]. intros b'. split; [done|]. intros (H & _ & _). by apply HP in H.
Qed.

Lemma adds_valueNode depth : adds (valueNode L depth) (nodes_cost 1) (depth ≤ depthLimit L).
Proof.
  eapply adds_proper with (ok := (depthLimit L <? depth) = false ∧ True); [|done|rewrite Z.ltb_ge; tauto].
  apply adds_fail. eapply adds_ext; [|apply (adds_charge (nodes_cost 1)
    (limited "domain node limit") (λ b, nodeLimit L <? mnodes b))].
  - intros b. unfold plus. simpl. rewrite !Z.add_0_r. done.
  - done.
  - intros b Hb. rewrite Z.ltb_ge. unfold within, plus in *. simpl in *. lia.
Qed.

Lemma adds_fields n : 0 ≤ n → adds (charge_fields n) (fields_cost n) True.
Proof.
  intros Hn. eapply adds_ext; [|apply (adds_charge (fields_cost n)
    (limited "domain field limit") (λ b, maxDomainFields <? mfields b))].
  - intros b. unfold plus. simpl. rewrite !Z.add_0_r. done.
  - unfold nonneg. simpl. lia.
  - intros b Hb. rewrite Z.ltb_ge. unfold within, plus in *. simpl in *. lia.
Qed.

Lemma adds_bytes n : 0 ≤ n →
  adds (λ b, let b := mkMB (mnodes b) (mfields b) (mbytes b + n) (mvalues b) in
             if MaxMessageBytes <? mbytes b then fails (limited "domain byte limit") else Some (Ok b))
    (bytes_cost n) True.
Proof.
  intros Hn. eapply adds_ext; [|apply (adds_charge (bytes_cost n)
    (limited "domain byte limit") (λ b, MaxMessageBytes <? mbytes b))].
  - intros b. unfold plus. simpl. rewrite !Z.add_0_r. done.
  - unfold nonneg. simpl. lia.
  - intros b Hb. rewrite Z.ltb_ge. unfold within, plus in *. simpl in *. lia.
Qed.

Lemma adds_values :
  adds (λ b, let b := mkMB (mnodes b) (mfields b) (mbytes b) (mvalues b + 1) in
             if maxDomainNodes <? mvalues b then fails (limited "aggregate value node limit") else Some (Ok b))
    (mkMB 0 0 0 1) True.
Proof.
  eapply adds_ext; [|apply (adds_charge (mkMB 0 0 0 1)
    (limited "aggregate value node limit") (λ b, maxDomainNodes <? mvalues b))].
  - intros b. unfold plus. simpl. rewrite !Z.add_0_r. done.
  - done.
  - intros b Hb. rewrite Z.ltb_ge. unfold within, plus in *. simpl in *. lia.
Qed.

Lemma string_bytes_nonneg s : 0 ≤ string_bytes L s.
Proof. unfold string_bytes. case_match; [apply quotedJSONSize_nonneg|]. unfold slen, blen. lia. Qed.

Lemma text_optional s : text s false = Ok tt ↔ utf8_valid_string s = true.
Proof. unfold text. rewrite guard_err_iff, orb_false_r, negb_false_iff. done. Qed.

Lemma adds_string s : adds (charge_string L s) (bytes_cost (string_bytes L s)) (utf8_valid_string s = true).
Proof.
  eapply adds_proper; [|apply plus_spent|].
  - eapply adds_ext; [|eapply adds_bind; [apply (adds_bytes (string_bytes L s)), string_bytes_nonneg|
      apply (adds_pure (text s false)); reflexivity]].
    intros b. unfold charge_string, string_bytes. cbn zeta. cbn [mbytes mnodes mfields mvalues].
    by destruct (MaxMessageBytes <? _).
  - rewrite text_optional. tauto.
Qed.

Lemma adds_valueString s depth : adds (valueString L s depth) (plus (nodes_cost 1) (bytes_cost (string_bytes L s)))
  (depth ≤ depthLimit L ∧ utf8_valid_string s = true).
Proof. apply (adds_bind (valueNode L depth)); [apply adds_valueNode|apply adds_string]. Qed.

Lemma adds_valueContainer n depth : 0 ≤ n →
  adds (valueContainer L n depth) (plus (nodes_cost 1) (fields_cost n)) (depth ≤ depthLimit L ∧ True).
Proof. intros Hn. apply (adds_bind (valueNode L depth)); [apply adds_valueNode|by apply adds_fields]. Qed.
End adds.

Lemma budget_eq a b : mnodes a = mnodes b → mfields a = mfields b → mbytes a = mbytes b →
  mvalues a = mvalues b → a = b.
Proof. destruct a, b. simpl. by intros -> -> -> ->. Qed.
Lemma mnodes_plus a b : mnodes (plus a b) = mnodes a + mnodes b.
Proof. done. Qed.
Lemma mfields_plus a b : mfields (plus a b) = mfields a + mfields b.
Proof. done. Qed.
Lemma mbytes_plus a b : mbytes (plus a b) = mbytes a + mbytes b.
Proof. done. Qed.
Lemma mvalues_plus a b : mvalues (plus a b) = mvalues a + mvalues b.
Proof. done. Qed.

Ltac cost_eq :=
  apply budget_eq; rewrite ?mnodes_plus, ?mfields_plus, ?mbytes_plus, ?mvalues_plus;
  cbn [mnodes mfields mbytes mvalues nodes_cost fields_cost bytes_cost spent]; lia.

Lemma max_height_le {A} (f : A → Z) l n : max_height f l ≤ n ↔ 0 ≤ n ∧ Forall (λ a, f a ≤ n) l.
Proof.
  induction l as [|a l IH]; simpl; [split; [auto|tauto]|].
  rewrite Z.max_lub_iff, IH, Forall_cons. tauto.
Qed.

Lemma value_clean_iff v : value_clean v ↔
  Forall (λ s, utf8_valid_string s = true) [vKind v; vString v; vInt v; vUint v; vTimestamp v]
  ∧ finite (vDouble v) ∧ Forall value_clean (listOf (vList v))
  ∧ Forall (λ e, utf8_valid_string e.1 = true ∧ value_clean e.2) (listOf (vMap v)).
Proof. split; [intros H; by inversion H|]. intros (? & ? & ? & ?). by constructor. Qed.

Lemma finite_iff x : (f64_is_inf x || f64_is_nan x) = false ↔ finite x.
Proof. apply orb_false_iff. Qed.

Section walk_spec.
Context (L : budgetLimits).

(** A loop adds the costs of its elements. *)
Lemma adds_loop {A} (go : list A → metadataBudget → outcome metadataBudget)
    (f : A → metadataBudget → outcome metadataBudget) c ok l :
  (∀ b, go [] b = Some (Ok b)) → (∀ a l b, go (a :: l) b = f a b ≫= go l) →
  Forall (λ a, adds L (f a) (c a) (ok a)) l →
  adds L (go l) (sum_cost c l) (Forall ok l).
Proof.
  intros Hnil Hcons Hf. induction Hf as [|a l Ha _ IH].
  - eapply adds_proper; [eapply adds_ext; [|apply adds_ok]; done|done|]. split; [constructor|done].
  - eapply adds_proper; [eapply adds_ext; [|apply (adds_bind L (f a) (go l) _ _ _ _ Ha IH)]|done|].
    + intros b. by rewrite Hcons.
    + by rewrite Forall_cons.
Qed.

Definition value_ok (v : Value) (depth : Z) : Prop := depth + value_height v ≤ depthLimit L ∧ value_clean v.

Lemma outcome_bind_assoc {A B C} (m : outcome A) (f : A → outcome B) (g : B → outcome C) :
  (m ≫= f) ≫= g = m ≫= (λ a, f a ≫= g).
Proof. by destruct m as [[a|e]|]. Qed.

Lemma adds_value_items (vf : Value → Z → metadataBudget → outcome metadataBudget) depth l :
  Forall (λ v, ∀ d, adds L (vf v d) (value_cost L v) (value_ok v d)) l →
  adds L (value_items L vf depth l) (sum_cost (λ v, plus (nodes_cost 1) (value_cost L v)) l)
    (Forall (λ v, depth + 2 ≤ depthLimit L ∧ value_ok v (depth + 2)) l).
Proof.
  intros H. apply (adds_loop _ (λ v b, valueNode L (depth + 2) b ≫= vf v (depth + 2))).
  - done.
  - intros v l' b. by rewrite outcome_bind_assoc.
  - eapply Forall_impl; [exact H|]. intros v Hv. apply adds_bind; [apply adds_valueNode|apply Hv].
Qed.

Lemma adds_value_entries (vf : Value → Z → metadataBudget → outcome metadataBudget) depth m :
  Forall (λ e, ∀ d, adds L (vf e.2 d) (value_cost L e.2) (value_ok e.2 d)) m →
  adds L (value_entries L vf depth m)
    (sum_cost (λ e, plus (mkMB 2 0 (string_bytes L (fst e)) 0) (value_cost L (snd e))) m)
    (Forall (λ e, (depth + 2 ≤ depthLimit L ∧ utf8_valid_string e.1 = true) ∧ value_ok e.2 (depth + 2)) m).
Proof.
  intros H. apply (adds_loop _ (λ e b, valueString L e.1 (depth + 2) b ≫= λ b,
    valueNode L (depth + 2) b ≫= vf e.2 (depth + 2))).
  - done.
  - intros [k v] l' b. cbn [value_entries fst snd].
    destruct (valueString L k (depth + 2) b) as [[b1|e]|]; [|done|done]. cbn [mbind outcome_bind].
    by rewrite outcome_bind_assoc.
  - eapply Forall_impl; [exact H|]. intros [k v] Hv. cbn [fst snd] in *.
    eapply adds_proper; [apply adds_bind; [apply adds_valueString|apply adds_bind; [apply adds_valueNode|apply Hv]]| |].
    + cost_eq.
    + unfold value_ok. tauto.
Qed.

Lemma value_height_le v d n : d + value_height v ≤ n ↔
  d + 1 ≤ n ∧ Forall (λ v, d + 2 + value_height v ≤ n) (listOf (vList v))
  ∧ Forall (λ e, d + 2 + value_height e.2 ≤ n) (listOf (vMap v)).
Proof.
  assert (Hd : ∀ A (f : A → Z) l, d + 1 ≤ n →
    max_height (λ a, 2 + f a) l ≤ n - d ↔ Forall (λ a, d + 2 + f a ≤ n) l).
  { intros A f l Hn. rewrite max_height_le. split.
    - intros [_ H]. eapply Forall_impl; [exact H|]. intros a Ha. cbn beta in Ha. lia.
    - intros H. split; [lia|]. eapply Forall_impl; [exact H|]. intros a Ha. cbn beta in Ha. lia. }
  assert (Hv : value_height v = 1 `max` (max_height (λ v, 2 + value_height v) (listOf (vList v))
    `max` max_height (λ e, 2 + value_height (snd e)) (listOf (vMap v)))).
  { destruct v as [k b s i u x t [l|] [m|]]; done. }
  rewrite Hv. transitivity (d + 1 ≤ n ∧ max_height (λ v, 2 + value_height v) (listOf (vList v)) ≤ n - d
    ∧ max_height (λ e, 2 + value_height (snd e)) (listOf (vMap v)) ≤ n - d); [lia|].
  split; intros (H1 & H2 & H3); (split; [done|]); (split; [by apply Hd|by apply (Hd _ (λ e, value_height (snd e)))]).
Qed.

(** The nested walk of a tagged value. *)
Lemma adds_nested_list l depth :
  Forall (λ v, ∀ d, adds L (valueFields L v d) (value_cost L v) (value_ok v d)) (listOf l) →
  adds L (λ b, match l with Some l => value_items L (valueFields L) depth l b | None => Some (Ok b) end)
    (sum_cost (λ v, plus (nodes_cost 1) (value_cost L v)) (listOf l))
    (Forall (λ v, depth + 2 ≤ depthLimit L ∧ value_ok v (depth + 2)) (listOf l)).
Proof.
  destruct l as [l|]; intros H; [by apply adds_value_items|].
  eapply adds_proper; [apply adds_ok|done|]. by rewrite Forall_nil.
Qed.

Lemma adds_nested_map m depth :
  Forall (λ e, ∀ d, adds L (valueFields L e.2 d) (value_cost L e.2) (value_ok e.2 d)) (listOf m) →
  adds L (λ b, match m with Some m => value_entries L (valueFields L) depth m b | None => Some (Ok b) end)
    (sum_cost (λ e, plus (mkMB 2 0 (string_bytes L (fst e)) 0) (value_cost L (snd e))) (listOf m))
    (Forall (λ e, (depth + 2 ≤ depthLimit L ∧ utf8_valid_string e.1 = true) ∧ value_ok e.2 (depth + 2)) (listOf m)).
Proof.
  destruct m as [m|]; intros H; [by apply adds_value_entries|].
  eapply adds_proper; [apply adds_ok|done|]. by rewrite Forall_nil.
Qed.

Lemma nested_ok v d : d + 1 ≤ depthLimit L →
  Forall (λ s, utf8_valid_string s = true) [vKind v; vString v; vInt v; vUint v; vTimestamp v] →
  finite (vDouble v) →
  value_ok v d ↔
  Forall (λ v, d + 2 ≤ depthLimit L ∧ value_ok v (d + 2)) (listOf (vList v))
  ∧ Forall (λ e, (d + 2 ≤ depthLimit L ∧ utf8_valid_string e.1 = true) ∧ value_ok e.2 (d + 2)) (listOf (vMap v)).
Proof.
  intros Hd Ht Hf. unfold value_ok. rewrite value_height_le, value_clean_iff.
  assert (Hh : ∀ w, 0 ≤ value_height w) by (intros []; simpl; lia).
  assert (Hl : Forall (λ v, d + 2 ≤ depthLimit L ∧ d + 2 + value_height v ≤ depthLimit L ∧ value_clean v) (listOf (vList v))
    ↔ Forall (λ v, d + 2 + value_height v ≤ depthLimit L) (listOf (vList v)) ∧ Forall value_clean (listOf (vList v))).
  { rewrite <- Forall_and. apply Forall_iff. intros w. specialize (Hh w). intuition lia. }
  assert (Hm : Forall (λ e, (d + 2 ≤ depthLimit L ∧ utf8_valid_string e.1 = true)
      ∧ d + 2 + value_height e.2 ≤ depthLimit L ∧ value_clean e.2) (listOf (vMap v))
    ↔ Forall (λ e, d + 2 + value_height e.2 ≤ depthLimit L) (listOf (vMap v))
      ∧ Forall (λ e, utf8_valid_string e.1 = true ∧ value_clean e.2) (listOf (vMap v))).
  { rewrite <- Forall_and. apply Forall_iff. intros [k w]. specialize (Hh w). cbn [fst snd]. intuition lia. }
  rewrite Hl, Hm. tauto.
Qed.

Lemma adds_valueFields v : ∀ depth,
  adds L (valueFields L v depth) (value_cost L v) (value_ok v depth).
Proof.
  induction v as [k bb s i u x t l m Hl Hm] using Value_nested_ind. intros depth.
  pose proof (adds_nested_list l depth (Forall_impl _ _ _ Hl (λ _ H, H))) as HL.
  pose proof (adds_nested_map m depth (Forall_impl _ _ _ Hm (λ _ H, H))) as HM.
  eapply adds_proper.
  - eapply adds_ext; [|apply (adds_bind L _ _ _ _ _ _ (adds_values L)
      (adds_bind L _ _ _ _ _ _ (adds_valueString L k (depth + 1))
      (adds_bind L _ _ _ _ _ _ (adds_valueNode L (depth + 1))
      (adds_bind L _ _ _ _ _ _ (adds_valueString L s (depth + 1))
      (adds_bind L _ _ _ _ _ _ (adds_valueString L i (depth + 1))
      (adds_bind L _ _ _ _ _ _ (adds_valueString L u (depth + 1))
      (adds_bind L _ _ _ _ _ _ (adds_valueNode L (depth + 1))
      (adds_fail L _ _ _ (f64_is_inf x || f64_is_nan x) (invalid "nonfinite metadata number")
      (adds_bind L _ _ _ _ _ _ (adds_valueString L t (depth + 1))
      (adds_bind L _ _ _ _ _ _ (adds_valueContainer L (Z.of_nat (length (listOf l))) (depth + 1) ltac:(lia))
      (adds_bind L _ _ _ _ _ _ HL
      (adds_bind L _ _ _ _ _ _ (adds_valueContainer L (Z.of_nat (length (listOf m))) (depth + 1) ltac:(lia))
      HM))))))))))))].
    intros b. cbn [valueFields vKind vString vInt vUint vDouble vTimestamp vList vMap]. cbn zeta.
    by destruct (maxDomainNodes <? _).
  - assert (value_cost L (mkValue k bb s i u x t l m) = plus
      (mkMB 9 (Z.of_nat (length (listOf l)) + Z.of_nat (length (listOf m)))
         (string_bytes L k + string_bytes L s + string_bytes L i + string_bytes L u + string_bytes L t) 1)
      (plus (sum_cost (λ v, plus (nodes_cost 1) (value_cost L v)) (listOf l))
            (sum_cost (λ e, plus (mkMB 2 0 (string_bytes L (fst e)) 0) (value_cost L (snd e))) (listOf m)))) as ->.
    { destruct l, m; done. }
    cost_eq.
  - rewrite finite_iff. split.
    + intros H. apply nested_ok; cbn [vKind vString vInt vUint vDouble vTimestamp vList vMap];
        rewrite ?Forall_cons, ?Forall_nil; tauto.
    + intros H. assert (depth + 1 ≤ depthLimit L) as Hd.
      { destruct H as [H _]. rewrite value_height_le in H. tauto. }
      pose proof H as [_ Hc]. apply value_clean_iff in Hc as (Ht & Hf & _).
      apply nested_ok in H; [|done..].
      cbn [vKind vString vInt vUint vDouble vTimestamp vList vMap] in *.
      rewrite !Forall_cons in Ht. tauto.
Qed.

Lemma ValidateJSON_defined d : ValidateJSON d ≠ None.
Proof. unfold ValidateJSON. apply outcome_bind_defined; [apply readJSON_defined|done]. Qed.

Lemma base64_len_nonneg d : 0 ≤ base64_len (blen d).
Proof. unfold base64_len, blen. pose proof (Z.div_pos (Z.of_nat (length d) + 2) 3). lia. Qed.

Lemma bytes_charge_nonneg raw o : 0 ≤ bytes_charge L raw o.
Proof.
  unfold bytes_charge, jsonQuoteBytes. pose proof (base64_len_nonneg (default [] o)).
  assert (∀ d : bytes, 0 ≤ blen d) as Hn by (unfold blen; lia).
  repeat case_match; try lia; apply Hn.
Qed.

Lemma adds_byteSlice raw o : adds L (byteSlice L raw o) (bytes_cost (bytes_charge L raw o))
  (jsonOutput L = true → raw = true → ∀ d, o = Some d → ValidateJSON d = Some (Ok tt)).
Proof.
  pose proof (adds_bytes L (bytes_charge L raw o) (bytes_charge_nonneg raw o)) as [Hn Hb].
  split; [done|]. intros b Hw. specialize (Hb b Hw) as [Hd Hb]. unfold byteSlice, bytes_charge in *.
  destruct (jsonOutput L), raw, o as [d|]; cbn [andb mbind outcome_bind] in *;
    try (split; [exact Hd|]; intros b'; rewrite Hb; split; intros [_ H]; (split; [done|exact H])).
  pose proof (ValidateJSON_defined d) as Hv. destruct (ValidateJSON d) as [[[]|e]|] eqn:E; [| |done].
  - split; [exact Hd|]. intros b'. cbn [mbind outcome_bind]. cbn [default] in Hb. rewrite Hb.
    split; intros [_ H]; (split; [|exact H]); [intros _ _ d' [= <-]; done|done].
  - split; [done|]. intros b'. split; [done|]. intros (H & _). specialize (H eq_refl eq_refl d eq_refl). congruence.
Qed.

Definition visit_ok (v : reflected) (depth : Z) : Prop := depth + height L v ≤ depthLimit L ∧ clean L v.

Lemma max_height_nonneg {A} (f : A → Z) l : 0 ≤ max_height f l.
Proof. destruct l; simpl; [done|]. induction l; simpl; lia. Qed.

Lemma value_height_pos v : 1 ≤ value_height v.
Proof. destruct v; simpl; lia. Qed.

Lemma height_nonneg v : 0 ≤ height L v.
Proof.
  induction v using reflected_nested_ind; simpl; try lia; try apply max_height_nonneg.
  pose proof (value_height_pos v). lia.
Qed.

Lemma height_shift {A} (f : A → Z) d l n : d ≤ n →
  d + max_height f l ≤ n ↔ Forall (λ a, d + f a ≤ n) l.
Proof.
  intros Hd. transitivity (max_height f l ≤ n - d); [lia|]. rewrite max_height_le. split.
  - intros [_ H]. eapply Forall_impl; [exact H|]. intros a. cbn beta. lia.
  - intros H. split; [lia|]. eapply Forall_impl; [exact H|]. intros a. cbn beta. lia.
Qed.

Lemma adds_structFields depth fs :
  Forall (λ f, ∀ d, adds L (visit L f.2 d) (cost L f.2) (visit_ok f.2 d)) fs →
  adds L (structFields L (visit L) depth fs)
    (sum_cost (λ f, if dropped L f then spent else cost L (snd f)) fs)
    (Forall (λ f, dropped L f = true ∨ visit_ok f.2 (depth + 1)) fs).
Proof.
  intros H. apply (adds_loop _ (λ f b, if dropped L f then Some (Ok b) else visit L f.2 (depth + 1) b)).
  - done.
  - intros [o v] l b. cbn [structFields fst snd]. unfold dropped. cbn [fst snd]. by destruct (_ && _).
  - eapply Forall_impl; [exact H|]. intros f Hf. cbn beta in Hf. destruct (dropped L f).
    + eapply adds_proper; [apply adds_ok|done|tauto].
    + eapply adds_proper; [apply Hf|done|naive_solver].
Qed.

Lemma adds_visit_items depth vs :
  Forall (λ v, ∀ d, adds L (visit L v d) (cost L v) (visit_ok v d)) vs →
  adds L (visit_items (visit L) depth vs) (sum_cost (cost L) vs) (Forall (λ v, visit_ok v (depth + 1)) vs).
Proof.
  intros H. apply (adds_loop _ (λ v, visit L v (depth + 1))); [done|done|].
  eapply Forall_impl; [exact H|]. auto.
Qed.

Lemma adds_visit_entries depth m :
  Forall (λ e, (∀ d, adds L (visit L e.1 d) (cost L e.1) (visit_ok e.1 d))
             ∧ ∀ d, adds L (visit L e.2 d) (cost L e.2) (visit_ok e.2 d)) m →
  adds L (visit_entries (visit L) depth m) (sum_cost (λ e, plus (cost L (fst e)) (cost L (snd e))) m)
    (Forall (λ e, visit_ok e.1 (depth + 1) ∧ visit_ok e.2 (depth + 1)) m).
Proof.
  intros H. apply (adds_loop _ (λ e b, visit L e.1 (depth + 1) b ≫= visit L e.2 (depth + 1))).
  - done.
  - intros [k v] l b. cbn [visit_entries fst snd]. by rewrite outcome_bind_assoc.
  - eapply Forall_impl; [exact H|]. intros e [H1 H2]. by apply adds_bind.
Qed.

(** The verdict of a container is the verdict of its elements one level down. *)
Lemma children_ok {A} depth (f : A → Z) (P : A → Prop) l : depth ≤ depthLimit L →
  depth + max_height f l ≤ depthLimit L ∧ Forall P l ↔ Forall (λ a, depth + f a ≤ depthLimit L ∧ P a) l.
Proof. intros Hd. by rewrite height_shift, <- Forall_and by done. Qed.

Lemma container_ok {A} depth (f : A → Z) (P Q : A → Prop) l :
  (depth ≤ depthLimit L → ∀ a, depth + f a ≤ depthLimit L ∧ P a ↔ Q a) →
  depth + max_height f l ≤ depthLimit L ∧ Forall P l ↔ depth ≤ depthLimit L ∧ Forall Q l.
Proof.
  intros H. pose proof (max_height_nonneg f l). split.
  - intros Hc. assert (depth ≤ depthLimit L) as Hd by lia. split; [done|].
    apply children_ok in Hc; [|done]. eapply Forall_impl; [exact Hc|]. intros a. by apply H.
  - intros [Hd Hq]. apply children_ok; [done|]. eapply Forall_impl; [exact Hq|]. intros a. by apply H.
Qed.

Lemma struct_ok depth fs : visit_ok (RStruct fs) depth ↔
  depth ≤ depthLimit L ∧ Forall (λ f, dropped L f = true ∨ visit_ok f.2 (depth + 1)) fs.
Proof.
  unfold visit_ok. transitivity (depth + height L (RStruct fs) ≤ depthLimit L
    ∧ Forall (λ f, dropped L f = true ∨ clean L f.2) fs).
  - apply and_iff_compat_l. split; [intros Hc; by inversion Hc|by constructor].
  - apply container_ok. intros Hd f. destruct (dropped L f).
    + rewrite Z.add_0_r. split; intros _; [by left|split; [done|by left]].
    + rewrite Z.add_assoc. split.
      * intros [? [?|?]]; [done|by right].
      * intros [?|[? ?]]; [done|split; [done|by right]].
Qed.

Lemma seq_ok depth vs : visit_ok (RSeq vs) depth ↔
  depth ≤ depthLimit L ∧ Forall (λ v, visit_ok v (depth + 1)) vs.
Proof.
  unfold visit_ok. transitivity (depth + height L (RSeq vs) ≤ depthLimit L ∧ Forall (clean L) vs).
  - apply and_iff_compat_l. split; [intros Hc; by inversion Hc|by constructor].
  - apply (container_ok depth (λ v, 1 + height L v)). intros Hd v. cbn beta. rewrite Z.add_assoc. done.
Qed.

Lemma map_ok depth m : visit_ok (RMap m) depth ↔
  depth ≤ depthLimit L ∧ Forall (λ e, visit_ok e.1 (depth + 1) ∧ visit_ok e.2 (depth + 1)) m.
Proof.
  unfold visit_ok. transitivity (depth + height L (RMap m) ≤ depthLimit L
    ∧ Forall (λ e, clean L e.1 ∧ clean L e.2) m).
  - apply and_iff_compat_l. split; [intros Hc; by inversion Hc|by constructor].
  - apply (container_ok depth (λ e, 1 + (height L (fst e) `max` height L (snd e)))). intros Hd e. cbn beta. intuition lia.
Qed.

Lemma ref_ok depth v : visit_ok (RRef v) depth ↔ depth ≤ depthLimit L ∧ visit_ok v (depth + 1).
Proof.
  unfold visit_ok. simpl. pose proof (height_nonneg v). split.
  - intros (? & Hc). inversion Hc; subst. split_and!; [lia|lia|done].
  - intros (? & ? & ?). split; [lia|by constructor].
Qed.

Lemma value_leaf_ok depth v : visit_ok (RValue v) depth ↔ depth ≤ depthLimit L ∧ value_ok v depth.
Proof.
  unfold visit_ok, value_ok. simpl. pose proof (value_height_pos v). split.
  - intros (? & Hc). inversion Hc. split_and!; [lia|done..].
  - intros (? & ? & ?). split; [done|by constructor].
Qed.

(** A leaf has height zero: only its node and its condition count. *)
Lemma leaf_ok depth v P : height L v = 0 → (clean L v ↔ P) → visit_ok v depth ↔ depth ≤ depthLimit L ∧ P.
Proof. unfold visit_ok. intros -> ->. by rewrite Z.add_0_r. Qed.

(** One node, then the body of the case. *)
Lemma adds_case v depth body c P :
  (∀ b, visit L v depth b = valueNode L depth b ≫= body) → adds L body c P →
  cost L v = plus (nodes_cost 1) c → (visit_ok v depth ↔ depth ≤ depthLimit L ∧ P) →
  adds L (visit L v depth) (cost L v) (visit_ok v depth).
Proof.
  intros Hb Ha Hc Hok. eapply adds_proper; [eapply adds_ext; [|apply adds_bind; [apply (adds_valueNode L depth)|exact Ha]]| |].
  - intros b. symmetry. apply Hb.
  - done.
  - by symmetry.
Qed.

(** The walk of [v] from any point within the limits. *)
Lemma adds_visit v : ∀ depth, adds L (visit L v depth) (cost L v) (visit_ok v depth).
Proof.
  induction v as [|v IH|s|x|z|y u|v|fs IH|vs IH|raw o|m IH] using reflected_nested_ind; intros depth.
  - eapply adds_case; [done|apply adds_ok|done|]. apply leaf_ok; [done|]. split; [done|constructor].
  - eapply adds_case; [done|apply IH|done|apply ref_ok].
  - eapply adds_case; [done|apply adds_string|done|]. apply leaf_ok; [done|].
    split; [by inversion 1|by constructor].
  - eapply adds_case; [done|eapply adds_fail, adds_ok|done|]. apply leaf_ok; [done|]. rewrite finite_iff.
    split; [by inversion 1|intros [? _]; by constructor].
  - eapply adds_case; [done|apply adds_ok|done|]. apply leaf_ok; [done|]. split; [done|constructor].
  - eapply adds_case; [done|apply (adds_pure L (validateNativeTime y u)); reflexivity|done|].
    apply leaf_ok; [done|]. unfold validateNativeTime. rewrite guard_err_iff, orb_false_iff.
    split; [by inversion 1|intros [? ?]; by constructor].
  - eapply adds_case; [done|apply adds_valueFields|done|apply value_leaf_ok].
  - eapply adds_case; [done|by apply adds_structFields|done|apply struct_ok].
  - eapply adds_case; [done|apply adds_bind; [apply adds_fields; lia|by apply adds_visit_items]|done|].
    rewrite seq_ok. tauto.
  - eapply adds_case; [done|apply adds_byteSlice|done|]. apply leaf_ok; [done|].
    split; [by inversion 1|by constructor].
  - eapply adds_case; [done|apply adds_bind; [apply adds_fields; lia|by apply adds_visit_entries]|done|].
    rewrite map_ok. tauto.
Qed.
End walk_spec.

Lemma metadataAdmission_spec v d n json : 0 ≤ n →
  metadataAdmission v d n json ≠ None ∧
  (metadataAdmission v d n json = Some (Ok tt) ↔
   visit_ok (mkBL d n json) v 0 ∧ within (mkBL d n json) (cost (mkBL d n json) v)).
Proof.
  intros Hn. set (L := mkBL d n json).
  destruct (adds_visit L v 0) as [_ H]. destruct (H spent) as [Hd Hv]; [by unfold within|].
  unfold metadataAdmission. fold L. change (mkMB 0 0 0 0) with spent. split.
  - by apply outcome_bind_defined.
  - rewrite outcome_bind_some. setoid_rewrite Hv. rewrite spent_plus. naive_solver.
Qed.

(** Every leaf of an admitted DTO is well formed. *)
Lemma admission_clean `{Reflect A} (a : A) : admission a = Some (Ok tt) →
  clean (mkBL (maxDomainDepth * reflectionDepthAllowance) (maxDomainNodes * reflectionNodeAllowance) false) (reflect a).
Proof. intros Ha. apply metadataAdmission_spec in Ha as [[_ Hc] _]; [exact Hc|done]. Qed.

(** The structural admission always answers, and accepts a value exactly when
    its nesting is within the depth limit, every leaf is well formed (UTF-8
    strings, finite numbers, four-digit years, valid raw JSON), and the sums of
    its nodes, fields, string bytes and tagged values are within their limits:
    stopping at the first excess loses no value and admits none. *)
Theorem metadataAdmission_iff v d n json : 0 ≤ n →
  metadataAdmission v d n json ≠ None ∧
  (metadataAdmission v d n json = Some (Ok tt) ↔
   height (mkBL d n json) v ≤ d ∧ clean (mkBL d n json) v
   ∧ within (mkBL d n json) (cost (mkBL d n json) v)).
Proof.
  intros Hn. destruct (metadataAdmission_spec v d n json Hn) as [Hd ->]. split; [exact Hd|].
  unfold visit_ok. change (depthLimit (mkBL d n json)) with d. rewrite Z.add_0_l. tauto.
Qed.

(** A nested structure with a map, a value and an empty optional field. *)
Definition sample_reflected : reflected :=
  RStruct [(false, RMap [(RString "a", RSeq [RString "x"; RFloat zero_float])]);
           (true, RString ""); (false, RValue (tagged_zero "null")); (true, RRef (RBytes false (Some [])))].

Lemma metadataAdmission_iff_witness :
  metadataAdmission sample_reflected maxDomainDepth maxDomainNodes true ≠ None ∧
  height (mkBL maxDomainDepth maxDomainNodes true) sample_reflected ≤ maxDomainDepth.
Proof.
  destruct (metadataAdmission_iff sample_reflected maxDomainDepth maxDomainNodes true) as [Hd Hiff];
    [done|].
  split; [exact Hd|]. apply Hiff. vm_compute. reflexivity.
Defined.
