(* ===== verification/Domain.v ===== *)
(** * The resource domain model (pkg/resource/v2/domain.go, ancillary_types.go)

    Addresses, scopes, schemas, catalogs, requests and records with every field
    of the Go structs, and the reflected view the structural budget walks. A
    nilable slice is an option where the code distinguishes nil from empty. *)
From S2P Require Import Prelude GoStd Errors Values Json Budget.
Local Open Scope Z_scope.

(** ** Identity and scope *)

Record ScopeEntry := mkScopeEntry { se_Dimension : string; se_Value : string }.
Record ResourceAddress := mkAddress {
  a_Provider : string; a_Authority : string; a_Type : string;
  a_Scope : list ScopeEntry; a_ID : string
}.
Record AccessRoute := mkRoute { Connection : string }.
Record ResourceReference := mkReference { r_Address : ResourceAddress; r_Incarnation : option string }.

(** A [ScopeMatch] is any string; the two constants are the valid ones. *)
Definition ScopeAny := "any".
Definition ScopeOneOf := "oneOf".
Record ScopeConstraint := mkConstraint {
  c_Dimension : string; c_Match : string; c_Values : option (list string)
}.
(** [None] is a nil scope. *)
Definition QueryScope : Type := option (list ScopeConstraint).

#[export] Instance ScopeEntry_eq_dec : EqDecision ScopeEntry.
Proof. solve_decision. Defined.
#[export] Instance ResourceAddress_eq_dec : EqDecision ResourceAddress.
Proof. solve_decision. Defined.
#[export] Instance AccessRoute_eq_dec : EqDecision AccessRoute.
Proof. solve_decision. Defined.
#[export] Instance ScopeConstraint_eq_dec : EqDecision ScopeConstraint.
Proof. solve_decision. Defined.

(** ** Schemas and representations *)

Record SchemaDocumentReference := mkDocRef { dr_ID : string; dr_Revision : string }.
#[export] Instance SchemaDocumentReference_eq_dec : EqDecision SchemaDocumentReference.
Proof. solve_decision. Defined.
Record SchemaBinding := mkSchemaBinding {
  sb_State : string; sb_Revision : option string; sb_Dialect : string; sb_Root : string;
  sb_DocumentRef : option SchemaDocumentReference; sb_Document : option bytes;
  sb_UnavailableReason : option string
}.
#[export] Instance SchemaBinding_eq_dec : EqDecision SchemaBinding.
Proof. solve_decision. Defined.
Record SchemaDocument := mkSchemaDocument {
  sd_Reference : SchemaDocumentReference; sd_Dialect : string; sd_Document : option bytes
}.
Record Representation := mkRepresentation { rp_ID : string; rp_Revision : string; rp_Schema : SchemaBinding }.
#[export] Instance Representation_eq_dec : EqDecision Representation.
Proof. solve_decision. Defined.

(** The restricted ancillary schema. *)
Inductive SchemaProperty : Type := mkProperty {
  p_Type : string; p_Description : string; p_Enum : option (list string);
  p_Minimum : option float64; p_Maximum : option float64;
  p_Properties : option (list (string * SchemaProperty)); p_Required : option (list string)
}.
Record Schema := mkSchema {
  s_Properties : option (list (string * SchemaProperty)); s_Required : option (list string)
}.

(** ** Catalogs *)

Record Dimension := mkDimension { d_Name : string; AllowEmpty : bool }.
Record Capability := mkCapability { cap_Operation : string; cap_Scope : QueryScope; Guarantee : string }.
#[export] Instance Capability_eq_dec : EqDecision Capability.
Proof. solve_decision. Defined.
Record NativeQueryDescriptor := mkQueryDescriptor {
  nq_Language : string; nq_Description : string; nq_InputSchema : Schema
}.
Record NativeAuthorityHint := mkHint { h_Scheme : string; h_ID : string; h_Continuity : string }.
Record ResourceType := mkResourceType {
  t_Type : string; t_DisplayName : string; t_Description : string;
  IdentityDimensions : list Dimension; QueryDimensions : list Dimension;
  Representations : list Representation; DefaultRepresentation : string;
  ModelRepresentation : string; NativeQueries : list NativeQueryDescriptor;
  Capabilities : list Capability; t_NativeAuthorityHint : option NativeAuthorityHint;
  AcquireOnConnect : bool
}.
Record Coverage := mkCoverage { cv_Kind : string; cv_Paths : list string; cv_Reason : string }.
Record Catalog := mkCatalog {
  cat_Provider : string; cat_Types : list ResourceType; cat_Revision : string; cat_Coverage : Coverage
}.

Definition OperationEnumerate := "enumerate".
Definition OperationGet := "get".
Definition OperationNativeQuery := "nativeQuery".
Definition OperationCreate := "create".
Definition OperationMutationUpdate := "mutationUpdate".
Definition OperationDelete := "delete".
Definition OperationAction := "action".
Definition OperationSourceUpdates := "sourceUpdates".
Definition ContinuityConnectionLocal := "connectionLocal".
Definition ContinuityStableNative := "stableNative".

(** ** Requests and records *)

Record CatalogRequest := mkCatalogRequest { cr_Route : AccessRoute }.
Record ReadTarget := mkReadTarget {
  rt_Route : AccessRoute; rt_Provider : string; rt_Authority : string; rt_Type : string;
  rt_Scope : QueryScope; rt_Representation : string
}.
Record GetRequest := mkGetRequest {
  g_Route : AccessRoute; g_Reference : ResourceReference; g_Representation : string
}.
Record EnumerateRequest := mkEnumerateRequest {
  e_Target : ReadTarget; e_PageSize : Z; e_Cursor : option string
}.
Record NativeQueryRequest := mkNativeQueryRequest {
  q_Target : ReadTarget; q_Language : string; q_Query : Value; q_PageSize : Z; q_Cursor : option string
}.
Record MutationRequest := mkMutationRequest {
  m_Route : AccessRoute; m_Reference : ResourceReference; m_Operation : string;
  m_Input : Value; m_ExpectedRevision : option string
}.
Record TypeActionTarget := mkTypeTarget {
  tt_Provider : string; tt_Authority : string; tt_Type : string; tt_Scope : QueryScope
}.
Record ActionDescriptor := mkActionDescriptor {
  ad_ID : string; ad_Label : string; ad_Description : string; ad_Icon : string; ad_Scope : string;
  Streaming : bool; ParamsSchema : option Schema; OutputSchema : option Schema; Dangerous : bool
}.
Record ActionRequest := mkActionRequest {
  ac_Route : AccessRoute; ac_Reference : ResourceReference; ac_TypeTarget : option TypeActionTarget;
  ac_Action : string; ac_Input : Value; ExpectedDescriptor : option ActionDescriptor
}.
Record Count := mkCount { cn_Kind : string; cn_Value : option string }.
Record ResourceRecord := mkRecord {
  rec_Reference : ResourceReference; rec_Body : Value; rec_Representation : Representation;
  rec_Coverage : Coverage; rec_SourceRevision : option string
}.
Record SourcePage := mkSourcePage {
  pg_Records : list ResourceRecord; NextCursor : option string; pg_Count : Count;
  pg_Coverage : Coverage; Consistency : string; pg_SourceRevision : option string
}.

Definition ActionScopeInstance := "instance".
Definition ActionScopeType := "type".

(** ** Reflected views, in field order with their json tags *)

#[export] Instance reflect_ScopeEntry : Reflect ScopeEntry := λ v,
  RStruct [field (se_Dimension v); field (se_Value v)].
#[export] Instance reflect_ResourceAddress : Reflect ResourceAddress := λ v,
  RStruct [field (a_Provider v); field (a_Authority v); field (a_Type v); field (a_Scope v); field (a_ID v)].
#[export] Instance reflect_AccessRoute : Reflect AccessRoute := λ v, RStruct [field (Connection v)].
#[export] Instance reflect_ResourceReference : Reflect ResourceReference := λ v,
  RStruct [field (r_Address v); omitted (r_Incarnation v)].
#[export] Instance reflect_ScopeConstraint : Reflect ScopeConstraint := λ v,
  RStruct [field (c_Dimension v); field (c_Match v); omitted (c_Values v)].
#[export] Instance reflect_QueryScope : Reflect QueryScope := λ v, reflect_nilable v.
#[export] Instance reflect_SchemaDocumentReference : Reflect SchemaDocumentReference := λ v,
  RStruct [field (dr_ID v); field (dr_Revision v)].
#[export] Instance reflect_SchemaBinding : Reflect SchemaBinding := λ v,
  RStruct [field (sb_State v); omitted (sb_Revision v); omitted (sb_Dialect v); omitted (sb_Root v);
           omitted (sb_DocumentRef v); (true, RBytes true (sb_Document v)); omitted (sb_UnavailableReason v)].
#[export] Instance reflect_SchemaDocument : Reflect SchemaDocument := λ v,
  RStruct [field (sd_Reference v); field (sd_Dialect v); (false, RBytes true (sd_Document v))].
#[export] Instance reflect_Representation : Reflect Representation := λ v,
  RStruct [field (rp_ID v); field (rp_Revision v); field (rp_Schema v)].
#[export] Instance reflect_SchemaProperty : Reflect SchemaProperty :=
  fix go (v : SchemaProperty) : reflected :=
    RStruct [field (p_Type v); omitted (p_Description v); (true, reflect_nilable (p_Enum v));
             omitted (p_Minimum v); omitted (p_Maximum v);
             (true, RMap match p_Properties v with
                         | Some m => map (λ e, (RString e.1, go e.2)) m
                         | None => []
                         end);
             (true, reflect_nilable (p_Required v))].
#[export] Instance reflect_Schema : Reflect Schema := λ v,
  RStruct [(true, reflect_map (listOf (s_Properties v))); (true, reflect_nilable (s_Required v))].
#[export] Instance reflect_Dimension : Reflect Dimension := λ v,
  RStruct [field (d_Name v); field (AllowEmpty v)].
#[export] Instance reflect_Capability : Reflect Capability := λ v,
  RStruct [field (cap_Operation v); field (cap_Scope v); omitted (Guarantee v)].
#[export] Instance reflect_NativeQueryDescriptor : Reflect NativeQueryDescriptor := λ v,
  RStruct [field (nq_Language v); omitted (nq_Description v); field (nq_InputSchema v)].
#[export] Instance reflect_NativeAuthorityHint : Reflect NativeAuthorityHint := λ v,
  RStruct [field (h_Scheme v); field (h_ID v); field (h_Continuity v)].
#[export] Instance reflect_ResourceType : Reflect ResourceType := λ v,
  RStruct [field (t_Type v); field (t_DisplayName v); omitted (t_Description v);
           field (IdentityDimensions v); field (QueryDimensions v); field (Representations v);
           omitted (DefaultRepresentation v); omitted (ModelRepresentation v); omitted (NativeQueries v);
           field (Capabilities v); omitted (t_NativeAuthorityHint v); field (AcquireOnConnect v)].
#[export] Instance reflect_Coverage : Reflect Coverage := λ v,
  RStruct [field (cv_Kind v); field (cv_Paths v); omitted (cv_Reason v)].
#[export] Instance reflect_Catalog : Reflect Catalog := λ v,
  RStruct [field (cat_Provider v); field (cat_Types v); field (cat_Revision v); field (cat_Coverage v)].
#[export] Instance reflect_ReadTarget : Reflect ReadTarget := λ v,
  RStruct [field (rt_Route v); field (rt_Provider v); field (rt_Authority v); field (rt_Type v);
           field (rt_Scope v); field (rt_Representation v)].
#[export] Instance reflect_GetRequest : Reflect GetRequest := λ v,
  RStruct [field (g_Route v); field (g_Reference v); field (g_Representation v)].
#[export] Instance reflect_MutationRequest : Reflect MutationRequest := λ v,
  RStruct [field (m_Route v); field (m_Reference v); field (m_Operation v); field (m_Input v);
           omitted (m_ExpectedRevision v)].
#[export] Instance reflect_TypeActionTarget : Reflect TypeActionTarget := λ v,
  RStruct [field (tt_Provider v); field (tt_Authority v); field (tt_Type v); field (tt_Scope v)].
#[export] Instance reflect_ActionDescriptor : Reflect ActionDescriptor := λ v,
  RStruct [field (ad_ID v); field (ad_Label v); field (ad_Description v); field (ad_Icon v);
           field (ad_Scope v); field (Streaming v); omitted (ParamsSchema v); omitted (OutputSchema v);
           omitted (Dangerous v)].
#[export] Instance reflect_ActionRequest : Reflect ActionRequest := λ v,
  RStruct [field (ac_Route v); field (ac_Reference v); omitted (ac_TypeTarget v); field (ac_Action v);
           field (ac_Input v); omitted (ExpectedDescriptor v)].
#[export] Instance reflect_Count : Reflect Count := λ v,
  RStruct [field (cn_Kind v); omitted (cn_Value v)].
#[export] Instance reflect_ResourceRecord : Reflect ResourceRecord := λ v,
  RStruct [field (rec_Reference v); field (rec_Body v); field (rec_Representation v);
           field (rec_Coverage v); omitted (rec_SourceRevision v)].
#[export] Instance reflect_SourcePage : Reflect SourcePage := λ v,
  RStruct [field (pg_Records v); omitted (NextCursor v); field (pg_Count v); field (pg_Coverage v);
           field (Consistency v); omitted (pg_SourceRevision v)].
