(* ===== verification/Validation.v ===== *)
(** * Semantic validation of the domain (pkg/resource/v2/validation.go,
    schema_validation.go, presentation_validation.go, features.go)

    Every validator first runs the structural budget and then its own rules, in
    the order of the code; the first failing rule is the error. *)
From S2P Require Import Prelude GoStd GoJson GoFloat Errors Values Json TaggedJson Budget Domain.
Local Open Scope Z_scope.

(** ** Shared shapes of loops *)

(** [for _, x := range l { if err := f(x); err != nil { return err } }] *)
Definition each {A} (f : A → outcome unit) : list A → outcome unit :=
  fix go l := match l with [] => Some (Ok tt) | a :: l => f a ;; go l end.

(** The same with a [seen] set of keys; a repeated key is the error [dup], found
    after [pre] and before [post] of that element. *)
Definition each_distinct {A} (key : A → string) (dup : error) (pre post : A → outcome unit)
    : list string → list A → outcome unit :=
  fix go seen l :=
    match l with
    | [] => Some (Ok tt)
    | a :: l =>
      pre a ;;
      (if bool_decide (key a ∈ seen) then fails dup else Some (Ok tt)) ;;
      post a ;;
      go (key a :: seen) l
    end.

Definition ret_ok {A} (_ : A) : outcome unit := Some (Ok tt).
Definition otext (s : string) (required : bool) : outcome unit := returns (text s required).
Definition otoken (s : option string) : outcome unit := returns (token s).
Definition require (c : bool) (e : error) : outcome unit := if c then Some (Ok tt) else fails e.

(** [m[k]] of a Go map. *)
Definition map_get {A} (k : string) (m : list (string * A)) : option A :=
  at_member k None Some m.

(** ** Dimensions, addresses and scopes *)

Fixpoint dimensions_go (ds : list Dimension) (out : list (string * bool)) : outcome (list (string * bool)) :=
  match ds with
  | [] => Some (Ok out)
  | d :: ds =>
    otext (d_Name d) true ;;
    if bool_decide (d_Name d ∈ out.*1) then fails (invalid "duplicate dimension")
    else dimensions_go ds (out ++ [(d_Name d, AllowEmpty d)])
  end.
(** The map from each dimension's name to whether it may be empty. *)
Definition dimensions (ds : list Dimension) : outcome (list (string * bool)) :=
  admission ds ;; dimensions_go ds [].

Definition validateIdentityDimension (name value : string) (allowed : option (list (string * bool)))
    : outcome unit :=
  match allowed with
  | None => Some (Ok tt)
  | Some allowed =>
    match map_get name allowed with
    | None => fails (invalid "unknown identity dimension")
    | Some empty => require (negb (bool_decide (value = "") && negb empty)) (invalid "empty identity dimension")
    end
  end.

(** The declaration as the variadic argument: none, or one list. *)
Definition declared_dimensions (declared : option (list Dimension)) : outcome (option (list (string * bool))) :=
  match declared with
  | None => Some (Ok None)
  | Some ds => allowed ← dimensions ds; Some (Ok (Some allowed))
  end.

Definition covers_declared {A} (seen : list A) (allowed : option (list (string * bool))) : bool :=
  match allowed with
  | None => true
  | Some allowed => (length seen =? length allowed)%nat
  end.

Definition ValidateAddress (a : ResourceAddress) (declared : option (list Dimension)) : outcome unit :=
  admission a ;;
  each (λ s, otext s true) [a_Provider a; a_Authority a; a_Type a; a_ID a] ;;
  allowed ← declared_dimensions declared;
  each_distinct se_Dimension (invalid "duplicate identity dimension")
    (λ s, otext (se_Dimension s) true)
    (λ s, validateIdentityDimension (se_Dimension s) (se_Value s) allowed) [] (a_Scope a) ;;
  require (covers_declared (a_Scope a) allowed) (invalid "missing identity dimension").

Definition validateScopeSelection (c : ScopeConstraint) (allowEmpty : bool) : outcome unit :=
  if bool_decide (c_Match c = ScopeAny) then
    require (bool_decide (c_Values c = None)) (invalid "any scope has values")
  else if bool_decide (c_Match c = ScopeOneOf) then
    match c_Values c with
    | None => fails (invalid "oneOf scope requires values")
    | Some vs => each (λ v, require (negb (bool_decide (v = "") && negb allowEmpty))
                              (invalid "empty query dimension")) vs
    end
  else fails (invalid "unknown scope match").

Definition validateConstraint (allowed : option (list (string * bool))) (c : ScopeConstraint) : outcome unit :=
  match allowed with
  | None => validateScopeSelection c true
  | Some allowed =>
    match map_get (c_Dimension c) allowed with
    | None => fails (invalid "unknown query dimension")
    | Some empty => validateScopeSelection c empty
    end
  end.

Definition ValidateScope (s : QueryScope) (declared : option (list Dimension)) : outcome unit :=
  admission s ;;
  allowed ← declared_dimensions declared;
  each_distinct c_Dimension (invalid "duplicate query dimension")
    (λ c, otext (c_Dimension c) true) (validateConstraint allowed) [] (listOf s) ;;
  require (covers_declared (listOf s) allowed) (invalid "missing query dimension").

Definition validateReference (r : ResourceReference) : outcome unit :=
  ValidateAddress (r_Address r) None ;; otoken (r_Incarnation r).
Definition validateRoute (r : AccessRoute) : outcome unit := otext (Connection r) true.

(** ** Schema bindings *)

Definition upper_or_underscore (c : ascii) : bool := byte_in 65 90 c || (byte_val c =? 95).

Definition ValidateSchemaUnavailableReason (reason : string) : outcome unit :=
  require (negb ((slen reason =? 0) || (64 <? slen reason))) (invalid "invalid schema unavailable reason") ;;
  require (forallb upper_or_underscore (bytes_of reason)) (invalid "invalid schema unavailable reason") ;;
  require (IsErrorCode reason) (invalid "unknown schema unavailable reason").

(** [url.PathUnescape]: two hexadecimal digits after every percent sign. *)
Fixpoint path_unescape (b : bytes) : option bytes :=
  match b with
  | [] => Some []
  | c :: t =>
    if Ascii.eqb c "%" then
      match t with
      | h :: l :: t' =>
        x ← hex_value h; y ← hex_value l; r ← path_unescape t'; Some (byte_of (x * 16 + y) :: r)
      | _ => None
      end
    else r ← path_unescape t; Some (c :: r)
  end.

(** Every tilde is followed by 0 or 1. *)
Fixpoint pointer_escapes (b : bytes) : bool :=
  match b with
  | [] => true
  | c :: t =>
    if Ascii.eqb c "~" then
      match t with
      | d :: t' => (Ascii.eqb d "0" || Ascii.eqb d "1") && pointer_escapes t'
      | [] => false
      end
    else pointer_escapes t
  end.

Definition fragment_bad (c : ascii) : bool :=
  Ascii.eqb c "#" || (byte_val c <? 33) || (byte_val c =? 127).

Definition validateSchemaRoot (root : string) : outcome unit :=
  if bool_decide (root = "") then Some (Ok tt) else
  let b := bytes_of root in
  require (byte_is b 0 "#" && byte_is b 1 "/") (invalid "schema root must be local JSON pointer fragment") ;;
  require (negb (existsb fragment_bad (drop 1 b))) (invalid "invalid schema root URI fragment") ;;
  match path_unescape (drop 1 b) with
  | Some pointer =>
    require (utf8_valid pointer) (invalid "invalid schema root encoding") ;;
    require (pointer_escapes pointer) (invalid "invalid schema root pointer escape")
  | None => fails (invalid "invalid schema root encoding")
  end.

Definition validateSchemaDocumentReference (v : SchemaDocumentReference) : outcome unit :=
  otext (dr_ID v) true ;; otext (dr_Revision v) true.

Definition schemaStateAvailable := "available".
Definition schemaStateAbsent := "absent".
Definition schemaStateUnavailable := "unavailable".

Definition has_document (s : SchemaBinding) : bool :=
  match sb_Document s with Some (_ :: _) => true | _ => false end.

Definition validateSchemaState (s : SchemaBinding) : outcome unit :=
  if bool_decide (sb_State s = schemaStateAvailable) then
    require (negb (bool_decide (sb_Revision s = None) || bool_decide (sb_Dialect s = "")
                   || Bool.eqb (has_document s) (negb (bool_decide (sb_DocumentRef s = None)))))
      (invalid "available schema requires exactly one document binding") ;;
    if has_document s then parseJSON (default [] (sb_Document s)) ;; Some (Ok tt) else Some (Ok tt)
  else if bool_decide (sb_State s = schemaStateAbsent) then
    require (bool_decide (sb_Revision s = None) && bool_decide (sb_Dialect s = "")
             && bool_decide (sb_Root s = "") && bool_decide (sb_DocumentRef s = None)
             && negb (has_document s)) (invalid "absent schema has document binding")
  else if bool_decide (sb_State s = schemaStateUnavailable) then
    require (negb (has_document s)) (invalid "unavailable schema has inline document")
  else fails (invalid "unknown schema state").

Definition validateSchema (s : SchemaBinding) : outcome unit :=
  admission s ;;
  otoken (sb_Revision s) ;;
  validateSchemaRoot (sb_Root s) ;;
  match sb_UnavailableReason s with
  | Some reason =>
    require (bool_decide (sb_State s = schemaStateUnavailable))
      (invalid "schema unavailable reason requires unavailable state") ;;
    ValidateSchemaUnavailableReason reason
  | None => Some (Ok tt)
  end ;;
  match sb_DocumentRef s with Some r => validateSchemaDocumentReference r | None => Some (Ok tt) end ;;
  validateSchemaState s.

Definition ValidateSchemaDocument (v : SchemaDocument) : outcome unit :=
  admission v ;;
  validateSchemaDocumentReference (sd_Reference v) ;;
  otext (sd_Dialect v) true ;;
  parseJSON (default [] (sd_Document v)) ;; Some (Ok tt).

Definition validateRepresentation (r : Representation) : outcome unit :=
  otext (rp_ID r) true ;; otext (rp_Revision r) true ;; validateSchema (rp_Schema r).

(** ** Coverage and counts *)

Definition coverageUnknown := "unknown".
Definition countUnknown := "unknown".

Definition validateCoveragePath (path : string) : outcome unit :=
  let b := bytes_of path in
  require (utf8_valid b && byte_is b 0 "/")
    (invalid (string_of (json_text "coverage path must be an RFC6901 JSON pointer starting with '/'"))) ;;
  require (pointer_escapes b) (invalid "coverage path has an invalid RFC6901 escape").

Definition validateCoverage (c : Coverage) : outcome unit :=
  admission c ;;
  if bool_decide (cv_Kind c = "complete") then
    require ((length (cv_Paths c) =? 0)%nat && bool_decide (cv_Reason c = ""))
      (invalid "complete coverage has limitations")
  else if bool_decide (cv_Kind c = "partial") || bool_decide (cv_Kind c = coverageUnknown) then
    require (negb (bool_decide (cv_Reason c = ""))) (invalid "incomplete coverage lacks reason") ;;
    each validateCoveragePath (cv_Paths c)
  else fails (invalid "unknown coverage kind").

Definition validateCount (c : Count) : outcome unit :=
  if bool_decide (cn_Kind c = countUnknown) then
    require (bool_decide (cn_Value c = None)) (invalid "unknown count has value")
  else if bool_decide (cn_Kind c = "exact") || bool_decide (cn_Kind c = "estimate") then
    match cn_Value c with
    | None => fails (invalid "count lacks value")
    | Some v => returns (canonicalInt v true)
    end
  else fails (invalid "unknown count kind").

(** ** The restricted ancillary schema *)

Definition SchemaString := "string".
Definition SchemaInteger := "integer".
Definition SchemaNumber := "number".
Definition SchemaBoolean := "boolean".
Definition SchemaObject := "object".
Definition SchemaArray := "array".

Definition validateActionRequired (required : list string) : outcome unit :=
  each_distinct id (invalid "duplicate action schema required name") (λ n, otext n true) ret_ok [] required.

Definition validateActionEnum (p : SchemaProperty) : outcome unit :=
  match p_Enum p with
  | None => Some (Ok tt)
  | Some items =>
    require (bool_decide (p_Type p = SchemaString)) (invalid "action schema enum requires string type") ;;
    require (negb (length items =? 0)%nat) (invalid "action schema enum must not be empty") ;;
    each_distinct id (invalid "duplicate action schema enum value") ret_ok ret_ok [] items
  end.

Definition nonfinite (o : option float64) : bool :=
  match o with Some x => f64_is_nan x || f64_is_inf x | None => false end.

Definition known_schema_type (t : string) : bool :=
  bool_decide (t ∈ [SchemaString; SchemaInteger; SchemaNumber; SchemaBoolean; SchemaObject; SchemaArray]).

Definition is_numeric_type (t : string) : bool :=
  bool_decide (t = SchemaInteger) || bool_decide (t = SchemaNumber).

(** [sort.Strings] of the names, then each property with its own check. *)
Definition run_properties (depth : Z) : list (string * (Z → outcome unit)) → outcome unit :=
  each (λ e, otext e.1 true ;; e.2 depth).

Definition validateActionProperties (check : SchemaProperty → Z → outcome unit)
    (properties : list (string * SchemaProperty)) (depth : Z) : outcome unit :=
  run_properties depth (sort_entries (map (λ e, (e.1, check e.2)) properties)).

Fixpoint validateActionProperty (p : SchemaProperty) (depth : Z) : outcome unit :=
  (if MaxValueDepth <? depth then fails (limited "action schema depth limit") else Some (Ok tt)) ;;
  require (known_schema_type (p_Type p)) (invalid "unknown action schema type") ;;
  validateActionEnum p ;;
  require (negb ((negb (bool_decide (p_Minimum p = None)) || negb (bool_decide (p_Maximum p = None)))
                 && negb (is_numeric_type (p_Type p))))
    (invalid "action schema bounds require numeric type") ;;
  require (negb (((if p_Properties p is None then false else true) || negb (bool_decide (p_Required p = None)))
                 && negb (bool_decide (p_Type p = SchemaObject))))
    (invalid "action schema properties require object type") ;;
  require (negb (nonfinite (p_Minimum p))) (invalid "nonfinite action schema minimum") ;;
  require (negb (nonfinite (p_Maximum p))) (invalid "nonfinite action schema maximum") ;;
  match p_Minimum p, p_Maximum p with
  | Some lo, Some hi => require (negb (SFltb hi lo)) (invalid "action schema minimum exceeds maximum")
  | _, _ => Some (Ok tt)
  end ;;
  validateActionRequired (listOf (p_Required p)) ;;
  match p_Properties p with
  | Some m => validateActionProperties validateActionProperty m (depth + 1)
  | None => Some (Ok tt)
  end.

Definition validateSchemaObject (properties : list (string * SchemaProperty)) (required : list string)
    (depth : Z) : outcome unit :=
  validateActionRequired required ;;
  validateActionProperties validateActionProperty properties depth.

Definition ValidateSchema (s : Schema) : outcome unit :=
  admission s ;; validateSchemaObject (listOf (s_Properties s)) (listOf (s_Required s)) 0.

(** Exact comparison of rationals with positive denominators. *)
Definition rat : Type := Z * Z.
Definition rat_lt (a b : rat) : bool := a.1 * b.2 <? b.1 * a.2.
(** [new(big.Rat).SetFloat64(x)] of a finite [x]. *)
Definition rat_of_float (x : float64) : rat :=
  match x with
  | S754_finite s m e =>
    let m := if s then Z.neg m else Z.pos m in
    if 0 <=? e then (m * 2 ^ e, 1) else (m, 2 ^ (- e))
  | _ => (0, 1)
  end.

Definition validateSchemaNumericValue (p : SchemaProperty) (v : Value) : outcome unit :=
  let k := vKind v in
  require (bool_decide (k = valueKindInt64) || bool_decide (k = valueKindUint64)
           || (bool_decide (k = valueKindDouble)
               && negb (bool_decide (p_Type p = SchemaInteger) && negb (f64_is_integral (vDouble v)))))
    (invalid "action schema requires numeric type") ;;
  let n := if bool_decide (k = valueKindInt64) then (ParseInt_value (vInt v), 1)
           else if bool_decide (k = valueKindUint64) then (ParseUint_value (vUint v), 1)
           else rat_of_float (vDouble v) in
  match p_Minimum p with
  | Some lo => require (negb (rat_lt n (rat_of_float lo))) (invalid "action number is below minimum")
  | None => Some (Ok tt)
  end ;;
  match p_Maximum p with
  | Some hi => require (negb (rat_lt (rat_of_float hi) n)) (invalid "action number exceeds maximum")
  | None => Some (Ok tt)
  end.

Definition has_member (v : Value) (name : string) : bool :=
  match map_get name (listOf (vMap v)) with Some _ => true | None => false end.

(** The declared members that are present, in name order. *)
Definition run_members (v : Value) : list (string * (Value → outcome unit)) → outcome unit :=
  each (λ e, match map_get e.1 (listOf (vMap v)) with Some value => e.2 value | None => Some (Ok tt) end).

Definition validateSchemaObjectValue (check : SchemaProperty → Value → outcome unit)
    (properties : list (string * SchemaProperty)) (required : list string) (v : Value) : outcome unit :=
  require (bool_decide (vKind v = valueKindMap)) (invalid "action schema requires object") ;;
  each (λ n, require (has_member v n) (invalid "required action property is missing")) required ;;
  run_members v (sort_entries (map (λ e, (e.1, check e.2)) properties)).

Fixpoint validateSchemaPropertyValue (p : SchemaProperty) (v : Value) : outcome unit :=
  let t := p_Type p in
  if bool_decide (t = SchemaString) then
    require (bool_decide (vKind v = valueKindString)) (invalid "action schema requires string") ;;
    require (match listOf (p_Enum p) with
             | [] => true
             | items => bool_decide (vString v ∈ items)
             end) (invalid "action string is outside enum")
  else if bool_decide (t = SchemaBoolean) then
    require (bool_decide (vKind v = valueKindBool)) (invalid "action schema requires boolean")
  else if bool_decide (t = SchemaObject) then
    match p_Properties p with
    | Some m => validateSchemaObjectValue validateSchemaPropertyValue m (listOf (p_Required p)) v
    | None => validateSchemaObjectValue validateSchemaPropertyValue [] (listOf (p_Required p)) v
    end
  else if bool_decide (t = SchemaArray) then
    require (bool_decide (vKind v = valueKindList)) (invalid "action schema requires array")
  else if is_numeric_type t then validateSchemaNumericValue p v
  else Some (Ok tt).

Section values.
Context `{Protowire}.

Definition validate_value (v : Value) : outcome unit := ValidateValue v.

Definition ValidateSchemaValue (s : Schema) (v : Value) : outcome unit :=
  ValidateSchema s ;; validate_value v ;;
  validateSchemaObjectValue validateSchemaPropertyValue (listOf (s_Properties s)) (listOf (s_Required s)) v.

Definition ValidateActionInput (d : ActionDescriptor) (v : Value) : outcome unit :=
  match ParamsSchema d with Some s => ValidateSchemaValue s v | None => validate_value v end.
Definition ValidateActionOutput (d : ActionDescriptor) (v : Value) : outcome unit :=
  match OutputSchema d with Some s => ValidateSchemaValue s v | None => validate_value v end.
End values.

Definition validate_schema_pointer (s : option Schema) : outcome unit :=
  match s with Some s => ValidateSchema s | None => Some (Ok tt) end.

Definition ValidateActionDescriptors (v : list ActionDescriptor) : outcome unit :=
  admission v ;;
  each_distinct ad_ID (invalid "duplicate action descriptor") (λ a, otext (ad_ID a) true)
    (λ a, require (bool_decide (ad_Scope a = ActionScopeInstance) || bool_decide (ad_Scope a = ActionScopeType))
            (invalid "unknown action scope") ;;
          validate_schema_pointer (ParamsSchema a) ;; validate_schema_pointer (OutputSchema a)) [] v.

(** ** Features *)

Definition known_features : list string :=
  ["connections"; "connectionReadiness"; "connectionBrowser"; "connectionOverlay"; "scopeValues";
   "presentation"; "editorSchemas"; "schemaDocuments"; "relationships"; "health"; "actionCatalog";
   "streamingActions"; "sourceSessions"; "bestEffortUpdates"; "connectionMetadata"].
Definition FeatureSourceSessions := "sourceSessions".
Definition featureLegacyBestEffortUpdates := "bestEffortUpdates".

Record FeatureSet := mkFeatures { Traits : list string }.
Definition Has (f : FeatureSet) (trait : string) : bool := bool_decide (trait ∈ Traits f).

Definition ValidateFeatures (f : FeatureSet) : outcome unit :=
  each_distinct id (invalid "duplicate ancillary feature") ret_ok
    (λ x, require (bool_decide (x ∈ known_features)) (unsupported "unknown ancillary feature")) [] (Traits f) ;;
  require (negb (Has f FeatureSourceSessions && Has f featureLegacyBestEffortUpdates))
    (invalid "legacy updates conflict with source sessions").

(** The optional interfaces a provider's method set offers, in the order
    [DetectFeatures] asks for them. *)
Definition trait_order : list string :=
  ["connections"; "connectionReadiness"; "connectionBrowser"; "connectionOverlay"; "scopeValues";
   "presentation"; "editorSchemas"; "schemaDocuments"; "relationships"; "health"; "actionCatalog";
   "streamingActions"; "sourceSessions"; "connectionMetadata"].

(** [explicit] is what [FeatureNegotiator.Features] answers when the provider
    has that interface; [implements] tells which optional interfaces it has. *)
Definition DetectFeatures (explicit : option (outcome FeatureSet)) (implements : string → bool)
    : outcome FeatureSet :=
  match explicit with
  | Some answer => f ← answer; ValidateFeatures f ;; Some (Ok f)
  | None => Some (Ok (mkFeatures (filter (λ t, implements t = true) trait_order)))
  end.

(** ** Catalogs *)

Definition ContinuityGapFree := "gapFree".
Definition ContinuityBestEffort := "bestEffort".

Definition finite_operation (op : string) : bool :=
  bool_decide (op ∈ [OperationGet; OperationEnumerate; OperationNativeQuery; OperationCreate;
                     OperationMutationUpdate; OperationDelete; OperationAction]).

Definition validateCapability (v : Capability) : outcome unit :=
  (if finite_operation (cap_Operation v) then
     require (bool_decide (Guarantee v = "")) (invalid "finite capability has update guarantee")
   else if bool_decide (cap_Operation v = OperationSourceUpdates) then
     require (bool_decide (Guarantee v = ContinuityGapFree) || bool_decide (Guarantee v = ContinuityBestEffort))
       (invalid "unsupported source update guarantee")
   else if bool_decide (cap_Operation v = "update") then
     require (bool_decide (Guarantee v = ContinuityBestEffort)) (invalid "unsupported legacy update guarantee")
   else fails (invalid "unknown capability operation")) ;;
  ValidateScope (cap_Scope v) None.

Definition validateNativeAuthorityHint (v : NativeAuthorityHint) : outcome unit :=
  admission v ;;
  otext (h_Scheme v) true ;;
  otext (h_ID v) true ;;
  require (bool_decide (h_Continuity v = ContinuityConnectionLocal)
           || bool_decide (h_Continuity v = ContinuityStableNative))
    (invalid "unknown native authority continuity").

Definition validateNativeQueryDescriptors (queries : list NativeQueryDescriptor) : outcome unit :=
  each_distinct nq_Language (invalid "duplicate native query language")
    (λ q, otext (nq_Language q) true ;; otext (nq_Description q) false)
    (λ q, ValidateSchema (nq_InputSchema q)) [] queries.

Definition declares (t : ResourceType) (id : string) : bool :=
  bool_decide (id ∈ map rp_ID (Representations t)).

Definition validateResourceType (t : ResourceType) : outcome unit :=
  dimensions (IdentityDimensions t) ;;
  dimensions (QueryDimensions t) ;;
  each_distinct rp_ID (invalid "duplicate representation") validateRepresentation ret_ok []
    (Representations t) ;;
  require (bool_decide (DefaultRepresentation t = "") || declares t (DefaultRepresentation t))
    (invalid "default representation is not declared") ;;
  require (bool_decide (ModelRepresentation t = "") || declares t (ModelRepresentation t))
    (invalid "model representation is not declared") ;;
  validateNativeQueryDescriptors (NativeQueries t) ;;
  each (λ c, validateCapability c ;; ValidateScope (cap_Scope c) (Some (QueryDimensions t))) (Capabilities t) ;;
  require (negb (AcquireOnConnect t
                 && negb (existsb (λ c, bool_decide (cap_Operation c = OperationSourceUpdates)) (Capabilities t))))
    (invalid "acquire on connect requires source updates").

Definition ValidateCatalog (c : Catalog) : outcome unit :=
  admission c ;;
  otext (cat_Provider c) true ;;
  otext (cat_Revision c) true ;;
  validateCoverage (cat_Coverage c) ;;
  each_distinct t_Type (invalid "duplicate resource type")
    (λ t, match t_NativeAuthorityHint t with
          | Some h => validateNativeAuthorityHint h
          | None => Some (Ok tt)
          end ;; otext (t_Type t) true)
    validateResourceType [] (cat_Types c).

Definition ValidateCatalogFeatures (c : Catalog) (features : FeatureSet) : outcome unit :=
  ValidateFeatures features ;;
  ValidateCatalog c ;;
  require (negb (Has features FeatureSourceSessions
                 && existsb (λ t, existsb (λ k, bool_decide (cap_Operation k = "update")) (Capabilities t))
                      (cat_Types c)))
    (invalid "legacy update conflicts with source sessions").

Definition ValidateProviderCatalog (explicit : option (outcome FeatureSet)) (implements : string → bool)
    (catalog : Catalog) : outcome unit :=
  features ← DetectFeatures explicit implements;
  ValidateCatalogFeatures catalog features.

(** ** Requests *)

Definition validateTarget (t : ReadTarget) : outcome unit :=
  admission t ;;
  validateRoute (rt_Route t) ;;
  each (λ s, otext s true) [rt_Provider t; rt_Authority t; rt_Type t; rt_Representation t] ;;
  ValidateScope (rt_Scope t) None.

Definition ValidateGetRequest (v : GetRequest) : outcome unit :=
  admission v ;; validateRoute (g_Route v) ;; validateReference (g_Reference v) ;;
  otext (g_Representation v) true.

Definition ValidateEnumerateRequest (v : EnumerateRequest) : outcome unit :=
  validateTarget (e_Target v) ;;
  require (negb (maxPageRecords <? e_PageSize v)) (limited "page size limit") ;;
  otoken (e_Cursor v).

Section requests.
Context `{Protowire}.

Definition ValidateNativeQueryRequest (v : NativeQueryRequest) : outcome unit :=
  ValidateEnumerateRequest (mkEnumerateRequest (q_Target v) (q_PageSize v) (q_Cursor v)) ;;
  otext (q_Language v) true ;;
  validate_value (q_Query v).

Definition ValidateMutationRequest (v : MutationRequest) : outcome unit :=
  admission v ;; validateRoute (m_Route v) ;; validateReference (m_Reference v) ;;
  otext (m_Operation v) true ;; otoken (m_ExpectedRevision v) ;; validate_value (m_Input v).

Definition no_reference (r : ResourceReference) : bool :=
  let a := r_Address r in
  bool_decide (a_Provider a = "") && bool_decide (a_Authority a = "") && bool_decide (a_Type a = "")
  && bool_decide (a_ID a = "") && (length (a_Scope a) =? 0)%nat && bool_decide (r_Incarnation r = None).

Definition ValidateActionRequest (v : ActionRequest) : outcome unit :=
  admission v ;;
  validateRoute (ac_Route v) ;;
  match ac_TypeTarget v with
  | Some t =>
    require (no_reference (ac_Reference v)) (invalid "action requires exactly one target") ;;
    each (λ s, otext s true) [tt_Provider t; tt_Authority t; tt_Type t] ;;
    ValidateScope (tt_Scope t) None
  | None => validateReference (ac_Reference v)
  end ;;
  otext (ac_Action v) true ;;
  match ExpectedDescriptor v with
  | Some d => ValidateActionDescriptors [d]
  | None => Some (Ok tt)
  end ;;
  validate_value (ac_Input v).

Definition ValidateRecord (r : ResourceRecord) : outcome unit :=
  admission r ;;
  validateReference (rec_Reference r) ;;
  require (bool_decide (vKind (rec_Body r) = valueKindMap)) (invalid "resource body root must be map") ;;
  validate_value (rec_Body r) ;;
  validateRepresentation (rec_Representation r) ;;
  validateCoverage (rec_Coverage r) ;;
  otoken (rec_SourceRevision r).

(** ** Wire sizes; [None] is a panic on a value without a mapping *)

Definition stringFieldSize (s : string) : option Z :=
  if bool_decide (s = "") then Some 0 else messageFieldSize (slen s).
Definition optionalStringFieldSize (s : option string) : option Z :=
  match s with None => Some 0 | Some s => messageFieldSize (slen s) end.

Definition total (l : list (option Z)) : option Z := add_sizes id l 0.

Definition addressWireSize (a : ResourceAddress) : option Z :=
  size ← total [stringFieldSize (a_Provider a); stringFieldSize (a_Authority a);
                stringFieldSize (a_Type a); stringFieldSize (a_ID a)];
  add_sizes (λ e, total [stringFieldSize (se_Dimension e); stringFieldSize (se_Value e)] ≫= messageFieldSize)
    (a_Scope a) size.

Definition referenceWireSize (r : ResourceReference) : option Z :=
  total [addressWireSize (r_Address r) ≫= messageFieldSize; optionalStringFieldSize (r_Incarnation r)].

Definition schemaWireSize (s : SchemaBinding) : option Z :=
  size ← total [stringFieldSize (sb_State s); optionalStringFieldSize (sb_Revision s);
                stringFieldSize (sb_Dialect s); stringFieldSize (sb_Root s);
                optionalStringFieldSize (sb_UnavailableReason s)];
  document ← (if has_document s then messageFieldSize (blen (default [] (sb_Document s))) else Some 0);
  reference ← match sb_DocumentRef s with
              | Some r => total [stringFieldSize (dr_ID r); stringFieldSize (dr_Revision r)] ≫= messageFieldSize
              | None => Some 0
              end;
  Some (size + document + reference).

Definition coverageWireSize (c : Coverage) : option Z :=
  size ← total [stringFieldSize (cv_Kind c); stringFieldSize (cv_Reason c)];
  add_sizes (λ p, messageFieldSize (slen p)) (cv_Paths c) size.

Definition recordWireSize (r : ResourceRecord) : option Z :=
  let rp := rec_Representation r in
  representation ← total [stringFieldSize (rp_ID rp); stringFieldSize (rp_Revision rp);
                          schemaWireSize (rp_Schema rp) ≫= messageFieldSize];
  total [referenceWireSize (rec_Reference r) ≫= messageFieldSize;
         valueWireSize (rec_Body r) ≫= messageFieldSize;
         messageFieldSize representation;
         coverageWireSize (rec_Coverage r) ≫= messageFieldSize;
         optionalStringFieldSize (rec_SourceRevision r)].

Definition no_error {A} (o : option A) : outcome A := a ← (o : option A); Some (Ok a).

Definition RecordWireSize (r : ResourceRecord) : outcome Z :=
  ValidateRecord r ;;
  size ← no_error (recordWireSize r);
  if MaxMessageBytes <? size then fails (limited "record wire byte limit") else Some (Ok size).

(** ** Pages *)

Fixpoint page_records (l : list ResourceRecord) (bodyBytes pageBytes : Z) : outcome Z :=
  match l with
  | [] => Some (Ok pageBytes)
  | r :: l =>
    ValidateRecord r ;;
    body ← no_error (valueWireSize (rec_Body r));
    size ← no_error (recordWireSize r ≫= messageFieldSize);
    let bodyBytes := bodyBytes + body in
    let pageBytes := pageBytes + size in
    if (MaxPageBodyBytes <? bodyBytes) || (MaxMessageBytes <? pageBytes)
    then fails (limited "page byte limit")
    else page_records l bodyBytes pageBytes
  end.

(** The page's own fields after its records. *)
Definition page_trailer_size (p : SourcePage) : option Z :=
  total [optionalStringFieldSize (NextCursor p);
         total [stringFieldSize (cn_Kind (pg_Count p)); optionalStringFieldSize (cn_Value (pg_Count p))]
           ≫= messageFieldSize;
         coverageWireSize (pg_Coverage p) ≫= messageFieldSize;
         stringFieldSize (Consistency p);
         optionalStringFieldSize (pg_SourceRevision p)].

Definition ValidateSourcePage (p : SourcePage) : outcome unit :=
  require (negb (maxPageRecords <? Z.of_nat (length (pg_Records p)))) (limited "page record limit") ;;
  admission p ;;
  pageBytes ← page_records (pg_Records p) 0 0;
  otoken (NextCursor p) ;;
  otoken (pg_SourceRevision p) ;;
  validateCount (pg_Count p) ;;
  require (negb (bool_decide (cn_Kind (pg_Count p) = "exact")
                 && (ParseUint_value (default "" (cn_Value (pg_Count p))) <? Z.of_nat (length (pg_Records p)))))
    (invalid "exact count below page length") ;;
  validateCoverage (pg_Coverage p) ;;
  trailer ← no_error (page_trailer_size p);
  frame ← no_error (messageFieldSize (pageBytes + trailer));
  (if MaxMessageBytes <? 2 + frame then fails (limited "page frame byte limit") else Some (Ok tt)) ;;
  require (bool_decide (Consistency p = "bestEffort") || bool_decide (Consistency p = "pointInTime"))
    (invalid "unknown source consistency").
End requests.

(** ** Rules of the shared loops *)

Lemma outcome_seq_ok {B} (m : outcome unit) (k : unit → outcome B) b :
  m ≫= k = Some (Ok b) ↔ m = Some (Ok tt) ∧ k tt = Some (Ok b).
Proof. rewrite outcome_bind_some. split; [intros ([] & ? & ?); auto|intros [? ?]; eauto]. Qed.

Lemma require_ok c e : require c e = Some (Ok tt) ↔ c = true.
Proof. destruct c; simpl; split; done. Qed.

Lemma each_ok {A} (f : A → outcome unit) l : each f l = Some (Ok tt) ↔ Forall (λ a, f a = Some (Ok tt)) l.
Proof.
  induction l as [|a l IH]; simpl; [done|]. rewrite outcome_seq_ok, IH, Forall_cons. done.
Qed.

Lemma each_distinct_ok {A} (key : A → string) dup pre post l : ∀ seen,
  each_distinct key dup pre post seen l = Some (Ok tt) ↔
  NoDup (key <$> l) ∧ Forall (λ a, key a ∉ seen) l
  ∧ Forall (λ a, pre a = Some (Ok tt) ∧ post a = Some (Ok tt)) l.
Proof.
  induction l as [|a l IH]; intros seen; simpl; [split; [repeat constructor|done]|].
  rewrite !outcome_seq_ok, IH, !Forall_cons, NoDup_cons.
  assert (Hs : (if bool_decide (key a ∈ seen) then fails dup else Some (Ok tt)) = Some (Ok tt)
               ↔ key a ∉ seen) by (case_bool_decide; split; done).
  rewrite Hs. split.
  - intros (Hpre & Hn & Hpost & Hnd & Hall & Hf). split_and!; auto.
    + intros (b & Hk & Hb)%list_elem_of_fmap. rewrite Forall_forall in Hall.
      destruct (Hall b Hb). rewrite Hk. left.
    + eapply Forall_impl; [exact Hall|]. set_solver.
  - intros ((Hn & Hnd) & (Hns & Hall) & (Hpre & Hpost) & Hf). split_and!; auto.
    rewrite Forall_forall in *. intros b Hb. specialize (Hall b Hb).
    intros [Heq|?]%elem_of_cons; [|done]. apply Hn. rewrite <- Heq. by apply list_elem_of_fmap_2.
Qed.

Lemma forallb_elem {A} (f : A → bool) l : forallb f l = true ↔ ∀ x, x ∈ l → f x = true.
Proof. rewrite forallb_forall. setoid_rewrite <- list_elem_of_In. done. Qed.

(** ** No validator is ever stuck

    [defined] is the database of computations that answer: a value or an error,
    never a panic and never an exhausted recursion. *)
Create HintDb defined.

Lemma require_defined c e : require c e ≠ None.
Proof. by destruct c. Qed.
Lemma otext_defined s r : otext s r ≠ None.
Proof. done. Qed.
Lemma otoken_defined s : otoken s ≠ None.
Proof. done. Qed.
Lemma fails_defined {A} e : fails (A := A) e ≠ None.
Proof. done. Qed.
Lemma ok_defined {A} (a : A) : Some (Ok (E := error) a) ≠ None.
Proof. done. Qed.
Lemma returns_defined {A} (r : result A) : returns r ≠ None.
Proof. done. Qed.

Lemma seq_defined {B} (m : outcome unit) (k : unit → outcome B) :
  m ≠ None → (m = Some (Ok tt) → k tt ≠ None) → m ≫= k ≠ None.
Proof. intros Hm Hk. apply outcome_bind_defined; [done|]. by intros []. Qed.

Lemma each_defined {A} (f : A → outcome unit) l : (∀ a, f a ≠ None) → each f l ≠ None.
Proof. intros Hf. induction l as [|a l IH]; simpl; [done|]. by apply seq_defined. Qed.

Lemma each_distinct_defined {A} (key : A → string) dup pre post l :
  (∀ a, pre a ≠ None) → (∀ a, post a ≠ None) → ∀ seen, each_distinct key dup pre post seen l ≠ None.
Proof.
  intros Hpre Hpost. induction l as [|a l IH]; intros seen; simpl; [done|].
  apply seq_defined; [done|intros _]. apply seq_defined; [by case_bool_decide|intros _].
  apply seq_defined; [done|intros _]. apply IH.
Qed.

Lemma metadataAdmission_defined v d n json : 0 ≤ n → metadataAdmission v d n json ≠ None.
Proof.
  intros Hn. unfold metadataAdmission. apply outcome_bind_defined; [|done].
  destruct (adds_visit (mkBL d n json) v 0) as [_ H]. apply H. by unfold within.
Qed.
Lemma admission_defined `{Reflect A} (a : A) : admission a ≠ None.
Proof. by apply metadataAdmission_defined. Qed.

Lemma dimensions_go_defined ds : ∀ out, dimensions_go ds out ≠ None.
Proof.
  induction ds as [|d ds IH]; intros out; cbn [dimensions_go]; [done|].
  apply seq_defined; [done|intros _]. case_bool_decide; [done|apply IH].
Qed.

#[export] Hint Resolve require_defined otext_defined otoken_defined fails_defined ok_defined returns_defined
  each_defined each_distinct_defined admission_defined dimensions_go_defined readJSON_defined : defined.

(** Splits sequences, binds and case distinctions down to the database. *)
Ltac solve_defined :=
  repeat first
    [ progress intros
    | solve [eauto with defined]
    | apply each_defined
    | apply each_distinct_defined
    | apply outcome_bind_defined
    | progress cbn beta
    | case_match ].

Lemma dimensions_defined ds : dimensions ds ≠ None.
Proof. unfold dimensions. solve_defined. Qed.
#[export] Hint Resolve dimensions_defined : defined.

Lemma declared_dimensions_defined o : declared_dimensions o ≠ None.
Proof. unfold declared_dimensions. solve_defined. Qed.
#[export] Hint Resolve declared_dimensions_defined : defined.

Lemma ValidateAddress_defined a o : ValidateAddress a o ≠ None.
Proof. unfold ValidateAddress, validateIdentityDimension. solve_defined. Qed.
Lemma validateScopeSelection_defined c b : validateScopeSelection c b ≠ None.
Proof. unfold validateScopeSelection. solve_defined. Qed.
#[export] Hint Resolve ValidateAddress_defined validateScopeSelection_defined : defined.
Lemma ValidateScope_defined s o : ValidateScope s o ≠ None.
Proof. unfold ValidateScope, validateConstraint. solve_defined. Qed.
#[export] Hint Resolve ValidateScope_defined : defined.

Lemma validateReference_defined r : validateReference r ≠ None.
Proof. unfold validateReference. solve_defined. Qed.
Lemma parseJSON_defined d : parseJSON d ≠ None.
Proof. unfold parseJSON, parseJSONWithLimit. solve_defined. Qed.
#[export] Hint Resolve validateReference_defined parseJSON_defined : defined.

Lemma validateSchema_defined s : validateSchema s ≠ None.
Proof.
  unfold validateSchema, validateSchemaRoot, ValidateSchemaUnavailableReason,
    validateSchemaDocumentReference, validateSchemaState. solve_defined.
Qed.
#[export] Hint Resolve validateSchema_defined : defined.
Lemma validateRepresentation_defined r : validateRepresentation r ≠ None.
Proof. unfold validateRepresentation. solve_defined. Qed.
Lemma validateCoverage_defined c : validateCoverage c ≠ None.
Proof. unfold validateCoverage, validateCoveragePath. solve_defined. Qed.
Lemma validateCount_defined c : validateCount c ≠ None.
Proof. unfold validateCount. solve_defined. Qed.
#[export] Hint Resolve validateRepresentation_defined validateCoverage_defined validateCount_defined : defined.

(** ** Wire sizes are defined on everything that validated *)

Definition sized (o : option Z) : Prop := ∃ n, o = Some n ∧ 0 ≤ n.

Lemma sized_some n : 0 ≤ n → sized (Some n).
Proof. by exists n. Qed.
Lemma sized_bind o f : sized o → (∀ n, 0 ≤ n → sized (f n)) → sized (o ≫= f).
Proof. intros (n & -> & Hn) Hf. by apply Hf. Qed.
Lemma sized_field n : 0 ≤ n → sized (messageFieldSize n).
Proof. intros Hn. destruct (messageFieldSize_some n Hn) as (m & -> & ?). apply sized_some. lia. Qed.
Lemma sized_field_bind o : sized o → sized (o ≫= messageFieldSize).
Proof. intros H. apply sized_bind; [done|]. apply sized_field. Qed.
Lemma sized_sum {A} (f : A → option Z) l : Forall (λ a, sized (f a)) l → ∀ n, 0 ≤ n → sized (add_sizes f l n).
Proof.
  induction 1 as [|a l (m & Ha & Hm) _ IH]; intros n Hn; cbn [add_sizes]; [by apply sized_some|].
  rewrite Ha. cbn. apply IH. lia.
Qed.
Lemma add_sizes_le {A} (f : A → option Z) l : ∀ n t, Forall (λ a, sized (f a)) l → add_sizes f l n = Some t → n ≤ t.
Proof.
  induction l as [|a l IH]; intros n t Hl Ht; cbn [add_sizes] in Ht; [injection Ht; lia|].
  apply Forall_cons in Hl as [(m & Hm & ?) Hl]. rewrite Hm in Ht. apply IH in Ht; [lia|done].
Qed.

Lemma total_head m l t : Forall sized l → total (Some m :: l) = Some t → m ≤ t.
Proof. intros Hl Ht. unfold total in Ht. apply (add_sizes_le id l (0 + m)) in Ht; [lia|done]. Qed.

Lemma sized_total l : Forall sized l → sized (total l).
Proof. intros H. by apply sized_sum. Qed.
Lemma sized_string s : sized (stringFieldSize s).
Proof. unfold stringFieldSize. case_bool_decide; [by apply sized_some|apply sized_field, slen_nonneg]. Qed.
Lemma sized_optional s : sized (optionalStringFieldSize s).
Proof. destruct s; [apply sized_field, slen_nonneg|by apply sized_some]. Qed.

Create HintDb sizes.
#[export] Hint Resolve sized_field_bind sized_total sized_string sized_optional : sizes.
#[export] Hint Constructors Forall : sizes.

Lemma sized_address a : sized (addressWireSize a).
Proof.
  unfold addressWireSize. apply sized_bind; [auto 10 with sizes|]. intros n Hn. apply sized_sum; [|done].
  apply Forall_forall. intros e _. auto 10 with sizes.
Qed.
#[export] Hint Resolve sized_address : sizes.
Lemma sized_reference r : sized (referenceWireSize r).
Proof. unfold referenceWireSize. auto 10 with sizes. Qed.
Lemma sized_coverage c : sized (coverageWireSize c).
Proof.
  unfold coverageWireSize. apply sized_bind; [auto 10 with sizes|]. intros n Hn. apply sized_sum; [|done].
  apply Forall_forall. intros p _. apply sized_field, slen_nonneg.
Qed.
Lemma sized_schema s : sized (schemaWireSize s).
Proof.
  unfold schemaWireSize. apply sized_bind; [auto 10 with sizes|]. intros n Hn.
  apply sized_bind. { destruct (has_document s); [apply sized_field; unfold blen; lia|by apply sized_some]. }
  intros d Hd. apply sized_bind. { destruct (sb_DocumentRef s); [auto 10 with sizes|by apply sized_some]. }
  intros e He. apply sized_some. lia.
Qed.
#[export] Hint Resolve sized_reference sized_coverage sized_schema : sizes.

Lemma sized_trailer p : sized (page_trailer_size p).
Proof. unfold page_trailer_size. auto 20 with sizes. Qed.

Section pages.
Context `{ProtowireLaws}.

Lemma sized_value v : ValidateValue v = Some (Ok tt) → sized (valueWireSize v).
Proof. intros (Hw & _)%ValidateValue_accepts. destruct (valueWireSize_bounded v Hw) as (n & ? & ? & _). by exists n. Qed.

Lemma ValidateRecord_body r : ValidateRecord r = Some (Ok tt) → ValidateValue (rec_Body r) = Some (Ok tt).
Proof. unfold ValidateRecord, validate_value. rewrite !outcome_seq_ok. tauto. Qed.

Lemma sized_record r : ValidateRecord r = Some (Ok tt) → sized (recordWireSize r).
Proof.
  intros Hv%ValidateRecord_body%sized_value. unfold recordWireSize. apply sized_bind; [auto 10 with sizes|].
  intros n Hn. pose proof (sized_field n Hn). auto 20 with sizes.
Qed.

Lemma ValidateValue_defined v : ValidateValue v ≠ None.
Proof.
  unfold ValidateValue. destruct (walk v 0 (mkVB 0 0)) as [b|e] eqn:E; [|done].
  apply walk_spec in E as (Hw & _). destruct (valueWireSize_bounded v Hw) as (n & -> & _). done.
Qed.

Lemma ValidateRecord_defined r : ValidateRecord r ≠ None.
Proof.
  unfold ValidateRecord. pose proof (ValidateValue_defined (rec_Body r)). unfold validate_value. solve_defined.
Qed.

(** The body bytes and the encoded record bytes of a list of records. *)
Definition size_or_zero (o : option Z) : Z := default 0 o.
Definition body_bytes (l : list ResourceRecord) : Z := sum_of (λ r, size_or_zero (valueWireSize (rec_Body r))) l.
Definition record_bytes (l : list ResourceRecord) : Z :=
  sum_of (λ r, size_or_zero (recordWireSize r ≫= messageFieldSize)) l.

Lemma size_or_zero_nonneg o : sized o → 0 ≤ size_or_zero o.
Proof. by intros (n & -> & ?). Qed.

Lemma record_sizes r : ValidateRecord r = Some (Ok tt) → 
  no_error (valueWireSize (rec_Body r)) = Some (Ok (size_or_zero (valueWireSize (rec_Body r))))
  ∧ no_error (recordWireSize r ≫= messageFieldSize) = Some (Ok (size_or_zero (recordWireSize r ≫= messageFieldSize)))
  ∧ 0 ≤ size_or_zero (valueWireSize (rec_Body r)) ∧ 0 ≤ size_or_zero (recordWireSize r ≫= messageFieldSize).
Proof.
  intros Hr. pose proof (sized_value _ (ValidateRecord_body _ Hr)) as Hb.
  pose proof (sized_field_bind _ (sized_record _ Hr)) as Hs.
  split_and!; [|by destruct Hs as (n & -> & _)|by apply size_or_zero_nonneg..]. by destruct Hb as (n & -> & _).
Qed.

Lemma page_sums_nonneg l : Forall (λ r, ValidateRecord r = Some (Ok tt)) l → 0 ≤ body_bytes l ∧ 0 ≤ record_bytes l.
Proof.
  induction 1 as [|r l Hr _ IH]; [done|]. destruct (record_sizes r Hr) as (_ & _ & ? & ?).
  unfold body_bytes, record_bytes in *. cbn [sum_of]. lia.
Qed.

(** Stopping at the first excess decides the totals: sizes never decrease. *)
Lemma page_records_ok l : ∀ bodyBytes pageBytes n,
  bodyBytes ≤ MaxPageBodyBytes → pageBytes ≤ MaxMessageBytes →
  page_records l bodyBytes pageBytes = Some (Ok n) ↔
  Forall (λ r, ValidateRecord r = Some (Ok tt)) l ∧ bodyBytes + body_bytes l ≤ MaxPageBodyBytes
  ∧ pageBytes + record_bytes l ≤ MaxMessageBytes ∧ n = pageBytes + record_bytes l.
Proof.
  induction l as [|r l IH]; intros bb pb n Hb Hp; cbn [page_records].
  - unfold body_bytes, record_bytes. cbn [sum_of]. rewrite !Z.add_0_r, Forall_nil. naive_solver.
  - rewrite outcome_seq_ok, Forall_cons. unfold body_bytes, record_bytes. cbn [sum_of].
    fold (body_bytes l) (record_bytes l). rewrite !Z.add_assoc. split.
    + intros [Hr Hk]. destruct (record_sizes r Hr) as (E1 & E2 & H1 & H2). rewrite E1, E2 in Hk.
      cbn [mbind outcome_bind] in Hk. destruct (_ || _) eqn:Eo in Hk; [done|]. apply orb_false_iff in Eo as [? ?].
      apply IH in Hk; [tauto|lia..].
    + intros ((Hr & Hl) & HB & HP & ->). destruct (record_sizes r Hr) as (E1 & E2 & H1 & H2).
      destruct (page_sums_nonneg l Hl). split; [done|]. rewrite E1, E2. cbn [mbind outcome_bind].
      rewrite (proj2 (Z.ltb_ge _ _)) by lia. rewrite (proj2 (Z.ltb_ge _ _)) by lia. cbn [orb].
      apply IH; [lia..|]. split_and!; [done|lia|lia|lia].
Qed.

Lemma page_records_defined l : ∀ bodyBytes pageBytes, page_records l bodyBytes pageBytes ≠ None.
Proof.
  induction l as [|r l IH]; intros bb pb; cbn [page_records]; [done|].
  apply seq_defined; [apply ValidateRecord_defined|]. intros Hr.
  destruct (record_sizes r Hr) as (E1 & E2 & _). rewrite E1, E2. cbn [mbind outcome_bind].
  case_match; [done|apply IH].
Qed.

(** The encoded response frame that carries the page. *)
Definition page_bytes (p : SourcePage) : Z := record_bytes (pg_Records p) + size_or_zero (page_trailer_size p).
Definition frame_bytes (p : SourcePage) : Z := 2 + size_or_zero (messageFieldSize (page_bytes p)).

(** The page's own claims: tokens, count, coverage and consistency. *)
Definition page_claims (p : SourcePage) : Prop :=
  otoken (NextCursor p) = Some (Ok tt) ∧ otoken (pg_SourceRevision p) = Some (Ok tt)
  ∧ validateCount (pg_Count p) = Some (Ok tt)
  ∧ (cn_Kind (pg_Count p) = "exact" →
     Z.of_nat (length (pg_Records p)) ≤ ParseUint_value (default "" (cn_Value (pg_Count p))))
  ∧ validateCoverage (pg_Coverage p) = Some (Ok tt)
  ∧ (Consistency p = "bestEffort" ∨ Consistency p = "pointInTime").

Lemma frame_sizes p : Forall (λ r, ValidateRecord r = Some (Ok tt)) (pg_Records p) →
  no_error (page_trailer_size p) = Some (Ok (size_or_zero (page_trailer_size p)))
  ∧ no_error (messageFieldSize (page_bytes p)) = Some (Ok (frame_bytes p - 2)) 
  ∧ record_bytes (pg_Records p) ≤ frame_bytes p.
Proof.
  intros Hl. destruct (page_sums_nonneg _ Hl) as [_ Hr]. unfold frame_bytes, page_bytes.
  destruct (sized_trailer p) as (t & -> & Ht). change (size_or_zero (Some t)) with t.
  destruct (messageFieldSize_some (record_bytes (pg_Records p) + t)) as (n & -> & Hn); [lia|].
  change (size_or_zero (Some n)) with n. split_and!; [done| |lia]. unfold no_error. cbn. do 2 f_equal. lia.
Qed.

Lemma exact_count_ok (kind : string) (count len : Z) :
  negb (bool_decide (kind = "exact") && (count <? len)) = true ↔ (kind = "exact" → len ≤ count).
Proof.
  rewrite negb_true_iff, andb_false_iff, bool_decide_eq_false, Z.ltb_ge. split.
  - intros [?|?] ?; [done|lia].
  - intros Hx. destruct (decide (kind = "exact")); [right; auto|by left].
Qed.

Lemma ValidateSourcePage_inv p : ValidateSourcePage p = Some (Ok tt) →
  Z.of_nat (length (pg_Records p)) ≤ maxPageRecords ∧ admission p = Some (Ok tt)
  ∧ Forall (λ r, ValidateRecord r = Some (Ok tt)) (pg_Records p)
  ∧ body_bytes (pg_Records p) ≤ MaxPageBodyBytes ∧ frame_bytes p ≤ MaxMessageBytes
  ∧ page_claims p.
Proof.
  unfold ValidateSourcePage, page_claims. rewrite !outcome_seq_ok, require_ok, negb_true_iff, Z.ltb_ge.
  intros (H1 & H2 & Hx). apply outcome_bind_some in Hx as (pb & Hpb & Hx).
  apply page_records_ok in Hpb as (Hl & Hb & _ & ->); [|done..]. destruct (frame_sizes p Hl) as (E1 & E2 & _).
  rewrite !outcome_seq_ok,  E1 in Hx. cbn [mbind outcome_bind] in Hx.
  rewrite Z.add_0_l in Hx. fold (page_bytes p) in Hx. rewrite E2 in Hx. cbn [mbind outcome_bind] in Hx.
  rewrite !outcome_seq_ok, !require_ok, orb_true_iff, !bool_decide_eq_true, exact_count_ok in Hx.
  destruct Hx as (? & ? & ? & ? & ? & Hf & ?).
  destruct (_ <? _) eqn:El in Hf; [done|]. apply Z.ltb_ge in El. split_and!; try done; lia.
Qed.

(** The continuation token of an accepted page is smaller than a message. *)
Lemma page_cursor_bound p c : ValidateSourcePage p = Some (Ok tt) → NextCursor p = Some c → slen c ≤ MaxMessageBytes.
Proof.
  intros (_ & _ & Hl & _ & Hf & _)%ValidateSourcePage_inv Hc. revert Hf. unfold frame_bytes.
  destruct (page_sums_nonneg _ Hl) as [_ Hr]. unfold page_bytes.
  destruct (sized_trailer p) as (t & Et & Ht). rewrite Et. change (size_or_zero (Some t)) with t.
  destruct (messageFieldSize_some (record_bytes (pg_Records p) + t)) as (n & -> & Hn); [lia|].
  change (size_or_zero (Some n)) with n. enough (slen c ≤ t) by lia.
  unfold page_trailer_size in Et. rewrite Hc in Et. cbn [optionalStringFieldSize] in Et.
  destruct (messageFieldSize_some (slen c)) as (m & Em & Hm); [apply slen_nonneg|].
  enough (m ≤ t) by lia. rewrite Em in Et. apply total_head in Et; [lia|]. auto 20 with sizes.
Qed.

(** ValidateSourcePage answers, and its checks record by record add up to one on
    the sizes it computes; [WireSizes] shows that those are the encoding's. *)
Lemma ValidateSourcePage_computed p :
  ValidateSourcePage p ≠ None ∧
  (ValidateSourcePage p = Some (Ok tt) ↔
   Z.of_nat (length (pg_Records p)) ≤ maxPageRecords ∧ admission p = Some (Ok tt)
   ∧ Forall (λ r, ValidateRecord r = Some (Ok tt)) (pg_Records p)
   ∧ body_bytes (pg_Records p) ≤ MaxPageBodyBytes ∧ frame_bytes p ≤ MaxMessageBytes
   ∧ page_claims p).
Proof.
  unfold ValidateSourcePage, page_claims. split.
  - repeat first [apply seq_defined; [by auto with defined|intros _]].
    apply outcome_bind_defined; [apply page_records_defined|]. intros pb Hpb.
    apply page_records_ok in Hpb as (Hl & _ & _ & ->); [|done..]. destruct (frame_sizes p Hl) as (E1 & E2 & _).
    rewrite E1. repeat (apply seq_defined; [by auto with defined|intros _]).
    cbn [mbind outcome_bind]. rewrite Z.add_0_l. fold (page_bytes p). rewrite E2. cbn [mbind outcome_bind].
    solve_defined.
  - split; [apply ValidateSourcePage_inv|].
    rewrite !outcome_seq_ok, require_ok, negb_true_iff, Z.ltb_ge.
    + intros (H1 & H2 & Hl & Hb & Hf & ? & ? & ? & ? & ? & ?). split_and!; [done|done|].
      destruct (frame_sizes p Hl) as (E1 & E2 & Hr). apply outcome_bind_some.
      exists (record_bytes (pg_Records p)). split.
      { apply page_records_ok; [done..|]. split_and!; [done|lia|lia|lia]. }
      rewrite !outcome_seq_ok, E1. cbn [mbind outcome_bind]. fold (page_bytes p). rewrite E2. cbn [mbind outcome_bind].
      rewrite !outcome_seq_ok, !require_ok, orb_true_iff, !bool_decide_eq_true, exact_count_ok.
      split_and!; try done. rewrite (proj2 (Z.ltb_ge _ _)) by lia. done.
Qed.
End pages.

(** A page of one record under a concrete varint encoder. *)
#[local] Instance sample_protowire : Protowire := {| SizeVarint n := Z.min 10 (varintSize n `max` 1); EncodeZigZag n := 2 * n |}.
#[local] Instance sample_protowire_laws : ProtowireLaws.
Proof. constructor. intros n. simpl. lia. Qed.

Definition sample_schema : SchemaBinding := mkSchemaBinding schemaStateAbsent None "" "" None None None.
Definition sample_record : ResourceRecord :=
  mkRecord (mkReference (mkAddress "k8s" "auth" "Pod" [mkScopeEntry "ns" "default"] "p1") None)
    (mkValue valueKindMap false "" "" "" zero_float "" None (Some [("name", mkValue valueKindString false "p1" "" "" zero_float "" None None)]))
    (mkRepresentation "default" "v1" sample_schema) (mkCoverage "complete" [] "") None.
Definition sample_page : SourcePage :=
  mkSourcePage [sample_record] (Some "next") (mkCount "exact" (Some "7")) (mkCoverage "complete" [] "")
    "pointInTime" None.

(** ** What a restricted schema means *)

(** The exact number a value carries. *)
Definition exact_number (v : Value) : option rat :=
  if bool_decide (vKind v = valueKindInt64) then Some (ParseInt_value (vInt v), 1)
  else if bool_decide (vKind v = valueKindUint64) then Some (ParseUint_value (vUint v), 1)
  else if bool_decide (vKind v = valueKindDouble) then Some (rat_of_float (vDouble v))
  else None.
Definition rat_le (a b : rat) : Prop := a.1 * b.2 ≤ b.1 * a.2.

(** An integer property admits a double only when it is integral. *)
Definition conforms_number (p : SchemaProperty) (v : Value) : Prop :=
  ∃ n, exact_number v = Some n
  ∧ (p_Type p = SchemaInteger → vKind v = valueKindDouble → f64_is_integral (vDouble v) = true)
  ∧ (∀ lo, p_Minimum p = Some lo → rat_le (rat_of_float lo) n)
  ∧ (∀ hi, p_Maximum p = Some hi → rat_le n (rat_of_float hi)).

(** Required members are present and present members conform; undeclared
    members are allowed. Array items are unconstrained. *)
Inductive conforms : SchemaProperty → Value → Prop :=
| Conforms_string p v : p_Type p = SchemaString → vKind v = valueKindString →
    (listOf (p_Enum p) = [] ∨ vString v ∈ listOf (p_Enum p)) → conforms p v
| Conforms_boolean p v : p_Type p = SchemaBoolean → vKind v = valueKindBool → conforms p v
| Conforms_array p v : p_Type p = SchemaArray → vKind v = valueKindList → conforms p v
| Conforms_number p v : p_Type p = SchemaInteger ∨ p_Type p = SchemaNumber → conforms_number p v → conforms p v
| Conforms_object p v : p_Type p = SchemaObject →
    vKind v = valueKindMap → (∀ n, n ∈ listOf (p_Required p) → is_Some (map_get n (listOf (vMap v)))) →
    (∀ name q w, (name, q) ∈ listOf (p_Properties p) → map_get name (listOf (vMap v)) = Some w → conforms q w) →
    conforms p v.
Definition conforms_object (properties : list (string * SchemaProperty)) (required : list string) (v : Value) : Prop :=
  vKind v = valueKindMap ∧ (∀ n, n ∈ required → is_Some (map_get n (listOf (vMap v))))
  ∧ ∀ name q w, (name, q) ∈ properties → map_get name (listOf (vMap v)) = Some w → conforms q w.

Section property_ind.
Variable P : SchemaProperty → Prop.
Hypothesis Hp : ∀ t d e lo hi ps req, Forall (λ e, P e.2) (listOf ps) → P (mkProperty t d e lo hi ps req).
Fixpoint SchemaProperty_nested_ind (p : SchemaProperty) : P p :=
  let 'mkProperty t d e lo hi ps req := p in
  Hp t d e lo hi ps req
    match ps with
    | None => Forall_nil_2 _
    | Some m => (fix go m := match m return Forall (λ e, P e.2) m with
                             | [] => Forall_nil_2 _
                             | (k, q) :: m => Forall_cons_2 (λ e, P e.2) (k, q) m (SchemaProperty_nested_ind q) (go m)
                             end) m
    end.
End property_ind.

Lemma and_iff_both (P P' Q Q' : Prop) : (P ↔ P') → (Q ↔ Q') → P ∧ Q ↔ P' ∧ Q'.
Proof. tauto. Qed.

Lemma has_member_ok v n : has_member v n = true ↔ is_Some (map_get n (listOf (vMap v))).
Proof. unfold has_member. destruct (map_get n _); split; [eauto|done|done|by intros []]. Qed.

Lemma object_value_ok check properties required v (Q : SchemaProperty → Value → Prop) :
  Forall (λ e, ∀ w, check e.2 w = Some (Ok tt) ↔ Q e.2 w) properties →
  validateSchemaObjectValue check properties required v = Some (Ok tt) ↔
  vKind v = valueKindMap ∧ (∀ n, n ∈ required → is_Some (map_get n (listOf (vMap v))))
  ∧ ∀ name q w, (name, q) ∈ properties → map_get name (listOf (vMap v)) = Some w → Q q w.
Proof.
  intros HQ. unfold validateSchemaObjectValue, run_members.
  rewrite !outcome_seq_ok, require_ok, bool_decide_eq_true, !each_ok.
  rewrite sort_entries_map, sort_entries_perm. apply and_iff_compat_l.
  apply and_iff_both.
  - rewrite Forall_forall. setoid_rewrite require_ok. by setoid_rewrite has_member_ok.
  - rewrite Forall_forall in HQ. rewrite Forall_forall. split.
    + intros Hx name q w Hin Hw. apply (HQ (name, q) Hin). 
      specialize (Hx (name, check q)). cbn [fst snd] in Hx. rewrite Hw in Hx. apply Hx.
      apply list_elem_of_In, in_map_iff. exists (name, q). by rewrite <- list_elem_of_In.
    + intros Hx e He. apply list_elem_of_In, in_map_iff in He as ([name q] & <- & Hin%list_elem_of_In).
      cbn [fst snd]. destruct (map_get name _) as [w|] eqn:Hw; [|done]. apply (HQ (name, q) Hin). by eapply Hx.
Qed.

Lemma number_value_ok p v : validateSchemaNumericValue p v = Some (Ok tt) ↔ conforms_number p v.
Proof.
  unfold validateSchemaNumericValue, conforms_number, exact_number, rat_lt, rat_le.
  rewrite !outcome_seq_ok, require_ok, !orb_true_iff, andb_true_iff, negb_true_iff, andb_false_iff.
  rewrite !bool_decide_eq_true, bool_decide_eq_false, negb_false_iff.
  assert (Hlo : ∀ o (n : rat), match o with Some lo => require (negb (n.1 * (rat_of_float lo).2 <? (rat_of_float lo).1 * n.2))
      (invalid "action number is below minimum") | None => Some (Ok tt) end = Some (Ok tt)
    ↔ ∀ lo, o = Some lo → (rat_of_float lo).1 * n.2 ≤ n.1 * (rat_of_float lo).2).
  { intros [lo|] n; [|naive_solver]. rewrite require_ok, negb_true_iff, Z.ltb_ge. naive_solver. }
  assert (Hhi : ∀ o (n : rat), match o with Some hi => require (negb ((rat_of_float hi).1 * n.2 <? n.1 * (rat_of_float hi).2))
      (invalid "action number exceeds maximum") | None => Some (Ok tt) end = Some (Ok tt)
    ↔ ∀ hi, o = Some hi → n.1 * (rat_of_float hi).2 ≤ (rat_of_float hi).1 * n.2).
  { intros [hi|] n; [|naive_solver]. rewrite require_ok, negb_true_iff, Z.ltb_ge. naive_solver. }
  rewrite Hlo, Hhi. clear Hlo Hhi. 
  case_bool_decide as E1; [rewrite E1; naive_solver|]. case_bool_decide as E2; [rewrite E2; naive_solver|].
  case_bool_decide as E3; [|naive_solver]. split.
  - intros ([[?|?]|[_ Hi]] & Hl & Hh); [done|done|]. eexists. split_and!; try done. intros Ht _. by destruct Hi.
  - intros (n & [= <-] & Hi & Hl & Hh). split_and!; try done. right. split; [done|].
    destruct (decide (p_Type p = SchemaInteger)); [right; auto|by left].
Qed.

(** Every type in the schema is one of the six. *)
Inductive typed : SchemaProperty → Prop :=
| Typed p : known_schema_type (p_Type p) = true → Forall (λ e, typed e.2) (listOf (p_Properties p)) → typed p.

Lemma properties_ok check (properties : list (string * SchemaProperty)) depth :
  validateActionProperties check properties depth = Some (Ok tt) ↔
  Forall (λ e, otext e.1 true = Some (Ok tt) ∧ check e.2 depth = Some (Ok tt)) properties.
Proof.
  unfold validateActionProperties, run_properties. rewrite each_ok, sort_entries_map, sort_entries_perm.
  rewrite !Forall_forall. split.
  - intros Hx e He. specialize (Hx (e.1, check e.2)). rewrite outcome_seq_ok in Hx. apply Hx.
    apply list_elem_of_In, in_map_iff. exists e. by rewrite <- list_elem_of_In.
  - intros Hx e He. apply list_elem_of_In, in_map_iff in He as (e' & <- & Hin%list_elem_of_In).
    rewrite outcome_seq_ok. by apply Hx.
Qed.

Lemma validateActionProperty_typed p : ∀ depth, validateActionProperty p depth = Some (Ok tt) → typed p.
Proof.
  induction p as [t d e lo hi ps req IH] using SchemaProperty_nested_ind. intros depth Hx.
  cbn [validateActionProperty p_Type p_Properties] in Hx. rewrite !outcome_seq_ok, require_ok in Hx.
  destruct Hx as (_ & Hk & _ & _ & _ & _ & _ & _ & _ & Hps). constructor; [done|]. cbn [p_Properties].
  destruct ps as [m|]; [|constructor]. apply properties_ok in Hps. cbn [listOf default] in *.
  rewrite Forall_forall in *. intros [n q] Hin. eapply IH; [done|]. by apply (Hps (n, q)).
Qed.

Lemma object_defined check properties required v :
  Forall (λ e, ∀ w, check e.2 w ≠ None) properties →
  validateSchemaObjectValue check properties required v ≠ None.
Proof.
  intros Hc. unfold validateSchemaObjectValue. apply seq_defined; [apply require_defined|intros _].
  apply seq_defined; [apply each_defined; intros; apply require_defined|intros _]. unfold run_members.
  rewrite sort_entries_map. rewrite <- (sort_entries_perm properties) in Hc.
  induction Hc as [|e l He _ IH]; [done|]. cbn [map each fst snd].
  apply seq_defined; [case_match; [apply He|done]|intros _; apply IH].
Qed.

Lemma numeric_defined p v : validateSchemaNumericValue p v ≠ None.
Proof. unfold validateSchemaNumericValue. solve_defined. Qed.

Lemma property_value_eq p v : p_Type p = SchemaObject → validateSchemaPropertyValue p v =
  validateSchemaObjectValue validateSchemaPropertyValue (listOf (p_Properties p)) (listOf (p_Required p)) v.
Proof. intros Ht. destruct p as [t d e lo hi [ps|] req]; simpl in Ht; subst t; done. Qed.

Lemma property_value_defined p : ∀ v, validateSchemaPropertyValue p v ≠ None.
Proof.
  induction p as [t d e lo hi ps req IH] using SchemaProperty_nested_ind. intros v.
  destruct (decide (t = SchemaObject)) as [->|Hne].
  - rewrite property_value_eq by done. by apply object_defined.
  - cbn [validateSchemaPropertyValue p_Type]. rewrite (bool_decide_false (t = SchemaObject)) by done.
    pose proof (numeric_defined (mkProperty t d e lo hi ps req) v). solve_defined.
Qed.

Lemma known_types t : known_schema_type t = true → t = SchemaString ∨ t = SchemaInteger ∨ t = SchemaNumber
  ∨ t = SchemaBoolean ∨ t = SchemaObject ∨ t = SchemaArray.
Proof. unfold known_schema_type. rewrite bool_decide_eq_true, !elem_of_cons, elem_of_nil. tauto. Qed.

Lemma property_value_ok p : typed p → ∀ v, validateSchemaPropertyValue p v = Some (Ok tt) ↔ conforms p v.
Proof.
  induction p as [t d e lo hi ps req IH] using SchemaProperty_nested_ind. intros Ht v.
  inversion Ht as [p' Hk Hps]; subst p'. cbn [p_Type p_Properties] in *.
  apply known_types in Hk as [->|[->|[->|[->|[->| ->]]]]].
  - change (validateSchemaPropertyValue _ v) with
      (require (bool_decide (vKind v = valueKindString)) (invalid "action schema requires string") ;;
       require (match listOf e with [] => true | items => bool_decide (vString v ∈ items) end)
         (invalid "action string is outside enum")).
    rewrite outcome_seq_ok, !require_ok, bool_decide_eq_true. split.
    + intros [Hv He]. apply Conforms_string; [done|done|]. cbn [p_Enum]. destruct (listOf e); [by left|].
      apply bool_decide_eq_true in He. by right.
    + intros Hc. inversion Hc as [? ? ? Hv He|? ? Hx|? ? Hx|? ? Hx|? ? Hx]; subst; try done; [|by destruct Hx].
      split; [done|]. cbn [p_Enum] in He. destruct (listOf e); [done|]. apply bool_decide_eq_true. by destruct He.
  - change (validateSchemaPropertyValue _ v) with (validateSchemaNumericValue (mkProperty SchemaInteger d e lo hi ps req) v).
    rewrite number_value_ok. split; [intros; apply Conforms_number; [by left|done]|].
    intros Hc. by inversion Hc.
  - change (validateSchemaPropertyValue _ v) with (validateSchemaNumericValue (mkProperty SchemaNumber d e lo hi ps req) v).
    rewrite number_value_ok. split; [intros; apply Conforms_number; [by right|done]|].
    intros Hc. by inversion Hc.
  - change (validateSchemaPropertyValue _ v) with
      (require (bool_decide (vKind v = valueKindBool)) (invalid "action schema requires boolean")).
    rewrite require_ok, bool_decide_eq_true. split; [by apply Conforms_boolean|].
    intros Hc. inversion Hc as [|? ? ? Hv|? ? Hx|? ? Hx|? ? Hx]; subst; try done; by destruct Hx.
  - rewrite property_value_eq by done. rewrite (object_value_ok _ _ _ _ conforms).
    + cbn [p_Properties p_Required]. split.
      * intros (? & ? & ?). by apply Conforms_object.
      * intros Hc. inversion Hc as [|? ? Hx|? ? Hx|? ? Hx|]; subst; try done; by destruct Hx.
    + cbn [p_Properties]. rewrite Forall_forall in *. intros x Hx w. by apply IH; [|apply Hps].
  - change (validateSchemaPropertyValue _ v) with
      (require (bool_decide (vKind v = valueKindList)) (invalid "action schema requires array")).
    rewrite require_ok, bool_decide_eq_true. split; [by apply Conforms_array|].
    intros Hc. inversion Hc as [|? ? Hx|? ? ? Hv|? ? Hx|? ? Hx]; subst; try done; by destruct Hx.
Qed.

Lemma action_property_defined p : ∀ depth, validateActionProperty p depth ≠ None.
Proof.
  induction p as [t d e lo hi ps req IH] using SchemaProperty_nested_ind. intros depth.
  cbn [validateActionProperty]. unfold validateActionEnum, validateActionRequired.
  repeat (apply seq_defined; [solve_defined|intros _]). cbn [p_Properties]. destruct ps as [m|]; [|done].
  unfold validateActionProperties, run_properties. rewrite sort_entries_map.
  change (listOf (Some m)) with m in IH. rewrite <- (sort_entries_perm m) in IH.
  revert IH. generalize (sort_entries m). intros es IH. induction IH as [|x l Hx _ IHl]; [done|]. cbn [map each fst snd].
  apply seq_defined; [apply seq_defined; [apply otext_defined|intros _; apply Hx]|intros _; apply IHl].
Qed.

Lemma action_properties_defined m depth : validateActionProperties validateActionProperty m depth ≠ None.
Proof.
  unfold validateActionProperties, run_properties. rewrite sort_entries_map.
  induction (sort_entries m) as [|x l IHl]; [done|]. cbn [map each fst snd].
  apply seq_defined; [apply seq_defined; [apply otext_defined|intros _; apply action_property_defined]|intros _; apply IHl].
Qed.

Lemma ValidateSchema_defined s : ValidateSchema s ≠ None.
Proof.
  unfold ValidateSchema, validateSchemaObject, validateActionRequired.
  apply seq_defined; [apply admission_defined|intros _].
  apply seq_defined; [solve_defined|intros _]. apply action_properties_defined.
Qed.

Section schema_values.
Context `{ProtowireLaws}.

(** ValidateSchemaValue always answers, and accepts a value exactly when the
    schema and the value validate and the value conforms to the schema:
    required members present, and every declared member present of its type,
    within its enumeration and its exact numeric bounds, at every depth. The
    sorted traversal and its early exits do not change the verdict. *)
Theorem ValidateSchemaValue_iff s v :
  ValidateSchemaValue s v ≠ None ∧
  (ValidateSchemaValue s v = Some (Ok tt) ↔
   ValidateSchema s = Some (Ok tt) ∧ ValidateValue v = Some (Ok tt)
   ∧ conforms_object (listOf (s_Properties s)) (listOf (s_Required s)) v).
Proof.
  unfold ValidateSchemaValue, validate_value. split.
  - apply seq_defined; [apply ValidateSchema_defined|intros _].
    apply seq_defined; [apply ValidateValue_defined|intros _].
    apply object_defined, Forall_forall. intros x _. apply property_value_defined.
  - rewrite !outcome_seq_ok.
    assert (Hobj : ValidateSchema s = Some (Ok tt) →
      validateSchemaObjectValue validateSchemaPropertyValue (listOf (s_Properties s)) (listOf (s_Required s)) v
        = Some (Ok tt) ↔ conforms_object (listOf (s_Properties s)) (listOf (s_Required s)) v); [|tauto].
    unfold ValidateSchema, validateSchemaObject. rewrite !outcome_seq_ok. intros (_ & _ & Hps%properties_ok).
    apply object_value_ok. eapply Forall_impl; [exact Hps|]. intros [n q] [_ Hq] w.
    apply property_value_ok. by eapply validateActionProperty_typed.
Qed.
End schema_values.

(** An integer bound that a nested value meets. *)
Definition sample_object_schema : Schema :=
  mkSchema (Some [("spec", mkProperty SchemaObject "" None None None
                   (Some [("replicas", mkProperty SchemaInteger "" None
                                         (Some (S754_finite false 4503599627370496 (-52))) None None None)])
                   (Some ["replicas"]))]) None.
Definition sample_object_value : Value :=
  sample_map [("spec", sample_map [("replicas", mkValue "uint64" false "" "" "3" zero_float "" None None)])].

Lemma ValidateSchemaValue_iff_witness :
  ValidateSchemaValue sample_object_schema sample_object_value ≠ None
  ∧ conforms_object (listOf (s_Properties sample_object_schema)) [] sample_object_value.
Proof.
  destruct (ValidateSchemaValue_iff sample_object_schema sample_object_value) as [Hd Hiff]. split; [exact Hd|].
  destruct (proj1 Hiff ltac:(vm_compute; reflexivity)) as (_ & _ & Hc). exact Hc.
Defined.
