(* ===== verification/Canonical.v ===== *)
(** * Canonical order (pkg/resource/v2/read_target_identity.go)

    [sort.Strings] and [sort.Slice] by a string key, and the canonical form of a
    query scope: values sorted without repeats, dimensions in order. *)
From S2P Require Import Prelude GoStd Errors Values Json TaggedJson Budget Domain Validation.
Local Open Scope Z_scope.

(** ** Sorting by a key *)

Section sort.
Context {A : Type} (key : A → string).
Fixpoint insert_by (a : A) (l : list A) : list A :=
  match l with
  | [] => [a]
  | x :: l' => if string_lt (key x) (key a) then x :: insert_by a l' else a :: l
  end.
Definition sort_by (l : list A) : list A := foldr insert_by [] l.
End sort.

(** Keeps the first of every run of equal neighbours. *)
Fixpoint drop_repeats (last : option string) (l : list string) : list string :=
  match l with
  | [] => []
  | v :: l => if bool_decide (last = Some v) then drop_repeats last l else v :: drop_repeats (Some v) l
  end.
Definition canonicalScopeValues (values : list string) : list string :=
  drop_repeats None (sort_by id values).

Definition canonicalConstraint (c : ScopeConstraint) : ScopeConstraint :=
  mkConstraint (c_Dimension c) (c_Match c) (canonicalScopeValues <$> c_Values c).
Definition normalizeScopeOwned (scope : list ScopeConstraint) : list ScopeConstraint :=
  sort_by c_Dimension (map canonicalConstraint scope).

(** ** Facts about sorting *)

(** Bytewise order is a strict total order. *)
Lemma bytes_lt_irrefl a : bytes_lt a a = false.
Proof. induction a as [|x a IH]; [done|]. cbn. by rewrite Z.ltb_irrefl. Qed.
Lemma bytes_lt_asym a : ∀ b, bytes_lt a b = true → bytes_lt b a = false.
Proof.
  induction a as [|x a IH]; intros [|y b]; cbn; try done.
  destruct (Z.ltb_spec (byte_val x) (byte_val y)), (Z.ltb_spec (byte_val y) (byte_val x)); try lia; try done. apply IH.
Qed.
Lemma bytes_lt_trans a : ∀ b c, bytes_lt a b = true → bytes_lt b c = true → bytes_lt a c = true.
Proof.
  induction a as [|x a IH]; intros [|y b] [|z c]; cbn; try done.
  destruct (Z.ltb_spec (byte_val x) (byte_val y)), (Z.ltb_spec (byte_val y) (byte_val x)); try lia; try done;
  destruct (Z.ltb_spec (byte_val y) (byte_val z)), (Z.ltb_spec (byte_val z) (byte_val y)); try lia; try done;
  destruct (Z.ltb_spec (byte_val x) (byte_val z)), (Z.ltb_spec (byte_val z) (byte_val x)); try lia; try done. apply IH.
Qed.
Lemma byte_val_inj x y : byte_val x = byte_val y → x = y.
Proof. unfold byte_val. intros E%N2Z.inj. by rewrite <- (ascii_N_embedding x), E, ascii_N_embedding. Qed.
Lemma bytes_lt_total a : ∀ b, bytes_lt a b = false → bytes_lt b a = false → a = b.
Proof.
  induction a as [|x a IH]; intros [|y b]; cbn; try done.
  destruct (Z.ltb_spec (byte_val x) (byte_val y)), (Z.ltb_spec (byte_val y) (byte_val x)); try lia; try done.
  intros H1 H2. f_equal; [|by apply IH]. apply byte_val_inj. lia.
Qed.

Definition string_le (a b : string) : Prop := string_lt b a = false.
#[export] Instance string_le_dec a b : Decision (string_le a b).
Proof. unfold string_le. apply _. Defined.
Lemma string_le_refl a : string_le a a.
Proof. apply bytes_lt_irrefl. Qed.
Lemma string_le_total a b : string_le a b ∨ string_le b a.
Proof.
  unfold string_le, string_lt. destruct (bytes_lt (bytes_of b) (bytes_of a)) eqn:E; [right|by left].
  by apply bytes_lt_asym.
Qed.
Lemma string_le_antisym a b : string_le a b → string_le b a → a = b.
Proof. intros H1 H2. apply bytes_of_inj. by apply bytes_lt_total. Qed.
Lemma string_le_trans a b c : string_le a b → string_le b c → string_le a c.
Proof.
  unfold string_le, string_lt. intros H1 H2. apply not_true_iff_false. intros H3.
  destruct (bytes_lt (bytes_of b) (bytes_of c)) eqn:E.
  - rewrite (bytes_lt_trans _ _ _ E H3) in H1. done.
  - rewrite (bytes_lt_total _ _ E H2) in H1. by rewrite H1 in H3.
Qed.

Section sort_facts.
Context {A : Type} (key : A → string).
Definition by_key (a b : A) : Prop := string_le (key a) (key b).

Lemma insert_by_perm a l : insert_by key a l ≡ₚ a :: l.
Proof. induction l as [|x l IH]; cbn; [done|]. case_match; [|done]. rewrite IH. apply perm_swap. Qed.
Lemma sort_by_perm l : sort_by key l ≡ₚ l.
Proof. unfold sort_by. induction l as [|a l IH]; cbn; [done|]. by rewrite insert_by_perm, IH. Qed.

Lemma insert_by_sorted a l : StronglySorted by_key l → StronglySorted by_key (insert_by key a l).
Proof.
  induction 1 as [|x l Hs IH Hx]; cbn; [by repeat constructor|]. case_match eqn:E.
  - constructor; [done|]. rewrite insert_by_perm. constructor; [|done].
    unfold by_key, string_le, string_lt in *. by apply bytes_lt_asym.
  - constructor; [by constructor|]. constructor; [done|].
    eapply Forall_impl; [exact Hx|]. intros y. by apply string_le_trans.
Qed.
Lemma sort_by_sorted l : StronglySorted by_key (sort_by key l).
Proof. unfold sort_by. induction l as [|a l IH]; cbn; [constructor|by apply insert_by_sorted]. Qed.

(** A sorted list is left as it is. *)
Lemma sort_by_id l : StronglySorted by_key l → sort_by key l = l.
Proof.
  unfold sort_by. induction 1 as [|a l Hs IH Ha]; cbn; [done|]. rewrite IH.
  destruct l as [|x l]; [done|]. cbn. inversion Ha as [|? ? Hx]; subst. by rewrite Hx.
Qed.
Lemma sort_by_idem l : sort_by key (sort_by key l) = sort_by key l.
Proof. apply sort_by_id, sort_by_sorted. Qed.

Lemma insert_by_map {B} (f : B → A) b l :
  insert_by key (f b) (map f l) = map f (insert_by (λ b, key (f b)) b l).
Proof.
  induction l as [|x l IH]; cbn [insert_by map]; [done|]. rewrite IH. by destruct (string_lt (key (f x)) (key (f b))).
Qed.
Lemma sort_by_map {B} (f : B → A) l : sort_by key (map f l) = map f (sort_by (λ b, key (f b)) l).
Proof. unfold sort_by. induction l as [|b l IH]; cbn; [done|]. by rewrite IH, insert_by_map. Qed.
End sort_facts.

Lemma sort_by_eq {A} (f g : A → string) l : (∀ a, f a = g a) → sort_by f l = sort_by g l.
Proof.
  intros E. assert (Hi : ∀ a l, insert_by f a l = insert_by g a l).
  { intros a l'. induction l' as [|x l' IH]; cbn; [done|]. by rewrite !E, IH. }
  unfold sort_by. induction l as [|a l IH]; cbn; [done|]. by rewrite IH, Hi.
Qed.
Lemma sort_entries_by {A} (m : list (string * A)) : sort_entries m = sort_by fst m.
Proof.
  assert (Hi : ∀ (e : string * A) l, insert_entry e l = insert_by fst e l).
  { intros e l. induction l as [|x l IH]; [done|]. cbn [insert_entry insert_by]. by rewrite IH. }
  unfold sort_entries, sort_by. induction m as [|e m IH]; [done|]. cbn [foldr]. by rewrite IH, Hi.
Qed.

(** ** Canonical values *)

Definition strictly (last : option string) (l : list string) : Prop :=
  match last with Some v => Forall (λ w, string_le v w) l | None => True end.

Lemma drop_repeats_id last l : NoDup l → match last with Some v => v ∉ l | None => True end → drop_repeats last l = l.
Proof.
  intros Hn. revert last. induction Hn as [|v l Hv Hn IH]; intros last Hl; cbn; [done|].
  rewrite bool_decide_eq_false_2; [by rewrite IH|]. intros ->. apply Hl. left.
Qed.
Lemma drop_repeats_elem v : ∀ l last, v ∈ drop_repeats last l → v ∈ l.
Proof.
  intros l. induction l as [|w l IH]; intros last; cbn; [done|]. case_bool_decide.
  - intros ?%IH. by right.
  - intros [->|?%IH]%elem_of_cons; [left|by right].
Qed.
Lemma drop_repeats_keeps v l : ∀ last, v ∈ l → v ∈ drop_repeats last l ∨ last = Some v.
Proof.
  induction l as [|w l IH]; intros last; cbn; [by intros ?%elem_of_nil|].
  intros [->|Hv]%elem_of_cons; case_bool_decide as E.
  - by right.
  - left. left.
  - by apply IH.
  - destruct (IH (Some w) Hv) as [?|[= ->]]; [left; by right|left; left].
Qed.
Lemma drop_repeats_sorted l : StronglySorted string_le l → ∀ last, strictly last l →
  StronglySorted string_le (drop_repeats last l) ∧ NoDup (drop_repeats last l)
  ∧ match last with Some v => v ∉ drop_repeats last l | None => True end.
Proof.
  induction 1 as [|v l Hs IH Hv]; intros last Hl; cbn.
  { split_and!; [constructor|constructor|]. destruct last; [apply not_elem_of_nil|done]. }
  case_bool_decide as E.
  - subst last. apply IH. exact Hv.
  - destruct (IH (Some v) Hv) as (H1 & H2 & H3). split_and!.
    + constructor; [done|]. rewrite Forall_forall in *. intros w Hw%drop_repeats_elem. by apply Hv.
    + by constructor.
    + destruct last as [u|]; [|done]. cbn in Hl. inversion Hl as [|? ? Hu Hul]; subst.
      intros [->|Hw%drop_repeats_elem]%elem_of_cons; [done|].
      rewrite Forall_forall in Hv. apply E. f_equal. apply string_le_antisym; [done|by apply Hv].
Qed.

Lemma canonicalScopeValues_spec vs :
  StronglySorted string_le (canonicalScopeValues vs) ∧ NoDup (canonicalScopeValues vs)
  ∧ ∀ v, v ∈ canonicalScopeValues vs ↔ v ∈ vs.
Proof.
  unfold canonicalScopeValues. pose proof (sort_by_sorted id vs) as Hs.
  destruct (drop_repeats_sorted (sort_by id vs) Hs None I) as (H1 & H2 & _). split_and!; [done..|].
  intros v. rewrite <- (sort_by_perm id vs) at 2. split; [apply drop_repeats_elem|].
  intros Hv. by destruct (drop_repeats_keeps v _ None Hv).
Qed.
(** Sorted lists without repeats are determined by their elements. *)
Lemma strictly_sorted_unique l : StronglySorted string_le l → NoDup l → ∀ l',
  StronglySorted string_le l' → NoDup l' → (∀ v, v ∈ l ↔ v ∈ l') → l = l'.
Proof.
  intros Hs. induction Hs as [|v l Hs IH Hv]; intros Hn l' Hs' Hn' E.
  - destruct l' as [|w l']; [done|]. exfalso. apply (not_elem_of_nil w), E. left.
  - destruct Hs' as [|w l' Hs' Hw]; [exfalso; apply (not_elem_of_nil v), E; left|].
    rewrite Forall_forall in Hv, Hw. inversion Hn as [|? ? Hvl Hnl]; subst. inversion Hn' as [|? ? Hwl Hnl']; subst.
    assert (v = w) as <-.
    { destruct (decide (v = w)) as [|Hne]; [done|].
      assert (Hin : v ∈ l') by (destruct (proj1 (elem_of_cons l' v w)); [apply E; left|done|done]).
      assert (Hin' : w ∈ l) by (destruct (proj1 (elem_of_cons l w v)); [apply E; left|congruence|done]).
      apply string_le_antisym; [by apply Hv|by apply Hw]. }
    f_equal. apply IH; [done..|]. intros x. specialize (E x). rewrite !elem_of_cons in E.
    split; intros Hx; (destruct (decide (x = v)) as [->|]; [done|]); naive_solver.
Qed.
Lemma canonicalScopeValues_id vs : StronglySorted string_le vs → NoDup vs → canonicalScopeValues vs = vs.
Proof.
  intros Hs Hn. destruct (canonicalScopeValues_spec vs) as (H1 & H2 & H3). by apply strictly_sorted_unique.
Qed.
Lemma canonicalScopeValues_idem vs : canonicalScopeValues (canonicalScopeValues vs) = canonicalScopeValues vs.
Proof. destruct (canonicalScopeValues_spec vs) as (H1 & H2 & _). by apply canonicalScopeValues_id. Qed.
Lemma canonicalScopeValues_set vs vs' : (∀ v, v ∈ vs ↔ v ∈ vs') → canonicalScopeValues vs = canonicalScopeValues vs'.
Proof.
  intros E. destruct (canonicalScopeValues_spec vs) as (H1 & H2 & H3), (canonicalScopeValues_spec vs') as (H1' & H2' & H3').
  apply strictly_sorted_unique; [done..|]. intros v. by rewrite H3, H3'.
Qed.

(** ** Canonical scopes *)

Lemma canonicalConstraint_idem c : canonicalConstraint (canonicalConstraint c) = canonicalConstraint c.
Proof. destruct c as [d m [vs|]]; cbn; [|done]. unfold canonicalConstraint. cbn. by rewrite canonicalScopeValues_idem. Qed.
Lemma normalizeScopeOwned_sorted s : normalizeScopeOwned s = map canonicalConstraint (sort_by c_Dimension s).
Proof. unfold normalizeScopeOwned. rewrite sort_by_map. f_equal. Qed.
Lemma normalizeScopeOwned_idem s : normalizeScopeOwned (normalizeScopeOwned s) = normalizeScopeOwned s.
Proof.
  rewrite (normalizeScopeOwned_sorted s). unfold normalizeScopeOwned at 1. rewrite map_map, sort_by_map.
  rewrite (sort_by_eq _ c_Dimension) by done. rewrite sort_by_idem. apply map_ext, canonicalConstraint_idem.
Qed.

(** ** Smaller values pass the budget their originals passed

    Sorting a container, dropping repeats and shortening text never make the
    structural admission of [admission] fail. *)

Definition L0 : budgetLimits :=
  mkBL (maxDomainDepth * reflectionDepthAllowance) (maxDomainNodes * reflectionNodeAllowance) false.

Definition cheaper (a b : metadataBudget) : Prop :=
  mnodes a ≤ mnodes b ∧ mfields a ≤ mfields b ∧ mbytes a ≤ mbytes b ∧ mvalues a ≤ mvalues b.
Record lighter (a b : reflected) : Prop := {
  lighter_cost : cheaper (cost L0 a) (cost L0 b);
  lighter_height : height L0 a ≤ height L0 b;
  lighter_clean : clean L0 b → clean L0 a
}.

Lemma cheaper_refl a : cheaper a a.
Proof. unfold cheaper. lia. Qed.
Lemma cheaper_trans a b c : cheaper a b → cheaper b c → cheaper a c.
Proof. unfold cheaper. lia. Qed.
Lemma cheaper_plus a b c d : cheaper a b → cheaper c d → cheaper (plus a c) (plus b d).
Proof. unfold cheaper, plus. cbn. lia. Qed.
Lemma cheaper_sum {A B} (f : A → metadataBudget) (g : B → metadataBudget) l l' :
  Forall2 (λ a b, cheaper (f a) (g b)) l l' → cheaper (sum_cost f l) (sum_cost g l').
Proof. induction 1; cbn [sum_cost foldr]; [apply cheaper_refl|by apply cheaper_plus]. Qed.
Lemma sum_cost_perm {A} (f : A → metadataBudget) l l' : l ≡ₚ l' → sum_cost f l = sum_cost f l'.
Proof.
  induction 1 as [|a l l' _ IH|a b l|l1 l2 l3 _ IH1 _ IH2]; cbn [sum_cost foldr]; [done| | |congruence].
  - fold (sum_cost f l) (sum_cost f l'). by rewrite IH.
  - apply budget_eq; cbn; lia.
Qed.
Lemma sum_cost_app {A} (f : A → metadataBudget) l l' : sum_cost f (l ++ l') = plus (sum_cost f l) (sum_cost f l').
Proof.
  induction l as [|a l IH]; cbn [sum_cost foldr app]; [by rewrite spent_plus|].
  fold (sum_cost f (l ++ l')) (sum_cost f l). by rewrite IH, plus_assoc.
Qed.
Lemma sum_cost_nonneg {A} (f : A → metadataBudget) l : (∀ a, nonneg (f a)) → nonneg (sum_cost f l).
Proof. intros Hf. induction l as [|a l IH]; cbn [sum_cost foldr]; [by unfold nonneg|by apply nonneg_plus]. Qed.
Lemma cheaper_sub {A} (f : A → metadataBudget) l l' : (∀ a, nonneg (f a)) → l ⊆+ l' → cheaper (sum_cost f l) (sum_cost f l').
Proof.
  intros Hf [k Hk]%submseteq_Permutation. rewrite (sum_cost_perm f l' _ Hk), sum_cost_app.
  pose proof (sum_cost_nonneg f k Hf). unfold cheaper, nonneg, plus in *. cbn. lia.
Qed.
Lemma cost_nonneg v : nonneg (cost L0 v).
Proof. apply (adds_visit L0 v 0). Qed.

Lemma max_height_forall2 {A B} (f : A → Z) (g : B → Z) l l' :
  Forall2 (λ a b, f a ≤ g b) l l' → max_height f l ≤ max_height g l'.
Proof. induction 1; cbn [max_height foldr]; [done|]. unfold max_height in *. lia. Qed.
Lemma max_height_sub {A} (f : A → Z) l l' : (∀ a, a ∈ l → a ∈ l') → max_height f l ≤ max_height f l'.
Proof.
  intros Hl. apply max_height_le. split; [apply max_height_nonneg|]. apply Forall_forall. intros a Ha.
  assert (max_height f l' ≤ max_height f l') as [_ H]%max_height_le by lia.
  rewrite Forall_forall in H. by apply H, Hl.
Qed.

Lemma lighter_refl v : lighter v v.
Proof. split; [apply cheaper_refl|lia|done]. Qed.
Lemma lighter_trans a b c : lighter a b → lighter b c → lighter a c.
Proof. intros [H1 H2 H3] [H4 H5 H6]. split; [by eapply cheaper_trans|lia|auto]. Qed.
Lemma lighter_ref a b : lighter a b → lighter (RRef a) (RRef b).
Proof.
  intros [H1 H2 H3]. split.
  - cbn [cost]. by apply cheaper_plus; [apply cheaper_refl|].
  - cbn [height]. lia.
  - inversion 1; subst. constructor. auto.
Qed.
Lemma Forall2_clean {A B} (P : A → Prop) (Q : B → Prop) (R : A → B → Prop) l l' :
  (∀ a b, R a b → Q b → P a) → Forall2 R l l' → Forall Q l' → Forall P l.
Proof. intros HR. induction 1; inversion 1; subst; constructor; eauto. Qed.

Lemma lighter_struct fs gs : Forall2 (λ f g : bool * reflected, lighter f.2 g.2) fs gs → lighter (RStruct fs) (RStruct gs).
Proof.
  intros H. split.
  - cbn [cost]. apply cheaper_plus; [apply cheaper_refl|]. apply cheaper_sum.
    eapply Forall2_impl; [exact H|]. intros f g Hf. apply Hf.
  - cbn [height]. apply max_height_forall2. eapply Forall2_impl; [exact H|]. intros f g Hf. cbn. destruct Hf. lia.
  - inversion 1 as [| | | | | | |? Hc| | |]; subst. constructor. eapply Forall2_clean; [|exact H|exact Hc].
    intros f g Hf [?|?]; [done|]. right. by apply Hf.
Qed.
Lemma lighter_seq vs ws : Forall2 lighter vs ws → lighter (RSeq vs) (RSeq ws).
Proof.
  intros H. split.
  - cbn [cost]. repeat (apply cheaper_plus; [rewrite ?(Forall2_length _ _ _ H); apply cheaper_refl|]).
    apply cheaper_sum. eapply Forall2_impl; [exact H|]. intros f g Hf. apply Hf.
  - cbn [height]. apply max_height_forall2. eapply Forall2_impl; [exact H|]. intros f g Hf. destruct Hf. lia.
  - inversion 1; subst. constructor. eapply Forall2_clean; [|exact H|eassumption]. intros f g Hf ?. by apply Hf.
Qed.
Lemma lighter_seq_sub vs ws : vs ⊆+ ws → lighter (RSeq vs) (RSeq ws).
Proof.
  intros H. pose proof (submseteq_length _ _ H) as Hl. split.
  - cbn [cost]. apply cheaper_plus; [apply cheaper_refl|]. apply cheaper_plus; [unfold cheaper; cbn; lia|].
    apply cheaper_sub; [apply cost_nonneg|done].
  - cbn [height]. apply max_height_sub. intros v Hv. by eapply elem_of_submseteq.
  - inversion 1; subst. constructor. rewrite Forall_forall in *. intros v Hv. eauto using elem_of_submseteq.
Qed.
Lemma lighter_map m m' : Forall2 (λ e f : reflected * reflected, lighter e.1 f.1 ∧ lighter e.2 f.2) m m' → lighter (RMap m) (RMap m').
Proof.
  intros H. split.
  - cbn [cost]. repeat (apply cheaper_plus; [rewrite ?(Forall2_length _ _ _ H); apply cheaper_refl|]).
    apply cheaper_sum. eapply Forall2_impl; [exact H|]. intros f g [H1 H2]. apply cheaper_plus; [apply H1|apply H2].
  - cbn [height]. apply max_height_forall2. eapply Forall2_impl; [exact H|]. intros f g [[] []]. lia.
  - inversion 1; subst. constructor. eapply Forall2_clean; [|exact H|eassumption].
    intros f g [[] []] []. auto.
Qed.
Lemma lighter_map_perm m m' : m ≡ₚ m' → lighter (RMap m) (RMap m').
Proof.
  intros H. split.
  - cbn [cost]. rewrite (Permutation_length H), (sum_cost_perm _ _ _ H). apply cheaper_refl.
  - cbn [height]. apply max_height_sub. intros e. by rewrite H.
  - inversion 1; subst. constructor. by rewrite H.
Qed.

Lemma admission_lighter `{Reflect A} (a b : A) : lighter (reflect a) (reflect b) →
  admission b = Some (Ok tt) → admission a = Some (Ok tt).
Proof.
  intros [Hc Hh Hl] Hb. apply metadataAdmission_spec in Hb as [[Hd Hcl] Hw]; [|done].
  apply metadataAdmission_spec; [done|]. fold L0 in *. split; [split; [|auto]|].
  - lia.
  - unfold within, cheaper in *. lia.
Qed.

Lemma reflect_lighter_map {A} (f : A → A) `{Reflect A} (l : list A) : Forall (λ a, lighter (reflect (f a)) (reflect a)) l →
  lighter (reflect (map f l)) (reflect l).
Proof.
  intros Hf. unfold reflect, reflect_slice. rewrite map_map. apply lighter_seq.
  induction Hf; constructor; auto.
Qed.
Lemma reflect_lighter_sub `{Reflect A} (l l' : list A) : l ⊆+ l' → lighter (reflect l) (reflect l').
Proof. intros Hl. apply lighter_seq_sub. by apply fmap_submseteq. Qed.

(** Compares two structs field by field. *)
Ltac lighter_fields := apply lighter_struct; repeat (apply Forall2_cons; split; [cbn [snd]; try apply lighter_refl|]); try apply Forall2_nil_2.

(** *** Addresses and scopes *)

Definition canonicalAddress (a : ResourceAddress) : ResourceAddress :=
  mkAddress (a_Provider a) (a_Authority a) (a_Type a) (sort_by se_Dimension (a_Scope a)) (a_ID a).

Lemma drop_repeats_sub l : ∀ last, drop_repeats last l `sublist_of` l.
Proof.
  induction l as [|v l IH]; intros last; cbn; [constructor|]. case_bool_decide; [by apply sublist_cons|by apply sublist_skip].
Qed.
Lemma canonicalScopeValues_sub vs : canonicalScopeValues vs ⊆+ vs.
Proof.
  rewrite <- (sort_by_perm id vs) at 2. apply sublist_submseteq, drop_repeats_sub.
Qed.

Lemma canonicalAddress_lighter a : lighter (reflect (canonicalAddress a)) (reflect a).
Proof.
  lighter_fields. apply reflect_lighter_sub. cbn [a_Scope canonicalAddress]. by rewrite sort_by_perm.
Qed.
Lemma canonicalConstraint_lighter c : lighter (reflect (canonicalConstraint c)) (reflect c).
Proof.
  destruct c as [d m [vs|]]; lighter_fields.
  apply lighter_ref, reflect_lighter_sub, canonicalScopeValues_sub.
Qed.
Lemma canonicalScope_lighter s : lighter (reflect (Some (normalizeScopeOwned (listOf s)) : QueryScope)) (reflect s).
Proof.
  change (lighter (reflect (normalizeScopeOwned (listOf s))) (reflect (listOf s))). rewrite normalizeScopeOwned_sorted.
  eapply lighter_trans; [apply reflect_lighter_map, Forall_forall; intros c _; apply canonicalConstraint_lighter|].
  apply reflect_lighter_sub. by rewrite sort_by_perm.
Qed.

Lemma canonicalAddress_valid a : ValidateAddress a None = Some (Ok tt) → ValidateAddress (canonicalAddress a) None = Some (Ok tt).
Proof.
  unfold ValidateAddress. rewrite !outcome_seq_ok. intros (Ha & Ht & Hs). split_and!; [|done|].
  - eapply admission_lighter; [apply canonicalAddress_lighter|done].
  - revert Hs. cbn [declared_dimensions mbind outcome_bind canonicalAddress a_Scope]. rewrite !outcome_seq_ok, !each_distinct_ok.
    intros [(Hn & Hf & Hp) Hc]. pose proof (sort_by_perm se_Dimension (a_Scope a)) as Hs.
    split; [split_and!|]; [by rewrite Hs|by rewrite Hs|by rewrite Hs|exact Hc].
Qed.

(** A valid constraint other than any lists its values; any lists none. *)
Definition constraint_shape (c : ScopeConstraint) : Prop :=
  (c_Match c = ScopeAny ∧ c_Values c = None) ∨ (c_Match c = ScopeOneOf ∧ is_Some (c_Values c)).

Lemma validateScopeSelection_shape c b : validateScopeSelection c b = Some (Ok tt) → constraint_shape c.
Proof.
  unfold validateScopeSelection, constraint_shape. case_bool_decide as E; [rewrite require_ok; intros ?; propify; auto|].
  case_bool_decide; [|done]. destruct (c_Values c); [eauto|done].
Qed.
Lemma ValidateScope_shape s : ValidateScope s None = Some (Ok tt) → Forall constraint_shape (listOf s).
Proof.
  unfold ValidateScope. rewrite outcome_seq_ok. cbn [declared_dimensions mbind outcome_bind].
  rewrite outcome_seq_ok, each_distinct_ok. intros (_ & (_ & _ & Hp) & _).
  eapply Forall_impl; [exact Hp|]. intros c [_ Hc]. by apply validateScopeSelection_shape in Hc.
Qed.

Lemma canonicalConstraint_valid c : validateScopeSelection c true = Some (Ok tt) →
  validateScopeSelection (canonicalConstraint c) true = Some (Ok tt).
Proof.
  unfold validateScopeSelection. cbn [c_Match c_Values canonicalConstraint].
  case_bool_decide; [rewrite !require_ok; intros ?; propify; by rewrite (bool_decide_eq_true_2 _) by by destruct (c_Values c)|].
  case_bool_decide; [|done]. destruct (c_Values c) as [vs|]; [|done]. cbn [fmap option_fmap option_map]. rewrite !each_ok.
  intros Hf. rewrite Forall_forall in *. intros v Hv. apply Hf. by apply (canonicalScopeValues_spec vs).
Qed.

Lemma canonicalScope_valid s : ValidateScope s None = Some (Ok tt) →
  ValidateScope (Some (normalizeScopeOwned (listOf s))) None = Some (Ok tt).
Proof.
  unfold ValidateScope. rewrite !outcome_seq_ok. intros [Ha Hs]. split.
  - eapply admission_lighter; [apply canonicalScope_lighter|done].
  - revert Hs. cbn [declared_dimensions mbind outcome_bind]. rewrite !outcome_seq_ok, !each_distinct_ok.
    change (listOf (Some ?x)) with x. intros [(Hn & Hf & Hp) Hc].
    pose proof (sort_by_perm c_Dimension (listOf s)) as Hs. rewrite normalizeScopeOwned_sorted.
    assert (Hk : c_Dimension <$> map canonicalConstraint (sort_by c_Dimension (listOf s))
      = c_Dimension <$> sort_by c_Dimension (listOf s)) by (rewrite <- list_fmap_compose; done).
    split; [split_and!|exact Hc].
    + by rewrite Hk, Hs.
    + apply Forall_forall. intros c _. apply not_elem_of_nil.
    + apply Forall_map. rewrite Hs. eapply Forall_impl; [exact Hp|]. intros c [H1 H2]. split; [exact H1|].
      by apply canonicalConstraint_valid.
Qed.
