(* ===== verification/Scopes.v ===== *)
(** * Scope algebra (pkg/resource/v2/controller_admission.go, relationship_validation.go)

    Intersection and containment of query scopes, the projection of identities
    onto query dimensions, and the explicit relationship bindings; with the set
    of coordinates a scope denotes as their specification. *)
From S2P Require Import Prelude GoStd Errors Values Json TaggedJson Budget Domain Validation.
Local Open Scope Z_scope.

(** ** Operations *)

Definition contains (l : list string) (x : string) : bool := bool_decide (x ∈ l).

Definition scopeConstraint (scope : list ScopeConstraint) (dimension : string) : option ScopeConstraint :=
  snd <$> list_find (λ c, c_Dimension c = dimension) scope.

Definition intersectConstraint (a : ScopeConstraint) (b : option ScopeConstraint) : option ScopeConstraint :=
  b ← b;
  if bool_decide (c_Match a = ScopeAny) then Some b
  else if bool_decide (c_Match b = ScopeAny) then Some a
  else
    av ← c_Values a; bv ← c_Values b;
    Some (mkConstraint (c_Dimension a) ScopeOneOf (Some (filter (λ v, contains bv v = true) av))).

(** [None] is the [false] answer. *)
Definition intersectScope (a b : QueryScope) : option QueryScope :=
  match b with
  | None => Some a
  | Some b =>
    if negb (length (listOf a) =? length b)%nat then None
    else out ← mapM (λ ac, intersectConstraint ac (scopeConstraint b (c_Dimension ac))) (listOf a);
         Some (Some out)
  end.

Definition constraintContains (allowed wanted : ScopeConstraint) : bool :=
  if bool_decide (c_Match allowed = ScopeAny) then true
  else if negb (bool_decide (c_Match wanted = ScopeOneOf)) then false
  else match c_Values wanted, c_Values allowed with
       | Some w, Some a => forallb (contains a) w
       | _, _ => false
       end.

Definition scopeContains (outer inner : QueryScope) : bool :=
  match outer with
  | None => true
  | Some outer =>
    (length outer =? length (listOf inner))%nat
    && forallb (λ wanted, match scopeConstraint outer (c_Dimension wanted) with
                          | Some allowed => constraintContains allowed wanted
                          | None => false
                          end) (listOf inner)
  end.

Definition SourceGuaranteeForTarget (descriptor : ResourceType) (target : ReadTarget) : string :=
  match list_find (λ c, cap_Operation c = OperationSourceUpdates
                        ∧ scopeContains (cap_Scope c) (rt_Scope target) = true) (Capabilities descriptor) with
  | Some (_, c) => Guarantee c
  | None => ""
  end.

(** The first entry of the address for a dimension. *)
Definition coordinate (scope : list ScopeEntry) (dimension : string) : option string :=
  (λ e, se_Value e.2) <$> list_find (λ e, se_Dimension e = dimension) scope.

Definition project_dimension (scope : list ScopeEntry) (d : Dimension) : ScopeConstraint :=
  match coordinate scope (d_Name d) with
  | Some v => mkConstraint (d_Name d) ScopeOneOf (Some [v])
  | None => mkConstraint (d_Name d) ScopeAny None
  end.
Definition queryScopeForIdentity (address : ResourceAddress) (ds : list Dimension) : QueryScope * bool :=
  (Some (map (project_dimension (a_Scope address)) ds),
   forallb (λ d, bool_decide (is_Some (coordinate (a_Scope address) (d_Name d)))) ds).

Definition ScopeForAddress (address : ResourceAddress) (descriptor : ResourceType) : outcome QueryScope :=
  ValidateAddress address (Some (IdentityDimensions descriptor)) ;;
  dimensions (QueryDimensions descriptor) ;;
  Some (Ok (queryScopeForIdentity address (QueryDimensions descriptor)).1).

Definition identityWithinQueryScope (address : ResourceAddress) (scope : QueryScope) : bool :=
  forallb (λ e, match scopeConstraint (listOf scope) (se_Dimension e) with
                | None => true
                | Some c =>
                  bool_decide (c_Match c = ScopeAny)
                  || match c_Values c with Some vs => contains vs (se_Value e) | None => false end
                end) (a_Scope address).

Definition sameAddress (a b : ResourceAddress) : bool :=
  bool_decide (a_Provider a = a_Provider b) && bool_decide (a_Authority a = a_Authority b)
  && bool_decide (a_Type a = a_Type b) && bool_decide (a_ID a = a_ID b)
  && (length (a_Scope a) =? length (a_Scope b))%nat
  && forallb (λ e, bool_decide (e ∈ a_Scope b)) (a_Scope a).

(** ** Relationship bindings *)

(** The private admission index: one entry per dimension, the later constraint
    winning as the map assignment does. *)
Record relationshipConstraintIndex := mkIndex { ix_any : bool; ix_values : gset string }.
Definition relationshipScopeIndex : Type := gmap string relationshipConstraintIndex.

Definition index_constraint (c : ScopeConstraint) : relationshipConstraintIndex :=
  mkIndex (bool_decide (c_Match c = ScopeAny)) (list_to_set (default [] (c_Values c))).
Definition indexRelationshipScope (scope : list ScopeConstraint) : relationshipScopeIndex :=
  foldl (λ m c, <[c_Dimension c := index_constraint c]> m) ∅ scope.

Definition sameRelationshipDimensions (a b : relationshipScopeIndex) : bool :=
  (size a =? size b)%nat && bool_decide (dom a ⊆ dom b).

Definition relationshipConstraintOverlap (left right : relationshipConstraintIndex) : bool * bool :=
  if ix_any left && ix_any right then (true, true)
  else if ix_any left then (false, negb (size (ix_values right) =? 0)%nat)
  else if ix_any right then (false, negb (size (ix_values left) =? 0)%nat)
  else
    let common := size (ix_values left ∩ ix_values right) in
    ((common =? size (ix_values left))%nat && (common =? size (ix_values right))%nat,
     negb (common =? 0)%nat).

Definition relationshipScopesConflict (a b : relationshipScopeIndex) : bool :=
  if negb (size a =? size b)%nat then false
  else if negb (bool_decide (dom a ⊆ dom b)) then false
  else
    let pairs := omap (λ e, relationshipConstraintOverlap e.2 <$> b !! e.1) (map_to_list a) in
    forallb fst pairs || forallb snd pairs.

Record RelationshipResolutionRequest := mkRelationshipRequest {
  rr_Source : GetRequest; rr_Targets : list ReadTarget
}.
#[export] Instance reflect_RelationshipResolutionRequest : Reflect RelationshipResolutionRequest := λ v,
  RStruct [field (rr_Source v); field (rr_Targets v)].

Definition MaxRelationshipTargets : Z := 256.

Definition same_binding_key (a b : ReadTarget) : bool :=
  bool_decide (rt_Provider a = rt_Provider b) && bool_decide (rt_Type a = rt_Type b)
  && bool_decide (rt_Route a = rt_Route b).

Definition target_index (t : ReadTarget) : relationshipScopeIndex :=
  indexRelationshipScope (listOf (rt_Scope t)).

Definition validatePriorRelationshipBindings (priors : list ReadTarget) (target : ReadTarget) : outcome unit :=
  each (λ prior,
    if negb (same_binding_key prior target) then Some (Ok tt)
    else
      require (sameRelationshipDimensions (target_index prior) (target_index target))
        (invalid "inconsistent relationship target scope dimensions") ;;
      require (negb (relationshipScopesConflict (target_index prior) (target_index target)))
        (invalid "overlapping relationship target bindings")) priors.

Fixpoint validate_bindings (priors targets : list ReadTarget) : outcome unit :=
  match targets with
  | [] => Some (Ok tt)
  | t :: targets =>
    validateTarget t ;;
    require (negb (bool_decide (rt_Scope t = None))) (invalid "relationship target scope must be array") ;;
    validatePriorRelationshipBindings priors t ;;
    validate_bindings (priors ++ [t]) targets
  end.

Definition ValidateRelationshipResolutionRequest (req : RelationshipResolutionRequest) : outcome unit :=
  require (negb (MaxRelationshipTargets <? Z.of_nat (length (rr_Targets req))))
    (limited "relationship target binding limit") ;;
  admission req ;;
  ValidateGetRequest (rr_Source req) ;;
  validate_bindings [] (rr_Targets req).

Definition validateRelationshipIdentityScope (scope : list ScopeEntry) : outcome unit :=
  each_distinct se_Dimension (invalid "duplicate identity dimension")
    (λ e, otext (se_Dimension e) true ;; otext (se_Value e) false) ret_ok [] scope.

(** The binding admits the observed identity scope. *)
Definition binding_matches (route : AccessRoute) (provider typ : string) (scope : list ScopeEntry)
    (target : ReadTarget) : bool :=
  bool_decide (rt_Provider target = provider) && bool_decide (rt_Type target = typ)
  && bool_decide (rt_Route target = route)
  && (let ds := map (λ c, mkDimension (c_Dimension c) true) (listOf (rt_Scope target)) in
      scopeContains (rt_Scope target) (Some (map (project_dimension scope) ds))).

Definition matchRelationshipTarget_ (req : RelationshipResolutionRequest) (route : AccessRoute)
    (provider typ : string) (scope : list ScopeEntry) : outcome ReadTarget :=
  admission scope ;;
  otext provider true ;;
  otext typ true ;;
  validateRoute route ;;
  validateRelationshipIdentityScope scope ;;
  match filter (λ t, binding_matches route provider typ scope t = true) (rr_Targets req) with
  | [t] => Some (Ok t)
  | _ => fails (unsupported "Observed relationship has no unique explicit target binding.")
  end.

Definition MatchRelationshipTarget (req : RelationshipResolutionRequest) (route : AccessRoute)
    (provider typ : string) (scope : list ScopeEntry) : outcome ReadTarget :=
  ValidateRelationshipResolutionRequest req ;;
  matchRelationshipTarget_ req route provider typ scope.

(** ** What a scope denotes *)

(** A coordinate for every dimension. *)
Definition coordinates : Type := string → string.

Definition allows (c : ScopeConstraint) (x : string) : Prop :=
  c_Match c = ScopeAny ∨ ∃ vs, c_Values c = Some vs ∧ x ∈ vs.
Definition denotes (s : list ScopeConstraint) (f : coordinates) : Prop :=
  Forall (λ c, allows c (f (c_Dimension c))) s.

(** What [ValidateScope] establishes. *)
Definition wf_constraint (c : ScopeConstraint) : Prop :=
  (c_Match c = ScopeAny ∧ c_Values c = None) ∨ (c_Match c = ScopeOneOf ∧ is_Some (c_Values c)).
Definition dims (s : list ScopeConstraint) : list string := c_Dimension <$> s.
Definition wf_scope (s : list ScopeConstraint) : Prop := NoDup (dims s) ∧ Forall wf_constraint s.

Lemma validateScopeSelection_wf c e : validateScopeSelection c e = Some (Ok tt) → wf_constraint c.
Proof.
  unfold validateScopeSelection, wf_constraint. case_bool_decide.
  - rewrite require_ok, bool_decide_eq_true. auto.
  - case_bool_decide; [|done]. destruct (c_Values c); [|done]. intros _. right. eauto.
Qed.

Lemma validateConstraint_wf allowed c : validateConstraint allowed c = Some (Ok tt) → wf_constraint c.
Proof.
  unfold validateConstraint. destruct allowed as [m|]; [destruct (map_get _ m); [|done]|];
    apply validateScopeSelection_wf.
Qed.

Lemma ValidateScope_wf s declared : ValidateScope s declared = Some (Ok tt) → wf_scope (listOf s).
Proof.
  unfold ValidateScope. rewrite outcome_seq_ok. intros [_ H].
  apply outcome_bind_some in H as (allowed & _ & H). apply outcome_seq_ok in H as [H _].
  apply each_distinct_ok in H as (Hnd & _ & Hf). split; [done|].
  eapply Forall_impl; [exact Hf|]. intros c [_ Hc]. by eapply validateConstraint_wf.
Qed.

(** Lookup by dimension. *)
Lemma scopeConstraint_some s d c :
  scopeConstraint s d = Some c → c ∈ s ∧ c_Dimension c = d.
Proof.
  unfold scopeConstraint. intros H. apply fmap_Some in H as ([i x] & Hf & ->).
  apply list_find_Some in Hf as (Hi & Hx & _). split; [by eapply list_elem_of_lookup_2|done].
Qed.

Lemma scopeConstraint_none s d : scopeConstraint s d = None ↔ d ∉ dims s.
Proof.
  unfold scopeConstraint. rewrite fmap_None, list_find_None. unfold dims.
  rewrite Forall_forall. split.
  - intros H (c & -> & Hc)%list_elem_of_fmap. by eapply H.
  - intros H c Hc <-. apply H. by apply list_elem_of_fmap_2.
Qed.

Lemma scopeConstraint_elem s c : NoDup (dims s) → c ∈ s → scopeConstraint s (c_Dimension c) = Some c.
Proof.
  intros Hnd Hc. destruct (scopeConstraint s (c_Dimension c)) as [c'|] eqn:E.
  - apply scopeConstraint_some in E as [Hc' Hd]. f_equal.
    apply list_elem_of_lookup in Hc as [i Hi]. apply list_elem_of_lookup in Hc' as [j Hj].
    assert (i = j) as ->; [|congruence].
    eapply NoDup_lookup; [exact Hnd| |]; unfold dims; rewrite list_lookup_fmap;
      [rewrite Hi|rewrite Hj; simpl; rewrite Hd]; done.
  - apply scopeConstraint_none in E. destruct E. by apply list_elem_of_fmap_2.
Qed.

(** Equal lengths turn one inclusion of distinct dimensions into the other. *)
Lemma dims_cover a b : NoDup (dims a) → length a = length b →
  (∀ d, d ∈ dims a → d ∈ dims b) → ∀ d, d ∈ dims b → d ∈ dims a.
Proof.
  intros Hnd Hl Hsub d Hd.
  assert (dims a ≡ₚ dims b) as Hp; [|by rewrite Hp].
  apply submseteq_length_Permutation; [by apply NoDup_submseteq|].
  unfold dims. rewrite !length_fmap. lia.
Qed.

(** ** Intersection *)

Lemma intersectConstraint_allows a b c : wf_constraint a → wf_constraint b →
  c_Dimension b = c_Dimension a →
  intersectConstraint a (Some b) = Some c →
  c_Dimension c = c_Dimension a ∧ wf_constraint c ∧ ∀ x, allows c x ↔ allows a x ∧ allows b x.
Proof.
  unfold intersectConstraint, wf_constraint, allows. intros Ha Hb Hd H. cbn in H.
  case_bool_decide as Ea; [injection H as <-; tauto|].
  case_bool_decide as Eb; [injection H as <-; split_and!; try done; tauto|].
  destruct Ha as [[? ?]|[Ha [av Hav]]]; [done|]. destruct Hb as [[? ?]|[Hb [bv Hbv]]]; [done|].
  rewrite Hav, Hbv in H. injection H as <-. simpl. split_and!; [done|right; eauto|].
  intros x. unfold contains. rewrite Hav, Hbv. split.
  - intros [?|(vs & [= <-] & Hx)]; [done|]. apply list_elem_of_filter in Hx as [Hxb Hx].
    apply bool_decide_eq_true in Hxb. eauto 10.
  - intros [[?|(vs & [= <-] & Hx)] [?|(ws & [= <-] & Hy)]]; try done.
    right. eexists. split; [done|]. apply list_elem_of_filter. by rewrite bool_decide_eq_true.
Qed.

Lemma intersectScope_spec a b out : wf_scope a → wf_scope b →
  intersectScope (Some a) (Some b) = Some (Some out) →
  dims out = dims a ∧ Forall wf_constraint out ∧ ∀ f, denotes out f ↔ denotes a f ∧ denotes b f.
Proof.
  intros [Hnda Hwa] [Hndb Hwb] H. unfold intersectScope in H.
  change (listOf (Some a)) with a in H.
  destruct (length a =? length b)%nat eqn:Hl; [|discriminate H]. propify. cbn [negb] in H.
  apply bind_Some in H as (o & Hm & [= <-]). apply mapM_Some in Hm.
  assert (Hrel : Forall2 (λ x y, ∃ z, z ∈ b ∧ c_Dimension z = c_Dimension x ∧
    c_Dimension y = c_Dimension x ∧ wf_constraint y ∧ ∀ v, allows y v ↔ allows x v ∧ allows z v) a o).
  { eapply Forall2_mp; [exact Hwa|exact Hm|]. intros x y Hx Hy. cbn beta in Hy.
    destruct (scopeConstraint b (c_Dimension x)) as [z|] eqn:E; [|unfold intersectConstraint in Hy; cbn in Hy; discriminate Hy].
    apply scopeConstraint_some in E as [Hz Hd]. exists z. split; [done|]. split; [done|].
    apply intersectConstraint_allows; try done. rewrite Forall_forall in Hwb. auto. }
  assert (Hdims : dims o = dims a).
  { clear -Hrel. induction Hrel as [|x y a o (z & _ & _ & Hd & _) _ IH]; [done|]. unfold dims in *. rewrite !fmap_cons. by rewrite Hd, IH. }
  assert (Hcover : ∀ d, d ∈ dims b → d ∈ dims a).
  { apply dims_cover; [done|done|]. intros d (x & -> & Hx)%list_elem_of_fmap.
    apply list_elem_of_lookup in Hx as [i Hi].
    destruct (Forall2_lookup_l _ _ _ _ _ Hrel Hi) as (y & _ & z & Hz & <- & _).
    by apply list_elem_of_fmap_2. }
  split; [done|]. split.
  { clear -Hrel. induction Hrel as [|x y a o (z & _ & _ & _ & Hw & _) _ IH]; constructor; done. }
  intros f. unfold denotes. rewrite !Forall_forall. split.
  - intros Ho. split.
    + intros x Hx. apply list_elem_of_lookup in Hx as [i Hi].
      destruct (Forall2_lookup_l _ _ _ _ _ Hrel Hi) as (y & Hy & z & _ & _ & Hd & _ & Ha).
      apply Ha. rewrite <- Hd. apply Ho. by eapply list_elem_of_lookup_2.
    + intros z Hz. assert (c_Dimension z ∈ dims a) as Hin by (apply Hcover; by apply list_elem_of_fmap_2).
      apply list_elem_of_fmap in Hin as (x & Hdx & Hx). apply list_elem_of_lookup in Hx as [i Hi].
      destruct (Forall2_lookup_l _ _ _ _ _ Hrel Hi) as (y & Hy & z' & Hz' & Hdz & Hd & _ & Ha).
      assert (z' = z) as ->.
      { pose proof (scopeConstraint_elem b z Hndb Hz) as E1.
        pose proof (scopeConstraint_elem b z' Hndb Hz') as E2. congruence. }
      rewrite Hdx. apply Ha. rewrite <- Hd. apply Ho. by eapply list_elem_of_lookup_2.
  - intros [Hfa Hfb] y Hy. apply list_elem_of_lookup in Hy as [i Hi].
    destruct (Forall2_lookup_r _ _ _ _ _ Hrel Hi) as (x & Hx & z & Hz & Hdz & Hd & _ & Ha).
    rewrite Hd. apply Ha. split; [apply Hfa; by eapply list_elem_of_lookup_2|].
    rewrite <- Hdz. by apply Hfb.
Qed.

(** Lookup succeeds on every dimension, so intersection only fails when a
    dimension of the first scope is missing from the second. *)
Lemma intersectConstraint_defined a b : wf_constraint a → wf_constraint b →
  is_Some (intersectConstraint a (Some b)).
Proof.
  unfold wf_constraint. intros Ha Hb. unfold intersectConstraint. cbn.
  case_bool_decide as Ea; [done|]. case_bool_decide as Eb; [done|].
  destruct Ha as [[? ?]|[_ [av ->]]]; [done|]. destruct Hb as [[? ?]|[_ [bv ->]]]; done.
Qed.

Lemma intersectScope_none a b : wf_scope a → wf_scope b →
  intersectScope (Some a) (Some b) = None → ¬ dims a ≡ₚ dims b.
Proof.
  intros [Hnda Hwa] [Hndb Hwb] H Hp. unfold intersectScope in H.
  change (listOf (Some a)) with a in H.
  assert (length a = length b) as Hl.
  { apply Permutation_length in Hp. unfold dims in Hp. by rewrite !length_fmap in Hp. }
  rewrite Hl, Nat.eqb_refl in H. cbn [negb] in H.
  apply bind_None in H as [H|(o & _ & H)]; [|done]. apply eq_None_not_Some in H. destruct H.
  apply mapM_is_Some. rewrite Forall_forall in *. intros x Hx.
  change (is_Some (intersectConstraint x (scopeConstraint b (c_Dimension x)))).
  destruct (scopeConstraint b (c_Dimension x)) as [z|] eqn:E.
  - apply scopeConstraint_some in E as [Hz _]. apply intersectConstraint_defined; auto.
  - apply scopeConstraint_none in E. destruct E. rewrite <- Hp. by apply list_elem_of_fmap_2.
Qed.

(** C17: For two scopes that pass ValidateScope, intersectScope answers a scope
    over the first one's dimensions that denotes exactly the coordinates both
    scopes admit; it refuses only scopes over different dimensions. *)
Theorem intersectScope_denotes a b da db :
  ValidateScope (Some a) da = Some (Ok tt) → ValidateScope (Some b) db = Some (Ok tt) →
  match intersectScope (Some a) (Some b) with
  | Some out => dims (listOf out) = dims a
                ∧ ∀ f, denotes (listOf out) f ↔ denotes a f ∧ denotes b f
  | None => ¬ dims a ≡ₚ dims b
  end.
Proof.
  intros Ha%ValidateScope_wf Hb%ValidateScope_wf.
  destruct (intersectScope (Some a) (Some b)) as [out|] eqn:E.
  - destruct out as [out|].
    + destruct (intersectScope_spec a b out Ha Hb E) as (? & _ & ?). done.
    + unfold intersectScope in E. destruct (negb _); [done|].
      apply bind_Some in E as (? & _ & E). done.
  - by apply intersectScope_none.
Qed.

(** ** Containment *)

Lemma constraintContains_sound a w : constraintContains a w = true → ∀ x, allows w x → allows a x.
Proof.
  unfold constraintContains, allows. case_bool_decide as Ea; [tauto|]. case_bool_decide as Ew; [|done].
  cbn [negb]. destruct (c_Values w) as [wv|], (c_Values a) as [av|]; try done.
  rewrite forallb_elem. intros H x [Hx|(vs & [= <-] & Hx)]; [by rewrite Hx in Ew|].
  right. eexists. split; [done|]. by eapply bool_decide_eq_true, (H x).
Qed.

Lemma constraintContains_allows a w : wf_constraint a → wf_constraint w → c_Values w ≠ Some [] →
  constraintContains a w = true ↔ ∀ x, allows w x → allows a x.
Proof.
  unfold constraintContains, wf_constraint, allows. intros Ha Hw Hne. case_bool_decide as Ea; [tauto|].
  destruct Ha as [[? ?]|[_ [av Hav]]]; [done|]. rewrite Hav.
  case_bool_decide as Ew; cbn [negb].
  - destruct Hw as [[Hw _]|[_ [wv Hwv]]]; [by rewrite Hw in Ew|]. rewrite Hwv, forallb_elem.
    unfold contains. split.
    + intros H x [Hx|(vs & [= <-] & Hx)]; [by rewrite Hx in Ew|]. right. eexists. split; [done|].
      by eapply bool_decide_eq_true, H.
    + intros H x Hx. destruct (H x) as [?|(vs & [= <-] & Hin)]; [eauto|done|]. by apply bool_decide_eq_true.
  - destruct Hw as [[Hw _]|[Hw _]]; [|done]. split; [done|]. intros H.
    destruct (H (fresh av)) as [?|(vs & [= <-] & Hin)]; [by left|done|]. by destruct (infinite_is_fresh av).
Qed.

(** A coordinate in every constraint of the scope. *)
Definition inhabited_scope (s : list ScopeConstraint) : Prop := Forall (λ c, c_Values c ≠ Some []) s.

(** A value of a constraint. *)
Definition pick (c : ScopeConstraint) : string :=
  match c_Values c with Some (v :: _) => v | _ => "" end.

Lemma pick_allows c : wf_constraint c → c_Values c ≠ Some [] → allows c (pick c).
Proof.
  unfold pick. intros [[H _]|[_ [vs H]]] Hne; [by left|]. destruct vs as [|v vs]; [done|].
  right. rewrite H. eexists. split; [done|left].
Qed.

(** Coordinates through a chosen value of one dimension. *)
Lemma denotes_through s c x : wf_scope s → inhabited_scope s → c ∈ s → allows c x →
  ∃ f, denotes s f ∧ f (c_Dimension c) = x.
Proof.
  intros [Hnd Hwf] Hin Hc Hx.
  exists (λ d, if decide (d = c_Dimension c) then x else from_option pick "" (scopeConstraint s d)).
  split; [|by rewrite decide_True]. unfold denotes, inhabited_scope in *. rewrite Forall_forall in *.
  intros b Hb. pose proof (scopeConstraint_elem s b Hnd Hb) as Eb. case_decide as Ed.
  - rewrite Ed, (scopeConstraint_elem s c Hnd Hc) in Eb. by injection Eb as <-.
  - rewrite Eb. apply pick_allows; auto.
Qed.

Lemma denotes_some s : wf_scope s → inhabited_scope s → ∃ f, denotes s f.
Proof.
  intros Hw Hin. destruct s as [|c s]; [exists (λ _, ""); constructor|].
  destruct (denotes_through (c :: s) c (pick c) Hw Hin) as (f & Hf & _); [left| |eauto].
  destruct Hw as [_ Hw]. apply Forall_cons in Hw as [Hw _]. apply Forall_cons in Hin as [Hi _].
  by apply pick_allows.
Qed.

Lemma scopeContains_sound outer inner : wf_scope outer → wf_scope inner → 
  scopeContains (Some outer) (Some inner) = true → 
  dims outer ≡ₚ dims inner ∧ ∀ f, denotes inner f → denotes outer f.
Proof.
  intros Ho Hi H. unfold scopeContains in H. change (listOf (Some inner)) with inner in H.
  apply andb_true_iff in H as [Hl%Nat.eqb_eq H].
  rewrite forallb_elem in H. 
  assert (Hsub : ∀ d, d ∈ dims inner → d ∈ dims outer).
  { intros d (w & -> & Hw)%list_elem_of_fmap. specialize (H w Hw).
    destruct (scopeConstraint outer (c_Dimension w)) as [a|] eqn:E; [|done].
    apply scopeConstraint_some in E as [Ha <-]. by apply list_elem_of_fmap_2. }
  assert (Hp : dims outer ≡ₚ dims inner).
  { symmetry. apply submseteq_length_Permutation; [apply NoDup_submseteq; [apply Hi|done]|].
    unfold dims. rewrite !length_fmap. lia. }
  split; [done|]. intros f Hf. unfold denotes in *. rewrite Forall_forall in *. intros a Ha.
  assert (c_Dimension a ∈ dims inner) as Hin by (rewrite <- Hp; by apply list_elem_of_fmap_2).
  apply list_elem_of_fmap in Hin as (w & Hd & Hw). specialize (H w Hw).
  rewrite <- Hd, (scopeConstraint_elem outer a (proj1 Ho) Ha) in H. rewrite Hd.
  eapply constraintContains_sound; eauto.
Qed.

Lemma scopeContains_complete outer inner : wf_scope outer → wf_scope inner → inhabited_scope inner →
  dims outer ≡ₚ dims inner → (∀ f, denotes inner f → denotes outer f) →
  scopeContains (Some outer) (Some inner) = true.
Proof.
  intros Ho Hi Hin Hp H. unfold scopeContains. change (listOf (Some inner)) with inner.
  apply andb_true_iff. split.
  { apply Nat.eqb_eq. apply Permutation_length in Hp. unfold dims in Hp. by rewrite !length_fmap in Hp. }
  apply forallb_elem. intros w Hw.
  destruct (scopeConstraint outer (c_Dimension w)) as [a|] eqn:E.
  2:{ apply scopeConstraint_none in E. destruct E. rewrite Hp. by apply list_elem_of_fmap_2. }
  apply scopeConstraint_some in E as [Ha Hd].
  destruct Ho as [_ Hwo]. pose proof Hi as [_ Hwi]. unfold inhabited_scope in *.
  rewrite Forall_forall in Hwo, Hwi. pose proof (proj1 (Forall_forall _ _) Hin w Hw) as Hne.
  apply constraintContains_allows; [by apply Hwo|by apply Hwi|exact Hne|].
  intros x Hx. destruct (denotes_through inner w x Hi Hin Hw Hx) as (f & Hf & <-).
  rewrite <- Hd. apply H in Hf. unfold denotes in Hf. rewrite Forall_forall in Hf. by apply Hf.
Qed.

(** scopeContains decides containment of admitted scopes: over the same
    dimensions, every coordinate the inner scope admits is admitted by the outer
    one. An inner constraint with an empty oneOf list is excluded, since it
    admits nothing. *)
Theorem scopeContains_iff outer inner d1 d2 :
  ValidateScope (Some outer) d1 = Some (Ok tt) → ValidateScope (Some inner) d2 = Some (Ok tt) →
  inhabited_scope inner →
  scopeContains (Some outer) (Some inner) = true ↔
  dims outer ≡ₚ dims inner ∧ ∀ f, denotes inner f → denotes outer f.
Proof.
  intros Ho%ValidateScope_wf Hi%ValidateScope_wf Hin. split.
  - by apply scopeContains_sound.
  - intros [? ?]. by apply scopeContains_complete.
Qed.

(** Two scopes over namespace and zone. *)
Definition sample_outer : list ScopeConstraint :=
  [mkConstraint "namespace" ScopeOneOf (Some ["prod"; "dev"]); mkConstraint "zone" ScopeAny None].
Definition sample_inner : list ScopeConstraint :=
  [mkConstraint "zone" ScopeOneOf (Some ["a"]); mkConstraint "namespace" ScopeOneOf (Some ["dev"; "test"])].
Definition sample_dimensions : list Dimension := [mkDimension "namespace" false; mkDimension "zone" false].

Lemma intersectScope_denotes_witness :
  dims [mkConstraint "namespace" ScopeOneOf (Some ["dev"]); mkConstraint "zone" ScopeOneOf (Some ["a"])]
    = dims sample_outer ∧
  ∀ f, denotes [mkConstraint "namespace" ScopeOneOf (Some ["dev"]); mkConstraint "zone" ScopeOneOf (Some ["a"])] f
    ↔ denotes sample_outer f ∧ denotes sample_inner f.
Proof.
  exact (intersectScope_denotes sample_outer sample_inner (Some sample_dimensions) (Some sample_dimensions)
           ltac:(vm_compute; reflexivity) ltac:(vm_compute; reflexivity)).
Defined.

Definition sample_within : list ScopeConstraint :=
  [mkConstraint "zone" ScopeAny None; mkConstraint "namespace" ScopeOneOf (Some ["dev"])].
Lemma scopeContains_iff_witness :
  scopeContains (Some sample_outer) (Some sample_within) = true ↔
  dims sample_outer ≡ₚ dims sample_within ∧ ∀ f, denotes sample_within f → denotes sample_outer f.
Proof.
  apply (scopeContains_iff sample_outer sample_within (Some sample_dimensions) (Some sample_dimensions));
    [vm_compute; reflexivity|vm_compute; reflexivity|repeat constructor; done].
Defined.

(** ** Relationship bindings identify at most one target *)

(** The index of a scope over distinct dimensions has one entry per constraint. *)
Lemma index_lookup s d ix : NoDup (dims s) →
  indexRelationshipScope s !! d = Some ix ↔ ∃ c, c ∈ s ∧ c_Dimension c = d ∧ index_constraint c = ix.
Proof.
  unfold indexRelationshipScope, relationshipScopeIndex.
  assert (Hgen : ∀ l (m : gmap string relationshipConstraintIndex), NoDup (dims l) → (∀ c, c ∈ l → m !! c_Dimension c = None) →
    foldl (λ (m : gmap string relationshipConstraintIndex) c, <[c_Dimension c := index_constraint c]> m) m l !! d = Some ix ↔
    m !! d = Some ix ∨ ∃ c, c ∈ l ∧ c_Dimension c = d ∧ index_constraint c = ix).
  { induction l as [|c l IH]; intros m Hnd Hm; simpl.
    - split; [by left|]. intros [?|(c & Hc & _)]; [done|]. by apply elem_of_nil in Hc.
    - unfold dims in Hnd. rewrite fmap_cons, NoDup_cons in Hnd. destruct Hnd as [Hn Hnd].
      rewrite IH; [|done|].
      + rewrite lookup_insert_Some. setoid_rewrite elem_of_cons. split.
        * intros [[[? ?]|[? ?]]|(b & ? & ? & ?)]; [right; eauto|by left|right; eauto].
        * intros [?|(b & [->|?] & ? & ?)]; [|by left; left|right; eauto].
          left; right. split; [|done]. intros Hd. specialize (Hm c). rewrite Hd in Hm.
          rewrite Hm in *; [done|left].
      + intros b Hb. rewrite lookup_insert_ne; [apply Hm; by right|].
        intros Heq. apply Hn. rewrite Heq. by apply list_elem_of_fmap_2. }
  intros Hnd. rewrite Hgen; [|done|done]. rewrite lookup_empty. naive_solver.
Qed.

(** What the observed coordinate of a dimension asks of an index entry. *)
Definition entry_admits (ix : relationshipConstraintIndex) (o : option string) : Prop :=
  ix_any ix = true ∨ ∃ v, o = Some v ∧ v ∈ ix_values ix.

Lemma entry_admits_overlap left right o : entry_admits left o → entry_admits right o →
  (relationshipConstraintOverlap left right).2 = true.
Proof.
  unfold relationshipConstraintOverlap. intros [Hl|(v & -> & Hl)] [Hr|(w & Hw & Hr)].
  - by rewrite Hl, Hr.
  - rewrite Hl. destruct (ix_any right); [done|]. simpl. apply negb_true_iff, Nat.eqb_neq.
    intros H%size_empty_inv. set_solver.
  - rewrite Hr. destruct (ix_any left); [done|]. simpl. apply negb_true_iff, Nat.eqb_neq.
    intros H%size_empty_inv. set_solver.
  - injection Hw as <-. destruct (ix_any left), (ix_any right); simpl; [done|..];
      apply negb_true_iff, Nat.eqb_neq; intros H%size_empty_inv; set_solver.
Qed.

Lemma scopeConstraint_map ds f d : (∀ x, c_Dimension (f x) = x) →
  d ∈ ds → scopeConstraint (map f ds) d = Some (f d).
Proof.
  intros Hf. unfold scopeConstraint. induction ds as [|x ds IH]; intros Hd; [by apply elem_of_nil in Hd|].
  cbn [map list_find]. case_decide as E.
  - rewrite Hf in E. by subst.
  - apply elem_of_cons in Hd as [->|Hd]; [by rewrite Hf in E|]. specialize (IH Hd).
    destruct (list_find _ (map f ds)) as [[i c]|]; [|done]. done.
Qed.

(** A matching binding admits the observed coordinate in each of its entries. *)
Lemma matches_admits route provider typ scope t d ix : NoDup (dims (listOf (rt_Scope t))) →
  rt_Scope t ≠ None →
  binding_matches route provider typ scope t = true → target_index t !! d = Some ix →
  entry_admits ix (coordinate scope d).
Proof.
  intros Hnd Hne Hm Hix. unfold target_index in Hix. apply index_lookup in Hix as (c & Hc & <- & <-); [|done].
  unfold binding_matches in Hm. apply andb_true_iff in Hm as [_ Hm].
  unfold scopeContains in Hm. destruct (rt_Scope t) as [s|]; [|done].
  change (listOf (Some s)) with s in *. apply andb_true_iff in Hm as [_ Hm].
  rewrite forallb_elem in Hm.
  set (w := project_dimension scope (mkDimension (c_Dimension c) true)).
  specialize (Hm w). cbn [listOf default] in Hm.
  assert (c_Dimension w = c_Dimension c) as Hw.
  { unfold w, project_dimension. simpl. by destruct (coordinate _ _). }
  rewrite Hw, (scopeConstraint_elem s c Hnd Hc) in Hm.
  assert (constraintContains c w = true) as Hcw.
  { apply Hm. change (listOf _) with (map (project_dimension scope)
      (map (λ c, mkDimension (c_Dimension c) true) s)).
    rewrite map_map. apply list_elem_of_In, in_map_iff. exists c. split; [done|by apply list_elem_of_In]. }
  unfold entry_admits, index_constraint. simpl. unfold constraintContains in Hcw.
  destruct (bool_decide (c_Match c = ScopeAny)); [by left|]. right.
  unfold w, project_dimension in Hcw. cbn [d_Name] in Hcw.
  destruct (coordinate scope (c_Dimension c)) as [v|]; [|done]. exists v. split; [done|].
  cbn [c_Match c_Values] in Hcw. rewrite bool_decide_true in Hcw by done. cbn [negb] in Hcw.
  destruct (c_Values c) as [vs|]; [|done]. simpl in Hcw. rewrite andb_true_r in Hcw.
  apply bool_decide_eq_true in Hcw. simpl. by apply elem_of_list_to_set.
Qed.

(** What validation establishes of one binding and of two in order. *)
Definition bound_target (t : ReadTarget) : Prop :=
  validateTarget t = Some (Ok tt) ∧ rt_Scope t ≠ None.
Definition separated (p t : ReadTarget) : Prop :=
  same_binding_key p t = true →
  sameRelationshipDimensions (target_index p) (target_index t) = true
  ∧ relationshipScopesConflict (target_index p) (target_index t) = false.

Lemma bound_target_scope t : bound_target t → wf_scope (listOf (rt_Scope t)).
Proof.
  intros [H _]. unfold validateTarget in H. rewrite !outcome_seq_ok in H.
  destruct H as (_ & _ & _ & H). by eapply ValidateScope_wf.
Qed.

Lemma validate_prior_ok priors t :
  validatePriorRelationshipBindings priors t = Some (Ok tt) ↔ Forall (λ p, separated p t) priors.
Proof.
  unfold validatePriorRelationshipBindings. rewrite each_ok. apply Forall_iff. intros p.
  unfold separated. destruct (same_binding_key p t); cbn [negb]; [|naive_solver].
  rewrite outcome_seq_ok, !require_ok, negb_true_iff. naive_solver.
Qed.

Lemma validate_bindings_cons priors t ts : validate_bindings priors (t :: ts) = Some (Ok tt) ↔
  bound_target t ∧ Forall (λ p, separated p t) priors ∧ validate_bindings (priors ++ [t]) ts = Some (Ok tt).
Proof.
  cbn [validate_bindings]. rewrite !outcome_seq_ok, require_ok, validate_prior_ok, negb_true_iff, bool_decide_eq_false.
  unfold bound_target. tauto.
Qed.

Lemma validate_bindings_prior ts : ∀ priors p t, validate_bindings priors ts = Some (Ok tt) →
  p ∈ priors → t ∈ ts → separated p t ∧ bound_target t.
Proof.
  induction ts as [|u ts IH]; intros priors p t H Hp Ht; [by apply elem_of_nil in Ht|].
  apply validate_bindings_cons in H as (Hu & Hpr & H). apply elem_of_cons in Ht as [->|Ht].
  - rewrite Forall_forall in Hpr. auto.
  - eapply IH; [exact H| |exact Ht]. apply elem_of_app. by left.
Qed.

Lemma conflict_free_pair a b : sameRelationshipDimensions a b = true → relationshipScopesConflict a b = false →
  ∃ d l r, a !! d = Some l ∧ b !! d = Some r ∧ (relationshipConstraintOverlap l r).2 = false.
Proof.
  unfold sameRelationshipDimensions, relationshipScopesConflict. intros Hs Hc.
  apply andb_true_iff in Hs as [Hs Hd]. rewrite Hs, Hd in Hc. cbn [negb] in Hc.
  apply orb_false_iff in Hc as [_ Hc].
  destruct (existsb (λ p, negb (snd p)) (omap (λ e, relationshipConstraintOverlap e.2 <$> b !! e.1) (map_to_list a))) eqn:E.
  - apply existsb_exists in E as (p & Hp & Hn). apply list_elem_of_In, list_elem_of_omap in Hp as ([d l] & Hin & Ho).
    apply elem_of_map_to_list in Hin. cbn [fst snd] in Ho. apply fmap_Some in Ho as (r & Hr & ->).
    exists d, l, r. apply negb_true_iff in Hn. done.
  - exfalso. rewrite <- not_true_iff_false in Hc. destruct Hc. apply forallb_elem. intros p Hp.
    destruct p.2 eqn:Ep; [done|]. rewrite <- not_true_iff_false in E. destruct E.
    apply existsb_exists. exists p. split; [by apply list_elem_of_In|by rewrite Ep].
Qed.

Lemma separated_exclusive route provider typ scope p t :
  bound_target p → bound_target t → separated p t →
  binding_matches route provider typ scope p = true → binding_matches route provider typ scope t = true → False.
Proof.
  intros Hp Ht Hs Hmp Hmt. destruct Hs as [Hd Hc].
  { unfold binding_matches in *. unfold same_binding_key. propify. 
    repeat match goal with H : _ ∧ _ |- _ => destruct H end. subst. rewrite !bool_decide_true by congruence. done. }
  destruct (conflict_free_pair _ _ Hd Hc) as (d & l & r & Hl & Hr & Ho).
  pose proof (matches_admits _ _ _ _ _ _ _ (proj1 (bound_target_scope _ Hp)) (proj2 Hp) Hmp Hl) as Al.
  pose proof (matches_admits _ _ _ _ _ _ _ (proj1 (bound_target_scope _ Ht)) (proj2 Ht) Hmt Hr) as Ar.
  rewrite (entry_admits_overlap _ _ _ Al Ar) in Ho. done.
Qed.

Definition matching (route : AccessRoute) (provider typ : string) (scope : list ScopeEntry)
    (ts : list ReadTarget) : list ReadTarget :=
  filter (λ t, binding_matches route provider typ scope t = true) ts.

Lemma matching_unique route provider typ scope ts : ∀ priors,
  validate_bindings priors ts = Some (Ok tt) → (length (matching route provider typ scope ts) ≤ 1)%nat.
Proof.
  unfold matching. induction ts as [|t ts IH]; intros priors H; [simpl; lia|].
  apply validate_bindings_cons in H as (Ht & _ & H). rewrite filter_cons. case_decide as Hm; [|by eapply IH].
  simpl. destruct (filter _ ts) as [|u us] eqn:E; [done|].
  assert (u ∈ u :: us) as Hu by left. rewrite <- E in Hu. apply list_elem_of_filter in Hu as [Hmu Hu].
  destruct (validate_bindings_prior ts (priors ++ [t]) t u H) as [Hs Hb];
    [apply elem_of_app; right; by apply list_elem_of_singleton|done|].
  destruct (separated_exclusive route provider typ scope t u); done.
Qed.

(** The observation itself is well formed. *)
Definition valid_observation (route : AccessRoute) (provider typ : string) (scope : list ScopeEntry) : Prop :=
  (admission scope ;; otext provider true ;; otext typ true ;; validateRoute route ;;
   validateRelationshipIdentityScope scope) = Some (Ok tt).

(** MatchRelationshipTarget returns a binding exactly when the request and
    the observation validate and that binding admits the observed scope: in a
    validated request no two bindings compete for one observation, so the answer
    never depends on the order of the bindings. *)
Theorem MatchRelationshipTarget_iff req route provider typ scope t :
  MatchRelationshipTarget req route provider typ scope = Some (Ok t) ↔
  ValidateRelationshipResolutionRequest req = Some (Ok tt)
  ∧ valid_observation route provider typ scope
  ∧ t ∈ rr_Targets req ∧ binding_matches route provider typ scope t = true.
Proof.
  unfold MatchRelationshipTarget, matchRelationshipTarget_, valid_observation. rewrite !outcome_seq_ok.
  fold (matching route provider typ scope (rr_Targets req)). split.
  - intros (Hv & H1 & H2 & H3 & H4 & H5 & H). split_and!; try done;
      (assert (t ∈ matching route provider typ scope (rr_Targets req)) as Ht;
       [destruct (matching _ _ _ _ _) as [|u [|? ?]]; [done| |done]; injection H as ->; left|]);
      by apply list_elem_of_filter in Ht as [? ?].
  - intros (Hv & (H1 & H2 & H3 & H4 & H5) & Ht & Hm). split_and!; try done.
    assert (t ∈ matching route provider typ scope (rr_Targets req)) as Hin by (by apply list_elem_of_filter).
    unfold ValidateRelationshipResolutionRequest in Hv. rewrite !outcome_seq_ok in Hv. destruct Hv as (_ & _ & _ & Hv).
    pose proof (matching_unique route provider typ scope _ _ Hv) as Hl.
    destruct (matching _ _ _ _ _) as [|u [|? ?]]; simpl in Hl; [by apply elem_of_nil in Hin| |lia].
    apply list_elem_of_singleton in Hin as ->. done.
Qed.

(** Two bindings over one dimension and a request that carries them. *)
Definition sample_binding (zones : list string) : ReadTarget :=
  mkReadTarget (mkRoute "c1") "k8s" "auth" "Pod" (Some [mkConstraint "zone" ScopeOneOf (Some zones)]) "default".
Definition sample_relationship : RelationshipResolutionRequest :=
  mkRelationshipRequest
    (mkGetRequest (mkRoute "c1") (mkReference (mkAddress "k8s" "auth" "Pod" [] "p1") None) "default")
    [sample_binding ["a"; "b"]; sample_binding ["c"]].

Example sample_relationship_match :
  MatchRelationshipTarget sample_relationship (mkRoute "c1") "k8s" "Pod" [mkScopeEntry "zone" "b"; mkScopeEntry "ns" "x"]
  = Some (Ok (sample_binding ["a"; "b"])).
Proof. vm_compute. reflexivity. Qed.
