(* ===== verification/Admission.v ===== *)
(** * Catalog admission (pkg/resource/v2/controller_admission.go,
    route_catalog_revision.go, catalog_revision.go, native_query.go)

    Which registrations and declared capabilities a request is admitted under,
    the narrowing of an advertised catalog, the accepted-revision checks, and the
    binding of provider results to the admitted request. *)
From S2P Require Import Prelude GoStd Errors CatalogAdmission Values Json TaggedJson Budget Domain Validation Scopes.
Local Open Scope Z_scope.

(** ** Registrations *)

(** A callback's answer: a result, or a panic ([None]). The client it borrows
    and its context are inputs. *)
Definition callback (ClientT A B : Type) : Type := option (option ClientT → A → outcome B).

Record Registration (ClientT : Type) := mkRegistration {
  reg_Type : string; reg_Connection : string; reg_Scope : QueryScope;
  Get : callback ClientT GetRequest ResourceRecord;
  Enumerate : callback ClientT EnumerateRequest SourcePage;
  NativeQuery : callback ClientT NativeQueryRequest SourcePage;
  Mutate : callback ClientT MutationRequest ResourceRecord;
  Action : callback ClientT ActionRequest Value;
  Actions : option (list ActionDescriptor);
  Source : bool;  (** whether the source callback is set *)
  reg_Classifier : option (error → classification)
}.
Arguments mkRegistration {ClientT}.
Arguments reg_Type {ClientT}.
Arguments reg_Connection {ClientT}.
Arguments reg_Scope {ClientT}.
Arguments Get {ClientT}.
Arguments Enumerate {ClientT}.
Arguments NativeQuery {ClientT}.
Arguments Mutate {ClientT}.
Arguments Action {ClientT}.
Arguments Actions {ClientT}.
Arguments Source {ClientT}.
Arguments reg_Classifier {ClientT}.

Definition nonnil {A} (o : option A) : bool := if o is Some _ then true else false.

Definition handles {ClientT} (r : Registration ClientT) (op : string) : bool :=
  if bool_decide (op = OperationGet) then nonnil (Get r)
  else if bool_decide (op = OperationEnumerate) then nonnil (Enumerate r)
  else if bool_decide (op = OperationNativeQuery) then nonnil (NativeQuery r)
  else if bool_decide (op ∈ [OperationCreate; OperationMutationUpdate; OperationDelete]) then nonnil (Mutate r)
  else if bool_decide (op = OperationAction) then nonnil (Action r)
  else if bool_decide (op = OperationSourceUpdates) then Source r
  else false.

Definition matches_route {ClientT} (r : Registration ClientT) (route : AccessRoute) (typ : string) : bool :=
  bool_decide (reg_Type r = typ)
  && (bool_decide (reg_Connection r = "") || bool_decide (reg_Connection r = Connection route)).

(** [configured] is [cfg.Registrations]; [resolve] the optional dynamic
    resolver. The copy of the descriptors it returns is the same value. *)
Definition registrations {ClientT} (configured : list (Registration ClientT))
    (resolve : option (AccessRoute → string → outcome (Registration ClientT)))
    (route : AccessRoute) (typ : string) : outcome (list (Registration ClientT)) :=
  let static := filter (λ r, matches_route r route typ = true) configured in
  match resolve with
  | None => Some (Ok static)
  | Some resolve =>
    r ← resolve route typ;
    if negb (matches_route r route typ)
    then fails (NewError "INTERNAL" "Dynamic registration changed the requested type or route.")
    else Some (Ok (static ++ [r]))
  end.

(** ** The advertised catalog *)

Section capabilities.
Context {ClientT : Type}.

Definition registeredCapability (capability : Capability) (registration : Registration ClientT)
    (ds : list Dimension) : outcome (option Capability) :=
  if negb (handles registration (cap_Operation capability)) then Some (Ok None) else
  (if bool_decide (reg_Scope registration = None) then Some (Ok tt)
   else ValidateScope (reg_Scope registration) (Some ds)) ;;
  Some (Ok (match intersectScope (cap_Scope capability) (reg_Scope registration) with
            | Some scope => Some (mkCapability (cap_Operation capability) scope (Guarantee capability))
            | None => None
            end)).

(** The inner loop over registrations, then the outer one over capabilities. *)
Fixpoint register_all (capability : Capability) (rs : list (Registration ClientT)) (ds : list Dimension)
    (caps : list Capability) : outcome (list Capability) :=
  match rs with
  | [] => Some (Ok caps)
  | r :: rs =>
    candidate ← registeredCapability capability r ds;
    register_all capability rs ds
      (match candidate with
       | Some c => if bool_decide (c ∈ caps) then caps else caps ++ [c]
       | None => caps
       end)
  end.
Fixpoint capabilities_go (declared : list Capability) (rs : list (Registration ClientT)) (ds : list Dimension)
    (caps : list Capability) : outcome (list Capability) :=
  match declared with
  | [] => Some (Ok caps)
  | c :: declared => caps ← register_all c rs ds caps; capabilities_go declared rs ds caps
  end.

Definition with_capabilities (t : ResourceType) (caps : list Capability) : ResourceType :=
  mkResourceType (t_Type t) (t_DisplayName t) (t_Description t) (IdentityDimensions t) (QueryDimensions t)
    (Representations t) (DefaultRepresentation t) (ModelRepresentation t) (NativeQueries t) caps
    (t_NativeAuthorityHint t) (AcquireOnConnect t).

Definition catalogCapabilities (regs : string → outcome (list (Registration ClientT))) (t : ResourceType)
    : outcome ResourceType :=
  rs ← regs (t_Type t);
  caps ← capabilities_go (Capabilities t) rs (QueryDimensions t) [];
  Some (Ok (with_capabilities t caps)).

Fixpoint catalog_types (regs : string → outcome (list (Registration ClientT))) (ts : list ResourceType)
    : outcome (list ResourceType) :=
  match ts with
  | [] => Some (Ok [])
  | t :: ts => t ← catalogCapabilities regs t; ts ← catalog_types regs ts; Some (Ok (t :: ts))
  end.
End capabilities.

(** ** Admission of one target *)

Record operationTarget := mkTarget {
  ot_route : AccessRoute; ot_provider : string; ot_typ : string; ot_representation : string;
  ot_scope : QueryScope; ot_address : option ResourceAddress; ot_operation : string
}.

Definition declaresRepresentation : ResourceType → string → bool := declares.

Definition unsupported_type : error := unsupported "Resource type is not declared by the route catalog.".

Definition find_type (typ : string) (ts : list ResourceType) : option ResourceType :=
  snd <$> list_find (λ t, t_Type t = typ) ts.

(** The admitted scope: the identity's projection, or the validated selection. *)
Definition target_scope (descriptor : ResourceType) (target : operationTarget) : outcome QueryScope :=
  match ot_address target with
  | Some address =>
    ValidateAddress address (Some (IdentityDimensions descriptor)) ;;
    Some (Ok (queryScopeForIdentity address (QueryDimensions descriptor)).1)
  | None =>
    ValidateScope (ot_scope target) (Some (QueryDimensions descriptor)) ;;
    Some (Ok (ot_scope target))
  end.

Definition covers (operation : string) (scope : QueryScope) (c : Capability) : bool :=
  bool_decide (cap_Operation c = operation) && scopeContains (cap_Scope c) scope.

Definition admitTarget (catalog : Catalog) (target : operationTarget) : outcome (ResourceType * QueryScope) :=
  require (bool_decide (cat_Provider catalog = ot_provider target))
    (invalid "Request provider does not match the route catalog.") ;;
  match find_type (ot_typ target) (cat_Types catalog) with
  | None => fails unsupported_type
  | Some descriptor =>
    scope ← target_scope descriptor target;
    require (bool_decide (ot_representation target = "")
             || declaresRepresentation descriptor (ot_representation target))
      (unsupported "Representation is not declared by the route catalog.") ;;
    if existsb (covers (ot_operation target) scope) (Capabilities descriptor)
    then Some (Ok (descriptor, scope))
    else fails (unsupported "Operation is not declared for this type and scope.")
  end.

Definition mutationOperation (verb : string) : string :=
  if bool_decide (verb = "create") then OperationCreate
  else if bool_decide (verb = "update") then OperationMutationUpdate
  else if bool_decide (verb = "delete") then OperationDelete
  else "".

Definition actionOperationTarget (request : ActionRequest) : operationTarget :=
  match ac_TypeTarget request with
  | Some t => mkTarget (ac_Route request) (tt_Provider t) (tt_Type t) "" (tt_Scope t) None OperationAction
  | None =>
    let a := r_Address (ac_Reference request) in
    mkTarget (ac_Route request) (a_Provider a) (a_Type a) "" None (Some a) OperationAction
  end.

(** The dynamic types [describeOperation] switches on. *)
Inductive request_value : Type :=
| ReqGet (r : GetRequest)
| ReqEnumerate (r : EnumerateRequest)
| ReqNativeQuery (r : NativeQueryRequest)
| ReqMutation (r : MutationRequest)
| ReqAction (r : ActionRequest)
| ReqRead (r : ReadTarget)
| ReqOther.
Inductive result_value : Type :=
| ResRecord (r : ResourceRecord)
| ResPage (p : SourcePage)
| ResValue (v : Value)
| ResOther.

Definition page_target (t : ReadTarget) (op : string) : operationTarget :=
  mkTarget (rt_Route t) (rt_Provider t) (rt_Type t) (rt_Representation t) (rt_Scope t) None op.

Section describe.
Context `{Protowire}.

Definition describeOperation (request : request_value) : outcome operationTarget :=
  match request with
  | ReqGet r =>
    let a := r_Address (g_Reference r) in
    ValidateGetRequest r ;;
    Some (Ok (mkTarget (g_Route r) (a_Provider a) (a_Type a) (g_Representation r) None (Some a) OperationGet))
  | ReqEnumerate r => ValidateEnumerateRequest r ;; Some (Ok (page_target (e_Target r) OperationEnumerate))
  | ReqNativeQuery r => ValidateNativeQueryRequest r ;; Some (Ok (page_target (q_Target r) OperationNativeQuery))
  | ReqMutation r =>
    let a := r_Address (m_Reference r) in
    ValidateMutationRequest r ;;
    Some (Ok (mkTarget (m_Route r) (a_Provider a) (a_Type a) "" None (Some a) (mutationOperation (m_Operation r))))
  | ReqAction r => ValidateActionRequest r ;; Some (Ok (actionOperationTarget r))
  | ReqRead r =>
    ValidateEnumerateRequest (mkEnumerateRequest r 0 None) ;; Some (Ok (page_target r OperationSourceUpdates))
  | ReqOther => fails (unsupported "Unsupported finite resource operation.")
  end.

Definition AdmitCatalogOperation (catalog : Catalog) (request : request_value) : outcome ResourceType :=
  ValidateCatalog catalog ;;
  target ← describeOperation request;
  admitted ← admitTarget catalog target;
  Some (Ok admitted.1).

Definition ValidateNativeQueryInput (descriptor : ResourceType) (request : NativeQueryRequest) : outcome unit :=
  match NativeQueries descriptor with
  | [] => Some (Ok tt)
  | queries =>
    match list_find (λ q, nq_Language q = q_Language request) queries with
    | Some (_, q) => ValidateSchemaValue (nq_InputSchema q) (q_Query request)
    | None => fails (unsupported "Native query language is not declared.")
    end
  end.
End describe.

(** ** Accepted catalog revisions *)

(** The catalog admission part of a [context.Context]: the qualified slot and
    the default revision. *)
Record admissionContext := mkAdmission { ac_slot : Context; ac_default : option string }.

Definition MaxCatalogRevisionBytes : Z := 4096.
Definition MaxCatalogRevisionMetadataBytes : Z := 32 * 1024.

(** A [*ViolationError] reported under its own code. *)
Definition violation {A} (r : vres A) : outcome A :=
  match r with
  | Ok a => Some (Ok a)
  | Err v => fails (NewError (vCode v) (vMessage v))
  end.

Definition WithCatalogRevision (ctx : admissionContext) (revision : string) : admissionContext :=
  mkAdmission (ac_slot ctx) (Some revision).
Definition CatalogRevisionFromContext (ctx : admissionContext) : string * bool :=
  (default "" (ac_default ctx), nonnil (ac_default ctx)).
Definition WithCatalogRevisionForRoute (ctx : admissionContext) (provider : string) (route : AccessRoute)
    (revision : string) : admissionContext :=
  mkAdmission (Append (ac_slot ctx) (mkObservation provider (Connection route) revision)) (ac_default ctx).

Definition ValidateCatalogRevision (revision : string) : outcome unit :=
  violation (ValidateRevision revision MaxCatalogRevisionBytes).

Definition QualifiedCatalogRevisionFromContext (ctx : admissionContext) (provider : string)
    (route : AccessRoute) : string * bool := Qualified (ac_slot ctx) provider (Connection route).

Definition CatalogRevisionForRouteFromContext (ctx : admissionContext) (provider : string)
    (route : AccessRoute) : string * bool :=
  let q := QualifiedCatalogRevisionFromContext ctx provider route in
  if q.2 then (q.1, true) else CatalogRevisionFromContext ctx.

Definition stale_revision : error :=
  NewError "RESET_REQUIRED" "The accepted catalog revision is no longer current.".

Definition CheckCatalogRevision (ctx : admissionContext) (catalog : Catalog) : outcome unit :=
  let revision := (CatalogRevisionFromContext ctx).1 in
  ValidateCatalogRevision revision ;;
  require (bool_decide (revision = cat_Revision catalog)) stale_revision.

Definition revision_limits : Limits :=
  mkLimits MaxCatalogRevisionBytes MaxCatalogRevisionMetadataBytes MaxRelationshipTargets.

Definition CheckCatalogRevisionForRoute (ctx : admissionContext) (catalog : Catalog) (route : AccessRoute)
    : outcome unit :=
  violation (EncodedSize (ac_slot ctx) (CatalogRevisionFromContext ctx).1 revision_limits) ≫= λ _,
  let revision := (CatalogRevisionForRouteFromContext ctx (cat_Provider catalog) route).1 in
  ValidateCatalogRevision revision ;;
  require (bool_decide (revision = cat_Revision catalog)) stale_revision.

(** ** Selecting the registration *)

Section resolve.
Context {ClientT : Type}.

Fixpoint select_go (op : string) (scope : QueryScope) (rs : list (Registration ClientT))
    (selected : option (Registration ClientT)) : outcome (Registration ClientT) :=
  match rs with
  | [] =>
    match selected with
    | Some r => Some (Ok r)
    | None => fails (unsupported "Operation handler is not registered.")
    end
  | r :: rs =>
    if handles r op && scopeContains (reg_Scope r) scope then
      match selected with
      | Some _ => fails (NewError "INTERNAL" "Operation has overlapping registrations.")
      | None => select_go op scope rs (Some r)
      end
    else select_go op scope rs selected
  end.

(** [catalog] is what [c.Catalog] answers for the route and [regs] what
    [c.registrations] answers for its type. *)
Definition resolve (ctx : admissionContext) (catalog : outcome Catalog)
    (regs : string → outcome (list (Registration ClientT))) (target : operationTarget)
    : outcome (Registration ClientT * ResourceType) :=
  ValidateCatalogRevision (CatalogRevisionForRouteFromContext ctx (ot_provider target) (ot_route target)).1 ;;
  catalog ← catalog;
  CheckCatalogRevisionForRoute ctx catalog (ot_route target) ;;
  admitted ← admitTarget catalog target;
  rs ← regs (ot_typ target);
  selected ← select_go (ot_operation target) admitted.2 rs None;
  Some (Ok (selected, admitted.1)).

(** [cancelled] is whether the operation's context has ended. *)
Definition fenceCatalog (ctx : admissionContext) (cancelled : bool) (catalog : outcome Catalog)
    (route : AccessRoute) : outcome unit :=
  if cancelled then fails (NewError "RESET_REQUIRED" "The admitted catalog generation retired during the operation.")
  else catalog ← catalog; CheckCatalogRevisionForRoute ctx catalog route.
End resolve.

(** ** Binding results to the request *)

Definition internal (detail : string) : error := NewError "INTERNAL" detail.

Section results.
Context `{Protowire}.

Definition incarnation_kept (reference record : ResourceReference) : bool :=
  match r_Incarnation reference with
  | None => true
  | Some i => bool_decide (r_Incarnation record = Some i)
  end.

Definition checkRecord (record : ResourceRecord) (descriptor : ResourceType)
    (provider authority representation : string) (reference : option ResourceReference) (scope : QueryScope)
    : outcome unit :=
  let a := r_Address (rec_Reference record) in
  ValidateRecord record ;;
  ValidateAddress a (Some (IdentityDimensions descriptor)) ;;
  require (bool_decide (a_Provider a = provider) && bool_decide (a_Authority a = authority)
           && bool_decide (a_Type a = t_Type descriptor))
    (internal "Provider response changed resource target identity.") ;;
  match reference with
  | Some reference =>
    require (sameAddress a (r_Address reference)) (internal "Provider response changed exact resource identity.") ;;
    require (incarnation_kept reference (rec_Reference record))
      (NewError "RESET_REQUIRED" "Resource incarnation changed.")
  | None => Some (Ok tt)
  end ;;
  require (bool_decide (scope = None) || identityWithinQueryScope a scope)
    (internal "Provider response escaped requested identity scope.") ;;
  require (bool_decide (representation = "") || bool_decide (rp_ID (rec_Representation record) = representation))
    (internal "Provider response changed requested representation.") ;;
  require (bool_decide (rec_Representation record ∈ Representations descriptor))
    (internal "Provider response representation is not catalog-bound.").

Definition record_address (r : ResourceRecord) : ResourceAddress := r_Address (rec_Reference r).

(** The loop over the page with the records before the current one. *)
Fixpoint check_records (descriptor : ResourceType) (target : ReadTarget) (previous records : list ResourceRecord)
    : outcome unit :=
  match records with
  | [] => Some (Ok tt)
  | record :: records =>
    checkRecord record descriptor (rt_Provider target) (rt_Authority target) (rt_Representation target) None
      (rt_Scope target) ;;
    require (negb (existsb (λ p, sameAddress (record_address record) (record_address p)) previous))
      (internal "Source page repeats resource identity.") ;;
    check_records descriptor target (previous ++ [record]) records
  end.

Definition checkPage (page : SourcePage) (descriptor : ResourceType) (target : ReadTarget) (size : Z)
    : outcome unit :=
  ValidateSourcePage page ;;
  require (negb (negb (size =? 0) && (size <? Z.of_nat (length (pg_Records page)))))
    (internal "Provider response exceeded requested source page size.") ;;
  check_records descriptor target [] (pg_Records page).

Definition ValidateOperationResult (request : request_value) (res : result_value) (descriptor : ResourceType)
    : outcome unit :=
  match request with
  | ReqGet r =>
    match res with
    | ResRecord record =>
      let a := r_Address (g_Reference r) in
      checkRecord record descriptor (a_Provider a) (a_Authority a) (g_Representation r) (Some (g_Reference r)) None
    | _ => fails (internal "Get returned the wrong result type.")
    end
  | ReqEnumerate r =>
    match res with
    | ResPage page => checkPage page descriptor (e_Target r) (e_PageSize r)
    | _ => fails (internal "Enumeration returned the wrong result type.")
    end
  | ReqNativeQuery r =>
    match res with
    | ResPage page => checkPage page descriptor (q_Target r) (q_PageSize r)
    | _ => fails (internal "Native query returned the wrong result type.")
    end
  | ReqMutation r =>
    match res with
    | ResRecord record =>
      let a := r_Address (m_Reference r) in
      checkRecord record descriptor (a_Provider a) (a_Authority a) "" (Some (m_Reference r)) None
    | _ => fails (internal "Mutation returned the wrong result type.")
    end
  | ReqAction r =>
    match res with
    | ResValue value => validate_value value
    | _ => fails (internal "Action returned the wrong result type.")
    end
  | ReqRead _ | ReqOther => fails (unsupported "Unsupported finite resource operation.")
  end.
End results.

(** ** Facts a validated catalog provides *)

Definition names (ds : list Dimension) : list string := d_Name <$> ds.

Lemma dimensions_go_ok ds : ∀ out r, NoDup out.*1 → dimensions_go ds out = Some (Ok r) →
  NoDup (out.*1 ++ names ds) ∧ r = out ++ map (λ d, (d_Name d, AllowEmpty d)) ds.
Proof.
  induction ds as [|d ds IH]; intros out r Hnd H; cbn [dimensions_go names fmap list_fmap map] in *.
  - injection H as <-. by rewrite !app_nil_r.
  - apply outcome_seq_ok in H as [_ H]. case_bool_decide as Hin; [done|].
    apply IH in H as [Hn ->].
    + rewrite fmap_app, <- app_assoc in Hn. rewrite <- app_assoc. done.
    + rewrite fmap_app. apply NoDup_app. split_and!; [done| |apply NoDup_singleton].
      intros x Hx. simpl. rewrite list_elem_of_singleton. by intros ->.
Qed.

Lemma dimensions_ok ds r : dimensions ds = Some (Ok r) → NoDup (names ds).
Proof.
  unfold dimensions. rewrite outcome_seq_ok. intros [_ H].
  apply dimensions_go_ok in H as [H _]; [done|constructor].
Qed.

Record valid_type (t : ResourceType) : Prop := {
  valid_query_dimensions : NoDup (names (QueryDimensions t));
  valid_capabilities : Forall (λ c, wf_scope (listOf (cap_Scope c))) (Capabilities t)
}.

Lemma validateResourceType_valid t : validateResourceType t = Some (Ok tt) → valid_type t.
Proof.
  unfold validateResourceType. intros H.
  apply outcome_bind_some in H as (_ & _ & H). apply outcome_bind_some in H as (q & Hq & H).
  rewrite !outcome_seq_ok, each_ok in H. destruct H as (_ & _ & _ & _ & Hc & _). split.
  - by eapply dimensions_ok.
  - eapply Forall_impl; [exact Hc|]. intros c Hv. apply outcome_seq_ok in Hv as [_ Hv].
    by eapply ValidateScope_wf.
Qed.

Lemma ValidateCatalog_valid c : ValidateCatalog c = Some (Ok tt) →
  NoDup (t_Type <$> cat_Types c) ∧ Forall valid_type (cat_Types c).
Proof.
  unfold ValidateCatalog. rewrite !outcome_seq_ok. intros (_ & _ & _ & _ & H).
  apply each_distinct_ok in H as (Hnd & _ & H). split; [done|].
  eapply Forall_impl; [exact H|]. intros t [_ Ht]. by apply validateResourceType_valid.
Qed.

(** ** What an admitted target is *)

Lemma projection_dims sc ds : dims (map (project_dimension sc) ds) = names ds.
Proof.
  unfold dims, names. induction ds as [|d ds IH]; [done|]. cbn [map]. rewrite !fmap_cons, IH. f_equal.
  unfold project_dimension. by destruct (coordinate sc (d_Name d)).
Qed.

Lemma projection_wf sc ds : NoDup (names ds) → wf_scope (map (project_dimension sc) ds).
Proof.
  intros Hnd. split; [by rewrite projection_dims|]. apply Forall_forall. intros c Hc.
  apply list_elem_of_In, in_map_iff in Hc as (d & <- & _). unfold project_dimension, wf_constraint.
  destruct (coordinate _ _); [right|left]; eauto.
Qed.

Lemma target_scope_wf d target s : valid_type d → target_scope d target = Some (Ok s) → wf_scope (listOf s).
Proof.
  intros Hd. unfold target_scope. destruct (ot_address target) as [a|]; rewrite outcome_seq_ok;
    intros [Hv [= <-]].
  - apply projection_wf, Hd.
  - by eapply ValidateScope_wf.
Qed.

Lemma scopeContains_denotes outer inner : wf_scope (listOf outer) → wf_scope (listOf inner) →
  scopeContains outer inner = true → ∀ f, denotes (listOf inner) f → denotes (listOf outer) f.
Proof.
  intros Ho Hi H. destruct outer as [outer|]; [|intros; constructor].
  apply (scopeContains_sound outer (listOf inner)); [done|done|]. by destruct inner.
Qed.

Lemma find_type_some typ ts d : find_type typ ts = Some d → d ∈ ts ∧ t_Type d = typ.
Proof.
  unfold find_type. intros H. apply fmap_Some in H as ([i x] & Hf & ->).
  apply list_find_Some in Hf as (Hi & Hx & _). split; [by eapply list_elem_of_lookup_2|done].
Qed.

Lemma same_type_eq (ts : list ResourceType) d d' : NoDup (t_Type <$> ts) → d ∈ ts → d' ∈ ts →
  t_Type d = t_Type d' → d = d'.
Proof.
  intros Hnd [i Hi]%list_elem_of_lookup [j Hj]%list_elem_of_lookup He.
  assert (i = j) as ->; [|congruence].
  eapply NoDup_lookup; [exact Hnd| |]; rewrite list_lookup_fmap; [rewrite Hi|rewrite Hj]; simpl; [done|by rewrite He].
Qed.

Lemma admitTarget_inv catalog target d s : admitTarget catalog target = Some (Ok (d, s)) →
  cat_Provider catalog = ot_provider target ∧ d ∈ cat_Types catalog ∧ t_Type d = ot_typ target
  ∧ target_scope d target = Some (Ok s)
  ∧ (ot_representation target = "" ∨ declares d (ot_representation target) = true)
  ∧ ∃ c, c ∈ Capabilities d ∧ cap_Operation c = ot_operation target ∧ scopeContains (cap_Scope c) s = true.
Proof.
  unfold admitTarget. rewrite outcome_seq_ok, require_ok, bool_decide_eq_true. intros [Hp H].
  destruct (find_type _ _) as [t|] eqn:Hf; [|done]. apply find_type_some in Hf as [Hin Ht].
  apply outcome_bind_some in H as (scope & Hs & H).
  rewrite outcome_seq_ok, require_ok, orb_true_iff, bool_decide_eq_true in H. destruct H as [Hr H].
  destruct (existsb _ _) eqn:He; [|done]. injection H as -> ->.
  apply existsb_exists in He as (c & Hc & He). unfold covers in He. propify. split_and!; try done.
  exists c. split_and!; [by apply list_elem_of_In|done|done].
Qed.

(** Everything the target's scope selects. *)
Definition selects (d : ResourceType) (target : operationTarget) (f : coordinates) : Prop :=
  match ot_address target with
  | Some address => ∀ q, q ∈ QueryDimensions d → ∀ v, coordinate (a_Scope address) (d_Name q) = Some v → f (d_Name q) = v
  | None => denotes (listOf (ot_scope target)) f
  end.

Lemma selects_denotes d target s f : target_scope d target = Some (Ok s) → selects d target f → denotes (listOf s) f.
Proof.
  unfold target_scope, selects. destruct (ot_address target) as [a|]; rewrite outcome_seq_ok;
    intros [_ [= <-]]; [|done]. intros Hf. unfold denotes. apply Forall_forall. intros c Hc.
  apply list_elem_of_In, in_map_iff in Hc as (q & <- & Hq%list_elem_of_In). specialize (Hf q Hq).
  unfold project_dimension, allows. destruct (coordinate _ _) as [v|]; [|by left]. right. exists [v].
  split; [done|]. apply list_elem_of_singleton. by apply Hf.
Qed.

Section admission_properties.
Context `{ProtowireLaws}.

(** C16: An admitted request is covered by the catalog: the catalog validates,
    the request describes a target of its provider, the descriptor is the only
    declared type of that name, a nonempty representation is declared, and one
    declared capability for exactly the requested operation admits every
    coordinate the request selects, an identity selecting all coordinates that
    agree with it. *)
Theorem AdmitCatalogOperation_covered catalog request d :
  AdmitCatalogOperation catalog request = Some (Ok d) →
  ∃ target, describeOperation request = Some (Ok target)
  ∧ cat_Provider catalog = ot_provider target
  ∧ d ∈ cat_Types catalog ∧ t_Type d = ot_typ target
  ∧ (∀ d', d' ∈ cat_Types catalog → t_Type d' = ot_typ target → d' = d)
  ∧ (ot_representation target ≠ "" → ot_representation target ∈ map rp_ID (Representations d))
  ∧ ∃ c, c ∈ Capabilities d ∧ cap_Operation c = ot_operation target
         ∧ ∀ f, selects d target f → denotes (listOf (cap_Scope c)) f.
Proof.
  unfold AdmitCatalogOperation. rewrite outcome_seq_ok. intros [Hv Ha].
  apply outcome_bind_some in Ha as (target & Ht & Ha). apply outcome_bind_some in Ha as ([d' s] & Ha & [= ->]).
  apply admitTarget_inv in Ha as (Hp & Hin & Hty & Hs & Hr & c & Hc & Hop & Hcov).
  destruct (ValidateCatalog_valid _ Hv) as [Hnd Hts]. rewrite Forall_forall in Hts. pose proof (Hts d Hin) as Hd.
  exists target. split_and!; try done.
  - intros d' Hd' Hty'. eapply same_type_eq; [exact Hnd|done|done|congruence].
  - intros Hne. destruct Hr as [Hr|Hr]; [done|]. unfold declares in Hr. by apply bool_decide_eq_true in Hr.
  - exists c. split_and!; [done|done|]. intros f Hf.
    eapply scopeContains_denotes; [|by eapply target_scope_wf|exact Hcov|by eapply selects_denotes].
    pose proof (valid_capabilities d Hd) as Hcs. rewrite Forall_forall in Hcs. by apply Hcs.
Qed.
End admission_properties.

(** ** Advertised capabilities *)

Section narrowing.
Context {ClientT : Type}.

(** The candidate one registration offers for one declared capability. *)
Definition offers (ds : list Dimension) (d : Capability) (r : Registration ClientT) (c : Capability) : Prop :=
  handles r (cap_Operation d) = true
  ∧ (reg_Scope r ≠ None → ValidateScope (reg_Scope r) (Some ds) = Some (Ok tt))
  ∧ ∃ scope, intersectScope (cap_Scope d) (reg_Scope r) = Some scope
  ∧ c = mkCapability (cap_Operation d) scope (Guarantee d).

Lemma registeredCapability_ok d r ds o : registeredCapability d r ds = Some (Ok o) →
  ∀ c, o = Some c ↔ offers ds d r c.
Proof.
  unfold registeredCapability, offers. destruct (handles _ _); cbn [negb].
  - rewrite outcome_seq_ok. intros [Hv [= <-]] c.
    assert (reg_Scope r ≠ None → ValidateScope (reg_Scope r) (Some ds) = Some (Ok tt)) as Hv'.
    { intros Hne. by rewrite bool_decide_false in Hv. }
    destruct (intersectScope _ _) as [s|]; naive_solver.
  - intros [= <-] c. naive_solver.
Qed.

Lemma register_all_ok d rs ds : ∀ caps out, NoDup caps → register_all d rs ds caps = Some (Ok out) →
  NoDup out ∧ ∀ c, c ∈ out ↔ c ∈ caps ∨ ∃ r, r ∈ rs ∧ offers ds d r c.
Proof.
  induction rs as [|r rs IH]; intros caps out Hnd H; cbn [register_all] in H.
  - injection H as <-. split; [done|]. intros c. split; [by left|].
    intros [?|(r & Hr & _)]; [done|by apply elem_of_nil in Hr].
  - apply outcome_bind_some in H as (o & Ho & H). pose proof (registeredCapability_ok _ _ _ _ Ho) as Hof.
    apply IH in H as [Hn Hc].
    + split; [done|]. intros c. rewrite Hc. setoid_rewrite elem_of_cons.
      specialize (Hof c). destruct o as [x|].
      * destruct (bool_decide_reflect (x ∈ caps)) as [Hin|Hin]; [|rewrite elem_of_app, list_elem_of_singleton]; split.
        -- naive_solver.
        -- intros [?|(r' & [->|?] & ?)]; [by left| |right; eauto]. left.
           assert (Some x = Some c) as [= ->] by (by apply Hof). done.
        -- intros [[?| ->]|?]; [by left| |naive_solver]. right. exists r. split; [by left|]. by apply Hof.
        -- intros [?|(r' & [->|?] & ?)]; [by left; left| |right; eauto]. left; right.
           assert (Some x = Some c) as [= ->] by (by apply Hof). done.
      * split; [naive_solver|]. intros [?|(r' & [->|?] & ?)]; [by left| |right; eauto].
        assert (None = Some c) as Hx by (by apply Hof). done.
    + destruct o as [x|]; [|done]. destruct (bool_decide_reflect (x ∈ caps)); [done|].
      apply NoDup_app. split_and!; [done| |apply NoDup_singleton].
      intros y Hy. rewrite list_elem_of_singleton. by intros ->.
Qed.

Lemma capabilities_go_ok declared rs ds : ∀ caps out, NoDup caps → capabilities_go declared rs ds caps = Some (Ok out) →
  NoDup out ∧ ∀ c, c ∈ out ↔ c ∈ caps ∨ ∃ d r, d ∈ declared ∧ r ∈ rs ∧ offers ds d r c.
Proof.
  induction declared as [|d declared IH]; intros caps out Hnd H; cbn [capabilities_go] in H.
  - injection H as <-. split; [done|]. intros c. split; [by left|].
    intros [?|(d & r & Hr & _)]; [done|by apply elem_of_nil in Hr].
  - apply outcome_bind_some in H as (caps' & Hr & H). apply register_all_ok in Hr as [Hn Hc]; [|done].
    apply IH in H as [Hn' Hc']; [|done]. split; [done|]. intros c. rewrite Hc', Hc.
    setoid_rewrite elem_of_cons. naive_solver.
Qed.

(** A scope that may be nil. *)
Definition admits (s : QueryScope) (f : coordinates) : Prop := denotes (listOf s) f.

(** The advertised type keeps every field but its capabilities, lists each of
    them once, and an advertised capability is exactly one that some declared
    capability and some installed registration handling its operation offer
    together: it admits the coordinates both admit, with the declared operation
    and guarantee. A controller never advertises more than was declared or more
    than is installed. *)
Theorem catalogCapabilities_narrow regs t t' :
  validateResourceType t = Some (Ok tt) →
  catalogCapabilities regs t = Some (Ok t') →
  ∃ rs, regs (t_Type t) = Some (Ok rs)
  ∧ t' = with_capabilities t (Capabilities t') ∧ NoDup (Capabilities t')
  ∧ (∀ c, c ∈ Capabilities t' ↔ ∃ d r, d ∈ Capabilities t ∧ r ∈ rs ∧ offers (QueryDimensions t) d r c)
  ∧ (∀ d r c, d ∈ Capabilities t → offers (QueryDimensions t) d r c →
     cap_Operation c = cap_Operation d ∧ Guarantee c = Guarantee d
     ∧ ∀ f, admits (cap_Scope c) f ↔ admits (cap_Scope d) f ∧ admits (reg_Scope r) f).
Proof.
  intros Hv H. unfold catalogCapabilities in H. apply outcome_bind_some in H as (rs & Hrs & H).
  apply outcome_bind_some in H as (caps & Hc & [= <-]). exists rs. split; [done|].
  apply capabilities_go_ok in Hc as [Hnd Hc]; [|constructor]. split_and!; [by destruct t|done| |].
  - intros c. rewrite Hc. split; [intros [Hx|?]; [by apply elem_of_nil in Hx|done]|by right].
  - intros d r c Hd (_ & Hsc & s & Hs & ->). split_and!; [done|done|]. cbn [cap_Scope].
    pose proof (validateResourceType_valid t Hv) as [_ Hcaps]. rewrite Forall_forall in Hcaps.
    specialize (Hcaps d Hd). intros f. unfold admits in *. unfold intersectScope in Hs.
    destruct (reg_Scope r) as [b|] eqn:Eb.
    + assert (wf_scope b) as Hb. { apply (ValidateScope_wf (Some b) (Some (QueryDimensions t))). auto. }
      destruct s as [out|]; [|destruct (negb _); [done|by apply bind_Some in Hs as (? & _ & ?)]].
      destruct (intersectScope_spec (listOf (cap_Scope d)) b out Hcaps Hb) as (_ & _ & Hiff).
      { unfold intersectScope. by destruct (cap_Scope d). }
      by apply Hiff.
    + injection Hs as ->. split; [intros ?; split; [done|constructor]|tauto].
Qed.
End narrowing.

(** ** Pages bound to their request *)

(** Two addresses of one resource: scope entries are an unordered set. *)
Definition same_identity (a b : ResourceAddress) : Prop :=
  a_Provider a = a_Provider b ∧ a_Authority a = a_Authority b ∧ a_Type a = a_Type b ∧ a_ID a = a_ID b
  ∧ a_Scope a ≡ₚ a_Scope b.

Lemma sameAddress_iff a b : NoDup (a_Scope a) → sameAddress a b = true ↔ same_identity a b.
Proof.
  intros Hnd. unfold sameAddress, same_identity.
  rewrite !andb_true_iff, !bool_decide_eq_true, Nat.eqb_eq, forallb_elem. split.
  - intros (((((? & ?) & ?) & ?) & Hl) & Hs). split_and!; try done.
    apply submseteq_length_Permutation; [|by rewrite Hl]. apply NoDup_submseteq; [done|].
    intros x Hx. specialize (Hs x Hx). by apply bool_decide_eq_true in Hs.
  - intros (? & ? & ? & ? & Hp). split_and!; try done; [by apply Permutation_length|].
    intros x Hx. apply bool_decide_eq_true. by rewrite <- Hp.
Qed.

Lemma ValidateAddress_scope a o : ValidateAddress a o = Some (Ok tt) → NoDup (se_Dimension <$> a_Scope a).
Proof.
  unfold ValidateAddress. rewrite !outcome_seq_ok. intros (_ & _ & H).
  apply outcome_bind_some in H as (allowed & _ & H). apply outcome_seq_ok in H as [H _].
  by apply each_distinct_ok in H as (? & _).
Qed.

Lemma identityWithinQueryScope_iff a s : NoDup (dims (listOf s)) →
  identityWithinQueryScope a s = true ↔
  ∀ e c, e ∈ a_Scope a → c ∈ listOf s → c_Dimension c = se_Dimension e → allows c (se_Value e).
Proof.
  intros Hnd. unfold identityWithinQueryScope. rewrite forallb_elem. unfold allows, contains. split.
  - intros H e c He Hc Hd. specialize (H e He). rewrite <- Hd, (scopeConstraint_elem _ c Hnd Hc) in H.
    apply orb_true_iff in H as [H|H]; [left; by apply bool_decide_eq_true in H|]. right.
    destruct (c_Values c) as [vs|]; [|done]. apply bool_decide_eq_true in H. eauto.
  - intros H e He. destruct (scopeConstraint (listOf s) (se_Dimension e)) as [c|] eqn:E; [|done].
    apply scopeConstraint_some in E as [Hc Hd]. apply orb_true_iff.
    destruct (H e c He Hc Hd) as [Ha|(vs & -> & Hin)]; [left|right]; by apply bool_decide_eq_true.
Qed.

Section page_properties.
Context `{ProtowireLaws}.

(** One record of an admitted page. *)
Definition record_bound (descriptor : ResourceType) (target : ReadTarget) (r : ResourceRecord) : Prop :=
  ValidateRecord r = Some (Ok tt)
  ∧ a_Provider (record_address r) = rt_Provider target ∧ a_Authority (record_address r) = rt_Authority target
  ∧ a_Type (record_address r) = t_Type descriptor
  ∧ ValidateAddress (record_address r) (Some (IdentityDimensions descriptor)) = Some (Ok tt)
  ∧ (rt_Representation target ≠ "" → rp_ID (rec_Representation r) = rt_Representation target)
  ∧ rec_Representation r ∈ Representations descriptor
  ∧ (rt_Scope target ≠ None → identityWithinQueryScope (record_address r) (rt_Scope target) = true).

Lemma checkRecord_page d target r :
  checkRecord r d (rt_Provider target) (rt_Authority target) (rt_Representation target) None (rt_Scope target)
    = Some (Ok tt) ↔ record_bound d target r.
Proof.
  unfold checkRecord, record_bound, record_address.
  rewrite !outcome_seq_ok, !require_ok, !orb_true_iff, !andb_true_iff, !bool_decide_eq_true.
  destruct (decide (rt_Scope target = None)), (decide (rt_Representation target = "")); naive_solver.
Qed.

(** Later records against earlier ones. *)
Fixpoint distinct_after (previous records : list ResourceRecord) : Prop :=
  match records with
  | [] => True
  | r :: records =>
    Forall (λ p, sameAddress (record_address r) (record_address p) = false) previous
    ∧ distinct_after (previous ++ [r]) records
  end.

Lemma check_records_ok d target records : ∀ previous,
  check_records d target previous records = Some (Ok tt) ↔
  Forall (record_bound d target) records ∧ distinct_after previous records.
Proof.
  induction records as [|r records IH]; intros previous; cbn [check_records distinct_after].
  - rewrite Forall_nil. done.
  - rewrite !outcome_seq_ok, checkRecord_page, require_ok, negb_true_iff, IH, Forall_cons.
    assert (existsb (λ p, sameAddress (record_address r) (record_address p)) previous = false ↔
      Forall (λ p, sameAddress (record_address r) (record_address p) = false) previous) as ->; [|tauto].
    rewrite <- not_true_iff_false, existsb_exists, Forall_forall. setoid_rewrite <- list_elem_of_In.
    setoid_rewrite <- not_true_iff_false. naive_solver.
Qed.

Lemma distinct_after_lookup records : ∀ previous i j p r, distinct_after previous records →
  (i < j)%nat → (previous ++ records) !! i = Some p → (previous ++ records) !! j = Some r →
  (length previous ≤ j)%nat → sameAddress (record_address r) (record_address p) = false.
Proof.
  induction records as [|x records IH]; intros previous i j p r Hda Hij Hi Hj Hl.
  - rewrite app_nil_r in Hj. apply lookup_lt_Some in Hj. lia.
  - destruct Hda as [Hx Hda]. destruct (decide (j = length previous)) as [->|Hne].
    + rewrite list_lookup_middle in Hj by done. injection Hj as <-.
      rewrite lookup_app_l in Hi by done. rewrite Forall_forall in Hx. apply Hx. by eapply list_elem_of_lookup_2.
    + eapply (IH (previous ++ [x]) i j); try done; [by rewrite <- app_assoc|by rewrite <- app_assoc|].
      rewrite length_app. simpl. lia.
Qed.

(** C15: An accepted page belongs to its request: it is a valid page of at most the
    requested size; every record is valid, has the target's provider and
    authority and the descriptor's type, one of its representations (the
    requested one when named) and an identity inside the requested scope; and no
    two records identify the same resource, in whatever order their scope
    entries are written. *)
Theorem checkPage_bound page d target size :
  checkPage page d target size = Some (Ok tt) →
  ValidateSourcePage page = Some (Ok tt)
  ∧ (size ≠ 0 → Z.of_nat (length (pg_Records page)) ≤ size)
  ∧ Forall (record_bound d target) (pg_Records page)
  ∧ ∀ i j p r, i ≠ j → pg_Records page !! i = Some p → pg_Records page !! j = Some r →
    ¬ same_identity (record_address p) (record_address r).
Proof.
  unfold checkPage. rewrite !outcome_seq_ok, require_ok, negb_true_iff, andb_false_iff, negb_false_iff,
    Z.eqb_eq, Z.ltb_ge, check_records_ok.
  intros (Hp & Hs & Hr & Hd). split_and!; [done| |done|].
  - intros Hne. by destruct Hs.
  - assert (Hlt : ∀ i j p r, (i < j)%nat → pg_Records page !! i = Some p → pg_Records page !! j = Some r →
      ¬ same_identity (record_address r) (record_address p)).
    { intros i j p r Hij Hi Hj Hsame. assert (record_bound d target r) as Hb.
      { rewrite Forall_forall in Hr. apply Hr. by eapply list_elem_of_lookup_2. }
      destruct Hb as (_ & _ & _ & _ & Hv & _). apply ValidateAddress_scope in Hv.
      apply sameAddress_iff in Hsame; [|by eapply NoDup_fmap_1].
      pose proof (distinct_after_lookup _ [] i j p r Hd Hij Hi Hj ltac:(simpl; lia)). congruence. }
    intros i j p r Hij Hi Hj Hsame. destruct (decide (i < j)%nat).
    + eapply (Hlt i j p r); [done|done|done|]. destruct Hsame as (? & ? & ? & ? & ?). by split_and!.
    + eapply (Hlt j i r p); [lia|done|done|done].
Qed.
End page_properties.

(** ** One registration per operation *)

Section selection.
Context {ClientT : Type}.

Definition selectable (op : string) (scope : QueryScope) (r : Registration ClientT) : bool :=
  handles r op && scopeContains (reg_Scope r) scope.

Lemma select_go_ok op scope rs : ∀ o r, select_go op scope rs o = Some (Ok r) ↔
  match o with
  | Some x => x = r ∧ filter (λ r, selectable op scope r = true) rs = []
  | None => filter (λ r, selectable op scope r = true) rs = [r]
  end.
Proof.
  induction rs as [|x rs IH]; intros o r; cbn [select_go].
  - destruct o; [|done]. rewrite filter_nil. naive_solver.
  - fold (selectable op scope x). rewrite filter_cons. destruct (selectable op scope x) eqn:E.
    + rewrite decide_True by done. destruct o as [y|]; [split; [done|by intros [_ ?]]|].
      rewrite IH. split; [by intros [-> ->]|by intros [= -> ->]].
    + rewrite decide_False by congruence. apply IH.
Qed.

(** Dispatch resolves a registration exactly when the pinned revision is the
    current catalog's, the catalog admits the target, and precisely one
    installed registration handles the operation with a scope containing the
    admitted one; so the choice does not depend on the registration order. *)
Theorem resolve_iff ctx catalog (regs : string → outcome (list (Registration ClientT))) target r d :
  resolve ctx catalog regs target = Some (Ok (r, d)) ↔
  ∃ c s rs, catalog = Some (Ok c)
  ∧ ValidateCatalogRevision (CatalogRevisionForRouteFromContext ctx (ot_provider target) (ot_route target)).1 = Some (Ok tt)
  ∧ CheckCatalogRevisionForRoute ctx c (ot_route target) = Some (Ok tt)
  ∧ admitTarget c target = Some (Ok (d, s)) ∧ regs (ot_typ target) = Some (Ok rs)
  ∧ filter (λ r, selectable (ot_operation target) s r = true) rs = [r].
Proof.
  unfold resolve. rewrite outcome_seq_ok. split.
  - intros [H1 H]. apply outcome_bind_some in H as (c & Hc & H). apply outcome_seq_ok in H as [H2 H].
    apply outcome_bind_some in H as ([d' s] & H3 & H). apply outcome_bind_some in H as (rs & H4 & H).
    apply outcome_bind_some in H as (r' & H5 & [= -> ->]). apply select_go_ok in H5. exists c, s, rs. done.
  - intros (c & s & rs & -> & H1 & H2 & H3 & H4 & H5). split; [done|]. apply outcome_bind_some.
    exists c. split; [done|]. apply outcome_seq_ok. split; [done|]. apply outcome_bind_some. exists (d, s).
    split; [done|]. apply outcome_bind_some. exists rs. split; [done|]. apply outcome_bind_some. exists r.
    split; [|done]. by apply (select_go_ok _ _ _ None).
Qed.
End selection.

(** ** A concrete catalog *)

#[local] Instance sample_protowire : Protowire := {| SizeVarint n := Z.min 10 (varintSize n `max` 1); EncodeZigZag n := 2 * n |}.
#[local] Instance sample_protowire_laws : ProtowireLaws.
Proof. constructor. intros n. simpl. lia. Qed.

Definition sample_type : ResourceType :=
  mkResourceType "Pod" "Pods" "" [mkDimension "ns" false] [mkDimension "ns" false]
    [mkRepresentation "default" "v1" sample_schema] "default" "" []
    [mkCapability OperationGet (Some [mkConstraint "ns" ScopeAny None]) "";
     mkCapability OperationEnumerate (Some [mkConstraint "ns" ScopeOneOf (Some ["default"; "dev"])]) ""]
    None false.
Definition sample_catalog : Catalog := mkCatalog "k8s" [sample_type] "rev-1" (mkCoverage "complete" [] "").
Definition sample_target : ReadTarget :=
  mkReadTarget (mkRoute "c1") "k8s" "auth" "Pod" (Some [mkConstraint "ns" ScopeOneOf (Some ["default"])]) "default".
Definition sample_request : request_value := ReqEnumerate (mkEnumerateRequest sample_target 10 None).

Lemma AdmitCatalogOperation_covered_witness :
  ∃ target, describeOperation sample_request = Some (Ok target) ∧ t_Type sample_type = ot_typ target
  ∧ ∃ c, c ∈ Capabilities sample_type ∧ cap_Operation c = ot_operation target
         ∧ ∀ f, selects sample_type target f → denotes (listOf (cap_Scope c)) f.
Proof.
  destruct (AdmitCatalogOperation_covered sample_catalog sample_request sample_type
              ltac:(vm_compute; reflexivity)) as (t & H1 & _ & _ & H2 & _ & _ & H3).
  exists t. split; [exact H1|]. split; [exact H2|exact H3].
Defined.

(** A registration restricted to one namespace. *)
Definition sample_registration : Registration unit :=
  mkRegistration "Pod" "" (Some [mkConstraint "ns" ScopeOneOf (Some ["dev"; "prod"])])
    None (Some (λ _ _, Some (Ok sample_page))) None None None None false None.
Definition sample_narrowed : ResourceType :=
  with_capabilities sample_type
    [mkCapability OperationEnumerate (Some [mkConstraint "ns" ScopeOneOf (Some ["dev"])]) ""].

Lemma catalogCapabilities_narrow_witness :
  ∃ rs, registrations [sample_registration] None (mkRoute "c1") "Pod" = Some (Ok rs) ∧ NoDup (Capabilities sample_narrowed)
  ∧ ∀ c, c ∈ Capabilities sample_narrowed ↔
      ∃ d r, d ∈ Capabilities sample_type ∧ r ∈ rs ∧ offers (QueryDimensions sample_type) d r c.
Proof.
  destruct (catalogCapabilities_narrow (registrations [sample_registration] None (mkRoute "c1")) sample_type
              sample_narrowed ltac:(vm_compute; reflexivity) ltac:(vm_compute; reflexivity))
    as (rs & H1 & _ & H2 & H3 & _).
  exists rs. split; [exact H1|]. split; [exact H2|exact H3].
Defined.

Lemma checkPage_bound_witness :
  ValidateSourcePage sample_page = Some (Ok tt) ∧ Forall (record_bound sample_type sample_target) (pg_Records sample_page).
Proof.
  destruct (checkPage_bound sample_page sample_type sample_target 5 ltac:(vm_compute; reflexivity)) as (H1 & _ & H2 & _).
  split; [exact H1|exact H2].
Defined.

(** The registration is selected under the pinned revision. *)
Example sample_resolve :
  match resolve (mkAdmission (mkContext None) (Some "rev-1")) (Some (Ok sample_catalog))
    (registrations [sample_registration] None (mkRoute "c1"))
    (mkTarget (mkRoute "c1") "k8s" "Pod" "" (Some [mkConstraint "ns" ScopeOneOf (Some ["dev"])]) None OperationEnumerate) with
  | Some (Ok (r, d)) => (reg_Type r, t_Type d) = ("Pod", "Pod")
  | _ => False
  end.
Proof. vm_compute. reflexivity. Qed.
