(* ===== verification/Connections.v ===== *)
(** * Connection profiles and the host overlay (pkg/types/connection.go,
    pkg/resource/v2/connection_copy.go, connection_overlay.go, controller_inventory.go)

    The configured profile, the comparison that decides client reuse, and the
    inventory a controller computes from native discovery and the host overlay.
    A container of configuration is its value up to [reflect.DeepEqual]: a map is
    listed in key order, nil and empty are distinct, and numbers are finite; so
    deep equality is equality and a copy is the value itself. *)
From S2P Require Import Prelude GoStd GoTime Errors Values Json TaggedJson Budget Domain Validation.
Local Open Scope Z_scope.

(** ** Data *)

Inductive meta : Type :=
| MNil
| MBool (b : bool)
| MInteger (kind : string) (n : Z)   (** a native integer of the named Go kind *)
| MFloat (x : float64)
| MString (s : string)
| MSlice (l : option (list meta))
| MMap (m : option (list (string * meta))).

#[export] Instance float64_eq_dec : EqDecision float64.
Proof. solve_decision. Defined.

Fixpoint meta_eqb (a b : meta) : bool :=
  match a, b with
  | MNil, MNil => true
  | MBool x, MBool y => Bool.eqb x y
  | MInteger k n, MInteger k' n' => bool_decide (k = k') && (n =? n')
  | MFloat x, MFloat y => bool_decide (x = y)
  | MString s, MString t => bool_decide (s = t)
  | MSlice None, MSlice None => true
  | MSlice (Some l), MSlice (Some l') =>
    (fix go l l' := match l, l' with
                    | [], [] => true
                    | x :: l, y :: l' => meta_eqb x y && go l l'
                    | _, _ => false
                    end) l l'
  | MMap None, MMap None => true
  | MMap (Some m), MMap (Some m') =>
    (fix go m m' := match m, m' with
                    | [], [] => true
                    | (k, x) :: m, (k', y) :: m' => bool_decide (k = k') && meta_eqb x y && go m m'
                    | _, _ => false
                    end) m m'
  | _, _ => false
  end.

Lemma meta_eqb_eq : ∀ a b, meta_eqb a b = true ↔ a = b.
Proof.
  fix go 1. intros [|x|k n|x|s|[l|]|[m|]] [|y|k' n'|y|t|[l'|]|[m'|]]; cbn [meta_eqb]; try (split; done).
  - rewrite Bool.eqb_true_iff. split; [by intros ->|by intros [= ->]].
  - rewrite andb_true_iff, bool_decide_eq_true, Z.eqb_eq. split; [by intros [-> ->]|by intros [= -> ->]].
  - rewrite bool_decide_eq_true. split; [by intros ->|by intros [= ->]].
  - rewrite bool_decide_eq_true. split; [by intros ->|by intros [= ->]].
  - enough (Hl : ∀ l', (fix go l l' := match l, l' with
                    | [], [] => true
                    | x :: l, y :: l' => meta_eqb x y && go l l'
                    | _, _ => false
                    end) l l' = true ↔ l = l').
    { rewrite Hl. split; [by intros ->|by intros [= ->]]. }
    revert l. fix gol 1. intros [|x l] [|y l2]; try (split; done).
    rewrite andb_true_iff, (go x y), (gol l l2). split; [by intros [-> ->]|by intros [= -> ->]].
  - enough (Hm : ∀ m', (fix go m m' := match m, m' with
                    | [], [] => true
                    | (k, x) :: m, (k', y) :: m' => bool_decide (k = k') && meta_eqb x y && go m m'
                    | _, _ => false
                    end) m m' = true ↔ m = m').
    { rewrite Hm. split; [by intros ->|by intros [= ->]]. }
    revert m. fix gom 1. intros [|[k x] m] [|[k' y] m2]; try (split; done).
    rewrite !andb_true_iff, bool_decide_eq_true, (go x y), (gom m m2).
    split; [by intros [[-> ->] ->]|by intros [= -> -> ->]].
Qed.

#[export] Instance meta_eq_dec : EqDecision meta.
Proof.
  intros a b. destruct (meta_eqb a b) eqn:E; [left; by apply meta_eqb_eq|right].
  intros H%meta_eqb_eq. congruence.
Defined.

Definition metadata : Type := option (list (string * meta)).

Record ConnectionAutoConnect := mkAutoConnect { au_Enabled : bool; au_Triggers : list string; au_Retry : string }.
(** The whole lifecycle preference is its optional auto-connect policy. *)
Definition ConnectionLifecycle : Type := option ConnectionAutoConnect.

(** A [time.Time]: its instant and the year its own location shows. *)
Record NativeTime := mkNativeTime { nt_Instant : Time; nt_LocalYear : Z }.
Definition IsZero (t : NativeTime) : bool := bool_decide (nt_Instant t = zero_time).

(** An opaque runtime client: its identity and what a reflection walk sees. *)
Record ClientHandle := mkClientHandle { ch_identity : nat; ch_view : reflected }.

Record Connection := mkConnection {
  LastRefresh : NativeTime; cn_Data : metadata; sensitiveData : metadata; Labels : metadata;
  cn_Lifecycle : ConnectionLifecycle; cn_ID : string; cn_UID : string; cn_Name : string;
  cn_Description : string; cn_Avatar : string; ExpiryTime : Z; cn_Client : option ClientHandle
}.

Fixpoint reflect_meta (v : meta) : reflected :=
  match v with
  | MNil => RNil
  | MBool b => RRef (RScalar (negb b))
  | MInteger _ n => RRef (RScalar (n =? 0))
  | MFloat x => RRef (RFloat x)
  | MString s => RRef (RString s)
  | MSlice l => RRef (RSeq match l with Some l => map reflect_meta l | None => [] end)
  | MMap m => RRef (RMap match m with Some m => map (λ e, (RString (fst e), reflect_meta (snd e))) m | None => [] end)
  end.
Definition reflect_metadata (m : metadata) : reflected :=
  RMap (map (λ e, (RString e.1, reflect_meta e.2)) (listOf m)).
Definition reflect_time (t : NativeTime) : reflected := RTime (nt_LocalYear t) (utc_year (nt_Instant t)).

#[export] Instance reflect_ConnectionAutoConnect : Reflect ConnectionAutoConnect := λ v,
  RStruct [field (au_Enabled v); field (au_Triggers v); field (au_Retry v)].
(** The private container has no visible field. *)
#[export] Instance reflect_Connection : Reflect Connection := λ v,
  RStruct [(false, reflect_time (LastRefresh v)); (false, reflect_metadata (cn_Data v));
           (false, reflect_metadata (Labels v));
           (false, RStruct [omitted (cn_Lifecycle v)]);
           field (cn_ID v); field (cn_UID v); field (cn_Name v); field (cn_Description v); field (cn_Avatar v);
           (false, reflect_uint (ExpiryTime v));
           (false, match cn_Client v with None => RNil | Some h => RRef (ch_view h) end)].

(** ** Comparison and inheritance *)

Definition SameConnectionClientConfig (a b : Connection) : bool :=
  bool_decide (cn_ID a = cn_ID b) && bool_decide (cn_UID a = cn_UID b)
  && bool_decide (cn_Data a = cn_Data b) && bool_decide (sensitiveData a = sensitiveData b).

Definition SetSensitiveData (c : Connection) (data : metadata) : Connection :=
  mkConnection (LastRefresh c) (cn_Data c) data (Labels c) (cn_Lifecycle c) (cn_ID c) (cn_UID c) (cn_Name c)
    (cn_Description c) (cn_Avatar c) (ExpiryTime c) (cn_Client c).

Definition inheritConnectionCredentials (override : Connection) (source : gmap string Connection) (id : string)
    : Connection * bool :=
  match source !! id with
  | None => (override, false)
  | Some connection =>
    let override := SetSensitiveData override (sensitiveData connection) in
    (override, SameConnectionClientConfig override connection)
  end.

(** What one override contributes to the effective inventory. *)
Definition inherit_one (native current : gmap string Connection) (id : string) (override : Connection)
    : option Connection :=
  if bool_decide (sensitiveData override = None) then
    let n := inheritConnectionCredentials override native id in
    if n.2 then Some n.1
    else let c := inheritConnectionCredentials override current id in
         if c.2 then Some c.1 else None
  else None.

(** Each iteration assigns only its own key, so the map's order is immaterial. *)
Definition inheritOverlayCredentials (effective native current overrides : gmap string Connection)
    : gmap string Connection :=
  map_imap (λ id c, Some (default c (overrides !! id ≫= inherit_one native current id))) effective.

Definition preserveConnectionRuntime (current previous : Connection) : Connection :=
  mkConnection (if IsZero (LastRefresh current) then LastRefresh previous else LastRefresh current)
    (cn_Data current) (sensitiveData current) (Labels current) (cn_Lifecycle current) (cn_ID current)
    (cn_UID current) (cn_Name current) (cn_Description current) (cn_Avatar current)
    (if ExpiryTime current =? 0 then ExpiryTime previous else ExpiryTime current)
    (if cn_Client current is None then cn_Client previous else cn_Client current).

(** Native discovery without the disabled IDs, under the overrides. *)
Definition effectiveInventory (native overrides : gmap string Connection) (disabled : gset string)
    : gmap string Connection :=
  overrides ∪ filter (λ e, e.1 ∉ disabled) native.

(** ** The overlay *)

Record ConnectionOverlay := mkOverlay { Upserts : list Connection; DisabledIDs : list string }.
#[export] Instance reflect_ConnectionOverlay : Reflect ConnectionOverlay := λ v,
  RStruct [field (Upserts v); field (DisabledIDs v)].

Definition ValidateConnectionOverlay (overlay : ConnectionOverlay) : outcome unit :=
  ValidateMetadata overlay ;;
  each_distinct cn_ID (invalid "duplicate connection overlay ID") (λ c, otext (cn_ID c) true) ret_ok []
    (Upserts overlay) ;;
  each_distinct id (invalid "conflicting connection overlay ID") (λ i, otext i true) ret_ok
    (map cn_ID (Upserts overlay)) (DisabledIDs overlay).

Definition by_id (l : list Connection) : gmap string Connection := list_to_map (map (λ c, (cn_ID c, c)) l).

(** [ApplyConnections]' own checks and the inventory it loads. *)
Fixpoint load_connections (l : list Connection) (loaded : gmap string Connection)
    : outcome (gmap string Connection) :=
  match l with
  | [] => Some (Ok loaded)
  | c :: l =>
    require (negb (bool_decide (cn_ID c = ""))) (invalid "Connection requires an explicit ID.") ;;
    require (bool_decide (loaded !! cn_ID c = None)) (invalid "Connection inventory contains duplicate IDs.") ;;
    load_connections l (<[cn_ID c := c]> loaded)
  end.
Definition loadedConnections (l : list Connection) : outcome (gmap string Connection) :=
  ValidateMetadata l ;; load_connections l ∅.

(** The desired state after [UpdateConnection] and [DeleteConnection]. *)
Definition updated_overlay (overrides : gmap string Connection) (disabled : gset string) (c : Connection)
    : gmap string Connection * gset string :=
  (<[cn_ID c := c]> overrides, disabled ∖ {[cn_ID c]}).
Definition deleted_overlay (native overrides : gmap string Connection) (disabled : gset string) (id : string)
    : gmap string Connection * gset string :=
  (delete id overrides,
   if native !! id is Some _ then disabled ∪ {[id]} else disabled ∖ {[id]}).

(** ** What the effective inventory holds *)

(** Same public configuration: everything the comparison sees but the
    credentials. *)
Definition same_public (a b : Connection) : Prop :=
  cn_ID a = cn_ID b ∧ cn_UID a = cn_UID b ∧ cn_Data a = cn_Data b.

Lemma same_config_iff a b : SameConnectionClientConfig a b = true ↔
  same_public a b ∧ sensitiveData a = sensitiveData b.
Proof.
  unfold SameConnectionClientConfig, same_public. rewrite !andb_true_iff, !bool_decide_eq_true. tauto.
Qed.

Lemma same_config_refl a : SameConnectionClientConfig a a = true.
Proof. by apply same_config_iff. Qed.
Lemma same_config_trans a b c : SameConnectionClientConfig a b = true → SameConnectionClientConfig b c = true →
  SameConnectionClientConfig a c = true.
Proof. rewrite !same_config_iff. unfold same_public. intuition congruence. Qed.
Lemma same_config_preserve a b p : SameConnectionClientConfig a (preserveConnectionRuntime b p) =
  SameConnectionClientConfig a b.
Proof. done. Qed.

Lemma inherit_credentials_iff override source id c :
  inheritConnectionCredentials override source id = (c, true) ↔
  ∃ s, source !! id = Some s ∧ same_public override s ∧ c = SetSensitiveData override (sensitiveData s).
Proof.
  unfold inheritConnectionCredentials. destruct (source !! id) as [s|]; [|naive_solver]. split.
  - intros [= <- H]. apply same_config_iff in H as [H _]. by exists s.
  - intros (s' & [= <-] & H & ->). f_equal. by apply same_config_iff.
Qed.

(** The credentials an override without its own may take from a source. *)
Definition lends (source : gmap string Connection) (id : string) (override : Connection) (data : metadata) : Prop :=
  ∃ s, source !! id = Some s ∧ same_public override s ∧ data = sensitiveData s.

Lemma inherit_one_some native current id o c : inherit_one native current id o = Some c ↔
  sensitiveData o = None ∧ ∃ data, c = SetSensitiveData o data ∧
  (lends native id o data ∨ (∀ d, ¬ lends native id o d) ∧ lends current id o data).
Proof.
  unfold inherit_one, lends. case_bool_decide as Hs; [|naive_solver].
  destruct (inheritConnectionCredentials o native id) as [n bn] eqn:En.
  destruct (inheritConnectionCredentials o current id) as [m bm] eqn:Em. cbn [fst snd].
  assert (Hn : ∀ d, (∃ s, native !! id = Some s ∧ same_public o s ∧ d = sensitiveData s) → (n, bn) = (SetSensitiveData o d, true)).
  { intros d (s & ? & ? & ->). rewrite <- En. apply inherit_credentials_iff. eauto. }
  assert (Hm : ∀ d, (∃ s, current !! id = Some s ∧ same_public o s ∧ d = sensitiveData s) → (m, bm) = (SetSensitiveData o d, true)).
  { intros d (s & ? & ? & ->). rewrite <- Em. apply inherit_credentials_iff. eauto. }
  split.
  - intros H. split; [done|]. destruct bn.
    + injection H as <-. apply inherit_credentials_iff in En as (s & ? & ? & ->). eauto 10.
    + destruct bm; [|done]. injection H as <-. apply inherit_credentials_iff in Em as (s & ? & ? & ->).
      eexists. split; [done|]. right. split; [|eauto]. intros d Hd. by specialize (Hn d Hd).
  - intros (_ & data & -> & [Hl|[Hno Hl]]).
    + by injection (Hn _ Hl) as -> ->.
    + injection (Hm _ Hl) as -> ->. destruct bn; [|done].
      apply inherit_credentials_iff in En as (s & ? & ? & ->). destruct (Hno (sensitiveData s)). eauto.
Qed.

(** C20: The effective inventory is native discovery under the host overlay: an
    override is published as written, with the credentials of a source only when
    it has none of its own and its public configuration is exactly that
    source's, native discovery being asked before the current inventory; any
    other ID is the discovered profile, unless disabled. *)
Theorem effective_inventory native current overrides disabled id :
  let effective := inheritOverlayCredentials (effectiveInventory native overrides disabled) native current overrides in
  match overrides !! id with
  | Some o => ∃ c, effective !! id = Some c ∧
      ((c = o ∧ (sensitiveData o ≠ None ∨ ∀ d, ¬ lends native id o d ∧ ¬ lends current id o d))
       ∨ sensitiveData o = None ∧ ∃ d, c = SetSensitiveData o d ∧
           (lends native id o d ∨ (∀ d', ¬ lends native id o d') ∧ lends current id o d))
  | None => effective !! id = if bool_decide (id ∈ disabled) then None else native !! id
  end.
Proof.
  cbn zeta. unfold inheritOverlayCredentials, effectiveInventory. rewrite map_lookup_imap.
  destruct (overrides !! id) as [o|] eqn:Eo.
  - rewrite (lookup_union_Some_l _ _ _ _ Eo). cbn [mbind option_bind default].
    destruct (inherit_one native current id o) as [c|] eqn:Ei; cbn [from_option].
    + exists c. split; [done|]. right. by apply inherit_one_some in Ei.
    + exists o. split; [done|]. left. split; [done|].
      destruct (decide (sensitiveData o = None)) as [Hs|]; [right|by left].
      intros d. split; intros Hl.
      * assert (inherit_one native current id o = Some (SetSensitiveData o d)); [|congruence].
        apply inherit_one_some. eauto 10.
      * destruct (inheritConnectionCredentials o native id) as [n bn] eqn:En. destruct bn.
        -- unfold inherit_one in Ei. by rewrite bool_decide_true, En in Ei.
        -- assert (inherit_one native current id o = Some (SetSensitiveData o d)); [|congruence].
           apply inherit_one_some. split; [done|]. exists d. split; [done|]. right. split; [|done].
           intros d' (s & ? & ? & ->). assert (inheritConnectionCredentials o native id = (SetSensitiveData o (sensitiveData s), true)) as Hx
             by (apply inherit_credentials_iff; eauto). congruence.
  - rewrite lookup_union_r by done. cbn [mbind option_bind default].
    destruct (bool_decide_reflect (id ∈ disabled)) as [Hd|Hd].
    + rewrite (map_lookup_filter_None_2 (λ e, e.1 ∉ disabled)); [done|]. right. intros x _ Hx. by apply Hx.
    + destruct (native !! id) as [c|] eqn:En.
      * by rewrite (map_lookup_filter_Some_2 (λ e, e.1 ∉ disabled) _ _ _ En Hd).
      * rewrite (map_lookup_filter_None_2 (λ e, e.1 ∉ disabled)); [done|by left].
Qed.
