(* ===== verification/Lifecycle.v ===== *)
(** * Client generations of a controller (pkg/resource/v2/controller_lifecycle.go,
    controller_inventory.go)

    The registry of client generations as a state machine. Each definition below
    is one critical section of the code, or one wait-free stretch between two
    waits, and the step relation interleaves them in any order: leases, starts,
    stops, inventory replacement and Close run concurrently, and provider
    callbacks answer anything at any time. A generation is addressed by its index
    in the list of all generations ever created, which plays the part of the
    pointer the code compares. *)
From S2P Require Import Prelude GoStd Errors Values Json TaggedJson Budget Domain Validation Connections.
From stdpp Require Import relations.
Local Open Scope nat_scope.

(** ** State *)

(** [startClient] has not returned, has set its outcome, has closed [ready]. *)
Inductive start_stage := Creating | Returned | Ready.
(** Where the goroutine inside [destroy.Do] is. *)
Inductive once_stage := Idle | WaitReady | WaitUsers | TearingDown | Removing | Finished.
#[export] Instance start_stage_eq_dec : EqDecision start_stage.
Proof. solve_decision. Defined.
#[export] Instance once_stage_eq_dec : EqDecision once_stage.
Proof. solve_decision. Defined.

Record clientSlot := mkSlot {
  sl_connection : Connection; sl_client : option nat; sl_stage : start_stage; sl_err : option error;
  sl_stopping : bool; sl_cancelled : bool; sl_users : nat; sl_once : once_stage;
  sl_destroyErr : option error;
  sl_destroyed : nat  (** how often [DestroyClient] was called *)
}.

(** An inventory replacement that waits for the generations it retired. *)
Record stagedInventory := mkStaged {
  st_native : gmap string Connection; st_overrides : gmap string Connection; st_disabled : gset string;
  st_effective : gmap string Connection; st_changed : gset string; st_retired : list nat
}.

Record Controller := mkController {
  closed : bool;
  connections : gmap string Connection; nativeConnections : gmap string Connection;
  overrides : gmap string Connection; disabled : gset string;
  changing : gset string; clients : gmap string nat; failedStarts : gset string;
  slots : list clientSlot;
  leasing : list (string * nat);     (** leases between their two critical sections *)
  held : list (string * nat);        (** leases not yet released *)
  staged : option stagedInventory    (** the holder of [configMu] while it drains *)
}.

Definition NewController : Controller :=
  mkController false ∅ ∅ ∅ ∅ ∅ ∅ ∅ [] [] [] None.

(** Field updates. *)
Definition on_slot (c : Controller) (n : nat) (f : clientSlot → clientSlot) : Controller :=
  mkController (closed c) (connections c) (nativeConnections c) (overrides c) (disabled c) (changing c)
    (clients c) (failedStarts c) (alter f n (slots c)) (leasing c) (held c) (staged c).
Definition with_leases (c : Controller) (leasing held : list (string * nat)) : Controller :=
  mkController (closed c) (connections c) (nativeConnections c) (overrides c) (disabled c) (changing c)
    (clients c) (failedStarts c) (slots c) leasing held (staged c).
Definition with_failed (c : Controller) (failed : gset string) : Controller :=
  mkController (closed c) (connections c) (nativeConnections c) (overrides c) (disabled c) (changing c)
    (clients c) failed (slots c) (leasing c) (held c) (staged c).
Definition with_clients (c : Controller) (cl : gmap string nat) : Controller :=
  mkController (closed c) (connections c) (nativeConnections c) (overrides c) (disabled c) (changing c)
    cl (failedStarts c) (slots c) (leasing c) (held c) (staged c).

Definition slot_id (s : clientSlot) : string := cn_ID (sl_connection s).
Definition set_users (f : nat → nat) (s : clientSlot) : clientSlot :=
  mkSlot (sl_connection s) (sl_client s) (sl_stage s) (sl_err s) (sl_stopping s) (sl_cancelled s)
    (f (sl_users s)) (sl_once s) (sl_destroyErr s) (sl_destroyed s).
Definition set_stopping (s : clientSlot) : clientSlot :=
  mkSlot (sl_connection s) (sl_client s) (sl_stage s) (sl_err s) true true (sl_users s) (sl_once s)
    (sl_destroyErr s) (sl_destroyed s).
Definition set_cancelled (s : clientSlot) : clientSlot :=
  mkSlot (sl_connection s) (sl_client s) (sl_stage s) (sl_err s) (sl_stopping s) true (sl_users s) (sl_once s)
    (sl_destroyErr s) (sl_destroyed s).
Definition set_outcome (client : option nat) (err : option error) (s : clientSlot) : clientSlot :=
  mkSlot (sl_connection s) client Returned err (sl_stopping s) (sl_cancelled s) (sl_users s) (sl_once s)
    (sl_destroyErr s) (sl_destroyed s).
Definition set_ready (s : clientSlot) : clientSlot :=
  mkSlot (sl_connection s) (sl_client s) Ready (sl_err s) (sl_stopping s) (sl_cancelled s) (sl_users s) (sl_once s)
    (sl_destroyErr s) (sl_destroyed s).
Definition set_once (o : once_stage) (s : clientSlot) : clientSlot :=
  mkSlot (sl_connection s) (sl_client s) (sl_stage s) (sl_err s) (sl_stopping s) (sl_cancelled s) (sl_users s) o
    (sl_destroyErr s) (sl_destroyed s).

(** ** Leases *)

Definition not_started : error := invalid "Connection is not started.".
Definition retired_generation : error := NewError "RESET_REQUIRED" "The admitted client generation has retired.".
Definition stopping_or_failed : error := NewError "CANCELLED" "Connection is stopping or failed to start.".

(** The generation a fresh lease waits for. *)
Definition lease_check (c : Controller) (id : string) : result nat :=
  match clients c !! id with
  | None => Err not_started
  | Some n =>
    match slots c !! n with
    | Some s => if sl_stopping s then Err not_started else Ok n
    | None => Err not_started
    end
  end.

Definition has_err (s : clientSlot) : bool := if sl_err s is Some _ then true else false.

Definition grant (c : Controller) (id : string) (n : nat) : Controller :=
  on_slot (with_leases c (leasing c) ((id, n) :: held c)) n (set_users S).

(** Once that generation is ready: admission under the lock. *)
Definition lease_admit (c : Controller) (id : string) (n : nat) : result Controller :=
  match slots c !! n with
  | None => Err stopping_or_failed
  | Some s =>
    if has_err s || sl_stopping s || closed c || negb (bool_decide (clients c !! id = Some n))
    then Err stopping_or_failed
    else Ok (grant c id n)
  end.

(** A lease taken through a context that already carries generation [n]. *)
Definition lease_held (c : Controller) (id : string) (n : nat) : result Controller :=
  match slots c !! n with
  | None => Err retired_generation
  | Some s =>
    if bool_decide (clients c !! id = Some n) && negb (sl_stopping s) && negb (sl_cancelled s)
    then Ok (grant c id n)
    else Err retired_generation
  end.

(** The release function a lease returns. *)
Definition lease_done (c : Controller) (rest : list (string * nat)) (n : nat) : Controller :=
  on_slot (with_leases c (leasing c) rest) n (set_users Nat.pred).

(** ** Starting *)

Definition provider_closed : error := NewError "CANCELLED" "Provider is closed.".

(** [startSlotLocked]: joins the generation in the registry or publishes one. *)
Definition startSlotLocked (c : Controller) (connection : Connection) : Controller * nat * bool :=
  let id := cn_ID connection in
  match clients c !! id with
  | Some n => (c, n, false)
  | None =>
    let n := length (slots c) in
    let s := mkSlot connection None Creating None false false 0 Idle None 0 in
    (mkController (closed c) (connections c) (nativeConnections c) (overrides c) (disabled c) (changing c)
       (<[id := n]> (clients c)) (failedStarts c ∖ {[id]}) (slots c ++ [s]) (leasing c) (held c) (staged c),
     n, true)
  end.

(** [StartConnection]'s critical section. *)
Definition start_publish (c : Controller) (id : string) : result (Controller * nat * bool) :=
  guard_err (closed c) provider_closed ;;
  guard_err (bool_decide (id ∈ changing c)) (NewError "CANCELLED" "Connection configuration is changing.") ;;
  match connections c !! id with
  | None => Err (NewError "NOT_FOUND" "Connection was removed.")
  | Some connection => Ok (startSlotLocked c connection)
  end.

(** What [CreateClient] and [OnStart] did: [None] is a panic. *)
Record start_callbacks := mkStart {
  CreateClient : option (option nat * option error);
  OnStart : option (option (option error))   (** absent, panicked, or its error *)
}.

Definition start_panic : error := NewError "INTERNAL" "Connection start handler panicked.".

(** The client and error [startClient] leaves in the slot. *)
Definition start_outcome (k : start_callbacks) (cancelled : option error) : option nat * option error :=
  match CreateClient k with
  | None => (None, Some start_panic)
  | Some (client, Some e) => (client, Some e)
  | Some (None, None) => (None, Some (NewError "INTERNAL" "CreateClient returned a nil client."))
  | Some (Some h, None) =>
    (Some h,
     match OnStart k with
     | Some None => Some start_panic
     | Some (Some (Some e)) => Some e
     | Some (Some None) | None => cancelled
     end)
  end.

(** The deferred bookkeeping of [startClient]: a live failed start is kept. *)
Definition start_return (c : Controller) (n : nat) (client : option nat) (err : option error) : Controller :=
  match slots c !! n with
  | None => c
  | Some s =>
    let id := slot_id s in
    let failed := (if err is Some _ then true else false) && bool_decide (clients c !! id = Some n)
                  && negb (sl_stopping s) && negb (bool_decide (id ∈ changing c)) && negb (sl_cancelled s) in
    on_slot (if failed then with_failed c ({[id]} ∪ failedStarts c) else c) n (set_outcome client err)
  end.

(** What [StartConnection] reports once the generation is ready: an error that
    leaves it to [stopSlot], or whether it is connected. *)
Definition start_accept (c : Controller) (n : nat) : result unit :=
  match slots c !! n with
  | None => Err stopping_or_failed
  | Some s =>
    match sl_err s with
    | Some e => Err e
    | None =>
      if sl_cancelled s then Err ECanceled
      else guard_err (sl_stopping s || closed c) (NewError "CANCELLED" "Connection is stopping.")
    end
  end.

(** ** Stopping *)

(** The locked prologue of [stopSlot]. *)
Definition stop_mark (c : Controller) (n : nat) : Controller := on_slot c n set_stopping.

(** [StopConnection]'s critical section. *)
Definition stop_connection (c : Controller) (id : string) : Controller :=
  let c' := with_failed c (failedStarts c ∖ {[id]}) in
  match clients c !! id with Some n => stop_mark c' n | None => c' end.

Definition stop_all (ns : list nat) (c : Controller) : Controller := foldr (λ n c, stop_mark c n) c ns.

(** [Close]'s critical section. *)
Definition close (c : Controller) : Controller :=
  let ns := map snd (map_to_list (clients c)) in
  let c := stop_all ns c in
  mkController true (connections c) (nativeConnections c) (overrides c) (disabled c) (changing c)
    (clients c) (failedStarts c) (slots c) (leasing c) (held c) (staged c).

(** [errors.Join] of two results. *)
Definition join (a b : option error) : option error :=
  match a, b with
  | None, None => None
  | Some a, None => Some (EJoin [a])
  | None, Some b => Some (EJoin [b])
  | Some a, Some b => Some (EJoin [a; b])
  end.

(** [lifecycleCall] of a hook that returns an error or panics. *)
Definition lifecycleCall (k : option (option error)) : option error :=
  match k with
  | None => Some (NewError "INTERNAL" "Connection teardown handler panicked.")
  | Some e => e
  end.

(** The teardown of a drained generation with the hooks' answers. *)
Definition teardown (OnStop : option (option (option error))) (DestroyClient : option (option error))
    (s : clientSlot) : clientSlot :=
  match sl_client s with
  | None => set_once Removing s
  | Some _ =>
    let err := match OnStop with Some k => lifecycleCall k | None => None end in
    mkSlot (sl_connection s) (sl_client s) (sl_stage s) (sl_err s) (sl_stopping s) (sl_cancelled s)
      (sl_users s) Removing (join err (lifecycleCall DestroyClient)) (S (sl_destroyed s))
  end.

(** The last critical section of [destroy.Do]. *)
Definition remove_slot (c : Controller) (n : nat) : Controller :=
  match slots c !! n with
  | None => c
  | Some s =>
    let c := on_slot c n (set_once Finished) in
    if bool_decide (clients c !! slot_id s = Some n) then with_clients c (delete (slot_id s) (clients c)) else c
  end.

(** ** Inventory replacement *)

Definition unchanged (effective : gmap string Connection) (id : string) (previous : Connection) : bool :=
  match effective !! id with
  | Some current => SameConnectionClientConfig previous current
  | None => false
  end.

(** The IDs whose configuration changes, disappears or appears. *)
Definition changed_ids (current effective : gmap string Connection) : gset string :=
  dom (filter (λ e, unchanged effective e.1 e.2 = false) current) ∪ (dom effective ∖ dom current).

Definition preserved (current effective : gmap string Connection) : gmap string Connection :=
  map_imap (λ id c, Some match current !! id with
                         | Some previous => if SameConnectionClientConfig previous c
                                            then preserveConnectionRuntime c previous else c
                         | None => c
                         end) effective.

(** [applyInventory] up to the release of the lock: the effective inventory with
    inherited credentials, then [stageInventory]. *)
Definition stageInventory (c : Controller) (native over : gmap string Connection) (hidden : gset string)
    : result Controller :=
  guard_err (closed c) provider_closed ;;
  let effective := inheritOverlayCredentials (effectiveInventory native over hidden) native
                     (connections c) over in
  let changed := changed_ids (connections c) effective in
  let effective := preserved (connections c) effective in
  let retired := omap (λ id, clients c !! id) (elements changed) in
  let c := stop_all retired c in
  Ok (mkController (closed c) (connections c) (nativeConnections c) (overrides c) (disabled c)
        (changing c ∪ changed) (clients c) (failedStarts c ∖ changed) (slots c) (leasing c) (held c)
        (Some (mkStaged native over hidden effective changed retired))).

Definition destroy_err (c : Controller) (n : nat) : option error := slots c !! n ≫= sl_destroyErr.

(** The second critical section of [applyInventory], with the cancellation of its
    context; also what [applyInventory] returns. *)
Definition publish (c : Controller) (st : stagedInventory) (cancelled : option error) : Controller * option error :=
  let err := foldl (λ e n, join e (destroy_err c n)) None (st_retired st) in
  let err := if cancelled is Some _ then join err cancelled else err in
  let err := if closed c && (if err is None then true else false) then Some provider_closed else err in
  let ok := if err is None then true else false in
  (mkController (closed c)
     (if ok then st_effective st else connections c)
     (if ok then st_native st else nativeConnections c)
     (if ok then st_overrides st else overrides c)
     (if ok then st_disabled st else disabled c)
     (changing c ∖ st_changed st) (clients c) (failedStarts c) (slots c) (leasing c) (held c) None,
   err).

(** ** Readiness *)

Inductive ConnectionStatus := Disconnected | Pending | Connected | Failed.

Definition GetConnectionStatus (c : Controller) (id : string) : result ConnectionStatus :=
  guard_err (bool_decide (id = "")) (invalid "An explicit connection ID is required.") ;;
  guard_err (closed c) provider_closed ;;
  guard_err (bool_decide (connections c !! id = None)) (NewError "NOT_FOUND" "Connection was not loaded.") ;;
  if bool_decide (id ∈ failedStarts c) then Ok Failed else
  Ok match clients c !! id ≫= λ n, slots c !! n with
     | Some s =>
       if negb (sl_stopping s) && negb (bool_decide (id ∈ changing c)) && negb (sl_cancelled s)
       then if bool_decide (sl_stage s = Ready) then if has_err s then Failed else Connected else Pending
       else Disconnected
     | None => Disconnected
     end.

(** ** Interleaving *)

(** Inventories are keyed by the profiles' own IDs. *)
Definition keyed (m : gmap string Connection) : Prop := map_Forall (λ id c, cn_ID c = id) m.

Inductive step (c : Controller) : Controller → Prop :=
| Step_lease_check id n :
    closed c = false → lease_check c id = Ok n →
    step c (with_leases c ((id, n) :: leasing c) (held c))
| Step_lease_admit l1 id n l2 s c' :
    leasing c = l1 ++ (id, n) :: l2 → slots c !! n = Some s → sl_stage s = Ready →
    lease_admit c id n = Ok c' → step c (with_leases c' (l1 ++ l2) (held c'))
| Step_lease_abandon l1 id n l2 :       (** rejected, or the caller's context ended *)
    leasing c = l1 ++ (id, n) :: l2 → step c (with_leases c (l1 ++ l2) (held c))
| Step_lease_held id n s c' :           (** only a lease put the generation in a context *)
    slots c !! n = Some s → sl_stage s = Ready → sl_err s = None →
    lease_held c id n = Ok c' → step c c'
| Step_lease_done l1 id n l2 :
    held c = l1 ++ (id, n) :: l2 → step c (lease_done c (l1 ++ l2) n)
| Step_start id c' n created :
    start_publish c id = Ok (c', n, created) → step c c'
| Step_start_cancel n s :               (** the creator's context ended; [AfterFunc] may still be running after startup *)
    slots c !! n = Some s → step c (on_slot c n set_cancelled)
| Step_start_return n s k cancelled :
    slots c !! n = Some s → sl_stage s = Creating →
    step c (start_return c n (start_outcome k cancelled).1 (start_outcome k cancelled).2)
| Step_start_ready n s :
    slots c !! n = Some s → sl_stage s = Returned → step c (on_slot c n set_ready)
| Step_stop_mark n s : slots c !! n = Some s → step c (stop_mark c n)
| Step_stop_connection id : step c (stop_connection c id)
| Step_close : step c (close c)
| Step_once_enter n s :
    slots c !! n = Some s → sl_once s = Idle → sl_stopping s = true → step c (on_slot c n (set_once WaitReady))
| Step_once_ready n s :
    slots c !! n = Some s → sl_once s = WaitReady → sl_stage s = Ready → step c (on_slot c n (set_once WaitUsers))
| Step_once_drained n s :
    slots c !! n = Some s → sl_once s = WaitUsers → sl_users s = 0 → step c (on_slot c n (set_once TearingDown))
| Step_once_teardown n s OnStop DestroyClient :
    slots c !! n = Some s → sl_once s = TearingDown → step c (on_slot c n (teardown OnStop DestroyClient))
| Step_once_remove n s :
    slots c !! n = Some s → sl_once s = Removing → step c (remove_slot c n)
| Step_stage native overrides disabled c' :
    staged c = None → keyed native → keyed overrides →
    stageInventory c native overrides disabled = Ok c' → step c c'
| Step_publish st cancelled :
    staged c = Some st →
    (∀ n, n ∈ st_retired st → ∃ s, slots c !! n = Some s ∧ sl_once s = Finished) →
    step c (publish c st cancelled).1.

Definition reachable (c : Controller) : Prop := rtc step NewController c.

(** ** The invariant *)

Definition past_ready (o : once_stage) : bool := bool_decide (o ∈ [WaitUsers; TearingDown; Removing; Finished]).
Definition past_drain (o : once_stage) : bool := bool_decide (o ∈ [TearingDown; Removing; Finished]).
Definition past_destroy (o : once_stage) : bool := bool_decide (o ∈ [Removing; Finished]).

Record slot_ok (s : clientSlot) : Prop := {
  ok_stopping : sl_once s ≠ Idle → sl_stopping s = true;
  ok_ready : past_ready (sl_once s) = true → sl_stage s = Ready;
  ok_drained : past_drain (sl_once s) = true → sl_users s = 0;
  ok_destroyed : sl_destroyed s = if past_destroy (sl_once s) && (if sl_client s is Some _ then true else false)
                                  then 1 else 0;
  ok_users : sl_users s ≠ 0 → sl_stage s = Ready ∧ sl_err s = None;
  ok_client : sl_stage s ≠ Creating → sl_err s = None → is_Some (sl_client s)
}.

(** How many unreleased leases hold a generation. *)
Definition holders (n : nat) (l : list (string * nat)) : nat := length (filter (λ e, e.2 = n) l).

Record staged_ok (c : Controller) (st : stagedInventory) : Prop := {
  so_keyed : keyed (st_effective st);
  so_changing : st_changed st ⊆ changing c;
  so_retired : ∀ id n s, id ∈ st_changed st → clients c !! id = Some n → slots c !! n = Some s → sl_stopping s = true;
  so_same : ∀ id p, id ∉ st_changed st → connections c !! id = Some p →
    ∃ q, st_effective st !! id = Some q ∧ SameConnectionClientConfig p q = true
}.

Record inv (c : Controller) : Prop := {
  inv_slots : ∀ n s, slots c !! n = Some s → slot_ok s;
  inv_users : ∀ n s, slots c !! n = Some s → sl_users s = holders n (held c);
  inv_held : ∀ e, e ∈ held c → is_Some (slots c !! e.2);
  inv_clients : ∀ id n, clients c !! id = Some n →
    ∃ s, slots c !! n = Some s ∧ slot_id s = id ∧ sl_once s ≠ Finished;
  inv_registered : ∀ n s, slots c !! n = Some s → sl_once s ≠ Finished → clients c !! slot_id s = Some n;
  inv_config : ∀ id n s, clients c !! id = Some n → slots c !! n = Some s → sl_stopping s = false →
    ∃ p, connections c !! id = Some p ∧ SameConnectionClientConfig (sl_connection s) p = true;
  inv_keyed : keyed (connections c);
  inv_closed : closed c = true → ∀ n s, slots c !! n = Some s → sl_stopping s = true;
  inv_staged : ∀ st, staged c = Some st → staged_ok c st
}.

Lemma inv_initial : inv NewController.
Proof. split; simpl; try done. intros e He. by apply elem_of_nil in He. Qed.

Lemma inv_with_failed c f : inv c → inv (with_failed c f).
Proof. intros [H1 H2 H3 H4 H5 H6 H7 H8 H9]. split; try done. intros st Hst. by destruct (H9 st Hst). Qed.
Lemma inv_leasing c l : inv c → inv (with_leases c l (held c)).
Proof. intros [H1 H2 H3 H4 H5 H6 H7 H8 H9]. split; try done. intros st Hst. by destruct (H9 st Hst). Qed.

Lemma alter_lookup {A} (f : A → A) n m (l : list A) x : alter f n l !! m = Some x ↔
  (n = m ∧ ∃ y, l !! m = Some y ∧ x = f y) ∨ (n ≠ m ∧ l !! m = Some x).
Proof.
  destruct (decide (n = m)) as [->|Hne].
  - rewrite list_lookup_alter_eq, fmap_Some. naive_solver.
  - rewrite list_lookup_alter_ne by done. naive_solver.
Qed.

Lemma alter_is_Some {A} (f : A → A) n m (l : list A) : is_Some (alter f n l !! m) ↔ is_Some (l !! m).
Proof. rewrite !lookup_lt_is_Some, length_alter. done. Qed.

(** A change of one generation that keeps its profile, its users and its place in
    the registry, and never revives it. *)
Lemma inv_on_slot c n f :
  (∀ s, slots c !! n = Some s → slot_ok s → sl_users s = holders n (held c) →
   sl_connection (f s) = sl_connection s ∧ sl_users (f s) = sl_users s
   ∧ (sl_stopping s = true → sl_stopping (f s) = true)
   ∧ (sl_once (f s) = Finished ↔ sl_once s = Finished) ∧ slot_ok (f s)) →
  inv c → inv (on_slot c n f).
Proof.
  intros Hf [H1 H2 H3 H4 H5 H6 H7 H8 H9].
  assert (Hl : ∀ m x, alter f n (slots c) !! m = Some x → ∃ s, slots c !! m = Some s
    ∧ sl_connection x = sl_connection s ∧ sl_users x = sl_users s ∧ (sl_stopping s = true → sl_stopping x = true)
    ∧ (sl_once x = Finished ↔ sl_once s = Finished) ∧ slot_ok x).
  { intros m x. rewrite alter_lookup. intros [[<- (s & Hs & ->)]|[_ Hs]].
    - exists s. split; [done|]. apply Hf; eauto.
    - exists x. split_and!; try done. eauto. }
  split; unfold on_slot in *; cbn [slots held clients connections closed staged] in *.
  - intros m x Hx. by destruct (Hl m x Hx) as (? & ? & ? & ? & ? & ? & ?).
  - intros m x Hx. destruct (Hl m x Hx) as (s & Hs & _ & -> & _). eauto.
  - intros e He. apply alter_is_Some. eauto.
  - intros id m Hc. destruct (H4 id m Hc) as (s & Hs & Hid & Ho).
    destruct (proj2 (alter_is_Some f n m (slots c)) (mk_is_Some _ _ Hs)) as [x Hx].
    destruct (Hl m x Hx) as (s' & Hs' & Hconn & _ & _ & Hfin & _). assert (s' = s) as -> by congruence.
    exists x. split; [done|]. unfold slot_id in *. rewrite Hconn. split; [done|]. by rewrite Hfin.
  - intros m x Hx Ho. destruct (Hl m x Hx) as (s & Hs & Hconn & _ & _ & Hfin & _).
    unfold slot_id in *. rewrite Hconn. apply (H5 m s Hs). by rewrite <- Hfin.
  - intros id m x Hc Hx Hst. destruct (Hl m x Hx) as (s & Hs & -> & _ & Hmono & _).
    apply (H6 id m s Hc Hs). destruct (sl_stopping s); [|done]. by rewrite Hmono in Hst.
  - done.
  - intros Hcl m x Hx. destruct (Hl m x Hx) as (s & Hs & _ & _ & Hmono & _). eauto.
  - intros st Hst. destruct (H9 st Hst) as [S1 S2 S3 S4]. split; try done.
    intros id m x Hid Hc Hx. destruct (Hl m x Hx) as (s & Hs & _ & _ & Hmono & _). eauto.
Qed.

Ltac parts := split; [|split; [|split; [|split]]].
Ltac slot_cases := split; cbn [sl_once sl_stopping sl_stage sl_users sl_destroyed sl_client sl_err
  set_once set_stopping set_ready set_cancelled set_outcome set_users]; try done; eauto.

Lemma inv_stop_mark c n : inv c → inv (stop_mark c n).
Proof. apply inv_on_slot. intros s _ [] _. parts; try done; slot_cases. Qed.

Lemma inv_stop_all ns c : inv c → inv (stop_all ns c).
Proof. intros H. induction ns as [|n ns IH]; [done|]. by apply inv_stop_mark. Qed.

Lemma inv_set_cancelled c n : inv c → inv (on_slot c n set_cancelled).
Proof. apply inv_on_slot. intros s _ [] _. parts; try done; slot_cases. Qed.

Lemma inv_set_ready c n s : slots c !! n = Some s → sl_stage s = Returned → inv c → inv (on_slot c n set_ready).
Proof.
  intros Hs Hst. apply inv_on_slot. intros s' Hs' [] _. assert (s' = s) as -> by congruence.
  parts; try done; slot_cases.
  - intros Hu. destruct (ok_users0 Hu). congruence.
  - intros _. apply ok_client0. congruence.
Qed.

Lemma inv_set_once c n s o : slots c !! n = Some s → sl_stopping s = true →
  (past_ready o = true → sl_stage s = Ready) → (past_drain o = true → sl_users s = 0) →
  past_destroy (sl_once s) = false → past_destroy o = false →
  inv c → inv (on_slot c n (set_once o)).
Proof.
  intros Hs Hst Hr Hd Hp Ho. apply inv_on_slot. intros s' Hs' [] _. assert (s' = s) as -> by congruence.
  parts; try done.
  - cbn. destruct o, (sl_once s); done.
  - slot_cases. rewrite Hp in ok_destroyed0. by rewrite Ho.
Qed.

Lemma inv_teardown c n s OnStop Destroy : slots c !! n = Some s → sl_once s = TearingDown →
  inv c → inv (on_slot c n (teardown OnStop Destroy)).
Proof.
  intros Hs Ho. apply inv_on_slot. intros s' Hs' Hok _. assert (s' = s) as -> by congruence.
  destruct Hok as [A1 A2 A3 A4 A5 A6]. rewrite Ho in A1, A2, A3, A4.
  unfold teardown. destruct (sl_client s) as [h|] eqn:Eh; cbn in A4.
  - parts; try done. { split; [done|]. intros Hx. cbn in Hx. congruence. } slot_cases; rewrite ?A4, ?Eh; done.
  - parts; try done. { split; [done|]. intros Hx. cbn in Hx. congruence. } slot_cases; rewrite ?Eh; done.
Qed.

Lemma start_outcome_client k cancelled : (start_outcome k cancelled).2 = None → is_Some (start_outcome k cancelled).1.
Proof. unfold start_outcome. destruct (CreateClient k) as [[[h|] [e|]]|]; done. Qed.

Lemma inv_start_return c n s client err : slots c !! n = Some s → sl_stage s = Creating →
  (err = None → is_Some client) → inv c → inv (start_return c n client err).
Proof.
  intros Hs Hst Hcl Hinv. unfold start_return. rewrite Hs. cbn zeta.
  match goal with |- inv (on_slot ?x _ _) => set (c' := x) end.
  assert (inv c' ∧ slots c' = slots c) as [Hinv' Hsl].
  { unfold c'. case_match; [split; [by apply inv_with_failed|done]|done]. }
  revert Hinv'. apply inv_on_slot. rewrite Hsl. intros s' Hs' [A1 A2 A3 A4 A5 A6] _.
  assert (s' = s) as -> by congruence.
  parts; try done. slot_cases.
  - intros Hr. specialize (A2 Hr). congruence.
  - destruct (past_destroy (sl_once s)) eqn:E; cbn in A4 |- *; [|done]. exfalso.
    assert (past_ready (sl_once s) = true) as Hr by (by destruct (sl_once s)). specialize (A2 Hr). congruence.
  - intros Hu. destruct (A5 Hu). congruence.
Qed.

Lemma holders_cons n id m l : holders n ((id, m) :: l) = (if decide (m = n) then S (holders n l) else holders n l).
Proof. unfold holders. rewrite filter_cons. cbn. by case_decide. Qed.
Lemma holders_app n l1 l2 : holders n (l1 ++ l2) = holders n l1 + holders n l2.
Proof. unfold holders. by rewrite filter_app, length_app. Qed.

(** The leases of one generation and its user count change together. *)
Lemma inv_users_update c n f held' :
  (∀ s, slots c !! n = Some s → slot_ok s → slot_ok (set_users f s)) →
  (∀ m s, slots c !! m = Some s → (if decide (n = m) then f (sl_users s) else sl_users s) = holders m held') →
  (∀ e, e ∈ held' → is_Some (slots c !! e.2)) →
  inv c → inv (on_slot (with_leases c (leasing c) held') n (set_users f)).
Proof.
  intros Hok Hus Hheld [H1 H2 H3 H4 H5 H6 H7 H8 H9].
  assert (Hl : ∀ m x, alter (set_users f) n (slots c) !! m = Some x → ∃ y, slots c !! m = Some y
    ∧ sl_connection x = sl_connection y ∧ sl_stopping x = sl_stopping y ∧ sl_once x = sl_once y).
  { intros m x. rewrite alter_lookup. intros [[<- (y & Hy & ->)]|[_ Hy]]; eauto 10. }
  split; unfold on_slot, with_leases in *; cbn [slots held clients connections closed staged] in *.
  - intros m x. rewrite alter_lookup. intros [[<- (y & Hy & ->)]|[_ Hy]]; eauto.
  - intros m x. rewrite alter_lookup. intros [[<- (y & Hy & ->)]|[Hne Hy]].
    + specialize (Hus _ _ Hy). by rewrite decide_True in Hus.
    + specialize (Hus _ _ Hy). by rewrite decide_False in Hus.
  - intros e He. rewrite alter_is_Some. eauto.
  - intros id' m Hc. destruct (H4 id' m Hc) as (y & Hy & Hid & Ho).
    destruct (proj2 (alter_is_Some (set_users f) n m (slots c)) (mk_is_Some _ _ Hy)) as [x Hx].
    destruct (Hl m x Hx) as (y' & Hy' & E1 & E2 & E3). assert (y' = y) as -> by congruence.
    exists x. unfold slot_id in *. rewrite E1, E3. done.
  - intros m x Hx Ho. destruct (Hl m x Hx) as (y & Hy & E1 & E2 & E3). unfold slot_id. rewrite E1.
    apply (H5 m y Hy). congruence.
  - intros id' m x Hc Hx Hx'. destruct (Hl m x Hx) as (y & Hy & -> & E2 & E3). apply (H6 id' m y Hc Hy). congruence.
  - done.
  - intros Hcl m x Hx. destruct (Hl m x Hx) as (y & Hy & E1 & -> & E3). eauto.
  - intros st Hst'. destruct (H9 st Hst') as [S1 S2 S3 S4]. split; try done.
    intros id' m x Hid Hc Hx. destruct (Hl m x Hx) as (y & Hy & E1 & -> & E3). eauto.
Qed.

(** A lease is admitted on a live generation only. *)
Lemma inv_grant c id n s : slots c !! n = Some s → sl_stopping s = false → sl_stage s = Ready → sl_err s = None →
  inv c → inv (grant c id n).
Proof.
  intros Hs Hst Hr He Hinv. pose proof Hinv as [H1 H2 H3 _ _ _ _ _ _]. apply inv_users_update; [..|done].
  - intros y Hy [A1 A2 A3 A4 A5 A6]. assert (y = s) as -> by congruence.
    assert (sl_once s = Idle) as Ho.
    { destruct (decide (sl_once s = Idle)) as [|Hne]; [done|]. by rewrite (A1 Hne) in Hst. }
    slot_cases. by rewrite Ho.
  - intros m y Hy. rewrite holders_cons. case_decide; [f_equal|]; eauto.
  - intros e. rewrite elem_of_cons. intros [->|He']; [by exists s|eauto].
Qed.

Lemma inv_lease_done c l1 id n l2 : held c = l1 ++ (id, n) :: l2 → inv c → inv (lease_done c (l1 ++ l2) n).
Proof.
  intros Hh Hinv. pose proof Hinv as [H1 H2 H3 _ _ _ _ _ _]. apply inv_users_update; [..|done].
  - intros y Hy [A1 A2 A3 A4 A5 A6]. slot_cases.
    + intros Hd. by rewrite A3.
    + intros Hu. apply A5. destruct (sl_users y); done.
  - intros m y Hy. rewrite (H2 _ _ Hy), Hh, !holders_app, holders_cons. case_decide; simpl; lia.
  - intros e He. apply H3. rewrite Hh. set_solver.
Qed.

Lemma inv_start c id c' n created : start_publish c id = Ok (c', n, created) → inv c → inv c'.
Proof.
  unfold start_publish. rewrite !bind_guard_iff. intros (Hcl & Hch & H) Hinv.
  destruct (connections c !! id) as [conn|] eqn:Econn; [|done]. injection H as H.
  pose proof Hinv as [H1 H2 H3 H4 H5 H6 H7 H8 H9]. assert (cn_ID conn = id) as Hid by (by apply (H7 id)).
  unfold startSlotLocked in H. rewrite Hid in H. destruct (clients c !! id) as [m|] eqn:Ecl.
  { by injection H as <- _ _. }
  injection H as <- _ _. set (s := mkSlot conn None Creating None false false 0 Idle None 0).
  assert (Hnew : ∀ m x, (slots c ++ [s]) !! m = Some x →
    slots c !! m = Some x ∨ m = length (slots c) ∧ x = s).
  { intros m x. rewrite lookup_app_Some, list_lookup_singleton_Some. intros [?|(? & ? & <-)]; [by left|right].
    split; [lia|done]. }
  assert (Hold : ∀ m x, slots c !! m = Some x → (slots c ++ [s]) !! m = Some x) by (intros; by apply lookup_app_l_Some).
  assert (Hlast : (slots c ++ [s]) !! length (slots c) = Some s) by (rewrite lookup_app_r, Nat.sub_diag; [done|lia]).
  assert (Hne : ∀ id' m x, clients c !! id' = Some m → slots c !! m = Some x → m ≠ length (slots c)).
  { intros id' m x _ Hx ->. apply lookup_lt_Some in Hx. lia. }
  split; cbn [slots held clients connections closed staged].
  - intros m x Hx. destruct (Hnew m x Hx) as [?|[_ ->]]; [eauto|]. split; done.
  - intros m x Hx. destruct (Hnew m x Hx) as [?|[-> ->]]; [eauto|]. simpl. symmetry. unfold holders.
    apply length_zero_iff_nil. destruct (filter _ (held c)) as [|e l] eqn:Ef; [done|].
    assert (e ∈ e :: l) as He by left. rewrite <- Ef in He. apply list_elem_of_filter in He as [He Hin].
    destruct (H3 e Hin) as [x Hx']. rewrite He in Hx'. apply lookup_lt_Some in Hx'. lia.
  - intros e He. destruct (H3 e He) as [x Hx']. eauto.
  - intros id' m. rewrite lookup_insert_Some. intros [[<- <-]|[_ Hc]].
    + exists s. split; [done|]. split; [done|]. done.
    + destruct (H4 id' m Hc) as (x & Hx & ? & ?). eauto.
  - intros m x Hx Ho. destruct (Hnew m x Hx) as [Hx'|[-> ->]].
    + pose proof (H5 m x Hx' Ho) as Hc. rewrite lookup_insert_ne; [done|]. congruence.
    + unfold slot_id, s. simpl. by rewrite Hid, lookup_insert_eq.
  - intros id' m x. rewrite lookup_insert_Some. intros [[<- <-]|[_ Hc]] Hx Hst.
    + rewrite Hlast in Hx. injection Hx as <-. exists conn. split; [done|]. apply same_config_refl.
    + destruct (Hnew m x Hx) as [Hx'|[-> ->]]; [eauto|]. destruct (H4 id' _ Hc) as (y & Hy & _).
      apply lookup_lt_Some in Hy. lia.
  - done.
  - congruence.
  - intros st Hst. destruct (H9 st Hst) as [S1 S2 S3 S4]. split; try done.
    intros id' m x Hin. cbn [clients slots]. rewrite lookup_insert_Some. intros [[<- <-]|[_ Hc]] Hx.
    + propify. destruct Hch. by apply S2.
    + destruct (Hnew m x Hx) as [Hx'|[-> ->]]; [eauto|]. destruct (H4 id' _ Hc) as (y & Hy & _).
      apply lookup_lt_Some in Hy. lia.
Qed.

Lemma inv_remove c n s : slots c !! n = Some s → sl_once s = Removing → inv c → inv (remove_slot c n).
Proof.
  intros Hs Ho Hinv. pose proof Hinv as [H1 H2 H3 H4 H5 H6 H7 H8 H9].
  unfold remove_slot. rewrite Hs. cbn [clients on_slot].
  assert (clients c !! slot_id s = Some n) as Hreg by (apply (H5 n s Hs); congruence).
  rewrite bool_decide_true by done.
  assert (Hl : ∀ m x, alter (set_once Finished) n (slots c) !! m = Some x → ∃ y, slots c !! m = Some y
    ∧ sl_connection x = sl_connection y ∧ sl_stopping x = sl_stopping y ∧ sl_users x = sl_users y ∧
    (m = n ∨ x = y)).
  { intros m x. rewrite alter_lookup. intros [[<- (y & Hy & ->)]|[_ Hy]]; eauto 10. }
  assert (Hother : ∀ id m, delete (slot_id s) (clients c) !! id = Some m → clients c !! id = Some m ∧ m ≠ n).
  { intros id m. rewrite lookup_delete_Some. intros [Hne Hc]. split; [done|]. intros ->.
    destruct (H4 id n Hc) as (y & Hy & Hid & _). congruence. }
  split; unfold with_clients, on_slot; cbn [slots held clients connections closed staged].
  - intros m x. rewrite alter_lookup. intros [[<- (y & Hy & ->)]|[_ Hy]]; [|eauto].
    assert (y = s) as -> by congruence. destruct (H1 _ _ Hs) as [A1 A2 A3 A4 A5 A6]. rewrite Ho in A1, A2, A3, A4.
    slot_cases.
  - intros m x Hx. destruct (Hl m x Hx) as (y & Hy & _ & _ & -> & _). eauto.
  - intros e He. apply alter_is_Some. eauto.
  - intros id m Hc. apply Hother in Hc as [Hc Hne]. destruct (H4 id m Hc) as (y & Hy & ? & ?). exists y.
    rewrite alter_lookup. split; [by right|done].
  - intros m x Hx Hnf. destruct (Hl m x Hx) as (y & Hy & E & _ & _ & [->| ->]).
    + rewrite alter_lookup in Hx. destruct Hx as [(_ & z & _ & ->)|[? _]]; done.
    + rewrite lookup_delete_ne; [by apply H5|]. intros Hid. pose proof (H5 m y Hy Hnf) as Hc.
      rewrite <- Hid in Hc. assert (m = n) as -> by congruence. assert (y = s) as -> by congruence.
      rewrite alter_lookup in Hx. destruct Hx as [(_ & z & Hz & Hx)|[? _]]; [|done]. by rewrite Hx in Hnf.
  - intros id m x Hc Hx Hst. apply Hother in Hc as [Hc Hne].
    destruct (Hl m x Hx) as (y & Hy & -> & E2 & _). apply (H6 id m y Hc Hy). congruence.
  - done.
  - intros Hcl m x Hx. destruct (Hl m x Hx) as (y & Hy & _ & -> & _). eauto.
  - intros st Hst. destruct (H9 st Hst) as [S1 S2 S3 S4]. split; try done.
    intros id m x Hin Hc Hx. apply Hother in Hc as [Hc Hne]. destruct (Hl m x Hx) as (y & Hy & _ & -> & _). eauto.
Qed.

(** Marking generations changes nothing else. *)
Lemma stop_all_frame ns c :
  let c' := stop_all ns c in
  closed c' = closed c ∧ connections c' = connections c ∧ clients c' = clients c ∧ held c' = held c
  ∧ staged c' = staged c ∧ changing c' = changing c ∧ length (slots c') = length (slots c) ∧ leasing c' = leasing c.
Proof.
  induction ns as [|n ns IH]; [done|]. simpl in *. destruct IH as (? & ? & ? & ? & ? & ? & ? & ?).
  rewrite length_alter. done.
Qed.

Lemma stop_all_stopping ns c m x : m ∈ ns → slots (stop_all ns c) !! m = Some x → sl_stopping x = true.
Proof.
  revert x. induction ns as [|n ns IH]; intros x Hm; [by apply elem_of_nil in Hm|]. simpl.
  rewrite alter_lookup. intros [[<- (y & _ & ->)]|[Hne Hx]]; [done|].
  apply elem_of_cons in Hm as [->|Hm]; [done|]. by apply IH.
Qed.

Lemma inv_close c : inv c → inv (close c).
Proof.
  intros Hinv. unfold close. set (ns := map snd (map_to_list (clients c))).
  destruct (stop_all_frame ns c) as (F1 & F2 & F3 & F4 & F5 & F6 & F7 & F8).
  pose proof (stop_all_stopping ns c) as Hmark.
  pose proof (inv_stop_all ns c Hinv) as [H1 H2 H3 H4 H5 H6 H7 H8 H9].
  split; cbn [slots held clients connections closed staged]; try done.
  - intros _ m x Hx. destruct (decide (sl_once x = Finished)) as [Hf|Hf].
    + destruct (H1 m x Hx) as [A1 _ _ _ _ _]. apply A1. congruence.
    + apply (Hmark m); [|done]. pose proof (H5 m x Hx Hf) as Hc. rewrite F3 in Hc.
      unfold ns. apply list_elem_of_In, in_map_iff. exists (slot_id x, m). split; [done|].
      by apply list_elem_of_In, elem_of_map_to_list.
  - intros st Hst. destruct (H9 st Hst) as [S1 S2 S3 S4]. by split.
Qed.

Lemma keyed_effective native over hidden current : keyed native → keyed over →
  keyed (inheritOverlayCredentials (effectiveInventory native over hidden) native current over).
Proof.
  intros Hn Ho id c Hc. unfold inheritOverlayCredentials in Hc. rewrite map_lookup_imap in Hc.
  apply bind_Some in Hc as (x & Hx & [= <-]).
  unfold effectiveInventory in Hx. apply lookup_union_Some_raw in Hx as [Hx|[Hx0 Hx]].
  - pose proof (Ho id x Hx) as Hid. rewrite Hx. cbn [mbind option_bind].
    destruct (inherit_one native current id x) as [y|] eqn:E; [|done].
    apply inherit_one_some in E as (_ & d & -> & _). done.
  - rewrite Hx0. cbn. apply map_lookup_filter_Some in Hx as [Hx _]. by apply Hn.
Qed.

Lemma keyed_preserved current effective : keyed effective → keyed (preserved current effective).
Proof.
  intros He id c Hc. unfold preserved in Hc. rewrite map_lookup_imap in Hc.
  apply bind_Some in Hc as (x & Hx & [= <-]). specialize (He id x Hx).
  destruct (current !! id); [|done]. by destruct (SameConnectionClientConfig _ _).
Qed.

Lemma not_changed current effective id p : id ∉ changed_ids current effective → current !! id = Some p →
  ∃ q, preserved current effective !! id = Some q ∧ SameConnectionClientConfig p q = true.
Proof.
  unfold changed_ids, preserved. rewrite elem_of_union. intros Hn Hp.
  assert (unchanged effective id p = true) as Hu.
  { destruct (unchanged effective id p) eqn:E; [done|]. destruct Hn. left. apply elem_of_dom.
    exists p. apply map_lookup_filter_Some. done. }
  unfold unchanged in Hu. destruct (effective !! id) as [x|] eqn:Ex; [|done].
  rewrite map_lookup_imap, Ex, Hp. cbn. rewrite Hu. eauto.
Qed.

Lemma inv_stage c native over hidden c' : staged c = None → keyed native → keyed over →
  stageInventory c native over hidden = Ok c' → inv c → inv c'.
Proof.
  intros Hst Hkn Hko H Hinv. unfold stageInventory in H. apply bind_guard_iff in H as [Hcl [= <-]].
  set (effective := inheritOverlayCredentials _ _ _ _). set (changed := changed_ids _ _).
  set (retired := omap _ _).
  destruct (stop_all_frame retired c) as (F1 & F2 & F3 & F4 & F5 & F6 & F7 & F8).
  pose proof (stop_all_stopping retired c) as Hmark.
  pose proof (inv_stop_all retired c Hinv) as [H1 H2 H3 H4 H5 H6 H7 H8 H9].
  split; cbn [slots held clients connections closed staged]; try done.
  intros st [= <-]. split; cbn [st_effective st_changed changing clients slots connections].
  - apply keyed_preserved, keyed_effective; done.
  - set_solver.
  - intros id m x Hid Hc Hx. apply (Hmark m); [|done]. rewrite F3 in Hc. unfold retired.
    apply list_elem_of_omap. exists id. split; [by apply elem_of_elements|done].
  - intros id p Hid Hp. rewrite F2 in Hp. by apply not_changed.
Qed.

Lemma inv_publish c st cancelled : staged c = Some st → inv c → inv (publish c st cancelled).1.
Proof.
  intros Hst [H1 H2 H3 H4 H5 H6 H7 H8 H9]. destruct (H9 st Hst) as [S1 S2 S3 S4].
  unfold publish. cbn zeta. cbn [fst]. 
  match goal with |- inv (mkController _ (if ?b then _ else _) _ _ _ _ _ _ _ _ _ _) => set (ok := b) end.
  split; cbn [slots held clients connections closed staged]; try done.
  - intros id n s Hc Hs Hns. destruct (H6 id n s Hc Hs Hns) as (p & Hp & Hsame). destruct ok; [|eauto].
    destruct (decide (id ∈ st_changed st)) as [Hin|Hin].
    + by rewrite (S3 id n s Hin Hc Hs) in Hns.
    + destruct (S4 id p Hin Hp) as (q & Hq & Hpq). exists q. split; [done|]. by eapply same_config_trans.
  - by destruct ok.
Qed.

Lemma inv_step c c' : step c c' → inv c → inv c'.
Proof.
  intros Hstep Hinv. destruct Hstep as
    [id n Hcl Hc|l1 id n l2 s c' Hl Hs Hr Ha|l1 id n l2 Hl|id n s c' Hs Hr He Ha|l1 id n l2 Hh|id c' n created Hp
    |n s Hs|n s k cancelled Hs Hr|n s Hs Hr|n s Hs|id| |n s Hs Ho Hst|n s Hs Ho Hr|n s Hs Ho Hu
    |n s OnStop Destroy Hs Ho|n s Hs Ho|native over hidden c' Hst Hkn Hko H|st cancelled Hst Hfin].
  - by apply inv_leasing.
  - apply inv_leasing. unfold lease_admit in Ha. rewrite Hs in Ha.
    destruct (_ || _ || _ || _) eqn:E in Ha; [done|]. injection Ha as <-. unfold has_err in E.
    apply orb_false_iff in E as [[[E1 E2]%orb_false_iff E3]%orb_false_iff E4].
    apply (inv_grant c id n s); try done. by destruct (sl_err s).
  - by apply inv_leasing.
  - unfold lease_held in Ha. rewrite Hs in Ha. destruct (_ && _ && _) eqn:E in Ha; [|done].
    injection Ha as <-. propify. by apply (inv_grant c id n s).
  - by eapply inv_lease_done.
  - by eapply inv_start.
  - by apply inv_set_cancelled.
  - eapply inv_start_return; try done. apply start_outcome_client.
  - by eapply inv_set_ready.
  - by apply inv_stop_mark.
  - unfold stop_connection. destruct (clients c !! id); [apply inv_stop_mark|]; by apply inv_with_failed.
  - by apply inv_close.
  - eapply inv_set_once; try done. by rewrite Ho.
  - destruct (inv_slots c Hinv n s Hs) as [A1 A2 A3 A4 A5 A6].
    eapply inv_set_once; try done; rewrite ?Ho; try done. apply A1. by rewrite Ho.
  - destruct (inv_slots c Hinv n s Hs) as [A1 A2 A3 A4 A5 A6].
    eapply inv_set_once; try done; rewrite ?Ho; try done; [apply A1; by rewrite Ho|]. intros _. apply A2. by rewrite Ho.
  - by eapply inv_teardown.
  - by eapply inv_remove.
  - exact (inv_stage c native over hidden c' Hst Hkn Hko H Hinv).
  - exact (inv_publish c st cancelled Hst Hinv).
Qed.

Lemma steps_inv c c' : rtc step c c' → inv c → inv c'.
Proof. induction 1; eauto using inv_step. Qed.

Lemma reachable_inv c : reachable c → inv c.
Proof. intros H. eapply steps_inv; [exact H|apply inv_initial]. Qed.

(** ** Safety *)

(** C1: While any lease of a generation is held, its client exists, its startup
    succeeded and its client has not been destroyed: whatever starts, stops,
    inventory changes or Close run concurrently, no leased work ever runs on a
    destroyed or missing client. *)
Theorem lease_protects_client c id n : reachable c → (id, n) ∈ held c →
  ∃ s h, slots c !! n = Some s ∧ sl_client s = Some h ∧ sl_stage s = Ready ∧ sl_err s = None ∧ sl_destroyed s = 0.
Proof.
  intros Hr Hh. destruct (reachable_inv c Hr) as [H1 H2 H3 H4 H5 H6 H7 H8 H9].
  destruct (H3 (id, n) Hh) as [s Hs]. cbn in Hs. pose proof (H2 n s Hs) as Hu.
  assert (sl_users s ≠ 0) as Hne.
  { rewrite Hu. unfold holders. intros Hz%length_zero_iff_nil.
    assert ((id, n) ∈ filter (λ e : string * nat, e.2 = n) (held c)) as Hin by (by apply list_elem_of_filter).
    rewrite Hz in Hin. by apply elem_of_nil in Hin. }
  destruct (H1 n s Hs) as [A1 A2 A3 A4 A5 A6]. destruct (A5 Hne) as [Hst He].
  destruct A6 as [h Hc]; [by rewrite Hst|done|]. exists s, h. split_and!; try done.
  rewrite A4. destruct (past_destroy (sl_once s)) eqn:E; [|done]. exfalso. apply Hne, A3.
  by destruct (sl_once s).
Qed.

(** C5: A generation's client is destroyed at most once, never before startup has
    finished or while a lease is held, and exactly once when teardown is over if
    startup produced a client, also one that came with an error. *)
Theorem client_destroyed_once c n s : reachable c → slots c !! n = Some s →
  sl_destroyed s ≤ 1
  ∧ (sl_destroyed s = 1 → is_Some (sl_client s) ∧ sl_stage s = Ready ∧ sl_stopping s = true ∧ holders n (held c) = 0)
  ∧ (sl_once s = Finished → (sl_destroyed s = 1 ↔ is_Some (sl_client s)) ∧ ∀ id, clients c !! id ≠ Some n).
Proof.
  intros Hr Hs. destruct (reachable_inv c Hr) as [H1 H2 H3 H4 H5 H6 H7 H8 H9].
  destruct (H1 n s Hs) as [A1 A2 A3 A4 A5 A6]. split_and!.
  - rewrite A4. destruct (_ && _); lia.
  - intros Hd. rewrite A4 in Hd. destruct (past_destroy (sl_once s)) eqn:E; [|done].
    destruct (sl_client s); [|done]. split_and!; [by eexists| | |].
    + apply A2. by destruct (sl_once s).
    + apply A1. by destruct (sl_once s).
    + rewrite <- (H2 n s Hs). apply A3. by destruct (sl_once s).
  - intros Hf. split.
    + rewrite A4, Hf. cbn. destruct (sl_client s); split; try done; first [by eexists|by intros []].
    + intros id Hc. destruct (H4 id n Hc) as (s' & Hs' & _ & Hne). congruence.
Qed.

(** A lease is only ever granted on the registry's generation for that ID, in
    an open controller, and that generation was started with a profile whose
    client configuration is the published one: a replaced configuration is never
    served by the old client. *)
Theorem lease_current_config c id n c' : reachable c → lease_admit c id n = Ok c' →
  closed c = false ∧ clients c !! id = Some n
  ∧ ∃ s p, slots c !! n = Some s ∧ slot_id s = id ∧ sl_err s = None
    ∧ connections c !! id = Some p ∧ SameConnectionClientConfig (sl_connection s) p = true.
Proof.
  intros Hr Ha. destruct (reachable_inv c Hr) as [H1 H2 H3 H4 H5 H6 H7 H8 H9].
  unfold lease_admit in Ha. destruct (slots c !! n) as [s|] eqn:Hs; [|done].
  destruct (_ || _ || _ || _) eqn:E in Ha; [done|]. unfold has_err in E.
  apply orb_false_iff in E as [[[E1 E2]%orb_false_iff E3]%orb_false_iff E4]. propify.
  destruct (H4 id n E4) as (s' & Hs' & Hid & _). assert (s' = s) as -> by congruence.
  destruct (H6 id n s E4 Hs E2) as (p & Hp & Hsame). split_and!; [done|done|].
  exists s, p. split_and!; try done. by destruct (sl_err s).
Qed.

(** ** Progress *)

Definition start_rank (s : start_stage) : nat := match s with Creating => 2 | Returned => 1 | Ready => 0 end.
Definition once_rank (o : once_stage) : nat :=
  match o with Idle => 5 | WaitReady => 4 | WaitUsers => 3 | TearingDown => 2 | Removing => 1 | Finished => 0 end.
(** What is left of a generation's life: its startup, its leases, its teardown. *)
Definition rank (s : clientSlot) : nat := start_rank (sl_stage s) + sl_users s + once_rank (sl_once s).

(** How a generation may change in one step. *)
Record evolves (s s' : clientSlot) : Prop := {
  ev_connection : sl_connection s' = sl_connection s;
  ev_start : start_rank (sl_stage s') ≤ start_rank (sl_stage s);
  ev_once : once_rank (sl_once s') ≤ once_rank (sl_once s);
  ev_stopping : sl_stopping s = true → sl_stopping s' = true;
  ev_users : sl_stopping s = true → sl_users s' ≤ sl_users s
}.
Lemma evolves_refl s : evolves s s.
Proof. by split. Qed.

Lemma alter_evolves n f (l : list clientSlot) m s : (∀ x, l !! n = Some x → evolves x (f x)) →
  l !! m = Some s → ∃ s', alter f n l !! m = Some s' ∧ evolves s s'.
Proof.
  intros Hf Hs. destruct (decide (n = m)) as [->|Hne].
  - exists (f s). rewrite list_lookup_alter_eq, Hs. split; [done|]. by apply Hf.
  - exists s. rewrite list_lookup_alter_ne by done. split; [done|apply evolves_refl].
Qed.

Lemma stop_all_evolves ns c m s : slots c !! m = Some s → ∃ s', slots (stop_all ns c) !! m = Some s' ∧ evolves s s'.
Proof.
  intros Hs. induction ns as [|n ns (s' & Hs' & He)]; [exists s; split; [done|apply evolves_refl]|]. simpl.
  destruct (alter_evolves n set_stopping _ m s' (λ x _, Build_evolves x (set_stopping x) eq_refl (le_n _) (le_n _) (λ _, eq_refl) (λ _, le_n _)) Hs')
    as (s'' & Hs'' & He'). exists s''. split; [done|]. destruct He, He'. split; auto; try congruence; try lia.
  intros Hst. etransitivity; auto.
Qed.

Ltac evolve := split; cbn [sl_connection sl_stage sl_once sl_stopping sl_users set_once set_ready set_cancelled
  set_stopping set_outcome set_users start_rank once_rank]; try done; try lia.

Lemma grant_evolves c id m n x s : slots c !! m = Some x → sl_stopping x = false → slots c !! n = Some s →
  ∃ s', slots (grant c id m) !! n = Some s' ∧ evolves s s'.
Proof.
  intros Hx Hst Hs. apply alter_evolves; [|done]. intros y Hy. evolve. intros Ht. simpl in Hy. congruence.
Qed.

(** Every step moves every generation forward. *)
Lemma step_evolves c c' n s : step c c' → inv c → slots c !! n = Some s →
  ∃ s', slots c' !! n = Some s' ∧ evolves s s'.
Proof.
  intros Hstep Hinv Hs. destruct Hstep as
    [id m Hcl Hc|l1 id m l2 x c' Hl Hx Hr Ha|l1 id m l2 Hl|id m x c' Hx Hr He Ha|l1 id m l2 Hh|id c' m created Hp
    |m x Hx|m x k cancelled Hx Hr|m x Hx Hr|m x Hx|id| |m x Hx Ho Hst|m x Hx Ho Hr|m x Hx Ho Hu
    |m x OnStop Destroy Hx Ho|m x Hx Ho|native over hidden c' Hst Hkn Hko H|st cancelled Hst Hfin].
  - exists s. split; [done|apply evolves_refl].
  - unfold lease_admit in Ha. rewrite Hx in Ha. destruct (_ || _ || _ || _) eqn:E in Ha; [done|]. injection Ha as <-.
    apply orb_false_iff in E as [[[E1 E2]%orb_false_iff E3]%orb_false_iff E4]. by eapply (grant_evolves c id m n x s).
  - exists s. split; [done|apply evolves_refl].
  - unfold lease_held in Ha. rewrite Hx in Ha. destruct (_ && _ && _) eqn:E in Ha; [|done]. injection Ha as <-.
    propify. by eapply (grant_evolves c id m n x s).
  - apply alter_evolves; [|done]. intros y Hy. evolve.
  - unfold start_publish in Hp. rewrite !bind_guard_iff in Hp. destruct Hp as (_ & _ & Hp).
    destruct (connections c !! id); [|done]. injection Hp as Hp. unfold startSlotLocked in Hp.
    destruct (clients c !! cn_ID _); injection Hp as <- _ _; exists s; (split; [|apply evolves_refl]); [done|].
    by apply lookup_app_l_Some.
  - apply alter_evolves; [|done]. intros y Hy. evolve.
  - unfold start_return. rewrite Hx. cbn zeta.
    match goal with |- context [on_slot ?y _ _] => assert (slots y = slots c) as Hy by (by case_match) end.
    cbn [slots on_slot]. rewrite Hy. apply alter_evolves; [|done]. intros y Hy'. evolve.
    assert (y = x) as -> by congruence. rewrite Hr. simpl. lia.
  - apply alter_evolves; [|done]. intros y Hy. evolve.
  - by apply (stop_all_evolves [m] c).
  - unfold stop_connection. destruct (clients c !! id) as [m|]; [by apply (stop_all_evolves [m] (with_failed c _))|].
    exists s. split; [done|apply evolves_refl].
  - by apply (stop_all_evolves _ c).
  - apply alter_evolves; [|done]. intros y Hy. assert (y = x) as -> by congruence. evolve. rewrite Ho. simpl. lia.
  - apply alter_evolves; [|done]. intros y Hy. assert (y = x) as -> by congruence. evolve. rewrite Ho. simpl. lia.
  - apply alter_evolves; [|done]. intros y Hy. assert (y = x) as -> by congruence. evolve. rewrite Ho. simpl. lia.
  - apply alter_evolves; [|done]. intros y Hy. assert (y = x) as -> by congruence.
    unfold teardown. destruct (sl_client x); evolve; rewrite Ho; simpl; lia.
  - unfold remove_slot. rewrite Hx. cbn [clients on_slot].
    assert (slots (if bool_decide (clients c !! slot_id x = Some m)
      then with_clients (on_slot c m (set_once Finished)) (delete (slot_id x) (clients c))
      else on_slot c m (set_once Finished)) = alter (set_once Finished) m (slots c)) as -> by (by case_match).
    apply alter_evolves; [|done]. intros y Hy. evolve.
  - unfold stageInventory in H. apply bind_guard_iff in H as [_ [= <-]]. by apply stop_all_evolves.
  - exists s. split; [done|apply evolves_refl].
Qed.

(** A step of the generation's own work: its startup, the release of one of its
    leases, or its teardown. *)
Lemma own_step c n s : inv c → slots c !! n = Some s → sl_stopping s = true → sl_once s ≠ Finished →
  ∃ c' s', step c c' ∧ slots c' !! n = Some s' ∧ rank s' < rank s.
Proof.
  intros Hinv Hs Hst Hf. destruct (inv_slots c Hinv n s Hs) as [A1 A2 A3 A4 A5 A6].
  assert (Hone : ∀ f, alter f n (slots c) !! n = Some (f s)) by (intros f; by rewrite list_lookup_alter_eq, Hs).
  unfold rank. destruct (sl_stage s) eqn:Eg.
  - eexists _, _. split; [by apply (Step_start_return c n s (mkStart None None) None)|].
    unfold start_return. rewrite Hs. cbn zeta. cbn [slots on_slot].
    match goal with |- context [if ?b then with_failed _ _ else _] => set (bb := b) end.
    assert (slots (if bb then with_failed c ({[slot_id s]} ∪ failedStarts c) else c) = slots c) as -> by (by destruct bb).
    split; [apply Hone|]. simpl. lia.
  - eexists _, _. split; [by apply (Step_start_ready c n s)|]. split; [apply Hone|]. simpl. lia.
  - destruct (sl_once s) eqn:Eo; try done.
    + eexists _, _. split; [by apply (Step_once_enter c n s)|]. split; [apply Hone|]. simpl. rewrite Eg. simpl. lia.
    + eexists _, _. split; [by apply (Step_once_ready c n s)|]. split; [apply Hone|]. simpl. rewrite Eg. simpl. lia.
    + destruct (decide (sl_users s = 0)) as [Hu|Hu].
      * eexists _, _. split; [by apply (Step_once_drained c n s)|]. split; [apply Hone|]. simpl. rewrite Eg. simpl. lia.
      * pose proof (inv_users c Hinv n s Hs) as Hh.
        destruct (filter (λ e : string * nat, e.2 = n) (held c)) as [|e l] eqn:Ef.
        { unfold holders in Hh. rewrite Ef in Hh. simpl in Hh. lia. }
        assert (e ∈ e :: l) as He by left. rewrite <- Ef in He. apply list_elem_of_filter in He as [He Hin].
        destruct e as [id m]. simpl in He. subst m. apply list_elem_of_split in Hin as (l1 & l2 & Hl).
        eexists _, _. split; [by apply (Step_lease_done c l1 id n l2)|]. split; [apply Hone|]. simpl. rewrite Eg, Eo. simpl. lia.
    + eexists _, _. split; [by apply (Step_once_teardown c n s None (Some None))|]. split; [apply Hone|].
      unfold teardown. destruct (sl_client s); simpl; rewrite Eg; simpl; lia.
    + eexists _, _. split; [by apply (Step_once_remove c n s)|]. unfold remove_slot. rewrite Hs. cbn [clients on_slot].
      case_bool_decide; (split; [apply Hone|]); simpl; rewrite Eg; simpl; lia.
Qed.

(** C38: A generation that is being stopped always drains: no step of anyone ever
    moves it away from the end of its life, and until its teardown is finished
    some step of its own work (startup returning, a lease being released, the
    next stage of teardown) is enabled and brings it strictly closer. *)
Theorem teardown_progress c n s : reachable c → slots c !! n = Some s → sl_stopping s = true →
  (∀ c', step c c' → ∃ s', slots c' !! n = Some s' ∧ sl_stopping s' = true ∧ rank s' ≤ rank s)
  ∧ (sl_once s ≠ Finished → ∃ c' s', step c c' ∧ slots c' !! n = Some s' ∧ rank s' < rank s).
Proof.
  intros Hr Hs Hst. pose proof (reachable_inv c Hr) as Hinv. split.
  - intros c' Hstep. destruct (step_evolves c c' n s Hstep Hinv Hs) as (s' & Hs' & [E1 E2 E3 E4 E5]).
    exists s'. split; [done|]. split; [auto|]. unfold rank. specialize (E5 Hst). lia.
  - intros Hf. by apply own_step.
Qed.

(** ** Close *)

Lemma closed_step c c' : step c c' → inv c → closed c = true →
  closed c' = true ∧ length (slots c') = length (slots c) ∧ length (held c') ≤ length (held c).
Proof.
  intros Hstep Hinv Hcl. pose proof (inv_closed c Hinv Hcl) as Hall. destruct Hstep as
    [id m Hcl' Hc|l1 id m l2 x c' Hl Hx Hr Ha|l1 id m l2 Hl|id m x c' Hx Hr He Ha|l1 id m l2 Hh|id c' m created Hp
    |m x Hx|m x k cancelled Hx Hr|m x Hx Hr|m x Hx|id| |m x Hx Ho Hst|m x Hx Ho Hr|m x Hx Ho Hu
    |m x OnStop Destroy Hx Ho|m x Hx Ho|native over hidden c' Hst Hkn Hko H|st cancelled Hst Hfin];
    cbn [closed slots held on_slot with_leases lease_done stop_mark]; rewrite ?length_alter; try done.
  - unfold lease_admit in Ha. by rewrite Hx, Hcl, !orb_true_r in Ha.
  - unfold lease_held in Ha. by rewrite Hx, (Hall m x Hx), andb_false_r in Ha.
  - rewrite Hh, !length_app. simpl. split_and!; [done|done|lia].
  - unfold start_publish in Hp. rewrite !bind_guard_iff, Hcl in Hp. by destruct Hp.
  - unfold start_return. rewrite Hx. cbn zeta. case_match; simpl; rewrite length_alter; done.
  - unfold stop_connection. destruct (clients c !! id); simpl; rewrite ?length_alter; done.
  - unfold close. cbn [closed slots held].
    destruct (stop_all_frame (map snd (map_to_list (clients c))) c) as (_ & _ & _ & -> & _ & _ & -> & _). done.
  - unfold remove_slot. rewrite Hx. case_match; simpl; rewrite length_alter; done.
  - unfold stageInventory in H. apply bind_guard_iff in H as [H _]. congruence.
Qed.

(** C39: Close is final: from then on the controller stays closed, no generation is
    ever started and no lease granted again; and once every generation has been
    torn down, no lease is held and every client that was ever created has been
    destroyed exactly once. *)
Theorem close_final c c' : reachable c → closed c = true → rtc step c c' →
  closed c' = true ∧ length (slots c') = length (slots c) ∧ length (held c') ≤ length (held c)
  ∧ (∀ id n, lease_admit c' id n = Err stopping_or_failed)
  ∧ (∀ id, start_publish c' id = Err provider_closed)
  ∧ ((∀ n s, slots c' !! n = Some s → sl_once s = Finished) →
     held c' = [] ∧ ∀ n s, slots c' !! n = Some s → (sl_destroyed s = 1 ↔ is_Some (sl_client s))).
Proof.
  intros Hr Hcl Hsteps.
  assert (Hfwd : closed c' = true ∧ length (slots c') = length (slots c) ∧ length (held c') ≤ length (held c)).
  { pose proof (reachable_inv c Hr) as Hinv. clear Hr. induction Hsteps as [x|x y z Hxy _ IH]; [done|].
    destruct (closed_step x y Hxy Hinv Hcl) as (H1 & H2 & H3).
    destruct IH as (? & ? & ?); [done|by eapply inv_step|]. split_and!; [done|lia|lia]. }
  destruct Hfwd as (Hc & Hl & Hh). split_and!; try done.
  - intros id n. unfold lease_admit. destruct (slots c' !! n); [|done]. by rewrite Hc, !orb_true_r.
  - intros id. unfold start_publish. by rewrite Hc.
  - intros Hall. assert (reachable c') as Hr' by (unfold reachable in *; by etrans).
    destruct (reachable_inv c' Hr') as [H1 H2 H3 H4 H5 H6 H7 H8 H9]. split.
    + destruct (held c') as [|e l] eqn:Eh; [done|]. exfalso.
      destruct (H3 e ltac:(left)) as [s Hs]. pose proof (H2 _ s Hs) as Hu.
      destruct (H1 _ s Hs) as [_ _ A3 _ _ _]. rewrite A3 in Hu by (by rewrite (Hall _ s Hs)).
      destruct e as [id n]. rewrite holders_cons, decide_True in Hu by done. lia.
    + intros n s Hs. destruct (H1 n s Hs) as [_ _ _ A4 _ _]. rewrite A4, (Hall n s Hs). cbn.
      destruct (sl_client s); split; try done; first [by eexists|by intros []].
Qed.

(** ** A run: discover, start, lease *)

Definition sample_connection : Connection :=
  mkConnection (mkNativeTime zero_time 1) (Some [("endpoint", MString "https://a")]) None None None
    "c1" "u1" "one" "" "" 0 None.
Definition or_initial (r : result Controller) : Controller := match r with Ok c => c | Err _ => NewController end.

Definition run_staged : Controller := or_initial (stageInventory NewController (<["c1" := sample_connection]> ∅) ∅ ∅).
Definition run_loaded : Controller :=
  match staged run_staged with Some st => (publish run_staged st None).1 | None => NewController end.
Definition run_started : Controller :=
  match start_publish run_loaded "c1" with Ok (c, _, _) => c | Err _ => NewController end.
Definition run_callbacks : start_callbacks := mkStart (Some (Some 7, None)) None.
Definition run_returned : Controller :=
  start_return run_started 0 (start_outcome run_callbacks None).1 (start_outcome run_callbacks None).2.
Definition run_ready : Controller := on_slot run_returned 0 set_ready.
Definition run_leasing : Controller := with_leases run_ready [("c1", 0)] [].
Definition run_leased : Controller := with_leases (grant run_leasing "c1" 0) [] [("c1", 0)].

Lemma keyed_empty : keyed ∅.
Proof. apply map_Forall_empty. Qed.
Lemma keyed_singleton c : keyed (<[cn_ID c := c]> ∅).
Proof. apply map_Forall_insert; [done|]. split; [done|apply map_Forall_empty]. Qed.

Lemma run_loaded_reachable : reachable run_loaded.
Proof.
  eapply rtc_l; [eapply (Step_stage NewController (<["c1" := sample_connection]> ∅) ∅ ∅ run_staged);
    [done|apply (keyed_singleton sample_connection)|apply keyed_empty|vm_compute; reflexivity]|].
  apply rtc_once. unfold run_loaded. destruct (staged run_staged) as [st|] eqn:E; [|by vm_compute in E].
  apply (Step_publish run_staged st None E). vm_compute in E. injection E as <-. simpl.
  intros n Hn. by apply elem_of_nil in Hn.
Qed.

Lemma run_leasing_reachable : reachable run_leasing.
Proof.
  unfold reachable. etransitivity; [apply run_loaded_reachable|].
  eapply rtc_l; [apply (Step_start run_loaded "c1" run_started 0 true); vm_compute; reflexivity|].
  eapply rtc_l.
  { destruct (slots run_started !! 0) as [s|] eqn:E; [|by vm_compute in E].
    apply (Step_start_return run_started 0 s run_callbacks None E). vm_compute in E. by injection E as <-. }
  change (start_return run_started 0 _ _) with run_returned.
  eapply rtc_l.
  { destruct (slots run_returned !! 0) as [s|] eqn:E; [|by vm_compute in E].
    apply (Step_start_ready run_returned 0 s E). vm_compute in E. by injection E as <-. }
  change (on_slot run_returned 0 set_ready) with run_ready.
  apply rtc_once. apply (Step_lease_check run_ready "c1" 0); vm_compute; reflexivity.
Qed.

Lemma run_leased_reachable : reachable run_leased.
Proof.
  unfold reachable. etransitivity; [apply run_leasing_reachable|]. apply rtc_once.
  destruct (slots run_leasing !! 0) as [s|] eqn:E; [|by vm_compute in E].
  apply (Step_lease_admit run_leasing [] "c1" 0 [] s (grant run_leasing "c1" 0) eq_refl E).
  - vm_compute in E. by injection E as <-.
  - vm_compute. reflexivity.
Qed.

Lemma lease_protects_client_witness : ∃ s h, slots run_leased !! 0 = Some s ∧ sl_client s = Some h
  ∧ sl_stage s = Ready ∧ sl_err s = None ∧ sl_destroyed s = 0.
Proof. apply (lease_protects_client run_leased "c1" 0); [apply run_leased_reachable|]. left. Defined.

Definition run_slot : clientSlot := mkSlot sample_connection (Some 7) Ready None false false 1 Idle None 0.
Lemma client_destroyed_once_witness : sl_destroyed run_slot ≤ 1.
Proof.
  apply (client_destroyed_once run_leased 0 run_slot); [apply run_leased_reachable|vm_compute; reflexivity].
Defined.

Lemma lease_current_config_witness : clients run_leasing !! "c1" = Some 0.
Proof.
  apply (lease_current_config run_leasing "c1" 0 (grant run_leasing "c1" 0));
    [apply run_leasing_reachable|vm_compute; reflexivity].
Defined.

Definition run_stopping : Controller := stop_mark run_leased 0.
Lemma run_stopping_reachable : reachable run_stopping.
Proof.
  eapply rtc_r; [apply run_leased_reachable|].
  apply (Step_stop_mark run_leased 0 run_slot). vm_compute. reflexivity.
Qed.
Lemma teardown_progress_witness :
  ∃ c' s', step run_stopping c' ∧ slots c' !! 0 = Some s' ∧ rank s' < rank (set_stopping run_slot).
Proof.
  apply (teardown_progress run_stopping 0 (set_stopping run_slot));
    [apply run_stopping_reachable|vm_compute; reflexivity|reflexivity|discriminate].
Defined.

Lemma run_closed_reachable : reachable (close run_leased).
Proof. eapply rtc_r; [apply run_leased_reachable|apply Step_close]. Qed.
Lemma close_final_witness : length (held (close run_leased)) ≤ 1 ∧ start_publish (close run_leased) "c1" = Err provider_closed.
Proof.
  destruct (close_final (close run_leased) (close run_leased) run_closed_reachable eq_refl (rtc_refl _ _))
    as (_ & _ & H1 & _ & H2 & _). split; [exact H1|apply H2].
Defined.
