(* ===== verification/Source.v ===== *)
(** * Source sessions (pkg/resource/v2/source.go, source_document.go,
    source_phase.go, the validators of adapters_source.go)

    The frames of a source session, the rules each payload obeys, and
    [SourcePhaseTracker], the state machine that admits them one by one. *)
From S2P Require Import Prelude GoStd GoTime GoJson Errors Values Json TaggedJson Budget Domain Validation Scopes Admission.
Local Open Scope Z_scope.

(** ** Data *)

Definition SourceModeSnapshot := "snapshot".
Definition SourceModeSnapshotAndUpdates := "snapshotAndUpdates".
Definition SourceAcquisitionEnumerate := "enumerate".
Definition SourceAcquisitionNativeQuery := "nativeQuery".
Definition EnumerationExhausted := "exhausted".
Definition EnumerationPartial := "partial".
Definition EnumerationUnknown := "unknown".
Definition ConsistencyPointInTime := "pointInTime".
Definition ConsistencyBestEffort := "bestEffort".
Definition ConsistencyUnknown := "unknown".
Definition ContinuityNotApplicable := "notApplicable".
Definition SourceResetContinuityLost := "continuityLost".
Definition SourceResetOverflow := "overflow".
Definition SourceResetBindingChanged := "bindingChanged".
Definition SourceResetSourceInvalidated := "sourceInvalidated".
Definition SourceChangeUpsert := "upsert".
Definition SourceChangeRemove := "remove".
Definition MaxSourceBatchItems : Z := 256.
Definition MinSourceFrameBytes : Z := 1.
Definition MaxSourceFrameBytes : Z := 4 * 2 ^ 20.
Definition MaxSourceTokenBytes : Z := 128.
Definition MaxSourceLimitations : nat := 256.
Definition MaxSourceMessageBytes : Z := 1024.

(** A [time.Time] in its own location: the budget looks at its local year. *)
Record NativeTime := mkNativeTime { nt_LocalYear : Z; nt_UTC : Time }.
Record ResourceMetadata := mkResourceMetadata {
  md_Labels : option (list (string * string)); md_CreatedAt : option NativeTime
}.
Record SourceLimits := mkSourceLimits { MaxFrameBytes : Z; MaxBatchItems : Z }.
Record SourceAcquisition := mkAcquisition { aq_Kind : string; aq_Language : string; aq_Query : option Value }.
Record RepresentationBinding := mkBinding { b_Representation : Representation }.
Record RepresentationRef := mkRepresentationRef {
  ref_ID : string; ref_Revision : string; ref_SchemaRevision : option string
}.
#[export] Instance RepresentationRef_eq_dec : EqDecision RepresentationRef.
Proof. solve_decision. Defined.
Record FieldPathSegment := mkSegment { seg_Member : option string; seg_Index : option Z }.
Record DocumentFieldPath := mkPath { Segments : list FieldPathSegment }.
Record DocumentCoverage := mkDocumentCoverage { KnownAbsent : list DocumentFieldPath }.
Record SourceRecord := mkSourceRecord {
  sr_Reference : ResourceReference; sr_Body : Value; sr_Representation : RepresentationRef;
  sr_Coverage : Coverage; sr_SourceRevision : option string
}.
Record SourceOpenRequest := mkSourceOpen {
  so_SessionID : string; so_Generation : string; so_Target : ReadTarget; so_Mode : string;
  so_Acquisition : SourceAcquisition; so_Limits : SourceLimits; so_Binding : RepresentationBinding
}.
Record SourceCoverage := mkSourceCoverage {
  sc_Enumeration : string; sc_Consistency : string; sc_Limitations : list string
}.
Record SourceObservation := mkObservation {
  ob_Record : SourceRecord; ob_Metadata : option ResourceMetadata; ob_DisplayName : option string;
  ob_DocumentCoverage : DocumentCoverage
}.
Record SourceChange := mkChange {
  ch_Kind : string; ch_Observation : option SourceObservation; ch_Reference : option ResourceReference;
  ch_SourceRevision : option string
}.
Record SourceBegin := mkBegin { bg_Mode : string }.
Record SourceSnapshot := mkSnapshot { Observations : list SourceObservation }.
Record SourceSnapshotEnd := mkSnapshotEnd { se_Coverage : SourceCoverage; se_Continuity : string }.
Record SourceChanges := mkChanges { Changes : list SourceChange; ch_Coverage : option SourceCoverage }.
Record SourceReset := mkReset { rs_Reason : string; rs_Message : string }.
Record SourceFailure := mkFailure { fl_Code : string; fl_Message : string }.
Record SourceFrame := mkFrame {
  f_SessionID : string; f_Generation : string; Sequence : Z;
  f_Begin : option SourceBegin; f_Snapshot : option SourceSnapshot;
  f_SnapshotEnd : option SourceSnapshotEnd; f_Changes : option SourceChanges;
  f_Reset : option SourceReset; f_Failed : option SourceFailure
}.

(** [CompactSourceRecord]: the record without its per-record schema. *)
Definition representation_ref (rp : Representation) : RepresentationRef :=
  mkRepresentationRef (rp_ID rp) (rp_Revision rp) (sb_Revision (rp_Schema rp)).
Definition CompactSourceRecord (r : ResourceRecord) : SourceRecord :=
  mkSourceRecord (rec_Reference r) (rec_Body r) (representation_ref (rec_Representation r))
    (rec_Coverage r) (rec_SourceRevision r).

(** *** Reflected views; [Sequence] is tagged ["-"] and skipped. *)

#[export] Instance reflect_NativeTime : Reflect NativeTime := λ t,
  RTime (nt_LocalYear t) (utc_year (nt_UTC t)).
#[export] Instance reflect_ResourceMetadata : Reflect ResourceMetadata := λ v,
  RStruct [(true, reflect_map (listOf (md_Labels v))); omitted (md_CreatedAt v)].
#[export] Instance reflect_RepresentationRef : Reflect RepresentationRef := λ v,
  RStruct [field (ref_ID v); field (ref_Revision v); omitted (ref_SchemaRevision v)].
#[export] Instance reflect_FieldPathSegment : Reflect FieldPathSegment := λ v,
  RStruct [omitted (seg_Member v);
           (true, match seg_Index v with Some n => RRef (reflect_uint n) | None => RNil end)].
#[export] Instance reflect_DocumentFieldPath : Reflect DocumentFieldPath := λ v, RStruct [field (Segments v)].
#[export] Instance reflect_DocumentCoverage : Reflect DocumentCoverage := λ v, RStruct [field (KnownAbsent v)].
#[export] Instance reflect_SourceRecord : Reflect SourceRecord := λ v,
  RStruct [field (sr_Reference v); field (sr_Body v); field (sr_Representation v); field (sr_Coverage v);
           omitted (sr_SourceRevision v)].
#[export] Instance reflect_SourceCoverage : Reflect SourceCoverage := λ v,
  RStruct [field (sc_Enumeration v); field (sc_Consistency v); field (sc_Limitations v)].
#[export] Instance reflect_SourceObservation : Reflect SourceObservation := λ v,
  RStruct [field (ob_Record v); omitted (ob_Metadata v); omitted (ob_DisplayName v);
           field (ob_DocumentCoverage v)].
#[export] Instance reflect_SourceChange : Reflect SourceChange := λ v,
  RStruct [field (ch_Kind v); omitted (ch_Observation v); omitted (ch_Reference v); omitted (ch_SourceRevision v)].
#[export] Instance reflect_SourceBegin : Reflect SourceBegin := λ v, RStruct [field (bg_Mode v)].
#[export] Instance reflect_SourceSnapshot : Reflect SourceSnapshot := λ v, RStruct [field (Observations v)].
#[export] Instance reflect_SourceSnapshotEnd : Reflect SourceSnapshotEnd := λ v,
  RStruct [field (se_Coverage v); field (se_Continuity v)].
#[export] Instance reflect_SourceChanges : Reflect SourceChanges := λ v,
  RStruct [field (Changes v); omitted (ch_Coverage v)].
#[export] Instance reflect_SourceReset : Reflect SourceReset := λ v,
  RStruct [field (rs_Reason v); field (rs_Message v)].
#[export] Instance reflect_SourceFailure : Reflect SourceFailure := λ v,
  RStruct [field (fl_Code v); field (fl_Message v)].
#[export] Instance reflect_SourceFrame : Reflect SourceFrame := λ v,
  RStruct [field (f_SessionID v); field (f_Generation v); omitted (f_Begin v); omitted (f_Snapshot v);
           omitted (f_SnapshotEnd v); omitted (f_Changes v); omitted (f_Reset v); omitted (f_Failed v)].

(** ** Document coverage *)

(** [uint64(i) < uint64(len(l))] and [l[i]]. *)
Definition list_at (l : list Value) (i : Z) : option Value :=
  if i <? Z.of_nat (length l) then l !! Z.to_nat i else None.

(** One segment on [current] and [present]. *)
Definition path_step (current : Value) (present : bool) (s : FieldPathSegment) : outcome (Value * bool) :=
  match seg_Member s, seg_Index s with
  | Some name, None =>
    otext name false ;;
    if present && bool_decide (vKind current = valueKindMap) then
      match map_get name (listOf (vMap current)) with
      | Some v => Some (Ok (v, true))
      | None => Some (Ok (tagged_zero "", false))
      end
    else Some (Ok (current, false))
  | None, Some i =>
    if present && bool_decide (vKind current = valueKindList) then
      match list_at (listOf (vList current)) i with
      | Some v => Some (Ok (v, true))
      | None => Some (Ok (current, false))
      end
    else Some (Ok (current, false))
  | _, _ => fails (invalid "invalid field path segment")
  end.
Fixpoint path_present (current : Value) (present : bool) (segments : list FieldPathSegment) : outcome bool :=
  match segments with
  | [] => Some (Ok present)
  | s :: segments => '(current, present) ← path_step current present s; path_present current present segments
  end.

(** [json.Marshal(path)]: members in field order, nil pointers omitted. *)
Definition segment_json (s : FieldPathSegment) : bytes :=
  let member := match seg_Member s with Some n => [quoted "member" ++ ":"%char :: quoted n] | None => [] end in
  let index := match seg_Index s with Some i => [quoted "index" ++ ":"%char :: format_digits i] | None => [] end in
  "{"%char :: commas (member ++ index) ++ ["}"%char].
Definition path_json (p : DocumentFieldPath) : string :=
  string_of ("{"%char :: quoted "segments" ++ ":"%char :: "["%char
             :: commas (map segment_json (Segments p)) ++ ["]"; "}"]%char).

Definition validateKnownAbsent (body : Value) (p : DocumentFieldPath) : outcome unit :=
  require (negb ((length (Segments p) =? 0)%nat || (256 <? Z.of_nat (length (Segments p)))))
    (invalid "invalid known absent path") ;;
  present ← path_present body true (Segments p);
  require (negb present) (invalid "known absent path is present").

Definition validateDocumentCoverage (c : DocumentCoverage) (body : Value) : outcome unit :=
  require (negb (256 <? Z.of_nat (length (KnownAbsent c)))) (limited "known absent path limit") ;;
  each_distinct path_json (invalid "duplicate known absent path") (validateKnownAbsent body) ret_ok []
    (KnownAbsent c).

(** ** Payload validators *)

Section source.
Context `{Protowire}.

Definition validateSourceRecord (r : SourceRecord) : outcome unit :=
  validateReference (sr_Reference r) ;;
  require (bool_decide (vKind (sr_Body r) = valueKindMap)) (invalid "resource body root must be map") ;;
  validate_value (sr_Body r) ;;
  otext (ref_ID (sr_Representation r)) true ;;
  otext (ref_Revision (sr_Representation r)) true ;;
  otoken (ref_SchemaRevision (sr_Representation r)) ;;
  require (negb (256 <? Z.of_nat (length (cv_Paths (sr_Coverage r))))) (limited "coverage path limit") ;;
  validateCoverage (sr_Coverage r) ;;
  otoken (sr_SourceRevision r).

Definition validateMetadata (v : ResourceMetadata) : outcome unit := admission v.

Definition validateSourceObservationAdapter (v : SourceObservation) : outcome unit :=
  validateSourceRecord (ob_Record v) ;;
  validateDocumentCoverage (ob_DocumentCoverage v) (sr_Body (ob_Record v)) ;;
  match ob_Metadata v with Some md => validateMetadata md | None => Some (Ok tt) end ;;
  match ob_DisplayName v with Some s => otext s false | None => Some (Ok tt) end.

Definition is_none {A} (o : option A) : bool := match o with None => true | Some _ => false end.

Definition validateSourceChangeAdapter (v : SourceChange) : outcome unit :=
  if bool_decide (ch_Kind v = SourceChangeUpsert) then
    match ch_Observation v with
    | Some o =>
      require (is_none (ch_Reference v) && is_none (ch_SourceRevision v)) (invalid "invalid source upsert") ;;
      validateSourceObservationAdapter o
    | None => fails (invalid "invalid source upsert")
    end
  else if bool_decide (ch_Kind v = SourceChangeRemove) then
    match ch_Reference v with
    | Some r =>
      require (is_none (ch_Observation v)) (invalid "invalid source remove") ;;
      validateReference r ;;
      otoken (ch_SourceRevision v)
    | None => fails (invalid "invalid source remove")
    end
  else fails (invalid "invalid source change").

Definition known_enumeration (s : string) : bool :=
  bool_decide (s ∈ [EnumerationExhausted; EnumerationPartial; EnumerationUnknown]).
Definition known_consistency (s : string) : bool :=
  bool_decide (s ∈ [ConsistencyPointInTime; ConsistencyBestEffort; ConsistencyUnknown]).
Definition known_reset_reason (s : string) : bool :=
  bool_decide (s ∈ [SourceResetContinuityLost; SourceResetOverflow; SourceResetBindingChanged;
                    SourceResetSourceInvalidated]).
Definition known_mode (s : string) : bool :=
  bool_decide (s = SourceModeSnapshot) || bool_decide (s = SourceModeSnapshotAndUpdates).

Definition validateSourceCoverageAdapter (v : SourceCoverage) : outcome unit :=
  require (known_enumeration (sc_Enumeration v)) (invalid "invalid source enumeration") ;;
  require (known_consistency (sc_Consistency v)) (invalid "invalid source consistency") ;;
  require (length (sc_Limitations v) <=? MaxSourceLimitations)%nat (limited "source limitations limit") ;;
  each (λ s, require (slen s <=? 64 * 2 ^ 10) (limited "source limitation length") ;; otext s true)
    (sc_Limitations v).

Definition validateSourceBeginAdapter (v : SourceBegin) : outcome unit :=
  require (known_mode (bg_Mode v)) (invalid "invalid source mode").
Definition validateSourceSnapshotAdapter (v : SourceSnapshot) : outcome unit :=
  require (Z.of_nat (length (Observations v)) <=? MaxSourceBatchItems) (limited "source batch limit") ;;
  each validateSourceObservationAdapter (Observations v).
Definition validateSourceSnapshotEndAdapter (v : SourceSnapshotEnd) : outcome unit :=
  validateSourceCoverageAdapter (se_Coverage v) ;;
  require (bool_decide (se_Continuity v ∈ [ContinuityNotApplicable; ContinuityGapFree; ContinuityBestEffort]))
    (invalid "invalid source continuity").
Definition validateSourceChangesAdapter (v : SourceChanges) : outcome unit :=
  require (Z.of_nat (length (Changes v)) <=? MaxSourceBatchItems) (limited "source batch limit") ;;
  require (negb ((length (Changes v) =? 0)%nat && is_none (ch_Coverage v)))
    (invalid "source changes contain no information") ;;
  each validateSourceChangeAdapter (Changes v) ;;
  match ch_Coverage v with Some c => validateSourceCoverageAdapter c | None => Some (Ok tt) end.
Definition validateSourceResetAdapter (v : SourceReset) : outcome unit :=
  require (known_reset_reason (rs_Reason v)) (invalid "invalid source reset reason") ;;
  require (slen (rs_Message v) <=? MaxSourceMessageBytes) (limited "source message limit") ;;
  otext (rs_Message v) false.
Definition validateSourceFailureAdapter (v : SourceFailure) : outcome unit :=
  require (IsErrorCode (fl_Code v)) (invalid "invalid source failure code") ;;
  require (slen (fl_Message v) <=? MaxSourceMessageBytes) (limited "source message limit") ;;
  otext (fl_Message v) false.

(** The payloads of a frame that are present. *)
Definition present (f : SourceFrame) : list bool :=
  [negb (is_none (f_Begin f)); negb (is_none (f_Snapshot f)); negb (is_none (f_SnapshotEnd f));
   negb (is_none (f_Changes f)); negb (is_none (f_Reset f)); negb (is_none (f_Failed f))].
Definition payload_count (f : SourceFrame) : nat := length (filter (λ b, b = true) (present f)).

Definition when_present {A} (check : A → outcome unit) (o : option A) : outcome unit :=
  match o with Some a => check a | None => Some (Ok tt) end.
Definition validateSourceFrameAdapter (f : SourceFrame) : outcome unit :=
  when_present validateSourceBeginAdapter (f_Begin f) ;;
  when_present validateSourceSnapshotAdapter (f_Snapshot f) ;;
  when_present validateSourceSnapshotEndAdapter (f_SnapshotEnd f) ;;
  when_present validateSourceChangesAdapter (f_Changes f) ;;
  when_present validateSourceResetAdapter (f_Reset f) ;;
  when_present validateSourceFailureAdapter (f_Failed f) ;;
  require (payload_count f =? 1)%nat (invalid "source frame requires one payload").

(** ** Opening a session *)

Definition token_byte (c : ascii) : bool :=
  byte_in 97 122 c || byte_in 65 90 c || byte_in 48 57 c
  || Ascii.eqb c "." || Ascii.eqb c "_" || Ascii.eqb c ":" || Ascii.eqb c "-".
Definition sourceToken (s : string) : bool :=
  negb ((slen s =? 0) || (MaxSourceTokenBytes <? slen s)) && forallb token_byte (bytes_of s).

Definition validateSourceLimits (v : SourceLimits) : outcome unit :=
  require (negb ((MaxFrameBytes v <? MinSourceFrameBytes) || (MaxSourceFrameBytes <? MaxFrameBytes v)
                 || (MaxBatchItems v =? 0) || (MaxSourceBatchItems <? MaxBatchItems v)))
    (invalid "invalid source limits").

Definition open_acquisition (r : SourceOpenRequest) : outcome unit :=
  let a := so_Acquisition r in
  if bool_decide (aq_Kind a = SourceAcquisitionEnumerate) then
    require (bool_decide (aq_Language a = "") && is_none (aq_Query a)) (invalid "invalid enumerate acquisition")
  else if bool_decide (aq_Kind a = SourceAcquisitionNativeQuery) then
    require (negb (bool_decide (so_Mode r = SourceModeSnapshotAndUpdates)))
      (unsupported "native query updates are unsupported") ;;
    otext (aq_Language a) true ;;
    match aq_Query a with
    | None => fails (invalid "native query is required")
    | Some q => validate_value q
    end
  else fails (invalid "invalid source acquisition").

Definition scope_wire_size (scope : list ScopeConstraint) : option Z :=
  add_sizes (λ c,
    selection ← add_sizes (λ v, messageFieldSize (slen v)) (default [] (c_Values c)) 0;
    total [stringFieldSize (c_Dimension c); messageFieldSize selection] ≫= messageFieldSize) scope 0.
Definition sourceOpenWireSize (r : SourceOpenRequest) : option Z :=
  let t := so_Target r in
  let a := so_Acquisition r in
  let rp := b_Representation (so_Binding r) in
  scope ← scope_wire_size (listOf (rt_Scope t));
  target ← total [stringFieldSize (Connection (rt_Route t)) ≫= messageFieldSize;
                  stringFieldSize (rt_Provider t); stringFieldSize (rt_Authority t);
                  stringFieldSize (rt_Type t); messageFieldSize scope; stringFieldSize (rt_Representation t)];
  acquisition ←
    (if bool_decide (aq_Kind a = SourceAcquisitionNativeQuery) then
       q ← aq_Query a;
       total [stringFieldSize (aq_Language a); valueWireSize q ≫= messageFieldSize] ≫= messageFieldSize
     else messageFieldSize 0);
  binding ← total [stringFieldSize (rp_ID rp); stringFieldSize (rp_Revision rp);
                   schemaWireSize (rp_Schema rp) ≫= messageFieldSize] ≫= messageFieldSize;
  let limits := 1 + SizeVarint (MaxFrameBytes (so_Limits r)) + 1 + SizeVarint (MaxBatchItems (so_Limits r)) in
  total [Some 2; stringFieldSize (so_SessionID r); stringFieldSize (so_Generation r); messageFieldSize target;
         stringFieldSize (so_Mode r); messageFieldSize acquisition; messageFieldSize limits;
         messageFieldSize binding].

Definition MaxSourceOpenBytes : Z := 256 * 2 ^ 10.
Definition ValidateSourceOpenRequest (r : SourceOpenRequest) : outcome unit :=
  let rp := b_Representation (so_Binding r) in
  require (negb (MaxSourceOpenBytes <? blen (default [] (sb_Document (rp_Schema rp)))))
    (limited "source open exceeds byte limit") ;;
  require (sourceToken (so_SessionID r) && sourceToken (so_Generation r)) (invalid "invalid source token") ;;
  validateTarget (so_Target r) ;;
  validateRepresentation rp ;;
  require (bool_decide (rp_ID rp = rt_Representation (so_Target r)))
    (invalid "source binding differs from target") ;;
  validateSourceLimits (so_Limits r) ;;
  require (known_mode (so_Mode r)) (invalid "invalid source mode") ;;
  open_acquisition r ;;
  size ← no_error (sourceOpenWireSize r);
  require (negb (MaxSourceOpenBytes <? size)) (limited "source open exceeds byte limit").

(** ** Binding a payload to the session *)

Definition sourceContainsReference (target : ReadTarget) (r : ResourceReference) : bool :=
  let a := r_Address r in
  bool_decide (rt_Provider target = a_Provider a) && bool_decide (rt_Authority target = a_Authority a)
  && bool_decide (rt_Type target = a_Type a) && identityWithinQueryScope a (rt_Scope target).

Definition provider_error (detail : string) : error := NewError "PROVIDER_ERROR" detail.
Definition reset_required (detail : string) : error := NewError "RESET_REQUIRED" detail.
Definition source_closed : error := NewError "CANCELLED" "source stream closed".

(** [if err := m; err != nil { return e }] *)
Definition or_else (m : outcome unit) (e : error) : outcome unit :=
  match m with Some (Err _) => fails e | _ => m end.

Definition ValidateSourceObservation (target : ReadTarget) (representation : string) (o : SourceObservation)
    : outcome unit :=
  validateSourceObservationAdapter o ;;
  require (bool_decide (ref_ID (sr_Representation (ob_Record o)) = representation)
           && bool_decide (representation = rt_Representation target)
           && sourceContainsReference target (sr_Reference (ob_Record o)))
    (provider_error "source observation escapes target").

Definition checkSourceObservation (descriptor : ResourceType) (target : ReadTarget) (o : SourceObservation)
    : outcome unit :=
  ValidateSourceObservation target (rt_Representation target) o ;;
  or_else (ValidateAddress (r_Address (sr_Reference (ob_Record o))) (Some (IdentityDimensions descriptor)))
    (provider_error "invalid source observation").

Definition checkSourceReference (descriptor : ResourceType) (target : ReadTarget) (r : ResourceReference)
    : outcome unit :=
  or_else (validateReference r) (provider_error "invalid source removal") ;;
  or_else (ValidateAddress (r_Address r) (Some (IdentityDimensions descriptor)))
    (provider_error "invalid source removal") ;;
  require (sourceContainsReference target r) (provider_error "source removal escapes target").

Definition sourceCoverageValid (c : SourceCoverage) : bool :=
  known_enumeration (sc_Enumeration c) && known_consistency (sc_Consistency c)
  && (length (sc_Limitations c) <=? MaxSourceLimitations)%nat
  && forallb (λ s, negb ((slen s =? 0) || (64 * 2 ^ 10 <? slen s) || negb (utf8_valid_string s)))
       (sc_Limitations c).

(** ** The tracker *)

Inductive phase := Opening | InSnapshot | Following | Terminal.
#[export] Instance phase_eq_dec : EqDecision phase.
Proof. solve_decision. Defined.

Record SourcePhaseTracker := mkTracker {
  tk_request : SourceOpenRequest; tk_descriptor : option ResourceType; declaredContinuity : string;
  tk_sequence : Z; tk_phase : phase; tk_closed : bool
}.

Definition NewSourcePhaseTracker (request : SourceOpenRequest) (declared : string) : SourcePhaseTracker :=
  mkTracker request None declared 0 Opening false.
Definition NewCatalogBoundSourcePhaseTracker (request : SourceOpenRequest) (descriptor : ResourceType)
    : SourcePhaseTracker :=
  mkTracker request (Some descriptor) (SourceGuaranteeForTarget descriptor (so_Target request)) 0 Opening false.

Definition Close (t : SourcePhaseTracker) : SourcePhaseTracker :=
  mkTracker (tk_request t) (tk_descriptor t) (declaredContinuity t) (tk_sequence t) (tk_phase t) true.
Definition advance (t : SourcePhaseTracker) (sequence : Z) (p : phase) : SourcePhaseTracker :=
  mkTracker (tk_request t) (tk_descriptor t) (declaredContinuity t) sequence p (tk_closed t).

(** The error returned for a transport report; [None] is a nil error. *)
Definition TransportError (t : SourcePhaseTracker) (err : option error) : option error :=
  if tk_closed t then Some source_closed
  else match err with
       | None => None
       | Some e =>
         if is_eof e && bool_decide (tk_phase t = Terminal) then Some EEOF
         else Some (EOp (Some e) "RESET_REQUIRED" "" "source transport ended before completion" [])
       end.

Definition same_binding (ref : RepresentationRef) (binding : Representation) : bool :=
  bool_decide (ref_ID ref = rp_ID binding) && bool_decide (ref_Revision ref = rp_Revision binding)
  && Bool.eqb (is_none (ref_SchemaRevision ref)) (is_none (sb_Revision (rp_Schema binding)))
  && match ref_SchemaRevision ref with
     | Some r => bool_decide (Some r = sb_Revision (rp_Schema binding))
     | None => true
     end.

Definition checkObservation (t : SourcePhaseTracker) (o : SourceObservation) : outcome unit :=
  require (same_binding (sr_Representation (ob_Record o)) (b_Representation (so_Binding (tk_request t))))
    (reset_required "source binding changed") ;;
  let target := so_Target (tk_request t) in
  match tk_descriptor t with
  | Some d => checkSourceObservation d target o
  | None => ValidateSourceObservation target (rt_Representation target) o
  end.

Definition checkReference (t : SourcePhaseTracker) (r : ResourceReference) : outcome unit :=
  let target := so_Target (tk_request t) in
  match tk_descriptor t with
  | Some d => checkSourceReference d target r
  | None =>
    validateReference r ;;
    require (sourceContainsReference target r) (provider_error "source removal escapes target")
  end.

Definition bad : error := provider_error "invalid source frame".

(** An observation's error is kept only when it demands a reset. *)
Definition admit_observation (t : SourcePhaseTracker) (o : SourceObservation) : outcome unit :=
  match checkObservation t o with
  | Some (Err e) => if bool_decide (ErrorCode (Some e) = "RESET_REQUIRED") then fails e else fails bad
  | r => r
  end.

Definition admit_change (t : SourcePhaseTracker) (c : SourceChange) : outcome unit :=
  if bool_decide (ch_Kind c = SourceChangeUpsert) then
    match ch_Observation c with
    | Some o =>
      require (is_none (ch_Reference c) && is_none (ch_SourceRevision c)) bad ;;
      admit_observation t o
    | None => fails bad
    end
  else if bool_decide (ch_Kind c = SourceChangeRemove) then
    match ch_Reference c with
    | Some r =>
      require (is_none (ch_Observation c)) bad ;;
      or_else (otoken (ch_SourceRevision c)) bad ;;
      or_else (checkReference t r) bad
    | None => fails bad
    end
  else fails bad.

(** The six cases of the payload switch: the phase after an admissible payload. *)

Definition within_batch {A} (t : SourcePhaseTracker) (l : list A) : bool :=
  Z.of_nat (length l) <=? MaxBatchItems (so_Limits (tk_request t)).

Definition admit_begin (t : SourcePhaseTracker) (b : SourceBegin) : outcome phase :=
  require (bool_decide (tk_phase t = Opening) && bool_decide (bg_Mode b = so_Mode (tk_request t))) bad ;;
  Some (Ok InSnapshot).

Definition admit_snapshot (t : SourcePhaseTracker) (s : SourceSnapshot) : outcome phase :=
  require (bool_decide (tk_phase t = InSnapshot) && within_batch t (Observations s)) bad ;;
  each (admit_observation t) (Observations s) ;;
  Some (Ok InSnapshot).

Definition update_continuity (c : string) : bool :=
  bool_decide (c = ContinuityGapFree) || bool_decide (c = ContinuityBestEffort).
Definition admit_snapshot_end (t : SourcePhaseTracker) (e : SourceSnapshotEnd) : outcome phase :=
  require (bool_decide (tk_phase t = InSnapshot) && sourceCoverageValid (se_Coverage e)) bad ;;
  let c := se_Continuity e in
  if bool_decide (so_Mode (tk_request t) = SourceModeSnapshot) then
    require (bool_decide (c = ContinuityNotApplicable)) bad ;; Some (Ok Terminal)
  else
    require (update_continuity c) bad ;;
    require (update_continuity (declaredContinuity t) && bool_decide (c = declaredContinuity t)) bad ;;
    Some (Ok Following).

Definition admit_changes (t : SourcePhaseTracker) (c : SourceChanges) : outcome phase :=
  require (bool_decide (tk_phase t = Following) && within_batch t (Changes c)
           && negb ((length (Changes c) =? 0)%nat && is_none (ch_Coverage c))
           && match ch_Coverage c with Some v => sourceCoverageValid v | None => true end) bad ;;
  each (admit_change t) (Changes c) ;;
  Some (Ok Following).

Definition admit_reset (t : SourcePhaseTracker) (r : SourceReset) : outcome phase :=
  require (negb (bool_decide (tk_phase t = Opening) || (MaxSourceMessageBytes <? slen (rs_Message r))
                 || negb (utf8_valid_string (rs_Message r)))) bad ;;
  require (known_reset_reason (rs_Reason r)) bad ;;
  Some (Ok Terminal).

Definition admit_failed (t : SourcePhaseTracker) (f : SourceFailure) : outcome phase :=
  require (negb (bool_decide (tk_phase t = Opening) || negb (IsErrorCode (fl_Code f))
                 || (MaxSourceMessageBytes <? slen (fl_Message f)) || negb (utf8_valid_string (fl_Message f)))) bad ;;
  Some (Ok Terminal).

Definition admit_payload (t : SourcePhaseTracker) (f : SourceFrame) : outcome phase :=
  match f_Begin f, f_Snapshot f, f_SnapshotEnd f, f_Changes f, f_Reset f, f_Failed f with
  | Some b, _, _, _, _, _ => admit_begin t b
  | _, Some s, _, _, _, _ => admit_snapshot t s
  | _, _, Some e, _, _, _ => admit_snapshot_end t e
  | _, _, _, Some c, _, _ => admit_changes t c
  | _, _, _, _, Some r, _ => admit_reset t r
  | _, _, _, _, _, Some x => admit_failed t x
  | _, _, _, _, _, _ => Some (Ok (tk_phase t))
  end.

(** The encoded size: the caller's, or that of the frame [ToProtoSourceFrame]
    builds; [proto_size] is [proto.Size] of the generated message. *)
Definition frame_size (proto_size : SourceFrame → Z) (f : SourceFrame) (size : Z) : outcome Z :=
  if size <? 0 then
    or_else (admission f ;; validateSourceFrameAdapter f ;;
             require (proto_size f <=? MaxMessageBytes) (limited "encoded message byte limit")) bad ;;
    Some (Ok (proto_size f))
  else Some (Ok size).

Definition next_phase (proto_size : SourceFrame → Z) (t : SourcePhaseTracker) (f : SourceFrame) (size : Z)
    : outcome phase :=
  let r := tk_request t in
  require (negb (tk_closed t)) source_closed ;;
  require (negb (bool_decide (tk_phase t = Terminal))) bad ;;
  require (bool_decide (f_SessionID f = so_SessionID r) && bool_decide (f_Generation f = so_Generation r)) bad ;;
  require (negb (tk_sequence t =? max_uint64) && (Sequence f =? tk_sequence t + 1))
    (reset_required "source sequence discontinuity") ;;
  require (payload_count f =? 1)%nat bad ;;
  phase ← admit_payload t f;
  size ← frame_size proto_size f size;
  require (size <=? MaxFrameBytes (so_Limits r)) (limited "source frame byte limit") ;;
  Some (Ok phase).

(** The tracker after the call, and what the call returns. *)
Definition admit_frame (proto_size : SourceFrame → Z) (t : SourcePhaseTracker) (f : SourceFrame) (size : Z)
    : SourcePhaseTracker * outcome unit :=
  match next_phase proto_size t f size with
  | Some (Ok phase) => (advance t (Sequence f) phase, Some (Ok tt))
  | Some (Err e) => (t, fails e)
  | None => (t, None)
  end.
Definition Admit (proto_size : SourceFrame → Z) (t : SourcePhaseTracker) (f : SourceFrame) := admit_frame proto_size t f (-1).
Definition AdmitSized (proto_size : SourceFrame → Z) := admit_frame proto_size.
End source.

(** ** The protocol a session follows *)

Inductive frame_kind := KBegin | KSnapshot | KEnd | KChanges | KReset | KFailed.
#[export] Instance frame_kind_eq_dec : EqDecision frame_kind.
Proof. solve_decision. Defined.

(** The kinds of the payloads a frame carries. *)
Definition kinds_of (f : SourceFrame) : list frame_kind :=
  let on {A} (o : option A) k := if is_none o then [] else [k] in
  on (f_Begin f) KBegin ++ on (f_Snapshot f) KSnapshot ++ on (f_SnapshotEnd f) KEnd
  ++ on (f_Changes f) KChanges ++ on (f_Reset f) KReset ++ on (f_Failed f) KFailed.

(** The frames accepted so far, in order, and the phase they lead to: one Begin,
    snapshots, the end of the snapshot and, when updates were asked for, changes;
    a reset or a failure may end it at any point after Begin. *)
Inductive session (updates : bool) : list frame_kind → phase → Prop :=
| session_opening : session updates [] Opening
| session_snapshot n : session updates (KBegin :: replicate n KSnapshot) InSnapshot
| session_complete n : updates = false →
    session updates (KBegin :: replicate n KSnapshot ++ [KEnd]) Terminal
| session_following n m : updates = true →
    session updates (KBegin :: replicate n KSnapshot ++ KEnd :: replicate m KChanges) Following
| session_cut n k : k = KReset ∨ k = KFailed →
    session updates (KBegin :: replicate n KSnapshot ++ [k]) Terminal
| session_cut_following n m k : updates = true → k = KReset ∨ k = KFailed →
    session updates (KBegin :: replicate n KSnapshot ++ KEnd :: replicate m KChanges ++ [k]) Terminal.

(** One more frame, as an automaton. *)
Definition next_kind (updates : bool) (p : phase) (k : frame_kind) : option phase :=
  match p, k with
  | Opening, KBegin => Some InSnapshot
  | InSnapshot, KSnapshot => Some InSnapshot
  | InSnapshot, KEnd => Some (if updates then Following else Terminal)
  | Following, KChanges => Some Following
  | (InSnapshot | Following), (KReset | KFailed) => Some Terminal
  | _, _ => None
  end.
Definition wants_updates (r : SourceOpenRequest) : bool := negb (bool_decide (so_Mode r = SourceModeSnapshot)).

Section content.
Context `{Protowire}.

Definition observation_ok (t : SourcePhaseTracker) (o : SourceObservation) : Prop :=
  checkObservation t o = Some (Ok tt).

Definition change_ok (t : SourcePhaseTracker) (c : SourceChange) : Prop :=
  (ch_Kind c = SourceChangeUpsert ∧ ch_Reference c = None ∧ ch_SourceRevision c = None
   ∧ ∃ o, ch_Observation c = Some o ∧ observation_ok t o)
  ∨ (ch_Kind c = SourceChangeRemove ∧ ch_Observation c = None ∧ otoken (ch_SourceRevision c) = Some (Ok tt)
     ∧ ∃ r, ch_Reference c = Some r ∧ checkReference t r = Some (Ok tt)).

Definition message_ok (s : string) : Prop := slen s ≤ MaxSourceMessageBytes ∧ utf8_valid_string s = true.

(** A payload's own rules, whatever the phase it arrives in. *)
Definition payload_ok (t : SourcePhaseTracker) (f : SourceFrame) : Prop :=
  (∀ b, f_Begin f = Some b → bg_Mode b = so_Mode (tk_request t))
  ∧ (∀ s, f_Snapshot f = Some s →
       within_batch t (Observations s) = true ∧ Forall (observation_ok t) (Observations s))
  ∧ (∀ e, f_SnapshotEnd f = Some e →
       sourceCoverageValid (se_Coverage e) = true
       ∧ se_Continuity e = (if wants_updates (tk_request t) then declaredContinuity t else ContinuityNotApplicable)
       ∧ (wants_updates (tk_request t) = true → update_continuity (se_Continuity e) = true))
  ∧ (∀ c, f_Changes f = Some c →
       within_batch t (Changes c) = true ∧ (Changes c ≠ [] ∨ ch_Coverage c ≠ None)
       ∧ (∀ v, ch_Coverage c = Some v → sourceCoverageValid v = true) ∧ Forall (change_ok t) (Changes c))
  ∧ (∀ r, f_Reset f = Some r → known_reset_reason (rs_Reason r) = true ∧ message_ok (rs_Message r))
  ∧ (∀ x, f_Failed f = Some x → IsErrorCode (fl_Code x) = true ∧ message_ok (fl_Message x)).

(** A frame of the session with its size, one payload and nothing amiss in it. *)
Definition frame_ok (proto_size : SourceFrame → Z) (t : SourcePhaseTracker) (p : SourceFrame * Z) : Prop :=
  f_SessionID p.1 = so_SessionID (tk_request t) ∧ f_Generation p.1 = so_Generation (tk_request t)
  ∧ payload_ok t p.1
  ∧ ∃ n, frame_size proto_size p.1 p.2 = Some (Ok n) ∧ n ≤ MaxFrameBytes (so_Limits (tk_request t)).

(** Numbered from [n + 1] on. *)
Definition numbered (n : Z) (fs : list SourceFrame) : Prop :=
  ∀ i f, fs !! i = Some f → Sequence f = n + 1 + Z.of_nat i ∧ Sequence f ≤ max_uint64.

Definition same_session (t u : SourcePhaseTracker) : Prop :=
  tk_request t = tk_request u ∧ tk_descriptor t = tk_descriptor u ∧ declaredContinuity t = declaredContinuity u.

(** *** Histories of calls, in the order the mutex serialises them *)

Inductive tracker_op := OpAdmit (f : SourceFrame) (size : Z) | OpClose | OpTransport (err : option error).

Definition apply (proto_size : SourceFrame → Z) (t : SourcePhaseTracker) (op : tracker_op) : SourcePhaseTracker :=
  match op with
  | OpAdmit f size => (admit_frame proto_size t f size).1
  | OpClose => Close t
  | OpTransport _ => t
  end.
Definition run (proto_size : SourceFrame → Z) : SourcePhaseTracker → list tracker_op → SourcePhaseTracker :=
  foldl (apply proto_size).

(** The frames whose admission returned nil. *)
Fixpoint accepted (proto_size : SourceFrame → Z) (t : SourcePhaseTracker) (ops : list tracker_op)
    : list (SourceFrame * Z) :=
  match ops with
  | [] => []
  | op :: ops =>
    match op with
    | OpAdmit f size =>
      match (admit_frame proto_size t f size).2 with Some (Ok _) => [(f, size)] | _ => [] end
    | _ => []
    end ++ accepted proto_size (apply proto_size t op) ops
  end.

(** Every frame of a list, admitted in turn. *)
Fixpoint admit_all (proto_size : SourceFrame → Z) (t : SourcePhaseTracker) (fs : list (SourceFrame * Z))
    : option SourcePhaseTracker :=
  match fs with
  | [] => Some t
  | (f, size) :: fs =>
    match admit_frame proto_size t f size with
    | (t, Some (Ok _)) => admit_all proto_size t fs
    | _ => None
    end
  end.
End content.

(** ** One admission *)

Section admission.
Context `{Protowire}.

Lemma or_else_ok m e : or_else m e = Some (Ok tt) ↔ m = Some (Ok tt).
Proof. destruct m as [[[]|]|]; simpl; naive_solver. Qed.

Lemma is_none_true {A} (o : option A) : is_none o = true ↔ o = None.
Proof. by destruct o. Qed.

Lemma admit_observation_ok t o : admit_observation t o = Some (Ok tt) ↔ observation_ok t o.
Proof.
  unfold admit_observation, observation_ok. destruct (checkObservation t o) as [[[]|e]|]; try done.
  case_bool_decide; split; done.
Qed.

Lemma admit_change_ok t c : admit_change t c = Some (Ok tt) ↔ change_ok t c.
Proof.
  unfold admit_change, change_ok. case_bool_decide as Hu; [|case_bool_decide as Hr].
  - destruct (ch_Observation c) as [o|].
    + rewrite outcome_seq_ok, require_ok, andb_true_iff, !is_none_true, admit_observation_ok. rewrite Hu. naive_solver.
    + split; [done|]. intros [(_ & _ & _ & o & ? & _)|(Hk & _)]; [done|by rewrite Hu in Hk].
  - destruct (ch_Reference c) as [r|].
    + rewrite !outcome_seq_ok, require_ok, !or_else_ok, is_none_true. rewrite Hr. naive_solver.
    + split; [done|]. intros [(Hk & _)|(_ & _ & _ & r & ? & _)]; [by rewrite Hr in Hk|done].
  - split; [done|]. naive_solver.
Qed.

Lemma message_ok_iff s : message_ok s ↔ (MaxSourceMessageBytes <? slen s) = false ∧ negb (utf8_valid_string s) = false.
Proof. unfold message_ok. by rewrite Z.ltb_ge, negb_false_iff. Qed.

Lemma seq_phase_ok (m : outcome unit) (p q : phase) :
  (m ;; Some (Ok p)) = Some (Ok q) ↔ m = Some (Ok tt) ∧ p = q.
Proof. rewrite outcome_seq_ok. naive_solver. Qed.

Definition updates_of (t : SourcePhaseTracker) : bool := wants_updates (tk_request t).

(** Decides the phase a payload is admitted in. *)
Ltac by_phase := destruct (tk_phase _); simpl; rewrite ?andb_false_l; naive_solver.

Ltac by_outcome := destruct (tk_phase _); simpl; naive_solver.

Lemma admit_begin_ok t b p : admit_begin t b = Some (Ok p) ↔
  next_kind (updates_of t) (tk_phase t) KBegin = Some p ∧ bg_Mode b = so_Mode (tk_request t).
Proof.
  unfold admit_begin. rewrite seq_phase_ok, require_ok, andb_true_iff, !bool_decide_eq_true. by_phase.
Qed.

Lemma admit_snapshot_ok t s p : admit_snapshot t s = Some (Ok p) ↔
  next_kind (updates_of t) (tk_phase t) KSnapshot = Some p
  ∧ within_batch t (Observations s) = true ∧ Forall (observation_ok t) (Observations s).
Proof.
  unfold admit_snapshot. rewrite outcome_seq_ok, seq_phase_ok, require_ok, andb_true_iff, bool_decide_eq_true, each_ok.
  rewrite (Forall_iff _ _ _ (admit_observation_ok t)). by_phase.
Qed.

Lemma admit_snapshot_end_ok t e p : admit_snapshot_end t e = Some (Ok p) ↔
  next_kind (updates_of t) (tk_phase t) KEnd = Some p
  ∧ sourceCoverageValid (se_Coverage e) = true
  ∧ se_Continuity e = (if updates_of t then declaredContinuity t else ContinuityNotApplicable)
  ∧ (updates_of t = true → update_continuity (se_Continuity e) = true).
Proof.
  unfold admit_snapshot_end, updates_of, wants_updates. rewrite outcome_seq_ok, require_ok, andb_true_iff, bool_decide_eq_true.
  case_bool_decide; simpl.
  - rewrite seq_phase_ok, require_ok, bool_decide_eq_true. by_phase.
  - rewrite outcome_seq_ok, seq_phase_ok, !require_ok, andb_true_iff, bool_decide_eq_true.
    destruct (tk_phase t); simpl; [naive_solver| |naive_solver..]. split; [naive_solver|].
    intros ([= <-] & ? & He & Hu). rewrite <- He. naive_solver.
Qed.

Lemma admit_changes_ok t c p : admit_changes t c = Some (Ok p) ↔
  next_kind (updates_of t) (tk_phase t) KChanges = Some p
  ∧ within_batch t (Changes c) = true ∧ (Changes c ≠ [] ∨ ch_Coverage c ≠ None)
  ∧ (∀ v, ch_Coverage c = Some v → sourceCoverageValid v = true) ∧ Forall (change_ok t) (Changes c).
Proof.
  unfold admit_changes. rewrite outcome_seq_ok, seq_phase_ok, require_ok, !andb_true_iff, bool_decide_eq_true, each_ok.
  rewrite (Forall_iff _ _ _ (admit_change_ok t)).
  assert (negb ((length (Changes c) =? 0)%nat && is_none (ch_Coverage c)) = true ↔
          Changes c ≠ [] ∨ ch_Coverage c ≠ None) as ->.
  { destruct (Changes c), (ch_Coverage c); simpl; naive_solver. }
  assert (match ch_Coverage c with Some v => sourceCoverageValid v | None => true end = true ↔
          ∀ v, ch_Coverage c = Some v → sourceCoverageValid v = true) as ->.
  { destruct (ch_Coverage c); naive_solver. }
  by_phase.
Qed.

Lemma admit_reset_ok t r p : tk_phase t ≠ Terminal → admit_reset t r = Some (Ok p) ↔
  next_kind (updates_of t) (tk_phase t) KReset = Some p
  ∧ known_reset_reason (rs_Reason r) = true ∧ message_ok (rs_Message r).
Proof.
  intros Hp. unfold admit_reset. rewrite outcome_seq_ok, seq_phase_ok, !require_ok, negb_true_iff, !orb_false_iff, message_ok_iff,
    bool_decide_eq_false.
  by_outcome.
Qed.

Lemma admit_failed_ok t x p : tk_phase t ≠ Terminal →
  admit_failed t x = Some (Ok p) ↔
  next_kind (updates_of t) (tk_phase t) KFailed = Some p
  ∧ IsErrorCode (fl_Code x) = true ∧ message_ok (fl_Message x).
Proof.
  intros Hp. unfold admit_failed. rewrite seq_phase_ok, require_ok, negb_true_iff, !orb_false_iff, message_ok_iff,
    negb_false_iff, bool_decide_eq_false.
  by_outcome.
Qed.

Lemma payload_count_one f : (payload_count f =? 1)%nat = true ↔ ∃ k, kinds_of f = [k].
Proof.
  assert (payload_count f = length (kinds_of f)) as ->.
  { unfold payload_count, present, kinds_of.
    by destruct (f_Begin f), (f_Snapshot f), (f_SnapshotEnd f), (f_Changes f), (f_Reset f), (f_Failed f). }
  rewrite Nat.eqb_eq. destruct (kinds_of f) as [|k [|]]; naive_solver.
Qed.

Lemma none_all {A} (P : A → Prop) : (∀ a, @None A = Some a → P a) ↔ True.
Proof. done. Qed.
Lemma some_all {A} (P : A → Prop) x : (∀ a, Some x = Some a → P a) ↔ P x.
Proof. naive_solver. Qed.

Lemma admit_payload_ok t f k p : tk_phase t ≠ Terminal → kinds_of f = [k] →
  admit_payload t f = Some (Ok p) ↔
  next_kind (updates_of t) (tk_phase t) k = Some p ∧ payload_ok t f.
Proof.
  intros Hp. destruct f as [sid gen sq b s e c r x]. unfold kinds_of, admit_payload, payload_ok.
  cbn [f_Begin f_Snapshot f_SnapshotEnd f_Changes f_Reset f_Failed].
  destruct b, s, e, c, r, x; intros [= <-]; rewrite !some_all, !none_all.
  - rewrite admit_begin_ok. tauto.
  - rewrite admit_snapshot_ok. tauto.
  - rewrite admit_snapshot_end_ok. tauto.
  - rewrite admit_changes_ok. tauto.
  - rewrite admit_reset_ok by done. tauto.
  - rewrite admit_failed_ok by done. tauto.
Qed.

Lemma sequence_guard n m : negb (n =? max_uint64) && (m =? n + 1) = true ↔ n ≠ max_uint64 ∧ m = n + 1.
Proof. by rewrite andb_true_iff, negb_true_iff, Z.eqb_neq, Z.eqb_eq. Qed.

Context (proto_size : SourceFrame → Z).

(** What one accepted frame is and where it leads. *)
Definition accepts (t : SourcePhaseTracker) (p : SourceFrame * Z) (k : frame_kind) (next : phase) : Prop :=
  tk_closed t = false ∧ kinds_of p.1 = [k] ∧ next_kind (updates_of t) (tk_phase t) k = Some next
  ∧ tk_sequence t ≠ max_uint64 ∧ Sequence p.1 = tk_sequence t + 1 ∧ frame_ok proto_size t p.

Lemma next_kind_open u p k q : next_kind u p k = Some q → p ≠ Terminal.
Proof. by destruct p. Qed.

Lemma size_ok f size m (p q : phase) :
  (n ← frame_size proto_size f size; require (n <=? m) (limited "source frame byte limit") ;; Some (Ok p))
    = Some (Ok q) ↔
  p = q ∧ ∃ n, frame_size proto_size f size = Some (Ok n) ∧ n ≤ m.
Proof.
  rewrite outcome_bind_some. setoid_rewrite seq_phase_ok. setoid_rewrite require_ok. setoid_rewrite Z.leb_le. naive_solver.
Qed.

Lemma next_phase_ok t f size q : next_phase proto_size t f size = Some (Ok q) ↔ ∃ k, accepts t (f, size) k q.
Proof.
  unfold next_phase, accepts, frame_ok.
  rewrite !outcome_seq_ok, !require_ok, andb_true_iff, !negb_true_iff, sequence_guard, payload_count_one,
    bool_decide_eq_false, !bool_decide_eq_true, outcome_bind_some.
  setoid_rewrite size_ok. cbn [fst snd]. split.
  - intros (? & ? & [? ?] & [? ?] & [k Hk] & p & Hp & -> & Hs). exists k.
    apply (admit_payload_ok t f k) in Hp as [? ?]; done.
  - intros (k & ? & Hk & Hn & ? & ? & ? & ? & ? & Hs). pose proof (next_kind_open _ _ _ _ Hn).
    split_and!; try done; [eauto|]. exists q. split; [by apply (admit_payload_ok t f k)|done].
Qed.

Lemma admit_ok t f size : (∃ u, (admit_frame proto_size t f size).2 = Some (Ok u)) →
  ∃ k q, accepts t (f, size) k q ∧ admit_frame proto_size t f size = (advance t (Sequence f) q, Some (Ok tt)).
Proof.
  unfold admit_frame. intros [u Hu]. destruct (next_phase proto_size t f size) as [[q|e]|] eqn:E; [|done..].
  apply next_phase_ok in E as [k E]. eauto.
Qed.

Lemma admit_accepts t f size k q : accepts t (f, size) k q →
  admit_frame proto_size t f size = (advance t (Sequence f) q, Some (Ok tt)).
Proof.
  intros Ha. unfold admit_frame. assert (next_phase proto_size t f size = Some (Ok q)) as ->; [|done].
  apply next_phase_ok. eauto.
Qed.

(** A frame that is not accepted leaves the tracker as it was. *)
Lemma admit_rejected t f size : (∀ u, (admit_frame proto_size t f size).2 ≠ Some (Ok u)) →
  (admit_frame proto_size t f size).1 = t.
Proof. unfold admit_frame. intros Hu. destruct (next_phase proto_size t f size) as [[q|e]|]; [|done..]. by destruct (Hu tt). Qed.

Lemma same_session_refl t : same_session t t.
Proof. done. Qed.
Lemma same_session_apply t op : same_session t (apply proto_size t op).
Proof.
  destruct op as [f size| |]; simpl; [|done..]. unfold admit_frame.
  by destruct (next_phase proto_size t f size) as [[]|].
Qed.

Lemma checkObservation_session t u o : same_session t u → checkObservation t o = checkObservation u o.
Proof. intros (Hr & Hd & _). unfold checkObservation. by rewrite Hr, Hd. Qed.
Lemma checkReference_session t u r : same_session t u → checkReference t r = checkReference u r.
Proof. intros (Hr & Hd & _). unfold checkReference. by rewrite Hr, Hd. Qed.
Lemma change_ok_session t u c : same_session t u → change_ok t c → change_ok u c.
Proof.
  intros Hs. unfold change_ok, observation_ok.
  intros [(?&?&?&o&?&Ho)|(?&?&?&r&?&Hr)]; [left|right]; split_and!; try done.
  - exists o. by rewrite <- (checkObservation_session t u).
  - exists r. by rewrite <- (checkReference_session t u).
Qed.
Lemma frame_ok_session t u p : same_session t u → frame_ok proto_size t p → frame_ok proto_size u p.
Proof.
  intros Hs. pose proof (λ c, change_ok_session t u c Hs) as Hc. pose proof Hs as (Hr & Hd & Hg).
  unfold frame_ok, payload_ok, within_batch. rewrite <- !Hr, <- Hg.
  intros (? & ? & (?&Hsn&?&Hch&?&?) & ?). split_and!; try done.
  - intros s Hf. destruct (Hsn s Hf) as [? Ho]. split; [done|]. eapply Forall_impl; [exact Ho|].
    intros o. unfold observation_ok. by rewrite (checkObservation_session t u).
  - intros c Hf. destruct (Hch c Hf) as (?&?&?&Ho). split_and!; try done. eapply Forall_impl; [exact Ho|].
    intros x. by apply Hc.
Qed.

(** *** The automaton and the language of sessions *)

Lemma replicate_snoc_kind {A} n (x : A) : replicate n x ++ [x] = replicate (S n) x.
Proof. by rewrite <- replicate_cons_app. Qed.

Lemma session_next u ks p k q : session u ks p → next_kind u p k = Some q → session u (ks ++ [k]) q.
Proof.
  intros Hs. destruct Hs as [|n|n ->|n m ->|n k' Hk|n m k' -> Hk]; destruct k; intros [= <-]; cbn [app].
  - apply (session_snapshot u 0).
  - rewrite replicate_snoc_kind. apply (session_snapshot u (S n)).
  - destruct u; [apply (session_following true n 0)|apply (session_complete false n)]; done.
  - apply session_cut. auto.
  - apply session_cut. auto.
  - rewrite <- app_assoc. cbn [app]. rewrite replicate_snoc_kind. by apply (session_following true n (S m)).
  - rewrite <- app_assoc. apply session_cut_following; auto.
  - rewrite <- app_assoc. apply session_cut_following; auto.
Qed.

(** The automaton run over a list of kinds. *)
Fixpoint run_kinds (u : bool) (p : phase) (ks : list frame_kind) : option phase :=
  match ks with [] => Some p | k :: ks => p ← next_kind u p k; run_kinds u p ks end.

Lemma run_kinds_app u ks ls : ∀ p, run_kinds u p (ks ++ ls) = q ← run_kinds u p ks; run_kinds u q ls.
Proof. induction ks as [|k ks IH]; intros p; simpl; [done|]. destruct (next_kind u p k); simpl; [apply IH|done]. Qed.
Lemma run_replicate u p k n : next_kind u p k = Some p → run_kinds u p (replicate n k) = Some p.
Proof. intros Hk. induction n as [|n IH]; simpl; [done|]. by rewrite Hk. Qed.

Lemma run_kinds_session u ks : ∀ ls p q, session u ls p → run_kinds u p ks = Some q → session u (ls ++ ks) q.
Proof.
  induction ks as [|k ks IH]; intros ls p q Hs; simpl; [intros [= <-]; by rewrite app_nil_r|].
  destruct (next_kind u p k) as [p'|] eqn:E; simpl; [|done]. intros Hr.
  rewrite (cons_middle k ls ks), app_assoc. eapply IH; [|exact Hr]. by eapply session_next.
Qed.

Lemma session_run u ks p : session u ks p ↔ run_kinds u Opening ks = Some p.
Proof.
  split; [|intros Hr; by apply (run_kinds_session u ks [] Opening); [constructor|]].
  destruct 1 as [|n|n ->|n m ->|n k' Hk|n m k' -> Hk]; simpl; rewrite ?run_kinds_app, ?run_replicate by done; simpl;
    rewrite ?run_kinds_app, ?run_replicate by done; try done; by destruct Hk as [-> | ->].
Qed.

(** *** Sequence numbers *)

Definition frames (l : list (SourceFrame * Z)) : list SourceFrame := l.*1.
Definition frame_kinds (l : list (SourceFrame * Z)) : list frame_kind := mjoin (kinds_of <$> frames l).

Lemma numbered_cons n f fs : numbered n (f :: fs) ↔
  Sequence f = n + 1 ∧ Sequence f ≤ max_uint64 ∧ numbered (n + 1) fs.
Proof.
  unfold numbered. split.
  - intros Hn. destruct (Hn 0%nat f eq_refl). split_and!; [lia|done|]. intros i g Hg.
    destruct (Hn (S i) g Hg). lia.
  - intros (? & ? & Hn) [|i] g Hg; [injection Hg as <-; lia|]. destruct (Hn i g Hg). lia.
Qed.

Lemma numbered_snoc n fs f : numbered n fs → Sequence f = n + 1 + Z.of_nat (length fs) → Sequence f ≤ max_uint64 →
  numbered n (fs ++ [f]).
Proof.
  intros Hn Hs Hm i g Hg. apply lookup_app_Some in Hg as [Hg|[Hl Hg]]; [by apply Hn|].
  apply list_lookup_singleton_Some in Hg as [Hi ->]. lia.
Qed.

(** *** Whole lists of frames *)

Lemma admit_all_ok l : ∀ t n, tk_closed t = false → tk_sequence t = n → n ≤ max_uint64 →
  (∃ u, admit_all proto_size t l = Some u) ↔
  (∃ q, run_kinds (updates_of t) (tk_phase t) (frame_kinds l) = Some q)
  ∧ Forall (λ p, length (kinds_of p.1) = 1%nat) l ∧ Forall (frame_ok proto_size t) l ∧ numbered n (frames l).
Proof.
  induction l as [|[f size] l IH]; intros t n Hc Hn Hm; cbn [admit_all].
  { split; [|eauto]. intros _. split_and!; [by exists (tk_phase t)|done..|]. intros i g Hg. done. }
  change (frames ((f, size) :: l)) with (f :: frames l).
  change (frame_kinds ((f, size) :: l)) with (kinds_of f ++ frame_kinds l).
  rewrite numbered_cons, !Forall_cons. cbn [fst]. split.
  - intros [u Hu]. destruct (admit_frame proto_size t f size) as [t' [[[]|]|]] eqn:Ea; [|done..].
    destruct (admit_ok t f size) as (k & q & Hacc & Ha); [rewrite Ea; eauto|].
    rewrite Ea in Ha. injection Ha as ->. destruct Hacc as (_ & Hk & Hnk & Hmax & Hseq & Hok). cbn [fst] in *.
    destruct (IH (advance t (Sequence f) q) (n + 1)) as [IH' _]; [done|simpl; lia|lia|].
    destruct IH' as ((q' & Hq') & H1 & H2 & H3); [eauto|]. rewrite Hk. split_and!; try done; try lia.
    exists q'. cbn [app run_kinds]. by rewrite Hnk.
  - intros ((q & Hq) & (H1 & H1') & (H2 & H2') & Hseq & Hmax & H3).
    destruct (kinds_of f) as [|k [|]] eqn:Hk; [done| |done]. cbn [app run_kinds] in Hq.
    destruct (next_kind (updates_of t) (tk_phase t) k) as [p'|] eqn:Hnk; [|done].
    assert (accepts t (f, size) k p') as Hacc.
    { split_and!; try done; cbn [fst]; lia. }
    rewrite (admit_accepts _ _ _ _ _ Hacc). apply (IH _ (n + 1)); [done|simpl; lia|lia|]. split_and!; try done.
    exists q. exact Hq.
Qed.
End admission.

(** ** The protocol theorems *)

Section protocol.
Context `{Protowire}.
Context (proto_size : SourceFrame → Z).

(** A tracker as either constructor returns it. *)
Definition opened (t : SourcePhaseTracker) : Prop :=
  (∃ r d, t = NewSourcePhaseTracker r d) ∨ (∃ r d, t = NewCatalogBoundSourcePhaseTracker r d).

Lemma opened_fresh t : opened t → tk_closed t = false ∧ tk_sequence t = 0 ∧ tk_phase t = Opening.
Proof. by intros [(r & d & ->)|(r & d & ->)]. Qed.

(** C4: A source session is exactly its protocol: a fresh tracker accepts every
    frame of a list if and only if the frames carry one payload each, their kinds
    spell a session (one Begin, snapshots, the snapshot's end, then changes when
    updates were asked for, cut short only by a reset or a failure), they are
    numbered from one without gaps, and each is admissible on its own: of this
    session and generation, within its batch and byte limits, with its payload's
    own rules and every observation and removal inside the requested target. *)
Theorem source_session_iff t l : opened t →
  (∃ u, admit_all proto_size t l = Some u) ↔
  (∃ q, session (updates_of t) (frame_kinds l) q)
  ∧ Forall (λ p, length (kinds_of p.1) = 1%nat) l
  ∧ Forall (frame_ok proto_size t) l
  ∧ numbered 0 (frames l).
Proof.
  intros (Hc & Hn & Hp)%opened_fresh. rewrite (admit_all_ok proto_size l t 0 Hc Hn), Hp by done.
  setoid_rewrite session_run. done.
Qed.

(** What is known after a history that accepted [l]. *)
Definition history (t0 u : SourcePhaseTracker) (l : list (SourceFrame * Z)) : Prop :=
  same_session t0 u ∧ session (updates_of t0) (frame_kinds l) (tk_phase u)
  ∧ numbered 0 (frames l) ∧ tk_sequence u = Z.of_nat (length l) ∧ tk_sequence u ≤ max_uint64
  ∧ Forall (frame_ok proto_size t0) l.

Lemma frame_kinds_app l l' : frame_kinds (l ++ l') = frame_kinds l ++ frame_kinds l'.
Proof. unfold frame_kinds, frames. rewrite !fmap_app. apply join_app. Qed.

Lemma same_session_sym t u : same_session t u → same_session u t.
Proof. unfold same_session. naive_solver. Qed.

Lemma history_admit t0 t f size l : history t0 t l →
  history t0 (admit_frame proto_size t f size).1
    (l ++ match (admit_frame proto_size t f size).2 with Some (Ok _) => [(f, size)] | _ => [] end).
Proof.
  intros (Hss & Hs & Hn & Hq & Hm & Hf). destruct (admit_frame proto_size t f size) as [t' r] eqn:Ea. cbn [fst snd].
  assert ((∃ u, r = Some (Ok u)) ∨ ¬ ∃ u, r = Some (Ok u)) as [Hr|Hr].
  { destruct r as [[]|]; naive_solver. }
  - destruct (admit_ok proto_size t f size) as (k & q & Hacc & Ha); [by rewrite Ea|].
    rewrite Ea in Ha. injection Ha as -> ->. destruct Hacc as (_ & Hk & Hnk & Hmax & Hseq & Hok). cbn [fst] in *.
    pose proof Hss as (Hreq & _). split_and!.
    + done.
    + rewrite frame_kinds_app. change (frame_kinds [(f, size)]) with (kinds_of f ++ []). rewrite Hk.
      eapply session_next; [exact Hs|]. unfold updates_of in *. by rewrite Hreq.
    + unfold frames. rewrite fmap_app. apply numbered_snoc; [done|simpl; rewrite length_fmap; lia|simpl; lia].
    + rewrite length_app. simpl. lia.
    + simpl. lia.
    + apply Forall_app; split; [done|]. constructor; [|constructor].
      eapply frame_ok_session; [|exact Hok]. by apply same_session_sym.
  - assert ((admit_frame proto_size t f size).1 = t) as Ht.
    { apply admit_rejected. intros u Hu. apply Hr. exists u. by rewrite <- Hu, Ea. }
    rewrite Ea in Ht. cbn in Ht. subst t'.
    assert (match r with Some (Ok _) => [(f, size)] | _ => [] end = []) as ->.
    { destruct r as [[]|]; try done. destruct Hr; eauto. }
    by rewrite app_nil_r.
Qed.

Lemma history_run t0 ops : ∀ t l, history t0 t l →
  history t0 (run proto_size t ops) (l ++ accepted proto_size t ops).
Proof.
  induction ops as [|op ops IH]; intros t l Hh; cbn [run foldl accepted]; [by rewrite app_nil_r|].
  rewrite app_assoc. apply IH. destruct op as [f size| |]; cbn [apply]; [by apply history_admit|by rewrite app_nil_r..].
Qed.

Lemma run_closed ops : ∀ t, tk_closed (run proto_size t ops) = true ↔ tk_closed t = true ∨ OpClose ∈ ops.
Proof.
  induction ops as [|op ops IH]; intros t; cbn [run foldl]; [rewrite elem_of_nil; tauto|].
  setoid_rewrite IH. rewrite elem_of_cons. destruct op as [f size| |]; cbn [apply].
  - assert (tk_closed (admit_frame proto_size t f size).1 = tk_closed t) as ->; [|naive_solver].
    unfold admit_frame. by destruct (next_phase proto_size t f size) as [[]|].
  - cbn. naive_solver.
  - naive_solver.
Qed.

Lemma session_functional u ks p q : session u ks p → session u ks q → p = q.
Proof. rewrite !session_run. congruence. Qed.

(** C22: Whatever calls a session makes, in whatever order its mutex serialises
    them and however many are refused, the frames accepted so far are a session
    of the protocol, numbered from one and each admissible, the tracker's phase
    and sequence are theirs, and it is closed exactly after a Close; so a
    transport that ends is a clean [io.EOF] exactly when the tracker was never
    closed and the accepted frames are a complete session. *)
Theorem source_history t ops : opened t →
  let u := run proto_size t ops in
  let l := accepted proto_size t ops in
  session (updates_of t) (frame_kinds l) (tk_phase u)
  ∧ numbered 0 (frames l) ∧ tk_sequence u = Z.of_nat (length l)
  ∧ Forall (frame_ok proto_size t) l
  ∧ (tk_closed u = true ↔ OpClose ∈ ops)
  ∧ (TransportError u (Some EEOF) = Some EEOF ↔
     (OpClose ∉ ops) ∧ session (updates_of t) (frame_kinds l) Terminal).
Proof.
  intros Ho u l. pose proof (opened_fresh t Ho) as (Hc & Hn & Hp).
  assert (history t t []) as Hh.
  { split_and!; try done; [rewrite Hp; apply session_opening|by rewrite Hn]. }
  apply (history_run t ops) in Hh as (_ & Hs & Hnum & Hseq & _ & Hf). cbn [app] in *. fold u l in Hs, Hnum, Hseq, Hf.
  assert (tk_closed u = true ↔ OpClose ∈ ops) as Hcl. { unfold u. rewrite run_closed, Hc. naive_solver. }
  split_and!; try done. rewrite <- Hcl. unfold TransportError. cbn [is_eof errors_is orb andb].
  destruct (tk_closed u); [naive_solver|]. case_bool_decide as Ht.
  - rewrite <- Ht. naive_solver.
  - split; [done|]. intros [_ Hq]. destruct Ht. by eapply session_functional.
Qed.
End protocol.

(** ** Document coverage: the paths resolve nowhere and are pairwise different *)

(** The value a path leads to, by its segments alone. *)
Definition at_segment (v : Value) (s : FieldPathSegment) : option Value :=
  match seg_Member s, seg_Index s with
  | Some name, _ => if bool_decide (vKind v = valueKindMap) then map_get name (listOf (vMap v)) else None
  | None, Some i => if bool_decide (vKind v = valueKindList) then list_at (listOf (vList v)) i else None
  | None, None => None
  end.
Definition at_path (v : Value) (segments : list FieldPathSegment) : option Value :=
  foldl (λ o s, v ← o; at_segment v s) (Some v) segments.

(** A segment selects a member by a UTF-8 name or an item by index, not both. *)
Definition segment_ok (s : FieldPathSegment) : Prop :=
  match seg_Member s, seg_Index s with
  | Some name, None => utf8_valid_string name = true
  | None, Some _ => True
  | _, _ => False
  end.
Definition absent_path (body : Value) (p : DocumentFieldPath) : Prop :=
  1 ≤ Z.of_nat (length (Segments p)) ≤ 256 ∧ Forall segment_ok (Segments p) ∧ at_path body (Segments p) = None.

(** [path_step] where the value is still there, and after it is gone. *)
Lemma otext_free s : otext s false = Some (Ok tt) ↔ utf8_valid_string s = true.
Proof. unfold otext, returns, text. destruct (utf8_valid_string s) eqn:E; simpl; naive_solver. Qed.

(** Where the walk stands after a segment of a value that is still there. *)
Definition after_segment (v : Value) (s : FieldPathSegment) : Value * bool :=
  match at_segment v s with
  | Some w => (w, true)
  | None =>
    match seg_Member s with
    | Some _ => if bool_decide (vKind v = valueKindMap) then (tagged_zero "", false) else (v, false)
    | None => (v, false)
    end
  end.

Lemma some_ok_iff {A} (x y : A) : Some (Ok (E := error) x) = Some (Ok y) ↔ y = x.
Proof. split; [by intros [= ->]|by intros ->]. Qed.

Lemma path_step_here v s out : path_step v true s = Some (Ok out) ↔ segment_ok s ∧ out = after_segment v s.
Proof.
  unfold path_step, segment_ok, after_segment, at_segment. cbn [andb].
  destruct (seg_Member s) as [name|], (seg_Index s) as [i|]; [naive_solver| | |naive_solver].
  - rewrite outcome_seq_ok, otext_free. apply and_iff_compat_l. case_bool_decide; [|apply some_ok_iff].
    destruct (map_get name (listOf (vMap v))); apply some_ok_iff.
  - rewrite (left_id True and). case_bool_decide; [|apply some_ok_iff].
    destruct (list_at (listOf (vList v)) i); apply some_ok_iff.
Qed.

Lemma path_step_gone v s out : path_step v false s = Some (Ok out) ↔ segment_ok s ∧ out = (v, false).
Proof.
  unfold path_step, segment_ok. cbn [andb].
  destruct (seg_Member s) as [name|], (seg_Index s) as [i|]; [naive_solver| | |naive_solver].
  - rewrite outcome_seq_ok, otext_free. apply and_iff_compat_l, some_ok_iff.
  - rewrite (left_id True and). apply some_ok_iff.
Qed.

Lemma at_path_none segments : foldl (λ o s, v ← o; at_segment v s) None segments = None.
Proof. by induction segments. Qed.

Lemma path_gone segments : ∀ v b, path_present v false segments = Some (Ok b) ↔
  Forall segment_ok segments ∧ b = false.
Proof.
  induction segments as [|s segments IH]; intros v b; cbn [path_present].
  - rewrite Forall_nil. split; [by intros [= <-]|by intros [_ ->]].
  - rewrite outcome_bind_some, Forall_cons. setoid_rewrite path_step_gone. split.
    + intros ([w h] & [Hs [= -> ->]] & Hp). apply IH in Hp. tauto.
    + intros [[Hs Hf] ->]. exists (v, false). split; [done|]. by apply IH.
Qed.

Lemma path_here segments : ∀ v b, path_present v true segments = Some (Ok b) ↔
  Forall segment_ok segments ∧ b = bool_decide (is_Some (at_path v segments)).
Proof.
  induction segments as [|s segments IH]; intros v b; cbn [path_present].
  - rewrite Forall_nil. unfold at_path. simpl. split; [by intros [= <-]|by intros [_ ->]].
  - rewrite outcome_bind_some, Forall_cons. setoid_rewrite path_step_here.
    unfold at_path, after_segment. cbn [foldl mbind option_bind].
    assert (∀ Q : Value * bool → Prop, ∀ R x, (∃ a, (R ∧ a = x) ∧ Q a) ↔ R ∧ Q x) as Hx by naive_solver.
    rewrite Hx, <- (assoc and). apply and_iff_compat_l.
    destruct (at_segment v s) as [w|]; [apply IH|].
    rewrite at_path_none, (bool_decide_eq_false_2 (is_Some None)) by apply is_Some_None.
    destruct (seg_Member s); [case_bool_decide|]; apply path_gone.
Qed.

Lemma validateKnownAbsent_ok body p : validateKnownAbsent body p = Some (Ok tt) ↔ absent_path body p.
Proof.
  unfold validateKnownAbsent, absent_path. rewrite outcome_seq_ok, require_ok, negb_true_iff, orb_false_iff,
    Nat.eqb_neq, Z.ltb_ge, outcome_bind_some.
  setoid_rewrite path_here. setoid_rewrite require_ok. setoid_rewrite negb_true_iff.
  split.
  - intros ([Hl Hm] & b & [Hf ->] & Hb). split_and!; [lia|done|done|]. apply bool_decide_eq_false in Hb.
    by apply eq_None_not_Some.
  - intros ([Hl Hm] & Hf & Ha). split; [lia|]. eexists; split; [done|]. apply bool_decide_eq_false_2.
    rewrite Ha. apply is_Some_None.
Qed.

(** *** Different paths have different keys *)

(** The reading of an escaped text up to its closing quote. *)
Fixpoint unescape (fuel : nat) (b : bytes) : option (bytes * bytes) :=
  match fuel, b with
  | S f, c :: t =>
    if byte_val c =? 34 then Some ([], t)
    else if byte_val c =? 92 then
      match t with
      | e :: t =>
        if byte_val e =? 117 then
          match t with
          | h1 :: h2 :: h3 :: h4 :: t =>
            n ← hex4 h1 h2 h3 h4; '(s, r) ← unescape f t;
            Some ((if n <? 256 then [byte_of n] else encode_rune n) ++ s, r)
          | _ => None
          end
        else v ← escape_byte e; '(s, r) ← unescape f t; Some (byte_of v :: s, r)
      | [] => None
      end
    else '(s, r) ← unescape f t; Some (c :: s, r)
  | _, _ => None
  end.

Lemma short_escape_read c e : short_escape c = Some e →
  (byte_val e =? 117) = false ∧ ∃ v, escape_byte e = Some v ∧ byte_of v = c.
Proof. destruct c as [[] [] [] [] [] [] [] []]; intros [= <-]; (split; [done|by eexists]). Qed.
Lemma u00_read c : html_byte c || (byte_val c <? jsonControlLimit) = true →
  hex4 "0" "0" (hex_digit (Z.shiftr (byte_val c) 4)) (hex_digit (Z.land (byte_val c) 15)) = Some (byte_val c)
  ∧ byte_of (byte_val c) = c ∧ (byte_val c <? 256) = true.
Proof. by destruct c as [[] [] [] [] [] [] [] []]. Qed.
Lemma separator_read c d e : line_separator c d e = true →
  ∃ n, hex4 "2" "0" "2" (hex_digit (Z.land (byte_val e) 15)) = Some n ∧ encode_rune n = [c; d; e] ∧ (n <? 256) = false.
Proof.
  unfold line_separator. rewrite !andb_true_iff, orb_true_iff, !Z.eqb_eq. intros [[Hc Hd] He].
  assert (∀ x y : ascii, byte_val x = byte_val y → x = y) as Hinj.
  { intros x y Hxy. by rewrite <- (byte_of_val x), <- (byte_of_val y), Hxy. }
  rewrite (Hinj c (byte_of 226)), (Hinj d (byte_of 128)) by done.
  destruct He as [He|He]; [rewrite (Hinj e (byte_of 168)) by done|rewrite (Hinj e (byte_of 169)) by done]; by eexists.
Qed.
Lemma literal_read c : short_escape c = None → (byte_val c =? 34) = false ∧ (byte_val c =? 92) = false.
Proof. by destruct c as [[] [] [] [] [] [] [] []]. Qed.

Lemma unescape_body f : ∀ s r, (length s < f)%nat → unescape f (json_string_body s ++ "034"%char :: r) = Some (s, r).
Proof.
  induction f as [|f IH]; intros s r Hl; [lia|]. destruct s as [|c t]; [done|]. cbn [json_string_body length] in *.
  destruct (short_escape c) as [e|] eqn:Es.
  { apply short_escape_read in Es as (H1 & v & H2 & H3). cbn [app unescape]. cbn [byte_val].
    change (byte_val "\" =? 34) with false. change (byte_val "\" =? 92) with true. cbn iota.
    rewrite H1, H2. cbn. rewrite IH by lia. cbn. by rewrite H3. }
  destruct (html_byte c || (byte_val c <? jsonControlLimit)) eqn:Eh.
  { assert ((if html_byte c then u00 c ++ json_string_body t
             else if byte_val c <? jsonControlLimit then u00 c ++ json_string_body t
             else match t with
                  | d :: e :: t' =>
                    if line_separator c d e
                    then ["\"; "u"; "2"; "0"; "2"]%char ++ hex_digit (Z.land (byte_val e) 15) :: json_string_body t'
                    else c :: json_string_body t
                  | _ => c :: json_string_body t
                  end) = u00 c ++ json_string_body t) as ->.
    { by destruct (html_byte c), (byte_val c <? jsonControlLimit). }
    apply u00_read in Eh as (H1 & H2 & H3). unfold u00. cbn [app unescape].
    change (byte_val "\" =? 34) with false. change (byte_val "\" =? 92) with true.
    change (byte_val "u" =? 117) with true. cbn iota. rewrite H1. cbn [mbind option_bind].
    rewrite IH by lia. cbn. by rewrite H3, H2. }
  apply orb_false_iff in Eh as [-> ->]. apply literal_read in Es as [Hq Hb].
  assert (unescape (S f) ((c :: json_string_body t) ++ "034"%char :: r) = Some (c :: t, r)) as Hlit.
  { cbn [app unescape]. rewrite Hq, Hb, IH by lia. done. }
  destruct t as [|d [|e t']]; [exact Hlit..|]. destruct (line_separator c d e) eqn:El; [|exact Hlit].
  apply separator_read in El as (n & H1 & H2 & H3). cbn [app unescape].
  change (byte_val "\" =? 34) with false. change (byte_val "\" =? 92) with true.
  change (byte_val "u" =? 117) with true. cbn iota. rewrite H1. cbn [mbind option_bind].
  rewrite IH by (simpl in Hl; lia). cbn. by rewrite H3, H2.
Qed.

Lemma quoted_inj s s' x y : quoted s ++ x = quoted s' ++ y → s = s' ∧ x = y.
Proof.
  unfold quoted. cbn [app]. rewrite <- !app_assoc. cbn [app]. intros [= He].
  set (f := S (length (bytes_of s) + length (bytes_of s'))).
  pose proof (unescape_body f (bytes_of s) x ltac:(lia)) as H1.
  pose proof (unescape_body f (bytes_of s') y ltac:(lia)) as H2.
  rewrite He, H2 in H1. injection H1 as H1 ->. split; [|done]. by apply bytes_of_inj.
Qed.

Lemma digits_inj ds : ∀ ds' c x y, forallb is_digit ds = true → forallb is_digit ds' = true → is_digit c = false →
  ds ++ c :: x = ds' ++ c :: y → ds = ds' ∧ x = y.
Proof.
  induction ds as [|d ds IH]; intros [|d' ds'] c x y H1 H2 Hc; cbn [app forallb] in *; intros He; simplify_eq;
    propify; try congruence; [done|].
  by destruct (IH ds' c x y) as [-> ->].
Qed.

Lemma format_digits_inj n m : 0 ≤ n → 0 ≤ m → format_digits n = format_digits m → n = m.
Proof. intros Hn Hm He. apply format_digits_value in Hn, Hm. rewrite He in Hn. congruence. Qed.

(** Indices are [uint32] values. *)
Definition segment_typed (s : FieldPathSegment) : Prop :=
  match seg_Index s with Some i => 0 ≤ i < 2 ^ 32 | None => True end.

Definition member_prefix : bytes := "{"%char :: quoted "member" ++ [":"%char].
Definition index_prefix : bytes := "{"%char :: quoted "index" ++ [":"%char].

Lemma segment_json_eq s : segment_ok s →
  segment_json s =
  match seg_Member s, seg_Index s with
  | Some n, _ => member_prefix ++ quoted n ++ ["}"%char]
  | None, Some i => index_prefix ++ format_digits i ++ ["}"%char]
  | None, None => []
  end.
Proof.
  unfold segment_ok, segment_json. destruct (seg_Member s), (seg_Index s); try done; intros _;
    unfold member_prefix, index_prefix; cbn [app commas comma_tail]; rewrite app_nil_r; by rewrite <- !app_assoc.
Qed.

Lemma segment_json_head s : ∃ t, segment_json s = "{"%char :: t.
Proof. by eexists. Qed.

Lemma segment_json_inj s s' x y : segment_ok s → segment_ok s' → segment_typed s → segment_typed s' →
  segment_json s ++ x = segment_json s' ++ y → s = s' ∧ x = y.
Proof.
  intros Hs Hs' Ht Ht'. rewrite !segment_json_eq by done. unfold segment_ok, segment_typed in *.
  destruct s as [[n|] [i|]], s' as [[n'|] [i'|]]; cbn [seg_Member seg_Index] in *; try done;
    intros He; rewrite <- !app_assoc in He; [|done..|].
  - apply app_inv_head, quoted_inj in He as [-> He]. by injection He as ->.
  - apply app_inv_head in He. cbn [app] in He. apply digits_inj in He as [He ->]; [|apply format_digits_digits..|done].
    apply format_digits_inj in He as ->; [done|lia..].
Qed.

Lemma comma_tail_inj l : ∀ l' x y, Forall segment_ok l → Forall segment_ok l' →
  Forall segment_typed l → Forall segment_typed l' →
  comma_tail (map segment_json l) ++ "]"%char :: x = comma_tail (map segment_json l') ++ "]"%char :: y → l = l'.
Proof.
  induction l as [|s l IH]; intros [|s' l'] x y H1 H2 H3 H4; cbn [map comma_tail app]; try done.
  intros He. apply (f_equal tail) in He. cbn [tail] in He. rewrite <- !app_assoc in He. inversion H1; inversion H2; inversion H3; inversion H4; subst.
  apply segment_json_inj in He as [-> He]; [|done..]. f_equal. by eapply IH.
Qed.

Lemma path_json_inj p q : Forall segment_ok (Segments p) → Forall segment_ok (Segments q) →
  Forall segment_typed (Segments p) → Forall segment_typed (Segments q) →
  path_json p = path_json q → p = q.
Proof.
  destruct p as [l], q as [l']. cbn [Segments]. unfold path_json. cbn [Segments]. intros H1 H2 H3 H4 He.
  apply (f_equal bytes_of) in He. rewrite !bytes_of_string_of in He.
  apply (app_inv_head ("{"%char :: quoted "segments" ++ [":"; "["]%char)) in He. f_equal.
  assert (comma_tail (map segment_json l) ++ ["]"; "}"]%char = comma_tail (map segment_json l') ++ ["]"; "}"]%char) as Ht.
  { destruct l as [|s l], l' as [|s' l']; cbn [map commas comma_tail app] in *; [done| | |by rewrite He].
    - destruct (segment_json_head s') as [t Hh]; by rewrite Hh in He.
    - destruct (segment_json_head s) as [t Hh]; by rewrite Hh in He. }
  by eapply comma_tail_inj.
Qed.

(** A declared document coverage is accepted exactly when it names at most 256
    paths, each of 1 to 256 segments choosing a member by a UTF-8 name or an item
    by index, no two of them the same path, and none leading anywhere in the
    body: what is declared absent is absent. *)
Theorem validateDocumentCoverage_iff c body :
  Forall (λ p, Forall segment_typed (Segments p)) (KnownAbsent c) →
  validateDocumentCoverage c body = Some (Ok tt) ↔
  Z.of_nat (length (KnownAbsent c)) ≤ 256 ∧ NoDup (KnownAbsent c) ∧ Forall (absent_path body) (KnownAbsent c).
Proof.
  intros Ht. unfold validateDocumentCoverage.
  rewrite outcome_seq_ok, require_ok, negb_true_iff, Z.ltb_ge, each_distinct_ok.
  setoid_rewrite validateKnownAbsent_ok. unfold ret_ok.
  assert (Forall (λ a, absent_path body a ∧ @Some (result unit) (Ok tt) = Some (Ok tt)) (KnownAbsent c)
          ↔ Forall (absent_path body) (KnownAbsent c)) as ->.
  { apply Forall_iff. naive_solver. }
  split.
  - intros (? & Hd & _ & Ha). split_and!; try done. by eapply NoDup_fmap_1.
  - intros (? & Hd & Ha). split_and!; try done; [|by apply Forall_forall; intros; apply not_elem_of_nil].
    apply NoDup_fmap_2_strong; [|done]. intros p q Hp Hq. rewrite Forall_forall in Ha, Ht.
    destruct (Ha p Hp) as (_ & ? & _), (Ha q Hq) as (_ & ? & _). apply path_json_inj; auto.
Qed.

(** ** No call is ever stuck *)

Section total.
Context `{ProtowireLaws}.

Lemma or_else_defined m e : m ≠ None → or_else m e ≠ None.
Proof. by destruct m as [[]|]. Qed.
#[local] Hint Resolve or_else_defined : defined.
Lemma validate_value_defined v : validate_value v ≠ None.
Proof. apply ValidateValue_defined. Qed.
#[local] Hint Resolve validate_value_defined : defined.

Lemma path_step_defined v b s : path_step v b s ≠ None.
Proof. unfold path_step. solve_defined. Qed.
#[local] Hint Resolve path_step_defined : defined.
Lemma path_present_defined l : ∀ v b, path_present v b l ≠ None.
Proof. induction l as [|s l IH]; intros v b; cbn [path_present]; [done|]. solve_defined. Qed.
#[local] Hint Resolve path_present_defined : defined.
Lemma validateDocumentCoverage_defined c body : validateDocumentCoverage c body ≠ None.
Proof. unfold validateDocumentCoverage, validateKnownAbsent, ret_ok. solve_defined. Qed.
#[local] Hint Resolve validateDocumentCoverage_defined : defined.

Lemma validateSourceObservationAdapter_defined o : validateSourceObservationAdapter o ≠ None.
Proof. unfold validateSourceObservationAdapter, validateSourceRecord, validateMetadata. solve_defined. Qed.
#[local] Hint Resolve validateSourceObservationAdapter_defined : defined.

Lemma validateSourceFrameAdapter_defined f : validateSourceFrameAdapter f ≠ None.
Proof.
  unfold validateSourceFrameAdapter, when_present, validateSourceBeginAdapter, validateSourceSnapshotAdapter,
    validateSourceSnapshotEndAdapter, validateSourceChangesAdapter, validateSourceChangeAdapter,
    validateSourceCoverageAdapter, validateSourceResetAdapter, validateSourceFailureAdapter.
  solve_defined.
Qed.
#[local] Hint Resolve validateSourceFrameAdapter_defined : defined.

Lemma checkObservation_defined t o : checkObservation t o ≠ None.
Proof. unfold checkObservation, checkSourceObservation, ValidateSourceObservation. solve_defined. Qed.
Lemma checkReference_defined t r : checkReference t r ≠ None.
Proof. unfold checkReference, checkSourceReference. solve_defined. Qed.
#[local] Hint Resolve checkObservation_defined checkReference_defined : defined.

Lemma admit_observation_defined t o : admit_observation t o ≠ None.
Proof.
  unfold admit_observation. pose proof (checkObservation_defined t o).
  destruct (checkObservation t o) as [[]|]; [done| |done]. by case_bool_decide.
Qed.
#[local] Hint Resolve admit_observation_defined : defined.
Lemma admit_payload_defined t f : admit_payload t f ≠ None.
Proof.
  unfold admit_payload, admit_begin, admit_snapshot, admit_snapshot_end, admit_changes, admit_change, admit_reset, admit_failed.
  solve_defined.
Qed.
#[local] Hint Resolve admit_payload_defined : defined.

Lemma next_phase_defined proto_size t f size : next_phase proto_size t f size ≠ None.
Proof.
  assert (frame_size proto_size f size ≠ None) as Hs.
  { unfold frame_size. case_match; [|done]. apply seq_defined; [|done]. apply or_else_defined. solve_defined. }
  unfold next_phase. solve_defined.
Qed.

Lemma sized_scope l : sized (scope_wire_size l).
Proof.
  apply sized_sum; [|done]. apply Forall_forall. intros c _. apply sized_bind.
  - apply sized_sum; [|done]. apply Forall_forall. intros v _. apply sized_field, slen_nonneg.
  - intros n Hn. apply sized_field_bind, sized_total. repeat constructor; [apply sized_string|by apply sized_field].
Qed.

Lemma sourceOpenWireSize_sized r : open_acquisition r = Some (Ok tt) → sized (sourceOpenWireSize r).
Proof.
  intros Ha. unfold sourceOpenWireSize.
  apply sized_bind; [apply sized_scope|]. intros scope Hs.
  apply sized_bind; [apply sized_total; repeat constructor; auto with sizes; by apply sized_field|]. intros target Ht.
  apply sized_bind.
  - unfold open_acquisition in Ha. case_bool_decide as He.
    + rewrite He. rewrite bool_decide_eq_false_2 by done. by apply sized_field.
    + case_bool_decide as Hq; [|done]. rewrite !outcome_seq_ok in Ha. destruct Ha as (_ & _ & Ha).
      destruct (aq_Query (so_Acquisition r)) as [q|]; [|done]. cbn [mbind option_bind].
      apply sized_field_bind, sized_total. apply sized_value in Ha. repeat constructor; auto with sizes.
  - intros acquisition Hq. apply sized_bind.
    { apply sized_field_bind, sized_total. repeat constructor; auto with sizes. }
    intros binding Hb. pose proof (SizeVarint_range (MaxFrameBytes (so_Limits r))).
    pose proof (SizeVarint_range (MaxBatchItems (so_Limits r))).
    apply sized_total. repeat constructor; auto with sizes; try (by apply sized_field); [by apply sized_some|].
    apply sized_field. lia.
Qed.

Lemma open_acquisition_defined r : open_acquisition r ≠ None.
Proof. unfold open_acquisition. solve_defined. Qed.

Lemma ValidateSourceOpenRequest_defined r : ValidateSourceOpenRequest r ≠ None.
Proof.
  unfold ValidateSourceOpenRequest, validateSourceLimits, validateTarget, validateRoute.
  do 7 (apply seq_defined; [solve_defined|intros _]).
  apply seq_defined; [apply open_acquisition_defined|]. intros (n & Hn & _)%sourceOpenWireSize_sized.
  rewrite Hn. apply require_defined.
Qed.

(** No request to open a session and no frame can make the session code
    panic: validation of an open request and admission of any frame, valid or
    not, at any point of any session, always answer with nil or an error. *)
Theorem source_total proto_size t f size r :
  ValidateSourceOpenRequest r ≠ None ∧ (admit_frame proto_size t f size).2 ≠ None.
Proof.
  split; [apply ValidateSourceOpenRequest_defined|]. unfold admit_frame.
  pose proof (next_phase_defined proto_size t f size). by destruct (next_phase proto_size t f size) as [[]|].
Qed.
End total.

(** ** From a checked page to a session *)

Section page_bridge.
Context `{ProtowireLaws}.

Definition no_coverage : DocumentCoverage := mkDocumentCoverage [].
(** The observation [OpenSource] makes of a page's record. *)
Definition page_observation (r : ResourceRecord) : SourceObservation :=
  mkObservation (CompactSourceRecord r) None None no_coverage.

Lemma otoken_none_or m : otoken m = Some (Ok tt) ↔ ∀ s, m = Some s → otext s true = Some (Ok tt).
Proof. destruct m as [s|]; [|done]. unfold otoken, token, otext. cbn. naive_solver. Qed.

Lemma validateSchema_revision s : validateSchema s = Some (Ok tt) → otoken (sb_Revision s) = Some (Ok tt).
Proof. unfold validateSchema. rewrite !outcome_seq_ok. tauto. Qed.

Lemma compact_record_ok r : ValidateRecord r = Some (Ok tt) →
  Z.of_nat (length (cv_Paths (rec_Coverage r))) ≤ 256 →
  validateSourceRecord (CompactSourceRecord r) = Some (Ok tt).
Proof.
  unfold ValidateRecord, validateSourceRecord, validateRepresentation. rewrite !outcome_seq_ok.
  intros (_ & ? & ? & ? & (? & ? & ?%validateSchema_revision) & ? & ?) Hl. cbn [CompactSourceRecord sr_Reference sr_Body
    sr_Representation sr_Coverage sr_SourceRevision representation_ref ref_ID ref_Revision ref_SchemaRevision].
  split_and!; try done. rewrite require_ok, negb_true_iff. by apply Z.ltb_ge.
Qed.

Lemma within_nil a : identityWithinQueryScope a None = true.
Proof. unfold identityWithinQueryScope. apply forallb_elem. intros e _. done. Qed.

(** What the catalog-bound page check accepts, the session fence accepts: when a
    page passes [checkPage] for a target naming its representation and type, the
    observation made of each of its records passes the source fence and binds
    to the session's representation, whatever scopes and identities are
    involved, if only the record lists at most 256 coverage paths. *)
Theorem checkPage_observable page d target size :
  checkPage page d target size = Some (Ok tt) →
  rt_Type target = t_Type d → rt_Representation target ≠ "" →
  Forall (λ r, Z.of_nat (length (cv_Paths (rec_Coverage r))) ≤ 256 →
    checkSourceObservation d target (page_observation r) = Some (Ok tt)
    ∧ same_binding (sr_Representation (ob_Record (page_observation r))) (rec_Representation r) = true)
    (pg_Records page).
Proof.
  unfold checkPage. rewrite !outcome_seq_ok, check_records_ok. intros (_ & _ & Hr & _) Hty Hne.
  eapply Forall_impl; [exact Hr|]. cbv beta. intros r (Hv & Hp & Ha & Ht & Had & Hrep & _ & Hs) Hl. split.
  - unfold checkSourceObservation, ValidateSourceObservation, validateSourceObservationAdapter.
    rewrite !outcome_seq_ok, or_else_ok, require_ok. cbn [page_observation ob_Record ob_Metadata ob_DisplayName
      ob_DocumentCoverage]. split_and!; try done; [by apply compact_record_ok|].
    unfold sourceContainsReference. cbn [CompactSourceRecord sr_Reference sr_Representation representation_ref ref_ID].
    fold (record_address r). rewrite Hp, Ha, Ht, Hty, Hrep by done.
    rewrite !bool_decide_eq_true_2 by done. cbn [andb].
    destruct (rt_Scope target) as [l|]; [by apply Hs|apply within_nil].
  - unfold same_binding. cbn [page_observation ob_Record CompactSourceRecord sr_Representation representation_ref ref_ID
      ref_Revision ref_SchemaRevision]. rewrite !bool_decide_eq_true_2 by done.
    destruct (sb_Revision (rp_Schema (rec_Representation r))); [|done]. cbn. by rewrite bool_decide_eq_true_2.
Qed.
End page_bridge.

(** ** A concrete session *)

#[local] Instance sample_wire : Protowire := {| SizeVarint n := Z.min 10 (varintSize n `max` 1); EncodeZigZag n := 2 * n |}.
#[local] Instance sample_wire_laws : ProtowireLaws.
Proof. constructor. intros n. simpl. lia. Qed.

Definition sample_open : SourceOpenRequest :=
  mkSourceOpen "s1" "g1"
    (mkReadTarget (mkRoute "c1") "k8s" "auth" "Pod" (Some [mkConstraint "ns" ScopeAny None]) "default")
    SourceModeSnapshotAndUpdates (mkAcquisition SourceAcquisitionEnumerate "" None) (mkSourceLimits 4096 8)
    (mkBinding (mkRepresentation "default" "v1" sample_schema)).
Definition sample_tracker : SourcePhaseTracker := NewSourcePhaseTracker sample_open ContinuityGapFree.
Definition sample_reference : ResourceReference :=
  mkReference (mkAddress "k8s" "auth" "Pod" [mkScopeEntry "ns" "dev"] "p1") None.
Definition sample_absent : DocumentCoverage :=
  mkDocumentCoverage [mkPath [mkSegment (Some "spec") None]; mkPath [mkSegment (Some "items") None; mkSegment None (Some 3)]].
Definition sample_body : Value :=
  mkValue "map" false "" "" "" zero_float "" None
    (Some [("items", mkValue "list" false "" "" "" zero_float "" (Some [mkValue "null" false "" "" "" zero_float "" None None]) None)]).
Definition sample_observation : SourceObservation :=
  mkObservation (mkSourceRecord sample_reference sample_body (mkRepresentationRef "default" "v1" None)
                   (mkCoverage "complete" [] "") None) None (Some "pod one") sample_absent.
Definition sample_frame (n : Z) : SourceFrame := mkFrame "s1" "g1" n None None None None None None.
Definition sample_complete : SourceCoverage := mkSourceCoverage EnumerationExhausted ConsistencyPointInTime [].
Definition sample_frames : list (SourceFrame * Z) :=
  [(mkFrame "s1" "g1" 1 (Some (mkBegin SourceModeSnapshotAndUpdates)) None None None None None, 10);
   (mkFrame "s1" "g1" 2 None (Some (mkSnapshot [sample_observation])) None None None None, 200);
   (mkFrame "s1" "g1" 3 None None (Some (mkSnapshotEnd sample_complete ContinuityGapFree)) None None None, 40);
   (mkFrame "s1" "g1" 4 None None None
      (Some (mkChanges [mkChange SourceChangeRemove None (Some sample_reference) None] None)) None None, 60);
   (mkFrame "s1" "g1" 5 None None None None (Some (mkReset SourceResetOverflow "")) None, 20)].

Lemma sample_opened : opened sample_tracker.
Proof. left. by exists sample_open, ContinuityGapFree. Defined.

Lemma source_session_iff_witness :
  (∃ q, session true (frame_kinds sample_frames) q) ∧ Forall (frame_ok (λ _, 0) sample_tracker) sample_frames.
Proof.
  destruct (proj1 (source_session_iff (λ _, 0) sample_tracker sample_frames sample_opened)) as (H1 & _ & H2 & _).
  - eexists. vm_compute. reflexivity.
  - split; [exact H1|exact H2].
Defined.

(** A refused frame and a transport end around the accepted ones. *)
Definition sample_history : list tracker_op :=
  OpAdmit (sample_frame 1) 5 :: map (λ p, OpAdmit p.1 p.2) sample_frames ++ [OpTransport (Some EEOF)].

Lemma source_history_witness :
  length (accepted (λ _, 0) sample_tracker sample_history) = 5%nat
  ∧ TransportError (run (λ _, 0) sample_tracker sample_history) (Some EEOF) = Some EEOF
  ∧ session true (frame_kinds (accepted (λ _, 0) sample_tracker sample_history)) Terminal.
Proof.
  destruct (source_history (λ _, 0) sample_tracker sample_history sample_opened) as (_ & _ & _ & _ & _ & Heof).
  assert (TransportError (run (λ _, 0) sample_tracker sample_history) (Some EEOF) = Some EEOF) as He
    by (vm_compute; reflexivity).
  split; [vm_compute; reflexivity|]. split; [exact He|]. exact (proj2 (proj1 Heof He)).
Defined.

Lemma validateDocumentCoverage_iff_witness :
  validateDocumentCoverage sample_absent sample_body = Some (Ok tt) ∧ Forall (absent_path sample_body) (KnownAbsent sample_absent).
Proof.
  assert (validateDocumentCoverage sample_absent sample_body = Some (Ok tt)) as Hv by (vm_compute; reflexivity).
  split; [exact Hv|]. refine (proj2 (proj2 (proj1 (validateDocumentCoverage_iff sample_absent sample_body _) Hv))).
  repeat constructor; discriminate.
Defined.

Lemma checkPage_observable_witness :
  checkPage sample_page sample_type sample_target 5 = Some (Ok tt)
  ∧ Forall (λ r, checkSourceObservation sample_type sample_target (page_observation r) = Some (Ok tt)) (pg_Records sample_page).
Proof.
  assert (checkPage sample_page sample_type sample_target 5 = Some (Ok tt)) as Hc by (vm_compute; reflexivity).
  split; [exact Hc|].
  pose proof (checkPage_observable sample_page sample_type sample_target 5 Hc eq_refl ltac:(discriminate)) as Hf.
  inversion Hf as [|r l Hr Hl]; subst. constructor; [|constructor]. apply Hr. simpl. lia.
Defined.

Lemma source_total_witness :
  ValidateSourceOpenRequest sample_open = Some (Ok tt)
  ∧ (admit_frame (λ _, 0) sample_tracker (sample_frame 1) 5).2 ≠ None.
Proof.
  destruct (source_total (λ _, 0) sample_tracker (sample_frame 1) 5 sample_open) as [_ H].
  split; [vm_compute; reflexivity|exact H].
Defined.
