(* ===== verification/Adapters.v ===== *)
(** * Protobuf adapters (pkg/resource/v2/adapters.go, adapters_source.go,
    source_document.go, adapter_admission.go)

    The encoders from domain values to the messages of
    proto/resource/v2/{domain,source}.proto, field by field, and the decoders
    back, which record the first failure and go on. *)
From S2P Require Import Prelude GoStd GoTime GoJson Errors Values Proto Json TaggedJson Budget Domain Validation Canonical Scopes Admission Source.
Local Open Scope Z_scope.

Definition WireVersion : Z := 2.

(** ** Encoders *)

(** The panic on nanoseconds out of range cannot occur: [time.Time] keeps them
    below a second. *)
Definition toTimestamp (t : Time) : message := put_sint 1 (Unix t) ++ put_uint 2 (Nanosecond t).
Definition toOptionalTimestamp (t : option NativeTime) : option message := toTimestamp ∘ nt_UTC <$> t.

(** An unknown kind leaves the selection unset. *)
Fixpoint toValue (v : Value) : message :=
  let k := vKind v in
  if bool_decide (k = valueKindNull) then put_message 1 []
  else if bool_decide (k = valueKindBool) then [(2, [PVarint (if vBool v then 1 else 0)])]
  else if bool_decide (k = valueKindString) then [(3, [PString (vString v)])]
  else if bool_decide (k = valueKindInt64) then [(4, [PSint (ParseInt_value (vInt v))])]
  else if bool_decide (k = valueKindUint64) then [(5, [PVarint (ParseUint_value (vUint v))])]
  else if bool_decide (k = valueKindDouble) then [(6, [PDouble (vDouble v)])]
  else if bool_decide (k = valueKindTimestamp) then
    put_message 7 (toTimestamp (timestamp_or_zero (vTimestamp v)))
  else if bool_decide (k = valueKindList) then
    put_message 8 (put_messages 1 match vList v with Some l => map toValue l | None => [] end)
  else if bool_decide (k = valueKindMap) then
    put_message 9 (put_messages 1
      (map (λ e : string * message, put_string 1 e.1 ++ put_message 2 e.2)
        (sort_entries match vMap v with Some m => map (λ e, (e.1, toValue e.2)) m | None => [] end)))
  else [].

Definition toScopeEntry (v : ScopeEntry) : message := put_string 1 (se_Dimension v) ++ put_string 2 (se_Value v).
Definition toResourceAddress (v : ResourceAddress) : message :=
  put_string 1 (a_Provider v) ++ put_string 2 (a_Authority v) ++ put_string 3 (a_Type v)
  ++ put_messages 4 (map toScopeEntry (sort_by se_Dimension (a_Scope v))) ++ put_string 5 (a_ID v).
Definition toAccessRoute (v : AccessRoute) : message := put_string 1 (Connection v).
Definition toResourceReference (v : ResourceReference) : message :=
  put_message 1 (toResourceAddress (r_Address v)) ++ put_optional 2 (r_Incarnation v).

(** [*v.Values] of a nil pointer would panic; a valid constraint other than any
    has values. *)
Definition toScopeConstraint (v : ScopeConstraint) : message :=
  put_string 1 (c_Dimension v) ++
  (if bool_decide (c_Match v = ScopeAny) then put_message 2 []
   else put_message 3 (put_strings 1 (canonicalScopeValues (default [] (c_Values v))))).
Definition toQueryScope (v : QueryScope) : message :=
  put_messages 1 (map toScopeConstraint (sort_by c_Dimension (listOf v))).

Definition toSchemaDocumentReference (v : SchemaDocumentReference) : message :=
  put_string 1 (dr_ID v) ++ put_string 2 (dr_Revision v).
Definition toSchemaDocument (v : SchemaDocument) : message :=
  put_message 1 (toSchemaDocumentReference (sd_Reference v)) ++ put_string 2 (sd_Dialect v)
  ++ put_bytes 3 (default [] (sd_Document v)).
Definition toSchemaBinding (v : SchemaBinding) : message :=
  put_string 1 (sb_State v) ++ put_optional 2 (sb_Revision v) ++ put_string 3 (sb_Dialect v)
  ++ put_bytes 4 (default [] (sb_Document v)) ++ put_some 7 (toSchemaDocumentReference <$> sb_DocumentRef v)
  ++ put_string 8 (sb_Root v) ++ put_optional 9 (sb_UnavailableReason v).
Definition toRepresentation (v : Representation) : message :=
  put_string 1 (rp_ID v) ++ put_string 2 (rp_Revision v) ++ put_message 3 (toSchemaBinding (rp_Schema v)).

Definition toReadTarget (v : ReadTarget) : message :=
  put_message 1 (toAccessRoute (rt_Route v)) ++ put_string 2 (rt_Provider v) ++ put_string 3 (rt_Authority v)
  ++ put_string 4 (rt_Type v) ++ put_message 5 (toQueryScope (rt_Scope v)) ++ put_string 6 (rt_Representation v).
Definition toGetRequest (v : GetRequest) : message :=
  put_message 1 (toAccessRoute (g_Route v)) ++ put_message 2 (toResourceReference (g_Reference v))
  ++ put_string 3 (g_Representation v).
Definition toEnumerateRequest (v : EnumerateRequest) : message :=
  put_message 1 (toReadTarget (e_Target v)) ++ put_uint 2 (e_PageSize v) ++ put_optional 3 (e_Cursor v).
Definition toNativeQueryRequest (v : NativeQueryRequest) : message :=
  put_message 1 (toReadTarget (q_Target v)) ++ put_string 2 (q_Language v) ++ put_message 3 (toValue (q_Query v))
  ++ put_uint 4 (q_PageSize v) ++ put_optional 5 (q_Cursor v).
Definition toMutationRequest (v : MutationRequest) : message :=
  put_message 1 (toAccessRoute (m_Route v)) ++ put_message 2 (toResourceReference (m_Reference v))
  ++ put_string 3 (m_Operation v) ++ put_message 4 (toValue (m_Input v)) ++ put_optional 5 (m_ExpectedRevision v).

Definition toCoverage (v : Coverage) : message :=
  put_string 1 (cv_Kind v) ++ put_strings 2 (cv_Paths v) ++ put_string 3 (cv_Reason v).
Definition toCount (v : Domain.Count) : message := put_string 1 (cn_Kind v) ++ put_optional 2 (cn_Value v).
Definition toRecord (v : ResourceRecord) : message :=
  put_message 1 (toResourceReference (rec_Reference v)) ++ put_message 2 (toValue (rec_Body v))
  ++ put_message 3 (toRepresentation (rec_Representation v)) ++ put_message 4 (toCoverage (rec_Coverage v))
  ++ put_optional 5 (rec_SourceRevision v).
Definition toSourcePage (v : SourcePage) : message :=
  put_messages 1 (map toRecord (pg_Records v)) ++ put_optional 2 (NextCursor v)
  ++ put_message 3 (toCount (pg_Count v)) ++ put_message 4 (toCoverage (pg_Coverage v))
  ++ put_string 5 (Consistency v) ++ put_optional 6 (pg_SourceRevision v).

(** *** Source sessions *)

Definition toResourceMetadata (v : ResourceMetadata) : message :=
  put_messages 1 (map (λ e, put_string 1 e.1 ++ put_string 2 e.2) (sort_entries (listOf (md_Labels v))))
  ++ put_some 2 (toOptionalTimestamp (md_CreatedAt v)).
Definition toSourceLimits (v : SourceLimits) : message := put_uint 1 (MaxFrameBytes v) ++ put_uint 2 (MaxBatchItems v).
(** A native query acquisition without a query would panic; validation requires
    one. *)
Definition toSourceAcquisition (v : SourceAcquisition) : message :=
  if bool_decide (aq_Kind v = SourceAcquisitionEnumerate) then put_message 1 []
  else if bool_decide (aq_Kind v = SourceAcquisitionNativeQuery) then
    put_message 2 (put_string 1 (aq_Language v) ++ put_some 2 (toValue <$> aq_Query v))
  else [].
Definition toSourceOpenRequest (v : SourceOpenRequest) : message :=
  put_uint 1 WireVersion ++ put_string 2 (so_SessionID v) ++ put_string 3 (so_Generation v)
  ++ put_message 4 (toReadTarget (so_Target v)) ++ put_string 5 (so_Mode v)
  ++ put_message 6 (toSourceAcquisition (so_Acquisition v)) ++ put_message 7 (toSourceLimits (so_Limits v))
  ++ put_message 8 (put_message 1 (toRepresentation (b_Representation (so_Binding v)))).
Definition toSourceCoverage (v : SourceCoverage) : message :=
  put_string 1 (sc_Enumeration v) ++ put_string 2 (sc_Consistency v) ++ put_strings 3 (sc_Limitations v).

(** [*segment.Index] of a nil pointer would panic; a valid segment has a member
    or an index. *)
Definition toFieldPathSegment (s : FieldPathSegment) : message :=
  match seg_Member s with
  | Some name => put_message 1 (put_string 1 name)
  | None => put_message 2 (put_uint 1 (default 0 (seg_Index s)))
  end.
Definition toDocumentCoverage (c : DocumentCoverage) : message :=
  put_messages 1 (map (λ p, put_messages 1 (map toFieldPathSegment (Segments p))) (KnownAbsent c)).
Definition toRepresentationRef (r : RepresentationRef) : message :=
  put_string 1 (ref_ID r) ++ put_string 2 (ref_Revision r) ++ put_optional 3 (ref_SchemaRevision r).
Definition toSourceRecord (r : SourceRecord) : message :=
  put_message 1 (toResourceReference (sr_Reference r)) ++ put_message 2 (toValue (sr_Body r))
  ++ put_message 3 (toRepresentationRef (sr_Representation r)) ++ put_message 4 (toCoverage (sr_Coverage r))
  ++ put_optional 5 (sr_SourceRevision r).
Definition toSourceObservation (v : SourceObservation) : message :=
  put_some 2 (toResourceMetadata <$> ob_Metadata v) ++ put_optional 3 (ob_DisplayName v)
  ++ put_message 4 (toDocumentCoverage (ob_DocumentCoverage v)) ++ put_message 5 (toSourceRecord (ob_Record v)).
(** The dereferenced members are present in a valid change. *)
Definition toSourceChange (v : SourceChange) : message :=
  if bool_decide (ch_Kind v = SourceChangeUpsert) then put_some 1 (toSourceObservation <$> ch_Observation v)
  else put_message 2 (put_some 1 (toResourceReference <$> ch_Reference v) ++ put_optional 2 (ch_SourceRevision v)).
Definition toSourceBegin (v : SourceBegin) : message := put_string 1 (bg_Mode v).
Definition toSourceSnapshot (v : SourceSnapshot) : message :=
  put_messages 1 (map toSourceObservation (Observations v)).
Definition toSourceSnapshotEnd (v : SourceSnapshotEnd) : message :=
  put_message 1 (toSourceCoverage (se_Coverage v)) ++ put_string 2 (se_Continuity v).
Definition toSourceChanges (v : SourceChanges) : message :=
  put_messages 1 (map toSourceChange (Changes v)) ++ put_some 2 (toSourceCoverage <$> ch_Coverage v).
Definition toSourceReset (v : SourceReset) : message := put_string 1 (rs_Reason v) ++ put_string 2 (rs_Message v).
Definition toSourceFailure (v : SourceFailure) : message := put_string 1 (fl_Code v) ++ put_string 2 (fl_Message v).
(** The first payload present is the one sent. *)
Definition toSourcePayload (v : SourceFrame) : message :=
  match f_Begin v, f_Snapshot v, f_SnapshotEnd v, f_Changes v, f_Reset v, f_Failed v with
  | Some p, _, _, _, _, _ => put_message 5 (toSourceBegin p)
  | _, Some p, _, _, _, _ => put_message 6 (toSourceSnapshot p)
  | _, _, Some p, _, _, _ => put_message 7 (toSourceSnapshotEnd p)
  | _, _, _, Some p, _, _ => put_message 8 (toSourceChanges p)
  | _, _, _, _, Some p, _ => put_message 9 (toSourceReset p)
  | _, _, _, _, _, Some p => put_message 10 (toSourceFailure p)
  | _, _, _, _, _, _ => []
  end.
Definition toSourceFrame (v : SourceFrame) : message :=
  put_uint 1 WireVersion ++ put_string 2 (f_SessionID v) ++ put_string 3 (f_Generation v)
  ++ put_uint 4 (Sequence v) ++ toSourcePayload v.

(** ** The decoder *)

(** [adapterDecoder]: the recorded error and the value nodes seen. *)
Record adapterDecoder := mkDecoder { d_err : option error; d_nodes : Z }.
(** A method of the decoder: its result and what it records. *)
Definition decodes (A : Type) : Type := adapterDecoder → A * adapterDecoder.
#[export] Instance decodes_ret : MRet decodes := λ A a d, (a, d).
#[export] Instance decodes_bind : MBind decodes := λ A B k m d, let '(a, d) := m d in k a d.

(** [d.fail] keeps the first error; [d.err = e] replaces it. *)
Definition fail_with (e : error) : decodes unit := λ d,
  (tt, match d_err d with None => mkDecoder (Some e) (d_nodes d) | Some _ => d end).
Definition fail (detail : string) : decodes unit := fail_with (invalid detail).
Definition set_err (e : error) : decodes unit := λ d, (tt, mkDecoder (Some e) (d_nodes d)).
Definition failed : decodes bool := λ d, (match d_err d with None => false | Some _ => true end, d).
Definition count_node : decodes Z := λ d, (d_nodes d + 1, mkDecoder (d_err d) (d_nodes d + 1)).
Definition nodes_left : decodes Z := λ d, (maxDomainNodes - d_nodes d, d).

(** [for i, p := range l { v[i] = f(p) }]. *)
Definition decode_all {A B} (f : A → decodes B) : list A → decodes (list B) :=
  fix go l := match l with [] => mret [] | a :: l => b ← f a; bs ← go l; mret (b :: bs) end.

Definition zero_value : Value := tagged_zero "".


Definition seconds_out (s : Z) : bool := (s <? -62135596800) || (253402300799 <? s).
Definition maxTimestampNanos : Z := 999999999.

(** A set selection always carries its message: admission has refused nil ones. *)
Definition timestampValue (t : message) : decodes Value :=
  if seconds_out (get_sint 1 t) || (999999999 <? get_uint 2 t) then
    fail "timestamp out of range" ;; mret zero_value
  else mret (TimestampValue (mkTime (get_sint 1 t) (get_uint 2 t))).

Section containers.
Context (valueAt : option message → Z → decodes Value).

(** The loop leaves the remaining elements zero after a failure. *)
Definition list_values (depth : Z) :=
  fix go (l : list message) : decodes (list Value) :=
    match l with
    | [] => mret []
    | p :: l =>
      v ← valueAt (Some p) (depth + 1);
      stop ← failed;
      if stop : bool then mret (v :: replicate (length l) zero_value)
      else vs ← go l; mret (v :: vs)
    end.
Definition listValue (m : message) (depth : Z) : decodes Value :=
  let values := get_messages 1 m in
  left ← nodes_left;
  if left <? Z.of_nat (length values) then set_err (limited "value node limit") ;; mret zero_value
  else
    l ← list_values depth values;
    mret (mkValue valueKindList false "" "" "" zero_float "" (Some l) None).

(** Keys are scanned on after a child fails; a repeated key overrides its error. *)
Definition map_values (depth : Z) :=
  fix go (l : list message) (seen : list (string * Value)) : decodes Value :=
    match l with
    | [] => mret (mkValue valueKindMap false "" "" "" zero_float "" None (Some seen))
    | e :: l =>
      let key := get_string 1 e in
      match map_get key seen with
      | Some _ => set_err (invalid "duplicate map key") ;; mret zero_value
      | None => v ← valueAt (get_message 2 e) (depth + 1); go l (seen ++ [(key, v)])
      end
    end.
Definition mapValue (m : message) (depth : Z) : decodes Value :=
  let entries := get_messages 1 m in
  left ← nodes_left;
  if left <? Z.of_nat (length entries) then set_err (limited "value node limit") ;; mret zero_value
  else map_values depth entries [].

(** The switch on the selection. *)
Definition selected_value (m : message) (depth : Z) : decodes Value :=
  match oneof [1; 2; 3; 4; 5; 6; 7; 8; 9] m with
  | Some (1, PMsg _ _) => mret (tagged_zero valueKindNull)
  | Some (2, PVarint b) => mret (mkValue valueKindBool (negb (b =? 0)) "" "" "" zero_float "" None None)
  | Some (3, PString s) => mret (mkValue valueKindString false s "" "" zero_float "" None None)
  | Some (4, PSint n) => mret (int_value n)
  | Some (5, PVarint n) => mret (uint_value n)
  | Some (6, PDouble x) => mret (double_value x)
  | Some (7, PMsg _ t) => timestampValue t
  | Some (8, PMsg _ l) => listValue l depth
  | Some (9, PMsg _ l) => mapValue l depth
  | _ => fail "unset value selection" ;; mret zero_value
  end.
End containers.

(** Deeper than [maxDomainDepth] the recursion stops, so [value_fuel] levels are
    enough ([valueAt_fuel]). *)
Fixpoint valueAt (fuel : nat) (p : option message) (depth : Z) : decodes Value :=
  stop ← failed;
  if stop : bool then mret zero_value else
  n ← count_node;
  if (maxDomainDepth <? depth) || (maxDomainNodes <? n) then
    set_err (limited "value complexity limit") ;; mret zero_value
  else
  match fuel, p with
  | O, _ => mret zero_value
  | _, None => fail "missing value" ;; mret zero_value
  | S fuel, Some m =>
    selected_value (valueAt fuel) m depth
  end.
Definition value_fuel : nat := 66.
Definition decode_value (p : option message) : decodes Value := valueAt value_fuel p 0.

Definition zero_address : ResourceAddress := mkAddress "" "" "" [] "".
Definition zero_reference : ResourceReference := mkReference zero_address None.
Definition zero_constraint : ScopeConstraint := mkConstraint "" "" None.
Definition zero_schema : SchemaBinding := mkSchemaBinding "" None "" "" None None None.
Definition zero_representation : Representation := mkRepresentation "" "" zero_schema.
Definition zero_coverage : Coverage := mkCoverage "" [] "".

(** [if p == nil { d.fail(detail); return zero }]. *)
Definition require_message {A} (p : option message) (detail : string) (zero : A) (k : message → decodes A) : decodes A :=
  match p with Some m => k m | None => fail detail ;; mret zero end.

(** A validator's error is recorded like a failure; validators do not panic. *)
Definition check_with (r : outcome unit) : decodes bool := λ d,
  match r with
  | Some (Err e) => let '(_, d) := fail_with e d in (false, d)
  | _ => (true, d)
  end.

Definition scopeEntry (p : message) : decodes ScopeEntry := mret (mkScopeEntry (get_string 1 p) (get_string 2 p)).
Definition decode_address (p : option message) : decodes ResourceAddress :=
  require_message p "missing address" zero_address (λ p,
    scope ← decode_all scopeEntry (get_messages 4 p);
    let v := mkAddress (get_string 1 p) (get_string 2 p) (get_string 3 p) scope (get_string 5 p) in
    ok ← check_with (ValidateAddress v None);
    mret (if ok : bool
          then mkAddress (a_Provider v) (a_Authority v) (a_Type v) (sort_by se_Dimension scope) (a_ID v) else v)).
Definition decode_route (p : option message) : decodes AccessRoute :=
  require_message p "missing route" (mkRoute "") (λ p, mret (mkRoute (get_string 1 p))).
Definition decode_reference (p : option message) : decodes ResourceReference :=
  require_message p "missing reference" zero_reference (λ p,
    a ← decode_address (get_message 1 p); mret (mkReference a (get_optional 2 p))).
Definition decode_constraint (p : message) : decodes ScopeConstraint :=
  match oneof [2; 3] p with
  | Some (2, PMsg _ _) => mret (mkConstraint (get_string 1 p) ScopeAny None)
  | Some (3, PMsg _ m) => mret (mkConstraint (get_string 1 p) ScopeOneOf (Some (get_strings 1 m)))
  | _ => fail "unset scope selection" ;; mret (mkConstraint (get_string 1 p) "" None)
  end.
Definition decode_scope (p : option message) : decodes QueryScope :=
  match p with
  | None => mret (Some [])
  | Some p =>
    v ← decode_all decode_constraint (get_messages 1 p);
    ok ← check_with (ValidateScope (Some v) None);
    mret (Some (if ok : bool then normalizeScopeOwned v else v))
  end.

(** [append([]byte(nil), b...)] of no bytes is nil. *)
Definition copy_bytes (b : bytes) : option bytes := match b with [] => None | _ => Some b end.
Definition decode_schemaDocumentReference (p : option message) : decodes SchemaDocumentReference :=
  require_message p "missing schema document reference" (mkDocRef "" "") (λ p,
    mret (mkDocRef (get_string 1 p) (get_string 2 p))).
Definition decode_schemaDocument (p : option message) : decodes SchemaDocument :=
  require_message p "missing schema document" (mkSchemaDocument (mkDocRef "" "") "" None) (λ p,
    r ← decode_schemaDocumentReference (get_message 1 p);
    mret (mkSchemaDocument r (get_string 2 p) (copy_bytes (get_bytes 3 p)))).
Definition decode_schema (p : option message) : decodes SchemaBinding :=
  require_message p "missing schema binding" zero_schema (λ p,
    r ← match get_message 7 p with
        | Some m => r ← decode_schemaDocumentReference (Some m); mret (Some r)
        | None => mret None
        end;
    mret (mkSchemaBinding (get_string 1 p) (get_optional 2 p) (get_string 3 p) (get_string 8 p) r
            (copy_bytes (get_bytes 4 p)) (get_optional 9 p))).
Definition decode_representation (p : option message) : decodes Representation :=
  require_message p "missing representation" zero_representation (λ p,
    s ← decode_schema (get_message 3 p); mret (mkRepresentation (get_string 1 p) (get_string 2 p) s)).

Definition zero_target : ReadTarget := mkReadTarget (mkRoute "") "" "" "" None "".
Definition decode_target (p : option message) : decodes ReadTarget :=
  require_message p "missing target" zero_target (λ p,
    r ← decode_route (get_message 1 p);
    s ← decode_scope (get_message 5 p);
    mret (mkReadTarget r (get_string 2 p) (get_string 3 p) (get_string 4 p) s (get_string 6 p))).
Definition decode_get (p : option message) : decodes GetRequest :=
  require_message p "missing get request" (mkGetRequest (mkRoute "") zero_reference "") (λ p,
    r ← decode_route (get_message 1 p);
    x ← decode_reference (get_message 2 p);
    mret (mkGetRequest r x (get_string 3 p))).
Definition decode_enumerate (p : option message) : decodes EnumerateRequest :=
  require_message p "missing enumerate request" (mkEnumerateRequest zero_target 0 None) (λ p,
    t ← decode_target (get_message 1 p); mret (mkEnumerateRequest t (get_uint 2 p) (get_optional 3 p))).
Definition decode_nativeQuery (p : option message) : decodes NativeQueryRequest :=
  require_message p "missing native query request" (mkNativeQueryRequest zero_target "" zero_value 0 None) (λ p,
    t ← decode_target (get_message 1 p);
    q ← decode_value (get_message 3 p);
    mret (mkNativeQueryRequest t (get_string 2 p) q (get_uint 4 p) (get_optional 5 p))).
Definition decode_mutation (p : option message) : decodes MutationRequest :=
  require_message p "missing mutation request" (mkMutationRequest (mkRoute "") zero_reference "" zero_value None) (λ p,
    r ← decode_route (get_message 1 p);
    x ← decode_reference (get_message 2 p);
    v ← decode_value (get_message 4 p);
    mret (mkMutationRequest r x (get_string 3 p) v (get_optional 5 p))).

Definition decode_coverage (p : option message) : decodes Coverage :=
  require_message p "missing coverage" zero_coverage (λ p,
    mret (mkCoverage (get_string 1 p) (get_strings 2 p) (get_string 3 p))).
Definition decode_count (p : option message) : decodes Domain.Count :=
  require_message p "missing count" (mkCount "" None) (λ p, mret (mkCount (get_string 1 p) (get_optional 2 p))).
Definition decode_record (p : option message) : decodes ResourceRecord :=
  require_message p "missing record" (mkRecord zero_reference zero_value zero_representation zero_coverage None) (λ p,
    r ← decode_reference (get_message 1 p);
    b ← decode_value (get_message 2 p);
    rp ← decode_representation (get_message 3 p);
    c ← decode_coverage (get_message 4 p);
    mret (mkRecord r b rp c (get_optional 5 p))).
Definition zero_page : SourcePage := mkSourcePage [] None (mkCount "" None) zero_coverage "" None.
Definition decode_page (p : option message) : decodes SourcePage :=
  require_message p "missing page" zero_page (λ p,
    let records := get_messages 1 p in
    if maxPageRecords <? Z.of_nat (length records) then set_err (limited "page record limit") ;; mret zero_page
    else
      n ← decode_count (get_message 3 p);
      c ← decode_coverage (get_message 4 p);
      rs ← decode_all (λ r, decode_record (Some r)) records;
      mret (mkSourcePage rs (get_optional 2 p) n c (get_string 5 p) (get_optional 6 p))).

(** *** Source sessions *)

(** [d.timestamp]: in UTC, whose year is then the local one. *)
Definition decode_timestamp (p : message) : decodes NativeTime :=
  if seconds_out (get_sint 1 p) || (maxTimestampNanos <? get_uint 2 p) then
    fail "timestamp out of range" ;; mret (mkNativeTime 1 zero_time)
  else let t := mkTime (get_sint 1 p) (get_uint 2 p) in mret (mkNativeTime (utc_year t) t).
Definition decode_optionalTimestamp (p : option message) : decodes (option NativeTime) :=
  match p with None => mret None | Some p => t ← decode_timestamp p; mret (Some t) end.

Definition zero_metadata : ResourceMetadata := mkResourceMetadata None None.
(** [None] after a repeated label. *)
Fixpoint decode_labels (l : list message) (seen : list (string * string)) : decodes (option (list (string * string))) :=
  match l with
  | [] => mret (Some seen)
  | e :: l =>
    match map_get (get_string 1 e) seen with
    | Some _ => fail "duplicate metadata label" ;; mret None
    | None => decode_labels l (seen ++ [(get_string 1 e, get_string 2 e)])
    end
  end.
Definition decode_metadata (p : option message) : decodes ResourceMetadata :=
  match p with
  | None => mret (mkResourceMetadata (Some []) None)
  | Some p =>
    labels ← decode_labels (get_messages 1 p) [];
    match labels with
    | None => mret zero_metadata
    | Some labels => t ← decode_optionalTimestamp (get_message 2 p); mret (mkResourceMetadata (Some labels) t)
    end
  end.
Definition decode_sourceLimits (p : option message) : decodes SourceLimits :=
  require_message p "missing source limits" (mkSourceLimits 0 0) (λ p, mret (mkSourceLimits (get_uint 1 p) (get_uint 2 p))).
Definition decode_sourceAcquisition (p : option message) : decodes SourceAcquisition :=
  require_message p "missing source acquisition" (mkAcquisition "" "" None) (λ p,
    match oneof [1; 2] p with
    | Some (1, PMsg _ _) => mret (mkAcquisition SourceAcquisitionEnumerate "" None)
    | Some (2, PMsg _ m) =>
      q ← decode_value (get_message 2 m);
      mret (mkAcquisition SourceAcquisitionNativeQuery (get_string 1 m) (Some q))
    | _ => fail "missing source acquisition kind" ;; mret (mkAcquisition "" "" None)
    end).
Definition check_version (p : message) : decodes unit :=
  if negb (get_uint 1 p =? WireVersion) then fail "invalid wire version" else mret tt.
(** The getters of a nil request read defaults. *)
Definition decode_sourceOpenRequest (p : option message) : decodes SourceOpenRequest :=
  let p := default [] p in
  check_version p ;;
  binding ← match get_message 8 p with
            | None => fail "missing representation binding" ;; mret (mkBinding zero_representation)
            | Some b => r ← decode_representation (get_message 1 b); mret (mkBinding r)
            end;
  t ← decode_target (get_message 4 p);
  a ← decode_sourceAcquisition (get_message 6 p);
  l ← decode_sourceLimits (get_message 7 p);
  mret (mkSourceOpen (get_string 2 p) (get_string 3 p) t (get_string 5 p) a l binding).
Definition decode_sourceCoverage (p : option message) : decodes SourceCoverage :=
  require_message p "missing source coverage" (mkSourceCoverage "" "" []) (λ p,
    mret (mkSourceCoverage (get_string 1 p) (get_string 2 p) (get_strings 3 p))).

(** The decoder returns at the first bad segment. *)
Fixpoint decode_segments (l : list message) : decodes (option (list FieldPathSegment)) :=
  match l with
  | [] => mret (Some [])
  | s :: l =>
    match oneof [1; 2] s with
    | Some (1, PMsg _ m) =>
      r ← decode_segments l; mret (cons (mkSegment (Some (get_string 1 m)) None) <$> r)
    | Some (2, PMsg _ m) =>
      r ← decode_segments l; mret (cons (mkSegment None (Some (get_uint 1 m))) <$> r)
    | _ => fail "missing field path selection" ;; mret None
    end
  end.
Fixpoint decode_paths (l : list message) : decodes (option (list DocumentFieldPath)) :=
  match l with
  | [] => mret (Some [])
  | p :: l =>
    let segments := get_messages 1 p in
    if 256 <? Z.of_nat (length segments) then fail "invalid field path" ;; mret None
    else
      r ← decode_segments segments;
      match r with
      | None => mret None
      | Some s => r ← decode_paths l; mret (cons (mkPath s) <$> r)
      end
  end.
Definition decode_documentCoverage (p : option message) : decodes DocumentCoverage :=
  require_message p "missing document coverage" (mkDocumentCoverage []) (λ p,
    let paths := get_messages 1 p in
    if 256 <? Z.of_nat (length paths) then
      set_err (limited "known absent path limit") ;; mret (mkDocumentCoverage [])
    else r ← decode_paths paths; mret (mkDocumentCoverage (default [] r))).

Definition zero_record : SourceRecord :=
  mkSourceRecord zero_reference zero_value (mkRepresentationRef "" "" None) zero_coverage None.
Definition zero_observation : SourceObservation := mkObservation zero_record None None (mkDocumentCoverage []).
Definition decode_sourceObservation (p : option message) : decodes SourceObservation :=
  require_message p "missing source observation" zero_observation (λ p,
    match get_message 5 p with
    | None => fail "missing source record or representation" ;; mret zero_observation
    | Some record =>
      match get_message 3 record with
      | None => fail "missing source record or representation" ;; mret zero_observation
      | Some ref =>
        r ← decode_reference (get_message 1 record);
        b ← decode_value (get_message 2 record);
        c ← decode_coverage (get_message 4 record);
        k ← decode_documentCoverage (get_message 4 p);
        md ← match get_message 2 p with
             | None => mret None
             | Some m => m ← decode_metadata (Some m); mret (Some m)
             end;
        mret (mkObservation
                (mkSourceRecord r b (mkRepresentationRef (get_string 1 ref) (get_string 2 ref) (get_optional 3 ref)) c
                   (get_optional 5 record)) md (get_optional 3 p) k)
      end
    end).
Definition zero_change : SourceChange := mkChange "" None None None.
Definition decode_sourceChange (p : option message) : decodes SourceChange :=
  require_message p "missing source change" zero_change (λ p,
    match oneof [1; 2] p with
    | Some (1, PMsg _ m) =>
      o ← decode_sourceObservation (Some m); mret (mkChange SourceChangeUpsert (Some o) None None)
    | Some (2, PMsg _ m) =>
      r ← decode_reference (get_message 1 m); mret (mkChange SourceChangeRemove None (Some r) (get_optional 2 m))
    | _ => fail "missing source change kind" ;; mret zero_change
    end).
Definition decode_sourceBegin (p : option message) : decodes SourceBegin :=
  require_message p "missing source begin" (mkBegin "") (λ p, mret (mkBegin (get_string 1 p))).
Definition decode_sourceSnapshot (p : option message) : decodes SourceSnapshot :=
  require_message p "missing source snapshot" (mkSnapshot []) (λ p,
    let os := get_messages 1 p in
    if MaxSourceBatchItems <? Z.of_nat (length os) then set_err (limited "source batch limit") ;; mret (mkSnapshot [])
    else l ← decode_all (λ o, decode_sourceObservation (Some o)) os; mret (mkSnapshot l)).
Definition decode_sourceSnapshotEnd (p : option message) : decodes SourceSnapshotEnd :=
  require_message p "missing source snapshot end" (mkSnapshotEnd (mkSourceCoverage "" "" []) "") (λ p,
    c ← decode_sourceCoverage (get_message 1 p); mret (mkSnapshotEnd c (get_string 2 p))).
Definition decode_sourceChanges (p : option message) : decodes SourceChanges :=
  require_message p "missing source changes" (mkChanges [] None) (λ p,
    let cs := get_messages 1 p in
    if MaxSourceBatchItems <? Z.of_nat (length cs) then set_err (limited "source batch limit") ;; mret (mkChanges [] None)
    else
      l ← decode_all (λ c, decode_sourceChange (Some c)) cs;
      c ← match get_message 2 p with
          | None => mret None
          | Some m => c ← decode_sourceCoverage (Some m); mret (Some c)
          end;
      mret (mkChanges l c)).
Definition decode_sourceReset (p : option message) : decodes SourceReset :=
  require_message p "missing source reset" (mkReset "" "") (λ p, mret (mkReset (get_string 1 p) (get_string 2 p))).
Definition decode_sourceFailure (p : option message) : decodes SourceFailure :=
  require_message p "missing source failure" (mkFailure "" "") (λ p, mret (mkFailure (get_string 1 p) (get_string 2 p))).

Definition empty_frame (sid gen : string) (sequence : Z) : SourceFrame :=
  mkFrame sid gen sequence None None None None None None.
Definition decode_sourceFrame (p : option message) : decodes SourceFrame :=
  let p := default [] p in
  let sid := get_string 2 p in let gen := get_string 3 p in let sq := get_uint 4 p in
  check_version p ;;
  match oneof [5; 6; 7; 8; 9; 10] p with
  | Some (5, PMsg _ m) => x ← decode_sourceBegin (Some m); mret (mkFrame sid gen sq (Some x) None None None None None)
  | Some (6, PMsg _ m) => x ← decode_sourceSnapshot (Some m); mret (mkFrame sid gen sq None (Some x) None None None None)
  | Some (7, PMsg _ m) =>
    x ← decode_sourceSnapshotEnd (Some m); mret (mkFrame sid gen sq None None (Some x) None None None)
  | Some (8, PMsg _ m) => x ← decode_sourceChanges (Some m); mret (mkFrame sid gen sq None None None (Some x) None None)
  | Some (9, PMsg _ m) => x ← decode_sourceReset (Some m); mret (mkFrame sid gen sq None None None None (Some x) None)
  | Some (10, PMsg _ m) =>
    x ← decode_sourceFailure (Some m); mret (mkFrame sid gen sq None None None None None (Some x))
  | _ => fail "missing source frame payload" ;; mret (empty_frame sid gen sq)
  end.

(** ** The exported codecs *)

Section codecs.
Context `{Protowire, ProtoRuntime}.

(** [None] is a nil message with a nil error's place taken by [Err]. *)
Definition toProto `{Reflect A} (validate : A → outcome unit) (encode : A → message) (v : A) : outcome message :=
  admission v ;;
  validate v ;;
  let p := encode v in
  (if MaxMessageBytes <? proto_Size (pmsg p) then fails (limited "encoded message byte limit") else Some (Ok p)).
Definition fromProto {A} (decode : option message → decodes A) (validate : A → outcome unit) (p : option pvalue)
    : outcome A :=
  returns (admitProto p) ;;
  let m := match p with Some (PMsg _ m) => Some m | _ => None end in
  let '(v, d) := decode m (mkDecoder None 0) in
  match d_err d with
  | Some e => fails e
  | None => validate v ;; Some (Ok v)
  end.

Definition ToProtoValue := toProto validate_value toValue.
Definition FromProtoValue := fromProto decode_value validate_value.
Definition ToProtoAccessRoute := toProto validateRoute toAccessRoute.
Definition FromProtoAccessRoute := fromProto decode_route validateRoute.
Definition ToProtoResourceReference := toProto validateReference toResourceReference.
Definition FromProtoResourceReference := fromProto decode_reference validateReference.
Definition ToProtoReadTarget := toProto validateTarget toReadTarget.
Definition FromProtoReadTarget := fromProto decode_target validateTarget.
Definition ToProtoGetRequest := toProto ValidateGetRequest toGetRequest.
Definition FromProtoGetRequest := fromProto decode_get ValidateGetRequest.
End codecs.

(** ** Canonical values *)

(** The value a message carries: native containers, timestamps in canonical text,
    map entries in key order. *)
Fixpoint canonical (v : Value) : Value :=
  let k := vKind v in
  mkValue k (vBool v) (vString v) (vInt v) (vUint v) (vDouble v)
    (if bool_decide (k = valueKindTimestamp) then timestamp_text (timestamp_or_zero (vTimestamp v))
     else vTimestamp v)
    (if bool_decide (k = valueKindList)
     then Some (match vList v with Some l => map canonical l | None => [] end) else vList v)
    (if bool_decide (k = valueKindMap)
     then Some (sort_entries (match vMap v with Some m => map (λ e, (e.1, canonical e.2)) m | None => [] end))
     else vMap v).

Lemma canonical_fields k b s i u d t l m :
  canonical (mkValue k b s i u d t l m) =
  mkValue k b s i u d
    (if bool_decide (k = valueKindTimestamp) then timestamp_text (timestamp_or_zero t) else t)
    (if bool_decide (k = valueKindList) then Some (map canonical (listOf l)) else l)
    (if bool_decide (k = valueKindMap) then Some (map (λ e, (e.1, canonical e.2)) (sort_entries (listOf m))) else m).
Proof. rewrite <- sort_entries_map. by destruct l, m. Qed.

(** The keys of a Go map are distinct. *)
Inductive keyed : Value → Prop :=
| Keyed v : NoDup (listOf (vMap v)).*1 → Forall keyed (listOf (vList v)) →
    Forall (λ e, keyed e.2) (listOf (vMap v)) → keyed v.

Lemma year_seconds t : year_ok t → seconds_out (Unix t) = false.
Proof.
  unfold year_ok, utc_year, seconds_out. intros Hy. pose proof (civil_from_days_valid (Unix t / 86400)) as Hc.
  destruct (civil_from_days (Unix t / 86400)) as [[y m] d]. destruct Hc as (Hm & Hd & Hz).
  assert (Hdim : days_in m y ≤ 31) by (unfold days_in; repeat case_match; lia).
  unfold days_from_civil in Hz. apply orb_false_iff. rewrite !Z.ltb_ge.
  destruct (Z.leb_spec m 2), (Z.ltb_spec 2 m); try lia; Z.to_euclidean_division_equations; lia.
Qed.

(** *** Decoding an encoded value *)

Definition fresh (n : Z) : adapterDecoder := mkDecoder None n.

Lemma valueAt_step fuel m depth n : depth ≤ maxDomainDepth → n + 1 ≤ maxDomainNodes →
  valueAt (S fuel) (Some m) depth (fresh n) =
  selected_value (valueAt fuel) m depth (fresh (n + 1)).
Proof.
  intros Hd Hn. cbn [valueAt]. unfold mbind, decodes_bind, failed, count_node. cbn [fresh d_err d_nodes].
  rewrite (proj2 (Z.ltb_ge _ _)), (proj2 (Z.ltb_ge maxDomainNodes (n + 1))) by done. done.
Qed.

(** A decoder step that succeeds, adding [c] nodes. *)
Definition yields {A} (m : decodes A) (a : A) (c : Z) : Prop :=
  ∀ n, n + c ≤ maxDomainNodes → m (fresh n) = (a, fresh (n + c)).

Lemma yields_bind {A B} (m : decodes A) (k : A → decodes B) a b c d :
  0 ≤ d → yields m a c → yields (k a) b d → yields (m ≫= k) b (c + d).
Proof.
  intros Hd Hm Hk n Hn. unfold mbind, decodes_bind. rewrite Hm by lia. rewrite Hk by lia. do 2 f_equal. lia.
Qed.
Lemma yields_ret {A} (a : A) : yields (mret a) a 0.
Proof. intros n _. unfold mret, decodes_ret. by rewrite Z.add_0_r. Qed.
Lemma yields_eq {A} (m : decodes A) a c d : yields m a c → c = d → yields m a d.
Proof. by intros ? <-. Qed.

(** The decoding of one encoded value, at any depth it fits. *)
Definition value_decodes (v : Value) : Prop := ∀ fuel depth,
  depth + value_depth v ≤ maxDomainDepth → maxDomainDepth < depth + Z.of_nat fuel →
  yields (valueAt fuel (Some (toValue v)) depth) (canonical v) (value_nodes v).

Lemma list_values_decode fuel depth l : Forall value_decodes l →
  Forall (λ v, depth + 1 + value_depth v ≤ maxDomainDepth) l → maxDomainDepth < depth + 1 + Z.of_nat fuel →
  yields (list_values (valueAt fuel) depth (map toValue l)) (map canonical l) (sum_of value_nodes l).
Proof.
  intros Hl Hd Hf. induction Hl as [|v l Hv _ IH]; cbn [map sum_of list_values]; [apply yields_ret|].
  apply Forall_cons in Hd as [Hdv Hd].
  assert (Hp : 0 ≤ sum_of value_nodes l) by (apply sum_of_nonneg; intros a; pose proof (value_nodes_pos a); lia).
  eapply yields_bind; [done|by apply Hv|]. intros n Hn. unfold mbind at 1, decodes_bind at 1, failed.
  cbn [fresh d_err]. change (mkDecoder None n) with (fresh n). revert n Hn.
  eapply yields_eq; [eapply (yields_bind _ _ _ _ _ 0); [done|by apply IH|apply yields_ret]|lia].
Qed.

Lemma map_get_fresh {A} (k : string) (seen : list (string * A)) : k ∉ seen.*1 → map_get k seen = None.
Proof.
  unfold map_get. induction seen as [|[k' a] seen IH]; cbn [at_member]; [done|]. rewrite fmap_cons. intros Hk.
  apply not_elem_of_cons in Hk as [Hk Hs]. rewrite bool_decide_eq_false_2; [by apply IH|]. cbn in Hk. congruence.
Qed.

Lemma map_values_decode fuel depth m : Forall (λ e : string * Value, value_decodes e.2) m →
  Forall (λ e : string * Value, depth + 1 + value_depth e.2 ≤ maxDomainDepth) m →
  maxDomainDepth < depth + 1 + Z.of_nat fuel → ∀ seen, NoDup (seen.*1 ++ m.*1) →
  yields (map_values (valueAt fuel) depth (map (λ e : string * message, put_string 1 e.1 ++ put_message 2 e.2)
            (map (λ e, (e.1, toValue e.2)) m)) seen)
    (mkValue valueKindMap false "" "" "" zero_float "" None (Some (seen ++ map (λ e, (e.1, canonical e.2)) m)))
    (sum_of (λ e, value_nodes e.2) m).
Proof.
  intros Hm Hd Hf. induction Hm as [|[k v] m Hv _ IH]; intros seen Hn; cbn [map sum_of map_values fst snd].
  { rewrite app_nil_r. apply yields_ret. }
  apply Forall_cons in Hd as [Hdv Hd]. cbn [fst snd] in *. read_fields. cbn [as_message].
  assert (Hp : 0 ≤ sum_of (λ e : string * Value, value_nodes e.2) m)
    by (apply sum_of_nonneg; intros a; pose proof (value_nodes_pos a.2); lia).
  rewrite map_get_fresh.
  - eapply yields_bind; [done|by apply Hv|].
    assert (Happ : seen ++ (k, canonical v) :: map (λ e, (e.1, canonical e.2)) m
      = (seen ++ [(k, canonical v)]) ++ map (λ e : string * Value, (e.1, canonical e.2)) m) by by rewrite <- app_assoc.
    rewrite Happ. apply IH; [done|].
    rewrite fmap_app, <- app_assoc. exact Hn.
  - intros Hk. rewrite fmap_cons in Hn. apply NoDup_app in Hn as (_ & Hn & _). apply (Hn k Hk). left.
Qed.

Lemma timestamp_decodes t : year_ok t → nanos_ok t → yields (timestampValue (toTimestamp t)) (TimestampValue t) 0.
Proof.
  intros Hy Hn. unfold timestampValue, toTimestamp. read_fields. rewrite year_seconds by done.
  rewrite (proj2 (Z.ltb_ge _ _)) by (unfold nanos_ok in Hn; lia). cbn [orb]. destruct t. apply yields_ret.
Qed.

Lemma toValue_listOf k b s i u d t l m : toValue (mkValue k b s i u d t l m) =
  (if bool_decide (k = valueKindList) then put_message 8 (put_messages 1 (map toValue (listOf l)))
   else if bool_decide (k = valueKindMap) then
     put_message 9 (put_messages 1 (map (λ e : string * message, put_string 1 e.1 ++ put_message 2 e.2)
       (map (λ e, (e.1, toValue e.2)) (sort_entries (listOf m)))))
   else toValue (mkValue k b s i u d t None None)).
Proof.
  case_bool_decide; [subst; by destruct l|]. case_bool_decide; [subst; rewrite <- sort_entries_map; by destruct m|].
  cbn [toValue vKind]. repeat case_bool_decide; done.
Qed.

Lemma value_leaf_fits v depth : depth + value_depth v ≤ maxDomainDepth → depth ≤ maxDomainDepth.
Proof. pose proof (value_depth_nonneg v). lia. Qed.

(** A container: its own node, then its payload's decoder. *)
Lemma container_decodes v out c (payload : nat → Z → decodes Value) :
  value_nodes v = 1 + c → 0 ≤ c → canonical v = out →
  (∀ fuel depth n, selected_value (valueAt fuel) (toValue v) depth (fresh n) = payload fuel depth (fresh n)) →
  (∀ fuel depth, depth + value_depth v ≤ maxDomainDepth → maxDomainDepth < depth + 1 + Z.of_nat fuel →
    yields (payload fuel depth) out c) →
  value_decodes v.
Proof.
  intros Hc Hp Ho Hk Hy fuel depth Hd Hf n Hn. destruct fuel as [|fuel].
  { pose proof (value_depth_nonneg v). lia. }
  rewrite valueAt_step by (try (by eapply value_leaf_fits); lia). rewrite Hk, Hc, Ho, Z.add_assoc.
  apply Hy; [done|lia|lia].
Qed.

Lemma list_length_nodes l : Z.of_nat (length l) ≤ sum_of value_nodes l.
Proof. apply sum_of_length. apply value_nodes_pos. Qed.
Lemma entries_length_nodes (m : list (string * Value)) : Z.of_nat (length m) ≤ sum_of (λ e, value_nodes e.2) m.
Proof. apply (sum_of_length (λ e : string * Value, value_nodes e.2)). intros e. apply value_nodes_pos. Qed.

Lemma listValue_decodes fuel depth l : Forall value_decodes l →
  Forall (λ v, depth + 1 + value_depth v ≤ maxDomainDepth) l → maxDomainDepth < depth + 1 + Z.of_nat fuel →
  yields (listValue (valueAt fuel) (put_messages 1 (map toValue l)) depth)
    (mkValue valueKindList false "" "" "" zero_float "" (Some (map canonical l)) None) (sum_of value_nodes l).
Proof.
  intros Hl Hd Hf n Hn. unfold listValue. read_fields. unfold mbind, decodes_bind at 1, nodes_left. cbn [fresh d_nodes].
  pose proof (list_length_nodes l). rewrite length_map, (proj2 (Z.ltb_ge _ _)) by lia.
  pose proof (list_values_decode fuel depth l Hl Hd Hf) as Hy.
  pose proof (yields_bind _ (λ vs, mret (mkValue valueKindList false "" "" "" zero_float "" (Some vs) None)) _ _ _ 0
    ltac:(done) Hy (yields_ret _)) as Hb.
  rewrite Z.add_0_r in Hb. by apply Hb.
Qed.
Lemma mapValue_decodes fuel depth m : Forall (λ e : string * Value, value_decodes e.2) m →
  Forall (λ e : string * Value, depth + 1 + value_depth e.2 ≤ maxDomainDepth) m →
  maxDomainDepth < depth + 1 + Z.of_nat fuel → NoDup m.*1 →
  yields (mapValue (valueAt fuel) (put_messages 1 (map (λ e : string * message, put_string 1 e.1 ++ put_message 2 e.2)
            (map (λ e, (e.1, toValue e.2)) m))) depth)
    (mkValue valueKindMap false "" "" "" zero_float "" None (Some (map (λ e, (e.1, canonical e.2)) m)))
    (sum_of (λ e, value_nodes e.2) m).
Proof.
  intros Hl Hd Hf Hk n Hn. unfold mapValue. read_fields. unfold mbind, decodes_bind, nodes_left. cbn [fresh d_nodes].
  pose proof (entries_length_nodes m). rewrite !length_map, (proj2 (Z.ltb_ge _ _)) by lia.
  by apply (map_values_decode fuel depth m Hl Hd Hf []).
Qed.

Lemma nested_fits k b s i u d t l m depth :
  depth + value_depth (mkValue k b s i u d t l m) ≤ maxDomainDepth →
  Forall (λ v, depth + 1 + value_depth v ≤ maxDomainDepth) (listOf l)
  ∧ Forall (λ e : string * Value, depth + 1 + value_depth e.2 ≤ maxDomainDepth) (listOf m).
Proof.
  rewrite value_depth_eq. cbn [vList vMap]. intros Hd.
  assert (max_of (λ v, 1 + value_depth v) (listOf l) ≤ maxDomainDepth - depth) as [_ Hl]%max_of_le by lia.
  assert (max_of (λ e : string * Value, 1 + value_depth e.2) (listOf m) ≤ maxDomainDepth - depth) as [_ Hm]%max_of_le by lia.
  split; (eapply Forall_impl; [eassumption|]); cbv beta; intros; lia.
Qed.

Lemma leaf_decodes v (out : decodes Value) a : value_nodes v = 1 → canonical v = a →
  (∀ fuel depth, selected_value (valueAt fuel) (toValue v) depth = out) → yields out a 0 → value_decodes v.
Proof.
  intros Hn Hc Hk Hy. apply (container_decodes v a 0 (λ _ _, out)); [lia|done|done| |].
  - intros. by rewrite Hk.
  - intros. exact Hy.
Qed.

Lemma value_decodes_all v : well_tagged v → keyed v → value_decodes v.
Proof.
  induction v as [k b s i u d t l m Hl Hm] using Value_nested_ind. intros Hw Hk.
  inversion Hw; subst; inversion Hk as [v Hnd Hkl Hkm]; subst; cbn [vMap vList] in *.
  - by eapply leaf_decodes; [| | |apply yields_ret].
  - eapply leaf_decodes; [done| | |apply yields_ret]; [|done]. by destruct b.
  - by eapply leaf_decodes; [| | |apply yields_ret].
  - eapply leaf_decodes; [done| | |apply yields_ret]; [|done]. cbn [vInt]. by rewrite ParseInt_format.
  - eapply leaf_decodes; [done| | |apply yields_ret]; [|done]. cbn [vUint]. by rewrite ParseUint_format.
  - by eapply leaf_decodes; [| | |apply yields_ret].
  - match goal with Ht : timestamp _ = Ok _ |- _ => rename Ht into H end.
    destruct (timestamp_range _ _ H) as [Hy Hn].
    assert (E : timestamp_or_zero t = t0) by (unfold timestamp_or_zero; by rewrite H).
    apply (leaf_decodes _ (timestampValue (toTimestamp t0)) (TimestampValue t0)); [done|by rewrite <- E| |by apply timestamp_decodes].
    intros. by rewrite <- E.
  - eapply (container_decodes _ _ (sum_of value_nodes (listOf l))
      (λ fuel depth, listValue (valueAt fuel) (put_messages 1 (map toValue (listOf l))) depth)).
    + rewrite value_nodes_eq. cbn [vList vMap]. change (listOf None) with (@nil (string * Value)). cbn [sum_of]. lia.
    + pose proof (list_length_nodes (listOf l)). lia.
    + by rewrite canonical_fields.
    + intros. by rewrite toValue_listOf.
    + intros fuel depth Hd Hf. destruct (nested_fits _ _ _ _ _ _ _ _ _ _ Hd) as [Hdl _].
      cbn. apply listValue_decodes; [|done|done]. rewrite Forall_forall in *. auto.
  - eapply (container_decodes _ _ (sum_of (λ e, value_nodes e.2) (sort_entries (listOf m)))
      (λ fuel depth, mapValue (valueAt fuel) (put_messages 1 (map (λ e : string * message, put_string 1 e.1 ++ put_message 2 e.2)
            (map (λ e, (e.1, toValue e.2)) (sort_entries (listOf m))))) depth)).
    + rewrite value_nodes_eq. cbn [vList vMap]. change (listOf None) with (@nil Value). cbn [sum_of]. rewrite (sum_of_perm _ _ _ (sort_entries_perm (listOf m))). lia.
    + pose proof (entries_length_nodes (sort_entries (listOf m))). lia.
    + by rewrite canonical_fields.
    + intros. by rewrite toValue_listOf.
    + intros fuel depth Hd Hf. destruct (nested_fits _ _ _ _ _ _ _ _ _ _ Hd) as [_ Hdm].
      cbn. apply mapValue_decodes; [| |done|].
      * rewrite sort_entries_perm. rewrite Forall_forall in *. intros e He. apply Hm; naive_solver.
      * by rewrite sort_entries_perm.
      * by rewrite (sort_entries_perm (listOf m)).
Qed.

(** ** Canonical messages: what each decoder reads back *)

Definition canonicalReference (r : ResourceReference) : ResourceReference :=
  mkReference (canonicalAddress (r_Address r)) (r_Incarnation r).
Definition canonicalScope (s : QueryScope) : QueryScope := Some (normalizeScopeOwned (listOf s)).
Definition copied (o : option bytes) : option bytes := copy_bytes (default [] o).
Definition canonicalSchema (s : SchemaBinding) : SchemaBinding :=
  mkSchemaBinding (sb_State s) (sb_Revision s) (sb_Dialect s) (sb_Root s) (sb_DocumentRef s) (copied (sb_Document s))
    (sb_UnavailableReason s).
Definition canonicalRepresentation (r : Representation) : Representation :=
  mkRepresentation (rp_ID r) (rp_Revision r) (canonicalSchema (rp_Schema r)).
Definition canonicalTarget (t : ReadTarget) : ReadTarget :=
  mkReadTarget (rt_Route t) (rt_Provider t) (rt_Authority t) (rt_Type t) (canonicalScope (rt_Scope t))
    (rt_Representation t).
Definition canonicalRecord (r : ResourceRecord) : ResourceRecord :=
  mkRecord (canonicalReference (rec_Reference r)) (canonical (rec_Body r))
    (canonicalRepresentation (rec_Representation r)) (rec_Coverage r) (rec_SourceRevision r).
Definition canonicalPage (p : SourcePage) : SourcePage :=
  mkSourcePage (map canonicalRecord (pg_Records p)) (NextCursor p) (pg_Count p) (pg_Coverage p) (Consistency p)
    (pg_SourceRevision p).

(** *** Decoding identities, scopes and schemas *)

Lemma yields_all {A B} (f : A → message) (g : message → decodes B) (h : A → B) (c : A → Z) l :
  (∀ a, 0 ≤ c a) → Forall (λ a, yields (g (f a)) (h a) (c a)) l →
  yields (decode_all g (map f l)) (map h l) (sum_of c l).
Proof.
  intros Hc. induction 1 as [|a l Ha _ IH]; cbn [map sum_of decode_all]; [apply yields_ret|].
  pose proof (sum_of_nonneg c l Hc). eapply yields_bind; [done|done|].
  eapply yields_eq; [eapply (yields_bind _ _ _ _ _ 0); [done|exact IH|apply yields_ret]|lia].
Qed.
Lemma yields_bind_pure {A B} (m : decodes A) (k : A → decodes B) a b d :
  0 ≤ d → yields m a 0 → yields (k a) b d → yields (m ≫= k) b d.
Proof. intros Hd Hm Hk. eapply yields_eq; [by eapply yields_bind|lia]. Qed.
Lemma yields_map {A B} (m : decodes A) (f : A → B) a c : yields m a c → yields (x ← m; mret (f x)) (f a) c.
Proof. intros Hm. eapply yields_eq; [eapply yields_bind; [done|exact Hm|apply yields_ret]|lia]. Qed.
Lemma yields_check r : r = Some (Ok tt) → yields (check_with r) true 0.
Proof. intros -> n _. unfold check_with. by rewrite Z.add_0_r. Qed.
Lemma yields_none {A B} (f : A → message) (g : message → decodes B) (h : A → B) l :
  Forall (λ a, yields (g (f a)) (h a) 0) l → yields (decode_all g (map f l)) (map h l) 0.
Proof.
  intros Hl. eapply yields_eq; [apply (yields_all f g h (λ _, 0)); [done|exact Hl]|].
  induction l as [|a l IH]; [done|]. cbn [sum_of]. apply Forall_cons in Hl as [_ Hl]. rewrite IH by done. done.
Qed.

Lemma scopeEntry_decodes e : yields (scopeEntry (toScopeEntry e)) e 0.
Proof. unfold scopeEntry, toScopeEntry. read_fields. destruct e. apply yields_ret. Qed.

Lemma address_decodes a : ValidateAddress a None = Some (Ok tt) →
  yields (decode_address (Some (toResourceAddress a))) (canonicalAddress a) 0.
Proof.
  intros Ha. unfold decode_address, toResourceAddress, require_message. read_fields.
  eapply yields_bind_pure; [done| |].
  { apply (yields_none toScopeEntry scopeEntry id). apply Forall_forall. intros e _. apply scopeEntry_decodes. }
  rewrite map_id. eapply yields_bind_pure; [done|apply yields_check, (canonicalAddress_valid a Ha)|].
  cbn [a_Provider a_Authority a_Type a_ID]. rewrite sort_by_idem. apply yields_ret.
Qed.

Lemma route_decodes r : yields (decode_route (Some (toAccessRoute r))) r 0.
Proof. unfold decode_route, toAccessRoute, require_message. read_fields. destruct r. apply yields_ret. Qed.

Lemma validateReference_iff r : validateReference r = Some (Ok tt) ↔
  ValidateAddress (r_Address r) None = Some (Ok tt) ∧ otoken (r_Incarnation r) = Some (Ok tt).
Proof. apply outcome_seq_ok. Qed.
Lemma reference_decodes r : validateReference r = Some (Ok tt) →
  yields (decode_reference (Some (toResourceReference r))) (canonicalReference r) 0.
Proof.
  intros [Ha _]%validateReference_iff. unfold decode_reference, toResourceReference, require_message. read_fields.
  cbn [as_message pmsg]. eapply yields_bind_pure; [done|by apply address_decodes|apply yields_ret].
Qed.

Lemma any_scope_fields d : oneof [2; 3] (put_string 1 d ++ put_message 2 []) = Some (2, pmsg []).
Proof. rewrite oneof_skip by (apply skip_string; set_solver). done. Qed.
Lemma one_of_fields d vs : oneof [2; 3] (put_string 1 d ++ put_message 3 (put_strings 1 vs)) = Some (3, pmsg (put_strings 1 vs)).
Proof. rewrite oneof_skip by (apply skip_string; set_solver). done. Qed.
Lemma constraint_decodes c : constraint_shape c →
  yields (decode_constraint (toScopeConstraint c)) (canonicalConstraint c) 0.
Proof.
  unfold decode_constraint, toScopeConstraint, canonicalConstraint. destruct c as [d m vs]. cbn [c_Dimension c_Match c_Values].
  intros [[Hm Hv]|[Hm [l Hv]]]; cbn [c_Match c_Values] in *; subst m vs.
  - rewrite bool_decide_eq_true_2 by done. rewrite any_scope_fields. unfold pmsg. read_fields. apply yields_ret.
  - rewrite bool_decide_eq_false_2 by done. rewrite one_of_fields. unfold pmsg. read_fields. apply yields_ret.
Qed.

Lemma scope_decodes s : ValidateScope s None = Some (Ok tt) →
  yields (decode_scope (Some (toQueryScope s))) (canonicalScope s) 0.
Proof.
  intros Hs. unfold decode_scope, toQueryScope. read_fields.
  eapply yields_bind_pure; [done| |].
  { apply (yields_none toScopeConstraint decode_constraint canonicalConstraint). rewrite sort_by_perm.
    eapply Forall_impl; [by apply ValidateScope_shape|]. apply constraint_decodes. }
  rewrite <- normalizeScopeOwned_sorted.
  eapply yields_bind_pure; [done|apply yields_check, (canonicalScope_valid s Hs)|].
  cbv iota. rewrite normalizeScopeOwned_idem. apply yields_ret.
Qed.

Lemma docref_decodes r : yields (decode_schemaDocumentReference (Some (toSchemaDocumentReference r))) r 0.
Proof.
  unfold decode_schemaDocumentReference, toSchemaDocumentReference, require_message. read_fields. destruct r. apply yields_ret.
Qed.
Lemma schema_decodes s : yields (decode_schema (Some (toSchemaBinding s))) (canonicalSchema s) 0.
Proof.
  unfold decode_schema, toSchemaBinding, require_message. read_fields.
  eapply (yields_bind_pure _ _ (sb_DocumentRef s)); [done| |apply yields_ret].
  destruct (sb_DocumentRef s) as [r|]; cbn [fmap option_fmap option_map as_message]; [|apply yields_ret].
  apply yields_map, docref_decodes.
Qed.
Lemma representation_decodes r : yields (decode_representation (Some (toRepresentation r))) (canonicalRepresentation r) 0.
Proof.
  unfold decode_representation, toRepresentation, require_message. read_fields. cbn [as_message pmsg].
  apply (yields_map _ (mkRepresentation (rp_ID r) (rp_Revision r))), schema_decodes.
Qed.
Lemma target_decodes t : ValidateScope (rt_Scope t) None = Some (Ok tt) →
  yields (decode_target (Some (toReadTarget t))) (canonicalTarget t) 0.
Proof.
  intros Hs. unfold decode_target, toReadTarget, require_message. read_fields. cbn [as_message pmsg].
  eapply yields_bind_pure; [done|apply route_decodes|].
  eapply yields_bind_pure; [done|by apply scope_decodes|apply yields_ret].
Qed.
Lemma coverage_decodes c : yields (decode_coverage (Some (toCoverage c))) c 0.
Proof. unfold decode_coverage, toCoverage, require_message. read_fields. destruct c. apply yields_ret. Qed.
Lemma count_decodes c : yields (decode_count (Some (toCount c))) c 0.
Proof. unfold decode_count, toCount, require_message. read_fields. destruct c. apply yields_ret. Qed.

Lemma value_decodes_top v : well_tagged v → keyed v → value_depth v ≤ maxDomainDepth →
  yields (decode_value (Some (toValue v))) (canonical v) (value_nodes v).
Proof. intros Hw Hk Hd. by apply value_decodes_all. Qed.

(** A record within the limits of its validator. *)
Definition record_decodable `{Protowire} (r : ResourceRecord) : Prop :=
  ValidateRecord r = Some (Ok tt) ∧ keyed (rec_Body r).

Lemma record_decodes `{Protowire} r : validateReference (rec_Reference r) = Some (Ok tt) →
  ValidateValue (rec_Body r) = Some (Ok tt) → keyed (rec_Body r) →
  yields (decode_record (Some (toRecord r))) (canonicalRecord r) (value_nodes (rec_Body r)).
Proof.
  intros Hr (Hw & Hd & _)%ValidateValue_accepts Hk. unfold decode_record, toRecord, require_message. read_fields.
  cbn [as_message pmsg].
  eapply yields_bind_pure; [pose proof (value_nodes_pos (rec_Body r)); lia|by apply reference_decodes|].
  eapply yields_eq; [|apply Z.add_0_r]. eapply yields_bind; [done|by apply value_decodes_top|].
  eapply yields_bind_pure; [done|apply representation_decodes|].
  eapply yields_bind_pure; [done|apply coverage_decodes|apply yields_ret].
Qed.
