(* ===== verification/RoundTrip.v ===== *)
(** * Round trips through the protobuf adapters

    Canonical values, records and pages stay valid and no dearer than what they
    came from, so what an encoder accepted and the receiver admits always decodes,
    to the canonical form of what was sent. *)
From S2P Require Import Prelude GoStd GoTime GoJson Errors Values Proto Json TaggedJson Budget Domain Validation Canonical Scopes Admission Source Adapters.
Local Open Scope Z_scope.


(** ** Canonical values stay valid *)

Lemma reordered_leaf k b s i u d t : reordered (mkValue k b s i u d t None None) (mkValue k b s i u d t None None).
Proof. by eapply Reordered; [| |constructor|constructor|constructor]. Qed.

(** The canonical value is the native one up to the order of map entries. *)
Lemma canonical_reordered v : well_tagged v → reordered (normalize v) (canonical v).
Proof.
  induction v as [k b s i u d t l m Hl Hm] using Value_nested_ind. intros Hw.
  rewrite normalize_fields, canonical_fields. inversion Hw; subst; kinds; try apply reordered_leaf.
  - eapply Reordered; [done|done| |constructor|constructor]. change (listOf (Some ?x)) with x.
    match goal with H : Forall well_tagged _ |- _ => pose proof (Forall_mp _ _ _ Hl H) as Hr end.
    apply Forall2_fmap, Forall_Forall2_diag, Hr.
  - eapply (Reordered _ _ _ _ _ _ _ _ _ _ (map (λ e, (e.1, normalize e.2)) (sort_entries (listOf m)))); [done|done|constructor| |];
      change (listOf (Some ?x)) with x.
    + by rewrite sort_entries_perm.
    + apply Forall2_fmap, Forall_Forall2_diag. rewrite sort_entries_perm. rewrite Forall_forall in *.
      intros e He. cbn. split; [done|]. apply Hm; [done|].
      match goal with H : ∀ x, x ∈ listOf m → _ ∧ well_tagged _ |- _ => by destruct (H e He) end.
Qed.

Lemma canonical_valid `{ProtowireLaws} v : ValidateValue v = Some (Ok tt) → ValidateValue (canonical v) = Some (Ok tt).
Proof.
  rewrite !ValidateValue_accepts. intros (Hw & Hd & Hn & Hb & Hs). pose proof (canonical_reordered v Hw) as Hr.
  destruct (reordered_measures _ _ Hr) as (En & Eb & Ed), (normalize_measures v) as (Fn & Fb & Fd).
  rewrite <- (reordered_wire_size _ _ Hr), (normalize_wire_size v Hw).
  split_and!; [|lia|lia|lia|done]. apply (reordered_well_tagged _ _ Hr). by apply normalize_well_tagged.
Qed.
Lemma canonical_wire_size `{Protowire} v : well_tagged v → valueWireSize (canonical v) = valueWireSize v.
Proof.
  intros Hw. rewrite <- (reordered_wire_size _ _ (canonical_reordered v Hw)). by apply normalize_wire_size.
Qed.

(** *** Canonical timestamps are no longer than what they came from *)

Lemma trim_zeros_last ds l : trim_zeros ds = l ++ ["0"%char] → False.
Proof.
  unfold trim_zeros. set (go := fix go (l : bytes) := _). intros Hl.
  assert (Hr : go (reverse ds) = "0"%char :: reverse l).
  { rewrite <- (reverse_involutive (go _)), Hl, reverse_app. done. }
  clear Hl. revert Hr. generalize (reverse l). induction (reverse ds) as [|c l' IH]; intros r; cbn; [done|].
  destruct (Ascii.eqb c "0") eqn:E; [exact (IH r)|]. intros Heq. injection Heq as Hc _. by rewrite Hc in E.
Qed.

Lemma digit_zero c : is_digit c = true → digit c = 0 → c = "0"%char.
Proof. destruct c as [[] [] [] [] [] [] [] []]; vm_compute; intros; congruence. Qed.

(** Nanoseconds read from [ds] print with no more digits. *)
Lemma trim_zeros_shortest ds : forallb is_digit ds = true → (length ds ≤ 9)%nat → 0 < nanos_of ds →
  (length (trim_zeros (pad_digits 9 (nanos_of ds))) ≤ length ds)%nat.
Proof.
  intros Hd Hl Hp. pose proof (nanos_of_bound ds Hd Hl) as Hb.
  destruct (fraction_digits (nanos_of ds) ltac:(lia)) as (Ht & Hlt & Hv).
  set (ts := trim_zeros _) in *. destruct (Nat.leb_spec (length ts) (length ds)) as [|Hlong]; [done|exfalso].
  destruct (exists_last (l := ts)) as (l & c & Hlc); [intros Hnil; rewrite Hnil in Hlt; cbn in Hlt; lia|].
  assert (Hc : is_digit c = true) by (rewrite Hlc, forallb_app in Ht; cbn in Ht; by propify).
  apply (trim_zeros_last (pad_digits 9 (nanos_of ds)) l). fold ts. rewrite Hlc. do 2 f_equal.
  apply digit_zero; [done|]. unfold nanos_of in Hv. rewrite Hlc in Hv at 1. rewrite digits_number_snoc in Hv.
  pose proof (is_digit_range c Hc) as Hdc.
  replace (9 - Z.of_nat (length ds)) with ((9 - Z.of_nat (length ts)) + (Z.of_nat (length ts) - Z.of_nat (length ds) - 1) + 1) in Hv by lia.
  rewrite !Z.pow_add_r in Hv by lia. change (10 ^ 1) with 10 in Hv.
  assert (0 < 10 ^ (9 - Z.of_nat (length ts))) by (apply Z.pow_pos_nonneg; lia).
  set (p := 10 ^ (9 - Z.of_nat (length ts))) in *. set (q := 10 ^ (_ - 1)) in *.
  assert (10 * digits_number l + digit c = 10 * (digits_number ds * q)) by nia. lia.
Qed.

Lemma span_digits_split b ds r : span_digits b = (ds, r) → b = ds ++ r.
Proof.
  revert ds r. induction b as [|c b IH]; intros ds r; cbn; [by intros [= <- <-]|].
  destruct (is_digit c); [|by intros [= <- <-]]. destruct (span_digits b) as [ds' r'] eqn:E. intros [= <- <-].
  cbn. by rewrite (IH ds' r').
Qed.

Lemma parse_fraction_length b n r : parse_fraction b = (n, r) →
  (∀ t, b = "."%char :: t → (length (span_digits t).1 ≤ 9)%nat) → (1 ≤ length r)%nat →
  (length (tail_text n) ≤ length b)%nat.
Proof.
  intros H Hl Hr. unfold tail_text. rewrite length_app. cbn [length].
  assert (Hzero : n = 0 → r = b → (length (if (n =? 0)%Z then [] else "."%char :: trim_zeros (pad_digits 9 n)) + 1 ≤ length b)%nat)
    by (intros -> ->; cbn; lia).
  destruct b as [|c t]; [injection H as <- <-; by apply Hzero|].
  destruct (decide (c = "."%char)) as [->|Hc].
  - destruct t as [|c t]; [injection H as <- <-; by apply Hzero|]. cbn [parse_fraction] in H.
    destruct (is_digit c) eqn:E; [|injection H as <- <-; by apply Hzero].
    specialize (Hl _ eq_refl). pose proof (span_digits_digits (c :: t)) as Hd.
    destruct (span_digits (c :: t)) as [ds r'] eqn:Es. injection H as <- <-. cbn [fst] in *.
    pose proof (span_digits_split _ _ _ Es) as Hsplit. pose proof (nanos_of_bound ds Hd Hl).
    apply (f_equal length) in Hsplit. rewrite length_app in Hsplit. cbn [length] in *.
    destruct (Z.eqb_spec (nanos_of ds) 0); cbn [length]; [lia|].
    pose proof (trim_zeros_shortest ds Hd Hl ltac:(lia)). lia.
  - assert (parse_fraction (c :: t) = (0, c :: t)) as Hz
      by by destruct c as [[] [] [] [] [] [] [] []].
    rewrite Hz in H. injection H as <- <-. by apply Hzero.
Qed.

Lemma timestamp_text_shorter s t : timestamp s = Ok t → slen (timestamp_text t) ≤ slen s.
Proof.
  intros Ht. destruct (timestamp_range s t Ht) as [Hy _].
  destruct (timestamp_guards s t Ht) as (Hlen & Hd & Hs & Hp & y & Hparse & _).
  unfold slen, timestamp_text. rewrite bytes_of_string_of. set (b := bytes_of s) in *.
  destruct (format_bytes t Hy) as (y' & m & d & s' & ->). rewrite length_app.
  unfold parse_rfc3339nano in Hparse. case_match; [done|].
  destruct (parse_fraction (drop 19 b)) as [n r] eqn:Ef.
  apply bind_Some in Hparse as (off & Hz & [= _ <-]). cbn [Nanosecond].
  assert (Hr : (1 ≤ length r)%nat) by (destruct r; [done|cbn; lia]).
  assert (Htail : (length (tail_text n) ≤ length (drop 19 b))%nat).
  { eapply parse_fraction_length; [exact Ef| |exact Hr]. intros t0 Ht0.
    unfold validateTimestampPrecision, index_byte in Hp.
    rewrite <- (take_drop 19 b) in Hp at 1. rewrite list_find_none_prefix in Hp.
    - rewrite Ht0 in Hp. cbn [list_find] in Hp. rewrite decide_True in Hp by done.
      cbn [fmap option_fmap option_map prod_map fst id] in Hp. rewrite length_take_le in Hp by lia.
      replace (S (0 + 19)) with (19 + 1)%nat in Hp by done. rewrite <- drop_drop, Ht0 in Hp.
      apply guard_err_iff in Hp. apply orb_false_iff in Hp as [_ Hp]. cbn [drop] in Hp.
      apply Nat.ltb_ge in Hp. done.
    - intros i x [Hi <-]%byte_at_take Hx. by apply (stamp_free b "." Hd Hs eq_refl) in Hx; [|set_solver|]. }
  rewrite length_drop in Htail. change (length (stamp y' m d s')) with 19%nat. lia.
Qed.

(** *** ... and as light *)

Lemma value_cost_eq v : value_cost L0 v =
  plus (mkMB 9 (Z.of_nat (length (listOf (vList v))) + Z.of_nat (length (listOf (vMap v))))
         (slen (vKind v) + slen (vString v) + slen (vInt v) + slen (vUint v) + slen (vTimestamp v)) 1)
    (plus (sum_cost (λ v, plus (nodes_cost 1) (value_cost L0 v)) (listOf (vList v)))
       (sum_cost (λ e, plus (mkMB 2 0 (slen (fst e)) 0) (value_cost L0 (snd e))) (listOf (vMap v)))).
Proof. by destruct v as [k b s i u d t [l|] [m|]]. Qed.
Lemma value_height_eq v : value_height v =
  1 `max` (max_height (λ v, 2 + value_height v) (listOf (vList v))
           `max` max_height (λ e, 2 + value_height (snd e)) (listOf (vMap v))).
Proof. by destruct v as [k b s i u d t [l|] [m|]]. Qed.

Definition ascii7 (c : ascii) : bool := byte_in 0 127 c.
Lemma ascii7_valid l : forallb ascii7 l = true → utf8_valid l = true.
Proof.
  induction l as [|c l IH]; [done|]. cbn [forallb]. intros [Hc Hl]%andb_true_iff. unfold ascii7 in Hc.
  cbn [utf8_valid]. rewrite Hc. by apply IH.
Qed.
Lemma digits_ascii7 l : forallb is_digit l = true → forallb ascii7 l = true.
Proof.
  induction l as [|c l IH]; [done|]. cbn [forallb]. intros [Hc Hl]%andb_true_iff. apply andb_true_iff. split; [|by apply IH].
  unfold is_digit, ascii7, byte_in in *. propify. apply andb_true_iff. rewrite !Z.leb_le. lia.
Qed.
Lemma stamp_valid t : year_ok t → nanos_ok t → utf8_valid_string (timestamp_text t) = true.
Proof.
  intros Hy Hn. unfold utf8_valid_string, timestamp_text. rewrite bytes_of_string_of. apply ascii7_valid.
  destruct (format_bytes t Hy) as (y & m & d & s & ->). unfold stamp, tail_text.
  rewrite forallb_app. apply andb_true_iff. split.
  { assert (Hp : ∀ w n r, forallb ascii7 (pad_digits w n ++ r) = forallb ascii7 r).
    { intros w n r. by rewrite forallb_app, digits_ascii7 by apply pad_digits_digits. }
    repeat (rewrite Hp; change (forallb ascii7 (?c :: ?r)) with (ascii7 c && forallb ascii7 r)).
    by rewrite digits_ascii7 by apply pad_digits_digits. }
  destruct (Z.eqb_spec (Nanosecond t) 0); [done|]. unfold nanos_ok in Hn.
  destruct (fraction_digits (Nanosecond t) ltac:(lia)) as (Hd & _).
  rewrite forallb_app. apply andb_true_iff. split; [|done]. by apply andb_true_iff; split; [|apply digits_ascii7].
Qed.

Definition value_lighter (v : Value) : Prop :=
  cheaper (value_cost L0 (canonical v)) (value_cost L0 v) ∧ value_height (canonical v) ≤ value_height v
  ∧ (value_clean v → value_clean (canonical v)).

Lemma cheaper_value_cost k b s i u d t t' l l' m m' :
  slen t' ≤ slen t → length (listOf l') = length (listOf l) → length (listOf m') = length (listOf m) →
  cheaper (sum_cost (λ v, plus (nodes_cost 1) (value_cost L0 v)) (listOf l'))
    (sum_cost (λ v, plus (nodes_cost 1) (value_cost L0 v)) (listOf l)) →
  cheaper (sum_cost (λ e, plus (mkMB 2 0 (slen (fst e)) 0) (value_cost L0 (snd e))) (listOf m'))
    (sum_cost (λ e, plus (mkMB 2 0 (slen (fst e)) 0) (value_cost L0 (snd e))) (listOf m)) →
  cheaper (value_cost L0 (mkValue k b s i u d t' l' m')) (value_cost L0 (mkValue k b s i u d t l m)).
Proof.
  intros Ht Hl Hm Hlc Hmc. rewrite !value_cost_eq. cbn [vKind vString vInt vUint vTimestamp vList vMap].
  apply cheaper_plus; [unfold cheaper; cbn; lia|]. by apply cheaper_plus.
Qed.

Lemma value_lighter_all v : well_tagged v → value_lighter v.
Proof.
  induction v as [k b s i u d t l m Hl Hm] using Value_nested_ind. intros Hw. unfold value_lighter.
  rewrite canonical_fields. inversion Hw; subst; kinds.
  1-6: split_and!; [apply cheaper_refl|done|done].
  - match goal with Ht : timestamp _ = Ok _ |- _ => rename Ht into H end.
    assert (E : timestamp_or_zero t = t0) by (unfold timestamp_or_zero; by rewrite H). rewrite E.
    destruct (timestamp_range _ _ H). split_and!; [|done|].
    + apply cheaper_value_cost; [by apply timestamp_text_shorter|done|done|apply cheaper_refl|apply cheaper_refl].
    + rewrite !value_clean_iff. cbn [vKind vString vInt vUint vTimestamp vDouble vList vMap].
      rewrite !Forall_cons. intros ((? & ? & ? & ? & _ & _) & ?). split_and!; try done. by apply stamp_valid.
  - match goal with H : Forall well_tagged _ |- _ => pose proof (Forall_mp _ _ _ Hl H) as Hr end. split_and!.
    + apply cheaper_value_cost; [done|apply length_map|done| |apply cheaper_refl]. change (listOf (Some ?x)) with x.
      rewrite <- (map_id (listOf l)) at 2. apply cheaper_sum, Forall2_fmap, Forall_Forall2_diag.
      eapply Forall_impl; [exact Hr|]. intros v [Hv _]. by apply cheaper_plus; [apply cheaper_refl|].
    + rewrite !value_height_eq. cbn [vList vMap]. change (listOf (Some ?x)) with x.
      assert (max_height (λ v, 2 + value_height v) (map canonical (listOf l)) ≤ max_height (λ v, 2 + value_height v) (listOf l)); [|lia].
      rewrite <- (map_id (listOf l)) at 2. apply max_height_forall2, Forall2_fmap, Forall_Forall2_diag.
      eapply Forall_impl; [exact Hr|]. intros v (_ & Hv & _). cbn. lia.
    + rewrite !value_clean_iff. cbn [vKind vString vInt vUint vTimestamp vDouble vList vMap]. change (listOf (Some ?x)) with x.
      intros (? & ? & Hc & ?). split_and!; try done. apply Forall_map. eapply Forall_mp; [|exact Hc].
      eapply Forall_impl; [exact Hr|]. by intros v (_ & _ & Hv).
  - assert (Hr : Forall (λ e : string * Value, value_lighter e.2) (sort_entries (listOf m))).
    { rewrite sort_entries_perm, Forall_forall in *. intros e He. apply Hm; [done|].
      match goal with H : ∀ x, x ∈ listOf m → _ ∧ well_tagged _ |- _ => by destruct (H e He) end. }
    split_and!.
    + apply cheaper_value_cost; [done|done| |apply cheaper_refl|]; change (listOf (Some ?x)) with x.
      { by rewrite length_map, (Permutation_length (sort_entries_perm _)). }
      rewrite <- (sum_cost_perm _ _ _ (sort_entries_perm (listOf m))), <- (map_id (sort_entries (listOf m))) at 1.
      rewrite map_id. rewrite <- (map_id (sort_entries (listOf m))) at 2.
      apply cheaper_sum, Forall2_fmap, Forall_Forall2_diag.
      eapply Forall_impl; [exact Hr|]. intros e [Hv _]. by apply cheaper_plus; [apply cheaper_refl|].
    + rewrite !value_height_eq. cbn [vList vMap]. change (listOf (Some ?x)) with x.
      assert (max_height (λ e : string * Value, 2 + value_height (snd e)) (map (λ e, (e.1, canonical e.2)) (sort_entries (listOf m)))
        ≤ max_height (λ e, 2 + value_height (snd e)) (listOf m)); [|lia].
      etrans; [|apply (max_height_sub _ (sort_entries (listOf m))); intros e; by rewrite sort_entries_perm].
      rewrite <- (map_id (sort_entries (listOf m))) at 2. apply max_height_forall2, Forall2_fmap, Forall_Forall2_diag.
      eapply Forall_impl; [exact Hr|]. intros e (_ & Hv & _). cbn. lia.
    + rewrite !value_clean_iff. cbn [vKind vString vInt vUint vTimestamp vDouble vList vMap]. change (listOf (Some ?x)) with x.
      intros (? & ? & ? & Hc). split_and!; try done. apply Forall_map. rewrite <- (sort_entries_perm (listOf m)) in Hc.
      rewrite Forall_forall in *. intros e He. cbn. destruct (Hc e He) as [? Hce]. split; [done|]. by apply (Hr e He).
Qed.

Lemma lighter_value v : well_tagged v → lighter (reflect (canonical v)) (reflect v).
Proof.
  intros (H1 & H2 & H3)%value_lighter_all. split.
  - apply cheaper_plus; [apply cheaper_refl|exact H1].
  - exact H2.
  - inversion 1; subst. constructor. auto.
Qed.

(** ** Canonical records and pages stay valid *)

Lemma document_copied s : default [] (copied (sb_Document s)) = default [] (sb_Document s)
  ∧ has_document (canonicalSchema s) = has_document s.
Proof. unfold has_document, copied, copy_bytes. cbn. by destruct (sb_Document s) as [[|]|]. Qed.

Lemma lighter_bytes b b' : blen (default [] b) = blen (default [] b') → lighter (RBytes true b) (RBytes true b').
Proof.
  intros Hb. split; [|done|by constructor]. unfold cheaper. cbn [cost plus nodes_cost bytes_cost mnodes mfields mbytes mvalues].
  unfold bytes_charge. cbn [jsonOutput L0]. lia.
Qed.
Lemma schema_lighter s : lighter (reflect (canonicalSchema s)) (reflect s).
Proof. lighter_fields. cbn [sb_Document canonicalSchema]. apply lighter_bytes. by rewrite (proj1 (document_copied s)). Qed.
Lemma representation_lighter r : lighter (reflect (canonicalRepresentation r)) (reflect r).
Proof. lighter_fields. apply schema_lighter. Qed.
Lemma reference_lighter r : lighter (reflect (canonicalReference r)) (reflect r).
Proof. lighter_fields. apply canonicalAddress_lighter. Qed.
Lemma record_lighter r : well_tagged (rec_Body r) → lighter (reflect (canonicalRecord r)) (reflect r).
Proof.
  intros Hw. lighter_fields; [apply reference_lighter|by apply lighter_value|apply representation_lighter].
Qed.

Lemma canonicalSchema_valid s : validateSchema s = Some (Ok tt) → validateSchema (canonicalSchema s) = Some (Ok tt).
Proof.
  destruct (document_copied s) as [Hd Hh].
  assert (Hs : validateSchemaState (canonicalSchema s) = validateSchemaState s).
  { unfold validateSchemaState. rewrite Hh. cbn [sb_State sb_Revision sb_Dialect sb_DocumentRef sb_Root sb_Document canonicalSchema].
    by rewrite Hd. }
  unfold validateSchema. rewrite !outcome_seq_ok, Hs. intros (Ha & Hr). split; [|exact Hr].
  eapply admission_lighter; [apply schema_lighter|done].
Qed.
Lemma canonicalRepresentation_valid r : validateRepresentation r = Some (Ok tt) →
  validateRepresentation (canonicalRepresentation r) = Some (Ok tt).
Proof. unfold validateRepresentation. rewrite !outcome_seq_ok. intros (? & ? & ?). split_and!; [done|done|by apply canonicalSchema_valid]. Qed.
Lemma canonicalReference_valid r : validateReference r = Some (Ok tt) → validateReference (canonicalReference r) = Some (Ok tt).
Proof. rewrite !validateReference_iff. intros [? ?]. split; [by apply canonicalAddress_valid|done]. Qed.

Lemma ValidateRecord_inv `{Protowire} r : ValidateRecord r = Some (Ok tt) ↔
  admission r = Some (Ok tt) ∧ validateReference (rec_Reference r) = Some (Ok tt)
  ∧ vKind (rec_Body r) = valueKindMap ∧ ValidateValue (rec_Body r) = Some (Ok tt)
  ∧ validateRepresentation (rec_Representation r) = Some (Ok tt) ∧ validateCoverage (rec_Coverage r) = Some (Ok tt)
  ∧ otoken (rec_SourceRevision r) = Some (Ok tt).
Proof.
  unfold ValidateRecord, validate_value. by rewrite !outcome_seq_ok, require_ok, bool_decide_eq_true.
Qed.

Lemma canonical_kind v : vKind (canonical v) = vKind v.
Proof. by destruct v. Qed.

Section canonical_records.
Context `{ProtowireLaws}.

Lemma canonicalRecord_valid r : ValidateRecord r = Some (Ok tt) → ValidateRecord (canonicalRecord r) = Some (Ok tt).
Proof.
  rewrite !ValidateRecord_inv. intros (Ha & Hr & Hk & Hv & Hrp & Hc & Ht). pose proof Hv as [Hw _]%ValidateValue_accepts.
  split_and!; try done.
  - eapply admission_lighter; [by apply record_lighter|done].
  - by apply canonicalReference_valid.
  - cbn [rec_Body canonicalRecord]. by rewrite canonical_kind.
  - by apply canonical_valid.
  - by apply canonicalRepresentation_valid.
Qed.

Lemma canonicalAddress_size a : addressWireSize (canonicalAddress a) = addressWireSize a.
Proof.
  unfold addressWireSize. cbn [a_Provider a_Authority a_Type a_ID a_Scope canonicalAddress].
  destruct (total _); [|done]. cbn [mbind option_bind]. apply add_sizes_perm, sort_by_perm.
Qed.
Lemma canonicalReference_size r : referenceWireSize (canonicalReference r) = referenceWireSize r.
Proof. unfold referenceWireSize. cbn [r_Address r_Incarnation canonicalReference]. by rewrite canonicalAddress_size. Qed.
Lemma canonicalSchema_size s : schemaWireSize (canonicalSchema s) = schemaWireSize s.
Proof.
  destruct (document_copied s) as [Hd Hh]. unfold schemaWireSize. rewrite Hh.
  cbn [sb_State sb_Revision sb_Dialect sb_DocumentRef sb_Root sb_Document sb_UnavailableReason canonicalSchema]. by rewrite Hd.
Qed.
Lemma canonicalRecord_size r : well_tagged (rec_Body r) → recordWireSize (canonicalRecord r) = recordWireSize r.
Proof.
  intros Hw. unfold recordWireSize.
  cbn [rec_Reference rec_Body rec_Representation rec_Coverage rec_SourceRevision canonicalRecord
       rp_ID rp_Revision rp_Schema canonicalRepresentation].
  by rewrite canonicalSchema_size, canonicalReference_size, (canonical_wire_size _ Hw).
Qed.

Lemma ValidateRecord_tagged r : ValidateRecord r = Some (Ok tt) → well_tagged (rec_Body r).
Proof. intros (_ & _ & _ & Hv & _)%ValidateRecord_inv. by apply ValidateValue_accepts in Hv as [Hw _]. Qed.

Lemma canonical_page_records l : Forall (λ r, ValidateRecord r = Some (Ok tt)) l → ∀ a b,
  page_records (map canonicalRecord l) a b = page_records l a b.
Proof.
  induction 1 as [|r l Hr _ IH]; intros a b; cbn [map page_records]; [done|].
  rewrite Hr, (canonicalRecord_valid r Hr), (canonicalRecord_size r) by by apply ValidateRecord_tagged.
  cbn [rec_Body canonicalRecord]. rewrite canonical_wire_size by by apply ValidateRecord_tagged.
  cbn [mbind outcome_bind].
  destruct (valueWireSize (rec_Body r)) as [x|]; cbn [no_error mbind option_bind outcome_bind]; [|done].
  destruct (recordWireSize r ≫= messageFieldSize) as [y|]; cbn [no_error mbind option_bind outcome_bind]; [|done].
  case_match; [done|apply IH].
Qed.

Lemma page_lighter p : Forall (λ r, well_tagged (rec_Body r)) (pg_Records p) → lighter (reflect (canonicalPage p)) (reflect p).
Proof.
  intros Hl. lighter_fields. apply (reflect_lighter_map canonicalRecord). eapply Forall_impl; [exact Hl|]. apply record_lighter.
Qed.
Lemma canonicalPage_valid p : ValidateSourcePage p = Some (Ok tt) → ValidateSourcePage (canonicalPage p) = Some (Ok tt).
Proof.
  intros Hp. pose proof (ValidateSourcePage_inv p Hp) as (_ & Ha & Hl & _). revert Hp. unfold ValidateSourcePage.
  cbn [pg_Records canonicalPage]. rewrite length_map, (canonical_page_records _ Hl 0 0).
  rewrite !outcome_seq_ok. intros (H1 & _ & H3). split_and!; [exact H1| |exact H3].
  eapply admission_lighter; [apply page_lighter|exact Ha]. eapply Forall_impl; [exact Hl|]. apply ValidateRecord_tagged.
Qed.
End canonical_records.

(** ** The decoder's node budget covers what the structural one admitted *)

Lemma value_cost_values v : mvalues (value_cost L0 v) = value_nodes v.
Proof.
  induction v as [k b s i u d t l m Hl Hm] using Value_nested_ind.
  rewrite value_cost_eq, value_nodes_eq, !mvalues_plus. cbn [vList vMap mvalues].
  assert (Hs : ∀ (A : Type) (f : A → metadataBudget) (g : A → Z) l, Forall (λ a, mvalues (f a) = g a) l →
    mvalues (sum_cost f l) = sum_of g l).
  { intros A f g l' Hf. induction Hf as [|a l' Ha _ IH]; [done|]. cbn [sum_cost foldr sum_of]. fold (sum_cost f l').
    by rewrite mvalues_plus, Ha, IH. }
  rewrite (Hs _ _ value_nodes), (Hs _ _ (λ e, value_nodes e.2)); [lia| |].
  - eapply Forall_impl; [exact Hm|]. intros e He. cbn. by rewrite He.
  - eapply Forall_impl; [exact Hl|]. intros e He. cbn. by rewrite He.
Qed.

Lemma mvalues_sum {A} (f : A → metadataBudget) l : mvalues (sum_cost f l) = sum_of (λ a, mvalues (f a)) l.
Proof. induction l as [|a l IH]; [done|]. cbn [sum_cost foldr sum_of]. fold (sum_cost f l). by rewrite mvalues_plus, IH. Qed.

Definition values_in (v : reflected) : Z := mvalues (cost L0 v).
Lemma values_in_struct fs : values_in (RStruct fs) = sum_of (λ f, values_in f.2) fs.
Proof. unfold values_in. cbn [cost]. rewrite mvalues_plus, mvalues_sum. cbn [mvalues nodes_cost]. done. Qed.
Lemma values_in_seq vs : values_in (RSeq vs) = sum_of values_in vs.
Proof. unfold values_in. cbn [cost]. rewrite !mvalues_plus, mvalues_sum. done. Qed.
Lemma values_in_ref v : values_in (RRef v) = values_in v.
Proof. unfold values_in. cbn [cost]. rewrite mvalues_plus. done. Qed.
Lemma values_in_value v : values_in (RValue v) = value_nodes v.
Proof. unfold values_in. cbn [cost]. rewrite mvalues_plus, value_cost_values. done. Qed.
Lemma values_in_nonneg v : 0 ≤ values_in v.
Proof. apply cost_nonneg. Qed.
(** What a field of an admitted struct holds. *)
Lemma values_in_field v fs f : v = RStruct fs → f ∈ fs → values_in f.2 ≤ values_in v.
Proof.
  intros ->. rewrite values_in_struct. induction 1 as [f fs|f g fs _ IH]; cbn [sum_of].
  - pose proof (sum_of_nonneg (λ f, values_in f.2) fs (λ f, values_in_nonneg f.2)). lia.
  - pose proof (values_in_nonneg g.2). lia.
Qed.
Lemma sum_of_map {A B} (f : B → Z) (g : A → B) l : sum_of f (map g l) = sum_of (λ a, f (g a)) l.
Proof. induction l as [|a l IH]; cbn [map sum_of]; [done|by rewrite IH]. Qed.
Lemma sum_of_mono {A} (f g : A → Z) l : (∀ a, f a ≤ g a) → sum_of f l ≤ sum_of g l.
Proof. intros Hfg. induction l as [|a l IH]; cbn [sum_of]; [done|]. specialize (Hfg a). lia. Qed.
Lemma values_in_slice `{Reflect A} (l : list A) : values_in (reflect l) = sum_of (λ a, values_in (reflect a)) l.
Proof. unfold reflect at 1, reflect_slice. by rewrite values_in_seq, sum_of_map. Qed.
Lemma admission_values `{Reflect A} (a : A) : admission a = Some (Ok tt) → values_in (reflect a) ≤ maxDomainNodes.
Proof. intros Ha. apply metadataAdmission_spec in Ha as [_ Hw]; [|done]. apply Hw. Qed.

Lemma record_values r : value_nodes (rec_Body r) ≤ values_in (reflect r).
Proof.
  rewrite <- (values_in_value (rec_Body r)). eapply (values_in_field _ _ (field (rec_Body r))); [reflexivity|set_solver].
Qed.
Lemma page_values p : sum_of (λ r, value_nodes (rec_Body r)) (pg_Records p) ≤ values_in (reflect p).
Proof.
  etrans; [apply (sum_of_mono _ (λ r, values_in (reflect r))), record_values|]. rewrite <- values_in_slice.
  pose proof (λ fs, values_in_field (reflect p) fs (field (pg_Records p))) as Hf. cbn [field snd] in Hf.
  eapply Hf; [reflexivity|set_solver].
Qed.

Lemma page_decodes `{Protowire} p : Z.of_nat (length (pg_Records p)) ≤ maxPageRecords →
  Forall record_decodable (pg_Records p) →
  yields (decode_page (Some (toSourcePage p))) (canonicalPage p) (sum_of (λ r, value_nodes (rec_Body r)) (pg_Records p)).
Proof.
  intros Hl Hr. unfold decode_page, toSourcePage, require_message. read_fields. cbn [as_message pmsg].
  rewrite length_map, (proj2 (Z.ltb_ge _ _)) by done.
  assert (Hp : 0 ≤ sum_of (λ r, value_nodes (rec_Body r)) (pg_Records p))
    by (apply sum_of_nonneg; intros a; pose proof (value_nodes_pos (rec_Body a)); lia).
  eapply yields_bind_pure; [done|apply count_decodes|].
  eapply yields_bind_pure; [done|apply coverage_decodes|].
  apply (yields_map _ (λ rs, mkSourcePage rs _ _ _ _ _)).
  apply (yields_all toRecord (λ r, decode_record (Some r)) canonicalRecord).
  - intros r. pose proof (value_nodes_pos (rec_Body r)). lia.
  - eapply Forall_impl; [exact Hr|]. intros r [(_ & Ha & _ & Hv & _)%ValidateRecord_inv Hk]. by apply record_decodes.
Qed.

(** ** Round trips *)

Section roundtrip.
Context `{ProtowireLaws, ProtoRuntime}.

(** What [toProto] returns. *)
Lemma toProto_ok `{Reflect A} (validate : A → outcome unit) (encode : A → message) v m :
  toProto validate encode v = Some (Ok m) →
  admission v = Some (Ok tt) ∧ validate v = Some (Ok tt) ∧ m = encode v.
Proof.
  unfold toProto. rewrite !outcome_seq_ok. intros (Ha & Hv & Hm). case_match; [done|]. by injection Hm as <-.
Qed.
(** An admitted message is decoded, then validated. *)
Lemma fromProto_yields {A} (decode : option message → decodes A) validate m v c :
  admitProto (Some (pmsg m)) = Ok tt → yields (decode (Some m)) v c → c ≤ maxDomainNodes → validate v = Some (Ok tt) →
  fromProto decode validate (Some (pmsg m)) = Some (Ok v).
Proof.
  intros Ha Hy Hc Hv. unfold fromProto. rewrite Ha. cbn [returns mbind outcome_bind pmsg].
  change (mkDecoder None 0) with (fresh 0). rewrite Hy by lia. cbn [fresh d_err]. by rewrite Hv.
Qed.

Definition ToProtoRecord := toProto ValidateRecord toRecord.
Definition FromProtoRecord := fromProto decode_record ValidateRecord.
Definition ToProtoSourcePage := toProto ValidateSourcePage toSourcePage.
Definition FromProtoSourcePage := fromProto decode_page ValidateSourcePage.

(** C24: A page survives the wire: whatever page the encoder sends and the
    receiver's structural admission lets in, the decoder returns, and returns it
    record for record in canonical form: addresses with their scope in dimension
    order, schemas and documents byte for byte, bodies with every number, string
    and key intact, map entries in key order and timestamps at the same instant
    in canonical text. No decoding or validation error can reject what the
    encoder accepted. *)
Theorem page_roundtrip p m :
  ToProtoSourcePage p = Some (Ok m) → Forall (λ r, keyed (rec_Body r)) (pg_Records p) →
  admitProto (Some (pmsg m)) = Ok tt →
  FromProtoSourcePage (Some (pmsg m)) = Some (Ok (canonicalPage p)).
Proof.
  intros (Ha & Hv & ->)%toProto_ok Hk Hadm. pose proof (ValidateSourcePage_inv p Hv) as (Hlen & _ & Hl & _).
  eapply fromProto_yields; [exact Hadm|apply page_decodes| |by apply canonicalPage_valid].
  - done.
  - rewrite Forall_forall in *. intros r Hr. split; auto.
  - etrans; [apply page_values|by apply admission_values].
Qed.
End roundtrip.
