(* ===== verification/WireSizes.v ===== *)
(** * Wire sizes (pkg/resource/v2/validation.go, source_document.go)

    The sizes and costs of encoded messages reported without encoding them, and
    the proof that they are the sizes and counts of what the adapters encode. *)
From S2P Require Import Prelude GoStd GoTime GoJson Errors Values Proto Json TaggedJson Budget Domain Validation Canonical Scopes Admission Source Adapters RoundTrip.
Local Open Scope Z_scope.

(** ** Reported sizes *)

Section sizes.
Context `{Protowire, ProtoRuntime}.

Definition segment_size (s : FieldPathSegment) : option Z :=
  part ← match seg_Member s, seg_Index s with
         | Some name, _ => stringFieldSize name
         | None, Some i => Some (if negb (i =? 0) then 1 + SizeVarint i else 0)
         | None, None => None
         end;
  inner ← messageFieldSize part; messageFieldSize inner.
Definition path_size (p : DocumentFieldPath) : option Z := add_sizes segment_size (Segments p) 0 ≫= messageFieldSize.
Definition metadata_size (md : ResourceMetadata) : option Z :=
  labels ← add_sizes (λ e, total [stringFieldSize e.1; stringFieldSize e.2] ≫= messageFieldSize) (listOf (md_Labels md)) 0;
  match md_CreatedAt md with
  | None => Some labels
  | Some created =>
    let seconds := Unix (nt_UTC created) in
    let nanos := Nanosecond (nt_UTC created) in
    let timestamp := (if negb (seconds =? 0) then 1 + SizeVarint (EncodeZigZag seconds) else 0)
                     + (if negb (nanos =? 0) then 1 + SizeVarint nanos else 0) in
    t ← messageFieldSize timestamp; Some (labels + t)
  end.
Definition source_record_size (r : SourceRecord) : option Z :=
  let rp := sr_Representation r in
  total [referenceWireSize (sr_Reference r) ≫= messageFieldSize;
         valueWireSize (sr_Body r) ≫= messageFieldSize;
         total [stringFieldSize (ref_ID rp); stringFieldSize (ref_Revision rp); optionalStringFieldSize (ref_SchemaRevision rp)]
           ≫= messageFieldSize;
         coverageWireSize (sr_Coverage r) ≫= messageFieldSize;
         optionalStringFieldSize (sr_SourceRevision r)].
Definition observation_size (o : SourceObservation) : option Z :=
  size ← total [source_record_size (ob_Record o) ≫= messageFieldSize; optionalStringFieldSize (ob_DisplayName o)];
  size ← match ob_Metadata o with
         | Some md => m ← metadata_size md; f ← messageFieldSize m; Some (size + f)
         | None => Some size
         end;
  coverage ← add_sizes path_size (KnownAbsent (ob_DocumentCoverage o)) 0;
  f ← messageFieldSize coverage; Some (size + f).
Definition SourceObservationWireSize (o : SourceObservation) : outcome Z :=
  validateSourceObservationAdapter o ;; no_error (observation_size o).

Definition source_coverage_size (c : SourceCoverage) : option Z :=
  size ← total [stringFieldSize (sc_Enumeration c); stringFieldSize (sc_Consistency c)];
  add_sizes (λ l, messageFieldSize (slen l)) (sc_Limitations c) size.
(** [*change.Observation] and [*change.Reference] are present in a valid change. *)
Definition change_size (c : SourceChange) : outcome Z :=
  if bool_decide (ch_Kind c = SourceChangeUpsert) then
    match ch_Observation c with
    | None => None
    | Some o => n ← SourceObservationWireSize o; no_error (messageFieldSize n ≫= messageFieldSize)
    end
  else no_error (r ← ch_Reference c;
                 n ← total [referenceWireSize r ≫= messageFieldSize; optionalStringFieldSize (ch_SourceRevision c)];
                 inner ← messageFieldSize n; messageFieldSize inner).
Definition change_sizes : list SourceChange → Z → outcome Z :=
  fix go l size :=
    match l with [] => Some (Ok size) | c :: l => n ← change_size c; go l (size + n) end.
Definition SourceChangesWireSize (v : SourceChanges) : outcome Z :=
  validateSourceChangesAdapter v ;;
  size ← change_sizes (Changes v) 0;
  match ch_Coverage v with
  | Some c => n ← no_error (source_coverage_size c ≫= messageFieldSize); Some (Ok (size + n))
  | None => Some (Ok size)
  end.

(** The response that carries a page. *)
Definition page_response (p : message) : message := put_uint 1 WireVersion ++ put_message 4 p.
(** [SourcePageWireCost]: the page's payload bytes and the response's nodes and
    fields. *)
Definition SourcePageWireCost (p : SourcePage) : outcome (Z * (Z * Z)) :=
  m ← ToProtoSourcePage p;
  Some (Ok (proto_Size (pmsg m), Proto.Count (pmsg (page_response m)))).
Definition SourceRecordWireCost (r : ResourceRecord) : outcome (Z * (Z * Z)) :=
  m ← ToProtoRecord r;
  let '(nodes, fields) := Proto.Count (pmsg m) in
  Some (Ok (SizeTag 1 + SizeBytes (proto_Size (pmsg m)), (nodes, fields + 1))).
Definition SourcePageResponseWireSize (payloadBytes : Z) : Z :=
  SizeTag 1 + SizeVarint WireVersion + SizeTag 4 + SizeBytes payloadBytes.
End sizes.

(** ** Sizes of encoded fields *)

Lemma message_size_app a b : message_size (a ++ b) = message_size a + message_size b.
Proof. unfold message_size. induction a as [|f a IH]; cbn [app sum_of]; lia. Qed.
Lemma field_size_one n l : message_size [(n, l)] = sum_of (λ v, tag_size n + payload_size v) l.
Proof. unfold message_size. cbn [sum_of]. unfold field_size. cbn [fst snd]. lia. Qed.

Lemma delimited_field n : 0 ≤ n → messageFieldSize n = Some (1 + delimited n).
Proof.
  intros Hn. unfold messageFieldSize, delimited, protobufTagBytes. rewrite (proj2 (Z.ltb_ge _ _)) by done. f_equal. lia.
Qed.

(** The field numbers of these messages take one byte. *)
Definition short (n : Z) : Prop := tag_size n = 1.

Section fields.
Context (n : Z) (Hn : short n).
Lemma string_size s : stringFieldSize s = Some (message_size (put_string n s)).
Proof using Hn.
  unfold stringFieldSize, put_string. case_bool_decide; [done|]. rewrite field_size_one. cbn [sum_of payload_size].
  rewrite delimited_field by apply slen_nonneg. f_equal. rewrite Hn. lia.
Qed.
Lemma optional_size o : optionalStringFieldSize o = Some (message_size (put_optional n o)).
Proof using Hn.
  destruct o as [s|]; cbn [optionalStringFieldSize put_optional]; [|done]. rewrite field_size_one. cbn [sum_of payload_size].
  rewrite delimited_field by apply slen_nonneg. f_equal. rewrite Hn. lia.
Qed.
Lemma message_size_nonneg m : 0 ≤ message_size m.
Proof using.
  clear. assert (Hv : ∀ v, 0 ≤ payload_size v).
  { induction v as [s|b|x|x|x|u fs Hfs] using pvalue_nested_ind; cbn [payload_size]; unfold delimited;
      try (pose proof (varintSize_range (slen s)); pose proof (slen_nonneg s); lia);
      try (pose proof (varintSize_range (blen b)); unfold blen in *; lia);
      try (pose proof (varintSize_range x); lia); try (pose proof (varintSize_range (zigzag x)); lia); try lia.
    set (z := sum_of _ fs). assert (0 ≤ z).
    { apply Forall_sum_nonneg. eapply Forall_impl; [exact Hfs|]. intros f Hf. apply Forall_sum_nonneg.
      eapply Forall_impl; [exact Hf|]. intros v Hv. cbv beta. pose proof (varintSize_range (8 * f.1)) as Ht. fold (tag_size f.1) in Ht. cbv beta in Hv. lia. }
    pose proof (varintSize_range (blen u + z)). unfold blen in *. lia. }
  apply sum_of_nonneg. intros f. apply sum_of_nonneg. intros v.
  pose proof (varintSize_range (8 * f.1)) as Ht. fold (tag_size f.1) in Ht. specialize (Hv v). lia.
Qed.
Lemma payload_message m : payload_size (pmsg m) = delimited (message_size m).
Proof using. done. Qed.
Lemma submessage_size m : messageFieldSize (message_size m) = Some (message_size (put_message n m)).
Proof using Hn.
  unfold put_message. rewrite field_size_one. cbn [sum_of]. rewrite payload_message.
  rewrite delimited_field by apply message_size_nonneg. f_equal. rewrite Hn. lia.
Qed.
Lemma repeated_size l : message_size (put_repeated n l) = sum_of (λ v, 1 + payload_size v) l.
Proof using Hn. destruct l as [|v l]; [done|]. cbn [put_repeated]. rewrite field_size_one. apply sum_of_pointwise. intros x. by rewrite Hn. Qed.
(** A loop over elements that adds the size of each. *)
Lemma messages_size {A} (f : A → option Z) (enc : A → message) l : Forall (λ a, f a = Some (message_size (put_message n (enc a)))) l →
  ∀ z, add_sizes f l z = Some (z + message_size (put_messages n (map enc l))).
Proof using Hn.
  unfold put_messages. rewrite repeated_size, !sum_of_map.
  induction 1 as [|a l Ha _ IH]; intros z; cbn [add_sizes sum_of]; [f_equal; lia|].
  rewrite Ha. cbn [mbind option_bind]. rewrite IH. unfold put_message. rewrite field_size_one. cbn [sum_of].
  rewrite Hn. f_equal. lia.
Qed.
Lemma strings_size l z : add_sizes (λ s, messageFieldSize (slen s)) l z = Some (z + message_size (put_strings n l)).
Proof using Hn.
  unfold put_strings. rewrite repeated_size, sum_of_map. revert z.
  induction l as [|s l IH]; intros z; cbn [add_sizes sum_of]; [f_equal; lia|].
  rewrite delimited_field by apply slen_nonneg. cbn [mbind option_bind].
  rewrite IH. cbn [payload_size]. f_equal. lia.
Qed.
End fields.

(** ** Sizes of encoded messages *)

Lemma total_sum l ns : Forall2 (λ o n, o = Some n) l ns → total l = Some (sum_of id ns).
Proof.
  intros Hl. unfold total. enough (∀ z, add_sizes id l z = Some (z + sum_of id ns)) as -> by done.
  induction Hl as [|o n l ns -> _ IH]; intros z; cbn [add_sizes sum_of id]; [f_equal; lia|].
  cbn [mbind option_bind]. rewrite IH. f_equal. lia.
Qed.
(** Closes [total [...] = Some (message_size ...)] from the sizes of the parts. *)
Ltac sum_parts := unfold total; cbn [add_sizes id mbind option_bind]; rewrite ?message_size_app; f_equal; lia.

Section exact.
Context `{ProtoRuntimeLaws}.

Lemma zigzag_range n : int64_range n → uint64_range (zigzag n).
Proof. unfold int64_range, uint64_range, zigzag, max_int64, max_uint64. destruct (Z.ltb_spec n 0); lia. Qed.
Lemma sint_size n : int64_range n → SizeVarint (EncodeZigZag n) = varintSize (zigzag n).
Proof. intros Hn. rewrite EncodeZigZag_encoding by done. by apply SizeVarint_encoding, zigzag_range. Qed.

Lemma seconds_range t : year_ok t → int64_range (Unix t).
Proof.
  intros Hy%year_seconds. unfold seconds_out in Hy. propify. unfold int64_range, max_int64. lia.
Qed.
Lemma timestamp_message_size t : year_ok t → nanos_ok t →
  (if negb (Unix t =? 0) then 1 + SizeVarint (EncodeZigZag (Unix t)) else 0)
  + (if negb (Nanosecond t =? 0) then 1 + varintSize (Nanosecond t) else 0) = message_size (toTimestamp t).
Proof.
  intros Hy Hn. unfold toTimestamp. rewrite message_size_app. unfold put_sint, put_uint.
  rewrite sint_size by by apply seconds_range.
  destruct (Unix t =? 0), (Nanosecond t =? 0); cbn [negb]; rewrite ?field_size_one; cbn [sum_of payload_size];
    change (tag_size 1) with 1; change (tag_size 2) with 1; change (message_size []) with 0; lia.
Qed.

Lemma entry_message_size k v : valueWireSize v = Some (message_size (toValue v)) →
  entry_size valueWireSize (k, v) = Some (message_size (put_message 1 (put_string 1 k ++ put_message 2 (toValue v)))).
Proof.
  intros Hv. unfold entry_size. cbn [fst snd]. rewrite Hv. cbn [mbind option_bind].
  rewrite (submessage_size 2) by done. cbn [mbind option_bind].
  change (if bool_decide (k = "") then Some 0 else messageFieldSize (slen k)) with (stringFieldSize k).
  rewrite (string_size 1) by done. cbn [mbind option_bind].
  rewrite <- (submessage_size 1) by done. f_equal. rewrite message_size_app. lia.
Qed.

(** The walk of a value computes the size of its encoding. *)
Lemma value_message_size v : well_tagged v → valueWireSize v = Some (message_size (toValue v)).
Proof.
  induction v as [k b s i u d t l m Hl Hm] using Value_nested_ind. intros Hw. inversion Hw; subst.
  - reflexivity.
  - by destruct b.
  - cbn [valueWireSize toValue vKind vString]. kinds. rewrite delimited_field by apply slen_nonneg. rewrite field_size_one.
    cbn [sum_of payload_size]. change (tag_size 3) with 1. f_equal. lia.
  - cbn [valueWireSize toValue vKind vInt]. kinds. rewrite ParseInt_format, sint_size, field_size_one by done.
    cbn [sum_of payload_size]. change (tag_size 4) with 1. unfold protobufTagBytes. f_equal. lia.
  - cbn [valueWireSize toValue vKind vUint]. kinds. rewrite ParseUint_format, field_size_one by done.
    cbn [sum_of payload_size]. change (tag_size 5) with 1. f_equal. lia.
  - reflexivity.
  - match goal with H : timestamp _ = Ok _ |- _ => rename H into Ht end. destruct (timestamp_range _ _ Ht) as [Hy Hn].
    cbn [valueWireSize toValue vKind vTimestamp]. kinds.
    assert (timestamp_or_zero t = t0) as -> by (unfold timestamp_or_zero; by rewrite Ht).
    rewrite <- (submessage_size 7), <- timestamp_message_size by done. f_equal. unfold protobufTagBytes, nanos_ok in *.
    destruct (Z.ltb_spec 0 (Nanosecond t0)), (Z.eqb_spec (Nanosecond t0) 0); cbn [negb]; lia.
  - rewrite (valueWireSize_listOf valueKindList), toValue_listOf. kinds.
    rewrite (messages_size 1 eq_refl (λ v, valueWireSize v ≫= messageFieldSize) toValue).
    + cbn [mbind option_bind]. rewrite Z.add_0_l. by apply submessage_size.
    + match goal with H : Forall well_tagged _ |- _ => pose proof (Forall_mp _ _ _ Hl H) as Hr end.
      eapply Forall_impl; [exact Hr|]. intros v Hv. cbv beta in Hv. rewrite Hv. cbn [mbind option_bind]. by apply submessage_size.
  - rewrite (valueWireSize_listOf valueKindMap), toValue_listOf. kinds.
    rewrite (add_sizes_perm _ (listOf m) (sort_entries (listOf m))) by by rewrite sort_entries_perm.
    rewrite map_map. rewrite (messages_size 1 eq_refl (entry_size valueWireSize)
      (λ e : string * Value, put_string 1 e.1 ++ put_message 2 (toValue e.2))).
    + cbn [mbind option_bind]. rewrite Z.add_0_l. by apply submessage_size.
    + rewrite sort_entries_perm. rewrite Forall_forall in *. intros [k v] He. apply entry_message_size.
      apply (Hm (k, v) He). match goal with H : ∀ x, x ∈ listOf m → _ ∧ well_tagged _ |- _ => by destruct (H _ He) end.
Qed.

(** *** Records and pages *)

Lemma address_message_size a : addressWireSize a = Some (message_size (toResourceAddress a)).
Proof.
  unfold addressWireSize, toResourceAddress.
  rewrite (string_size 1 eq_refl (a_Provider a)), (string_size 2 eq_refl (a_Authority a)), (string_size 3 eq_refl (a_Type a)),
    (string_size 5 eq_refl (a_ID a)).
  unfold total. cbn [add_sizes id mbind option_bind].
  rewrite (add_sizes_perm _ (a_Scope a) (sort_by se_Dimension (a_Scope a))) by by rewrite sort_by_perm.
  rewrite (messages_size 4 eq_refl _ toScopeEntry).
  - rewrite !message_size_app. f_equal. lia.
  - apply Forall_forall. intros e _. unfold toScopeEntry.
    rewrite (string_size 1 eq_refl (se_Dimension e)), (string_size 2 eq_refl (se_Value e)).
    unfold total. cbn [add_sizes id mbind option_bind]. rewrite <- (submessage_size 4 eq_refl), message_size_app. f_equal.
Qed.
Lemma reference_message_size r : referenceWireSize r = Some (message_size (toResourceReference r)).
Proof.
  unfold referenceWireSize, toResourceReference. rewrite address_message_size. cbn [mbind option_bind].
  rewrite (submessage_size 1 eq_refl), (optional_size 2 eq_refl (r_Incarnation r)). sum_parts.
Qed.
Lemma bytes_size n b : short n → (if negb (length b =? 0)%nat then messageFieldSize (blen b) else Some 0)
  = Some (message_size (put_bytes n b)).
Proof.
  intros Hn. destruct b as [|c b]; [done|]. cbn [length Nat.eqb negb put_bytes].
  rewrite delimited_field by (unfold blen; lia). rewrite field_size_one, Hn. cbn [sum_of payload_size]. f_equal. lia.
Qed.
Lemma docref_message_size r : total [stringFieldSize (dr_ID r); stringFieldSize (dr_Revision r)]
  = Some (message_size (toSchemaDocumentReference r)).
Proof.
  unfold toSchemaDocumentReference. rewrite (string_size 1 eq_refl (dr_ID r)), (string_size 2 eq_refl (dr_Revision r)). sum_parts.
Qed.
Lemma schema_message_size s : schemaWireSize s = Some (message_size (toSchemaBinding s)).
Proof.
  unfold schemaWireSize, toSchemaBinding.
  rewrite (string_size 1 eq_refl (sb_State s)), (optional_size 2 eq_refl (sb_Revision s)), (string_size 3 eq_refl (sb_Dialect s)),
    (string_size 8 eq_refl (sb_Root s)), (optional_size 9 eq_refl (sb_UnavailableReason s)).
  assert (match sb_DocumentRef s with
          | Some r => total [stringFieldSize (dr_ID r); stringFieldSize (dr_Revision r)] ≫= messageFieldSize
          | None => Some 0
          end = Some (message_size (put_some 7 (toSchemaDocumentReference <$> sb_DocumentRef s)))) as ->.
  { destruct (sb_DocumentRef s) as [r|]; [|done]. rewrite docref_message_size. cbn [mbind option_bind]. by apply submessage_size. }
  unfold total at 1. cbn [add_sizes id mbind option_bind].
  assert ((if has_document s then messageFieldSize (blen (default [] (sb_Document s))) else Some 0)
    = Some (message_size (put_bytes 4 (default [] (sb_Document s))))) as ->.
  { rewrite <- (bytes_size 4) by done. unfold has_document. by destruct (sb_Document s) as [[|]|]. }
  cbn [mbind option_bind].
  cbn [mbind option_bind]. rewrite !message_size_app. f_equal. lia.
Qed.
Lemma coverage_message_size c : coverageWireSize c = Some (message_size (toCoverage c)).
Proof.
  unfold coverageWireSize, toCoverage. rewrite (string_size 1 eq_refl (cv_Kind c)), (string_size 3 eq_refl (cv_Reason c)).
  unfold total. cbn [add_sizes id mbind option_bind]. rewrite (strings_size 2 eq_refl), !message_size_app. f_equal. lia.
Qed.
Lemma representation_message_size r :
  total [stringFieldSize (rp_ID r); stringFieldSize (rp_Revision r); schemaWireSize (rp_Schema r) ≫= messageFieldSize]
  = Some (message_size (toRepresentation r)).
Proof.
  unfold toRepresentation. rewrite (string_size 1 eq_refl (rp_ID r)), (string_size 2 eq_refl (rp_Revision r)), schema_message_size.
  cbn [mbind option_bind]. rewrite (submessage_size 3 eq_refl). sum_parts.
Qed.
Lemma record_message_size r : well_tagged (rec_Body r) → recordWireSize r = Some (message_size (toRecord r)).
Proof.
  intros Hw. unfold recordWireSize, toRecord. rewrite representation_message_size. cbn [mbind option_bind].
  rewrite reference_message_size, (value_message_size _ Hw), coverage_message_size. cbn [mbind option_bind].
  rewrite (submessage_size 1 eq_refl), (submessage_size 2 eq_refl), (submessage_size 3 eq_refl), (submessage_size 4 eq_refl),
    (optional_size 5 eq_refl (rec_SourceRevision r)). sum_parts.
Qed.
Lemma count_message_size c : total [stringFieldSize (cn_Kind c); optionalStringFieldSize (cn_Value c)] = Some (message_size (toCount c)).
Proof. unfold toCount. rewrite (string_size 1 eq_refl (cn_Kind c)), (optional_size 2 eq_refl (cn_Value c)). sum_parts. Qed.

(** The page's own fields. *)
Definition page_trailer (p : SourcePage) : message :=
  put_optional 2 (NextCursor p) ++ put_message 3 (toCount (pg_Count p)) ++ put_message 4 (toCoverage (pg_Coverage p))
  ++ put_string 5 (Consistency p) ++ put_optional 6 (pg_SourceRevision p).
Lemma trailer_message_size p : page_trailer_size p = Some (message_size (page_trailer p)).
Proof.
  unfold page_trailer_size, page_trailer. rewrite count_message_size, coverage_message_size. cbn [mbind option_bind].
  rewrite (optional_size 2 eq_refl (NextCursor p)), (submessage_size 3 eq_refl), (submessage_size 4 eq_refl),
    (string_size 5 eq_refl (Consistency p)), (optional_size 6 eq_refl (pg_SourceRevision p)). sum_parts.
Qed.

Lemma page_message_size p : Forall (λ r, well_tagged (rec_Body r)) (pg_Records p) →
  page_bytes p = message_size (toSourcePage p).
Proof.
  intros Hl. unfold page_bytes, record_bytes. rewrite trailer_message_size.
  change (toSourcePage p) with (put_messages 1 (map toRecord (pg_Records p)) ++ page_trailer p). rewrite message_size_app.
  change (size_or_zero (Some ?x)) with x. f_equal. unfold put_messages. rewrite (repeated_size 1 eq_refl), !sum_of_map.
  induction Hl as [|r l Hr _ IH]; cbn [sum_of]; [done|]. rewrite IH. f_equal.
  rewrite (record_message_size r Hr). cbn [mbind option_bind]. rewrite delimited_field by apply message_size_nonneg.
  change (size_or_zero (Some ?x)) with x. by rewrite payload_message.
Qed.
Lemma response_message_size p : Forall (λ r, well_tagged (rec_Body r)) (pg_Records p) →
  frame_bytes p = message_size (page_response (toSourcePage p)).
Proof.
  intros Hl. unfold frame_bytes, page_response. rewrite message_size_app, (page_message_size p Hl), (submessage_size 4 eq_refl).
  reflexivity.
Qed.
End exact.

(** ** Costs of encoded messages *)

Lemma count_nodes_message m : count_nodes (pmsg m) = 1 + sum_of (λ f, sum_of count_nodes f.2) m.
Proof. done. Qed.
Lemma count_fields_message m : count_fields (pmsg m) = sum_of (λ f, Z.of_nat (length f.2) + sum_of count_fields f.2) m.
Proof. done. Qed.
(** Nodes and fields below the root. *)
Definition inner_nodes (m : message) : Z := sum_of (λ f, sum_of count_nodes f.2) m.
Definition inner_fields (m : message) : Z := sum_of (λ f, Z.of_nat (length f.2) + sum_of count_fields f.2) m.
Lemma inner_nodes_app a b : inner_nodes (a ++ b) = inner_nodes a + inner_nodes b.
Proof. apply sum_of_app. Qed.
Lemma inner_fields_app a b : inner_fields (a ++ b) = inner_fields a + inner_fields b.
Proof. apply sum_of_app. Qed.
Lemma inner_nodes_repeated n l : inner_nodes (put_repeated n l) = sum_of count_nodes l.
Proof. destruct l; cbn; lia. Qed.
Lemma length_plus_sum {A} (g : A → Z) l : Z.of_nat (length l) + sum_of g l = sum_of (λ v, 1 + g v) l.
Proof. induction l as [|v l IH]; cbn [length sum_of]; [done|lia]. Qed.
Lemma inner_fields_repeated n l : inner_fields (put_repeated n l) = sum_of (λ v, 1 + count_fields v) l.
Proof.
  destruct l as [|v l]; [done|]. unfold inner_fields. cbn [put_repeated]. cbn [sum_of snd].
  pose proof (length_plus_sum count_fields (v :: l)) as Hl. cbn [sum_of] in Hl. lia.
Qed.

Lemma varintSize_mono a b : a ≤ b → varintSize a ≤ varintSize b.
Proof.
  unfold varintSize. generalize 1. generalize 10%nat as f.
  assert (Hg : ∀ f n s, s ≤ varint_loop f n s).
  { induction f as [|f IH]; intros m s; cbn [varint_loop]; [lia|]. case_match; [|lia]. specialize (IH (Z.shiftr m 7) (s + 1)). lia. }
  intros f. revert a b. induction f as [|f IH]; intros a b s Hab; cbn [varint_loop]; [lia|].
  destruct (Z.leb_spec 128 a), (Z.leb_spec 128 b); try lia.
  - apply IH. rewrite !Z.shiftr_div_pow2 by lia. apply Z.div_le_mono; lia.
  - specialize (Hg f (Z.shiftr b 7) (s + 1)). lia.
Qed.

(** *** A page is its envelope and its records *)

Section page_costs.
Context `{Hwire : Protowire, !ProtowireLaws, Hrt : ProtoRuntime, !ProtoRuntimeLaws}.

Definition envelope (p : SourcePage) : SourcePage :=
  mkSourcePage [] (NextCursor p) (pg_Count p) (pg_Coverage p) (Consistency p) (pg_SourceRevision p).

Lemma envelope_lighter p : lighter (reflect (envelope p)) (reflect p).
Proof. lighter_fields. apply (reflect_lighter_sub [] (pg_Records p)), submseteq_nil_l. Qed.
Lemma envelope_valid p : ValidateSourcePage p = Some (Ok tt) → ValidateSourcePage (envelope p) = Some (Ok tt).
Proof.
  intros Hp. pose proof (ValidateSourcePage_inv p Hp) as (_ & Ha & Hl & _ & Hf & (Hc1 & Hc2 & Hc3 & Hc4 & Hc5 & Hc6)).
  unfold ValidateSourcePage. rewrite !outcome_seq_ok, require_ok. split_and!; [done| |].
  { eapply admission_lighter; [apply envelope_lighter|exact Ha]. }
  cbn [pg_Records envelope page_records]. cbn [mbind outcome_bind].
  rewrite !outcome_seq_ok. split_and!; [exact Hc1|exact Hc2|exact Hc3| |exact Hc5|].
  { apply require_ok, exact_count_ok. intros E. specialize (Hc4 E). cbn [length pg_Records envelope]. change (pg_Count (envelope p)) with (pg_Count p). lia. }
  rewrite trailer_message_size. cbn [no_error mbind option_bind outcome_bind].
  change (page_trailer (envelope p)) with (page_trailer p). rewrite Z.add_0_l.
  rewrite (submessage_size 4 eq_refl). cbn [no_error mbind option_bind outcome_bind].
  assert (2 + message_size (put_message 4 (page_trailer p)) ≤ MaxMessageBytes) as Hm.
  { etrans; [|exact Hf]. unfold frame_bytes, page_bytes. rewrite trailer_message_size.
    change (size_or_zero (Some ?x)) with x. destruct (page_sums_nonneg _ Hl) as [_ Hr].
    unfold put_message. rewrite field_size_one. cbn [sum_of]. rewrite payload_message.
    rewrite delimited_field by (pose proof (message_size_nonneg (page_trailer p)); lia).
    change (size_or_zero (Some ?x)) with x. unfold delimited. change (tag_size 4) with 1.
    pose proof (varintSize_mono (message_size (page_trailer p)) (record_bytes (pg_Records p) + message_size (page_trailer p))). lia. }
  rewrite (proj2 (Z.ltb_ge _ _)) by done. apply require_ok, orb_true_iff. by rewrite !bool_decide_eq_true.
Qed.
End page_costs.

Section page_cost_theorem.
Context `{Hwire : Protowire, !ProtowireLaws, Hrt : ProtoRuntime, !ProtoRuntimeLaws}.

Lemma size_message m : proto_Size (pmsg m) = message_size m.
Proof. rewrite Size_encoding. reflexivity. Qed.
Lemma toProto_some `{Reflect A} (validate : A → outcome unit) (encode : A → message) v :
  admission v = Some (Ok tt) → validate v = Some (Ok tt) → message_size (encode v) ≤ MaxMessageBytes →
  toProto validate encode v = Some (Ok (encode v)).
Proof. intros Ha Hv Hs. unfold toProto. rewrite Ha, Hv, size_message. cbn [mbind outcome_bind]. by rewrite (proj2 (Z.ltb_ge _ _)). Qed.

(** One record's contribution to its page. *)
Definition record_cost (r : ResourceRecord) : Z * (Z * Z) :=
  (1 + payload_size (pmsg (toRecord r)), (count_nodes (pmsg (toRecord r)), 1 + count_fields (pmsg (toRecord r)))).

Lemma record_in_page p r : Forall (λ r, ValidateRecord r = Some (Ok tt)) (pg_Records p) → r ∈ pg_Records p →
  message_size (toRecord r) ≤ page_bytes p.
Proof.
  intros Hl Hr. rewrite page_message_size by (eapply Forall_impl; [exact Hl|]; apply ValidateRecord_tagged).
  change (toSourcePage p) with (put_messages 1 (map toRecord (pg_Records p)) ++ page_trailer p). rewrite message_size_app.
  unfold put_messages. rewrite (repeated_size 1 eq_refl), !sum_of_map. pose proof (message_size_nonneg (page_trailer p)).
  assert (Hone : ∀ r, message_size (toRecord r) ≤ 1 + payload_size (pmsg (toRecord r))).
  { intros r'. rewrite payload_message. unfold delimited. pose proof (varintSize_range (message_size (toRecord r'))). lia. }
  assert (Hge : ∀ l, 0 ≤ sum_of (λ r, 1 + payload_size (pmsg (toRecord r))) l).
  { intros l. apply sum_of_nonneg. intros r'. pose proof (Hone r'). pose proof (message_size_nonneg (toRecord r')). lia. }
  enough (message_size (toRecord r) ≤ sum_of (λ r, 1 + payload_size (pmsg (toRecord r))) (pg_Records p)) by lia.
  clear Hl. induction Hr as [r l|r r' l _ IH]; cbn [sum_of].
  - specialize (Hge l). specialize (Hone r). lia.
  - specialize (Hone r'). pose proof (message_size_nonneg (toRecord r')). lia.
Qed.
Lemma page_in_frame p : Forall (λ r, ValidateRecord r = Some (Ok tt)) (pg_Records p) → page_bytes p ≤ frame_bytes p.
Proof.
  intros Hl. rewrite response_message_size, page_message_size by (eapply Forall_impl; [exact Hl|]; apply ValidateRecord_tagged).
  unfold page_response. rewrite message_size_app. unfold put_message. rewrite (field_size_one 4). cbn [sum_of].
  rewrite payload_message. unfold delimited. pose proof (varintSize_range (message_size (toSourcePage p))).
  pose proof (message_size_nonneg (put_uint 1 WireVersion)). change (tag_size 4) with 1. lia.
Qed.

Lemma SourceRecordWireCost_eq r : ValidateRecord r = Some (Ok tt) → message_size (toRecord r) ≤ MaxMessageBytes →
  SourceRecordWireCost r = Some (Ok (record_cost r)).
Proof.
  intros Hr Hs. unfold SourceRecordWireCost, ToProtoRecord. rewrite toProto_some; [|by apply ValidateRecord_inv in Hr as [? _]|done..].
  cbn [mbind outcome_bind]. unfold Proto.Count, record_cost.
  rewrite size_message, SizeTag_encoding, SizeBytes_encoding by (done || apply message_size_nonneg).
  rewrite (Z.add_comm (count_fields _)), payload_message. reflexivity.
Qed.
Lemma SourcePageWireCost_eq p : ValidateSourcePage p = Some (Ok tt) →
  SourcePageWireCost p = Some (Ok (message_size (toSourcePage p), Proto.Count (pmsg (page_response (toSourcePage p))))).
Proof.
  intros Hp. pose proof (ValidateSourcePage_inv p Hp) as (_ & Ha & Hl & _ & Hf & _). unfold SourcePageWireCost, ToProtoSourcePage.
  rewrite toProto_some; [cbn [mbind outcome_bind]; by rewrite size_message|done|done|].
  rewrite <- page_message_size by (eapply Forall_impl; [exact Hl|]; apply ValidateRecord_tagged).
  etrans; [by apply page_in_frame|done].
Qed.

Lemma page_split p : toSourcePage p = put_messages 1 (map toRecord (pg_Records p)) ++ toSourcePage (envelope p).
Proof. reflexivity. Qed.
Lemma page_count m : Proto.Count (pmsg (page_response m)) = (2 + inner_nodes m, 2 + inner_fields m).
Proof.
  unfold Proto.Count. rewrite count_nodes_message, count_fields_message. unfold page_response. rewrite !sum_of_app.
  unfold inner_nodes, inner_fields. cbn. f_equal; lia.
Qed.

Lemma response_wire_size p :
  SourcePageResponseWireSize (message_size (toSourcePage p)) = proto_Size (pmsg (page_response (toSourcePage p))).
Proof.
  unfold SourcePageResponseWireSize. rewrite size_message, !SizeTag_encoding, SizeBytes_encoding, SizeVarint_encoding
    by (done || apply message_size_nonneg). unfold page_response, put_message.
  rewrite message_size_app, (field_size_one 4). cbn [sum_of]. rewrite payload_message.
  change (message_size (put_uint 1 WireVersion)) with 2. change (tag_size 1 + varintSize WireVersion) with 2. lia.
Qed.
Lemma tagged_records l : Forall (λ r, ValidateRecord r = Some (Ok tt)) l → Forall (λ r, well_tagged (rec_Body r)) l.
Proof. intros Hl. eapply Forall_impl; [exact Hl|]. apply ValidateRecord_tagged. Qed.

(** Assembling a page record by record costs exactly what the finished page
    costs: the payload bytes, messages and fields that [SourcePageWireCost]
    reports for a page are those of its envelope without records plus the
    contributions [SourceRecordWireCost] reports for each record, and the
    response size computed from the byte total is the size of the response as
    encoded, within the message limit. A host that adds contributions and stops
    at a limit therefore never sends too much and never stops early. *)
Theorem page_cost_incremental p bytes nodes fields :
  SourcePageWireCost p = Some (Ok (bytes, (nodes, fields))) →
  ∃ b0 n0 f0 costs,
    SourcePageWireCost (envelope p) = Some (Ok (b0, (n0, f0)))
    ∧ Forall2 (λ r c, SourceRecordWireCost r = Some (Ok c)) (pg_Records p) costs
    ∧ bytes = b0 + sum_of fst costs ∧ nodes = n0 + sum_of (λ c, c.2.1) costs ∧ fields = f0 + sum_of (λ c, c.2.2) costs
    ∧ SourcePageResponseWireSize bytes = proto_Size (pmsg (page_response (toSourcePage p)))
    ∧ SourcePageResponseWireSize bytes ≤ MaxMessageBytes.
Proof.
  intros Hc. assert (Hp : ValidateSourcePage p = Some (Ok tt)).
  { revert Hc. unfold SourcePageWireCost. destruct (ToProtoSourcePage p) as [[m|]|] eqn:E; [|done..]. intros _.
    by apply toProto_ok in E as (_ & ? & _). }
  rewrite (SourcePageWireCost_eq p Hp), page_count in Hc. injection Hc as <- <- <-.
  pose proof (ValidateSourcePage_inv p Hp) as (_ & _ & Hl & _ & Hf & _).
  exists (message_size (toSourcePage (envelope p))), (2 + inner_nodes (toSourcePage (envelope p))),
    (2 + inner_fields (toSourcePage (envelope p))), (map record_cost (pg_Records p)).
  rewrite (page_split p) at 1 2 3. rewrite message_size_app, inner_nodes_app, inner_fields_app.
  unfold put_messages. rewrite (repeated_size 1 eq_refl), inner_nodes_repeated, inner_fields_repeated, !sum_of_map. cbn [record_cost fst snd].
  split_and!.
  - by rewrite (SourcePageWireCost_eq _ (envelope_valid p Hp)), page_count.
  - apply Forall2_fmap_r, Forall_Forall2_diag, Forall_forall. intros r Hr. apply SourceRecordWireCost_eq.
    + rewrite Forall_forall in Hl. by apply Hl.
    + etrans; [by apply record_in_page|]. etrans; [by apply page_in_frame|done].
  - apply Z.add_comm.
  - lia.
  - lia.
  - apply response_wire_size.
  - rewrite response_wire_size, size_message, <- response_message_size by by apply tagged_records. done.
Qed.
(** The page of a response on the wire, and the bodies of its records. *)
Definition encoded_frame (p : SourcePage) : pvalue := pmsg (page_response (toSourcePage p)).
Definition encoded_bodies (p : SourcePage) : list pvalue := map (λ r, pmsg (toValue (rec_Body r))) (pg_Records p).

Lemma body_bytes_encoded p : Forall (λ r, well_tagged (rec_Body r)) (pg_Records p) →
  body_bytes (pg_Records p) = sum_of proto_Size (encoded_bodies p).
Proof.
  unfold body_bytes, encoded_bodies. rewrite sum_of_map.
  induction 1 as [|r l Hr _ IH]; cbn [sum_of]; [done|]. by rewrite IH, (value_message_size _ Hr), size_message.
Qed.

(** What a page may say of itself: its tokens, its count, its coverage. *)
Definition token_fits (s : option string) : Prop := ∀ t, s = Some t → t ≠ "" ∧ utf8_valid_string t = true.
Definition count_fits (records : Z) (c : Count) : Prop :=
  (cn_Kind c = countUnknown ∧ cn_Value c = None)
  ∨ ∃ n, uint64_range n ∧ cn_Value c = Some (format_uint n)
       ∧ (cn_Kind c = "estimate" ∨ (cn_Kind c = "exact" ∧ records ≤ n)).
Definition path_fits (path : string) : Prop :=
  utf8_valid_string path = true ∧ (∃ rest, bytes_of path = "/"%char :: rest) ∧ pointer_escapes (bytes_of path) = true.
Definition coverage_fits (c : Coverage) : Prop :=
  admission c = Some (Ok tt)
  ∧ ((cv_Kind c = "complete" ∧ cv_Paths c = [] ∧ cv_Reason c = "")
     ∨ ((cv_Kind c = "partial" ∨ cv_Kind c = coverageUnknown) ∧ cv_Reason c ≠ "" ∧ Forall path_fits (cv_Paths c))).

Lemma otoken_fits s : otoken s = Some (Ok tt) ↔ token_fits s.
Proof.
  unfold token_fits, otoken, returns, token, text. destruct s as [t|]; [|done].
  transitivity (t ≠ "" ∧ utf8_valid_string t = true); [|naive_solver].
  destruct (utf8_valid_string t), (decide (t = "")) as [->|]; cbn; try naive_solver.
  rewrite (bool_decide_eq_false_2 (t = "")) by done. naive_solver.
Qed.
Lemma validateCount_fits records c :
  (validateCount c = Some (Ok tt) ∧ (cn_Kind c = "exact" → records ≤ ParseUint_value (default "" (cn_Value c))))
  ↔ count_fits records c.
Proof.
  unfold validateCount, count_fits. case_bool_decide as Hu.
  { rewrite require_ok, bool_decide_eq_true, Hu. unfold countUnknown. naive_solver. }
  assert (Hv : ∀ v, returns (canonicalInt v true) = Some (Ok tt) ↔ ∃ n, uint64_range n ∧ v = format_uint n).
  { intros v. rewrite <- canonicalInt_uint. unfold returns. destruct (canonicalInt v true) as [[]|]; naive_solver. }
  destruct (bool_decide _ || bool_decide _) eqn:Ek; [|split; [by intros [? _]|]].
  - apply orb_true_iff in Ek. rewrite !bool_decide_eq_true in Ek. destruct (cn_Value c) as [v|]; [|split; [by intros [? _]|naive_solver]].
    rewrite Hv. split.
    + intros [(n & Hn & ->) He]. right. exists n. split_and!; [done|done|]. cbn in He.
      rewrite ParseUint_format in He by done. naive_solver.
    + intros [[? _]|(n & Hn & [= ->] & Hk)]; [done|]. cbn. rewrite ParseUint_format by done.
      split; [eauto|]. destruct Hk as [Hk|[_ ?]]; [|done]. by rewrite Hk.
  - apply orb_false_iff in Ek. rewrite !bool_decide_eq_false in Ek. naive_solver.
Qed.
Lemma validateCoveragePath_fits path : validateCoveragePath path = Some (Ok tt) ↔ path_fits path.
Proof.
  unfold validateCoveragePath, path_fits, utf8_valid_string. rewrite outcome_seq_ok, !require_ok, andb_true_iff.
  unfold byte_is. rewrite Ascii.eqb_eq.
  enough (byte_at (bytes_of path) 0 = "/"%char ↔ ∃ rest, bytes_of path = "/"%char :: rest) as -> by tauto.
  destruct (bytes_of path) as [|c rest]; cbn; split; [done|by intros [? ?]|intros ->; eauto|by intros [? [= -> _]]].
Qed.
Lemma validateCoverage_fits c : validateCoverage c = Some (Ok tt) ↔ coverage_fits c.
Proof.
  unfold validateCoverage, coverage_fits. rewrite outcome_seq_ok.
  apply and_iff_compat_l. case_bool_decide as Hc.
  { rewrite require_ok, andb_true_iff, Nat.eqb_eq, length_zero_iff_nil, bool_decide_eq_true, Hc. naive_solver. }
  destruct (bool_decide _ || bool_decide _) eqn:Ek.
  - apply orb_true_iff in Ek. rewrite !bool_decide_eq_true in Ek.
    rewrite outcome_seq_ok, require_ok, negb_true_iff, bool_decide_eq_false, each_ok.
    assert (Forall (λ p, validateCoveragePath p = Some (Ok tt)) (cv_Paths c) ↔ Forall path_fits (cv_Paths c)) as ->; [|naive_solver].
    apply Forall_iff, validateCoveragePath_fits.
  - apply orb_false_iff in Ek. rewrite !bool_decide_eq_false in Ek. naive_solver.
Qed.
Lemma page_claims_fit p : page_claims p ↔
  token_fits (NextCursor p) ∧ token_fits (pg_SourceRevision p)
  ∧ count_fits (Z.of_nat (length (pg_Records p))) (pg_Count p) ∧ coverage_fits (pg_Coverage p)
  ∧ (Consistency p = ConsistencyBestEffort ∨ Consistency p = ConsistencyPointInTime).
Proof. unfold page_claims. rewrite !otoken_fits, <- validateCount_fits, validateCoverage_fits. tauto. Qed.

(** C19: ValidateSourcePage always answers, and accepts a page exactly when it has
    at most [maxPageRecords] records, each valid; the encodings of their bodies
    total at most [MaxPageBodyBytes]; the whole response frame that carries the
    page, as the adapters build it and the protobuf runtime measures it, fits
    [MaxMessageBytes]; its tokens are nonempty UTF-8; its count is unknown or a
    canonical uint64, an exact one not below the length of the page; a complete
    coverage has no limitation and an incomplete one a reason and JSON pointers;
    and its consistency is one of the two known. It computes the sizes without
    encoding anything, record by record and field by field: nothing that is on the
    wire is left out of them, and nothing counted twice. *)
Theorem ValidateSourcePage_iff p :
  ValidateSourcePage p ≠ None ∧
  (ValidateSourcePage p = Some (Ok tt) ↔
   Z.of_nat (length (pg_Records p)) ≤ maxPageRecords ∧ admission p = Some (Ok tt)
   ∧ Forall (λ r, ValidateRecord r = Some (Ok tt)) (pg_Records p)
   ∧ sum_of proto_Size (encoded_bodies p) ≤ MaxPageBodyBytes
   ∧ proto_Size (encoded_frame p) ≤ MaxMessageBytes
   ∧ token_fits (NextCursor p) ∧ token_fits (pg_SourceRevision p)
   ∧ count_fits (Z.of_nat (length (pg_Records p))) (pg_Count p) ∧ coverage_fits (pg_Coverage p)
   ∧ (Consistency p = ConsistencyBestEffort ∨ Consistency p = ConsistencyPointInTime)).
Proof.
  destruct (ValidateSourcePage_computed p) as [Hd Hiff]. split; [exact Hd|]. rewrite Hiff, page_claims_fit.
  assert (Forall (λ r, ValidateRecord r = Some (Ok tt)) (pg_Records p) →
    body_bytes (pg_Records p) = sum_of proto_Size (encoded_bodies p) ∧ frame_bytes p = proto_Size (encoded_frame p)) as He.
  { intros Hl%tagged_records. split; [by apply body_bytes_encoded|]. unfold encoded_frame. rewrite size_message.
    by apply response_message_size. }
  split; intros (H1 & H2 & Hl & H3 & H4 & H5); destruct (He Hl) as [Eb Ef]; rewrite Eb, Ef in *; split_and!; (done || apply H5).
Qed.
End page_cost_theorem.

(** ** Which encoded values the receiver admits *)

Lemma max_of_map {A B} (f : B → Z) (g : A → B) l : max_of f (map g l) = max_of (λ a, f (g a)) l.
Proof. induction l as [|a l IH]; cbn [map max_of]; [done|by rewrite IH]. Qed.
Lemma sum_of_le {A} (f g : A → Z) l : Forall (λ a, f a ≤ g a) l → sum_of f l ≤ sum_of g l.
Proof. induction 1; cbn [sum_of]; lia. Qed.

Lemma sum_of_scale {A} (c : Z) (f : A → Z) l : sum_of (λ a, c * f a) l = c * sum_of f l.
Proof. induction l as [|a l IH]; cbn [sum_of]; lia. Qed.

(** Every value node costs at most three messages and six fields, every level of
    nesting three messages of depth. *)
Record value_admissible (v : Value) : Prop := {
  va_known : known (pmsg (toValue v));
  va_nodes : count_nodes (pmsg (toValue v)) + 1 ≤ 3 * value_nodes v;
  va_fields : count_fields (pmsg (toValue v)) + 3 ≤ 6 * value_nodes v;
  va_height : message_height (pmsg (toValue v)) ≤ 3 * value_depth v + 2;
  va_text : text_bytes (pmsg (toValue v)) ≤ value_bytes v
}.

Lemma known_fields fs : known (pmsg fs) ↔ Forall (λ f, Forall known f.2) fs.
Proof. split; [by inversion 1|by constructor]. Qed.
Lemma known_one n l : Forall known l → known (pmsg [(n, l)]).
Proof. intros Hl. apply known_fields. by repeat constructor. Qed.
Lemma known_repeated n l : Forall known l → known (pmsg (put_repeated n l)).
Proof. intros Hl. destruct l; [by apply known_fields|by apply known_one]. Qed.
Lemma known_put_string n s : utf8_valid_string s = true → Forall (λ f : Z * list pvalue, Forall known f.2) (put_string n s).
Proof. intros Hs. unfold put_string. case_bool_decide; repeat constructor. done. Qed.

Lemma timestamp_admissible t : year_ok t → nanos_ok t →
  known (pmsg (toTimestamp t)) ∧ count_nodes (pmsg (toTimestamp t)) = 1 ∧ count_fields (pmsg (toTimestamp t)) ≤ 2
  ∧ message_height (pmsg (toTimestamp t)) = 1 ∧ text_bytes (pmsg (toTimestamp t)) = 0.
Proof.
  intros _ _. unfold toTimestamp, put_sint, put_uint.
  destruct (Unix t =? 0), (Nanosecond t =? 0); (split; [apply known_fields; repeat constructor|cbn; lia]).
Qed.

(** One repeated field of messages. *)
Lemma repeated_costs l :
  count_nodes (pmsg (put_repeated 1 l)) = 1 + sum_of count_nodes l
  ∧ count_fields (pmsg (put_repeated 1 l)) = sum_of (λ v, 1 + count_fields v) l
  ∧ message_height (pmsg (put_repeated 1 l)) ≤ 1 + max_of message_height l
  ∧ text_bytes (pmsg (put_repeated 1 l)) = sum_of text_bytes l.
Proof.
  rewrite count_nodes_message, count_fields_message. fold (inner_nodes (put_repeated 1 l)) (inner_fields (put_repeated 1 l)).
  rewrite inner_nodes_repeated, inner_fields_repeated. split_and!; [done|done| |]; destruct l; cbn; try done; try lia.
  pose proof (max_of_nonneg message_height l). lia.
Qed.
Lemma wrapped_costs n m : count_nodes (pmsg (put_message n m)) = 1 + count_nodes (pmsg m)
  ∧ count_fields (pmsg (put_message n m)) = 1 + count_fields (pmsg m)
  ∧ message_height (pmsg (put_message n m)) ≤ 1 + Z.max 0 (message_height (pmsg m))
  ∧ text_bytes (pmsg (put_message n m)) = text_bytes (pmsg m).
Proof. unfold put_message. cbn. lia. Qed.

Definition entry_message (e : string * Value) : message := put_string 1 e.1 ++ put_message 2 (toValue e.2).
Lemma entry_costs e :
  count_nodes (pmsg (entry_message e)) = 1 + count_nodes (pmsg (toValue e.2))
  ∧ count_fields (pmsg (entry_message e)) ≤ 2 + count_fields (pmsg (toValue e.2))
  ∧ message_height (pmsg (entry_message e)) ≤ 1 + Z.max 0 (message_height (pmsg (toValue e.2)))
  ∧ text_bytes (pmsg (entry_message e)) = slen e.1 + text_bytes (pmsg (toValue e.2)).
Proof.
  unfold entry_message, put_message, put_string. destruct e as [k v]. cbn [fst snd]. generalize (toValue v). intros x.
  case_bool_decide as E; [subst k; change (slen "") with 0|]; cbn; lia.
Qed.

Lemma map_admissible m :
  Forall (λ e : string * Value, well_tagged e.2 → value_admissible e.2) (listOf m) →
  Forall (λ e, utf8_valid_string e.1 = true ∧ well_tagged e.2) (listOf m) →
  value_admissible (mkValue valueKindMap false "" "" "" zero_float "" None m).
Proof.
  intros Hm Hw. set (es := sort_entries (listOf m)). pose proof (sort_entries_perm (listOf m)) as Hp. fold es in Hp.
  assert (Hr : Forall (λ e : string * Value, utf8_valid_string e.1 = true ∧ value_admissible e.2) es).
  { rewrite Hp. rewrite Forall_forall in *. intros e He. destruct (Hw e He). auto. }
  assert (E : toValue (mkValue valueKindMap false "" "" "" zero_float "" None m)
    = put_message 9 (put_repeated 1 (map (λ e, pmsg (entry_message e)) es))).
  { rewrite toValue_listOf. kinds. unfold put_messages. by rewrite !map_map. }
  set (p := put_repeated 1 (map (λ e, pmsg (entry_message e)) es)) in *.
  destruct (wrapped_costs 9 p) as (W1 & W2 & W3 & W4).
  destruct (repeated_costs (map (λ e, pmsg (entry_message e)) es)) as (R1 & R2 & R3 & R4). fold p in R1, R2, R3, R4.
  rewrite R1, sum_of_map in W1. rewrite R2, sum_of_map in W2. rewrite max_of_map in R3. rewrite R4, sum_of_map in W4.
  split; rewrite ?E, ?W1, ?W2, ?W4, ?value_nodes_eq, ?value_depth_eq, ?value_bytes_eq; cbn [vString vList vMap];
    change (listOf None) with (@nil Value); cbn [sum_of max_of].
  - apply known_one, Forall_singleton, known_repeated, Forall_map. eapply Forall_impl; [exact Hr|]. intros e [He Hv].
    apply known_fields, Forall_app. split; [by apply known_put_string|]. apply Forall_singleton, Forall_singleton, Hv.
  - rewrite <- (sum_of_perm _ _ _ Hp).
    assert (Hs : sum_of (λ e, count_nodes (pmsg (entry_message e))) es ≤ sum_of (λ e, 3 * value_nodes e.2) es).
    { apply sum_of_le. eapply Forall_impl; [exact Hr|]. intros e [_ []]. destruct (entry_costs e) as (-> & _). lia. }
    rewrite (sum_of_scale 3 (λ e, value_nodes e.2)) in Hs. lia.
  - rewrite <- (sum_of_perm _ _ _ Hp).
    assert (Hs : sum_of (λ e, 1 + count_fields (pmsg (entry_message e))) es ≤ sum_of (λ e, 6 * value_nodes e.2) es).
    { apply sum_of_le. eapply Forall_impl; [exact Hr|]. intros e [_ []]. destruct (entry_costs e) as (_ & ? & _). lia. }
    rewrite (sum_of_scale 6 (λ e, value_nodes e.2)) in Hs. lia.
  - rewrite <- (max_of_perm _ _ _ Hp). etrans; [exact W3|]. set (M := max_of (λ e, 1 + value_depth e.2) es).
    assert (Hmax : max_of (λ e, message_height (pmsg (entry_message e))) es ≤ Z.max 0 (3 * M)).
    { apply max_of_le. split; [lia|]. assert (M ≤ M) as [_ Hd]%max_of_le by lia. rewrite Forall_forall in *.
      intros e He. specialize (Hd e He). destruct (Hr e He) as [_ []]. destruct (entry_costs e) as (_ & _ & ? & _).
      pose proof (value_depth_nonneg e.2). cbv beta in *. lia. }
    pose proof (max_of_nonneg (λ e : string * Value, 1 + value_depth e.2) es) as Hn. fold M in Hn. lia.
  - rewrite <- (sum_of_perm _ _ _ Hp).
    assert (Hs : sum_of (λ e, text_bytes (pmsg (entry_message e))) es ≤ sum_of (λ e, slen e.1 + value_bytes e.2) es).
    { apply sum_of_le. eapply Forall_impl; [exact Hr|]. intros e [_ []]. destruct (entry_costs e) as (_ & _ & _ & ->). lia. }
    change (slen "") with 0. lia.
Qed.

Lemma value_admissible_all v : well_tagged v → value_admissible v.
Proof.
  induction v as [k b s i u d t l m Hl Hm] using Value_nested_ind. intros Hw. inversion Hw; subst.
  - split; [apply known_one; repeat constructor|done..].
  - split; [apply known_one; repeat constructor|done..].
  - split; [apply known_one; repeat constructor; done|done|done|done|].
    change (slen s + 0 + 0 ≤ slen s + 0 + 0). lia.
  - split; [apply known_one; repeat constructor|done..].
  - split; [apply known_one; repeat constructor|done..].
  - split; [apply known_one; repeat constructor|done..].
  - match goal with H : timestamp _ = Ok _ |- _ => rename H into Ht end. destruct (timestamp_range _ _ Ht) as [Hy Hn].
    assert (E : toValue (mkValue valueKindTimestamp false "" "" "" zero_float t None None) = put_message 7 (toTimestamp t0)).
    { cbn [toValue vKind vTimestamp]. kinds. unfold timestamp_or_zero. by rewrite Ht. }
    destruct (timestamp_admissible t0 Hy Hn) as (H1 & H2 & H3 & H4 & H5).
    destruct (wrapped_costs 7 (toTimestamp t0)) as (W1 & W2 & W3 & W4). rewrite H2 in W1. rewrite H4 in W3. rewrite H5 in W4.
    split; rewrite ?E; [apply known_one, Forall_singleton, H1| | | |];
      rewrite ?W1, ?W4; cbn [value_nodes value_depth value_bytes vString vList vMap]; try done; lia.
  - match goal with H : Forall well_tagged _ |- _ => pose proof (Forall_mp _ _ _ Hl H) as Hr end.
    assert (E : toValue (mkValue valueKindList false "" "" "" zero_float "" l None)
      = put_message 8 (put_repeated 1 (map (λ v, pmsg (toValue v)) (listOf l)))).
    { rewrite toValue_listOf. kinds. unfold put_messages. by rewrite map_map. }
    set (p := put_repeated 1 (map (λ v, pmsg (toValue v)) (listOf l))) in *.
    destruct (wrapped_costs 8 p) as (W1 & W2 & W3 & W4).
    destruct (repeated_costs (map (λ v, pmsg (toValue v)) (listOf l))) as (R1 & R2 & R3 & R4). fold p in R1, R2, R3, R4.
    rewrite R1, sum_of_map in W1. rewrite R2, sum_of_map in W2. rewrite max_of_map in R3. rewrite R4, sum_of_map in W4.
    split; rewrite ?E, ?W1, ?W2, ?W4, ?value_nodes_eq, ?value_depth_eq, ?value_bytes_eq; cbn [vString vList vMap];
      change (listOf None) with (@nil (string * Value)); cbn [sum_of max_of].
    + apply known_one, Forall_singleton, known_repeated, Forall_map. eapply Forall_impl; [exact Hr|]. intros v Hv. apply Hv.
    + pose proof (sum_of_le (λ v, count_nodes (pmsg (toValue v))) (λ v, 3 * value_nodes v) (listOf l)) as Hs.
      rewrite sum_of_scale in Hs. enough (Forall (λ v, count_nodes (pmsg (toValue v)) ≤ 3 * value_nodes v) (listOf l)) by (specialize (Hs ltac:(done)); lia).
      eapply Forall_impl; [exact Hr|]. intros v Hv. destruct Hv. lia.
    + pose proof (sum_of_le (λ v, 1 + count_fields (pmsg (toValue v))) (λ v, 6 * value_nodes v) (listOf l)) as Hs.
      rewrite sum_of_scale in Hs. enough (Forall (λ v, 1 + count_fields (pmsg (toValue v)) ≤ 6 * value_nodes v) (listOf l)) by (specialize (Hs ltac:(done)); lia).
      eapply Forall_impl; [exact Hr|]. intros v Hv. destruct Hv. lia.
    + etrans; [exact W3|]. set (M := max_of (λ v, 1 + value_depth v) (listOf l)).
      assert (max_of (λ v, message_height (pmsg (toValue v))) (listOf l) ≤ Z.max 0 (3 * M - 1)).
      { apply max_of_le. split; [lia|]. assert (M ≤ M) as [_ Hd]%max_of_le by lia. rewrite Forall_forall in *.
        intros v Hv. specialize (Hd v Hv). destruct (Hr v Hv). cbv beta in *. lia. }
      pose proof (max_of_nonneg (λ v, 1 + value_depth v) (listOf l)). fold M in H. lia.
    + pose proof (sum_of_le (λ v, text_bytes (pmsg (toValue v))) value_bytes (listOf l)) as Hs.
      enough (Forall (λ v, text_bytes (pmsg (toValue v)) ≤ value_bytes v) (listOf l)) by (specialize (Hs ltac:(done)); change (slen "") with 0; lia).
      eapply Forall_impl; [exact Hr|]. intros v Hv. apply Hv.
  - by apply map_admissible.
Qed.

(** A value within the field budget is admitted however it is nested. *)
Definition wire_nodes : Z := 174763.

Section value_codec.
Context `{Hwire : Protowire, !ProtowireLaws, Hrt : ProtoRuntime, !ProtoRuntimeLaws}.

Lemma value_admitted v : ValidateValue v = Some (Ok tt) → value_nodes v ≤ wire_nodes →
  admitProto (Some (pmsg (toValue v))) = Ok tt.
Proof.
  intros (Hw & Hd & Hn & Hb & size & Hs & Hle)%ValidateValue_accepts Hf.
  destruct (value_admissible_all v Hw). rewrite (value_message_size v Hw) in Hs. injection Hs as <-.
  apply admitProto_accepts. unfold Proto.Count. cbn [fst snd]. rewrite size_message.
  unfold maxDomainDepth, MaxProtoDepth, MaxValueDepth, maxDomainNodes, wrapperNodes, maxDomainFields, wire_nodes, MaxMessageBytes, maxDocumentBytes in *.
  change (Z.shiftl 16 20) with 16777216 in *. change (Z.shiftl 32 20) with 33554432.
  unfold maxDomainDepth, maxDomainNodes. split_and!; [done|lia..].
Qed.

(** C27: The protobuf value codec loses nothing. Every value the encoder accepts
    with at most [wire_nodes] nodes is admitted by the receiver, whatever its
    nesting, strings and numbers, and decodes to the value that Go's native types
    carry, reordered at most inside its maps; a larger value does too whenever
    the receiver's field budget admits it. *)
Theorem value_roundtrip v m :
  ToProtoValue v = Some (Ok m) → keyed v →
  value_nodes v ≤ wire_nodes ∨ admitProto (Some (pmsg m)) = Ok tt →
  ∃ w, FromProtoValue (Some (pmsg m)) = Some (Ok w) ∧ reordered (normalize v) w.
Proof.
  intros (Ha & Hv & ->)%toProto_ok Hk Hadm. exists (canonical v).
  pose proof Hv as (Hw & Hd & Hn & _)%ValidateValue_accepts. split; [|by apply canonical_reordered].
  eapply fromProto_yields; [|by apply value_decodes_top|done|by apply canonical_valid].
  destruct Hadm; [by apply value_admitted|done].
Qed.
End value_codec.

(** The bound is tight: one more node and the receiver refuses the encoding of a
    map of timestamps, six fields an entry, that the encoder accepts. *)
Lemma timestamp_map_refused `{ProtoRuntime} m :
  Forall (λ e, e.1 ≠ "" ∧ ∃ t, e.2 = TimestampValue t ∧ year_ok t ∧ nanos_ok t ∧ Unix t ≠ 0 ∧ Nanosecond t ≠ 0) m →
  wire_nodes ≤ Z.of_nat (length m) →
  admitProto (Some (pmsg (toValue (mkValue valueKindMap false "" "" "" zero_float "" None (Some m))))) ≠ Ok tt.
Proof.
  intros Hm Hlen Hadm. apply admitProto_accepts in Hadm as (_ & _ & _ & Hf & _). revert Hf. apply Z.lt_nge.
  unfold Proto.Count. cbn [snd].
  set (es := sort_entries m). pose proof (sort_entries_perm m) as Hp. fold es in Hp.
  assert (E : toValue (mkValue valueKindMap false "" "" "" zero_float "" None (Some m))
    = put_message 9 (put_repeated 1 (map (λ e, pmsg (entry_message e)) es))).
  { rewrite toValue_listOf. kinds. unfold put_messages. by rewrite !map_map. }
  rewrite E. clear E. rewrite (proj1 (proj2 (wrapped_costs _ _))), (proj1 (proj2 (repeated_costs _))), sum_of_map.
  assert (Hs : sum_of (λ e, 1 + count_fields (pmsg (entry_message e))) es = 6 * Z.of_nat (length es)).
  { rewrite <- Hp in Hm. clear Hlen Hp. induction Hm as [|[k v] l (Hk & t & Hv & Hy & Hn & Hs & Hns) _ IH]; [done|].
    cbn [sum_of length]. rewrite IH. cbn [fst snd] in *. subst v.
    assert (Hone : count_fields (pmsg (entry_message (k, TimestampValue t))) = 5).
    { unfold entry_message. cbn [fst snd]. assert (toValue (TimestampValue t) = put_message 7 (toTimestamp t)) as ->.
      { unfold TimestampValue. cbn [toValue vKind vTimestamp]. kinds. unfold timestamp_or_zero. by rewrite timestamp_text_parses. }
      unfold toTimestamp, put_string, put_sint, put_uint. rewrite bool_decide_eq_false_2 by done.
      by rewrite (proj2 (Z.eqb_neq _ _) Hs), (proj2 (Z.eqb_neq _ _) Hns). }
    rewrite Hone. lia. }
  rewrite Hs, (Permutation_length Hp). unfold maxDomainFields, wire_nodes in *. lia.
Qed.

(** ** Observations and changes of a source session *)

Section source_sizes.
Context `{Hwire : Protowire, !ProtowireLaws, Hrt : ProtoRuntime, !ProtoRuntimeLaws}.

(** Indexes are [uint32]; creation times are within the years a timestamp has. *)
Definition segment_ranges (s : FieldPathSegment) : Prop := ∀ i, seg_Index s = Some i → uint64_range i.
Definition observation_ranges (o : SourceObservation) : Prop :=
  Forall (λ p, Forall segment_ranges (Segments p)) (KnownAbsent (ob_DocumentCoverage o))
  ∧ ∀ md t, ob_Metadata o = Some md → md_CreatedAt md = Some t → nanos_ok (nt_UTC t).

Lemma segment_message_size s : segment_ranges s → (seg_Member s ≠ None ∨ seg_Index s ≠ None) →
  segment_size s = Some (message_size (put_message 1 (toFieldPathSegment s))).
Proof.
  intros Hr Hs. unfold segment_size, toFieldPathSegment. destruct s as [[name|] [i|]]; cbn [seg_Member seg_Index default] in *.
  1-2: rewrite (string_size 1 eq_refl); cbn [mbind option_bind]; rewrite (submessage_size 1 eq_refl); cbn [mbind option_bind];
    by rewrite (submessage_size 1 eq_refl).
  - specialize (Hr i eq_refl). cbn [mbind option_bind].
    assert ((if negb (i =? 0) then 1 + SizeVarint i else 0) = message_size (put_uint 1 i)) as ->.
    { unfold put_uint. destruct (i =? 0); cbn [negb]; [done|]. rewrite SizeVarint_encoding, field_size_one by done.
      cbn [sum_of payload_size]. change (tag_size 1) with 1. lia. }
    rewrite (submessage_size 2 eq_refl). cbn [mbind option_bind]. by rewrite (submessage_size 1 eq_refl).
  - naive_solver.
Qed.

Lemma path_message_size p : Forall segment_ranges (Segments p) →
  Forall (λ s, seg_Member s ≠ None ∨ seg_Index s ≠ None) (Segments p) →
  path_size p = Some (message_size (put_message 1 (put_messages 1 (map toFieldPathSegment (Segments p))))).
Proof.
  intros Hr Hs. unfold path_size. rewrite (messages_size 1 eq_refl segment_size toFieldPathSegment).
  - cbn [mbind option_bind]. by rewrite Z.add_0_l, (submessage_size 1 eq_refl).
  - rewrite Forall_forall in *. intros s Hin. by apply segment_message_size; [apply Hr|apply Hs].
Qed.

(** Every segment of an accepted path selects something. *)
Lemma path_present_segments segments : ∀ current present b,
  path_present current present segments = Some (Ok b) →
  Forall (λ s, seg_Member s ≠ None ∨ seg_Index s ≠ None) segments.
Proof.
  induction segments as [|s l IH]; intros current present b; cbn [path_present]; [constructor|].
  intros ([c p] & Hs & Hl)%outcome_bind_some. constructor; [|by eapply IH].
  unfold path_step in Hs. destruct (seg_Member s), (seg_Index s); try done; by auto.
Qed.
Lemma coverage_segments c body : validateDocumentCoverage c body = Some (Ok tt) →
  Forall (λ p, Forall (λ s, seg_Member s ≠ None ∨ seg_Index s ≠ None) (Segments p)) (KnownAbsent c).
Proof.
  unfold validateDocumentCoverage. rewrite outcome_seq_ok, each_distinct_ok. intros (_ & _ & _ & Hp).
  eapply Forall_impl; [exact Hp|]. intros p [Hv _]. unfold validateKnownAbsent in Hv. rewrite outcome_seq_ok in Hv.
  destruct Hv as [_ (b & Hb & _)%outcome_bind_some]. by eapply path_present_segments.
Qed.

Lemma metadata_message_size md : (∀ t, md_CreatedAt md = Some t → year_ok (nt_UTC t) ∧ nanos_ok (nt_UTC t)) →
  metadata_size md = Some (message_size (toResourceMetadata md)).
Proof.
  intros Ht. unfold metadata_size, toResourceMetadata.
  rewrite (add_sizes_perm _ (listOf (md_Labels md)) (sort_entries (listOf (md_Labels md)))) by by rewrite sort_entries_perm.
  rewrite (messages_size 1 eq_refl _ (λ e : string * string, put_string 1 e.1 ++ put_string 2 e.2)).
  2: { apply Forall_forall. intros e _. rewrite (string_size 1 eq_refl e.1), (string_size 2 eq_refl e.2).
       unfold total. cbn [add_sizes id mbind option_bind]. rewrite <- (submessage_size 1 eq_refl), message_size_app. reflexivity. }
  cbn [mbind option_bind]. rewrite Z.add_0_l, message_size_app. unfold toOptionalTimestamp.
  destruct (md_CreatedAt md) as [t|]; cbn [fmap option_fmap option_map put_some compose].
  - destruct (Ht t eq_refl) as [Hy Hn].
    assert (Hnanos : (if negb (Nanosecond (nt_UTC t) =? 0) then 1 + SizeVarint (Nanosecond (nt_UTC t)) else 0)
      = (if negb (Nanosecond (nt_UTC t) =? 0) then 1 + varintSize (Nanosecond (nt_UTC t)) else 0)).
    { unfold nanos_ok in Hn. by rewrite SizeVarint_encoding by (unfold uint64_range, max_uint64; lia). }
    rewrite Hnanos, timestamp_message_size, (submessage_size 2 eq_refl) by done. done.
  - f_equal. symmetry. apply Z.add_0_r.
Qed.
End source_sizes.

Section observation_sizes.
Context `{Hwire : Protowire, !ProtowireLaws, Hrt : ProtoRuntime, !ProtoRuntimeLaws}.

Lemma validateSourceRecord_inv r : validateSourceRecord r = Some (Ok tt) →
  validateReference (sr_Reference r) = Some (Ok tt) ∧ vKind (sr_Body r) = valueKindMap
  ∧ ValidateValue (sr_Body r) = Some (Ok tt).
Proof.
  unfold validateSourceRecord, validate_value. rewrite !outcome_seq_ok, require_ok, bool_decide_eq_true. tauto.
Qed.
Lemma observation_inv o : validateSourceObservationAdapter o = Some (Ok tt) →
  validateSourceRecord (ob_Record o) = Some (Ok tt)
  ∧ validateDocumentCoverage (ob_DocumentCoverage o) (sr_Body (ob_Record o)) = Some (Ok tt)
  ∧ (∀ md, ob_Metadata o = Some md → admission md = Some (Ok tt))
  ∧ ∀ s, ob_DisplayName o = Some s → otext s false = Some (Ok tt).
Proof.
  unfold validateSourceObservationAdapter. rewrite !outcome_seq_ok. intros (H1 & H2 & H3 & H4). split_and!; [done|done| |].
  - intros md E. by rewrite E in H3.
  - intros s E. by rewrite E in H4.
Qed.
Lemma metadata_year md t : admission md = Some (Ok tt) → md_CreatedAt md = Some t → year_ok (nt_UTC t).
Proof.
  intros Ha Et. apply admission_clean in Ha. unfold reflect, reflect_ResourceMetadata in Ha.
  inversion Ha as [| | | | | | |fs Hf| | |]; subst. apply Forall_cons in Hf as [_ Hf]. apply Forall_cons in Hf as [Hf _].
  destruct Hf as [Hf|Hf]; [done|]. unfold omitted, reflect, reflect_pointer in Hf. cbn [snd] in Hf. rewrite Et in Hf.
  inversion Hf as [|v Hv| | | | | | | | |]; subst. inversion Hv; subst. unfold year_bad in *. propify. unfold year_ok. lia.
Qed.

Lemma source_record_message_size r : well_tagged (sr_Body r) → source_record_size r = Some (message_size (toSourceRecord r)).
Proof.
  intros Hw. unfold source_record_size, toSourceRecord.
  assert (total [stringFieldSize (ref_ID (sr_Representation r)); stringFieldSize (ref_Revision (sr_Representation r));
                 optionalStringFieldSize (ref_SchemaRevision (sr_Representation r))]
    = Some (message_size (toRepresentationRef (sr_Representation r)))) as ->.
  { unfold toRepresentationRef. rewrite (string_size 1 eq_refl (ref_ID _)), (string_size 2 eq_refl (ref_Revision _)),
      (optional_size 3 eq_refl (ref_SchemaRevision _)). sum_parts. }
  rewrite reference_message_size, (value_message_size _ Hw), coverage_message_size. cbn [mbind option_bind].
  rewrite (submessage_size 1 eq_refl), (submessage_size 2 eq_refl), (submessage_size 3 eq_refl), (submessage_size 4 eq_refl),
    (optional_size 5 eq_refl (sr_SourceRevision r)). sum_parts.
Qed.

Lemma observation_message_size o : validateSourceObservationAdapter o = Some (Ok tt) → observation_ranges o →
  observation_size o = Some (message_size (toSourceObservation o)).
Proof.
  intros (Hr & Hc & Hm & _)%observation_inv [Hs Ht]. apply validateSourceRecord_inv in Hr as (_ & _ & [Hw _]%ValidateValue_accepts).
  unfold observation_size, toSourceObservation. rewrite (source_record_message_size _ Hw). cbn [mbind option_bind].
  rewrite (submessage_size 5 eq_refl), (optional_size 3 eq_refl (ob_DisplayName o)).
  unfold total. cbn [add_sizes id mbind option_bind].
  set (size := 0 + _ + _). assert (Hmd : match ob_Metadata o with
    | Some md => m ← metadata_size md; f ← messageFieldSize m; Some (size + f)
    | None => Some size
    end = Some (size + message_size (put_some 2 (toResourceMetadata <$> ob_Metadata o)))).
  { destruct (ob_Metadata o) as [md|]; cbn [fmap option_fmap option_map put_some].
    - rewrite metadata_message_size; [cbn [mbind option_bind]; by rewrite (submessage_size 2 eq_refl)|].
      intros t Et. split; [eapply metadata_year; eauto|eauto].
    - f_equal. symmetry. apply Z.add_0_r. }
  rewrite Hmd. cbn [mbind option_bind]. unfold toDocumentCoverage.
  rewrite (messages_size 1 eq_refl path_size (λ p, put_messages 1 (map toFieldPathSegment (Segments p)))).
  - cbn [mbind option_bind]. rewrite Z.add_0_l, (submessage_size 4 eq_refl). cbn [mbind option_bind].
    rewrite !message_size_app. subst size. f_equal. lia.
  - apply coverage_segments in Hc. rewrite Forall_forall in *. intros p Hp. apply path_message_size; auto.
Qed.

Lemma source_coverage_message_size c : source_coverage_size c = Some (message_size (toSourceCoverage c)).
Proof.
  unfold source_coverage_size, toSourceCoverage. rewrite (string_size 1 eq_refl (sc_Enumeration c)), (string_size 2 eq_refl (sc_Consistency c)).
  unfold total. cbn [add_sizes id mbind option_bind]. rewrite (strings_size 3 eq_refl), !message_size_app. f_equal. lia.
Qed.

Lemma SourceObservationWireSize_eq o : validateSourceObservationAdapter o = Some (Ok tt) → observation_ranges o →
  SourceObservationWireSize o = Some (Ok (message_size (toSourceObservation o))).
Proof.
  intros Hv Hr. unfold SourceObservationWireSize. rewrite Hv, observation_message_size by done. done.
Qed.

(** Every observation a change carries is within the integer types. *)
Definition change_ranges (c : SourceChange) : Prop := ∀ o, ch_Observation c = Some o → observation_ranges o.

Lemma change_message_size c : validateSourceChangeAdapter c = Some (Ok tt) → change_ranges c →
  change_size c = Some (Ok (message_size (put_message 1 (toSourceChange c)))).
Proof.
  unfold validateSourceChangeAdapter, change_size, toSourceChange, change_ranges. case_bool_decide.
  - destruct (ch_Observation c) as [o|]; [|done]. rewrite outcome_seq_ok. intros [_ Hv] Hr.
    rewrite SourceObservationWireSize_eq by eauto. cbn [mbind outcome_bind fmap option_fmap option_map put_some].
    rewrite (submessage_size 1 eq_refl). cbn [mbind option_bind]. by rewrite (submessage_size 1 eq_refl).
  - case_bool_decide; [|done]. destruct (ch_Reference c) as [r|]; [|done]. intros _ _.
    cbn [mbind option_bind fmap option_fmap option_map put_some]. rewrite reference_message_size. cbn [mbind option_bind].
    rewrite (submessage_size 1 eq_refl), (optional_size 2 eq_refl (ch_SourceRevision c)).
    assert (total [Some (message_size (put_message 1 (toResourceReference r))); Some (message_size (put_optional 2 (ch_SourceRevision c)))]
      = Some (message_size (put_message 1 (toResourceReference r) ++ put_optional 2 (ch_SourceRevision c)))) as -> by sum_parts.
    cbn [mbind option_bind]. rewrite (submessage_size 2 eq_refl). cbn [mbind option_bind]. by rewrite (submessage_size 1 eq_refl).
Qed.

Lemma change_sizes_eq l : Forall (λ c, validateSourceChangeAdapter c = Some (Ok tt)) l → Forall change_ranges l → ∀ z,
  change_sizes l z = Some (Ok (z + message_size (put_messages 1 (map toSourceChange l)))).
Proof.
  unfold put_messages. rewrite (repeated_size 1 eq_refl), !sum_of_map.
  induction 1 as [|c l Hc _ IH]; intros Hr z; cbn [change_sizes sum_of]; [do 2 f_equal; lia|].
  apply Forall_cons in Hr as [Hrc Hr]. rewrite (change_message_size c Hc Hrc). cbn [mbind outcome_bind].
  rewrite IH by done. unfold put_message. rewrite field_size_one. cbn [sum_of]. change (tag_size 1) with 1. do 2 f_equal. lia.
Qed.

(** C28: Sizes reported without encoding are the sizes of the encodings. For every
    valid value, record, observation and change batch, the arithmetic over the
    domain value answers exactly what the protobuf runtime measures on the
    message the adapter builds, so batching and limit decisions made before
    encoding are the ones encoding would have made. *)
Theorem wire_sizes_exact :
  (∀ v, ValidateValue v = Some (Ok tt) → ValueWireSize v = Some (Ok (proto_Size (pmsg (toValue v)))))
  ∧ (∀ r, ValidateRecord r = Some (Ok tt) → proto_Size (pmsg (toRecord r)) ≤ MaxMessageBytes →
     RecordWireSize r = Some (Ok (proto_Size (pmsg (toRecord r)))))
  ∧ (∀ o, validateSourceObservationAdapter o = Some (Ok tt) → observation_ranges o →
     SourceObservationWireSize o = Some (Ok (proto_Size (pmsg (toSourceObservation o)))))
  ∧ (∀ v, validateSourceChangesAdapter v = Some (Ok tt) → Forall change_ranges (Changes v) →
     SourceChangesWireSize v = Some (Ok (proto_Size (pmsg (toSourceChanges v))))).
Proof.
  split_and!.
  - intros v Hv. rewrite size_message. unfold ValueWireSize. rewrite Hv. pose proof Hv as (Hw & _ & _ & _ & size & Hs & Hle)%ValidateValue_accepts.
    cbn [mbind option_bind]. rewrite Hs. rewrite (value_message_size v Hw) in Hs. injection Hs as ->.
    cbn [mbind option_bind]. by rewrite (proj2 (Z.ltb_ge _ _)).
  - intros r Hr. rewrite size_message. intros Hle. unfold RecordWireSize. rewrite Hr. cbn [mbind outcome_bind].
    rewrite record_message_size by by apply ValidateRecord_tagged. cbn [no_error mbind option_bind outcome_bind].
    by rewrite (proj2 (Z.ltb_ge _ _)).
  - intros o Hv Hr. rewrite size_message. by apply SourceObservationWireSize_eq.
  - intros v Hv Hr. rewrite size_message. unfold SourceChangesWireSize. rewrite Hv. cbn [mbind outcome_bind].
    revert Hv. unfold validateSourceChangesAdapter. rewrite !outcome_seq_ok, each_ok. intros (_ & _ & Hc & _).
    rewrite change_sizes_eq by done. cbn [mbind outcome_bind]. unfold toSourceChanges. rewrite message_size_app, Z.add_0_l.
    destruct (ch_Coverage v) as [c|]; cbn [fmap option_fmap option_map put_some].
    + rewrite source_coverage_message_size. cbn [mbind option_bind]. rewrite (submessage_size 2 eq_refl). done.
    + do 2 f_equal. symmetry. apply Z.add_0_r.
Qed.
End observation_sizes.

(** ** Concrete runs *)

#[local] Instance wire : Protowire := {| SizeVarint n := varintSize (n mod 2 ^ 64); EncodeZigZag := zigzag |}.
#[local] Instance wire_laws : ProtowireLaws.
Proof.
  split. intros n. cbn [SizeVarint wire]. pose proof (Z.mod_pos_bound n (2 ^ 64) ltac:(done)).
  apply varintSize_bound. unfold uint64_range, max_uint64. lia.
Qed.
#[local] Instance runtime : ProtoRuntime := {| proto_Size := encoded_size; SizeTag := tag_size; SizeBytes := delimited |}.
#[local] Instance runtime_laws : ProtoRuntimeLaws.
Proof.
  split; try done. unfold uint64_range, max_uint64. intros n Hn. cbn [SizeVarint wire]. by rewrite Z.mod_small by lia.
Qed.

Ltac solve_keyed := repeat first [apply Forall_nil_2 | apply Forall_cons_2 | apply Keyed; [apply (bool_decide_unpack _); vm_compute; exact I| |]].
Lemma sample_keyed : keyed (rec_Body sample_record).
Proof. solve_keyed. Qed.

Lemma page_roundtrip_witness :
  ∃ m, ToProtoSourcePage sample_page = Some (Ok m)
  ∧ FromProtoSourcePage (Some (pmsg m)) = Some (Ok (canonicalPage sample_page)).
Proof.
  destruct (ToProtoSourcePage sample_page) as [[m|e]|] eqn:E.
  2: { vm_compute in E. discriminate E. }
  2: { vm_compute in E. discriminate E. }
  exists m. split; [done|]. apply (page_roundtrip sample_page m E).
  - apply Forall_cons_2; [apply sample_keyed|apply Forall_nil_2].
  - vm_compute in E. injection E as <-. vm_compute. reflexivity.
Defined.

Lemma ValidateSourcePage_iff_witness : ValidateSourcePage sample_page ≠ None
  ∧ proto_Size (encoded_frame sample_page) ≤ MaxMessageBytes.
Proof.
  destruct (ValidateSourcePage_iff sample_page) as [Hd Hiff]. split; [exact Hd|].
  destruct (proj1 Hiff ltac:(vm_compute; reflexivity)) as (_ & _ & _ & _ & Hf & _). exact Hf.
Defined.
Lemma page_cost_incremental_witness :
  ∃ bytes nodes fields costs,
    SourcePageWireCost sample_page = Some (Ok (bytes, (nodes, fields)))
    ∧ Forall2 (λ r c, SourceRecordWireCost r = Some (Ok c)) (pg_Records sample_page) costs
    ∧ SourcePageResponseWireSize bytes = proto_Size (pmsg (page_response (toSourcePage sample_page))).
Proof.
  destruct (SourcePageWireCost sample_page) as [[[b [n f]]|e]|] eqn:E.
  2: { vm_compute in E. discriminate E. }
  2: { vm_compute in E. discriminate E. }
  destruct (page_cost_incremental sample_page b n f E) as (b0 & n0 & f0 & costs & _ & Hc & _ & _ & _ & Hs & _).
  exists b, n, f, costs. auto.
Defined.

Definition sample_value : Value :=
  sample_map [("b", sample_int); ("a", mkValue valueKindTimestamp false "" "" "" zero_float "2024-02-29T12:30:00.500+02:00" None None)].
Lemma value_roundtrip_witness :
  ∃ m w, ToProtoValue sample_value = Some (Ok m) ∧ FromProtoValue (Some (pmsg m)) = Some (Ok w)
  ∧ reordered (normalize sample_value) w.
Proof.
  destruct (ToProtoValue sample_value) as [[m|e]|] eqn:E.
  2: { vm_compute in E. discriminate E. }
  2: { vm_compute in E. discriminate E. }
  assert (Hk : keyed sample_value) by solve_keyed.
  assert (Hn : value_nodes sample_value ≤ wire_nodes) by (vm_compute; discriminate).
  destruct (value_roundtrip sample_value m E Hk (or_introl Hn)) as (w & Hw & Hr). exists m, w. exact (conj eq_refl (conj Hw Hr)).
Defined.

Lemma wire_sizes_exact_witness :
  ValueWireSize sample_value = Some (Ok (proto_Size (pmsg (toValue sample_value))))
  ∧ RecordWireSize sample_record = Some (Ok (proto_Size (pmsg (toRecord sample_record)))).
Proof.
  destruct wire_sizes_exact as (Hv & Hr & _). split.
  - apply Hv. vm_compute. reflexivity.
  - apply Hr; [vm_compute; reflexivity|vm_compute; discriminate].
Defined.
