(* ===== verification/Settings.v ===== *)
(** * Preferences (settings/types.go, setting.go, provider.go)

    Typed settings with their normalization to canonical values, and the
    in-memory provider: registration, merging, validated commits, change
    notifications and the typed accessors. [int] is 64 bits wide. *)
From S2P Require Import Prelude GoStd GoJson GoFloat.
Local Open Scope Z_scope.

(** ** Dynamic Go values

    The values an [any] holds here. A slice is its elements: [CloneValue] copies
    turn a nil slice into an empty one, and no operation tells them apart. *)
Inductive int_kind := Kint | Kint8 | Kint16 | Kint32 | Kint64 | Kuint | Kuint8 | Kuint16 | Kuint32 | Kuint64.
#[export] Instance int_kind_eq_dec : EqDecision int_kind.
Proof. solve_decision. Defined.

Inductive gany : Type :=
| GNil
| GStr (s : string)
| GBool (b : bool)
| GInt (k : int_kind) (n : Z)
| GFloat32 (x : float64)
| GFloat64 (x : float64)
| GNumber (s : string)
| GStrs (l : list string)
| GInts (l : list Z)
| GFloats (l : list float64)
| GBools (l : list bool)
| GAnys (l : list gany)
| GMap (m : list (string * gany))
| GOther (type : string) (id : Z).

(** [CloneValue]: the copy is a new object; as a value it is built element by element. *)
Fixpoint CloneValue (v : gany) : gany :=
  match v with
  | GStrs l => GStrs (map id l)
  | GInts l => GInts (map id l)
  | GFloats l => GFloats (map id l)
  | GBools l => GBools (map id l)
  | GAnys l => GAnys (map CloneValue l)
  | GMap m => GMap (map (λ e, (e.1, CloneValue e.2)) m)
  | _ => v
  end.

(** [reflect.TypeOf]; [None] is the nil type. *)
Inductive go_type :=
| TyString | TyBool | TyInt (k : int_kind) | TyFloat32 | TyFloat64 | TyNumber
| TyStrings | TyInts | TyFloats | TyBools | TyAnys | TyMap | TyOther (name : string).
#[export] Instance go_type_eq_dec : EqDecision go_type.
Proof. solve_decision. Defined.
Definition TypeOf (v : gany) : option go_type :=
  match v with
  | GNil => None
  | GStr _ => Some TyString
  | GBool _ => Some TyBool
  | GInt k _ => Some (TyInt k)
  | GFloat32 _ => Some TyFloat32
  | GFloat64 _ => Some TyFloat64
  | GNumber _ => Some TyNumber
  | GStrs _ => Some TyStrings
  | GInts _ => Some TyInts
  | GFloats _ => Some TyFloats
  | GBools _ => Some TyBools
  | GAnys _ => Some TyAnys
  | GMap _ => Some TyMap
  | GOther t _ => Some (TyOther t)
  end.
Definition is_nil (v : gany) : bool := match v with GNil => true | _ => false end.

(** ** Settings *)

(** A [SettingType] is any string; these are the declared ones. *)
Definition Text := "text".
Definition Select := "select".
Definition MultiSelect := "multiselect".
Definition Integer := "integer".
Definition Float := "float".
Definition Toggle := "toggle".

Record SettingFileSelection := mkFileSelection {
  fs_Enabled : bool; AllowFolders : bool; Extensions : list string; Multiple : bool; Relative : bool;
  DefaultPath : string
}.
Record SettingOption := mkOption { op_Label : string; op_Description : string; op_Value : gany }.
Record ValidationResult := mkValidation { Valid : bool; Code : string; Message : string }.
Record Setting := mkSetting {
  set_ID : string; set_Label : string; set_Description : string; set_Type : string;
  set_Value : gany; set_Default : gany; Validator : option (gany → ValidationResult);
  Options : list SettingOption; FileSelection : option SettingFileSelection;
  Sensitive : bool; DevOnly : bool; RequiresRestart : bool; PendingRestart : bool
}.

Definition with_value (s : Setting) (v : gany) : Setting :=
  mkSetting (set_ID s) (set_Label s) (set_Description s) (set_Type s) v (set_Default s) (Validator s)
    (Options s) (FileSelection s) (Sensitive s) (DevOnly s) (RequiresRestart s) (PendingRestart s).

Definition clone_option (o : SettingOption) : SettingOption :=
  mkOption (op_Label o) (op_Description o) (CloneValue (op_Value o)).
Definition clone_files (f : SettingFileSelection) : SettingFileSelection :=
  mkFileSelection (fs_Enabled f) (AllowFolders f) (map id (Extensions f)) (Multiple f) (Relative f) (DefaultPath f).
(** [Setting.clone]. *)
Definition clone (s : Setting) : Setting :=
  mkSetting (set_ID s) (set_Label s) (set_Description s) (set_Type s) (CloneValue (set_Value s))
    (CloneValue (set_Default s)) (Validator s) (map clone_option (Options s)) (clone_files <$> FileSelection s)
    (Sensitive s) (DevOnly s) (RequiresRestart s) (PendingRestart s).

(** ** Normalization *)

Inductive serror :=
| ErrSettingNotFound | ErrSettingTypeMismatch | ErrSettingCategoryNotFound | ErrInvalidSettingID
| ErrText (text : string)
| ErrValidation (err : serror)   (** [*ValidationError] *)
| ErrContext                     (** [ctx.Err()] *)
| ErrPersist (id : Z).           (** whatever the persist callback returned *)
Abbreviation sresult := (res serror).
Definition errText {A} (s : string) : sresult A := Err (ErrText s).

Definition scalarKind (value : gany) (fallback : string) : string :=
  match value with
  | GInt Kint _ => Integer
  | GFloat64 _ => Float
  | GBool _ => Toggle
  | GStr _ => Text
  | _ => if bool_decide (fallback = Select) then Text else fallback
  end.

Definition is_array_schema (schema : gany) : bool :=
  match schema with GStrs _ | GInts _ | GFloats _ | GBools _ | GAnys _ => true | _ => false end.

Definition multiple_files (s : Setting) : bool :=
  match FileSelection s with Some f => Multiple f | None => false end.

Definition normalizationShape (s : Setting) (schema : gany) : string * bool :=
  let kind := set_Type s in
  let array := bool_decide (kind = MultiSelect) || multiple_files s || is_array_schema schema in
  let kind :=
    if bool_decide (kind = "") || bool_decide (kind = Select) || bool_decide (kind = MultiSelect) then
      match schema with GAnys (v :: _) => scalarKind v kind | _ => kind end
    else kind in
  if negb array then (kind, false)
  else
    let kind := match schema with
                | GInts _ => Integer | GFloats _ => Float | GBools _ => Toggle | GStrs _ => Text
                | _ => kind
                end in
    (if bool_decide (kind = MultiSelect) || bool_decide (kind = Select) then Text else kind, true).

Definition int_range (n : Z) : bool := (- 2 ^ 63 <=? n) && (n <? 2 ^ 63).
Definition not_finite (x : float64) : bool := f64_is_nan x || f64_is_inf x.

Definition normalizeFloat (kind : string) (number : float64) : sresult gany :=
  if not_finite number then errText "expected finite number"
  else if bool_decide (kind = Float) then Ok (GFloat64 number)
  else if f64_is_integral number && int_range (f64_to_Z number) then Ok (GInt Kint (f64_to_Z number))
  else errText "expected in-range integer".

Definition normalizeUnsigned (kind : string) (value : Z) : sresult gany :=
  if bool_decide (kind = Float) then Ok (GFloat64 (f64_of_Z value))
  else if max_int64 <? value then errText "integer overflow"
  else Ok (GInt Kint value).

(** The text of a JSON number: sign, integer, fraction and exponent digits. *)
Definition json_number (b : bytes) : option (bool * bytes * bytes * bytes) :=
  let '(neg, b) := match b with "-"%char :: t => (true, t) | _ => (false, b) end in
  '(i, b) ← lex_int_part b; '(f, b) ← lex_frac_part b; '(e, b) ← lex_exp_part b;
  match b with [] => Some (neg, i, drop 1 f, e) | _ => None end.

(** [new(big.Rat).SetString] on it, when the result is an integer: exponents
    beyond [int64], or beyond a million on a nonzero mantissa, are refused. *)
Definition rat_integer (n : bool * bytes * bytes * bytes) : option Z :=
  let '(neg, i, frac, e) := n in
  let m := (if neg then -1 else 1) * digits_number (i ++ frac) in
  let exp := exp_value e - Z.of_nat (length frac) in
  if negb (int_range (exp_value e)) then None
  else if m =? 0 then Some 0
  else if 1000000 <? Z.abs exp then None
  else if 0 <=? exp then Some (m * 10 ^ exp)
  else if m mod 10 ^ (- exp) =? 0 then Some (m / 10 ^ (- exp)) else None.

Definition normalizeJSONNumber (kind : string) (value : string) : sresult gany :=
  match json_number (bytes_of value) with
  | None => errText "invalid number"
  | Some n =>
    if negb (bool_decide (kind = Integer)) then
      match parse_float (bytes_of value) with
      | Some x => normalizeFloat kind x
      | None => errText "invalid number"
      end
    else
      match parse_int64 value with
      | Some i => Ok (GInt Kint i)
      | None =>
        match rat_integer n with
        | Some i => if int_range i then Ok (GInt Kint i) else errText "expected in-range integer"
        | None => errText "expected in-range integer"
        end
      end
  end.

Definition normalizeNumber (kind : string) (value : gany) : sresult gany :=
  match value with
  | GInt Kint n => if bool_decide (kind = Integer) then Ok value else normalizeFloat kind (f64_of_Z n)
  | GInt (Kint8 | Kint16 | Kint32) n => normalizeFloat kind (f64_of_Z n)
  | GInt Kint64 n =>
    if bool_decide (kind = Integer) then Ok (GInt Kint n) else normalizeFloat kind (f64_of_Z n)
  | GInt (Kuint | Kuint8 | Kuint16 | Kuint32 | Kuint64) n => normalizeUnsigned kind n
  | GFloat32 x | GFloat64 x => normalizeFloat kind x
  | GNumber s => normalizeJSONNumber kind s
  | _ => errText "expected number"
  end.

Definition normalizeScalar (kind : string) (value : gany) : sresult gany :=
  if bool_decide (kind = Toggle) then
    match value with GBool _ => Ok value | _ => errText "expected boolean" end
  else if negb (bool_decide (kind = Integer)) && negb (bool_decide (kind = Float)) then
    match value with GStr _ => Ok value | _ => errText "expected string" end
  else normalizeNumber kind value.

(** [normalizeElements[T, U]]: each element normalized, then asserted to be a [U]. *)
Definition normalizeElements {U} (kind : string) (typed : gany → option U) : list gany → sresult (list U) :=
  fix go values :=
    match values with
    | [] => Ok []
    | v :: values =>
      n ← normalizeScalar kind v;
      match typed n with
      | Some u => us ← go values; Ok (u :: us)
      | None => errText "unexpected normalized element type"
      end
    end.
Definition as_int (v : gany) : option Z := match v with GInt Kint n => Some n | _ => None end.
Definition as_float (v : gany) : option float64 := match v with GFloat64 x => Some x | _ => None end.
Definition as_bool (v : gany) : option bool := match v with GBool b => Some b | _ => None end.
Definition as_string (v : gany) : option string := match v with GStr s => Some s | _ => None end.

Definition normalizeArrayElements (kind : string) (values : list gany) : sresult gany :=
  if bool_decide (kind = Integer) then l ← normalizeElements Integer as_int values; Ok (GInts l)
  else if bool_decide (kind = Float) then l ← normalizeElements Float as_float values; Ok (GFloats l)
  else if bool_decide (kind = Toggle) then l ← normalizeElements Toggle as_bool values; Ok (GBools l)
  else l ← normalizeElements Text as_string values; Ok (GStrs l).

(** The elements of a slice value. *)
Definition array_elements (v : gany) : option (list gany) :=
  match v with
  | GAnys l => Some l
  | GStrs l => Some (map GStr l)
  | GInts l => Some (map (GInt Kint) l)
  | GFloats l => Some (map GFloat64 l)
  | GBools l => Some (map GBool l)
  | _ => None
  end.
Definition normalizeArray (kind : string) (value : gany) : sresult gany :=
  let elements :=
    match array_elements value with
    | Some l => normalizeArrayElements kind l
    | None => errText "expected array"
    end in
  match value with
  | GStrs _ => if negb (bool_decide (kind = Integer)) && negb (bool_decide (kind = Float)) && negb (bool_decide (kind = Toggle))
               then Ok (CloneValue value) else elements
  | GInts _ => if bool_decide (kind = Integer) then Ok (CloneValue value) else elements
  | GFloats l => if bool_decide (kind = Float)
                 then if existsb not_finite l then errText "expected finite number" else Ok (CloneValue value)
                 else elements
  | GBools _ => if bool_decide (kind = Toggle) then Ok (CloneValue value) else elements
  | _ => elements
  end.

Definition schema_of (s : Setting) : gany := if is_nil (set_Default s) then set_Value s else set_Default s.

(** The kind a setting's values are normalized to: [None] admits anything, the
    flag tells an array. *)
Definition value_shape (s : Setting) : option (string * bool) :=
  let '(kind, array) := normalizationShape s (schema_of s) in
  if array then Some (kind, true)
  else if bool_decide (kind = Select) || bool_decide (kind = "") then
    let kind := scalarKind (schema_of s) kind in
    if bool_decide (kind = "") then None else Some (kind, false)
  else Some (kind, false).

Definition NormalizeValue (s : Setting) (value : gany) : sresult gany :=
  let '(kind, array) := normalizationShape s (schema_of s) in
  if array then normalizeArray kind value
  else if bool_decide (kind = Select) || bool_decide (kind = "") then
    let kind := scalarKind (schema_of s) kind in
    if bool_decide (kind = "") then Ok (CloneValue value) else normalizeScalar kind value
  else normalizeScalar kind value.

(** ** Validation, reading and writing one setting *)

Definition value_is_valid : ValidationResult := mkValidation true "valid" "Value is valid.".

Definition validationResult (s : Setting) (r : ValidationResult) : ValidationResult :=
  let r := if negb (Valid r) && bool_decide (Message r = "")
           then mkValidation (Valid r) (Code r) "Value did not pass validation." else r in
  if Sensitive s then
    if Valid r then value_is_valid else mkValidation false "invalid" "Value did not pass validation."
  else r.

Definition validateNormalized (s : Setting) (value : gany) : ValidationResult :=
  validationResult s (match Validator s with Some f => f value | None => value_is_valid end).

Definition Validation (s : Setting) (value : gany) : ValidationResult :=
  match NormalizeValue s value with
  | Err _ => validationResult s (mkValidation false "invalid_type" "Value has an invalid type.")
  | Ok n => validateNormalized s n
  end.

(** The error of [Validate]; [None] is nil. *)
Definition Validate (s : Setting) (value : gany) : option serror :=
  let r := Validation s value in if Valid r then None else Some (ErrText (Message r)).

Definition SetValue (s : Setting) (value : gany) : sresult Setting :=
  match NormalizeValue s value with
  | Err _ => errText ("setting type mismatch for setting '" ++ set_ID s ++ "'")
  | Ok n =>
    let r := validateNormalized s (CloneValue n) in
    if Valid r then Ok (with_value s n) else errText (Message r)
  end.

Definition GetValue (s : Setting) : gany :=
  if Sensitive s then GNil else if is_nil (set_Value s) then set_Default s else set_Value s.
Definition ResetValue (s : Setting) : Setting := with_value s (CloneValue (set_Default s)).

(** ** The provider *)

Record Category := mkCategory {
  cg_Settings : gmap string Setting; cg_ID : string; cg_Label : string; cg_Description : string; cg_Icon : string
}.
Definition clone_category (c : Category) : Category :=
  mkCategory (clone <$> cg_Settings c) (cg_ID c) (cg_Label c) (cg_Description c) (cg_Icon c).
Definition with_settings (c : Category) (m : gmap string Setting) : Category :=
  mkCategory m (cg_ID c) (cg_Label c) (cg_Description c) (cg_Icon c).

(** The map a category holds is its own: callers only ever get clones. A nil
    store and an empty one read alike. *)
Definition Store : Type := gmap string Category.
Definition values_of (c : Category) : gmap string gany := set_Value <$> cg_Settings c.

Record provider := mkProvider {
  pluginID : string; store : Store;
  changeHandlers : gmap string (gmap string gany → Store → Store)  (** a handler may mutate the store *)
}.
Definition with_store (p : provider) (s : Store) : provider := mkProvider (pluginID p) s (changeHandlers p).

(** [parseSettingIDLocked] *)
Definition parseSettingID (p : provider) (id : string) : sresult (string * string) :=
  if negb (bool_decide (pluginID p = "")) then Ok ("plugin", id)
  else match strings_split id "."%char with
       | [a; b] => if bool_decide (a = "") || bool_decide (b = "") then Err ErrInvalidSettingID else Ok (a, b)
       | _ => Err ErrInvalidSettingID
       end.

(** [p.store[category].Settings[key]]: a missing category has no settings. *)
Definition lookup_setting (s : Store) (category key : string) : option Setting :=
  c ← s !! category; cg_Settings c !! key.
Definition put_setting (s : Store) (category key : string) (x : Setting) : Store :=
  alter (λ c, with_settings c (<[key := x]> (cg_Settings c))) category s.

Definition getSetting (p : provider) (id : string) : sresult Setting :=
  '(category, key) ← parseSettingID p id;
  match lookup_setting (store p) category key with
  | Some s => Ok (clone s)
  | None => Err ErrSettingNotFound
  end.
Definition GetSettingValue (p : provider) (id : string) : sresult gany :=
  s ← getSetting p id; Ok (set_Value s).
Definition HasSetting (p : provider) (id : string) : bool := is_ok (getSetting p id).

Definition ListSettings (p : provider) : Store := clone_category <$> store p.
Definition getCategory (p : provider) (category : string) : sresult Category :=
  match store p !! category with Some c => Ok (clone_category c) | None => Err ErrSettingCategoryNotFound end.
Definition GetCategoryValues (p : provider) (category : string) : sresult (gmap string gany) :=
  c ← getCategory p category; Ok (values_of c).
Definition GetCategories (p : provider) : list Category :=
  map (λ e, with_settings e.2 ∅) (map_to_list (store p)).
(** [Values], as the association from [category.key]. *)
Definition Values (p : provider) : list (string * gany) :=
  mjoin (map (λ e, map (λ f, ((e.1 ++ "." ++ f.1)%string, CloneValue (set_Value f.2))) (map_to_list (cg_Settings e.2)))
           (map_to_list (store p))).

(** *** Registration *)

Definition registered (existing : option Setting) (s : Setting) : Setting :=
  clone (with_value s match existing with
                      | None => set_Default s
                      | Some e => if negb (bool_decide (set_Type e = set_Type s)) then set_Default s else set_Value e
                      end).
Definition register_into (c : Category) (s : Setting) : Category :=
  with_settings c (<[set_ID s := registered (cg_Settings c !! set_ID s) s]> (cg_Settings c)).
Definition category_or_new (s : Store) (category : string) : Category :=
  default (mkCategory ∅ category "" "" "") (s !! category).
Definition RegisterSetting (p : provider) (category : string) (s : Setting) : provider :=
  with_store p (<[category := register_into (category_or_new (store p) category) s]> (store p)).
Definition RegisterSettings (p : provider) (category : string) (l : list Setting) : provider :=
  with_store p (<[category := foldl register_into (category_or_new (store p) category) l]> (store p)).

(** *** Merging *)

Definition mergeSettingMetadata (current incoming : Setting) : Setting :=
  if negb (bool_decide (set_Type incoming = set_Type current)) then current
  else
    let toCheck := if is_nil (set_Value incoming) then set_Default incoming else set_Value incoming in
    if negb (bool_decide (TypeOf (set_Value current) = TypeOf toCheck)) then current
    else mkSetting (set_ID current) (set_Label incoming) (set_Description incoming) (set_Type current)
           (set_Value current) (CloneValue (set_Default incoming)) (Validator incoming)
           (Options (clone incoming)) (FileSelection current) (Sensitive current) (DevOnly current)
           (RequiresRestart incoming) (PendingRestart current).

Definition with_default (s : Setting) : Setting := clone (with_value s (set_Default s)).

(** A new category is rebuilt under the settings' own IDs, an existing one is
    updated under the incoming keys. [entries] is the map's iteration order. *)
Definition new_settings (entries : list (string * Setting)) : gmap string Setting :=
  foldl (λ m e, <[set_ID e.2 := with_default e.2]> m) ∅ entries.
Definition merge_setting (m : gmap string Setting) (e : string * Setting) : gmap string Setting :=
  <[e.1 := match m !! e.1 with
           | None => with_default e.2
           | Some current => mergeSettingMetadata current e.2
           end]> m.
Definition merge_category (s : Store) (incoming : Category) : Store :=
  let entries := map_to_list (cg_Settings incoming) in
  <[cg_ID incoming :=
      match s !! cg_ID incoming with
      | None => with_settings incoming (new_settings entries)
      | Some c => mkCategory (foldl merge_setting (cg_Settings c) entries) (cg_ID c) (cg_Label incoming)
                    (cg_Description incoming) (cg_Icon incoming)
      end]> s.
Definition mergeSettings (p : provider) (categories : list Category) : provider :=
  with_store p (foldl merge_category (store p) categories).

Definition NewProvider (plugin : string) (categories : list Category) : provider :=
  mergeSettings (mkProvider plugin ∅ ∅) categories.

(** *** Commits *)

Record CommitResult := mkCommit { Committed : bool; Applied : bool; Uncertain : bool }.
Definition not_committed : CommitResult := mkCommit false false false.
Record preparedSetting := mkPrepared {
  pr_id : string; pr_category : string; pr_key : string; pr_setting : Setting
}.

Definition prepare (p : provider) (id : string) : sresult preparedSetting :=
  s ← getSetting p id;
  '(category, key) ← parseSettingID p id;
  Ok (mkPrepared id category key s).
(** [entry.setting.SetValue(values[entry.id])] *)
Definition assign (v : gany) (e : preparedSetting) : sresult preparedSetting :=
  s ← SetValue (pr_setting e) v; Ok (mkPrepared (pr_id e) (pr_category e) (pr_key e) s).
Definition invalidates {A} (r : sresult A) : sresult A :=
  match r with Err e => Err (ErrValidation e) | _ => r end.
Definition collect {A B} (f : A → sresult B) : list A → sresult (list B) :=
  fix go l := match l with [] => Ok [] | a :: l => b ← f a; bs ← go l; Ok (b :: bs) end.

Definition full_key (e : preparedSetting) : string := (pr_category e ++ "." ++ pr_key e)%string.
Definition normalized_changes (entries : list preparedSetting) : gmap string gany :=
  foldl (λ m e, <[full_key e := CloneValue (set_Value (pr_setting e))]> m) ∅ entries.
Definition publish_entries (s : Store) (entries : list preparedSetting) : Store :=
  foldl (λ s e, put_setting s (pr_category e) (pr_key e) (pr_setting e)) s entries.

(** What one [commitSettings] did: the store it left, what it handed to the
    persist callback, and what it returned. *)
Record commit_report := mkReport {
  cm_store : Store; cm_persisted : option (gmap string gany); cm_result : CommitResult;
  cm_changed : gset string; cm_error : option serror
}.
Definition commit_failed (p : provider) (persisted : option (gmap string gany)) (e : serror) : commit_report :=
  mkReport (store p) persisted not_committed ∅ (Some e).

(** [values] in the map's iteration order; [cancelled] is [ctx.Err() != nil]
    after validation; the callback may read the provider. *)
Definition commitSettings (p : provider) (cancelled : bool) (values : list (string * gany))
    (persist : option (provider → gmap string gany → option serror)) : commit_report :=
  match invalidates (collect (λ e, prepare p e.1) values) with
  | Err e => commit_failed p None e
  | Ok entries =>
    match invalidates (collect (λ e, assign e.1 e.2) (zip values.*2 entries)) with
    | Err e => commit_failed p None e
    | Ok entries =>
      let normalized := normalized_changes entries in
      if cancelled then commit_failed p None ErrContext
      else
        match (f ← persist; f p normalized) with
        | Some e => commit_failed p (Some normalized) e
        | None =>
          mkReport (publish_entries (store p) entries)
            (match persist with Some _ => Some normalized | None => None end)
            (mkCommit true true false) (list_to_set (map pr_category entries)) None
        end
    end
  end.

(** *** Change notifications *)

(** One category's handler, on the values current when its turn comes. *)
Definition notify (handlers : gmap string (gmap string gany → Store → Store)) (p : provider) (category : string)
    : provider :=
  match handlers !! category with
  | None => p
  | Some fn =>
    match GetCategoryValues p category with
    | Ok vals => with_store p (fn vals (store p))
    | Err _ => p
    end
  end.
Definition notifyChangeHandlers (p : provider) (changed : list string) : provider :=
  foldl (notify (changeHandlers p)) p changed.
Definition RegisterChangeHandler (p : provider) (category : string) (fn : gmap string gany → Store → Store) : provider :=
  mkProvider (pluginID p) (store p) (<[category := fn]> (changeHandlers p)).

(** [queued] is a context already done when the write lock is asked for. *)
Definition CommitSettings (p : provider) (queued cancelled : bool) (values : list (string * gany))
    (persist : option (provider → gmap string gany → option serror)) : provider * CommitResult * option serror :=
  if queued then (p, not_committed, Some ErrContext)
  else
    let r := commitSettings p cancelled values persist in
    let p := with_store p (cm_store r) in
    (match cm_error r with None => notifyChangeHandlers p (elements (cm_changed r)) | Some _ => p end,
     cm_result r, cm_error r).
Definition SetSettings (p : provider) (values : list (string * gany)) : provider * option serror :=
  let '(p, _, e) := CommitSettings p false false values None in (p, e).
Definition SetSetting (p : provider) (id : string) (value : gany) : provider * option serror :=
  SetSettings p [(id, value)].

Definition ResetSetting (p : provider) (id : string) : provider * option serror :=
  match parseSettingID p id with
  | Err e => (p, Some e)
  | Ok (category, key) =>
    match lookup_setting (store p) category key with
    | None => (p, Some ErrSettingNotFound)
    | Some s =>
      (notifyChangeHandlers (with_store p (put_setting (store p) category key (ResetValue s))) [category], None)
    end
  end.

(** *** Typed accessors *)

Definition typed {A} (types : list string) (read : gany → sresult A) (p : provider) (id : string) : sresult A :=
  s ← getSetting p id;
  if bool_decide (set_Type s ∈ types) then read (set_Value s) else Err ErrSettingTypeMismatch.
Definition or_mismatch {A} (o : option A) : sresult A :=
  match o with Some a => Ok a | None => Err ErrSettingTypeMismatch end.

Definition GetString := typed [Text; Select] (λ v, or_mismatch (as_string v)).
Definition GetInt := typed [Integer] (λ v, or_mismatch (as_int v)).
Definition GetFloat := typed [Float] (λ v, or_mismatch (as_float v)).
Definition GetBool := typed [Toggle] (λ v, or_mismatch (as_bool v)).

Definition string_item (v : gany) : sresult string :=
  match v with GStr s => Ok s | _ => errText "expected []string, but item is not a string" end.
Definition GetStringSlice := typed [Text; MultiSelect] (λ v,
  match v with
  | GStrs l => Ok l
  | GAnys l => collect string_item l
  | _ => errText "expected []string or []interface{}"
  end).

(** [int(item)] of a [uint]: the upper half wraps to the negative integers. *)
Definition wrap_int (n : Z) : Z := if n <? 2 ^ 63 then n else n - 2 ^ 64.
Definition int_item (v : gany) : sresult Z :=
  match v with
  | GInt (Kint | Kint32 | Kint64 | Kuint32) n => Ok n
  | GInt Kuint n => Ok (wrap_int n)
  | GInt Kuint64 n => if max_int64 <? n then Err ErrSettingTypeMismatch else Ok n
  | _ => errText "expected []int, but item is not an int"
  end.
Definition GetIntSlice := typed [Integer] (λ v,
  match v with GInts l => Ok l | GAnys l => collect int_item l | _ => errText "expected []int" end).

Definition float_item (v : gany) : sresult float64 :=
  match v with
  | GFloat64 x | GFloat32 x => Ok x
  | _ => errText "expected []float64, but item is not a float"
  end.
Definition GetFloatSlice := typed [Float] (λ v,
  match v with GFloats l => Ok l | GAnys l => collect float_item l | _ => errText "expected []float64" end).

(** ** Copies are values *)

Section gany_ind.
Context (P : gany → Prop).
Hypothesis Hleaf : ∀ v, (∀ l, v ≠ GAnys l) → (∀ m, v ≠ GMap m) → P v.
Hypothesis Hanys : ∀ l, Forall P l → P (GAnys l).
Hypothesis Hmap : ∀ m, Forall (λ e, P e.2) m → P (GMap m).
Fixpoint gany_nested_ind (v : gany) : P v.
Proof.
  destruct v as [|s|b|k n|x|x|s|l|l|l|l|l|m|t i]; try (by apply Hleaf).
  - apply Hanys. induction l; constructor; auto.
  - apply Hmap. induction m; constructor; auto.
Qed.
End gany_ind.

Lemma CloneValue_id v : CloneValue v = v.
Proof.
  induction v as [v Ha Hm|l IH|m IH] using gany_nested_ind.
  - destruct v; cbn; try done; try (by rewrite list_fmap_id || (f_equal; apply map_id)); [by destruct (Ha l)|by destruct (Hm m)].
  - cbn. f_equal. induction IH as [|v l Hv _ IH]; cbn; by rewrite ?Hv, ?IH.
  - cbn. f_equal. induction IH as [|[k v] m Hv _ IH]; cbn in *; by rewrite ?Hv, ?IH.
Qed.

Lemma clone_id s : clone s = s.
Proof.
  destruct s as [i l d t v df vd os fs se dv rr pr]. unfold clone. cbn. rewrite !CloneValue_id. f_equal.
  - induction os as [|[ol od ov] os IH]; cbn; [done|]. unfold clone_option at 1. cbn. by rewrite CloneValue_id, IH.
  - destruct fs as [[]|]; cbn; [|done]. unfold clone_files. cbn. do 2 f_equal. apply map_id.
Qed.

(** ** Normalization is a projection onto canonical values *)

Definition int_ok (n : Z) : Prop := - 2 ^ 63 ≤ n < 2 ^ 63.
Definition finite (x : float64) : Prop := not_finite x = false.

(** The values of a kind, alone and in an array. *)
Definition canonical_scalar (kind : string) (v : gany) : Prop :=
  if bool_decide (kind = Integer) then ∃ n, v = GInt Kint n ∧ int_ok n
  else if bool_decide (kind = Float) then ∃ x, v = GFloat64 x ∧ finite x
  else if bool_decide (kind = Toggle) then ∃ b, v = GBool b
  else ∃ s, v = GStr s.
Definition canonical_array (kind : string) (v : gany) : Prop :=
  if bool_decide (kind = Integer) then ∃ l, v = GInts l ∧ Forall int_ok l
  else if bool_decide (kind = Float) then ∃ l, v = GFloats l ∧ Forall finite l
  else if bool_decide (kind = Toggle) then ∃ l, v = GBools l
  else ∃ l, v = GStrs l.
Definition canonical (shape : option (string * bool)) (v : gany) : Prop :=
  match shape with
  | None => True
  | Some (kind, true) => canonical_array kind v
  | Some (kind, false) => canonical_scalar kind v
  end.

(** Integers within the width of their type. *)
Definition kind_range (k : int_kind) (n : Z) : Prop :=
  match k with
  | Kint | Kint64 => int_ok n
  | Kint8 => - 2 ^ 7 ≤ n < 2 ^ 7 | Kint16 => - 2 ^ 15 ≤ n < 2 ^ 15 | Kint32 => - 2 ^ 31 ≤ n < 2 ^ 31
  | Kuint | Kuint64 => 0 ≤ n < 2 ^ 64
  | Kuint8 => 0 ≤ n < 2 ^ 8 | Kuint16 => 0 ≤ n < 2 ^ 16 | Kuint32 => 0 ≤ n < 2 ^ 32
  end.
Fixpoint in_width (v : gany) : Prop :=
  match v with
  | GInt k n => kind_range k n
  | GInts l => Forall int_ok l
  | GAnys l => (fix all l := match l with [] => True | v :: l => in_width v ∧ all l end) l
  | _ => True
  end.

Lemma int_range_ok n : int_range n = true ↔ int_ok n.
Proof. unfold int_range, int_ok. rewrite andb_true_iff, Z.leb_le, Z.ltb_lt. done. Qed.

Lemma in_width_anys l : in_width (GAnys l) ↔ Forall in_width l.
Proof. induction l as [|v l IH]; cbn; [done|]. rewrite Forall_cons, <- IH. done. Qed.

(** A kind is one of the three with their own checks, or text. *)
Lemma kind_cases k : k = Integer ∨ k = Float ∨ k = Toggle ∨ (k ≠ Integer ∧ k ≠ Float ∧ k ≠ Toggle).
Proof. destruct (decide (k = Integer)), (decide (k = Float)), (decide (k = Toggle)); auto 10. Qed.

Lemma canonical_text k v : k ≠ Integer → k ≠ Float → k ≠ Toggle → canonical_scalar k v ↔ ∃ s, v = GStr s.
Proof. intros. unfold canonical_scalar. by rewrite !bool_decide_eq_false_2. Qed.
Lemma canonical_text_array k v : k ≠ Integer → k ≠ Float → k ≠ Toggle → canonical_array k v ↔ ∃ l, v = GStrs l.
Proof. intros. unfold canonical_array. by rewrite !bool_decide_eq_false_2. Qed.

Lemma normalizeFloat_integer x w : normalizeFloat Integer x = Ok w →
  ∃ n, w = GInt Kint n ∧ int_ok n ∧ f64_is_integral x = true ∧ finite x ∧ n = f64_to_Z x.
Proof.
  unfold normalizeFloat, finite. destruct (not_finite x) eqn:Hf; [done|]. cbn.
  destruct (f64_is_integral x && int_range (f64_to_Z x)) eqn:E; [|done]. intros [= <-].
  apply andb_true_iff in E as [? E%int_range_ok]. eauto 10.
Qed.
Lemma normalizeFloat_float x w : normalizeFloat Float x = Ok w → w = GFloat64 x ∧ finite x.
Proof. unfold normalizeFloat, finite. destruct (not_finite x) eqn:Hf; [done|]. cbn. by intros [= <-]. Qed.

Lemma f64_of_int_finite n : - 2 ^ 64 ≤ n ≤ 2 ^ 64 → finite (f64_of_Z n).
Proof. apply f64_of_Z_finite. Qed.

Lemma kind_range_finite k n : kind_range k n → - 2 ^ 64 ≤ n ≤ 2 ^ 64.
Proof. destruct k; cbn; unfold int_ok; lia. Qed.

Lemma bounded_digits ds m (f : Z → Z) n :
  (d ← digits_value ds; if d <=? m then Some (f d) else None) = Some n → ∃ d, 0 ≤ d ≤ m ∧ n = f d.
Proof.
  destruct (digits_value ds) as [d|] eqn:E; [|done]. cbn. destruct (Z.leb_spec d m); [|done]. intros [= <-].
  apply digits_value_nonneg in E. eauto.
Qed.
Lemma parse_int64_range s n : parse_int64 s = Some n → int_ok n.
Proof.
  unfold parse_int64, int_ok. intros Hp.
  assert (∃ d, 0 ≤ d ≤ max_int64 + 1 ∧ (n = - d ∨ n = d ∧ d ≤ max_int64)) as (d & Hd & Hn).
  { repeat case_match; first [apply (bounded_digits _ _ Z.opp) in Hp|apply (bounded_digits _ _ id) in Hp];
      destruct Hp as (d & ? & ->); exists d; unfold id in *; (split; [lia|]); first [left; reflexivity|right; split; [reflexivity|lia]]. }
  unfold max_int64 in *. lia.
Qed.

Lemma normalizeJSONNumber_canonical k s w : k = Integer ∨ k = Float →
  normalizeJSONNumber k s = Ok w → canonical_scalar k w.
Proof.
  unfold normalizeJSONNumber. destruct (json_number (bytes_of s)) as [n|]; [|done]. intros [-> | ->]; cbn.
  - destruct (parse_int64 s) as [i|] eqn:E; [intros [= <-]; eexists; split; [done|by eapply parse_int64_range]|].
    destruct (rat_integer n) as [i|]; [|done]. destruct (int_range i) eqn:Ei; [|done]. intros [= <-].
    eexists; split; [done|by apply int_range_ok].
  - destruct (parse_float (bytes_of s)) as [x|]; [|done]. intros [-> Hf]%normalizeFloat_float. by eexists.
Qed.

Lemma normalizeNumber_canonical k v w : k = Integer ∨ k = Float → in_width v →
  normalizeNumber k v = Ok w → canonical_scalar k w.
Proof.
  intros Hk Hv. assert (∀ x, normalizeFloat k x = Ok w → canonical_scalar k w) as Hf.
  { intros x Hx. destruct Hk as [-> | ->].
    - apply normalizeFloat_integer in Hx as (n & -> & ? & _). by eexists.
    - apply normalizeFloat_float in Hx as [-> ?]. by eexists. }
  assert (∀ n, 0 ≤ n < 2 ^ 64 → normalizeUnsigned k n = Ok w → canonical_scalar k w) as Hu.
  { intros n Hn. unfold normalizeUnsigned. destruct Hk as [-> | ->]; cbn.
    - destruct (Z.ltb_spec max_int64 n); [done|]. intros [= <-].
      eexists; split; [done|]. unfold max_int64, int_ok in *. lia.
    - intros [= <-]. eexists; split; [done|]. apply f64_of_int_finite. lia. }
  destruct v as [| | |i n|x|x|s| | | | | | |]; cbn [normalizeNumber]; try done; try apply Hf.
  - destruct i; cbn in Hv; try apply Hf; try (apply Hu; lia);
      (case_bool_decide as He; [|apply Hf]); intros [= <-]; rewrite He; eexists; split; done.
  - by apply normalizeJSONNumber_canonical.
Qed.

Lemma normalizeScalar_canonical k v w : in_width v → normalizeScalar k v = Ok w → canonical_scalar k w.
Proof.
  intros Hv. unfold normalizeScalar. destruct (kind_cases k) as [->|[->|[->|(Hi & Hf & Ht)]]]; cbn.
  - apply normalizeNumber_canonical; auto.
  - apply normalizeNumber_canonical; auto.
  - destruct v; try done. intros [= <-]. by eexists.
  - rewrite canonical_text by done. rewrite !bool_decide_eq_false_2 by done. cbn.
    destruct v; try done. intros [= <-]. by eexists.
Qed.

(** Decides the comparisons of constant kinds. *)
Ltac decide_kinds :=
  repeat match goal with
  | |- context [bool_decide (?a = ?b)] =>
    lazymatch eval vm_compute in (bool_decide (a = b)) with
    | true => change (bool_decide (a = b)) with true
    | false => change (bool_decide (a = b)) with false
    end
  end; cbn iota.

Lemma normalizeElements_ok {U} k (typed : gany → option U) l : ∀ us,
  normalizeElements k typed l = Ok us ↔
  Forall2 (λ v u, ∃ w, normalizeScalar k v = Ok w ∧ typed w = Some u) l us.
Proof.
  induction l as [|v l IH]; intros us; cbn [normalizeElements].
  - split; [by intros [= <-]|]. by intros ->%Forall2_nil_inv_l.
  - destruct (normalizeScalar k v) as [w|e] eqn:Ew; cbn [mbind res_bind].
    + destruct (typed w) as [u|] eqn:Eu.
      * split.
        -- intros H. bind_inv H. injection H as <-. constructor; [eauto|]. by apply IH.
        -- intros H. inversion H as [|? u' ? us' (w' & Hw & Hu) Hl]; subst.
           apply IH in Hl. rewrite Hl. cbn. rewrite Ew in Hw. injection Hw as <-. congruence.
      * split; [done|]. intros H. inversion H as [|? u' ? us' (w' & Hw & Hu) Hl]; subst. congruence.
    + split; [done|]. intros H. inversion H as [|? u' ? us' (w' & Hw & Hu) Hl]; subst. congruence.
Qed.

(** The typed elements of an array are canonical scalars. *)
Lemma normalizeElements_canonical {U} k (typed : gany → option U) (Q : U → Prop) l us :
  Forall in_width l → (∀ w u, canonical_scalar k w → typed w = Some u → Q u) →
  normalizeElements k typed l = Ok us → Forall Q us.
Proof.
  intros Hl HQ H%normalizeElements_ok. induction H as [|v u l us (w & Hw & Hu) _ IH]; [constructor|].
  inversion Hl; subst. constructor; [|by apply IH]. eapply HQ; [|exact Hu]. by eapply normalizeScalar_canonical.
Qed.

Lemma normalizeArrayElements_canonical k l w : Forall in_width l → normalizeArrayElements k l = Ok w → canonical_array k w.
Proof.
  intros Hl. unfold normalizeArrayElements. destruct (kind_cases k) as [->|[->|[->|(Hi & Hf & Ht)]]].
  - decide_kinds. destruct (normalizeElements _ _ l) as [us|] eqn:Hm; [|by intros [=]]. intros [= <-]. eexists; split; [done|].
    eapply normalizeElements_canonical; [exact Hl| |done]. intros v u (n & -> & ?) [= <-]. done.
  - decide_kinds. destruct (normalizeElements _ _ l) as [us|] eqn:Hm; [|by intros [=]]. intros [= <-]. eexists; split; [done|].
    eapply normalizeElements_canonical; [exact Hl| |done]. intros v u (n & -> & ?) [= <-]. done.
  - decide_kinds. destruct (normalizeElements _ _ l) as [us|] eqn:Hm; [|by intros [=]]. intros [= <-]. by eexists.
  - rewrite !bool_decide_eq_false_2, canonical_text_array by done.
    destruct (normalizeElements _ _ l) as [us|] eqn:Hm; [|by intros [=]]. intros [= <-]. by eexists.
Qed.

Lemma array_elements_width v l : in_width v → array_elements v = Some l → Forall in_width l.
Proof.
  destruct v as [| | | | | | |l'|l'|l'|l'|l'| |]; cbn [array_elements]; try done.
  1: intros _. 3: intros _. 4: intros _.
  - intros [= <-]. apply Forall_forall. intros x (y & -> & _)%list_elem_of_fmap. done.
  - intros Hv [= <-]. apply Forall_fmap. exact Hv.
  - intros [= <-]. apply Forall_forall. intros x (y & -> & _)%list_elem_of_fmap. done.
  - intros [= <-]. apply Forall_forall. intros x (y & -> & _)%list_elem_of_fmap. done.
  - intros Hv [= <-]. by apply in_width_anys.
Qed.

Lemma finite_all l : existsb not_finite l = false ↔ Forall finite l.
Proof.
  induction l as [|x l IH]; cbn; [done|]. rewrite orb_false_iff, Forall_cons, IH. done.
Qed.

Lemma normalizeArray_canonical k v w : in_width v → normalizeArray k v = Ok w → canonical_array k w.
Proof.
  intros Hv. set (elements := match array_elements v with
                              | Some l => normalizeArrayElements k l
                              | None => errText "expected array"
                              end).
  assert (elements = Ok w → canonical_array k w) as He.
  { unfold elements. destruct (array_elements v) as [l|] eqn:E; [|done].
    apply normalizeArrayElements_canonical. by eapply array_elements_width. }
  unfold normalizeArray. fold elements. destruct v as [| | | | | | |l|l|l|l| | |]; try exact He.
  - destruct (kind_cases k) as [->|[->|[->|(Hi & Hf & Ht)]]]; try exact He.
    rewrite !bool_decide_eq_false_2, canonical_text_array, CloneValue_id by done. cbn. intros [= <-]. by eexists.
  - case_bool_decide as Hk; [|exact He]. rewrite CloneValue_id, Hk. intros [= <-]. by eexists.
  - case_bool_decide as Hk; [|exact He]. destruct (existsb not_finite l) eqn:E; [done|].
    rewrite CloneValue_id, Hk. intros [= <-]. eexists; split; [done|]. by apply finite_all.
  - case_bool_decide as Hk; [|exact He]. rewrite CloneValue_id, Hk. intros [= <-]. by eexists.
Qed.

(** Canonical values are left alone. *)
Lemma normalizeScalar_fixed k v : canonical_scalar k v → normalizeScalar k v = Ok v.
Proof.
  destruct (kind_cases k) as [->|[->|[->|(Hi & Hf & Ht)]]].
  - by intros (n & -> & _).
  - intros (x & -> & Hx). unfold normalizeScalar, normalizeNumber, normalizeFloat. decide_kinds. by rewrite Hx.
  - by intros (b & ->).
  - rewrite canonical_text by done. intros (s & ->). unfold normalizeScalar. by rewrite !bool_decide_eq_false_2.
Qed.
Lemma normalizeArray_fixed k v : canonical_array k v → normalizeArray k v = Ok v.
Proof.
  destruct (kind_cases k) as [->|[->|[->|(Hi & Hf & Ht)]]].
  - intros (l & -> & _). cbn. by rewrite map_id.
  - intros (l & -> & Hl%finite_all). cbn. by rewrite Hl, map_id.
  - intros (l & ->). cbn. by rewrite map_id.
  - rewrite canonical_text_array by done. intros (l & ->). unfold normalizeArray. rewrite !bool_decide_eq_false_2 by done.
    cbn. by rewrite map_id.
Qed.

Lemma NormalizeValue_shape s v :
  NormalizeValue s v = match value_shape s with
                       | None => Ok v
                       | Some (k, true) => normalizeArray k v
                       | Some (k, false) => normalizeScalar k v
                       end.
Proof.
  unfold NormalizeValue, value_shape. destruct (normalizationShape s (schema_of s)) as [k []]; [done|].
  rewrite CloneValue_id. destruct (bool_decide (k = Select) || bool_decide (k = "")); [|done].
  by case_bool_decide.
Qed.

(** C40: Normalization is a projection onto the values of the setting's type: what it
    returns is a canonical value of the setting's kind (a 64-bit [int], a finite
    [float64], a [bool] or a [string], or a slice of these), normalizing again
    returns the same value, and every canonical value is accepted unchanged. *)
Theorem NormalizeValue_canonical s v : in_width v →
  (∀ w, NormalizeValue s v = Ok w → canonical (value_shape s) w ∧ NormalizeValue s w = Ok w)
  ∧ (canonical (value_shape s) v → NormalizeValue s v = Ok v).
Proof.
  intros Hv. rewrite (NormalizeValue_shape s v). unfold canonical.
  assert (∀ w, canonical (value_shape s) w → NormalizeValue s w = Ok w) as Hfix.
  { intros w. rewrite NormalizeValue_shape. unfold canonical.
    destruct (value_shape s) as [[k []]|]; [apply normalizeArray_fixed|apply normalizeScalar_fixed|done]. }
  split; [|rewrite <- NormalizeValue_shape; apply Hfix].
  intros w Hw. assert (canonical (value_shape s) w) as Hc; [|split; [exact Hc|by apply Hfix]].
  unfold canonical. destruct (value_shape s) as [[k []]|];
    [by eapply normalizeArray_canonical|by eapply normalizeScalar_canonical|done].
Qed.

(** ** Numbers are converted exactly or refused *)

(** The integer a numeric value denotes, if it denotes one: floats and JSON
    numbers count when their exact value is whole. *)
Definition denotes_int (v : gany) (n : Z) : Prop :=
  match v with
  | GInt _ m => m = n
  | GFloat32 x | GFloat64 x => finite x ∧ f64_is_integral x = true ∧ f64_to_Z x = n
  | GNumber s =>
    ∃ neg i frac e, json_number (bytes_of s) = Some (neg, i, frac, e)
    ∧ let m := (if neg : bool then -1 else 1) * digits_number (i ++ frac) in
      let exp := exp_value e - Z.of_nat (length frac) in
      (0 ≤ exp ∧ n = m * 10 ^ exp) ∨ (exp < 0 ∧ m = n * 10 ^ (- exp))
  | _ => False
  end.

(** The limit [big.Rat] puts on exponents. *)
Definition modest (v : gany) : Prop :=
  match v with
  | GNumber s => ∀ neg i frac e, json_number (bytes_of s) = Some (neg, i, frac, e) →
      int_ok (exp_value e) ∧ Z.abs (exp_value e - Z.of_nat (length frac)) ≤ 1000000
  | _ => True
  end.

Lemma span_all_digits b : forallb is_digit b = true → span_digit_bytes b = (b, []).
Proof. induction b as [|c b IH]; cbn; [done|]. intros [Hc Hb]%andb_true_iff. rewrite Hc, IH by done. done. Qed.
Lemma digit_not_special c : is_digit c = true → c ≠ "."%char ∧ is_exp c = false.
Proof. destruct c as [[] [] [] [] [] [] [] []]; done. Qed.
Lemma frac_part_digits b : forallb is_digit b = true → lex_frac_part b = Some ([], b).
Proof.
  destruct b as [|c b]; [done|]. cbn [forallb]. intros [[Hc _]%digit_not_special _]%andb_true_iff.
  unfold lex_frac_part. by repeat case_match.
Qed.
Lemma exp_part_digits b : forallb is_digit b = true → lex_exp_part b = Some ([], b).
Proof.
  destruct b as [|c b]; [done|]. cbn [forallb]. intros [[_ Hc]%digit_not_special _]%andb_true_iff.
  unfold lex_exp_part. by rewrite Hc.
Qed.

(** An all-digit text is a JSON number only as its own integer part. *)
Lemma json_digits b i r f r' e : forallb is_digit b = true →
  lex_int_part b = Some (i, r) → lex_frac_part r = Some (f, r') → lex_exp_part r' = Some (e, []) →
  i = b ∧ f = [] ∧ e = [].
Proof.
  intros Hb Hi Hf He.
  assert (i = b ∧ r = [] ∨ forallb is_digit r = true ∧ r ≠ []) as [[-> ->]|[Hr Hn]].
  { unfold lex_int_part, lex_digits1 in Hi. destruct b as [|c b]; [done|].
    assert (forallb is_digit b = true) as Hb' by (cbn in Hb; apply andb_true_iff in Hb; tauto).
    destruct (decide (c = "0"%char)) as [->|Hc].
    - injection Hi as <- <-. destruct b; [left|right]; done.
    - assert ((let '(ds, r) := span_digit_bytes (c :: b) in match ds with [] => None | _ => Some (ds, r) end) = Some (i, r)) as Hd.
      { rewrite <- Hi. repeat case_match; congruence. }
      rewrite (span_all_digits (c :: b)) in Hd by done. injection Hd as <- <-. by left. }
  - injection Hf as <- <-. injection He as <-. done.
  - rewrite frac_part_digits in Hf by done. injection Hf as <- <-.
    rewrite exp_part_digits in He by done. injection He as <- ->. done.
Qed.

Lemma digits_value_some b n : digits_value b = Some n → forallb is_digit b = true ∧ n = digits_number b.
Proof. unfold digits_value. case_match; [|done]. intros [= <-]. by propify. Qed.

Lemma lex_int_part_sign b i r : lex_int_part b = Some (i, r) → head b ≠ Some "-"%char ∧ head b ≠ Some "+"%char.
Proof.
  destruct b as [|c b]; [done|]. intros H.
  split; intros [= ->]; cbn in H; done.
Qed.

Lemma json_parse_int s k neg i frac e : json_number (bytes_of s) = Some (neg, i, frac, e) → parse_int64 s = Some k →
  frac = [] ∧ e = [] ∧ k = (if neg then -1 else 1) * digits_number i.
Proof.
  unfold json_number, parse_int64. intros Hj Hp.
  assert (∃ t, (neg, t) = match bytes_of s with "-"%char :: t => (true, t) | _ => (false, bytes_of s) end
     ∧ (d ← digits_value t; if d <=? max_int64 + (if neg then 1 else 0) then Some ((if neg then -1 else 1) * d) else None) = Some k
     ∧ ∃ r f r', lex_int_part t = Some (i, r) ∧ lex_frac_part r = Some (f, r') ∧ frac = drop 1 f ∧ lex_exp_part r' = Some (e, []))
    as (t & _ & Hd & r & f & r' & Hi & Hf & -> & He).
  { set (b := bytes_of s) in *.
    assert (∀ t neg', (neg', t) = match b with "-"%char :: t => (true, t) | _ => (false, b) end →
      neg' = neg ∧ ∃ r f r', lex_int_part t = Some (i, r) ∧ lex_frac_part r = Some (f, r') ∧ frac = drop 1 f
                            ∧ lex_exp_part r' = Some (e, [])) as Hparts.
    { intros t neg' Ht. rewrite <- Ht in Hj.
      destruct (lex_int_part t) as [[i0 r]|] eqn:E1; [|done]. cbn in Hj.
      destruct (lex_frac_part r) as [[f r']|] eqn:E2; [|done]. cbn in Hj.
      destruct (lex_exp_part r') as [[e0 [|]]|] eqn:E3; [|done..]. cbn in Hj. injection Hj as -> -> <- ->. eauto 10. }
    assert (head b = Some "-"%char ∨ head b ≠ Some "-"%char) as [Hh|Hh]
      by (destruct b as [|c ?]; [by right|destruct (decide (c = "-"%char)) as [->|]; [by left|right; by intros [= ->]]]).
    - destruct b as [|c t]; [done|]. injection Hh as ->. destruct (Hparts t true eq_refl) as [<- Hx].
      exists t. split; [done|]. split; [|exact Hx]. destruct (digits_value t) as [d|]; [|done]. cbn in *.
      by destruct (d <=? max_int64 + 1).
    - assert ((false, b) = match b with "-"%char :: t => (true, t) | _ => (false, b) end) as Hb.
      { repeat case_match; simplify_eq; done. }
      destruct (Hparts b false Hb) as [<- Hx]. exists b. split; [done|]. split; [|exact Hx].
      destruct Hx as (r & f & r' & Hi & _). apply lex_int_part_sign in Hi as [_ Hplus].
      assert ((d ← digits_value b; if d <=? max_int64 then Some d else None) = Some k) as Hk.
      { rewrite <- Hp. repeat case_match; simplify_eq; try done. }
      destruct (digits_value b) as [d|]; [|done]. cbn in *. rewrite Z.add_0_r.
      destruct (d <=? max_int64); [|done]. rewrite <- Hk. f_equal. lia. }
  destruct (digits_value t) as [d|] eqn:Ed; [|done]. apply digits_value_some in Ed as [Ht ->]. cbn in Hd.
  destruct (json_digits t i r f r' e Ht Hi Hf He) as (-> & -> & ->). split; [done|]. split; [done|].
  by case_match; simplify_eq.
Qed.

Lemma rat_integer_ok neg i frac e n :
  int_ok (exp_value e) → Z.abs (exp_value e - Z.of_nat (length frac)) ≤ 1000000 →
  rat_integer (neg, i, frac, e) = Some n ↔
  let m := (if neg then -1 else 1) * digits_number (i ++ frac) in
  let exp := exp_value e - Z.of_nat (length frac) in
  (0 ≤ exp ∧ n = m * 10 ^ exp) ∨ (exp < 0 ∧ m = n * 10 ^ (- exp)).
Proof.
  intros He%int_range_ok Hx. unfold rat_integer. cbv zeta. rewrite He. cbn [negb].
  set (m := _ * digits_number (i ++ frac)). set (x := exp_value e - _) in *.
  rewrite (proj2 (Z.ltb_ge 1000000 (Z.abs x)) Hx). destruct (Z.eqb_spec m 0) as [->|Hm].
  - split; [intros [= <-]; lia|]. intros [[_ ->]|[Hn H]]; [done|].
    assert (10 ^ (- x) ≠ 0) by (apply Z.pow_nonzero; lia). f_equal. nia.
  - destruct (Z.leb_spec 0 x) as [Hp|Hp]; [split; [intros [= <-]; by left|intros [[_ ->]|[? _]]; [done|lia]]|].
    pose proof (Z.pow_pos_nonneg 10 (- x) ltac:(lia) ltac:(lia)).
    destruct (Z.eqb_spec (m mod 10 ^ (- x)) 0) as [Hd|Hd].
    + split.
      * intros [= <-]. right. split; [done|]. rewrite Z.mul_comm. by apply Z.div_exact; [lia|].
      * intros [[? _]|[_ ->]]; [lia|]. by rewrite Z.div_mul by lia.
    + split; [done|]. intros [[? _]|[_ ->]]; [lia|]. by rewrite Z.mod_mul in Hd by lia.
Qed.

(** An integer setting takes a number exactly or not at all: whatever the
    source type (any sized or unsigned integer, a float, or a JSON number in
    whatever notation), it is stored as [n] if and only if its exact value is
    the whole number [n] and [n] fits in 64 bits; nothing is rounded, truncated
    or wrapped. Exponents are limited to those [big.Rat] computes with. *)
Theorem normalizeNumber_exact v n : in_width v → modest v →
  normalizeNumber Integer v = Ok (GInt Kint n) ↔ int_ok n ∧ denotes_int v n.
Proof.
  intros Hv Hm.
  assert (∀ x, normalizeFloat Integer x = Ok (GInt Kint n) ↔
    int_ok n ∧ finite x ∧ f64_is_integral x = true ∧ f64_to_Z x = n) as Hf.
  { intros x. split.
    - intros (k & [= <-] & ? & ? & ? & ->)%normalizeFloat_integer. done.
    - intros (Hn%int_range_ok & Hx & Hi & <-). unfold normalizeFloat. rewrite Hx. decide_kinds. by rewrite Hi, Hn. }
  assert (∀ k m, in_width (GInt k m) → normalizeNumber Integer (GInt k m) = Ok (GInt Kint n) ↔ int_ok n ∧ m = n) as Hi.
  { intros k m Hk. cbn in Hk.
    assert (- 2 ^ 53 < m < 2 ^ 53 → normalizeFloat Integer (f64_of_Z m) = Ok (GInt Kint n) ↔ int_ok n ∧ m = n) as Hsmall.
    { intros Hs. rewrite Hf. destruct (f64_of_Z_exact m Hs) as [H1 H2].
      pose proof (f64_of_int_finite m ltac:(lia)). rewrite H1, H2. naive_solver. }
    assert (0 ≤ m → normalizeUnsigned Integer m = Ok (GInt Kint n) ↔ int_ok n ∧ m = n) as Hu.
    { intros Hp. unfold normalizeUnsigned. decide_kinds. unfold int_ok, max_int64.
      destruct (Z.ltb_spec 9223372036854775807 m); split; try done; [lia|intros [= ->]; lia|by intros [_ ->]]. }
    destruct k; cbn [normalizeNumber]; decide_kinds; cbn in Hk; try (apply Hsmall; lia); try (apply Hu; lia);
      (split; [by intros [= ->]|by intros [_ ->]]). }
  destruct v as [| | |k m|x|x|s| | | | | | |]; cbn [normalizeNumber denotes_int]; try (split; [done|by intros [_ []]]).
  - by apply Hi.
  - apply Hf.
  - apply Hf.
  - unfold normalizeJSONNumber. destruct (json_number (bytes_of s)) as [[[[neg i] frac] e]|] eqn:Ej.
    2:{ split; [done|]. by intros (_ & ? & ? & ? & ? & ? & _). }
    decide_kinds. cbn [negb]. destruct (Hm neg i frac e Ej) as [He Hx].
    assert ((∃ neg0 i0 frac0 e0, Some (neg, i, frac, e) = Some (neg0, i0, frac0, e0)
      ∧ (let m := (if neg0 : bool then -1 else 1) * digits_number (i0 ++ frac0) in
         let exp := exp_value e0 - Z.of_nat (length frac0) in
         (0 ≤ exp ∧ n = m * 10 ^ exp) ∨ (exp < 0 ∧ m = n * 10 ^ (- exp))))
      ↔ rat_integer (neg, i, frac, e) = Some n) as ->.
    { rewrite rat_integer_ok by done. split; [by intros (? & ? & ? & ? & [= <- <- <- <-] & ?)|eauto 10]. }
    destruct (parse_int64 s) as [k|] eqn:Ep.
    + pose proof (parse_int64_range s k Ep). destruct (json_parse_int s k neg i frac e Ej Ep) as (-> & -> & Hk).
      rewrite rat_integer_ok by done. cbn [exp_value length Z.of_nat]. rewrite app_nil_r, <- Hk. cbn [Z.sub Z.opp Z.add].
      split; [intros [= <-]; split; [done|left; lia]|]. intros [_ [[_ ->]|[? _]]]; [|lia]. do 2 f_equal. lia.
    + destruct (rat_integer (neg, i, frac, e)) as [z|]; [|naive_solver].
      destruct (int_range z) eqn:Ez.
      * apply int_range_ok in Ez. naive_solver.
      * split; [done|]. intros [Hn [= ->]]. apply int_range_ok in Hn. congruence.
Qed.

(** ** Commits are atomic *)

Lemma collect_ok {A B} (f : A → sresult B) l : ∀ bs,
  collect f l = Ok bs ↔ Forall2 (λ a b, f a = Ok b) l bs.
Proof.
  induction l as [|a l IH]; intros bs; cbn [collect].
  - split; [by intros [= <-]|]. by intros ->%Forall2_nil_inv_l.
  - rewrite bind_ok_iff. setoid_rewrite bind_ok_iff. setoid_rewrite IH. split.
    + intros (b & Hb & bs' & Hl & [= <-]). by constructor.
    + intros H. inversion H as [|? b ? bs' Hb Hl]; subst. eauto 10.
Qed.

(** The setting an ID names, and where it is stored. *)
Definition addressed (p : provider) (id category key : string) (s : Setting) : Prop :=
  parseSettingID p id = Ok (category, key) ∧ lookup_setting (store p) category key = Some s.

Lemma getSetting_ok p id s : getSetting p id = Ok s ↔ ∃ c k, addressed p id c k s.
Proof.
  unfold getSetting, addressed. rewrite bind_ok_iff. split.
  - intros ([c k] & Hp & H). destruct (lookup_setting (store p) c k) as [s'|] eqn:E; [|done].
    rewrite clone_id in H. injection H as ->. eauto.
  - intros (c & k & Hp & Hs). exists (c, k). split; [done|]. by rewrite Hs, clone_id.
Qed.

Lemma prepare_ok p id e : prepare p id = Ok e ↔
  ∃ c k s, addressed p id c k s ∧ e = mkPrepared id c k s.
Proof.
  unfold prepare. rewrite bind_ok_iff. setoid_rewrite getSetting_ok. setoid_rewrite bind_ok_iff. split.
  - intros (s & (c & k & Ha) & [c' k'] & Hp & [= <-]). destruct Ha as [Hp' Hs]. rewrite Hp in Hp'. injection Hp' as -> ->.
    by exists c, k, s.
  - intros (c & k & s & Ha & ->). exists s. split; [eauto|]. exists (c, k). split; [by destruct Ha|done].
Qed.

Lemma SetValue_ok s v s' : SetValue s v = Ok s' ↔
  ∃ w, NormalizeValue s v = Ok w ∧ Valid (validateNormalized s w) = true ∧ s' = with_value s w.
Proof.
  unfold SetValue. destruct (NormalizeValue s v) as [w|e]; [|split; [done|by intros (? & ? & _)]].
  rewrite CloneValue_id. destruct (Valid (validateNormalized s w)) eqn:E.
  - split; [intros [= <-]; eauto|by intros (? & [= <-] & _ & ->)].
  - split; [done|]. intros (? & [= <-] & ? & _). congruence.
Qed.

(** One change of a commit: where it goes and what is stored. *)
Definition change_of (p : provider) (v : string * gany) (e : preparedSetting) : Prop :=
  ∃ s w, addressed p v.1 (pr_category e) (pr_key e) s ∧ pr_id e = v.1
  ∧ NormalizeValue s v.2 = Ok w ∧ Valid (validateNormalized s w) = true ∧ pr_setting e = with_value s w.

Lemma prepared_ok p values entries0 entries :
  collect (λ e, prepare p e.1) values = Ok entries0 → collect (λ e, assign e.1 e.2) (zip values.*2 entries0) = Ok entries →
  Forall2 (change_of p) values entries.
Proof.
  rewrite !collect_ok. intros H. revert entries. induction H as [|v e values entries0 Hv _ IH]; intros entries H2; cbn in H2.
  - by apply Forall2_nil_inv_l in H2 as ->.
  - inversion H2 as [|? e' ? es' Ha Hl]; subst. constructor; [|by apply IH].
    apply prepare_ok in Hv as (c & k & s & Had & ->). unfold assign in Ha. cbn in Ha.
    apply bind_ok in Ha as (s' & (w & Hn & Hv & ->)%SetValue_ok & [= <-]). exists s, w. done.
Qed.

(** Two IDs never name the same place. *)
Lemma split_go_length sep b : ∀ cur, length (split_go sep cur b) ≠ 0%nat.
Proof. induction b as [|c b IH]; intros cur; cbn [split_go]; [done|]. case_match; [done|apply IH]. Qed.

Fixpoint join_dots (l : list string) : bytes :=
  match l with
  | [] => []
  | [x] => bytes_of x
  | x :: l => bytes_of x ++ "."%char :: join_dots l
  end.
Lemma join_cons x l : l ≠ [] → join_dots (x :: l) = bytes_of x ++ "."%char :: join_dots l.
Proof. by destruct l. Qed.
Lemma join_split b : ∀ cur, join_dots (split_go "."%char cur b) = rev cur ++ b.
Proof.
  induction b as [|c b IH]; intros cur; cbn [split_go].
  - cbn. by rewrite bytes_of_string_of, app_nil_r.
  - destruct (Ascii.eqb_spec c ".") as [->|Hc].
    + rewrite join_cons by (intros E; by apply (f_equal length), split_go_length in E).
      by rewrite IH, bytes_of_string_of.
    + rewrite IH. cbn. by rewrite <- app_assoc.
Qed.

Lemma parseSettingID_inj p id id' c k :
  parseSettingID p id = Ok (c, k) → parseSettingID p id' = Ok (c, k) → id = id'.
Proof.
  unfold parseSettingID. destruct (bool_decide (pluginID p = "")) eqn:E; cbn; [|by intros [= _ ->] [= _ ->]].
  assert (∀ i, match strings_split i "."%char with
       | [a; b] => if bool_decide (a = "") || bool_decide (b = "") then Err ErrInvalidSettingID else Ok (a, b)
       | _ => Err ErrInvalidSettingID
       end = Ok (c, k) → bytes_of i = join_dots [c; k]) as Hj.
  { intros i Hi. pose proof (join_split (bytes_of i) []) as Hs. unfold strings_split in Hi.
    destruct (split_go "." [] (bytes_of i)) as [|a [|b [|]]]; try done.
    destruct (bool_decide (a = "") || bool_decide (b = "")); [done|]. by injection Hi as -> ->. }
  intros H1 H2. apply bytes_of_inj. by rewrite (Hj id H1), (Hj id' H2).
Qed.

Lemma full_key_bytes p id c k : parseSettingID p id = Ok (c, k) →
  bytes_of (c ++ "." ++ k)%string =
  if bool_decide (pluginID p = "") then bytes_of id else bytes_of "plugin." ++ bytes_of id.
Proof.
  assert (∀ a b : string, bytes_of (a ++ b)%string = bytes_of a ++ bytes_of b) as Happ.
  { intros a b. unfold bytes_of. induction a as [|x a IH]; [done|]. exact (f_equal (cons x) IH). }
  unfold parseSettingID. case_bool_decide as Hp; cbn [negb].
  - pose proof (join_split (bytes_of id) []) as Hs. unfold strings_split.
    destruct (split_go "." [] (bytes_of id)) as [|a [|b [|]]]; try done.
    destruct (bool_decide (a = "") || bool_decide (b = "")); [done|]. intros [= <- <-].
    rewrite !Happ. cbn in *. by rewrite <- Hs.
  - intros [= <- <-]. by rewrite !Happ.
Qed.

Lemma full_key_inj p id id' c k c' k' : parseSettingID p id = Ok (c, k) → parseSettingID p id' = Ok (c', k') →
  (c ++ "." ++ k)%string = (c' ++ "." ++ k')%string → id = id'.
Proof.
  intros H1%full_key_bytes H2%full_key_bytes He. rewrite He, H2 in H1. apply bytes_of_inj.
  destruct (bool_decide (pluginID p = "")); [done|]. by apply app_inv_head in H1.
Qed.

Lemma lookup_put s c k x c' k' : is_Some (s !! c) →
  lookup_setting (put_setting s c k x) c' k' = if decide ((c', k') = (c, k)) then Some x else lookup_setting s c' k'.
Proof.
  intros [cat Hc]. unfold lookup_setting, put_setting, Store in *. destruct (decide (c' = c)) as [->|Hn].
  - rewrite lookup_alter_eq, Hc. cbn. destruct (decide (k' = k)) as [->|Hk].
    + rewrite lookup_insert_eq. by rewrite decide_True.
    + rewrite lookup_insert_ne by done. rewrite decide_False by (by intros [= ->]). done.
  - rewrite lookup_alter_ne by done. rewrite decide_False by (by intros [= ->]). done.
Qed.
Lemma put_is_some s c k x c' : is_Some (put_setting s c k x !! c') ↔ is_Some (s !! c').
Proof.
  unfold put_setting, Store in *. destruct (decide (c' = c)) as [->|]; [|by rewrite lookup_alter_ne].
  rewrite lookup_alter_eq. by rewrite fmap_is_Some.
Qed.

Definition place (e : preparedSetting) : string * string := (pr_category e, pr_key e).

(** After publishing distinct places, each holds its entry and the rest is untouched. *)
Lemma publish_lookup entries : ∀ s, NoDup (place <$> entries) → Forall (λ e, is_Some (s !! pr_category e)) entries →
  (∀ e, e ∈ entries → lookup_setting (publish_entries s entries) (pr_category e) (pr_key e) = Some (pr_setting e))
  ∧ (∀ c k, (c, k) ∉ place <$> entries → lookup_setting (publish_entries s entries) c k = lookup_setting s c k).
Proof.
  induction entries as [|e entries IH]; intros s Hd Hs; cbn [publish_entries foldl].
  - split; [by intros e ?%elem_of_nil|done].
  - cbn in Hd. apply NoDup_cons in Hd as [Hn Hd]. apply Forall_cons in Hs as [He Hs].
    destruct (IH (put_setting s (pr_category e) (pr_key e) (pr_setting e)) Hd) as [H1 H2].
    { eapply Forall_impl; [exact Hs|]. intros x. by rewrite put_is_some. }
    unfold publish_entries in H1, H2. split.
    + intros x [->|Hx]%elem_of_cons; [|by apply H1].
      rewrite H2 by done. rewrite lookup_put by done. by rewrite decide_True.
    + intros c k Hck. cbn in Hck. apply not_elem_of_cons in Hck as [Hne Hck].
      rewrite H2 by done. rewrite lookup_put by done. by rewrite decide_False.
Qed.

Lemma changes_lookup entries : ∀ m : gmap string gany, NoDup (full_key <$> entries) → ∀ e, e ∈ entries →
  foldl (λ m e, <[full_key e := CloneValue (set_Value (pr_setting e))]> m) m entries !! full_key e
  = Some (set_Value (pr_setting e)).
Proof.
  assert (∀ l m k, k ∉ full_key <$> l →
    foldl (λ m e, <[full_key e := CloneValue (set_Value (pr_setting e))]> m) m l !! k = (m : gmap string gany) !! k) as Hf.
  { induction l as [|x l IH]; intros m k Hk; cbn; [done|]. cbn in Hk. apply not_elem_of_cons in Hk as [? ?].
    rewrite IH by done. by rewrite lookup_insert_ne. }
  induction entries as [|x entries IH]; intros m Hd e He; [by apply elem_of_nil in He|].
  cbn in *. apply NoDup_cons in Hd as [Hn Hd]. apply elem_of_cons in He as [->|He]; [|by apply IH].
  rewrite Hf by done. by rewrite lookup_insert_eq, CloneValue_id.
Qed.

(** Both keys of the entries are as distinct as the IDs. *)
Lemma change_nodup {A} (f : preparedSetting → A) p values entries :
  Forall2 (change_of p) values entries → NoDup values.*1 →
  (∀ v e v' e', change_of p v e → change_of p v' e' → f e = f e' → v.1 = v'.1) → NoDup (f <$> entries).
Proof.
  intros H Hd Hinj. induction H as [|v e values entries Hv Hl IH]; [constructor|].
  cbn in *. apply NoDup_cons in Hd as [Hn Hd]. constructor; [|by apply IH].
  intros (e' & He & He')%list_elem_of_fmap.
  apply list_elem_of_lookup in He' as [i Hi]. destruct (Forall2_lookup_r _ _ _ _ _ Hl Hi) as (v' & Hv' & Hc).
  apply Hn. rewrite (Hinj v e v' e' Hv Hc He). apply list_elem_of_fmap_2. by eapply list_elem_of_lookup_2.
Qed.

(** An assignment the provider can make. *)
Definition acceptable (p : provider) (v : string * gany) : Prop := ∃ e, change_of p v e.

Lemma collect_err {A B} (f : A → sresult B) l e : collect f l = Err e → ∃ a e', a ∈ l ∧ f a = Err e'.
Proof.
  induction l as [|a l IH]; cbn [collect]; [done|]. destruct (f a) as [b|e'] eqn:E; cbn.
  - destruct (collect f l) as [bs|] eqn:El; cbn; [done|]. intros [= ->].
    destruct IH as (a' & e' & ? & ?); [done|]. exists a', e'. split; [|done]. apply elem_of_cons. auto.
  - intros _. exists a, e'. split; [|done]. apply elem_of_cons. auto.
Qed.

Lemma acceptable_prepare p v : acceptable p v → ∃ e0, prepare p v.1 = Ok e0
  ∧ ∀ e0, prepare p v.1 = Ok e0 → is_ok (assign v.2 e0) = true.
Proof.
  intros (e & s & w & Ha & Hid & Hn & Hv & Hs). exists (mkPrepared v.1 (pr_category e) (pr_key e) s). split.
  { apply prepare_ok. eauto 10. }
  intros e0 (c & k & s' & Ha' & ->)%prepare_ok. destruct Ha as [Hp Hl], Ha' as [Hp' Hl']. rewrite Hp in Hp'.
  injection Hp' as <- <-. rewrite Hl in Hl'. injection Hl' as <-.
  unfold assign. cbn. assert (SetValue s v.2 = Ok (with_value s w)) as -> by (apply SetValue_ok; eauto). done.
Qed.

(** Whatever refuses the assignments refuses an unacceptable one. *)
Lemma refused_first p values e : collect (λ v, prepare p v.1) values = Err e → ∃ v, v ∈ values ∧ ¬ acceptable p v.
Proof.
  intros (v & e' & Hv & He)%collect_err. exists v. split; [done|]. intros (e0 & H0 & _)%acceptable_prepare. congruence.
Qed.
Lemma refused_second p values es0 e : collect (λ v, prepare p v.1) values = Ok es0 →
  collect (λ x, assign x.1 x.2) (zip values.*2 es0) = Err e → ∃ v, v ∈ values ∧ ¬ acceptable p v.
Proof.
  rewrite collect_ok. intros Hf ([x e0] & e' & Hin & He)%collect_err. apply list_elem_of_lookup in Hin as [i Hi].
  apply lookup_zip_with_Some in Hi as (x' & e0' & [= <- <-] & Hx & He0).
  apply list_lookup_fmap_Some in Hx as (v & -> & Hv).
  destruct (Forall2_lookup_l _ _ _ _ _ Hf Hv) as (e0' & He0' & Hp). rewrite He0 in He0'. injection He0' as <-.
  exists v. split; [by eapply list_elem_of_lookup_2|]. intros (? & _ & Hok)%acceptable_prepare.
  cbn in He. specialize (Hok _ Hp). by rewrite He in Hok.
Qed.

(** What a successful validation leaves to publish. *)
Lemma published_ok p values entries : NoDup values.*1 → Forall2 (change_of p) values entries →
  (∀ id v, (id, v) ∈ values → ∃ c k s w, addressed p id c k s
     ∧ NormalizeValue s v = Ok w ∧ Valid (validateNormalized s w) = true
     ∧ lookup_setting (publish_entries (store p) entries) c k = Some (with_value s w)
     ∧ normalized_changes entries !! (c ++ "." ++ k)%string = Some w)
  ∧ (∀ c k, (∀ id v, (id, v) ∈ values → parseSettingID p id ≠ Ok (c, k)) →
       lookup_setting (publish_entries (store p) entries) c k = lookup_setting (store p) c k).
Proof.
  intros Hd Hf.
  assert (NoDup (place <$> entries)) as Hplaces.
  { eapply change_nodup; [done..|]. intros v e v' e' (s & w & [Hp _] & _) (s' & w' & [Hp' _] & _) [= He1 He2].
    rewrite He1, He2 in Hp. by eapply parseSettingID_inj. }
  assert (NoDup (full_key <$> entries)) as Hkeys.
  { eapply change_nodup; [done..|]. intros v e v' e' (s & w & [Hp _] & _) (s' & w' & [Hp' _] & _) He.
    by eapply full_key_inj. }
  assert (Forall (λ e, is_Some (store p !! pr_category e)) entries) as Hcat.
  { apply Forall_forall. intros e [i Hi]%list_elem_of_lookup.
    destruct (Forall2_lookup_r _ _ _ _ _ Hf Hi) as (v & _ & s & w & [_ Hl] & _).
    unfold lookup_setting in Hl. destruct (store p !! pr_category e); [by eexists|done]. }
  destruct (publish_lookup entries (store p) Hplaces Hcat) as [Hin Hout]. split.
  - intros id v [i Hi]%list_elem_of_lookup. destruct (Forall2_lookup_l _ _ _ _ _ Hf Hi) as (e & He & s & w & Ha & _ & Hn & Hv & Hs).
    apply list_elem_of_lookup_2 in He. exists (pr_category e), (pr_key e), s, w.
    pose proof (changes_lookup entries ∅ Hkeys e He) as Hm. rewrite Hs in Hm.
    split_and!; try done. by rewrite Hin, Hs.
  - intros c k Hck. apply Hout. intros (e & He & [i Hi]%list_elem_of_lookup)%list_elem_of_fmap.
    destruct (Forall2_lookup_r _ _ _ _ _ Hf Hi) as ([id v] & Hv%list_elem_of_lookup_2 & s & w & [Hp _] & _).
    injection He as -> ->. by apply (Hck id v).
Qed.

(** C21: A commit is all or nothing. When it fails, nothing is stored, and it fails
    only because some assignment is not acceptable (unknown ID, wrong type,
    refused by its validator), because the context ended, or because the persist
    callback refused. When it succeeds, every assignment is stored as its
    normalized value, in its setting and nowhere else, no other setting
    changes, and the callback was handed, before anything was stored, exactly
    those values under their full IDs. *)
Theorem commitSettings_atomic p cancelled values persist : NoDup values.*1 →
  let r := commitSettings p cancelled values persist in
  match cm_error r with
  | Some _ =>
    cm_store r = store p ∧ cm_result r = not_committed ∧ cm_changed r = ∅
    ∧ (cancelled = true ∨ (∃ f m e, persist = Some f ∧ cm_persisted r = Some m ∧ f p m = Some e)
       ∨ ∃ v, v ∈ values ∧ ¬ acceptable p v)
  | None =>
    cm_result r = mkCommit true true false ∧ cancelled = false
    ∧ (∀ f, persist = Some f → ∃ m, cm_persisted r = Some m ∧ f p m = None)
    ∧ (∀ id v, (id, v) ∈ values → ∃ c k s w, addressed p id c k s
         ∧ NormalizeValue s v = Ok w ∧ Valid (validateNormalized s w) = true
         ∧ lookup_setting (cm_store r) c k = Some (with_value s w)
         ∧ (∀ m, cm_persisted r = Some m → m !! (c ++ "." ++ k)%string = Some w))
    ∧ (∀ c k, (∀ id v, (id, v) ∈ values → parseSettingID p id ≠ Ok (c, k)) →
         lookup_setting (cm_store r) c k = lookup_setting (store p) c k)
  end.
Proof.
  intros Hd r. subst r. unfold commitSettings.
  destruct (collect (λ e, prepare p e.1) values) as [es0|e0] eqn:E0; cbn [invalidates].
  2:{ cbn. split_and!; try done. right; right. by eapply refused_first. }
  destruct (collect (λ e, assign e.1 e.2) (zip values.*2 es0)) as [es|e1] eqn:E1; cbn [invalidates].
  2:{ cbn. split_and!; try done. right; right. by eapply refused_second. }
  destruct cancelled; [cbn; split_and!; auto|].
  pose proof (published_ok p values es Hd (prepared_ok p values es0 es E0 E1)) as [Hin Hout].
  destruct persist as [f|]; cbn [mbind option_bind].
  - destruct (f p (normalized_changes es)) as [e|] eqn:Ef; cbn.
    + split_and!; try done. right; left. eauto 10.
    + split_and!; try done; [intros f' [= <-]; eauto|].
      intros id v Hv. destruct (Hin id v Hv) as (c & k & s & w & ? & ? & ? & ? & ?). exists c, k, s, w.
      split_and!; try done. by intros m [= <-].
  - cbn. split_and!; try done.
    intros id v Hv. destruct (Hin id v Hv) as (c & k & s & w & ? & ? & ? & ? & ?). by exists c, k, s, w.
Qed.

(** ** Registration and merging keep what the user chose *)

(** The same setting under refreshed metadata. *)
Definition keeps (s s' : Setting) : Prop := set_Type s' = set_Type s ∧ set_Value s' = set_Value s.

Lemma mergeSettingMetadata_keeps s i : keeps s (mergeSettingMetadata s i).
Proof. unfold mergeSettingMetadata, keeps. by repeat case_match. Qed.

Lemma merge_setting_keeps entries : ∀ (m : gmap string Setting) k s, m !! k = Some s →
  ∃ s', foldl merge_setting m entries !! k = Some s' ∧ keeps s s'.
Proof.
  induction entries as [|e entries IH]; intros m k s Hk; cbn [foldl]; [by exists s|].
  destruct (decide (k = e.1)) as [->|Hn].
  - destruct (IH (merge_setting m e) e.1 (mergeSettingMetadata s e.2)) as (s' & Hs' & [Ht Hv]).
    { unfold merge_setting. by rewrite lookup_insert_eq, Hk. }
    destruct (mergeSettingMetadata_keeps s e.2) as [Ht' Hv']. exists s'. split; [done|]. split; congruence.
  - apply IH. unfold merge_setting. by rewrite lookup_insert_ne.
Qed.

Lemma merge_category_keeps st c0 c k s : lookup_setting st c k = Some s →
  ∃ s', lookup_setting (merge_category st c0) c k = Some s' ∧ keeps s s'.
Proof.
  intros Hl. unfold lookup_setting, merge_category, Store in *. destruct (decide (c = cg_ID c0)) as [->|Hn].
  - rewrite lookup_insert_eq. destruct (st !! cg_ID c0) as [cat|]; [|done]. cbn in *. by apply merge_setting_keeps.
  - rewrite lookup_insert_ne by done. by exists s.
Qed.

Lemma mergeSettings_keeps categories : ∀ st c k s, lookup_setting st c k = Some s →
  ∃ s', lookup_setting (foldl merge_category st categories) c k = Some s' ∧ keeps s s'.
Proof.
  induction categories as [|c0 l IH]; intros st c k s Hl; cbn [foldl]; [by exists s|].
  destruct (merge_category_keeps st c0 c k s Hl) as (s1 & H1 & Ht1 & Hv1).
  destruct (IH _ c k s1 H1) as (s2 & H2 & Ht2 & Hv2). exists s2. split; [done|]. split; congruence.
Qed.

Lemma category_or_new_insert (s : Store) c x : category_or_new (<[c := x]> s) c = x.
Proof. unfold category_or_new, Store in *. by rewrite lookup_insert_eq. Qed.
Lemma store_insert_insert (s : Store) c x y : <[c := x]> (<[c := y]> s) = <[c := x]> s.
Proof. unfold Store in *. apply insert_insert_eq. Qed.

Lemma RegisterSettings_fold p c l : l ≠ [] → RegisterSettings p c l = foldl (λ p s, RegisterSetting p c s) p l.
Proof.
  assert (∀ l p, foldl (λ p s, RegisterSetting p c s) p l =
    match l with [] => p | _ => RegisterSettings p c l end) as ->; [|by destruct l].
  clear. induction l as [|s l IH]; intros p; cbn [foldl]; [done|]. rewrite IH.
  unfold RegisterSettings, RegisterSetting. destruct l as [|s' l]; [done|].
  cbn [foldl pluginID store changeHandlers with_store]. by rewrite category_or_new_insert, store_insert_insert.
Qed.

Lemma category_or_new_lookup (s : Store) c k : cg_Settings (category_or_new s c) !! k = lookup_setting s c k.
Proof. unfold category_or_new, lookup_setting, Store in *. destruct (s !! c); [done|]. apply lookup_empty. Qed.
Lemma lookup_setting_insert (s : Store) c x c' k :
  lookup_setting (<[c := x]> s) c' k = if decide (c' = c) then cg_Settings x !! k else lookup_setting s c' k.
Proof.
  unfold lookup_setting, Store in *. destruct (decide (c' = c)) as [->|]; [by rewrite lookup_insert_eq|].
  by rewrite lookup_insert_ne.
Qed.

(** Re-registering and merging never lose what a user set. Merging descriptors
    into a store keeps every existing setting with its type and its value,
    whatever the incoming metadata says; registering a setting replaces its
    metadata but keeps its value as long as its type is unchanged, falls back
    to the new default only when the type changed or the setting is new, and
    touches no other setting; registering several is registering each in turn. *)
Theorem registration_keeps_values p c s :
  (∀ categories c' k x, lookup_setting (store p) c' k = Some x →
     ∃ x', lookup_setting (store (mergeSettings p categories)) c' k = Some x'
           ∧ set_Type x' = set_Type x ∧ set_Value x' = set_Value x)
  ∧ lookup_setting (store (RegisterSetting p c s)) c (set_ID s) =
      Some (with_value s match lookup_setting (store p) c (set_ID s) with
                         | Some x => if bool_decide (set_Type x = set_Type s) then set_Value x else set_Default s
                         | None => set_Default s
                         end)
  ∧ (∀ c' k, (c', k) ≠ (c, set_ID s) →
       lookup_setting (store (RegisterSetting p c s)) c' k = lookup_setting (store p) c' k)
  ∧ (∀ l, l ≠ [] → RegisterSettings p c l = foldl (λ p s, RegisterSetting p c s) p l).
Proof.
  split_and!.
  - intros categories c' k x Hl. by apply mergeSettings_keeps.
  - unfold RegisterSetting, register_into, registered. cbn [store with_store].
    rewrite lookup_setting_insert, decide_True by done. cbn [cg_Settings with_settings].
    rewrite lookup_insert_eq, clone_id, category_or_new_lookup.
    destruct (lookup_setting (store p) c (set_ID s)) as [x|]; [|done]. by destruct (bool_decide (set_Type x = set_Type s)).
  - intros c' k Hn. unfold RegisterSetting, register_into. cbn [store with_store]. rewrite lookup_setting_insert.
    destruct (decide (c' = c)) as [->|]; [|done]. cbn [cg_Settings with_settings].
    rewrite lookup_insert_ne by congruence. apply category_or_new_lookup.
  - intros l. apply RegisterSettings_fold.
Qed.

(** ** Sensitive settings disclose nothing but validity *)

(** What a form is shown of a sensitive setting depends only on whether the value
    is valid, and its value never. *)
Lemma sensitive_redacted s v : Sensitive s = true →
  GetValue s = GNil
  ∧ Validation s v = (if Valid (Validation s v) then value_is_valid
                      else mkValidation false "invalid" "Value did not pass validation.").
Proof.
  intros Hs. split; [unfold GetValue; by rewrite Hs|].
  assert (∀ r, validationResult s r = if Valid (validationResult s r) then value_is_valid
     else mkValidation false "invalid" "Value did not pass validation.") as Hr.
  { intros r. unfold validationResult. rewrite Hs. destruct (_ && _), (Valid r); done. }
  unfold Validation. destruct (NormalizeValue s v); apply Hr.
Qed.

(** ** What the model shows of corner cases *)

(** An incoming descriptor of another type is ignored altogether. *)
Lemma merge_ignores_type_change s i : set_Type i ≠ set_Type s → mergeSettingMetadata s i = s.
Proof. intros Hn. unfold mergeSettingMetadata. by rewrite bool_decide_eq_false_2. Qed.

(** A [uint] element beyond [int] is read back as a negative number, where the
    same [uint64] element is refused. *)
Lemma uint_element_wraps n : 2 ^ 63 ≤ n < 2 ^ 64 →
  int_item (GInt Kuint n) = Ok (n - 2 ^ 64) ∧ int_item (GInt Kuint64 n) = Err ErrSettingTypeMismatch.
Proof.
  intros Hn. unfold int_item, wrap_int. rewrite (proj2 (Z.ltb_ge n (2 ^ 63))) by lia.
  rewrite (proj2 (Z.ltb_lt max_int64 n)) by (unfold max_int64; lia). done.
Qed.

(** ** A concrete provider *)

Definition sample_setting : Setting :=
  mkSetting "size" "Size" "" Integer GNil (GInt Kint 12)
    (Some (λ v, match v with
                | GInt Kint n => if n <? 100 then value_is_valid else mkValidation false "large" "Too large."
                | _ => mkValidation false "type" ""
                end)) [] None false false false false.
Definition sample_provider : provider := RegisterSettings (mkProvider "" ∅ ∅) "font" [sample_setting].
Definition sample_values : list (string * gany) := [("font.size", GNumber "2.4e1")].

Lemma NormalizeValue_canonical_witness :
  NormalizeValue sample_setting (GNumber "2.4e1") = Ok (GInt Kint 24)
  ∧ canonical (value_shape sample_setting) (GInt Kint 24).
Proof.
  destruct (NormalizeValue_canonical sample_setting (GNumber "2.4e1") I) as [Hn _].
  assert (NormalizeValue sample_setting (GNumber "2.4e1") = Ok (GInt Kint 24)) as He by (vm_compute; reflexivity).
  split; [exact He|]. exact (proj1 (Hn _ He)).
Defined.

Lemma sample_modest : modest (GNumber "2.4e1").
Proof.
  intros neg i frac e He. vm_compute in He. injection He as <- <- <- <-.
  split; [split|]; vm_compute; congruence.
Defined.
Lemma normalizeNumber_exact_witness : denotes_int (GNumber "2.4e1") 24.
Proof.
  apply (normalizeNumber_exact (GNumber "2.4e1") 24 I sample_modest). vm_compute. reflexivity.
Defined.

Definition sample_commit : commit_report := commitSettings sample_provider false sample_values (Some (λ _ _, None)).
Lemma commitSettings_atomic_witness :
  cm_error sample_commit = None
  ∧ ∃ c k s w, addressed sample_provider "font.size" c k s ∧ NormalizeValue s (GNumber "2.4e1") = Ok w
    ∧ lookup_setting (cm_store sample_commit) c k = Some (with_value s w).
Proof.
  pose proof (commitSettings_atomic sample_provider false sample_values (Some (λ _ _, None))
                ltac:(apply NoDup_singleton)) as H.
  cbv zeta in H. fold sample_commit in H.
  assert (cm_error sample_commit = None) as He by (vm_compute; reflexivity). rewrite He in H.
  split; [exact He|]. destruct H as (_ & _ & _ & Hin & _).
  destruct (Hin "font.size" (GNumber "2.4e1") ltac:(apply list_elem_of_singleton; reflexivity))
    as (c & k & s & w & H1 & H2 & _ & H3 & _).
  exists c, k, s, w. exact (conj H1 (conj H2 H3)).
Defined.
