(* ===== verification/Dispatch.v ===== *)
(** * Finite dispatch (pkg/resource/v2/controller_dispatch.go, action_schema.go,
    the fences of controller_admission.go)

    The handlers of [Controller]: every request is validated, leases the native
    client of its route, resolves one registration under the accepted catalog,
    calls that registration's callback, and answers only after the catalog fence
    and the checks that bind the answer to the request. *)
From S2P Require Import Prelude GoStd GoFloat GoJson Errors CatalogAdmission Values Json TaggedJson Budget Domain Validation Scopes Admission.
Local Open Scope Z_scope.

(** ** Action descriptors *)

(** Equality of the [json.Marshal] encodings. Validated descriptors hold only
    valid UTF-8 and finite bounds, on which the encoding is injective up to the
    members [omitempty] leaves out: a nil and an empty container are the same.
    Maps are written by key, so their order does not count. *)
Definition same_list (a b : option (list string)) : bool := bool_decide (listOf a = listOf b).
Definition same_entries {A} (same : A → A → bool) (a b : list (string * A)) : bool :=
  (length a =? length b)%nat
  && forallb (λ e, match map_get e.1 b with Some x => same e.2 x | None => false end) a.
Fixpoint same_property (a b : SchemaProperty) : bool :=
  bool_decide (p_Type a = p_Type b) && bool_decide (p_Description a = p_Description b)
  && same_list (p_Enum a) (p_Enum b) && bool_decide (p_Minimum a = p_Minimum b)
  && bool_decide (p_Maximum a = p_Maximum b)
  && match p_Properties a with
     | Some l => same_entries same_property l (listOf (p_Properties b))
     | None => (length (listOf (p_Properties b)) =? 0)%nat
     end
  && same_list (p_Required a) (p_Required b).
Definition same_schema (a b : option Schema) : bool :=
  match a, b with
  | Some a, Some b =>
    same_entries same_property (listOf (s_Properties a)) (listOf (s_Properties b))
    && same_list (s_Required a) (s_Required b)
  | None, None => true
  | _, _ => false
  end.
(** A descriptor encodes when its schemas, which check themselves, do. *)
Definition encodes (d : ActionDescriptor) : bool :=
  let good s := match validate_schema_pointer s with Some (Ok _) => true | _ => false end in
  good (ParamsSchema d) && good (OutputSchema d).
Definition equalActionDescriptors (a b : ActionDescriptor) : bool :=
  encodes a && encodes b
  && bool_decide (ad_ID a = ad_ID b) && bool_decide (ad_Label a = ad_Label b)
  && bool_decide (ad_Description a = ad_Description b) && bool_decide (ad_Icon a = ad_Icon b)
  && bool_decide (ad_Scope a = ad_Scope b) && Bool.eqb (Streaming a) (Streaming b)
  && same_schema (ParamsSchema a) (ParamsSchema b) && same_schema (OutputSchema a) (OutputSchema b)
  && Bool.eqb (Dangerous a) (Dangerous b).

Definition reset_error (detail : string) : error := NewError "RESET_REQUIRED" detail.

Section actions.
Context `{Protowire}.

Definition ValidateActionDescriptorRequest (request : ActionRequest) (d : ActionDescriptor) (streaming : bool)
    : outcome unit :=
  ValidateActionDescriptors [d] ;;
  require (match ExpectedDescriptor request with Some x => equalActionDescriptors x d | None => true end)
    (reset_error "Action descriptor changed.") ;;
  require (bool_decide (ad_ID d = ac_Action request)) (invalid "action descriptor does not match request") ;;
  require (Bool.eqb (nonnil (ac_TypeTarget request)) (bool_decide (ad_Scope d = ActionScopeType)))
    (invalid "action scope does not match target") ;;
  require (Bool.eqb (Streaming d) streaming) (unsupported "Action execution lane is unsupported.") ;;
  ValidateActionInput d (ac_Input request).

Definition unavailableActionDescriptor (request : ActionRequest) : outcome (option ActionDescriptor) :=
  match ExpectedDescriptor request with
  | Some _ => fails (reset_error "Expected action descriptor is unavailable.")
  | None => Some (Ok None)
  end.

(** [descriptors] is nil when [None]; the copy it returns is the same value. *)
Definition selectActionDescriptor (request : ActionRequest) (descriptors : option (list ActionDescriptor))
    (streaming : bool) : outcome (option ActionDescriptor) :=
  match descriptors with
  | None => unavailableActionDescriptor request
  | Some l =>
    ValidateActionDescriptors l ;;
    match list_find (λ d, ad_ID d = ac_Action request) l with
    | Some (_, d) => ValidateActionDescriptorRequest request d streaming ;; Some (Ok (Some d))
    | None =>
      match ExpectedDescriptor request with
      | Some _ => fails (reset_error "Expected action descriptor is unavailable.")
      | None => fails (unsupported "Action is not advertised.")
      end
    end
  end.

Definition ValidateResolvedActionOutput (d : option ActionDescriptor) (v : Value) : outcome unit :=
  match d with Some d => ValidateActionOutput d v | None => validate_value v end.
End actions.

(** The descriptors of all registrations, first declaration first, and the IDs
    declared differently. *)
Definition merge_descriptor (acc : list ActionDescriptor * list string) (d : ActionDescriptor)
    : list ActionDescriptor * list string :=
  match list_find (λ x, ad_ID x = ad_ID d) acc.1 with
  | Some (_, x) => if equalActionDescriptors x d then acc else (acc.1, ad_ID d :: acc.2)
  | None => (acc.1 ++ [d], acc.2)
  end.
Fixpoint merge_registrations {ClientT} (rs : list (Registration ClientT))
    (acc : option (list ActionDescriptor) * list string) : outcome (option (list ActionDescriptor) * list string) :=
  match rs with
  | [] => Some (Ok acc)
  | r :: rs =>
    ValidateActionDescriptors (listOf (Actions r)) ;;
    merge_registrations rs
      (match Actions r with
       | Some l => let acc := foldl merge_descriptor (listOf acc.1, acc.2) l in (Some acc.1, acc.2)
       | None => acc
       end)
  end.
Definition mergeScopedActionDescriptors {ClientT} (rs : list (Registration ClientT))
    : outcome (option (list ActionDescriptor)) :=
  acc ← merge_registrations rs (None, []);
  Some (Ok (filter (λ d, ad_ID d ∉ acc.2) <$> acc.1)).

(** [ctx_err] is [ctx.Err()] and [regs] what [c.registrations] answers. *)
Definition GetActions {ClientT} (ctx_err : option error) (route : AccessRoute)
    (regs : outcome (list (Registration ClientT))) : outcome (option (list ActionDescriptor)) :=
  match ctx_err with Some e => fails e | None => Some (Ok tt) end ;;
  validateRoute route ;;
  rs ← regs;
  mergeScopedActionDescriptors rs.

(** ** A dispatch in progress *)

(** What a call does beyond its own computation, in order. [E] is what the
    operation sends elsewhere: a source session's emissions. *)
Inductive event (E : Type) : Type :=
| LeaseRefused
| Leased
| Released
| Resolving
| Called (operation : string)
| Fencing
| Cancelled
| Sent (e : E).
Arguments LeaseRefused {E}.
Arguments Leased {E}.
Arguments Released {E}.
Arguments Resolving {E}.
Arguments Called {E} operation.
Arguments Fencing {E}.
Arguments Cancelled {E}.
Arguments Sent {E} e.

(** The rest of the controller and its callers' contexts. Each answer may depend
    on everything that happened before it. *)
Record host (ClientT E : Type) := mkHost {
  h_admission : admissionContext;                          (** the caller's accepted revisions *)
  h_lease : list (event E) → AccessRoute → result (option ClientT);  (** [c.lease] *)
  h_catalog : list (event E) → outcome Catalog;            (** [c.Catalog] for the route *)
  h_registrations : list (event E) → string → outcome (list (Registration ClientT));
  h_stream_err : list (event E) → option error;            (** the caller's [ctx.Err()] *)
  h_lease_err : list (event E) → option error;             (** the leased [ctx.Err()] *)
  h_classifier : option (error → classification)           (** [cfg.ClassifyError] *)
}.
Arguments mkHost {ClientT E}.
Arguments h_admission {ClientT E}.
Arguments h_lease {ClientT E}.
Arguments h_catalog {ClientT E}.
Arguments h_registrations {ClientT E}.
Arguments h_stream_err {ClientT E}.
Arguments h_lease_err {ClientT E}.
Arguments h_classifier {ClientT E}.

(** The events so far, the selected registration, which [guard] reads, and what
    else the operation keeps: nothing for a finite dispatch. *)
Record call_state (ClientT E X : Type) := mkCall {
  st_log : list (event E); st_selected : option (Registration ClientT); st_own : X
}.
Arguments mkCall {ClientT E X}.
Arguments st_log {ClientT E X}.
Arguments st_selected {ClientT E X}.
Arguments st_own {ClientT E X}.

Section dispatch.
Context `{Protowire} {ClientT E X : Type} (h : host ClientT E).
Abbreviation St := (call_state ClientT E X).

(** A call: the state after it, and a result, an error or a panic ([None]). *)
Definition run (A : Type) : Type := St → St * outcome A.
#[export] Instance run_ret : MRet run := λ A a s, (s, Some (Ok a)).
#[export] Instance run_bind : MBind run := λ A B k m s,
  match m s with
  | (s, Some (Ok a)) => k a s
  | (s, Some (Err e)) => (s, Some (Err e))
  | (s, None) => (s, None)
  end.
Definition lift {A} (r : outcome A) : run A := λ s, (s, r).
Definition note (ev : event E) (s : St) : St := mkCall (st_log s ++ [ev]) (st_selected s) (st_own s).
Definition fresh (own : X) : St := mkCall [] None own.

(** [ctx, client, done, err := c.lease(ctx, route)] with [defer done()]. *)
Definition leased {A} (route : AccessRoute) (body : option ClientT → run A) : run A := λ s,
  match h_lease h (st_log s) route with
  | Ok client => let '(s, r) := body client (note Leased s) in (note Released s, r)
  | Err e => (note LeaseRefused s, fails e)
  end.

(** [c.resolve]; its first result is assigned even when it is nil. *)
Definition resolved (target : operationTarget) : run (Registration ClientT * ResourceType) := λ s,
  let s := note Resolving s in
  match resolve (h_admission h) (h_catalog h (st_log s)) (h_registrations h (st_log s)) target with
  | Some (Ok (r, d)) => (mkCall (st_log s) (Some r) (st_own s), Some (Ok (r, d)))
  | Some (Err e) => (mkCall (st_log s) None (st_own s), fails e)
  | None => (s, None)
  end.

(** Calling a callback: a nil function panics. *)
Definition invoke {A B} (operation : string) (f : callback ClientT A B) (client : option ClientT) (a : A) : run B := λ s,
  (note (Called operation) s, match f with Some f => f client a | None => None end).

(** [c.fenceCatalog] under the leased context. *)
Definition fence (route : AccessRoute) : run unit := λ s,
  let s := note Fencing s in
  (s, fenceCatalog (h_admission h) (nonnil (h_lease_err h (st_log s))) (h_catalog h (st_log s)) route).

(** [defer c.guard(&r, &err)]: panics are recovered, errors classified. *)
Definition guarded {A} (m : run A) : run A := λ s,
  let '(s, r) := m s in
  let classifier := x ← st_selected s; reg_Classifier x in
  (s, match r with
      | Some (Ok a) => Some (Ok a)
      | Some (Err e) => match guard false classifier (h_classifier h) (Some e) with Some e => fails e | None => None end
      | None => match guard true classifier (h_classifier h) None with Some e => fails e | None => None end
      end).

(** ** The handlers *)

Definition Get (request : GetRequest) : run ResourceRecord := guarded (
  let a := r_Address (g_Reference request) in
  lift (ValidateGetRequest request) ≫= λ _,
  leased (g_Route request) (λ client,
    resolved (mkTarget (g_Route request) (a_Provider a) (a_Type a) (g_Representation request) None (Some a)
                OperationGet) ≫= λ selected,
    invoke OperationGet (Admission.Get selected.1) client request ≫= λ record,
    fence (g_Route request) ≫= λ _,
    lift (checkRecord record selected.2 (a_Provider a) (a_Authority a) (g_Representation request)
            (Some (g_Reference request)) None) ≫= λ _,
    mret record)).

Definition dispatchPage (target : ReadTarget) (size : Z) (operation : string)
    (call : option ClientT → Registration ClientT → ResourceType → run SourcePage) : run SourcePage :=
  leased (rt_Route target) (λ client,
    resolved (page_target target operation) ≫= λ selected,
    call client selected.1 selected.2 ≫= λ page,
    fence (rt_Route target) ≫= λ _,
    lift (checkPage page selected.2 target size) ≫= λ _,
    mret page).

Definition Enumerate (request : EnumerateRequest) : run SourcePage := guarded (
  lift (ValidateEnumerateRequest request) ≫= λ _,
  dispatchPage (e_Target request) (e_PageSize request) OperationEnumerate (λ client r _,
    invoke OperationEnumerate (Admission.Enumerate r) client request)).

Definition NativeQuery (request : NativeQueryRequest) : run SourcePage := guarded (
  lift (ValidateNativeQueryRequest request) ≫= λ _,
  dispatchPage (q_Target request) (q_PageSize request) OperationNativeQuery (λ client r d,
    lift (ValidateNativeQueryInput d request) ≫= λ _,
    invoke OperationNativeQuery (Admission.NativeQuery r) client request)).

Definition Mutate (request : MutationRequest) : run ResourceRecord := guarded (
  let a := r_Address (m_Reference request) in
  lift (ValidateMutationRequest request) ≫= λ _,
  leased (m_Route request) (λ client,
    resolved (mkTarget (m_Route request) (a_Provider a) (a_Type a) "" None (Some a)
                (mutationOperation (m_Operation request))) ≫= λ selected,
    invoke (mutationOperation (m_Operation request)) (Admission.Mutate selected.1) client request ≫= λ record,
    fence (m_Route request) ≫= λ _,
    lift (checkRecord record selected.2 (a_Provider a) (a_Authority a) "" (Some (m_Reference request)) None) ≫= λ _,
    mret record)).

Definition Action (request : ActionRequest) : run Value := guarded (
  lift (ValidateActionRequest request) ≫= λ _,
  leased (ac_Route request) (λ client,
    resolved (actionOperationTarget request) ≫= λ selected,
    lift (match Actions selected.1 with
          | None => unavailableActionDescriptor request
          | Some l => selectActionDescriptor request (Some l) false
          end) ≫= λ descriptor,
    invoke OperationAction (Admission.Action selected.1) client request ≫= λ value,
    fence (ac_Route request) ≫= λ _,
    lift (ValidateResolvedActionOutput descriptor value) ≫= λ _,
    mret value)).

(** [resolveActionDescriptor] selects a descriptor without a lease of its own. *)
Definition resolveActionDescriptor (request : ActionRequest) (streaming : bool) : run (option ActionDescriptor) :=
  guarded (
    if streaming then lift (fails (unsupported "Streaming action handler is not implemented."))
    else
      resolved (actionOperationTarget request) ≫= λ selected,
      lift (match Actions selected.1 with
            | None => unavailableActionDescriptor request
            | Some l => selectActionDescriptor request (Some l) false
            end)).
End dispatch.
Arguments run ClientT E X : clear implicits.

(** What a provider offers to [ResolveActionDescriptor]: its own resolver, an
    [ActionCatalog], or neither. *)
Inductive action_provider : Type :=
| ActionResolver (resolve : ActionRequest → bool → outcome (option ActionDescriptor))
| ActionCatalog (GetActions : AccessRoute → string → outcome (option (list ActionDescriptor)))
| NoActionDiscovery.

Definition ResolveActionDescriptor `{Protowire} (provider : action_provider) (request : ActionRequest)
    (streaming : bool) : outcome (option ActionDescriptor) :=
  ValidateActionRequest request ;;
  match provider with
  | ActionResolver resolve => resolve request streaming
  | NoActionDiscovery => unavailableActionDescriptor request
  | ActionCatalog get =>
    match get (ac_Route request) (ot_typ (actionOperationTarget request)) with
    | Some (Ok descriptors) => selectActionDescriptor request descriptors streaming
    | Some (Err e) =>
      if bool_decide (ErrorCode (Some e) = "UNSUPPORTED") then unavailableActionDescriptor request else fails e
    | None => None
    end
  end.

(** ** Dispatching any finite request *)

Section properties.
Context `{Protowire} {ClientT E X : Type} (h : host ClientT E) (own : X).
Abbreviation run := (run ClientT E X).
Abbreviation St := (call_state ClientT E X).
Abbreviation fresh := (fresh own).

Definition dispatch (request : request_value) : run result_value :=
  match request with
  | ReqGet r => Get h r ≫= λ x, mret (ResRecord x)
  | ReqEnumerate r => Enumerate h r ≫= λ x, mret (ResPage x)
  | ReqNativeQuery r => NativeQuery h r ≫= λ x, mret (ResPage x)
  | ReqMutation r => Mutate h r ≫= λ x, mret (ResRecord x)
  | ReqAction r => Action h r ≫= λ x, mret (ResValue x)
  | ReqRead _ | ReqOther => lift (fails (unsupported "Unsupported finite resource operation."))
  end.

(** The callback a registration answers a request with. *)
Definition answers (r : Registration ClientT) (client : option ClientT) (request : request_value)
    (res : result_value) : Prop :=
  match request, res with
  | ReqGet q, ResRecord x => ∃ f, Admission.Get r = Some f ∧ f client q = Some (Ok x)
  | ReqEnumerate q, ResPage x => ∃ f, Admission.Enumerate r = Some f ∧ f client q = Some (Ok x)
  | ReqNativeQuery q, ResPage x => ∃ f, Admission.NativeQuery r = Some f ∧ f client q = Some (Ok x)
  | ReqMutation q, ResRecord x => ∃ f, Admission.Mutate r = Some f ∧ f client q = Some (Ok x)
  | ReqAction q, ResValue x => ∃ f, Admission.Action r = Some f ∧ f client q = Some (Ok x)
  | _, _ => False
  end.

Lemma run_bind_ok {A B} (m : run A) (k : A → run B) s s' b :
  (m ≫= k) s = (s', Some (Ok b)) ↔ ∃ s1 a, m s = (s1, Some (Ok a)) ∧ k a s1 = (s', Some (Ok b)).
Proof.
  unfold mbind, run_bind. destruct (m s) as [s1 [[a|e]|]]; split; intros Hm.
  - exists s1, a. split; [reflexivity|exact Hm].
  - by destruct Hm as (? & ? & [= <- <-] & Hk).
  - done.
  - by destruct Hm as (? & ? & [=] & _).
  - done.
  - by destruct Hm as (? & ? & [=] & _).
Qed.

Lemma guarded_ok {A} (m : run A) s s' a : guarded h m s = (s', Some (Ok a)) ↔ m s = (s', Some (Ok a)).
Proof. unfold guarded. destruct (m s) as [s1 [[x|e]|]]; by repeat case_match. Qed.

Lemma guarded_defined {A} (m : run A) s s' : guarded h m s ≠ (s', None).
Proof.
  unfold guarded, guard, classify. destruct (m s) as [s1 [[x|e]|]]; repeat case_match; by intros [=].
Qed.

Lemma lift_ok {A} (r : outcome A) (s s' : St) a : lift r s = (s', Some (Ok a)) ↔ s' = s ∧ r = Some (Ok a).
Proof. unfold lift. split; [by intros [= -> ->]|by intros [-> ->]]. Qed.

Lemma leased_ok {A} route (body : option ClientT → run A) s s' a :
  leased h route body s = (s', Some (Ok a)) ↔
  ∃ client s1, h_lease h (st_log s) route = Ok client
    ∧ body client (note Leased s) = (s1, Some (Ok a)) ∧ s' = note Released s1.
Proof.
  unfold leased. destruct (h_lease h (st_log s) route) as [client|e].
  - destruct (body client (note Leased s)) as [s1 r] eqn:Eb. split.
    + intros [= <- ->]. by exists client, s1.
    + intros (? & ? & [= <-] & Hb & ->). rewrite Eb in Hb. by injection Hb as -> ->.
  - split; [done|]. by intros (? & ? & ? & _).
Qed.

Lemma resolved_ok target (s s' : St) p :
  resolved h target s = (s', Some (Ok p)) ↔
  resolve (h_admission h) (h_catalog h (st_log s ++ [Resolving]))
    (h_registrations h (st_log s ++ [Resolving])) target = Some (Ok p)
  ∧ s' = mkCall (st_log s ++ [Resolving]) (Some p.1) (st_own s).
Proof.
  unfold resolved. cbn [note st_log].
  destruct (resolve _ _ _ target) as [[[r d]|e]|]; split.
  - by intros [= <- <-].
  - by intros [[= <-] ->].
  - done.
  - by intros [? _].
  - done.
  - by intros [? _].
Qed.

Lemma invoke_ok {A B} op (f : callback ClientT A B) client a (s s' : St) b :
  invoke op f client a s = (s', Some (Ok b)) ↔
  (∃ g, f = Some g ∧ g client a = Some (Ok b)) ∧ s' = note (Called op) s.
Proof.
  unfold invoke. destruct f as [g|]; split; try done.
  - intros [= <- Hg]. split; [by exists g|done].
  - by intros [(? & [= <-] & ->) ->].
  - by intros [(? & ? & _) _].
Qed.

Lemma fence_ok route (s s' : St) u :
  fence h route s = (s', Some (Ok u)) ↔
  h_lease_err h (st_log s ++ [Fencing]) = None
  ∧ (∃ c, h_catalog h (st_log s ++ [Fencing]) = Some (Ok c)
          ∧ CheckCatalogRevisionForRoute (h_admission h) c route = Some (Ok tt))
  ∧ s' = note Fencing s.
Proof.
  unfold fence, fenceCatalog. destruct u. cbn [note st_log].
  destruct (h_lease_err h _); cbn [nonnil]; [split; [done|by intros [? _]]|].
  destruct (h_catalog h _) as [[c|e]|]; cbn [mbind outcome_bind]; split; try (by intros (_ & (? & ? & _) & _)); try done.
  - intros [= <- Hc]. split_and!; [done| |done]. by exists c.
  - by intros (_ & (? & [= <-] & ->) & ->).
Qed.

(** The events of a call that answers, and what each of its steps found. *)
Definition completed (op : string) : list (event E) := [Leased; Resolving; Called op; Fencing; Released].

Record accepted (request : request_value) (target : operationTarget) (d : ResourceType) (res : result_value)
    (s : St) : Prop := {
  accepted_log : st_log s = completed (ot_operation target);
  accepted_call : ∃ r client,
    h_lease h [] (ot_route target) = Ok client
    ∧ resolve (h_admission h) (h_catalog h [Leased; Resolving]) (h_registrations h [Leased; Resolving]) target
      = Some (Ok (r, d))
    ∧ answers r client request res;
  accepted_fence : h_lease_err h [Leased; Resolving; Called (ot_operation target); Fencing] = None
    ∧ ∃ c, h_catalog h [Leased; Resolving; Called (ot_operation target); Fencing] = Some (Ok c)
           ∧ CheckCatalogRevisionForRoute (h_admission h) c (ot_route target) = Some (Ok tt)
}.

(** The shape the record and page handlers share. *)
Lemma pipeline_ok {A} route target (call : option ClientT → Registration ClientT → ResourceType → run A)
    (check : ResourceType → A → outcome unit) s a :
  leased h route (λ client, resolved h target ≫= λ selected, call client selected.1 selected.2 ≫= λ x,
    fence h route ≫= λ _, lift (check selected.2 x) ≫= λ _, mret x) fresh = (s, Some (Ok a)) →
  ∃ client r d s1, h_lease h [] route = Ok client
    ∧ resolve (h_admission h) (h_catalog h [Leased; Resolving]) (h_registrations h [Leased; Resolving]) target
      = Some (Ok (r, d))
    ∧ call client r d (mkCall [Leased; Resolving] (Some r) own) = (s1, Some (Ok a))
    ∧ h_lease_err h (st_log s1 ++ [Fencing]) = None
    ∧ (∃ c, h_catalog h (st_log s1 ++ [Fencing]) = Some (Ok c)
            ∧ CheckCatalogRevisionForRoute (h_admission h) c route = Some (Ok tt))
    ∧ check d a = Some (Ok tt)
    ∧ s = note Released (note Fencing s1).
Proof.
  rewrite leased_ok. intros (client & s1 & Hl & Hb & ->).
  apply run_bind_ok in Hb as (s2 & [r d] & Hr & Hb). apply resolved_ok in Hr as [Hr ->].
  apply run_bind_ok in Hb as (s3 & x & Hc & Hb). apply run_bind_ok in Hb as (s4 & [] & Hf & Hb).
  apply fence_ok in Hf as (He & Hf & ->). apply run_bind_ok in Hb as (s5 & [] & Hk & Hb).
  apply lift_ok in Hk as [-> Hk]. injection Hb as <- <-.
  exists client, r, d, s3. split_and!; done.
Qed.

(** One completed pipeline whose call is a single callback. *)
Lemma pipeline_accepted {A} request target (inject : A → result_value)
    (call : option ClientT → Registration ClientT → ResourceType → run A) check s a :
  (∀ client r d s0 s1 x, call client r d s0 = (s1, Some (Ok x)) →
    s1 = note (Called (ot_operation target)) s0 ∧ answers r client request (inject x)) →
  leased h (ot_route target) (λ client, resolved h target ≫= λ selected, call client selected.1 selected.2 ≫= λ x,
    fence h (ot_route target) ≫= λ _, lift (check selected.2 x) ≫= λ _, mret x) fresh = (s, Some (Ok a)) →
  ∃ d, accepted request target d (inject a) s ∧ check d a = Some (Ok tt).
Proof.
  intros Hcall Hrun. apply pipeline_ok in Hrun as (client & r & d & s1 & Hl & Hr & Hc & He & Hf & Hk & ->).
  apply Hcall in Hc as [-> Ha]. exists d. split; [|exact Hk].
  split; [done| |done]. by exists r, client.
Qed.

Lemma ResolvedActionOutput_value d v : ValidateResolvedActionOutput d v = Some (Ok tt) → validate_value v = Some (Ok tt).
Proof.
  unfold ValidateResolvedActionOutput, ValidateActionOutput. intros Hv. repeat case_match; [|done..].
  unfold ValidateSchemaValue in Hv. rewrite !outcome_seq_ok in Hv. tauto.
Qed.

Lemma invoke_answers {A B} op (f : callback ClientT A B) client q s0 s1 (x : B) :
  invoke op f client q s0 = (s1, Some (Ok x)) →
  s1 = note (E:=E) (X:=X) (Called op) s0 ∧ ∃ g, f = Some g ∧ g client q = Some (Ok x).
Proof. intros Hi. apply invoke_ok in Hi as [? ->]. done. Qed.

Lemma action_accepted q s v : Action h q fresh = (s, Some (Ok v)) →
  ValidateActionRequest q = Some (Ok tt)
  ∧ ∃ d, accepted (ReqAction q) (actionOperationTarget q) d (ResValue v) s ∧ validate_value v = Some (Ok tt).
Proof.
  unfold Action. rewrite guarded_ok. intros Hq. apply run_bind_ok in Hq as (s1 & [] & Hv & Hq).
  apply lift_ok in Hv as [-> Hv]. split; [exact Hv|]. apply leased_ok in Hq as (client & s1 & Hl & Hb & ->).
  apply run_bind_ok in Hb as (s2 & [r d] & Hr & Hb). apply resolved_ok in Hr as [Hr ->].
  apply run_bind_ok in Hb as (s3 & ds & Hd & Hb). apply lift_ok in Hd as [-> Hd].
  apply run_bind_ok in Hb as (s4 & x & Hi & Hb). apply invoke_answers in Hi as [-> Ha].
  apply run_bind_ok in Hb as (s5 & [] & Hf & Hb). apply fence_ok in Hf as (He & Hf & ->).
  apply run_bind_ok in Hb as (s6 & [] & Hk & Hb). apply lift_ok in Hk as [-> Hk]. injection Hb as <- <-.
  assert (Hroute : ot_route (actionOperationTarget q) = ac_Route q ∧ ot_operation (actionOperationTarget q) = OperationAction)
    by (unfold actionOperationTarget; destruct (ac_TypeTarget q); done).
  destruct Hroute as [Hroute Hop].
  exists d. split; [|by eapply ResolvedActionOutput_value]. split; rewrite ?Hop, ?Hroute; [done| |done].
  by exists r, client.
Qed.

(** Opens the run of a record or page handler down to its pipeline. *)
Ltac answered :=
  let Hq := fresh "Hq" in let Hr := fresh "Hr" in let Hv := fresh "Hv" in let x := fresh "x" in
  let s1 := fresh "s1" in
  intros Hq; apply run_bind_ok in Hq as (s1 & x & Hq & Hr); injection Hr as -> <-;
  unfold Get, Enumerate, NativeQuery, Mutate, dispatchPage in Hq; rewrite guarded_ok in Hq;
  apply run_bind_ok in Hq as (s1 & [] & Hv & Hq); apply lift_ok in Hv as [-> Hv];
  cbn [describeOperation]; rewrite Hv;
  clear Hv.

(** C2: Everything a finite dispatch answers is acceptable to the consumer that
    asked, independently of the provider: whatever the host, the callbacks and
    the contexts do, a result is returned only after exactly one lease, one
    resolution, one call of the one resolved registration and one catalog fence,
    in that order, with the lease released at the end; the registration is the
    one the accepted catalog admits for the request's own target, the catalog
    read at the fence still has the accepted revision while the lease is live,
    and the result is the callback's and passes [ValidateOperationResult]
    against the admitted type. *)
Theorem dispatch_sound request s res :
  dispatch request fresh = (s, Some (Ok res)) →
  ∃ target d, describeOperation request = Some (Ok target)
    ∧ accepted request target d res s
    ∧ ValidateOperationResult request res d = Some (Ok tt).
Proof.
  destruct request as [q|q|q|q|q|q|]; cbn [dispatch]; try (by intros [=]).
  - answered. eapply (pipeline_accepted (ReqGet q) (mkTarget _ _ _ _ None (Some _) OperationGet) ResRecord
      (λ client r _, invoke OperationGet (Admission.Get r) client q)
      (λ d x, checkRecord x d _ _ _ (Some (g_Reference q)) None)) in Hq as (d & Hacc & Hk); [by eexists _, d|].
    intros client r d s0 s2 y. apply invoke_answers.
  - answered. eapply (pipeline_accepted (ReqEnumerate q) (page_target _ OperationEnumerate) ResPage
      (λ client r _, invoke OperationEnumerate (Admission.Enumerate r) client q)
      (λ d x, checkPage x d _ _)) in Hq as (d & Hacc & Hk); [by eexists _, d|].
    intros client r d s0 s2 y. apply invoke_answers.
  - answered. eapply (pipeline_accepted (ReqNativeQuery q) (page_target _ OperationNativeQuery) ResPage
      (λ client r d, lift (ValidateNativeQueryInput d q) ≫= λ _, invoke OperationNativeQuery (Admission.NativeQuery r) client q)
      (λ d x, checkPage x d _ _)) in Hq as (d & Hacc & Hk); [by eexists _, d|].
    intros client r d s0 s2 y Hb. apply run_bind_ok in Hb as (s3 & [] & Hi & Hb). apply lift_ok in Hi as [-> _].
    by apply invoke_answers in Hb.
  - answered. eapply (pipeline_accepted (ReqMutation q) (mkTarget _ _ _ _ None (Some _) (mutationOperation _)) ResRecord
      (λ client r _, invoke _ (Admission.Mutate r) client q)
      (λ d x, checkRecord x d _ _ _ (Some (m_Reference q)) None)) in Hq as (d & Hacc & Hk); [by eexists _, d|].
    intros client r d s0 s2 y. apply invoke_answers.
  - intros Hq. apply run_bind_ok in Hq as (s1 & x & Hq & Hr). injection Hr as -> <-.
    apply action_accepted in Hq as (Hv & d & Hacc & Hk). exists (actionOperationTarget q), d.
    cbn [describeOperation]. by rewrite Hv.
Qed.

(** ** What a dispatch does when it fails *)

(** [Q] holds of the state and the outcome a run ends with. *)
Definition post {A} (m : run A) (s : St) (Q : St → outcome A → Prop) : Prop := Q (m s).1 (m s).2.

Lemma post_bind {A B} (m : run A) (k : A → run B) s Q :
  post m s (λ s' r, match r with
    | Some (Ok a) => post (k a) s' Q
    | Some (Err e) => Q s' (Some (Err e))
    | None => Q s' None
    end) → post (m ≫= k) s Q.
Proof. unfold post, mbind, run_bind. by destruct (m s) as [s1 [[a|e]|]]. Qed.

Lemma post_log {A} (m : run A) s (P : list (event E) → Prop) (Q : St → outcome A → Prop) :
  P (st_log s) → (m s).1 = s → (∀ s' r, P (st_log s') → Q s' r) → post m s Q.
Proof. intros HP Hs HQ. unfold post. rewrite Hs. by apply HQ. Qed.

Lemma post_lift {A B} (r : outcome A) (k : A → run B) s (P : list (event E) → Prop) :
  P (st_log s) → (∀ a, post (k a) s (λ s' _, P (st_log s'))) →
  post (lift r ≫= k) s (λ s' _, P (st_log s')).
Proof. intros HP Hk. apply post_bind. unfold post, lift. destruct r as [[a|e]|]; [apply Hk|exact HP..]. Qed.

Lemma post_noted {A B} (m : run A) ev (k : A → run B) s (P : list (event E) → Prop) :
  (∀ s0, st_log (m s0).1 = st_log s0 ++ [ev]) → P (st_log s ++ [ev]) →
  (∀ a s', st_log s' = st_log s ++ [ev] → post (k a) s' (λ s' _, P (st_log s'))) →
  post (m ≫= k) s (λ s' _, P (st_log s')).
Proof.
  intros Hm HP Hk. apply post_bind. unfold post at 1. specialize (Hm s).
  destruct (m s) as [s1 [[a|e]|]]; cbn [fst snd] in *; [by apply Hk|by rewrite Hm..].
Qed.

Lemma post_ret {A} (a : A) s (P : list (event E) → Prop) : P (st_log s) → post (mret a) s (λ s' _, P (st_log s')).
Proof. done. Qed.

Lemma resolved_log target (s : St) : st_log (resolved h target s).1 = st_log s ++ [Resolving].
Proof. unfold resolved. destruct (resolve _ _ _ target) as [[[r d]|e]|]; done. Qed.

Lemma post_leased {A} route (body : option ClientT → run A) (P Q : list (event E) → Prop) :
  Q [LeaseRefused] → (∀ l, P l → Q (l ++ [Released])) →
  (∀ client, post (body client) (mkCall [Leased] None own) (λ s' _, P (st_log s'))) →
  post (leased h route body) fresh (λ s' _, Q (st_log s')).
Proof.
  intros Hr HQ Hb. unfold post, leased. cbn [st_log fresh].
  destruct (h_lease h [] route) as [client|e]; [|exact Hr]. specialize (Hb client). unfold post in Hb.
  unfold note at 1. cbn [st_log st_selected fresh app].
  destruct (body client _) as [s1 r]. cbn [fst snd st_log note] in *. by apply HQ.
Qed.

Lemma post_guarded {A} (m : run A) s (P : list (event E) → Prop) :
  post m s (λ s' _, P (st_log s')) → post (guarded h m) s (λ s' r, r ≠ None ∧ P (st_log s')).
Proof.
  unfold post, guarded, guard, classify. destruct (m s) as [s1 [[a|e]|]]; cbn [fst snd]; intros HP;
    repeat case_match; try done.
Qed.

(** The events of a call between taking and giving back its lease. *)
Definition during (op : string) (l : list (event E)) : Prop :=
  l ∈ [[Leased; Resolving]; [Leased; Resolving; Called op]; [Leased; Resolving; Called op; Fencing]].
Definition confined (op : string) (l : list (event E)) : Prop :=
  l = [] ∨ l = [LeaseRefused] ∨ l = [Leased; Resolving; Released] ∨ l = [Leased; Resolving; Called op; Released]
  ∨ l = completed op.

Lemma during_confined op l : during op l → confined op (l ++ [Released]).
Proof.
  unfold during, confined. rewrite !elem_of_cons, elem_of_nil.
  intros [->|[->|[->|[]]]]; cbn [app]; auto 6.
Qed.

Lemma post_assoc {A B C} (m : run A) (k : A → run B) (k' : B → run C) s Q :
  post (m ≫= λ a, k a ≫= k') s Q → post ((m ≫= k) ≫= k') s Q.
Proof. unfold post, mbind, run_bind. by destruct (m s) as [s1 [[a|e]|]]. Qed.

Lemma during_steps op :
  during op [Leased; Resolving] ∧ during op ([Leased; Resolving] ++ [Called op])
  ∧ during op ([Leased; Resolving; Called op] ++ [Fencing]).
Proof. unfold during. rewrite !elem_of_cons. auto 6. Qed.

(** Symbolic execution of a pipeline that tracks its events. *)
Ltac confine op :=
  repeat match goal with
  | _ => apply post_assoc
  | |- post (lift _ ≫= _) _ _ => apply post_lift; [|intros ?]
  | |- post (resolved _ _ ≫= _) _ _ => eapply post_noted; [apply resolved_log| |intros ? ? Hl]
  | |- post (invoke _ _ _ _ ≫= _) _ _ => eapply post_noted; [reflexivity| |intros ? ? Hl']
  | |- post (fence _ _ ≫= _) _ _ => eapply post_noted; [reflexivity| |intros ? ? Hl'']
  | |- post (mret _) _ _ => apply post_ret
  end;
  repeat match goal with Hs : st_log _ = st_log _ ++ _ |- _ => rewrite Hs end;
  cbn [st_log]; apply (during_steps op).

Lemma post_impl {A} (m : run A) s (Q R : St → outcome A → Prop) :
  (∀ s r, Q s r → R s r) → post m s Q → post m s R.
Proof. unfold post. auto. Qed.

(** A validated, leased body that is confined while it holds the lease. *)
Lemma handler_confined {A} op (checked : outcome unit) route (body : option ClientT → run A)
    (inject : A → result_value) (op' : outcome operationTarget) :
  (∀ client, post (body client) (mkCall [Leased] None own) (λ s' _, during op (st_log s'))) →
  (checked = Some (Ok tt) → ∃ t, op' = Some (Ok t) ∧ ot_operation t = op) →
  (checked ≠ Some (Ok tt) → ∀ t, op' ≠ Some (Ok t)) →
  post (guarded h (lift checked ≫= λ _, leased h route body) ≫= λ x, mret (inject x)) fresh
    (λ s r, r ≠ None ∧ match op' with Some (Ok t) => confined (ot_operation t) (st_log s) | _ => st_log s = [] end).
Proof.
  intros Hbody Hok Hbad.
  apply post_bind, (post_impl _ _ (λ s r, r ≠ None ∧
    match op' with Some (Ok t) => confined (ot_operation t) (st_log s) | _ => st_log s = [] end)).
  { intros s [[a|e]|]; intros [Hn Hl]; [split; [done|exact Hl]|by split..]. }
  apply (post_guarded _ _ (λ l, match op' with Some (Ok t) => confined (ot_operation t) l | _ => l = [] end)).
  destruct checked as [[[]|e]|].
  - destruct (Hok eq_refl) as (t & -> & ->). apply post_bind. unfold post at 1, lift. cbn [fst snd].
    apply (post_leased _ _ (during op)); [by right; left|apply during_confined|done].
  - assert (Hn : ∀ t, op' ≠ Some (Ok t)) by (by apply Hbad).
    unfold post. cbn. destruct op' as [[t|?]|]; [by destruct (Hn t)|done..].
  - assert (Hn : ∀ t, op' ≠ Some (Ok t)) by (by apply Hbad).
    unfold post. cbn. destruct op' as [[t|?]|]; [by destruct (Hn t)|done..].
Qed.

(** C8: A dispatch touches nothing it was not admitted to, on every path: a
    request that does not describe a valid operation has no effect at all;
    otherwise the client is leased at most once and always given back, the
    callback of the request's own operation runs at most once and only under the
    lease after the resolution, the fence follows the call, and a panic anywhere
    (in the callback, a nil callback, the registry or the classifier) is
    recovered into an ordinary error. *)
Theorem dispatch_confined request :
  let '(s, r) := dispatch request fresh in
  r ≠ None ∧ match describeOperation request with
             | Some (Ok target) => confined (ot_operation target) (st_log s)
             | _ => st_log s = []
             end.
Proof.
  enough (Hp : post (dispatch request) fresh (λ s r, r ≠ None ∧ match describeOperation request with
    | Some (Ok target) => confined (ot_operation target) (st_log s) | _ => st_log s = [] end))
    by (unfold post in Hp; by destruct (dispatch request fresh)).
  destruct request as [q|q|q|q|q|q|]; cbn [dispatch describeOperation].
  - apply (handler_confined OperationGet (ValidateGetRequest q));
      [intros client; confine OperationGet|intros ->; by eexists|by destruct (ValidateGetRequest q) as [[[]|]|]].
  - apply (handler_confined OperationEnumerate (ValidateEnumerateRequest q));
      [intros client; confine OperationEnumerate|intros ->; by eexists|by destruct (ValidateEnumerateRequest q) as [[[]|]|]].
  - apply (handler_confined OperationNativeQuery (ValidateNativeQueryRequest q));
      [intros client; confine OperationNativeQuery|intros ->; by eexists|by destruct (ValidateNativeQueryRequest q) as [[[]|]|]].
  - apply (handler_confined (mutationOperation (m_Operation q)) (ValidateMutationRequest q));
      [intros client; confine (mutationOperation (m_Operation q))|intros ->; by eexists|by destruct (ValidateMutationRequest q) as [[[]|]|]].
  - apply (handler_confined OperationAction (ValidateActionRequest q));
      [intros client; confine OperationAction| |by destruct (ValidateActionRequest q) as [[[]|]|]].
    intros ->. eexists. split; [done|]. unfold actionOperationTarget. by destruct (ac_TypeTarget q).
  - unfold post. split; [done|].
    destruct (ValidateEnumerateRequest (mkEnumerateRequest q 0 None)) as [[[]|]|]; [by left|done..].
  - done.
Qed.
End properties.

(** ** A concrete dispatch *)

#[local] Instance sample_protowire : Protowire := {| SizeVarint n := Z.min 10 (varintSize n `max` 1); EncodeZigZag n := 2 * n |}.

Definition sample_host : host nat Empty_set :=
  mkHost (mkAdmission (mkContext None) (Some "rev-1")) (λ _ _, Ok (Some 7%nat)) (λ _, Some (Ok sample_catalog))
    (λ _, registrations [mkRegistration "Pod" "c1" (Some [mkConstraint "ns" ScopeAny None]) None
                           (Some (λ _ _, Some (Ok sample_page))) None None None None false None] None (mkRoute "c1"))
    (λ _, None) (λ _, None) None.

Lemma dispatch_sound_witness :
  ∃ target d, describeOperation sample_request = Some (Ok target)
    ∧ accepted sample_host sample_request target d (ResPage sample_page)
        (dispatch sample_host sample_request (fresh tt)).1
    ∧ ValidateOperationResult sample_request (ResPage sample_page) d = Some (Ok tt).
Proof.
  apply (dispatch_sound sample_host tt sample_request (dispatch sample_host sample_request (fresh tt)).1 (ResPage sample_page)).
  vm_compute. reflexivity.
Defined.
