(* ===== verification/SourceSession.v ===== *)
(** * Opening a source session (pkg/resource/v2/controller_source.go)

    [Controller.OpenSource] serves a session out of an installed registration:
    it pages a finite callback into snapshots, or runs the registration's own
    source, behind [controllerSourceEmitter], which fences the catalog and checks
    everything that leaves for the emitter. *)
From S2P Require Import Prelude GoStd Errors CatalogAdmission Values Json TaggedJson Budget Domain Validation Scopes Admission Source Dispatch.
Local Open Scope Z_scope.

(** ** Emissions and sources *)

(** One call on a [SourceEmitter]. *)
Inductive emission : Type :=
| SendSnapshot (l : list SourceObservation)
| SendEnd (c : SourceCoverage) (continuity : string)
| SendChanges (l : list SourceChange) (c : option SourceCoverage)
| SendReset (reason message : string).

(** What the emitter sees, and readings of the clock. *)
Inductive session_event := Emitted (e : emission) | ClockRead.

Record SourceRequest := mkSourceRequest {
  sq_Target : ReadTarget; sq_Representation : Representation; sq_Limits : SourceLimits
}.

(** A source callback: what it emits, each time seeing the emitter's error, and
    how it returns ([None] is a panic). *)
Inductive source_program : Type :=
| Finish (r : outcome unit)
| Emit (e : emission) (k : option error → source_program).

(** The mutable part of [controllerSourceEmitter]: [reset], [nextCatalogCheck],
    and the error of the cancelled source context. *)
Record emitter_state := mkEmitter { em_reset : bool; em_next : Z; em_cancelled : option error }.
Record controllerSourceEmitter := mkFenced {
  fe_route : AccessRoute; fe_descriptor : ResourceType; fe_target : ReadTarget;
  fe_binding : Representation; fe_updates : bool
}.

Definition second : Z := 1000000000.
Definition binding_changed : error := reset_required "Source binding changed.".

(** ** The coverage of the pages so far *)

Definition page_enumeration (e kind : string) : string :=
  if bool_decide (kind = "unknown") then EnumerationUnknown
  else if bool_decide (kind = "partial") && negb (bool_decide (e = EnumerationUnknown)) then EnumerationPartial
  else e.
Definition page_limitations (l : list string) (reason : string) : list string :=
  if negb (bool_decide (reason = ""))
  then if negb (bool_decide (reason ∈ l)) && (length l <? MaxSourceLimitations)%nat then l ++ [reason] else l
  else l.

Record paging := mkPaging {
  pa_cursor : option string; pa_seen : list string; pa_coverage : SourceCoverage;
  pa_revision : option string; pa_pages : Z
}.
Definition first_page : paging :=
  mkPaging None [] (mkSourceCoverage EnumerationExhausted ConsistencyPointInTime []) None 0.

(** The revision kept for comparison, and the consistency after this page. *)
Definition page_revision (pages : Z) (revision current : option string) : option string :=
  if pages =? 1 then current else revision.
Definition same_revision (revision current : option string) : bool :=
  match revision, current with Some r, Some c => bool_decide (r = c) | _, _ => false end.
Definition page_consistency (c : string) (pages : Z) (revision : option string) (page : SourcePage) : string :=
  let c := if bool_decide (Consistency page = ConsistencyPointInTime) then c else ConsistencyBestEffort in
  if (pages =? 1) || same_revision revision (pg_SourceRevision page) then c else ConsistencyBestEffort.

Definition page_coverage (p : paging) (page : SourcePage) : SourceCoverage :=
  let c := pa_coverage p in
  mkSourceCoverage (page_enumeration (sc_Enumeration c) (cv_Kind (pg_Coverage page)))
    (page_consistency (sc_Consistency c) (pa_pages p + 1) (pa_revision p) page)
    (page_limitations (sc_Limitations c) (cv_Reason (pg_Coverage page))).

(** How one round of the paging loop ends: [return nil], the last page, or
    another round. *)
Inductive round := Stopped | LastPage (c : SourceCoverage) | NextPage (p : paging).

Section session.
Context `{Protowire} {ClientT : Type} (h : host ClientT session_event).
(** The emitter's answers, the clock in nanoseconds, and the source callback of
    a registration that has one. *)
Context (answer : list (event session_event) → emission → outcome unit) (clock : list (event session_event) → Z)
  (source : Registration ClientT → option ClientT → SourceRequest → source_program).
Abbreviation run := (run ClientT session_event emitter_state).
Abbreviation St := (call_state ClientT session_event emitter_state).

(** *** The fenced emitter *)

Definition own : run emitter_state := λ s, (s, Some (Ok (st_own s))).
Definition store (x : emitter_state) : run unit := λ s, (mkCall (st_log s) (st_selected s) x, Some (Ok tt)).
(** [err := m] without returning. *)
Definition attempt {A} (m : run A) : run (result A) := λ s,
  match m s with
  | (s, Some r) => (s, Some (Ok r))
  | (s, None) => (s, None)
  end.
Definition ret {A} (r : result A) : run A := lift (Some r).

Definition send (e : emission) : run unit := λ s,
  let s := note (Sent (Emitted e)) s in (s, answer (st_log s) e).
Definition now : run Z := λ s, let s := note (Sent ClockRead) s in (s, Some (Ok (clock (st_log s)))).
Definition lease_err : run (option error) := λ s, (s, Some (Ok (h_lease_err h (st_log s)))).
Definition stream_err : run (option error) := λ s, (s, Some (Ok (h_stream_err h (st_log s)))).
Definition store_reset : run unit :=
  x ← own; store (mkEmitter true (em_next x) (em_cancelled x)).

(** [cancel()]: the source context keeps the first reason it ended for. *)
Definition cancel : run unit :=
  (λ s, (note Cancelled s, Some (Ok tt))) ≫= λ _,
  e ← lease_err; x ← own;
  store (mkEmitter (em_reset x) (em_next x) (Some (default (default ECanceled e) (em_cancelled x)))).
Definition source_err : run (option error) :=
  x ← own; match em_cancelled x with Some e => mret (Some e) | None => lease_err end.
Definition ctx_err (e : option error) : run unit := lift (match e with Some e => fails e | None => Some (Ok tt) end).

Definition bindingReset : run unit :=
  r ← attempt (send (SendReset SourceResetBindingChanged "Source binding changed."));
  store_reset ≫= λ _, cancel ≫= λ _, ret r.

Definition checkCatalog (f : controllerSourceEmitter) : run unit :=
  catalog ← (λ s, let s := note Fencing s in (s, h_catalog h (st_log s)));
  match CheckCatalogRevisionForRoute (h_admission h) catalog (fe_route f) with
  | Some (Err e) =>
    if negb (bool_decide (ErrorCode (Some e) = "RESET_REQUIRED")) then lift (fails e)
    else bindingReset ≫= λ _, lift (fails binding_changed)
  | r => lift r
  end.

(** [ctx] is the context the caller passed: the lease's, or the source's. *)
Definition fence (f : controllerSourceEmitter) (ctx : run (option error)) : run unit :=
  lease ← lease_err; stream ← stream_err;
  if nonnil lease && negb (nonnil stream) then bindingReset ≫= λ _, lift (fails binding_changed)
  else if negb (fe_updates f) then e ← ctx; ctx_err e
  else
    t ← now; x ← own;
    if t <? em_next x then e ← ctx; ctx_err e
    else t ← now; x ← own; store (mkEmitter (em_reset x) (t + second) (em_cancelled x)) ≫= λ _, checkCatalog f.

(** [for ... { if err := check(x); err != nil { return err } }] *)
Definition check_observation (f : controllerSourceEmitter) (o : SourceObservation) : outcome unit :=
  require (bool_decide (sr_Representation (ob_Record o) = representation_ref (fe_binding f))) binding_changed ;;
  checkSourceObservation (fe_descriptor f) (fe_target f) o.
Definition check_change (f : controllerSourceEmitter) (c : SourceChange) : outcome unit :=
  if bool_decide (ch_Kind c = SourceChangeUpsert) then
    match ch_Observation c with
    | Some o =>
      require (is_none (ch_Reference c) && is_none (ch_SourceRevision c)) (provider_error "invalid source upsert") ;;
      check_observation f o
    | None => fails (provider_error "invalid source upsert")
    end
  else if bool_decide (ch_Kind c = SourceChangeRemove) then
    match ch_Reference c with
    | Some r =>
      require (is_none (ch_Observation c)) (provider_error "invalid source removal") ;;
      or_else (otoken (ch_SourceRevision c)) (provider_error "invalid source removal") ;;
      checkSourceReference (fe_descriptor f) (fe_target f) r
    | None => fails (provider_error "invalid source removal")
    end
  else fails (provider_error "invalid source change").

Definition Snapshot (f : controllerSourceEmitter) ctx (l : list SourceObservation) : run unit :=
  fence f ctx ≫= λ _, lift (each (check_observation f) l) ≫= λ _, send (SendSnapshot l).
Definition EndSnapshot (f : controllerSourceEmitter) ctx (c : SourceCoverage) (continuity : string) : run unit :=
  fence f ctx ≫= λ _, send (SendEnd c continuity).
Definition EmitChanges (f : controllerSourceEmitter) ctx (l : list SourceChange) (c : option SourceCoverage) : run unit :=
  fence f ctx ≫= λ _, lift (each (check_change f) l) ≫= λ _, send (SendChanges l c).
Definition EmitReset (f : controllerSourceEmitter) ctx (reason message : string) : run unit :=
  fence f ctx ≫= λ _, send (SendReset reason message) ≫= λ _, store_reset.

Definition emission_step (f : controllerSourceEmitter) (e : emission) : run unit :=
  match e with
  | SendSnapshot l => Snapshot f source_err l
  | SendEnd c k => EndSnapshot f source_err c k
  | SendChanges l c => EmitChanges f source_err l c
  | SendReset reason message => EmitReset f source_err reason message
  end.
Fixpoint run_source (f : controllerSourceEmitter) (p : source_program) : run unit :=
  match p with
  | Finish r => lift r
  | Emit e k =>
    r ← attempt (emission_step f e);
    run_source f (k (match r with Ok _ => None | Err e => Some e end))
  end.

(** *** The session *)

Definition operation_of (request : SourceOpenRequest) : string :=
  if bool_decide (so_Mode request = SourceModeSnapshotAndUpdates) then OperationSourceUpdates
  else if bool_decide (aq_Kind (so_Acquisition request) = SourceAcquisitionNativeQuery) then OperationNativeQuery
  else OperationEnumerate.

(** The callback of one page. A native query is dereferenced: validation has
    established that it is there. *)
Definition fetch (r : Registration ClientT) (client : option ClientT) (descriptor : ResourceType)
    (request : SourceOpenRequest) (size : Z) (cursor : option string) : run SourcePage :=
  if bool_decide (operation_of request = OperationEnumerate) then
    invoke OperationEnumerate (Admission.Enumerate r) client (mkEnumerateRequest (so_Target request) size cursor)
  else
    match aq_Query (so_Acquisition request) with
    | None => lift None
    | Some query =>
      let query := mkNativeQueryRequest (so_Target request) (aq_Language (so_Acquisition request)) query size cursor in
      lift (ValidateNativeQueryInput descriptor query) ≫= λ _,
      invoke OperationNativeQuery (Admission.NativeQuery r) client query
    end.

Definition snapshot_page (f : controllerSourceEmitter) (request : SourceOpenRequest) (page : SourcePage) : run unit :=
  lift (each (λ r, require (bool_decide (rec_Representation r = b_Representation (so_Binding request))) binding_changed)
          (pg_Records page)) ≫= λ _,
  if (length (pg_Records page) =? 0)%nat then mret tt
  else Snapshot f lease_err (map page_observation (pg_Records page)).

Definition page_round (f : controllerSourceEmitter) (r : Registration ClientT) (client : option ClientT)
    (request : SourceOpenRequest) (size : Z) (p : paging) : run round :=
  page ← fetch r client (fe_descriptor f) request size (pa_cursor p);
  fenced ← attempt (checkCatalog f);
  match fenced with
  | Err e => x ← own; if em_reset x then mret Stopped else lift (fails e)
  | Ok _ =>
    lift (checkPage page (fe_descriptor f) (fe_target f) size) ≫= λ _,
    let coverage := page_coverage p page in
    snapshot_page f request page ≫= λ _,
    match NextCursor page with
    | None => mret (LastPage coverage)
    | Some cursor =>
      if bool_decide (cursor ∈ pa_seen p) then lift (fails (provider_error "Source repeated a cursor."))
      else mret (NextPage (mkPaging (Some cursor) (cursor :: pa_seen p) coverage
             (page_revision (pa_pages p + 1) (pa_revision p) (pg_SourceRevision page)) (pa_pages p + 1)))
    end
  end.

(** The loop; [None] when the fuel runs out. *)
Fixpoint page_loop (fuel : nat) (f : controllerSourceEmitter) (r : Registration ClientT) (client : option ClientT)
    (request : SourceOpenRequest) (size : Z) (p : paging) : run (option unit) :=
  match fuel with
  | O => mret None
  | S fuel =>
    next ← page_round f r client request size p;
    match next with
    | Stopped => mret (Some tt)
    | LastPage coverage => EndSnapshot f lease_err coverage ContinuityNotApplicable ≫= λ _, mret (Some tt)
    | NextPage p => page_loop fuel f r client request size p
    end
  end.

Definition binds (descriptor : ResourceType) (request : SourceOpenRequest) : bool :=
  existsb (λ c, bool_decide (rp_ID c = rt_Representation (so_Target request))
                && bool_decide (c = b_Representation (so_Binding request))) (Representations descriptor).

(** The registration's own source, after which the catalog decides whether the
    binding changed underneath it. *)
Definition update_session (f : controllerSourceEmitter) (r : Registration ClientT) (client : option ClientT)
    (request : SourceOpenRequest) : run unit :=
  let target := so_Target request in
  let representation := match list_find (λ c, rp_ID c = rt_Representation target) (Representations (fe_descriptor f)) with
    | Some (_, c) => c
    | None => mkRepresentation "" "" (mkSchemaBinding "" None "" "" None None None)
    end in
  (λ s, (note (Called OperationSourceUpdates) s, Some (Ok tt))) ≫= λ _,
  returned ← attempt (run_source f (source r client (mkSourceRequest target representation (so_Limits request))));
  x ← own; lease ← lease_err; stream ← stream_err;
  if em_reset x then mret tt
  else if nonnil lease && negb (nonnil stream) then bindingReset
  else match returned with
       | Ok _ => attempt (checkCatalog f) ≫= λ _, mret tt
       | Err e => lift (fails e)
       end.

(** The session under its lease, once the registration is selected. *)
Definition serve (fuel : nat) (request : SourceOpenRequest) (client : option ClientT)
    (selected : Registration ClientT * ResourceType) : run (option unit) :=
  let target := so_Target request in
  lift (require (binds selected.2 request) binding_changed) ≫= λ _,
  let updates := bool_decide (operation_of request = OperationSourceUpdates) in
  let f := mkFenced (rt_Route target) selected.2 target (b_Representation (so_Binding request)) updates in
  t ← now;
  store (mkEmitter false (t + second) None) ≫= λ _,
  if updates then update_session f selected.1 client request ≫= λ _, mret (Some tt)
  else
    let size := Z.min (MaxBatchItems (so_Limits request)) maxPageRecords in
    page_loop fuel f selected.1 client request size first_page.

Definition OpenSource (fuel : nat) (request : SourceOpenRequest) (emitter : bool) : run (option unit) := guarded h (
  let target := so_Target request in
  lift (ValidateSourceOpenRequest request) ≫= λ _,
  lift (require emitter (NewError "INVALID_REQUEST" "Source emitter is required.")) ≫= λ _,
  leased h (rt_Route target) (λ client,
    resolved h (page_target target (operation_of request)) ≫= serve fuel request client)).
End session.

(** ** What left for the emitter *)

Definition sent (l : list (event session_event)) : list emission :=
  omap (λ ev, match ev with Sent (Emitted e) => Some e | _ => None end) l.

Lemma sent_app l k : sent (l ++ k) = sent l ++ sent k.
Proof. apply omap_app. Qed.

Section finite.
Context `{Protowire} {ClientT : Type} (h : host ClientT session_event).
Context (answer : list (event session_event) → emission → outcome unit).
Abbreviation run := (run ClientT session_event emitter_state).
Abbreviation St := (call_state ClientT session_event emitter_state).

Lemma attempt_ok {A} (m : run A) s s' r :
  attempt m s = (s', Some (Ok r)) ↔ m s = (s', Some r).
Proof.
  unfold attempt. destruct (m s) as [s1 [x|]]; split; try done; by intros [= -> ->].
Qed.

Lemma own_ok (s s' : St) x : own s = (s', Some (Ok x)) ↔ s' = s ∧ x = st_own s.
Proof. unfold own. split; [by intros [= <- <-]|by intros [-> ->]]. Qed.

Lemma send_ok e (s s' : St) u : send answer e s = (s', Some (Ok u)) → s' = note (Sent (Emitted e)) s.
Proof. unfold send. by intros [= <- _]. Qed.

(** A catalog check that passes only reads the catalog. *)
Lemma checkCatalog_ok f s s' u : checkCatalog h answer f s = (s', Some (Ok u)) → s' = note Fencing s.
Proof.
  unfold checkCatalog. intros Hc. apply run_bind_ok in Hc as (s1 & c & Hc & Hk).
  injection Hc as <- _. destruct (CheckCatalogRevisionForRoute _ _ _) as [[[]|e]|] eqn:E; [|case_match|].
  - by injection Hk as <- _.
  - done.
  - by apply run_bind_ok in Hk as (s2 & [] & _ & Hk).
  - done.
Qed.

(** Outside updates the fence of a passing emission does nothing. *)
Lemma fence_ok_finite clock f ctx s s' u : fe_updates f = false →
  fence h answer clock f ctx s = (s', Some (Ok u)) → (∀ s s' x, ctx s = (s', Some (Ok x)) → s' = s) → s' = s.
Proof.
  intros Hf Hr Hctx. unfold fence in Hr. apply run_bind_ok in Hr as (s1 & a & Ha & Hr). injection Ha as <- _.
  apply run_bind_ok in Hr as (s1 & b & Hb & Hr). injection Hb as <- _. destruct (nonnil a && negb (nonnil b)).
  - by apply run_bind_ok in Hr as (s2 & [] & _ & Hr).
  - rewrite Hf in Hr. cbn [negb] in Hr. apply run_bind_ok in Hr as (s1 & e & He & Hr). apply Hctx in He as ->.
    by injection Hr as <- _.
Qed.

Lemma lease_err_pure (s s' : St) x : lease_err h s = (s', Some (Ok x)) → s' = s.
Proof. by intros [= <- _]. Qed.

Lemma Snapshot_ok clock f l s s' u : fe_updates f = false →
  Snapshot h answer clock f (lease_err h) l s = (s', Some (Ok u)) →
  s' = note (Sent (Emitted (SendSnapshot l))) s ∧ Forall (λ o, check_observation f o = Some (Ok tt)) l.
Proof.
  intros Hf Hr. unfold Snapshot in Hr. apply run_bind_ok in Hr as (s1 & [] & Hfe & Hr).
  eapply fence_ok_finite in Hfe as ->; [|done|apply lease_err_pure].
  apply run_bind_ok in Hr as (s1 & [] & Hc & Hr). apply lift_ok in Hc as [-> Hc].
  apply send_ok in Hr as ->. split; [done|]. by apply each_ok.
Qed.

Lemma EndSnapshot_ok clock f c k s s' u : fe_updates f = false →
  EndSnapshot h answer clock f (lease_err h) c k s = (s', Some (Ok u)) → s' = note (Sent (Emitted (SendEnd c k))) s.
Proof.
  intros Hf Hr. unfold EndSnapshot in Hr. apply run_bind_ok in Hr as (s1 & [] & Hfe & Hr).
  eapply fence_ok_finite in Hfe as ->; [|done|apply lease_err_pure]. by apply send_ok in Hr.
Qed.
End finite.

(** ** The pages of a finite session *)

Section pages.
Context `{Protowire} {ClientT : Type}.

(** The callback answers a round with [page]. *)
Definition fetched (r : Registration ClientT) (client : option ClientT) (d : ResourceType)
    (request : SourceOpenRequest) (size : Z) (cursor : option string) (page : SourcePage) : Prop :=
  if bool_decide (operation_of request = OperationEnumerate) then
    ∃ f, Admission.Enumerate r = Some f
      ∧ f client (mkEnumerateRequest (so_Target request) size cursor) = Some (Ok page)
  else
    ∃ f query, Admission.NativeQuery r = Some f ∧ aq_Query (so_Acquisition request) = Some query
      ∧ let q := mkNativeQueryRequest (so_Target request) (aq_Language (so_Acquisition request)) query size cursor in
        ValidateNativeQueryInput d q = Some (Ok tt) ∧ f client q = Some (Ok page).

Definition page_bound (request : SourceOpenRequest) (page : SourcePage) : Prop :=
  Forall (λ r, rec_Representation r = b_Representation (so_Binding request)) (pg_Records page).
Definition page_accepted (d : ResourceType) (request : SourceOpenRequest) (size : Z) (page : SourcePage) : Prop :=
  checkPage page d (so_Target request) size = Some (Ok tt) ∧ page_bound request page.

Definition next_paging (p : paging) (page : SourcePage) (cursor : string) : paging :=
  mkPaging (Some cursor) (cursor :: pa_seen p) (page_coverage p page)
    (page_revision (pa_pages p + 1) (pa_revision p) (pg_SourceRevision page)) (pa_pages p + 1).

(** The pages from state [p] to the last one, each asked for with the cursor of
    the one before and no cursor used twice, and the coverage they add up to. *)
Inductive paged (r : Registration ClientT) client d request size : paging → list SourcePage → SourceCoverage → Prop :=
| paged_last p page :
    fetched r client d request size (pa_cursor p) page → page_accepted d request size page →
    NextCursor page = None → paged r client d request size p [page] (page_coverage p page)
| paged_more p page cursor pages c :
    fetched r client d request size (pa_cursor p) page → page_accepted d request size page →
    NextCursor page = Some cursor → cursor ∉ pa_seen p →
    paged r client d request size (next_paging p page cursor) pages c →
    paged r client d request size p (page :: pages) c.

(** One snapshot per page with records. *)
Definition batches (pages : list SourcePage) : list (list SourceObservation) :=
  map (λ p, map page_observation (pg_Records p)) (filter (λ p, pg_Records p ≠ []) pages).

Context (h : host ClientT session_event) (answer : list (event session_event) → emission → outcome unit)
  (clock : list (event session_event) → Z).
Abbreviation run := (run ClientT session_event emitter_state).
Abbreviation St := (call_state ClientT session_event emitter_state).

Lemma fetch_ok r client d request size cursor (s s' : St) page :
  fetch r client d request size cursor s = (s', Some (Ok page)) →
  fetched r client d request size cursor page ∧ sent (st_log s') = sent (st_log s) ∧ st_own s' = st_own s.
Proof.
  unfold fetch, fetched. case_bool_decide.
  - intros Hi. apply invoke_ok in Hi as [? ->]. split; [done|]. cbn [note st_log st_own].
    by rewrite sent_app, app_nil_r.
  - destruct (aq_Query _) as [query|]; [|by intros [=]]. intros Hi.
    apply run_bind_ok in Hi as (s1 & [] & Hv & Hi). apply lift_ok in Hv as [-> Hv].
    apply invoke_ok in Hi as [(f & ? & ?) ->]. cbn [note st_log st_own]. rewrite sent_app, app_nil_r.
    split; [|done]. by exists f, query.
Qed.

Lemma snapshot_page_ok f request page s s' u : fe_updates f = false →
  snapshot_page h answer clock f request page s = (s', Some (Ok u)) →
  Forall (λ r, rec_Representation r = b_Representation (so_Binding request)) (pg_Records page)
  ∧ sent (st_log s') = sent (st_log s) ++ map SendSnapshot (batches [page])
  ∧ st_own s' = st_own s
  ∧ Forall (Forall (λ o, check_observation f o = Some (Ok tt))) (batches [page]).
Proof.
  intros Hf Hr. unfold snapshot_page in Hr. apply run_bind_ok in Hr as (s1 & [] & Hb & Hr).
  apply lift_ok in Hb as [-> Hb]. rewrite each_ok in Hb. split.
  { eapply Forall_impl; [exact Hb|]. intros r. by rewrite require_ok, bool_decide_eq_true. }
  unfold batches. cbn [filter list_filter map]. destruct (pg_Records page) as [|r l] eqn:El.
  - injection Hr as <- _. rewrite decide_False by (intros Hn; by apply Hn). cbn. by rewrite app_nil_r.
  - rewrite decide_True by done. eapply Snapshot_ok in Hr as [-> Hc]; [|done]. cbn [note st_log st_own].
    rewrite sent_app. cbn [map]. rewrite El. split_and!; [done|done|]. by constructor.
Qed.

Lemma page_round_ok f r client request size p s s' next : fe_updates f = false → fe_target f = so_Target request →
  page_round h answer clock f r client request size p s = (s', Some (Ok next)) →
  (next = Stopped ∧ em_reset (st_own s') = true)
  ∨ ∃ page, fetched r client (fe_descriptor f) request size (pa_cursor p) page
    ∧ page_accepted (fe_descriptor f) request size page
    ∧ sent (st_log s') = sent (st_log s) ++ map SendSnapshot (batches [page]) ∧ st_own s' = st_own s
    ∧ Forall (Forall (λ o, check_observation f o = Some (Ok tt))) (batches [page])
    ∧ match NextCursor page with
      | None => next = LastPage (page_coverage p page)
      | Some c => c ∉ pa_seen p ∧ next = NextPage (next_paging p page c)
      end.
Proof.
  intros Hf Ht Hr. unfold page_round in Hr. apply run_bind_ok in Hr as (s1 & page & Hp & Hr).
  apply fetch_ok in Hp as (Hp & Hs1 & Ho1). apply run_bind_ok in Hr as (s2 & fenced & Hc & Hr).
  rewrite attempt_ok in Hc. destruct fenced as [[]|e].
  - apply checkCatalog_ok in Hc as ->. apply run_bind_ok in Hr as (s3 & [] & Hk & Hr).
    apply lift_ok in Hk as [-> Hk]. apply run_bind_ok in Hr as (s3 & [] & Hs & Hr).
    eapply snapshot_page_ok in Hs as (Hb & Hs & Ho & Hch); [|done]. cbn [note st_log st_own] in Hs, Ho.
    rewrite sent_app, app_nil_r, Hs1 in Hs. rewrite Ho1 in Ho. right. exists page. rewrite Ht in Hk.
    split; [done|]. split; [by split|]. destruct (NextCursor page) as [c|].
    + case_bool_decide; [done|]. injection Hr as <- <-. done.
    + injection Hr as <- <-. done.
  - apply run_bind_ok in Hr as (s3 & x & Ho & Hr). apply own_ok in Ho as [-> ->].
    destruct (em_reset (st_own s2)) eqn:Er; [|done]. injection Hr as <- <-. by left.
Qed.

Lemma batches_cons page pages : batches (page :: pages) = batches [page] ++ batches pages.
Proof. unfold batches. cbn [filter list_filter]. destruct (decide _); done. Qed.

Lemma page_loop_ok fuel f r client request size : fe_updates f = false → fe_target f = so_Target request →
  ∀ p s s', page_loop h answer clock fuel f r client request size p s = (s', Some (Ok (Some tt))) →
  em_reset (st_own s') = true
  ∨ ∃ pages c, paged r client (fe_descriptor f) request size p pages c
    ∧ sent (st_log s') = sent (st_log s) ++ map SendSnapshot (batches pages) ++ [SendEnd c ContinuityNotApplicable]
    ∧ Forall (Forall (λ o, check_observation f o = Some (Ok tt))) (batches pages).
Proof.
  intros Hf Ht. induction fuel as [|fuel IH]; intros p s s' Hr; cbn [page_loop] in Hr; [done|].
  apply run_bind_ok in Hr as (s1 & next & Hn & Hr).
  apply page_round_ok in Hn; [|done|done].
  destruct Hn as [[-> Hre]|(page & Hp & Ha & Hs & Ho & Hch & Hnext)].
  { injection Hr as <-. by left. }
  destruct (NextCursor page) as [cursor|] eqn:En.
  - destruct Hnext as [Hfresh ->]. apply IH in Hr as [?|(pages & c & Hpg & Hs' & Hch')]; [by left|]. right.
    exists (page :: pages), c. rewrite batches_cons, map_app, Hs', Hs, <- !app_assoc.
    split_and!; [by eapply paged_more|done|by apply Forall_app].
  - subst next. apply run_bind_ok in Hr as (s2 & [] & He & Hr). eapply EndSnapshot_ok in He as ->; [|done].
    injection Hr as <-. right. exists [page], (page_coverage p page).
    cbn [note st_log]. rewrite sent_app, Hs, <- app_assoc. split_and!; [by apply paged_last|done|done].
Qed.
End pages.

(** ** A finite session is a protocol session *)

(** The frames a transport makes of emissions, numbered from [n + 1]. *)
Definition frame_of (request : SourceOpenRequest) (n : Z) (e : emission) : SourceFrame :=
  let f b s d c r := mkFrame (so_SessionID request) (so_Generation request) n b s d c r None in
  match e with
  | SendSnapshot l => f None (Some (mkSnapshot l)) None None None
  | SendEnd c k => f None None (Some (mkSnapshotEnd c k)) None None
  | SendChanges l c => f None None None (Some (mkChanges l c)) None
  | SendReset reason message => f None None None None (Some (mkReset reason message))
  end.
Definition begin_frame (request : SourceOpenRequest) : SourceFrame :=
  mkFrame (so_SessionID request) (so_Generation request) 1 (Some (mkBegin (so_Mode request))) None None None None None.
Definition session_frames (request : SourceOpenRequest) (es : list emission) : list SourceFrame :=
  begin_frame request :: imap (λ i e, frame_of request (Z.of_nat i + 2) e) es.

Section refinement.
Context `{ProtowireLaws} {ClientT : Type}.

Lemma coverage_reason_utf8 c : validateCoverage c = Some (Ok tt) → utf8_valid_string (cv_Reason c) = true.
Proof.
  unfold validateCoverage. rewrite outcome_seq_ok. intros [Ha _]. apply admission_clean in Ha.
  inversion Ha as [| | | | | | |fs Hf| | |]; subst.
  rewrite !Forall_cons in Hf. destruct Hf as (_ & _ & [Hd|Hs] & _); [done|].
  by inversion Hs.
Qed.

(** *** Coverage of the whole session *)

Definition reason_fits (page : SourcePage) : Prop := slen (cv_Reason (pg_Coverage page)) ≤ 64 * 2 ^ 10.
Definition limitation_ok (s : string) : bool :=
  negb ((slen s =? 0) || (64 * 2 ^ 10 <? slen s) || negb (utf8_valid_string s)).

Lemma page_limitations_ok l reason :
  (length l ≤ MaxSourceLimitations)%nat → Forall (λ s, limitation_ok s = true) l →
  slen reason ≤ 64 * 2 ^ 10 → utf8_valid_string reason = true →
  (length (page_limitations l reason) ≤ MaxSourceLimitations)%nat
  ∧ Forall (λ s, limitation_ok s = true) (page_limitations l reason).
Proof.
  intros Hn Hl Hs Hu. unfold page_limitations. case_bool_decide as He; [by split|]. cbn [negb].
  destruct (negb _ && _) eqn:Eb; [|by split]. apply andb_true_iff in Eb as [_ Eb]. apply Nat.ltb_lt in Eb.
  rewrite length_app. split; [cbn [length]; lia|]. apply Forall_app. split; [done|].
  constructor; [|done]. unfold limitation_ok. rewrite Hu, orb_false_r, negb_true_iff, orb_false_iff, Z.ltb_ge.
  split; [|done]. apply Z.eqb_neq. by rewrite slen_zero.
Qed.

Lemma page_enumeration_known e kind : known_enumeration e = true → known_enumeration (page_enumeration e kind) = true.
Proof. intros He. unfold page_enumeration. repeat case_match; done. Qed.

Lemma page_consistency_known c n r page : known_consistency c = true → known_consistency (page_consistency c n r page) = true.
Proof. intros Hc. unfold page_consistency. case_bool_decide; destruct (_ || _); done. Qed.

Lemma page_coverage_valid p page : sourceCoverageValid (pa_coverage p) = true → reason_fits page →
  utf8_valid_string (cv_Reason (pg_Coverage page)) = true → sourceCoverageValid (page_coverage p page) = true.
Proof.
  unfold sourceCoverageValid. rewrite !andb_true_iff, !Nat.leb_le, !forallb_elem. intros [[[He Hc] Hn] Hl] Hf Hu.
  destruct (page_limitations_ok (sc_Limitations (pa_coverage p)) (cv_Reason (pg_Coverage page))) as [Hn' Hl']; try done.
  { by apply Forall_forall. }
  split_and!; [by apply page_enumeration_known|by apply page_consistency_known|done|].
  by apply Forall_forall.
Qed.

Lemma page_accepted_coverage d request size page : page_accepted d request size page →
  validateCoverage (pg_Coverage page) = Some (Ok tt)
  ∧ Z.of_nat (length (pg_Records page)) ≤ maxPageRecords
  ∧ (size = 0 ∨ Z.of_nat (length (pg_Records page)) ≤ size).
Proof.
  intros [Hk _]. unfold checkPage in Hk. rewrite !outcome_seq_ok, require_ok in Hk. destruct Hk as (Hv & Hs & _).
  apply ValidateSourcePage_inv in Hv as (Hn & _ & _ & _ & _ & _ & _ & _ & _ & Hc & _).
  split_and!; [done|done|]. rewrite negb_true_iff, andb_false_iff, negb_false_iff, Z.eqb_eq, Z.ltb_ge in Hs. done.
Qed.

Lemma coverage_kind c : validateCoverage c = Some (Ok tt) →
  cv_Kind c = "complete" ∨ cv_Kind c = "partial" ∨ cv_Kind c = "unknown".
Proof.
  unfold validateCoverage. rewrite outcome_seq_ok. intros [_ Hc]. case_bool_decide; [auto|].
  destruct (_ || _) eqn:E; [|done]. apply orb_true_iff in E as [E|E]; apply bool_decide_eq_true in E; auto.
Qed.

Section coverage.
Context (r : Registration ClientT) (client : option ClientT) (d : ResourceType) (request : SourceOpenRequest) (size : Z).
Abbreviation paged := (paged r client d request size).

Lemma paged_accepted p pages c : paged p pages c → Forall (page_accepted d request size) pages.
Proof. induction 1; by constructor. Qed.

Lemma paged_valid p pages c : paged p pages c → Forall reason_fits pages →
  sourceCoverageValid (pa_coverage p) = true → sourceCoverageValid c = true.
Proof.
  induction 1 as [p page _ Ha _|p page cursor pages c _ Ha _ _ _ IH]; intros Hf Hp;
    apply page_accepted_coverage in Ha as (Hc & _).
  - apply Forall_cons in Hf as [Hf _].
    apply page_coverage_valid; [done..|]. by apply coverage_reason_utf8.
  - apply Forall_cons in Hf as [Hf Hfs].
    apply IH; [done|]. apply page_coverage_valid; [done..|]. by apply coverage_reason_utf8.
Qed.

Lemma page_enumeration_exhausted e kind : page_enumeration e kind = EnumerationExhausted →
  e = EnumerationExhausted ∧ kind ≠ "unknown" ∧ kind ≠ "partial".
Proof.
  unfold page_enumeration. case_bool_decide; [done|]. case_bool_decide as Hp; cbn [andb].
  - case_bool_decide as He; [|done]. cbn [negb]. intros ->. done.
  - intros ->. done.
Qed.

Definition complete_page (page : SourcePage) : Prop := cv_Kind (pg_Coverage page) = "complete".

Lemma paged_exhausted p pages c : paged p pages c → sc_Enumeration c = EnumerationExhausted →
  sc_Enumeration (pa_coverage p) = EnumerationExhausted ∧ Forall complete_page pages.
Proof.
  assert (Hone : ∀ page, page_accepted d request size page → cv_Kind (pg_Coverage page) ≠ "unknown" →
    cv_Kind (pg_Coverage page) ≠ "partial" → complete_page page).
  { intros page (Hc & _)%page_accepted_coverage ? ?. by apply coverage_kind in Hc as [?|[?|?]]. }
  induction 1 as [p page _ Ha _|p page cursor pages c _ Ha _ _ _ IH]; intros He.
  - apply page_enumeration_exhausted in He as (? & ? & ?). split; [done|]. by repeat constructor; apply Hone.
  - destruct (IH He) as [Hp Hl].
    apply page_enumeration_exhausted in Hp as (? & ? & ?). split; [done|]. by constructor; [apply Hone|].
Qed.

Lemma page_consistency_point c n rev page : page_consistency c n rev page = ConsistencyPointInTime →
  c = ConsistencyPointInTime ∧ Consistency page = ConsistencyPointInTime
  ∧ (n = 1 ∨ ∃ x, rev = Some x ∧ pg_SourceRevision page = Some x).
Proof.
  unfold page_consistency. destruct ((n =? 1) || same_revision rev (pg_SourceRevision page)) eqn:E; [|done].
  case_bool_decide; [|done]. intros ->. split_and!; [done..|]. apply orb_true_iff in E as [E|E].
  - left. by apply Z.eqb_eq.
  - right. unfold same_revision in E. destruct rev, (pg_SourceRevision page); try done.
    apply bool_decide_eq_true in E as ->. eauto.
Qed.

(** Pages taken at one instant: each says so, and more than one carry the same
    source revision. *)
Definition one_instant (pages : list SourcePage) : Prop :=
  Forall (λ page, Consistency page = ConsistencyPointInTime) pages
  ∧ ((2 ≤ length pages)%nat → ∃ x, Forall (λ page, pg_SourceRevision page = Some x) pages).

Lemma paged_later p pages c : paged p pages c → 1 ≤ pa_pages p → sc_Consistency c = ConsistencyPointInTime →
  sc_Consistency (pa_coverage p) = ConsistencyPointInTime
  ∧ Forall (λ page, Consistency page = ConsistencyPointInTime) pages
  ∧ ∃ x, pa_revision p = Some x ∧ Forall (λ page, pg_SourceRevision page = Some x) pages.
Proof.
  induction 1 as [p page _ _ _|p page cursor pages c _ _ _ _ _ IH]; intros Hn Hc.
  - apply page_consistency_point in Hc as (? & ? & [?|(x & ? & ?)]); [lia|].
    split_and!; [done|by constructor|]. exists x. split; [done|by constructor].
  - destruct IH as (Hp & Hl & x & Hx & Hr); [cbn; lia|done|].
    apply page_consistency_point in Hp as (? & ? & [?|(y & Hy & ?)]); [lia|].
    cbn [next_paging pa_revision] in Hx. unfold page_revision in Hx. rewrite (proj2 (Z.eqb_neq _ _)) in Hx by lia.
    rewrite Hx in Hy. injection Hy as <-.
    split_and!; [done|by constructor|]. exists x. split; [done|by constructor].
Qed.

Lemma paged_instant pages c : paged first_page pages c → sc_Consistency c = ConsistencyPointInTime → one_instant pages.
Proof.
  intros Hp Hc. inversion Hp as [p page|p page cursor pages' c' Hf Ha Hn Hs Hl]; subst.
  - apply page_consistency_point in Hc as (_ & ? & _). split; [by constructor|]. cbn. lia.
  - apply paged_later in Hl as (Hp' & Hl & x & Hx & Hr); [|by cbn|done].
    apply page_consistency_point in Hp' as (_ & ? & _). split; [by constructor|]. intros _.
    exists x. constructor; [exact Hx|done].
Qed.
End coverage.

(** *** The frames pass the tracker *)

Section frames.
Context (proto_size : SourceFrame → Z).

Lemma admit_all_phase l : ∀ t u, admit_all proto_size t l = Some u →
  run_kinds (updates_of t) (tk_phase t) (frame_kinds l) = Some (tk_phase u).
Proof.
  induction l as [|[f size] l IH]; intros t u Hu; cbn [admit_all] in Hu; [by injection Hu as ->|].
  change (frame_kinds ((f, size) :: l)) with (kinds_of f ++ frame_kinds l).
  destruct (admit_frame proto_size t f size) as [t' [[[]|]|]] eqn:Ea; [|done..].
  destruct (admit_ok proto_size t f size) as (k & q & (_ & Hk & Hnk & _) & Ha); [rewrite Ea; eauto|].
  rewrite Ea in Ha. injection Ha as ->. cbn [fst] in Hk. rewrite Hk. cbn [app run_kinds]. rewrite Hnk.
  apply IH in Hu. exact Hu.
Qed.

Definition snapshot_emissions (bs : list (list SourceObservation)) (c : SourceCoverage) : list emission :=
  map SendSnapshot bs ++ [SendEnd c ContinuityNotApplicable].

Definition emission_kind (e : emission) : frame_kind :=
  match e with SendSnapshot _ => KSnapshot | SendEnd _ _ => KEnd | SendChanges _ _ => KChanges | SendReset _ _ => KReset end.

Lemma kinds_of_frame request n e : kinds_of (frame_of request n e) = [emission_kind e].
Proof. by destruct e. Qed.

Lemma session_frames_kinds request es :
  mjoin (kinds_of <$> session_frames request es) = KBegin :: map emission_kind es.
Proof.
  unfold session_frames. cbn [fmap list_fmap mjoin list_join]. change (kinds_of (begin_frame request)) with [KBegin].
  cbn [app]. f_equal. generalize 2. induction es as [|e es IH]; intros n; [done|].
  cbn [imap fmap list_fmap mjoin list_join map]. rewrite kinds_of_frame. cbn [app]. f_equal.
  rewrite <- (IH (n + 1)). f_equal. f_equal. apply imap_ext. intros i x _. unfold compose. f_equal. lia.
Qed.

Lemma session_frames_numbered request es : Z.of_nat (length es) + 1 ≤ max_uint64 → numbered 0 (session_frames request es).
Proof.
  intros Hl [|i] f Hf; cbn [session_frames lookup list_lookup] in Hf; [injection Hf as <-; cbn; unfold max_uint64; lia|].
  apply list_lookup_imap_Some in Hf as (e & He & ->). apply lookup_lt_Some in He.
  assert (Sequence (frame_of request (Z.of_nat i + 2) e) = Z.of_nat i + 2) as -> by (by destruct e). lia.
Qed.

(** What a batch of a catalog-bound snapshot session has to satisfy. *)
Definition batch_ok (t : SourcePhaseTracker) (l : list SourceObservation) : Prop :=
  within_batch t l = true ∧ Forall (observation_ok t) l.

(** What may close a catalog-bound snapshot session. *)
Definition closing_ok (e : emission) : Prop :=
  match e with
  | SendEnd c k => sourceCoverageValid c = true ∧ k = ContinuityNotApplicable
  | SendReset reason message => known_reset_reason reason = true ∧ message_ok message
  | SendSnapshot _ | SendChanges _ _ => False
  end.

Lemma finite_kinds (n : nat) tail : (length tail ≤ 1)%nat → Forall closing_ok tail →
  ∃ q, run_kinds false Opening (KBegin :: replicate n KSnapshot ++ map emission_kind tail) = Some q.
Proof.
  intros Hn Ht. destruct tail as [|e [|]]; [| |cbn in Hn; lia].
  - exists InSnapshot. apply session_run. cbn [map]. rewrite app_nil_r. constructor.
  - apply Forall_cons in Ht as [He _]. exists Terminal. apply session_run.
    destruct e; try done; [by apply session_complete|apply session_cut; by left].
Qed.

(** The payload of a closing or snapshot emission passes the tracker's own rules. *)
Lemma emission_payload request d n e :
  let t := NewCatalogBoundSourcePhaseTracker request d in
  so_Mode request = SourceModeSnapshot →
  (∃ l, e = SendSnapshot l ∧ batch_ok t l) ∨ closing_ok e → payload_ok t (frame_of request n e).
Proof.
  intros t Hm He. unfold payload_ok. destruct He as [(l & -> & Hl)|He].
  - split_and!; try done. intros s [= <-]. exact Hl.
  - destruct e as [| | |reason message]; try done; split_and!; try done.
    + intros x [= <-]. destruct He as [Hc ->]. cbn [se_Coverage se_Continuity].
      split; [done|]. unfold wants_updates. cbn [tk_request t NewCatalogBoundSourcePhaseTracker]. by rewrite Hm.
    + intros r [= <-]. exact He.
Qed.

Lemma finite_session_accepted request d bs tail sizes :
  let t := NewCatalogBoundSourcePhaseTracker request d in
  let fs := session_frames request (map SendSnapshot bs ++ tail) in
  so_Mode request = SourceModeSnapshot → Forall (batch_ok t) bs → (length tail ≤ 1)%nat → Forall closing_ok tail →
  length sizes = length fs → Forall (λ n, 0 ≤ n ≤ MaxFrameBytes (so_Limits request)) sizes →
  Z.of_nat (length fs) ≤ max_uint64 →
  ∃ u, admit_all proto_size t (zip fs sizes) = Some u.
Proof.
  intros t fs Hm Hb Hn Ht Hlen Hs Hmax.
  assert (Hfst : frames (zip fs sizes) = fs) by (unfold frames; apply fst_zip; lia).
  assert (Hu : updates_of t = false) by (unfold updates_of, wants_updates; cbn; by rewrite Hm).
  assert (Hks : frame_kinds (zip fs sizes) = KBegin :: replicate (length bs) KSnapshot ++ map emission_kind tail).
  { unfold frame_kinds. rewrite Hfst. unfold fs. rewrite session_frames_kinds. f_equal.
    rewrite map_app, map_map. f_equal. clear. induction bs; cbn; f_equal; done. }
  apply (admit_all_ok proto_size (zip fs sizes) t 0 eq_refl eq_refl ltac:(done)). split.
  { rewrite Hu, Hks. by apply finite_kinds. }
  rewrite Hfst. split_and!.
  - apply Forall_forall. intros [f n] Hin. apply elem_of_zip_l in Hin. cbn [fst].
    apply elem_of_cons in Hin as [->|Hin]; [done|]. apply elem_of_lookup_imap in Hin as (i & e & -> & _).
    by rewrite kinds_of_frame.
  - apply Forall_forall. intros [f n] Hin. pose proof (elem_of_zip_r _ _ _ _ Hin) as Hsz.
    apply elem_of_zip_l in Hin. rewrite Forall_forall in Hs. specialize (Hs n Hsz).
    assert (Hsize : ∃ m, frame_size proto_size f n = Some (Ok m) ∧ m ≤ MaxFrameBytes (so_Limits request)).
    { exists n. unfold frame_size. rewrite (proj2 (Z.ltb_ge n 0)) by lia. split; [done|lia]. }
    unfold frame_ok. cbn [fst snd].
    apply elem_of_cons in Hin as [->|Hin]; [by unfold payload_ok; split_and!; try done; intros ? [= <-]|].
    apply elem_of_lookup_imap in Hin as (i & e & -> & He). apply list_elem_of_lookup_2 in He.
    split_and!; [by destruct e..| |done]. apply emission_payload; [done|].
    apply elem_of_app in He as [He|He].
    + left. apply list_elem_of_In, in_map_iff in He as (l & <- & Hl). apply list_elem_of_In in Hl.
      exists l. split; [done|]. rewrite Forall_forall in Hb. by apply Hb.
    + right. rewrite Forall_forall in Ht. by apply Ht.
  - apply session_frames_numbered. unfold fs, session_frames in Hmax. cbn [length] in Hmax.
    rewrite length_imap in Hmax. lia.
Qed.

Lemma snapshot_session_accepted request d bs c sizes :
  let t := NewCatalogBoundSourcePhaseTracker request d in
  let fs := session_frames request (snapshot_emissions bs c) in
  so_Mode request = SourceModeSnapshot → Forall (batch_ok t) bs → sourceCoverageValid c = true →
  length sizes = length fs → Forall (λ n, 0 ≤ n ≤ MaxFrameBytes (so_Limits request)) sizes →
  Z.of_nat (length fs) ≤ max_uint64 →
  ∃ u, admit_all proto_size t (zip fs sizes) = Some u ∧ tk_phase u = Terminal.
Proof.
  intros t fs Hm Hb Hc Hlen Hs Hmax.
  destruct (finite_session_accepted request d bs [SendEnd c ContinuityNotApplicable] sizes) as [u Hu]; try done.
  { by constructor. }
  exists u. split; [exact Hu|]. apply admit_all_phase in Hu.
  assert (Hks : frame_kinds (zip fs sizes) = KBegin :: map emission_kind (snapshot_emissions bs c)).
  { unfold frame_kinds, frames. rewrite fst_zip by lia. apply session_frames_kinds. }
  change (frame_kinds (zip fs sizes)) with (frame_kinds (zip (session_frames request (snapshot_emissions bs c)) sizes)) in Hks.
  change (map SendSnapshot bs ++ [SendEnd c ContinuityNotApplicable]) with (snapshot_emissions bs c) in Hu.
  rewrite Hks in Hu. unfold snapshot_emissions in Hu. rewrite map_app, map_map in Hu.
  replace (map (λ x, emission_kind (SendSnapshot x)) bs) with (replicate (length bs) KSnapshot) in Hu
    by (clear; induction bs; cbn; f_equal; done).
  replace (updates_of (NewCatalogBoundSourcePhaseTracker request d)) with false in Hu
    by (unfold updates_of, wants_updates; cbn; by rewrite Hm).
  pose proof (proj1 (session_run _ _ _) (session_complete false (length bs) eq_refl)) as Hr. cbn in Hr, Hu.
  rewrite Hr in Hu. by injection Hu as <-.
Qed.
End frames.

(** *** What a finished snapshot session did *)

Context (h : host ClientT session_event) (answer : list (event session_event) → emission → outcome unit)
  (clock : list (event session_event) → Z)
  (source : Registration ClientT → option ClientT → SourceRequest → source_program).

Lemma check_observation_tracker request d o f :
  fe_descriptor f = d → fe_target f = so_Target request → fe_binding f = b_Representation (so_Binding request) →
  check_observation f o = Some (Ok tt) → observation_ok (NewCatalogBoundSourcePhaseTracker request d) o.
Proof.
  intros <- Ht Hb. unfold check_observation, observation_ok, checkObservation.
  rewrite !outcome_seq_ok, !require_ok, bool_decide_eq_true. intros [Hr Hc].
  cbn [tk_request tk_descriptor NewCatalogBoundSourcePhaseTracker]. rewrite <- Hb, <- Ht. split; [|exact Hc].
  unfold same_binding. rewrite Hr. cbn [representation_ref ref_ID ref_Revision ref_SchemaRevision].
  rewrite !bool_decide_eq_true_2 by done. destruct (sb_Revision _); [|done]. cbn. by apply bool_decide_eq_true_2.
Qed.

Lemma batches_within t d request size pages :
  tk_request t = request → MaxBatchItems (so_Limits request) ≠ 0 →
  size = Z.min (MaxBatchItems (so_Limits request)) maxPageRecords →
  Forall (page_accepted d request size) pages → Forall (λ l, within_batch t l = true) (batches pages).
Proof.
  intros <- Hz -> Hp. unfold batches. apply Forall_fmap, Forall_forall. intros page Hin.
  apply list_elem_of_filter in Hin as [_ Hin]. rewrite Forall_forall in Hp.
  apply Hp, page_accepted_coverage in Hin as (_ & Hn & Hs). unfold within_batch, compose. rewrite length_map.
  apply Z.leb_le. unfold maxPageRecords in *. lia.
Qed.

Lemma opened_limits request : ValidateSourceOpenRequest request = Some (Ok tt) → MaxBatchItems (so_Limits request) ≠ 0.
Proof.
  unfold ValidateSourceOpenRequest, validateSourceLimits. rewrite !outcome_seq_ok, !require_ok.
  intros (_ & _ & _ & _ & _ & Hl & _). rewrite negb_true_iff, !orb_false_iff, Z.eqb_neq in Hl. tauto.
Qed.

Lemma snapshot_operation request : so_Mode request = SourceModeSnapshot → operation_of request ≠ OperationSourceUpdates.
Proof. unfold operation_of. intros ->. rewrite bool_decide_eq_false_2 by done. by case_bool_decide. Qed.

(** The paging loop inside a session that returned nil. *)
Lemma OpenSource_finite fuel request emitter x s :
  OpenSource h answer clock source fuel request emitter (fresh x) = (s, Some (Ok (Some tt))) →
  so_Mode request = SourceModeSnapshot →
  ∃ r d client f s0 s1,
    ValidateSourceOpenRequest request = Some (Ok tt)
    ∧ resolve (h_admission h) (h_catalog h [Leased; Resolving]) (h_registrations h [Leased; Resolving])
        (page_target (so_Target request) (operation_of request)) = Some (Ok (r, d))
    ∧ fe_updates f = false ∧ fe_descriptor f = d ∧ fe_target f = so_Target request
    ∧ fe_binding f = b_Representation (so_Binding request)
    ∧ page_loop h answer clock fuel f r client request
        (Z.min (MaxBatchItems (so_Limits request)) maxPageRecords) first_page s0 = (s1, Some (Ok (Some tt)))
    ∧ sent (st_log s0) = [] ∧ sent (st_log s) = sent (st_log s1) ∧ st_own s = st_own s1.
Proof.
  unfold OpenSource. rewrite guarded_ok. intros Hr Hm. apply run_bind_ok in Hr as (s1 & [] & Hv & Hr).
  apply lift_ok in Hv as [-> Hv]. apply run_bind_ok in Hr as (s1 & [] & He & Hr). apply lift_ok in He as [-> _].
  apply leased_ok in Hr as (client & s2 & _ & Hr & ->). apply run_bind_ok in Hr as (s3 & [r d] & Hs & Hr).
  apply resolved_ok in Hs as [Hs ->]. unfold serve in Hr. apply run_bind_ok in Hr as (s3 & [] & Hb & Hr).
  apply lift_ok in Hb as [-> _]. apply run_bind_ok in Hr as (s3 & t & Ht & Hr). injection Ht as <- _.
  apply run_bind_ok in Hr as (s3 & [] & Ho & Hr). injection Ho as <-.
  rewrite bool_decide_eq_false_2 in Hr by (by apply snapshot_operation).
  eexists r, d, client, _, _, s2. split_and!; [exact Hv|exact Hs| | | | |exact Hr|..]; try done.
  cbn [note st_log]. by rewrite sent_app, app_nil_r.
Qed.

(** C3: A finite source session that returns nil, unless a changed binding reset it,
    has implemented the session protocol out of the registration's callback: it
    asked that callback for page after page, each with the cursor of the one
    before, never the same cursor twice, until one had none; it emitted one
    snapshot per nonempty page and then one end whose coverage claims exhaustion
    only when every page was complete, and one instant only when every page was
    taken at one instant under one source revision; and the frames made of these
    emissions are accepted, begin first, by the catalog-bound tracker of the
    same request, which they bring to its terminal phase, provided they fit the
    frame limit and the limitations the pages report fit theirs. *)
Theorem OpenSource_protocol proto_size fuel request emitter x s :
  OpenSource h answer clock source fuel request emitter (fresh x) = (s, Some (Ok (Some tt))) →
  so_Mode request = SourceModeSnapshot → em_reset (st_own s) = false →
  ∃ r d client pages c,
    resolve (h_admission h) (h_catalog h [Leased; Resolving]) (h_registrations h [Leased; Resolving])
      (page_target (so_Target request) (operation_of request)) = Some (Ok (r, d))
    ∧ paged r client d request (Z.min (MaxBatchItems (so_Limits request)) maxPageRecords) first_page pages c
    ∧ sent (st_log s) = snapshot_emissions (batches pages) c
    ∧ (sc_Enumeration c = EnumerationExhausted → Forall complete_page pages)
    ∧ (sc_Consistency c = ConsistencyPointInTime → one_instant pages)
    ∧ ∀ sizes, let fs := session_frames request (sent (st_log s)) in
        Forall reason_fits pages → length sizes = length fs → Z.of_nat (length fs) ≤ max_uint64 →
        Forall (λ n, 0 ≤ n ≤ MaxFrameBytes (so_Limits request)) sizes →
        ∃ u, admit_all proto_size (NewCatalogBoundSourcePhaseTracker request d) (zip fs sizes) = Some u
             ∧ tk_phase u = Terminal.
Proof.
  intros Hr Hm Hre. apply OpenSource_finite in Hr as (r & d & client & f & s0 & s1 & Hv & Hs & Hf & Hd & Ht & Hb & Hl & Hs0 & Hs1 & Ho);
    [|done]. rewrite Ho in Hre. apply page_loop_ok in Hl as [?|(pages & c & Hp & Hsent & Hch)]; [congruence| |done..].
  rewrite Hd in Hp. rewrite Hs0 in Hsent. cbn [app] in Hsent. rewrite <- Hs1 in Hsent.
  exists r, d, client, pages, c. split_and!; [done..| | |].
  - intros Hc. by apply (paged_exhausted _ _ _ _ _ _ _ _ Hp) in Hc as [_ ?].
  - by apply (paged_instant _ _ _ _ _ _ _ Hp).
  - intros sizes fs Hfit Hlen Hmax Hsz. unfold fs in *. rewrite Hsent in *. apply snapshot_session_accepted; try done.
    + assert (Hw : Forall (λ l, within_batch (NewCatalogBoundSourcePhaseTracker request d) l = true) (batches pages)).
      { eapply batches_within; [done|by apply opened_limits|done|]. by eapply paged_accepted. }
      apply Forall_forall. intros l Hin. split; [by rewrite Forall_forall in Hw; apply Hw|].
      rewrite Forall_forall in Hch. eapply Forall_impl; [by apply Hch|]. intros o. by apply check_observation_tracker.
    + eapply paged_valid; [exact Hp|done|done].
Qed.
End refinement.

(** ** Nothing unchecked leaves *)

Section safety.
Context `{Protowire} {ClientT : Type} (h : host ClientT session_event).
Context (answer : list (event session_event) → emission → outcome unit) (clock : list (event session_event) → Z)
  (source : Registration ClientT → option ClientT → SourceRequest → source_program).
Abbreviation run := (run ClientT session_event emitter_state).
Abbreviation St := (call_state ClientT session_event emitter_state).

(** The tracker's checks of the single observations and changes of an emission;
    what a source says in an end or a reset is for the tracker behind the emitter. *)
Definition items_ok (t : SourcePhaseTracker) (e : emission) : Prop :=
  match e with
  | SendSnapshot l => Forall (observation_ok t) l
  | SendChanges l _ => Forall (change_ok t) l
  | SendEnd _ _ | SendReset _ _ => True
  end.

Context (P : emission → Prop).
Hypothesis reset_ok : ∀ reason message, P (SendReset reason message).
Hypothesis end_ok : ∀ c k, P (SendEnd c k).

(** A run adds only good emissions to the log, and no lease of its own. *)
Definition good (ev : event session_event) : Prop :=
  match ev with
  | Sent (Emitted e) => P e
  | Leased | LeaseRefused | Released => False
  | _ => True
  end.
Definition keeps {A} (m : run A) : Prop := ∀ s, ∃ l, st_log (m s).1 = st_log s ++ l ∧ Forall good l.

Lemma keeps_bind {A B} (m : run A) (k : A → run B) : keeps m → (∀ a, keeps (k a)) → keeps (m ≫= k).
Proof.
  intros Hm Hk s. destruct (Hm s) as (l & Hl & Hg). unfold mbind, run_bind.
  destruct (m s) as [s1 [[a|e]|]]; cbn [fst] in *; [|by exists l..].
  destruct (Hk a s1) as (l' & Hl' & Hg'). exists (l ++ l'). rewrite Hl', Hl, app_assoc. split; [done|by apply Forall_app].
Qed.
(** Runs that leave the log alone, or add one event that is not an emission. *)
Lemma keeps_silent {A} (m : run A) : (∀ s, st_log (m s).1 = st_log s) → keeps m.
Proof. intros Hm s. exists []. by rewrite Hm, app_nil_r. Qed.
Lemma keeps_event {A} (m : run A) ev : good ev → (∀ s, st_log (m s).1 = st_log s ++ [ev]) → keeps m.
Proof. intros He Hm s. exists [ev]. rewrite Hm. split; [done|by constructor]. Qed.
Lemma keeps_attempt {A} (m : run A) : keeps m → keeps (attempt m).
Proof. intros Hm s. specialize (Hm s). unfold attempt. by destruct (m s) as [s1 [r|]]. Qed.
Lemma keeps_lift_then {A B} (r : outcome A) (k : A → run B) : (∀ a, r = Some (Ok a) → keeps (k a)) → keeps (lift r ≫= k).
Proof.
  intros Hk s. unfold mbind, run_bind, lift. destruct r as [[a|e]|]; [by apply Hk|by exists []; rewrite app_nil_r..].
Qed.

Ltac keep :=
  repeat match goal with
  | |- keeps (lift _) => by apply keeps_silent
  | |- keeps (mret _) => by apply keeps_silent
  | |- keeps (ret _) => by apply keeps_silent
  | |- keeps own => by apply keeps_silent
  | |- keeps (store _) => by apply keeps_silent
  | |- keeps (lease_err _) => by apply keeps_silent
  | |- keeps (stream_err _) => by apply keeps_silent
  | |- keeps (ctx_err _) => by apply keeps_silent
  | |- keeps (now _) => by apply (keeps_event _ (Sent ClockRead))
  | |- keeps (lift _ ≫= _) => apply keeps_lift_then; intros ? ?
  | |- keeps (_ ≫= _) => apply keeps_bind; [|intros ?]
  | |- keeps (attempt _) => apply keeps_attempt
  | |- keeps (if ?b then _ else _) => destruct b
  | |- keeps (match ?x with _ => _ end) => destruct x
  end.

Lemma keeps_send e : P e → keeps (send answer e).
Proof. intros He. by apply (keeps_event _ (Sent (Emitted e))). Qed.
Lemma keeps_bindingReset : keeps (bindingReset h answer).
Proof. unfold bindingReset, store_reset, cancel. keep; [by apply keeps_send|by apply (keeps_event _ Cancelled)]. Qed.
Hint Resolve keeps_bindingReset : core.
Lemma keeps_checkCatalog f : keeps (checkCatalog h answer f).
Proof. unfold checkCatalog. keep; [by apply (keeps_event _ Fencing)|done]. Qed.
Hint Resolve keeps_checkCatalog : core.
Lemma keeps_source_err : keeps (source_err h).
Proof. unfold source_err. keep. Qed.
Lemma keeps_fence f ctx : keeps ctx → keeps (fence h answer clock f ctx).
Proof. intros Hc. unfold fence. keep; done. Qed.

(** An emission of the fenced emitter. *)
Definition fenced_ok (f : controllerSourceEmitter) : Prop :=
  (∀ l, Forall (λ o, check_observation f o = Some (Ok tt)) l → P (SendSnapshot l))
  ∧ (∀ l c, Forall (λ x, check_change f x = Some (Ok tt)) l → P (SendChanges l c)).

Lemma keeps_Snapshot f ctx l : fenced_ok f → keeps ctx → keeps (Snapshot h answer clock f ctx l).
Proof.
  intros [Hf _] Hc. unfold Snapshot. apply keeps_bind; [by apply keeps_fence|intros _].
  apply keeps_lift_then. intros [] Hl. apply keeps_send, Hf, each_ok, Hl.
Qed.
Lemma keeps_EndSnapshot f ctx c k : keeps ctx → keeps (EndSnapshot h answer clock f ctx c k).
Proof. intros Hc. unfold EndSnapshot. keep; [by apply keeps_fence|by apply keeps_send]. Qed.
Lemma keeps_emission f e : fenced_ok f → keeps (emission_step h answer clock f e).
Proof.
  intros Hf. pose proof keeps_source_err as Hc. destruct e as [l|c k|l c|reason message]; cbn [emission_step].
  - by apply keeps_Snapshot.
  - by apply keeps_EndSnapshot.
  - unfold EmitChanges. apply keeps_bind; [by apply keeps_fence|intros _].
    apply keeps_lift_then. intros [] Hl. by apply keeps_send, Hf, each_ok.
  - unfold EmitReset, store_reset. keep; [by apply keeps_fence|by apply keeps_send].
Qed.
Lemma keeps_source f p : fenced_ok f → keeps (run_source h answer clock f p).
Proof.
  intros Hf. induction p as [r|e k IH]; cbn [run_source]; keep.
  - by apply keeps_emission.
  - apply IH.
Qed.

Lemma keeps_invoke {A B} op (g : callback ClientT A B) client a : keeps (invoke op g client a).
Proof. by apply (keeps_event _ (Called op)). Qed.
Lemma keeps_round f r client request size p : fenced_ok f → keeps (page_round h answer clock f r client request size p).
Proof.
  intros Hf. unfold page_round, fetch, snapshot_page. keep; try done; try apply keeps_invoke.
  all: apply keeps_Snapshot; [done|by apply keeps_silent].
Qed.
Lemma keeps_loop f r client request size fuel : fenced_ok f →
  ∀ p, keeps (page_loop h answer clock fuel f r client request size p).
Proof.
  intros Hf. induction fuel as [|fuel IH]; intros p; cbn [page_loop]; keep; [by apply keeps_round| |apply IH].
  apply keeps_EndSnapshot. by apply keeps_silent.
Qed.
Lemma keeps_update f r client request : fenced_ok f → keeps (update_session h answer clock source f r client request).
Proof.
  intros Hf. unfold update_session. keep; try done.
  - by apply (keeps_event _ (Called OperationSourceUpdates)).
  - by apply keeps_source.
Qed.
End safety.

(** ** A finite session on every path *)

Section finite_trace.
Context `{Protowire} (request : SourceOpenRequest) (d : ResourceType).

(** The coverage put together so far is the tracker's, up to the length of the
    limitations the pages report. *)
Definition limitation_fits (s : string) : Prop := slen s ≤ 64 * 2 ^ 10.
Definition coverage_shaped (c : SourceCoverage) : Prop :=
  known_enumeration (sc_Enumeration c) = true ∧ known_consistency (sc_Consistency c) = true
  ∧ (length (sc_Limitations c) ≤ MaxSourceLimitations)%nat
  ∧ Forall (λ s, s ≠ "" ∧ utf8_valid_string s = true) (sc_Limitations c).

(** What a finite session hands over: nonempty batches the tracker takes, then at
    most one closing emission of the controller's own. *)
Definition handed_batch (l : list SourceObservation) : Prop := l ≠ [] ∧ batch_ok (NewCatalogBoundSourcePhaseTracker request d) l.
Definition closes (e : emission) : Prop :=
  match e with
  | SendEnd c k => coverage_shaped c ∧ k = ContinuityNotApplicable
  | SendReset reason message => reason = SourceResetBindingChanged ∧ message = "Source binding changed."
  | SendSnapshot _ | SendChanges _ _ => False
  end.
Definition finite_trace (es : list emission) : Prop := ∃ bs tail,
  es = map SendSnapshot bs ++ tail ∧ Forall handed_batch bs ∧ (length tail ≤ 1)%nat ∧ Forall closes tail.

End finite_trace.

Section finite_paths.
Context `{ProtowireLaws} {ClientT : Type} (h : host ClientT session_event).
Context (answer : list (event session_event) → emission → outcome unit) (clock : list (event session_event) → Z).
Context (f : controllerSourceEmitter) (request : SourceOpenRequest).
Abbreviation run := (run ClientT session_event emitter_state).
Abbreviation t := (NewCatalogBoundSourcePhaseTracker request (fe_descriptor f)).
Abbreviation handed := (handed_batch request (fe_descriptor f)).
Abbreviation trace := (finite_trace request (fe_descriptor f)).
Abbreviation size := (Z.min (MaxBatchItems (so_Limits request)) maxPageRecords).

Lemma coverage_shaped_valid c : coverage_shaped c → Forall limitation_fits (sc_Limitations c) → sourceCoverageValid c = true.
Proof.
  intros (He & Hc & Hn & Hl) Hf. unfold sourceCoverageValid. rewrite He, Hc, (proj2 (Nat.leb_le _ _)) by done.
  apply forallb_elem. intros x Hx. rewrite Forall_forall in Hl, Hf. destruct (Hl x Hx) as [Hne Hu].
  specialize (Hf x Hx). unfold limitation_fits in Hf.
  rewrite Hu, orb_false_r, negb_true_iff, orb_false_iff, Z.ltb_ge, Z.eqb_neq, slen_zero. done.
Qed.

Lemma page_coverage_shaped p page : coverage_shaped (pa_coverage p) → page_accepted (fe_descriptor f) request size page →
  coverage_shaped (page_coverage p page).
Proof.
  intros (He & Hc & Hn & Hl) (Hv & _)%page_accepted_coverage. apply coverage_reason_utf8 in Hv. split_and!; cbn.
  - by apply page_enumeration_known.
  - by apply page_consistency_known.
  - unfold page_limitations. repeat case_match; try done. rewrite length_app. cbn [length].
    apply andb_true_iff in H2 as [_ ?%Nat.ltb_lt]. lia.
  - unfold page_limitations. case_bool_decide; [done|]. cbn [negb]. case_match; [|done].
    apply Forall_app. split; [done|]. by constructor.
Qed.

(** A run either leaves the session open, and its value satisfies [open], or has
    handed the closing emission over, and its value satisfies [closed]. *)
Definition yields {A} (open closed : A → Prop) (m : run A) : Prop := ∀ s, ∃ es,
  sent (st_log (m s).1) = sent (st_log s) ++ es ∧
  ((∃ bs, es = map SendSnapshot bs ∧ Forall handed bs ∧ ∀ a, (m s).2 = Some (Ok a) → open a)
   ∨ (trace es ∧ ∀ a, (m s).2 = Some (Ok a) → closed a)).
(** A run that hands nothing over. *)
Definition silent {A} (open : A → Prop) (m : run A) : Prop := ∀ s,
  sent (st_log (m s).1) = sent (st_log s) ∧ ∀ a, (m s).2 = Some (Ok a) → open a.

Lemma silent_yields {A} (open closed : A → Prop) (m : run A) : silent open m → yields open closed m.
Proof.
  intros Hm s. destruct (Hm s) as [Hs Ha]. exists []. rewrite app_nil_r. split; [done|]. left. exists []. by split_and!.
Qed.

Lemma session_yields_bind {A B} (Q C : A → Prop) (Q' C' : B → Prop) (m : run A) (k : A → run B) :
  yields Q C m → (∀ a, Q a → yields Q' C' (k a)) → (∀ a, C a → silent C' (k a)) → yields Q' C' (m ≫= k).
Proof.
  intros Hm Hk Hc s. destruct (Hm s) as (es & Hes & Hv). unfold mbind, run_bind.
  destruct (m s) as [s1 [[a|e]|]]; cbn [fst snd] in *.
  - destruct Hv as [(bs & -> & Hbs & Ha)|[Hf Ha]].
    + destruct (Hk a (Ha a eq_refl) s1) as (es' & Hes' & Hv'). exists (map SendSnapshot bs ++ es').
      rewrite Hes', Hes, app_assoc. split; [done|]. destruct Hv' as [(bs' & -> & Hbs' & Hb)|[(bs' & tail & -> & Hbs' & Hn & Ht) Hb]].
      * left. exists (bs ++ bs'). rewrite map_app. split_and!; [done|by apply Forall_app|done].
      * right. split; [|done]. exists (bs ++ bs'), tail. rewrite map_app, app_assoc.
        split_and!; [done|by apply Forall_app|done..].
    + destruct (Hc a (Ha a eq_refl) s1) as [Hs Hb]. exists es. rewrite Hs. split; [done|]. by right.
  - exists es. split; [done|]. destruct Hv as [(bs & -> & Hbs & _)|[Hf _]]; [left; by exists bs|by right].
  - exists es. split; [done|]. destruct Hv as [(bs & -> & Hbs & _)|[Hf _]]; [left; by exists bs|by right].
Qed.
Lemma yields_then {A B} (Q : A → Prop) (Q' C' : B → Prop) (m : run A) (k : A → run B) :
  yields Q (λ _, False) m → (∀ a, Q a → yields Q' C' (k a)) → yields Q' C' (m ≫= k).
Proof. intros Hm Hk. by eapply session_yields_bind. Qed.
Lemma yields_weaken {A} (Q C Q' C' : A → Prop) (m : run A) :
  yields Q C m → (∀ a, Q a → Q' a) → (∀ a, C a → C' a) → yields Q' C' m.
Proof.
  intros Hm HQ HC s. destruct (Hm s) as (es & Hes & Hv). exists es. split; [done|].
  destruct Hv as [(bs & ? & ? & ?)|[? ?]]; [left; exists bs; naive_solver|right; naive_solver].
Qed.
Lemma yields_attempt {A} (Q C : A → Prop) (m : run A) : yields Q C m →
  yields (λ r, ∀ a, r = Ok a → Q a) (λ r, ∀ a, r = Ok a → C a) (attempt m).
Proof.
  intros Hm s. destruct (Hm s) as (es & Hes & Hv). exists es. unfold attempt.
  destruct (m s) as [s1 [r|]]; cbn [fst snd] in *; (split; [done|]);
    (destruct Hv as [(bs & ? & ? & Ha)|[? Ha]]; [left; exists bs; split_and!; [done..|]|right; split; [done|]]); [..|done|done];
    intros r' [= <-] a ->; by apply Ha.
Qed.

Lemma silent_lift {A} (r : outcome A) : silent (λ a, r = Some (Ok a)) (lift r).
Proof. intros s. split; [done|]. by intros a. Qed.
Lemma silent_fails {A} (Q : A → Prop) e : silent Q (lift (fails e)).
Proof. intros s. by split. Qed.
Lemma silent_bind {A B} (Q : A → Prop) (Q' : B → Prop) (m : run A) (k : A → run B) :
  silent Q m → (∀ a, Q a → silent Q' (k a)) → silent Q' (m ≫= k).
Proof.
  intros Hm Hk s. destruct (Hm s) as [Hs Ha]. unfold mbind, run_bind.
  destruct (m s) as [s1 [[a|e]|]]; cbn [fst snd] in *; [|by split..].
  destruct (Hk a (Ha a eq_refl) s1) as [Hs' Hb]. by rewrite Hs', Hs.
Qed.
Lemma silent_note (ev : event session_event) {A} (g : list (event session_event) → outcome A) : sent [ev] = [] →
  silent (λ _, True) (λ s, let s := note ev s in (s, g (st_log s))).
Proof. intros He s. cbn [fst note st_log]. by rewrite sent_app, He, app_nil_r. Qed.
Ltac quiet := intros ?; split; [done|by intros].
Lemma silent_own : silent (λ _, True) (@own ClientT).
Proof. quiet. Qed.
Lemma silent_store x : silent (λ _, True) (@store ClientT x).
Proof. quiet. Qed.
Lemma silent_lease_err : silent (λ _, True) (lease_err h).
Proof. quiet. Qed.
Lemma silent_stream_err : silent (λ _, True) (stream_err h).
Proof. quiet. Qed.
Lemma silent_ctx_err e : silent (λ _, True) (@ctx_err ClientT e).
Proof. quiet. Qed.

Lemma silent_invoke {A B} op (g : callback ClientT A B) client a : silent (λ _, True) (invoke op g client a).
Proof. intros s. unfold invoke. cbn [fst note st_log]. by rewrite sent_app, app_nil_r. Qed.
Lemma silent_store_reset : silent (λ _, True) (@store_reset ClientT).
Proof. eapply silent_bind; [apply silent_own|]. intros x _. apply silent_store. Qed.
Lemma silent_cancel : silent (λ _, True) (cancel h).
Proof.
  eapply silent_bind; [by apply (silent_note Cancelled (λ _, Some (Ok tt)))|intros _ _].
  eapply silent_bind; [apply silent_lease_err|intros e _]. eapply silent_bind; [apply silent_own|intros x _].
  apply silent_store.
Qed.
Lemma silent_fetch r client p : silent (λ _, True) (fetch r client (fe_descriptor f) request size p).
Proof.
  unfold fetch. case_bool_decide; [apply silent_invoke|]. destruct (aq_Query _) as [q|]; [|by intros s].
  eapply silent_bind; [apply silent_lift|]. intros _ _. apply silent_invoke.
Qed.

(** The closing emission, and one batch. *)
Lemma yields_send e : closes e → yields (λ _, False) (λ _, True) (send answer e).
Proof.
  intros He s. exists [e]. unfold send. cbn [fst note st_log]. rewrite sent_app. split; [done|]. right.
  split; [|done]. exists [], [e]. split_and!; [done..|cbn; lia|by constructor].
Qed.
Lemma yields_send_batch l : handed l → yields (λ _, True) (λ _, False) (send answer (SendSnapshot l)).
Proof.
  intros Hl s. exists [SendSnapshot l]. unfold send. cbn [fst note st_log]. rewrite sent_app. split; [done|]. left.
  exists [l]. split_and!; [done|by constructor|done].
Qed.

Lemma yields_bindingReset : yields (λ _, False) (λ _, True) (bindingReset h answer).
Proof.
  eapply session_yields_bind; [apply yields_attempt, yields_send; done| |].
  - intros [[]|e] Hr; [by destruct (Hr tt eq_refl)|]. apply silent_yields.
    eapply silent_bind; [apply silent_store_reset|intros _ _]. eapply silent_bind; [apply silent_cancel|intros _ _].
    intros s. by split.
  - intros r _. eapply silent_bind; [apply silent_store_reset|intros _ _].
    eapply silent_bind; [apply silent_cancel|intros _ _]. quiet.
Qed.
Lemma yields_binding_lost {A} (Q : A → Prop) : yields Q (λ _, False) (bindingReset h answer ≫= λ _, lift (fails binding_changed)).
Proof. eapply session_yields_bind; [apply yields_bindingReset|by intros ? []|intros _ _; apply silent_fails]. Qed.

Lemma yields_checkCatalog : yields (λ _, True) (λ _, False) (checkCatalog h answer f).
Proof.
  eapply yields_then; [by apply silent_yields, (silent_note Fencing (λ l, h_catalog h l))|]. intros catalog _.
  destruct (CheckCatalogRevisionForRoute _ _ _) as [[[]|e]|]; [by apply silent_yields; quiet| |by apply silent_yields; quiet].
  destruct (negb _); [by apply silent_yields, silent_fails|apply yields_binding_lost].
Qed.
Lemma yields_fence : fe_updates f = false → yields (λ _, True) (λ _, False) (fence h answer clock f (lease_err h)).
Proof.
  intros Hu. unfold fence. eapply yields_then; [apply silent_yields, silent_lease_err|intros lease _].
  eapply yields_then; [apply silent_yields, silent_stream_err|intros stream _]. destruct (nonnil lease && _).
  - apply yields_binding_lost.
  - rewrite Hu. cbn [negb]. apply silent_yields.
    eapply silent_bind; [apply silent_lease_err|intros e _]. apply silent_ctx_err.
Qed.

(** *** The operations of a finite session *)

Hypothesis finite : fe_updates f = false.
Hypothesis target : fe_target f = so_Target request.
Hypothesis binding : fe_binding f = b_Representation (so_Binding request).
Hypothesis limited : MaxBatchItems (so_Limits request) ≠ 0.

Lemma yields_Snapshot l : l ≠ [] → within_batch t l = true →
  yields (λ _, True) (λ _, False) (Snapshot h answer clock f (lease_err h) l).
Proof.
  intros Hl Hw. eapply yields_then; [by apply yields_fence|intros _ _].
  eapply yields_then; [apply silent_yields, silent_lift|]. cbn beta. intros [] Hc. apply yields_send_batch.
  split; [done|]. split; [done|]. rewrite each_ok in Hc. eapply Forall_impl; [exact Hc|]. intros o.
  by apply check_observation_tracker.
Qed.

Lemma yields_snapshot_page page :
  (size = 0 ∨ Z.of_nat (length (pg_Records page)) ≤ size) → Z.of_nat (length (pg_Records page)) ≤ maxPageRecords →
  yields (λ _, page_bound request page) (λ _, False) (snapshot_page h answer clock f request page).
Proof.
  intros Hs Hm. unfold snapshot_page. eapply yields_then; [apply silent_yields, silent_lift|]. cbn beta. intros [] Hb.
  rewrite each_ok in Hb.
  assert (page_bound request page).
  { eapply Forall_impl; [exact Hb|]. intros r. by rewrite require_ok, bool_decide_eq_true. }
  destruct (pg_Records page) as [|r l] eqn:El; [by apply silent_yields; quiet|].
  eapply yields_weaken; [apply yields_Snapshot|done|done]; [done|]. unfold within_batch. rewrite length_map.
  apply Z.leb_le. unfold maxPageRecords in *. cbn [tk_request NewCatalogBoundSourcePhaseTracker]. lia.
Qed.

(** How a round may leave the session: open with a coverage of the right shape,
    or closed because the binding was lost. *)
Definition round_open (next : round) : Prop :=
  match next with
  | Stopped => True
  | LastPage c => coverage_shaped c
  | NextPage p => coverage_shaped (pa_coverage p)
  end.

Lemma yields_page_round r client p : coverage_shaped (pa_coverage p) →
  yields round_open (λ next, next = Stopped) (page_round h answer clock f r client request size p).
Proof.
  intros Hp. unfold page_round. eapply yields_then; [apply silent_yields, silent_fetch|intros page _].
  eapply session_yields_bind; [apply yields_attempt, yields_checkCatalog| |].
  - intros [[]|e] _.
    + eapply yields_then; [apply silent_yields, silent_lift|]. cbn beta. intros [] Hk. rewrite target in Hk.
      pose proof Hk as Hk'. unfold checkPage in Hk'. rewrite !outcome_seq_ok, require_ok in Hk'. destruct Hk' as (Hv & Hs & _).
      apply ValidateSourcePage_inv in Hv as (Hn & _).
      rewrite negb_true_iff, andb_false_iff, negb_false_iff, Z.eqb_eq, Z.ltb_ge in Hs.
      eapply session_yields_bind; [by apply yields_snapshot_page| |done]. cbn beta. intros _ Hb. apply silent_yields.
      assert (Hc : coverage_shaped (page_coverage p page)) by (apply page_coverage_shaped; [done|by split]).
      destruct (NextCursor page) as [c|]; [case_bool_decide; [apply silent_fails|]|]; intros s; (split; [done|]); by intros a [= <-].
    + apply silent_yields. eapply silent_bind; [apply silent_own|intros x _]. destruct (em_reset x); [|apply silent_fails].
      intros s. split; [done|]. by intros a [= <-].
  - intros [[]|e] Hr; [by destruct (Hr tt eq_refl)|]. eapply silent_bind; [apply silent_own|intros x _].
    destruct (em_reset x); [|apply silent_fails]. intros s. split; [done|]. by intros a [= <-].
Qed.

Lemma yields_page_loop r client fuel : ∀ p, coverage_shaped (pa_coverage p) →
  yields (λ _, True) (λ _, True) (page_loop h answer clock fuel f r client request size p).
Proof.
  induction fuel as [|fuel IH]; intros p Hp; cbn [page_loop]; [by apply silent_yields; quiet|].
  eapply session_yields_bind; [by apply yields_page_round| |intros next ->; quiet].
  intros [|c|q] Hn; cbn [round_open] in Hn.
  - by apply silent_yields; quiet.
  - unfold EndSnapshot. eapply session_yields_bind; [eapply yields_then; [by apply yields_fence|intros _ _; by apply yields_send]| |].
    + by intros ? [].
    + intros _ _. quiet.
  - by apply IH.
Qed.
End finite_paths.

Section opened.
Context `{ProtowireLaws} {ClientT : Type} (h : host ClientT session_event).
Context (answer : list (event session_event) → emission → outcome unit) (clock : list (event session_event) → Z)
  (source : Registration ClientT → option ClientT → SourceRequest → source_program).

(** The two fences agree: what the controller lets out is what the tracker of
    the same session lets in. *)
Lemma check_change_tracker request d f c :
  fe_descriptor f = d → fe_target f = so_Target request → fe_binding f = b_Representation (so_Binding request) →
  check_change f c = Some (Ok tt) → change_ok (NewCatalogBoundSourcePhaseTracker request d) c.
Proof.
  intros Hd Ht Hb. unfold check_change, change_ok. case_bool_decide.
  - destruct (ch_Observation c) as [o|]; [|done]. rewrite outcome_seq_ok, require_ok, andb_true_iff, !is_none_true.
    intros [[? ?] Ho]. left. split_and!; [done..|]. exists o. split; [done|].
    by eapply check_observation_tracker.
  - case_bool_decide; [|done]. destruct (ch_Reference c) as [r|]; [|done].
    rewrite !outcome_seq_ok, require_ok, is_none_true, or_else_ok. intros (? & ? & Hc). right.
    split_and!; [done..|]. exists r. split; [done|]. unfold checkReference.
    cbn [tk_request tk_descriptor NewCatalogBoundSourcePhaseTracker]. by rewrite <- Ht, <- Hd.
Qed.

Lemma keeps_serve (P : emission → Prop) fuel request client r d :
  (∀ reason message, P (SendReset reason message)) → (∀ c k, P (SendEnd c k)) →
  (∀ b, fenced_ok P (mkFenced (rt_Route (so_Target request)) d (so_Target request)
          (b_Representation (so_Binding request)) b)) →
  keeps P (serve h answer clock source fuel request client (r, d)).
Proof.
  intros Hr He Hf. unfold serve. apply keeps_lift_then. intros [] _.
  apply keeps_bind; [by apply (keeps_event _ _ (Sent ClockRead))|]. intros t.
  apply keeps_bind; [by apply keeps_silent|]. intros _. case_bool_decide.
  - apply keeps_bind; [by apply keeps_update|intros _; by apply keeps_silent].
  - by apply keeps_loop.
Qed.

(** The session's log: no lease, or one lease with everything inside it. *)
Lemma OpenSource_log (P : ResourceType → emission → Prop) fuel request emitter x :
  (∀ d reason message, P d (SendReset reason message)) → (∀ d c k, P d (SendEnd c k)) →
  (∀ d b, fenced_ok (P d) (mkFenced (rt_Route (so_Target request)) d (so_Target request)
            (b_Representation (so_Binding request)) b)) →
  let s := (OpenSource h answer clock source fuel request emitter (fresh x)).1 in
  st_log s ∈ [[]; [LeaseRefused]; [Leased; Resolving; Released]]
  ∨ ∃ r d l, resolve (h_admission h) (h_catalog h [Leased; Resolving]) (h_registrations h [Leased; Resolving])
               (page_target (so_Target request) (operation_of request)) = Some (Ok (r, d))
     ∧ st_log s = [Leased; Resolving] ++ l ++ [Released] ∧ Forall (good (P d)) l
     ∧ ValidateSourceOpenRequest request = Some (Ok tt)
     ∧ ∃ client, st_log (serve h answer clock source fuel request client (r, d) (mkCall [Leased; Resolving] (Some r) x)).1
                 = [Leased; Resolving] ++ l.
Proof.
  intros Hr He Hf s. rewrite !elem_of_cons. subst s.
  destruct (OpenSource _ _ _ _ _ _ _ _) as [s res] eqn:E. cbn [fst]. revert E.
  unfold OpenSource, guarded, mbind, run_bind, lift at 1 2.
  destruct (ValidateSourceOpenRequest request) as [[[]|e]|] eqn:Ev; [|intros [= <- _]; by left; left..].
  destruct (require emitter _) as [[[]|e]|]; [|intros [= <- _]; by left; left..].
  unfold leased. cbn [fresh st_log].
  destruct (h_lease h [] (rt_Route (so_Target request))) as [client|e]; [|intros [= <- _]; by left; right; left].
  unfold resolved. cbn [note st_log st_selected app st_own].
  destruct (resolve _ _ _ _) as [[[r d]|e]|] eqn:Er; [|intros [= <- _]; by left; right; right; left..].
  destruct (keeps_serve (P d) fuel request client r d (Hr d) (He d) (Hf d)
    (mkCall [Leased; Resolving] (Some r) x)) as (l & Hl & Hg).
  destruct (serve _ _ _ _ _ _ _ _ _) as [s1 out] eqn:Es. intros [= <- _]. right. exists r, d, l.
  cbn [fst st_log note] in *. rewrite Hl. split_and!; try done. exists client. by rewrite Es.
Qed.

Lemma serve_finite fuel request client r d s l :
  so_Mode request = SourceModeSnapshot → MaxBatchItems (so_Limits request) ≠ 0 →
  st_log (serve h answer clock source fuel request client (r, d) s).1 = st_log s ++ l →
  finite_trace request d (sent l).
Proof.
  intros Hm Hl.
  assert (Hy : yields (mkFenced (rt_Route (so_Target request)) d (so_Target request) (b_Representation (so_Binding request)) false)
                 request (λ _, True) (λ _, True) (serve h answer clock source fuel request client (r, d))).
  { unfold serve. eapply yields_then; [apply silent_yields, silent_lift|]. intros _ _.
    eapply yields_then; [by apply silent_yields, (silent_note (Sent ClockRead) (λ l, Some (Ok (clock l))))|]. intros t _.
    eapply yields_then; [apply silent_yields, silent_store|]. intros _ _.
    rewrite bool_decide_eq_false_2 by (by apply snapshot_operation). apply yields_page_loop; try done.
    split_and!; [done..|cbn; lia|constructor]. }
  destruct (Hy s) as (es & Hes & Hv). intros Hs. rewrite Hs, sent_app in Hes. apply app_inv_head in Hes as ->.
  destruct Hv as [(bs & -> & Hb & _)|[Ht _]]; [|exact Ht].
  exists bs, []. rewrite app_nil_r. split_and!; [done..|cbn; lia|constructor].
Qed.

(** A finite trace whose limitations fit is taken by the tracker frame by frame. *)
Lemma finite_trace_accepted proto_size request d es sizes :
  let fs := session_frames request es in
  so_Mode request = SourceModeSnapshot → finite_trace request d es →
  (∀ c k, SendEnd c k ∈ es → Forall limitation_fits (sc_Limitations c)) →
  length sizes = length fs → Forall (λ n, 0 ≤ n ≤ MaxFrameBytes (so_Limits request)) sizes →
  Z.of_nat (length fs) ≤ max_uint64 →
  ∃ u, admit_all proto_size (NewCatalogBoundSourcePhaseTracker request d) (zip fs sizes) = Some u.
Proof.
  intros fs Hm (bs & tail & -> & Hb & Hn & Ht) Hf Hlen Hs Hmax. apply finite_session_accepted; try done.
  - eapply Forall_impl; [exact Hb|]. by intros l [_ ?].
  - apply Forall_forall. intros e He. rewrite Forall_forall in Ht. specialize (Ht e He).
    destruct e as [|c k| |reason message]; try done; cbn [closes closing_ok] in *.
    + destruct Ht as [Hc ->]. split; [|done]. eapply coverage_shaped_valid; [done|]. eapply Hf.
      apply elem_of_app. right. exact He.
    + destruct Ht as [-> ->]. split; [done|]. split; [by vm_compute|done].
Qed.

(** C7: What leaves a source session, on any path: whatever the callbacks, the
    source, the emitter, the clock and the contexts do, every single observation
    and change handed to the emitter passes the checks of the catalog-bound
    tracker of the same request (of the bound representation, inside the
    requested target, with the declared identity dimensions), everything happens
    under one lease taken before and given back at the end, under a registration
    the accepted catalog admits, and panics become errors. In a finite session,
    returning or failing, what is handed over is nonempty batches within the
    requested size and then at most one closing emission, the end of the paging
    or the reset of a changed binding, and the tracker accepts the frames made of
    it, provided they fit the frame limit and the limitations of the end, which
    are the provider's, fit theirs. (In an updates session the batch sizes, the
    order, the coverages and the reset reasons are those of the registration's own
    source: the controller passes them on, and the tracker behind the emitter
    judges them.) *)
Theorem OpenSource_confined fuel request emitter x :
  let '(s, res) := OpenSource h answer clock source fuel request emitter (fresh x) in
  res ≠ None ∧
  (st_log s ∈ [[]; [LeaseRefused]; [Leased; Resolving; Released]]
   ∨ ∃ r d l, resolve (h_admission h) (h_catalog h [Leased; Resolving]) (h_registrations h [Leased; Resolving])
                (page_target (so_Target request) (operation_of request)) = Some (Ok (r, d))
      ∧ st_log s = [Leased; Resolving] ++ l ++ [Released]
      ∧ Forall (good (items_ok (NewCatalogBoundSourcePhaseTracker request d))) l
      ∧ (so_Mode request = SourceModeSnapshot →
         finite_trace request d (sent l)
         ∧ ∀ proto_size sizes, let fs := session_frames request (sent l) in
             (∀ c k, SendEnd c k ∈ sent l → Forall limitation_fits (sc_Limitations c)) →
             length sizes = length fs → Forall (λ n, 0 ≤ n ≤ MaxFrameBytes (so_Limits request)) sizes →
             Z.of_nat (length fs) ≤ max_uint64 →
             ∃ u, admit_all proto_size (NewCatalogBoundSourcePhaseTracker request d) (zip fs sizes) = Some u)).
Proof.
  pose proof (OpenSource_log (λ d, items_ok (NewCatalogBoundSourcePhaseTracker request d)) fuel request emitter x) as Hl.
  destruct (OpenSource h answer clock source fuel request emitter (fresh x)) as [s res] eqn:E. split.
  - unfold OpenSource in E. intros ->. by apply guarded_defined in E.
  - destruct Hl as [Hl|(r & d & l & Hr & Hl & Hg & Hv & client & Hs)]; [done..| |by left|].
    + intros d b. split.
      * intros l Hc. eapply Forall_impl; [exact Hc|]. intros o. by apply check_observation_tracker.
      * intros l c Hc. eapply Forall_impl; [exact Hc|]. intros o. by apply check_change_tracker.
    + right. exists r, d, l. split_and!; [done..|]. intros Hm.
      assert (Ht : finite_trace request d (sent l)) by (eapply serve_finite; [done|by apply opened_limits|exact Hs]).
      split; [exact Ht|]. intros proto_size sizes fs. by apply finite_trace_accepted.
Qed.
End opened.

(** ** The session ends *)

(** All strings of at most [n] bytes. *)
Definition all_bytes : list ascii := map byte_of (seqZ 0 256).
Fixpoint short_bytes (n : nat) : list bytes :=
  match n with
  | O => [[]]
  | S n => [] :: (s ← short_bytes n; (λ c, c :: s) <$> all_bytes)
  end.
Definition short_strings (n : nat) : list string := map string_of (short_bytes n).

Lemma all_bytes_elem c : c ∈ all_bytes.
Proof.
  unfold all_bytes. apply list_elem_of_fmap. exists (byte_val c). split; [by rewrite byte_of_val|].
  apply elem_of_seqZ. pose proof (byte_val_range c). lia.
Qed.

Lemma short_bytes_elem n : ∀ s, (length s ≤ n)%nat → s ∈ short_bytes n.
Proof.
  induction n as [|n IH]; intros [|c s] Hs; cbn [short_bytes length] in *; try lia; try by apply elem_of_cons; left.
  apply elem_of_cons. right. apply list_elem_of_bind. exists s. split; [|apply IH; lia].
  apply list_elem_of_fmap. exists c. split; [done|apply all_bytes_elem].
Qed.

Lemma short_strings_elem n s : slen s ≤ Z.of_nat n → s ∈ short_strings n.
Proof.
  intros Hs. unfold short_strings. apply list_elem_of_fmap. exists (bytes_of s).
  split; [by rewrite string_of_bytes_of|]. apply short_bytes_elem. unfold slen, blen in Hs. lia.
Qed.

Section termination.
Context `{ProtowireLaws} {ClientT : Type} (h : host ClientT session_event).
Context (answer : list (event session_event) → emission → outcome unit) (clock : list (event session_event) → Z)
  (source : Registration ClientT → option ClientT → SourceRequest → source_program).

Lemma round_cursor f r client request size p s s' q :
  page_round h answer clock f r client request size p s = (s', Some (Ok (NextPage q))) →
  ∃ cursor, slen cursor ≤ MaxMessageBytes ∧ cursor ∉ pa_seen p ∧ pa_seen q = cursor :: pa_seen p.
Proof.
  unfold page_round. intros Hr. apply run_bind_ok in Hr as (s1 & page & _ & Hr).
  apply run_bind_ok in Hr as (s2 & fenced & _ & Hr). destruct fenced as [[]|e].
  - apply run_bind_ok in Hr as (s3 & [] & Hk & Hr). apply lift_ok in Hk as [_ Hk].
    apply run_bind_ok in Hr as (s4 & [] & _ & Hr). destruct (NextCursor page) as [c|] eqn:En; [|done].
    case_bool_decide; [done|]. injection Hr as _ <-. exists c. split_and!; [|done|done].
    unfold checkPage in Hk. rewrite outcome_seq_ok in Hk. by eapply page_cursor_bound; [apply Hk|].
  - apply run_bind_ok in Hr as (s3 & x & _ & Hr). by destruct (em_reset x).
Qed.

(** The cursors seen are distinct and come from a finite set. *)
Lemma page_loop_ends (cursors : list string) f r client request size :
  (∀ s, slen s ≤ MaxMessageBytes → s ∈ cursors) →
  ∀ fuel p s s', NoDup (pa_seen p) → pa_seen p ⊆ cursors →
  (length cursors < fuel + length (pa_seen p))%nat →
  page_loop h answer clock fuel f r client request size p s ≠ (s', Some (Ok None)).
Proof.
  intros Hall. induction fuel as [|fuel IH]; intros p s s' Hnd Hin Hlen Hr.
  - assert (length (pa_seen p) ≤ length cursors)%nat; [|lia].
    apply submseteq_length, NoDup_submseteq; done.
  - cbn [page_loop] in Hr. apply run_bind_ok in Hr as (s1 & next & Hn & Hr). destruct next as [|c|q].
    + done.
    + by apply run_bind_ok in Hr as (s2 & [] & _ & Hr).
    + apply round_cursor in Hn as (cursor & Hc & Hf & Hq). eapply IH; [| | |exact Hr]; rewrite Hq.
      * by constructor.
      * intros x [->|Hx]%elem_of_cons; [by apply Hall|by apply Hin].
      * cbn [length]. lia.
Qed.
End termination.

(** C23: A session always comes to its end: there is one bound on the number of
    pages, whatever the provider, the emitter, the clock and the contexts answer,
    after which [OpenSource] has returned. A provider that pages forever is
    stopped by the repeated cursor, because an accepted cursor is smaller than a
    message. *)
Theorem OpenSource_returns `{ProtowireLaws} :
  ∃ bound : nat, ∀ (ClientT : Type) (h : host ClientT session_event) answer clock source fuel request emitter x,
    (bound ≤ fuel)%nat →
    (OpenSource h answer clock source fuel request emitter (fresh x)).2 ≠ Some (Ok None).
Proof.
  set (cursors := short_strings (Z.to_nat MaxMessageBytes)). exists (S (length cursors)).
  intros ClientT h answer clock source fuel request emitter x Hfuel Hr.
  destruct (OpenSource _ _ _ _ _ _ _ _) as [s res] eqn:E. cbn [snd] in Hr. subst res. revert E.
  unfold OpenSource. rewrite guarded_ok. intros Hr.
  apply run_bind_ok in Hr as (s1 & [] & _ & Hr). apply run_bind_ok in Hr as (s2 & [] & _ & Hr).
  apply leased_ok in Hr as (client & s3 & _ & Hr & _). apply run_bind_ok in Hr as (s4 & [r d] & _ & Hr).
  unfold serve in Hr. apply run_bind_ok in Hr as (s5 & [] & _ & Hr).
  apply run_bind_ok in Hr as (s6 & t & _ & Hr). apply run_bind_ok in Hr as (s7 & [] & _ & Hr).
  destruct (bool_decide _).
  - by apply run_bind_ok in Hr as (s8 & [] & _ & Hr).
  - revert Hr. apply (page_loop_ends h answer clock cursors).
    + intros c Hc. unfold cursors. apply short_strings_elem. unfold MaxMessageBytes in *. lia.
    + constructor.
    + intros y Hy. by apply elem_of_nil in Hy.
    + cbn [first_page pa_seen length]. lia.
Qed.

(** ** A concrete session of two pages *)

#[local] Instance sample_protowire : Protowire := {| SizeVarint n := Z.min 10 (varintSize n `max` 1); EncodeZigZag n := 2 * n |}.
#[local] Instance sample_protowire_laws : ProtowireLaws.
Proof. constructor. intros n. simpl. lia. Qed.

Definition sample_last_page : SourcePage :=
  mkSourcePage [] None (mkCount "unknown" None) (mkCoverage "partial" [] "namespace denied") "pointInTime" None.
Definition sample_pages (r : EnumerateRequest) : SourcePage :=
  match e_Cursor r with None => sample_page | Some _ => sample_last_page end.
Definition sample_session : SourceOpenRequest :=
  mkSourceOpen "s1" "g1" sample_target SourceModeSnapshot (mkAcquisition SourceAcquisitionEnumerate "" None)
    (mkSourceLimits 4096 8) (mkBinding (mkRepresentation "default" "v1" sample_schema)).
Definition sample_source_host : host nat session_event :=
  mkHost (mkAdmission (mkContext None) (Some "rev-1")) (λ _ _, Ok (Some 7%nat)) (λ _, Some (Ok sample_catalog))
    (λ _, registrations [mkRegistration "Pod" "c1" (Some [mkConstraint "ns" ScopeAny None]) None
                           (Some (λ _ r, Some (Ok (sample_pages r)))) None None None None false None] None (mkRoute "c1"))
    (λ _, None) (λ _, None) None.
Definition sample_run :=
  OpenSource sample_source_host (λ _ _, Some (Ok tt)) (λ _, 0) (λ _ _ _, Finish (Some (Ok tt))) 5 sample_session true
    (fresh (mkEmitter false 0 None)).

Lemma OpenSource_protocol_witness :
  ∃ d pages c, sent (st_log sample_run.1) = snapshot_emissions (batches pages) c
    ∧ (Forall reason_fits pages → ∃ u,
        admit_all (λ _, 0) (NewCatalogBoundSourcePhaseTracker sample_session d)
          (zip (session_frames sample_session (sent (st_log sample_run.1))) [10; 2000; 10]) = Some u
        ∧ tk_phase u = Terminal).
Proof.
  assert (Hrun : sample_run = (sample_run.1, Some (Ok (Some tt)))) by (vm_compute; reflexivity).
  assert (Hreset : em_reset (st_own sample_run.1) = false) by (vm_compute; reflexivity).
  destruct (OpenSource_protocol sample_source_host (λ _ _, Some (Ok tt)) (λ _, 0) (λ _ _ _, Finish (Some (Ok tt)))
    (λ _, 0) 5 sample_session true (mkEmitter false 0 None) sample_run.1 Hrun eq_refl Hreset) as (r & d & client & pages & c & _ & _ & Hs & _ & _ & Ha).
  exists d, pages, c. split; [exact Hs|]. intros Hf. apply (Ha [10; 2000; 10]).
  - exact Hf.
  - vm_compute. reflexivity.
  - vm_compute. discriminate.
  - repeat constructor; cbn; lia.
Defined.

Lemma OpenSource_confined_witness :
  ∃ d l, st_log sample_run.1 = [Leased; Resolving] ++ l ++ [Released] ∧ length (sent l) = 2%nat
    ∧ finite_trace sample_session d (sent l).
Proof.
  pose proof (OpenSource_confined sample_source_host (λ _ _, Some (Ok tt)) (λ _, 0) (λ _ _ _, Finish (Some (Ok tt)))
    5 sample_session true (mkEmitter false 0 None)) as Hc.
  assert (Hlog : length (sent (st_log sample_run.1)) = 2%nat) by (vm_compute; reflexivity).
  change (OpenSource _ _ _ _ _ _ _ _) with sample_run in Hc. destruct sample_run as [s res].
  destruct Hc as [_ [Hl|(r & d & l & _ & Hl & _ & Hf)]]; cbn [fst] in Hlog.
  - rewrite !elem_of_cons, elem_of_nil in Hl. by destruct Hl as [Hl|[Hl|[Hl|[]]]]; rewrite Hl in Hlog.
  - exists d, l. split; [exact Hl|]. rewrite Hl, !sent_app in Hlog. cbn [sent omap list_omap app] in Hlog.
    rewrite app_nil_r in Hlog. split; [exact Hlog|]. by apply Hf.
Defined.

Lemma OpenSource_returns_witness :
  ∃ fuel, (OpenSource sample_source_host (λ _ _, Some (Ok tt)) (λ _, 0) (λ _ _ _, Finish (Some (Ok tt))) fuel
    sample_session true (fresh (mkEmitter false 0 None))).2 ≠ Some (Ok None).
Proof.
  destruct OpenSource_returns as [bound Hb]. exists bound. apply Hb. lia.
Defined.

(** The page check bounds a page's coverage reason only by the message limit, the
    session's coverage at 64 KiB: a longer reason makes every frame of the session
    pass except the last. *)
Definition sample_long_reason : SourcePage :=
  mkSourcePage [] None (mkCount "unknown" None)
    (mkCoverage "partial" [] (string_of (replicate (Z.to_nat (64 * 2 ^ 10 + 1)) "a"%char))) "pointInTime" None.
Lemma long_reason_ends_session :
  checkPage sample_long_reason sample_type sample_target 8 = Some (Ok tt)
  ∧ sourceCoverageValid (page_coverage first_page sample_long_reason) = false.
Proof. split; vm_compute; reflexivity. Qed.
