(* ===== verification/Utility.v ===== *)
(** * Utility admission (pkg/resource/v2/utility_context.go)

    [WithUtilityConnection] binds the native utilities beside the resource core
    (port forwarding, terminals, logs, metrics) to the connection registry: which
    requests run their callback, under which lease, and what a success means. *)
From S2P Require Import Prelude GoStd Errors CatalogAdmission Values Json TaggedJson Budget Domain Validation Scopes Admission.

(** What the connection registry answers to one request. *)
Record utilityHost := mkUtilityHost {
  uh_Provider : bool;                   (** it implements [Provider] *)
  uh_lease : result admissionContext;   (** [WithConnection]: an error, or the leased context *)
  uh_before : outcome Catalog;          (** [Catalog], before and after the callback *)
  uh_after : outcome Catalog;
  uh_ended : option error               (** [bound.Err()] after the callback *)
}.

(** What the callback returned, if it ran, and what the request returns. *)
Record utility (A : Type) := mkUtility { ran : option (outcome A); verdict : outcome unit }.
Arguments mkUtility {A}.
Arguments ran {A}.
Arguments verdict {A}.

Definition unran {A} (r : outcome unit) : utility A := mkUtility None r.

Definition checkUtilityCatalog (ctx : admissionContext) (catalog : outcome Catalog) (reference : option ResourceReference)
    (route : AccessRoute) : outcome unit :=
  match reference with
  | None => Some (Ok tt)
  | Some _ => catalog ← catalog; CheckCatalogRevisionForRoute ctx catalog route
  end.

Section utility.
Context {A : Type}.

(** [selected] is the ID of the context's connection; the callback is given the
    leased context, or none when it runs directly. *)
Definition WithUtilityConnection (selected : option string) (host : option utilityHost)
    (reference : option ResourceReference) (route : option AccessRoute)
    (fn : option (option admissionContext → outcome A)) : utility A :=
  match fn with
  | None => unran (fails (NewError "INVALID_REQUEST" "Utility callback is required."))
  | Some fn =>
    match selected with
    | None =>
      if nonnil reference then
        unran (fails (NewError "RESET_REQUIRED" "Canonical utility reference requires its admitted connection."))
      else if nonnil route then
        unran (fails (NewError "INVALID_REQUEST" "Utility route requires an actual selected connection."))
      else mkUtility (Some (fn None)) (fn None ≫= λ _, Some (Ok tt))
    | Some id =>
      let route' := mkRoute id in
      if match route with Some r => negb (bool_decide (Connection r = id)) | None => false end then
        unran (fails (NewError "INVALID_REQUEST" "Utility route conflicts with selected connection."))
      else
      match host with
      | None => unran (fails (NewError "UNSUPPORTED" "Configured utility connection context is unavailable."))
      | Some h =>
        if nonnil reference && negb (uh_Provider h) then
          unran (fails (NewError "UNSUPPORTED" "Canonical utility catalog admission is unavailable."))
        else
        match uh_lease h with
        | Err e => unran (fails e)
        | Ok bound =>
          match checkUtilityCatalog bound (uh_before h) reference route' with
          | Some (Ok _) =>
            mkUtility (Some (fn (Some bound)))
              (fn (Some bound) ≫= λ _,
               match uh_ended h with
               | Some e => fails e
               | None => checkUtilityCatalog bound (uh_after h) reference route'
               end)
          | r => unran r
          end
        end
      end
    end
  end.
End utility.

(** ** Admission *)

Section admission.
Context {A : Type} (selected : option string) (host : option utilityHost) (reference : option ResourceReference)
  (route : option AccessRoute) (fn : option (option admissionContext → outcome A)).

(** The callback may run: directly, or on the lease of the selected connection
    under an accepted catalog. *)
Definition admits (bound : option admissionContext) : Prop :=
  match selected, bound with
  | None, None => reference = None ∧ route = None
  | Some id, Some bound =>
    (route = None ∨ route = Some (mkRoute id)) ∧
    ∃ h, host = Some h ∧ uh_lease h = Ok bound
      ∧ (reference ≠ None → uh_Provider h = true)
      ∧ checkUtilityCatalog bound (uh_before h) reference (mkRoute id) = Some (Ok tt)
  | _, _ => False
  end.
(** Nothing ended while it ran and the catalog is still the accepted one. *)
Definition held (bound : option admissionContext) : Prop :=
  match selected, bound with
  | Some id, Some bound =>
    ∃ h, host = Some h ∧ uh_ended h = None ∧ checkUtilityCatalog bound (uh_after h) reference (mkRoute id) = Some (Ok tt)
  | _, _ => True
  end.

Lemma run_then_iff {B} (r : outcome B) (k : outcome unit) (x : outcome unit) :
  r ≫= (λ _, k) = x → x = Some (Ok tt) → (∃ b, r = Some (Ok b)) ∧ k = Some (Ok tt).
Proof. intros <-. destruct r as [[b|e]|]; cbn [mbind outcome_bind]; intros E; [eauto|discriminate|discriminate]. Qed.

(** A utility callback runs only on an admitted lease: directly when nothing was
    selected, otherwise on the connection the route names, and for a canonical
    reference only under the accepted catalog; the request succeeds only when the
    callback did, its lease still lives and the catalog is still accepted. *)
Theorem utility_admitted u : WithUtilityConnection selected host reference route fn = u →
  (∀ r, ran u = Some r → ∃ f bound, fn = Some f ∧ r = f bound ∧ admits bound)
  ∧ (verdict u = Some (Ok tt) → ∃ f bound a, fn = Some f ∧ ran u = Some (f bound) ∧ f bound = Some (Ok a)
     ∧ admits bound ∧ held bound).
Proof.
  intros <-. unfold WithUtilityConnection, admits, held.
  destruct fn as [f|]; [|by split].
  destruct selected as [id|].
  - destruct (match route with Some r => negb (bool_decide (Connection r = id)) | None => false end) eqn:Hr; [by split|].
    assert (Hroute : route = None ∨ route = Some (mkRoute id)).
    { destruct route as [[c]|]; [right|by left]. cbn in Hr. apply negb_false_iff, bool_decide_eq_true in Hr. by subst. }
    destruct host as [h|]; [|by split]. destruct (nonnil reference && negb (uh_Provider h)) eqn:Hp; [by split|].
    assert (reference ≠ None → uh_Provider h = true) as Hprov.
    { intros Hn. destruct reference; [|done]. cbn in Hp. by apply negb_false_iff in Hp. }
    destruct (uh_lease h) as [bound|e] eqn:Hl; [|by split].
    destruct (checkUtilityCatalog bound (uh_before h) reference (mkRoute id)) as [[[]|e]|] eqn:Hb; [|by split|by split].
    cbn [ran verdict]. split.
    + intros r [= <-]. exists f, (Some bound). split_and!; [done..|]. by exists h.
    + intros Hv. apply (run_then_iff _ _ _ eq_refl) in Hv as [[a Ha] Hk]. exists f, (Some bound), a.
      destruct (uh_ended h) eqn:He; [discriminate|]. split_and!; [done..| |]; by exists h.
  - destruct (nonnil reference) eqn:Hn; [by split|]. destruct (nonnil route) eqn:Hm; [by split|].
    destruct reference, route; try discriminate. cbn [ran verdict]. split.
    + intros r [= <-]. by exists f, None.
    + intros Hv. apply (run_then_iff _ _ _ eq_refl) in Hv as [[a Ha] _]. by exists f, None, a.
Qed.
End admission.
