(* ===== verification/Messages.v ===== *)
(** * Fields of hand-built messages

    What the services beside the resource core use of protobuf besides [Proto]:
    [int32] and enum fields, string maps, embedded messages with their unknown
    fields, timestamps, and the size of a tagged value that is not encoded yet. *)
From S2P Require Import Prelude GoStd GoTime Errors Values Proto Json TaggedJson Budget Domain Validation Source Adapters.
Local Open Scope Z_scope.

(** An [int32] on the wire and back. *)
Definition wire_int32 (n : Z) : Z := n mod 2 ^ 64.
Definition int32_of (n : Z) : Z := let m := n mod 2 ^ 32 in if m <? 2 ^ 31 then m else m - 2 ^ 32.
Definition put_int32 (n x : Z) : message := put_uint n (wire_int32 x).
Definition get_int32 (n : Z) (m : message) : Z := int32_of (get_uint n m).
Lemma int32_roundtrip n : - 2 ^ 31 ≤ n < 2 ^ 31 → int32_of (wire_int32 n) = n.
Proof.
  intros H. unfold int32_of, wire_int32.
  assert ((n mod 2 ^ 64) mod 2 ^ 32 = n mod 2 ^ 32) as ->.
  { rewrite (Z.mod_eq n (2 ^ 64)) by lia. replace (n - 2 ^ 64 * (n / 2 ^ 64)) with (n + (- 2 ^ 32 * (n / 2 ^ 64)) * 2 ^ 32) by lia.
    apply Z_mod_plus_full. }
  destruct (decide (0 ≤ n)).
  - rewrite Z.mod_small by lia. destruct (Z.ltb_spec n (2 ^ 31)); lia.
  - assert (n mod 2 ^ 32 = n + 2 ^ 32) as -> by (symmetry; apply Z.mod_unique with (-1); lia).
    destruct (Z.ltb_spec (n + 2 ^ 32) (2 ^ 31)); lia.
Qed.
(** An [int64] on the wire and back. *)
Definition int64_of (n : Z) : Z := let m := n mod 2 ^ 64 in if m <? 2 ^ 63 then m else m - 2 ^ 64.
Definition put_int64 (n x : Z) : message := put_uint n (x mod 2 ^ 64).
Definition get_int64 (n : Z) (m : message) : Z := int64_of (get_uint n m).
Lemma int64_roundtrip n : - 2 ^ 63 ≤ n < 2 ^ 63 → int64_of (n mod 2 ^ 64) = n.
Proof.
  intros H. unfold int64_of. rewrite Zmod_mod. destruct (decide (0 ≤ n)).
  - rewrite Z.mod_small by lia. destruct (Z.ltb_spec n (2 ^ 63)); lia.
  - assert (n mod 2 ^ 64 = n + 2 ^ 64) as -> by (symmetry; apply Z.mod_unique with (-1); lia).
    destruct (Z.ltb_spec (n + 2 ^ 64) (2 ^ 63)); lia.
Qed.
(** A switch over the constants of an enum. *)
Definition enum_cases (pairs : list (Z * Z)) (absent x : Z) : Z :=
  match find (λ p, p.1 =? x) pairs with Some p => p.2 | None => absent end.
(** A [map<string, string>]: an entry writes both fields. *)
Definition put_map (n : Z) (l : list (string * string)) : message :=
  put_messages n (map (λ e, [(1, [PString e.1]); (2, [PString e.2])]) l).
Definition get_map (n : Z) (m : message) : list (string * string) :=
  map (λ e, (get_string 1 e, get_string 2 e)) (get_messages n m).
Lemma map_written l :
  map (λ e, (get_string 1 e, get_string 2 e)) (map (λ e : string * string, [(1, [PString e.1]); (2, [PString e.2])]) l) = l.
Proof. rewrite map_map. induction l as [|[k v] l IH]; cbn [map]; [done|]. by rewrite IH. Qed.
Lemma values_bool n k b : values n (put_bool k b) = if k =? n then (if b then [PVarint 1] else []) else [].
Proof. destruct b; cbn [put_bool]; [apply values_one|by case_match]. Qed.
Lemma as_bool_written (b : bool) : negb (as_uint (if b then [PVarint 1] else []) =? 0) = b.
Proof. by destruct b. Qed.
#[export] Hint Rewrite values_bool : proto.
(** Reads the fields of a hand-built message from what was written. *)
Ltac read_message :=
  unfold get_map, put_map, get_int32, put_int32, get_int64, put_int64; read_fields;
  rewrite ?map_written, ?as_bool_written.
(** An embedded message with its unknown fields. *)
Definition get_embedded (n : Z) (m : message) : option pvalue :=
  match values n m with (PMsg _ _ as v) :: _ => Some v | _ => None end.

(** google.golang.org/protobuf/types/known/timestamppb *)
Class Timestamppb := {
  pb_New : Time → message;
  pb_AsTime : message → Time;
  pb_CheckValid : message → option string
}.
(** Its documentation: a valid timestamp of the years 1 to 9999 is kept. *)
Class TimestamppbLaws `{Timestamppb} : Prop := {
  AsTime_New t : year_ok t → nanos_ok t → pb_AsTime (pb_New t) = t;
  CheckValid_New t : year_ok t → nanos_ok t → pb_CheckValid (pb_New t) = None
}.

Section messages.
Context `{Protowire, ProtoRuntime, Timestamppb}.

(** [if o != nil { m, err = encode(o) }] *)
Definition encode_optional {A B} (encode : A → outcome B) (o : option A) : outcome (option B) :=
  match o with None => Some (Ok None) | Some a => m ← encode a; Some (Ok (Some m)) end.

(** Bytes a tagged value adds to its message as field [number]. *)
Definition body_bytes (number : Z) (o : option Value) : outcome Z :=
  match o with
  | None => Some (Ok 0)
  | Some v => n ← ValueWireSize v; Some (Ok (SizeTag number + SizeBytes n))
  end.

Definition check_valid (m : message) : outcome unit :=
  match pb_CheckValid m with Some e => fails (NewError "INVALID_REQUEST" e) | None => Some (Ok tt) end.

(** The zero [time.Time] is in UTC. *)
Definition zero_native : NativeTime := mkNativeTime 1 zero_time.
Definition as_time (m : option message) : NativeTime :=
  match m with
  | None => zero_native
  | Some m => let t := pb_AsTime m in mkNativeTime (utc_year t) t
  end.
End messages.

(** A library that meets the documentation. *)
Definition sample_timestamppb : Timestamppb := {|
  pb_New := toTimestamp;
  pb_AsTime := λ m, mkTime (get_sint 1 m) (get_uint 2 m);
  pb_CheckValid := λ m, if seconds_out (get_sint 1 m) || (maxTimestampNanos <? get_uint 2 m) then Some "out of range" else None
|}.
Lemma toTimestamp_fields t : get_sint 1 (toTimestamp t) = Unix t ∧ get_uint 2 (toTimestamp t) = Nanosecond t.
Proof. unfold toTimestamp. split; by read_fields. Qed.
#[export] Instance sample_timestamppb_laws : @TimestamppbLaws sample_timestamppb.
Proof.
  split; intros t Hy Hn; destruct (toTimestamp_fields t) as [H1 H2]; cbn; rewrite H1, H2; [by destruct t|].
  rewrite year_seconds by done. unfold nanos_ok, maxTimestampNanos in *.
  destruct (Z.ltb_spec 999999999 (Nanosecond t)); [lia|done].
Qed.
