(* ===== verification/ExecOptions.v ===== *)
(** * Terminal session options (pkg/v1/exec: session.go, resource_session.go,
    resource_options.go, native_command.go)

    The options of a session with their optional resource target, their admission
    and normalization, their message with its retired fields, and the plan of a
    native command. *)
From S2P Require Import Prelude GoStd GoTime Errors Values Proto Json TaggedJson Budget Domain Validation Scopes Admission Utility Source Adapters Messages.
Local Open Scope Z_scope.

Record SessionOptions := mkSessionOptions {
  so_Params : list (string * string); so_Labels : list (string * string); so_ID : string;
  ResourcePlugin : string; so_ResourceKey : string; so_ResourceData : option Value;
  so_Reference : option ResourceReference; so_Route : option AccessRoute;
  Command : list string; TTY : bool
}.

Definition HasResourceIntent (o : SessionOptions) : bool :=
  nonnil (so_ResourceData o)
  || negb (bool_decide (ResourcePlugin o = "")) || negb (bool_decide (so_ResourceKey o = ""))
  || nonnil (so_Reference o) || nonnil (so_Route o).

(** [sessionOptionMetadata], as walked: a struct without json tags. *)
Definition sessionOptionMetadata (o : SessionOptions) : reflected :=
  RStruct [(false, reflect_map (so_Params o)); (false, reflect_map (so_Labels o)); field (so_ID o);
           field (ResourcePlugin o); field (so_ResourceKey o); field (so_Reference o); field (so_Route o);
           field (Command o); field (TTY o)].
Definition validate_reflected (v : reflected) : outcome unit := metadataAdmission v maxDomainDepth maxDomainNodes true.

Definition optionError (code detail : string) : error := NewError code detail.

Section validation.
Context `{Protowire, ProtoRuntime}.

Definition validateSessionOptionReference (o : SessionOptions) : outcome unit :=
  match so_Reference o with
  | None => Some (Ok tt)
  | Some r =>
    ValidateAddress (r_Address r) None ;;
    require (negb (bool_decide (r_Incarnation r = Some "")))
      (optionError "INVALID_REQUEST" "Resource incarnation must not be empty.") ;;
    require (nonnil (so_Route o))
      (optionError "INVALID_REQUEST" "An explicit route is required with a resource reference.") ;;
    require (bool_decide (ResourcePlugin o = "") || bool_decide (ResourcePlugin o = a_Provider (r_Address r)))
      (optionError "INVALID_REQUEST" "Resource provider selector conflicts with reference.") ;;
    require (bool_decide (so_ResourceKey o = "") || bool_decide (so_ResourceKey o = a_Type (r_Address r)))
      (optionError "INVALID_REQUEST" "Resource type selector conflicts with reference.")
  end.

Definition ValidateSessionOptions (o : SessionOptions) : outcome unit :=
  validate_reflected (sessionOptionMetadata o) ;;
  validateSessionOptionReference o ;;
  require match so_Route o with Some r => negb (bool_decide (Connection r = "")) | None => true end
    (optionError "INVALID_REQUEST" "Resource route requires an explicit connection.") ;;
  match so_ResourceData o with
  | None => Some (Ok tt)
  | Some v =>
    require (bool_decide (vKind v = "map")) (optionError "INVALID_REQUEST" "Exec resource data must be a tagged map.") ;;
    ValidateValue v
  end.

(** The selectors a supplied reference implies. *)
Definition with_selectors (o : SessionOptions) : SessionOptions :=
  match so_Reference o with
  | None => o
  | Some r => mkSessionOptions (so_Params o) (so_Labels o) (so_ID o) (a_Provider (r_Address r)) (a_Type (r_Address r))
                (so_ResourceData o) (so_Reference o) (so_Route o) (Command o) (TTY o)
  end.

Definition NormalizeResourceSessionOptions (o : SessionOptions) : outcome SessionOptions :=
  ValidateSessionOptions o ;;
  require (HasResourceIntent o)
    (optionError "INVALID_REQUEST" "Resource session requires an explicit resource target.") ;;
  let o := with_selectors o in
  require (negb (bool_decide (ResourcePlugin o = "") || bool_decide (so_ResourceKey o = "")))
    (optionError "INVALID_REQUEST" "Resource session requires explicit provider and type selectors.") ;;
  Some (Ok o).
Definition ValidateResourceSessionOptions (o : SessionOptions) : outcome unit :=
  NormalizeResourceSessionOptions o ;; Some (Ok tt).

(** What ToProto and NewSessionOptionsFromProto do with either kind of options. *)
Definition admitted_options (intent : bool) (o : SessionOptions) : outcome SessionOptions :=
  if intent then NormalizeResourceSessionOptions o else ValidateSessionOptions o ;; Some (Ok o).
End validation.

(** ** Messages *)

Definition ResourceSessionWireVersion : Z := WireVersion.
Definition execResourceDataFieldNumber : Z := 9.
Definition MaxWireFields : Z := maxDomainFields.
Definition StartGroupType : Z := 3.
Definition EndGroupType : Z := 4.

(** google.golang.org/protobuf/encoding/protowire: the number, type and length of
    a tag, the length of a field's value; a negative length is an error. *)
Class ProtowireConsume := {
  ConsumeTag : bytes → Z * Z * Z;
  ConsumeFieldValue : Z → Z → bytes → Z
}.
(** Its documentation: what is consumed was there, and a tag takes a byte. *)
Class ProtowireConsumeLaws `{ProtowireConsume} : Prop := {
  ConsumeTag_length data number kind n : ConsumeTag data = (number, kind, n) → n < 0 ∨ 1 ≤ n ≤ blen data;
  ConsumeFieldValue_length number kind data : ConsumeFieldValue number kind data ≤ blen data
}.

(** [data[n:]] *)
Definition slice_from (n : Z) (data : bytes) : outcome bytes :=
  if (0 <=? n) && (n <=? blen data) then Some (Ok (drop (Z.to_nat n) data)) else None.

Section messages.
Context `{Protowire, ProtoRuntime, ProtowireConsume}.

(** Each turn takes a byte or more, so [fuel] beyond the length of the data is
    never used up. *)
Fixpoint retired_loop (fuel : nat) (fields : Z) (data : bytes) : outcome bool :=
  match data, fuel with
  | [], _ => Some (Ok false)
  | _, O => None
  | _, S fuel =>
    let fields := fields + 1 in
    require (fields <=? MaxWireFields) (optionError "RESOURCE_LIMIT" "Exec unknown field limit.") ;;
    let '(number, kind, n) := ConsumeTag data in
    require (negb ((n <? 0) || (number <=? 0) || (kind =? StartGroupType) || (kind =? EndGroupType)))
      (optionError "INVALID_REQUEST" "Malformed exec option field.") ;;
    if (8 <=? number) && (number <=? 12) then Some (Ok true) else
    data ← slice_from n data;
    let n := ConsumeFieldValue number kind data in
    require (negb (n <? 0)) (optionError "INVALID_REQUEST" "Malformed exec option field.") ;;
    data ← slice_from n data;
    retired_loop fuel fields data
  end.
Definition retiredExecOptionField (data : bytes) : outcome bool :=
  require (blen data <=? MaxMessageBytes) (optionError "RESOURCE_LIMIT" "Exec unknown fields exceed wire limit.") ;;
  retired_loop (S (length data)) 0 data.

(** [unknown] are the message's unknown fields and [p] the known ones. *)
Definition validateExecOptionWire (unknown : bytes) (p : message) : outcome bool :=
  retired ← retiredExecOptionField unknown;
  require (negb retired) (optionError "UNSUPPORTED" "Legacy or unknown resource exec option is unsupported.") ;;
  let resourceIntent :=
    nonnil (get_embedded 9 p) || negb (bool_decide (get_string 6 p = "")) || negb (bool_decide (get_string 7 p = ""))
    || nonnil (get_embedded 11 p) || nonnil (get_embedded 12 p) || negb (get_uint 10 p =? 0) in
  require (negb (resourceIntent && negb (get_uint 10 p =? ResourceSessionWireVersion)))
    (optionError "UNSUPPORTED" "Resource exec wire version is unsupported.") ;;
  require (negb (resourceIntent && (0 <? blen unknown))) (optionError "UNSUPPORTED" "Unknown resource exec option field.") ;;
  Some (Ok resourceIntent).

Definition options_frame (o : SessionOptions) (data reference route : option message) : message :=
  put_string 1 (so_ID o) ++ put_strings 2 (Command o) ++ put_bool 3 (TTY o) ++ put_map 4 (so_Params o)
  ++ put_map 5 (so_Labels o) ++ put_string 6 (ResourcePlugin o) ++ put_string 7 (so_ResourceKey o) ++ put_some 9 data
  ++ put_uint 10 (if HasResourceIntent o then ResourceSessionWireVersion else 0) ++ put_some 11 reference ++ put_some 12 route.

(** [(o *SessionOptions) ToProto] *)
Definition SessionOptions_ToProto (o : option SessionOptions) : outcome message :=
  match o with
  | None => fails (optionError "INVALID_REQUEST" "Session options must not be nil.")
  | Some o =>
    opts ← admitted_options (HasResourceIntent o) o;
    reference ← encode_optional ToProtoResourceReference (so_Reference opts);
    route ← encode_optional ToProtoAccessRoute (so_Route opts);
    extra ← body_bytes execResourceDataFieldNumber (so_ResourceData opts);
    require (proto_Size (pmsg (options_frame opts None reference route)) + extra <=? MaxMessageBytes)
      (optionError "RESOURCE_LIMIT" "Exec resource frame exceeds wire limit.") ;;
    data ← encode_optional ToProtoValue (so_ResourceData opts);
    Some (Ok (options_frame opts data reference route))
  end.

Definition NewSessionOptionsFromProto (p : option pvalue) : outcome SessionOptions :=
  match p with
  | Some (PMsg unknown p) =>
    resourceIntent ← validateExecOptionWire unknown p;
    let decoded data reference route :=
      mkSessionOptions (get_map 4 p) (get_map 5 p) (get_string 1 p) (get_string 6 p) (get_string 7 p) data reference route
        (get_strings 2 p) (negb (get_uint 3 p =? 0)) in
    validate_reflected (sessionOptionMetadata (decoded None None None)) ;;
    reference ← encode_optional (λ p, FromProtoResourceReference (Some p)) (get_embedded 11 p);
    route ← encode_optional (λ p, FromProtoAccessRoute (Some p)) (get_embedded 12 p);
    data ← encode_optional (λ p, FromProtoValue (Some p)) (get_embedded 9 p);
    opts ← admitted_options resourceIntent (decoded data reference route);
    require (proto_Size (PMsg unknown p) <=? MaxMessageBytes) (optionError "RESOURCE_LIMIT" "Exec frame exceeds wire limit.") ;;
    Some (Ok opts)
  | _ => fails (optionError "INVALID_REQUEST" "Session options must not be nil.")
  end.
End messages.

(** ** Native commands *)

Record NativeCommand := mkNativeCommand {
  Executable : string; Args : list string; Env : list (string * string); Cwd : string
}.
#[export] Instance reflect_NativeCommand : Reflect NativeCommand := λ c,
  RStruct [field (Executable c); field (Args c); (false, reflect_map (Env c)); field (Cwd c)].

(** [strings.ContainsRune(s, 0)] and [strings.ContainsAny(s, "=\x00")] *)
Definition contains_nul (s : string) : bool := existsb (λ c, byte_val c =? 0) (bytes_of s).
Definition contains_separator (s : string) : bool := existsb (λ c, (byte_val c =? 61) || (byte_val c =? 0)) (bytes_of s).

Definition ValidateNativeCommand (command : option NativeCommand) : outcome unit :=
  match command with
  | None => fails (optionError "INVALID_REQUEST" "Native command must not be nil.")
  | Some c =>
    ValidateMetadata (Some c) ;;
    require (negb (bool_decide (Executable c = "") || contains_nul (Executable c)))
      (optionError "INVALID_REQUEST" "Native executable must be nonempty and contain no NUL.") ;;
    each (λ arg, require (negb (contains_nul arg)) (optionError "INVALID_REQUEST" "Native arguments must contain no NUL."))
      (Args c) ;;
    each (λ e, require (negb (bool_decide (e.1 = "") || contains_separator e.1 || contains_nul e.2))
                 (optionError "INVALID_REQUEST"
                    "Native environment requires nonempty names without equals or NUL and values without NUL."))
      (Env c) ;;
    require (negb (contains_nul (Cwd c))) (optionError "INVALID_REQUEST" "Native working directory must contain no NUL.")
  end.

Definition ValidateNativeCommandOptions `{Protowire, ProtoRuntime} (o : SessionOptions) : outcome unit :=
  ValidateResourceSessionOptions o ;;
  require (nonnil (so_Reference o) && nonnil (so_Route o))
    (optionError "INVALID_REQUEST" "Native command requires an explicit resource reference and route.").

Section planning.
Context `{Protowire, ProtoRuntime}.

(** [handlers] holds what each registered planner answers for these options, if
    the handler has one; [selected] is the caller's connection. *)
Definition PlanNativeCommand (handlers : gmap string (option (SessionOptions → outcome (option NativeCommand))))
    (selected : option string) (host : option utilityHost) (opts : SessionOptions) : outcome (option NativeCommand) :=
  ValidateNativeCommandOptions opts ;;
  normalized ← NormalizeResourceSessionOptions opts;
  match so_Route normalized with
  | None => None
  | Some route =>
    require (bool_decide (selected = Some (Connection route)))
      (optionError "INVALID_REQUEST" "Native command route must match the explicit caller connection.") ;;
    match handlers !! (ResourcePlugin normalized +:+ "/" +:+ so_ResourceKey normalized) with
    | Some (Some plan) =>
      let u := WithUtilityConnection selected host (so_Reference normalized) (so_Route normalized)
                 (Some (λ _, command ← plan normalized; ValidateNativeCommand command ;; Some (Ok command))) in
      verdict u ;; default None (ran u)
    | _ => fails (optionError "UNSUPPORTED" "Native command planning is unavailable for this resource.")
    end
  end.
End planning.
