(* ===== verification/Exec.v ===== *)
(** * The terminal manager (pkg/v1/exec: buffer.go, errors.go, session.go,
    stream.go, sink.go, manager.go)

    Sessions are created, read, attached, closed and cleaned up concurrently. A
    step is one critical section of the code, or a stretch between two of them
    that touches nothing shared. A session is addressed by its index in the list
    of all creations ever begun, which plays the part of its [*sessionState]. *)
From S2P Require Import Prelude GoStd GoTime GoFmt Errors Values Json Domain ExecOptions.
From stdpp Require Import relations.
Local Open Scope Z_scope.

(** ** The output buffer *)

Record OutputBuffer := mkBuffer { buf : bytes; capacity : Z }.
Definition NewOutputBuffer (capacity : Z) : OutputBuffer := mkBuffer [] (if capacity <? 0 then 0 else capacity).
Definition DefaultOutputBufferSize : Z := 1000000.
Definition NewDefaultOutputBuffer : OutputBuffer := NewOutputBuffer DefaultOutputBufferSize.

(** [l[i:]]; [None] is the panic on an index out of range. *)
Definition from_index {A} (i : Z) (l : list A) : option (list A) :=
  if (0 <=? i) && (i <=? Z.of_nat (length l)) then Some (drop (Z.to_nat i) l) else None.

Definition Append (b : OutputBuffer) (data : bytes) : option OutputBuffer :=
  if capacity b =? 0 then Some (mkBuffer [] (capacity b))
  else if capacity b <=? blen data then
    l ← from_index (blen data - capacity b) data; Some (mkBuffer l (capacity b))
  else if blen (buf b) + blen data <=? capacity b then Some (mkBuffer (buf b ++ data) (capacity b))
  else
    let keep := capacity b - blen data in
    l ← from_index (blen (buf b) - keep) (buf b); Some (mkBuffer (l ++ data) (capacity b)).
Definition GetAll (b : OutputBuffer) : bytes := buf b.
Definition Len (b : OutputBuffer) : Z := blen (buf b).

(** The history a buffer stands for: its last bytes. *)
Definition last_bytes (n : Z) (l : bytes) : bytes := drop (length l - Z.to_nat n) l.

Lemma exec_blen_app (a b : bytes) : blen (a ++ b) = blen a + blen b.
Proof. unfold blen. rewrite length_app. lia. Qed.
Lemma last_bytes_length n l : 0 ≤ n → blen (last_bytes n l) = Z.min n (blen l).
Proof. intros. unfold last_bytes, blen. rewrite length_drop. lia. Qed.
Lemma last_bytes_all n l : blen l ≤ n → last_bytes n l = l.
Proof. intros. unfold last_bytes, blen in *. replace (length l - Z.to_nat n)%nat with 0%nat by lia. done. Qed.
Lemma last_bytes_app_r n a b : n ≤ blen b → last_bytes n (a ++ b) = last_bytes n b.
Proof.
  intros. unfold last_bytes, blen in *. rewrite length_app, drop_app_ge by lia. f_equal. lia.
Qed.
Lemma last_bytes_app_l n a b : 0 ≤ n → blen b ≤ n → last_bytes n (a ++ b) = last_bytes (n - blen b) a ++ b.
Proof.
  intros. unfold last_bytes, blen in *. rewrite length_app, drop_app_le by lia. do 2 f_equal. lia.
Qed.
Lemma last_bytes_last n k l : 0 ≤ k ≤ n → last_bytes k (last_bytes n l) = last_bytes k l.
Proof.
  intros. unfold last_bytes. rewrite drop_drop, length_drop. f_equal. lia.
Qed.

(** A buffer that holds the last bytes of [history]. *)
Definition holds (b : OutputBuffer) (n : Z) (history : bytes) : Prop := capacity b = n ∧ buf b = last_bytes n history.

Lemma Append_holds b n history data : 0 ≤ n → holds b n history →
  ∃ b', Append b data = Some b' ∧ holds b' n (history ++ data).
Proof.
  intros Hn [Hc Hb]. pose proof (last_bytes_length n history Hn) as Hl. rewrite <- Hb in Hl. unfold Append. rewrite Hc.
  destruct (Z.eqb_spec n 0) as [->|Hz].
  { exists (mkBuffer [] 0). split; [done|]. split; [done|]. unfold last_bytes. cbn. rewrite drop_ge; [done|lia]. }
  destruct (Z.leb_spec n (blen data)).
  { unfold from_index. replace (0 <=? blen data - n) with true by lia.
    replace (blen data - n <=? Z.of_nat (length data)) with true by (unfold blen in *; lia).
    eexists. split; [reflexivity|]. split; [done|]. cbn [buf]. rewrite last_bytes_app_r by done.
    unfold last_bytes. f_equal. unfold blen in *. lia. }
  destruct (Z.leb_spec (blen (buf b) + blen data) n).
  { eexists. split; [reflexivity|]. split; [done|]. cbn [buf]. rewrite last_bytes_app_l by (unfold blen in *; lia).
    f_equal. rewrite Hb. unfold last_bytes. f_equal.
    rewrite Hl in *. unfold blen in *. destruct (decide (Z.of_nat (length history) ≤ n)); lia. }
  unfold from_index.
  set (i := blen (buf b) - (n - blen data)). replace (0 <=? i) with true by (subst i; lia).
  replace (i <=? Z.of_nat (length (buf b))) with true by (subst i; unfold blen in *; lia).
  eexists. split; [reflexivity|]. split; [done|]. cbn [buf]. rewrite last_bytes_app_l by (unfold blen in *; lia). f_equal.
  rewrite <- (last_bytes_last n (n - blen data) history), <- Hb by (unfold blen in *; lia).
  unfold last_bytes. f_equal. subst i. unfold blen in *. lia.
Qed.

(** ** Errors *)

Inductive ErrorCode :=
| ErrCodeSessionNotFound | ErrCodeHandlerNotFound | ErrCodeSessionClosed | ErrCodeTerminalError | ErrCodeSessionExists.

Record StreamError := mkStreamError {
  Title : string; Message : string; Suggestion : string; Retryable : bool; RetryCommands : list string
}.
(** An error of plugin or library code: its text, and the [*ExecError] that
    [errors.As] finds in it. *)
Record foreign := mkForeign { f_Error : string; f_ExecError : option StreamError }.

Inductive failure :=
| Foreign (e : foreign)
| ExecSessionError (Code : ErrorCode) (SessionID : string) (Message : formatted failure) (Err : option failure)
| Errorf (m : formatted failure).

Definition NewSessionNotFoundError (id : string) : failure :=
  ExecSessionError ErrCodeSessionNotFound id (Sprintf "session not found" []) None.
Definition NewHandlerNotFoundError (key : string) (available : list string) : failure :=
  ExecSessionError ErrCodeHandlerNotFound "" (Sprintf "no handler for %q (available: %v)" [OString key; OStrings available]) None.
Definition NewSessionClosedError (id : string) : failure :=
  ExecSessionError ErrCodeSessionClosed id (Sprintf "session is closed" []) None.
Definition NewTerminalError (id : string) (e : failure) : failure :=
  ExecSessionError ErrCodeTerminalError id (Sprintf "terminal error: %v" [OError e]) (Some e).
Definition NewSessionExistsError (id : string) : failure :=
  ExecSessionError ErrCodeSessionExists id (Sprintf "session already exists" []) None.

(** ** Output *)

Definition StreamTargetStdOut : Z := 0.
Definition StreamTargetStdErr : Z := 1.
Definition StreamSignalNone : Z := 0.
Definition StreamSignalClose : Z := 1.
Definition StreamSignalError : Z := 10.
Record StreamOutput := mkOutput {
  SessionID : string; Data : bytes; o_Target : Z; o_Signal : Z; o_Error : option StreamError; Seq : Z
}.

(** What [handleStream] emits for a chunk. *)
Definition data_output (id : string) (data : bytes) (seq : Z) : StreamOutput :=
  mkOutput id data StreamTargetStdOut StreamSignalNone None seq.
(** What [cleanupSession] emits. *)
Definition stream_error (e : foreign) : StreamError :=
  match f_ExecError e with
  | Some x => x
  | None => mkStreamError "Session failed" (f_Error e) "The exec session terminated unexpectedly." true []
  end.
Definition error_output (id : string) (e : foreign) : StreamOutput :=
  mkOutput id (bytes_of (f_Error e)) StreamTargetStdErr StreamSignalError (Some (stream_error e)) 0.
Definition newline : string := String (byte_of 10) EmptyString.
Definition close_output (id : string) : StreamOutput :=
  mkOutput id (bytes_of (newline +:+ "Session closed" +:+ newline)) StreamTargetStdOut StreamSignalClose None 0.

(** ** State *)

Record Session := mkSession {
  CreatedAt : Time; Labels : list (string * string); s_Params : list (string * string); ID : string;
  s_Command : list string; Attached : bool
}.
Definition setAttached (v : bool) (s : Session) : Session :=
  mkSession (CreatedAt s) (Labels s) (s_Params s) (ID s) (s_Command s) v.
Definition no_session : Session := mkSession zero_time [] [] "" [] false.

(** How far [createSession] is. *)
Inductive stage :=
| Checked                   (** the handler is known, before [sessionContext] *)
| Contexted                 (** before the terminal is made *)
| Opened                    (** before the request is looked at *)
| Handling                  (** in the handler *)
| Registering               (** before [registerSession] *)
| Registered                (** in the map, before the workers start *)
| Running
| Refused (e : failure).

(** [handleStream] and [handleSignals] with [cleanupSession]. *)
Inductive reader := Unstarted | Reading | Emitting (data : bytes) (seq : Z) | Stopped.
Inductive signals :=
| Asleep | Waiting
| Closing (e : option foreign) | Removing (e : option foreign) | Cancelling (e : option foreign)
| Reporting (e : foreign) | Announcing (e : option foreign) | Finished (e : option foreign).

(** Who ended a session's context first. *)
Inductive reason := ByRequest | ByCaller | ByReader | ByCleanup | ByRefusal.

Record entry := mkEntry {
  e_opts : SessionOptions; e_resource : bool;
  e_request : option failure;           (** [Err()] of the request's context *)
  e_hook : hook; e_accepted : bool;
  e_ended : option reason;              (** of the session's own context *)
  e_closes : option nat;                (** the terminal, and how often it was closed *)
  e_stage : stage; e_session : Session; e_buffer : OutputBuffer; e_nextSeq : Z; e_ttyResize : bool;
  e_history : list (bytes * bool);      (** every chunk read, and whether a client was attached *)
  e_reader : reader; e_signals : signals; e_done : bool
}.

Record Handler := mkHandler { h_TTYHandler : bool; HandlesResize : bool }.

(** [m.sink]: none, one of the configuration, or the channel sink of a stream. *)
Inductive OutputSink := NoSink | ConfiguredSink | ChannelSink (stream : nat).

Record Manager := mkManager {
  handlers : gmap string Handler; sessions : gmap string nat; entries : list entry;
  sink : OutputSink; streams : list bool;             (** whether each stream's context ended *)
  out : list StreamOutput;                            (** the channel *)
  log : list (nat * StreamOutput * bool);             (** each [emitOutput] call, and whether it was delivered *)
  wg : nat
}.
Definition NewManager (handlers : gmap string Handler) (configured : bool) : Manager :=
  mkManager handlers ∅ [] (if configured then ConfiguredSink else NoSink) [] [] [] 0.

Definition put (m : Manager) (n : nat) (e : entry) : Manager :=
  mkManager (handlers m) (sessions m) (<[n := e]> (entries m)) (sink m) (streams m) (out m) (log m) (wg m).
Definition with_sessions (m : Manager) (s : gmap string nat) : Manager :=
  mkManager (handlers m) s (entries m) (sink m) (streams m) (out m) (log m) (wg m).
Definition with_wg (m : Manager) (w : nat) : Manager :=
  mkManager (handlers m) (sessions m) (entries m) (sink m) (streams m) (out m) (log m) w.
Definition with_output (m : Manager) (o : list StreamOutput) (l : nat * StreamOutput * bool) : Manager :=
  mkManager (handlers m) (sessions m) (entries m) (sink m) (streams m) o (log m ++ [l]) (wg m).

Definition set_stage (st : stage) (e : entry) : entry :=
  mkEntry (e_opts e) (e_resource e) (e_request e) (e_hook e) (e_accepted e) (e_ended e) (e_closes e) st (e_session e)
    (e_buffer e) (e_nextSeq e) (e_ttyResize e) (e_history e) (e_reader e) (e_signals e) (e_done e).
Definition set_hook (h : hook) (e : entry) : entry :=
  mkEntry (e_opts e) (e_resource e) (e_request e) h (e_accepted e) (e_ended e) (e_closes e) (e_stage e) (e_session e)
    (e_buffer e) (e_nextSeq e) (e_ttyResize e) (e_history e) (e_reader e) (e_signals e) (e_done e).
(** [cancel()]: the first call counts. *)
Definition cancel (r : reason) (e : entry) : entry :=
  mkEntry (e_opts e) (e_resource e) (e_request e) (e_hook e) (e_accepted e) (Some (default r (e_ended e))) (e_closes e)
    (e_stage e) (e_session e) (e_buffer e) (e_nextSeq e) (e_ttyResize e) (e_history e) (e_reader e) (e_signals e) (e_done e).
Definition set_terminal (c : option nat) (e : entry) : entry :=
  mkEntry (e_opts e) (e_resource e) (e_request e) (e_hook e) (e_accepted e) (e_ended e) c (e_stage e) (e_session e)
    (e_buffer e) (e_nextSeq e) (e_ttyResize e) (e_history e) (e_reader e) (e_signals e) (e_done e).
Definition closeTerminal (e : entry) : entry := set_terminal (S <$> e_closes e) e.
Definition set_session (s : Session) (e : entry) : entry :=
  mkEntry (e_opts e) (e_resource e) (e_request e) (e_hook e) (e_accepted e) (e_ended e) (e_closes e) (e_stage e) s
    (e_buffer e) (e_nextSeq e) (e_ttyResize e) (e_history e) (e_reader e) (e_signals e) (e_done e).
Definition set_reader (r : reader) (e : entry) : entry :=
  mkEntry (e_opts e) (e_resource e) (e_request e) (e_hook e) (e_accepted e) (e_ended e) (e_closes e) (e_stage e) (e_session e)
    (e_buffer e) (e_nextSeq e) (e_ttyResize e) (e_history e) r (e_signals e) (e_done e).
Definition set_signals (s : signals) (e : entry) : entry :=
  mkEntry (e_opts e) (e_resource e) (e_request e) (e_hook e) (e_accepted e) (e_ended e) (e_closes e) (e_stage e) (e_session e)
    (e_buffer e) (e_nextSeq e) (e_ttyResize e) (e_history e) (e_reader e) s (e_done e).
Definition set_done (e : entry) : entry :=
  mkEntry (e_opts e) (e_resource e) (e_request e) (e_hook e) (e_accepted e) (e_ended e) (e_closes e) (e_stage e) (e_session e)
    (e_buffer e) (e_nextSeq e) (e_ttyResize e) (e_history e) (e_reader e) (e_signals e) true.

(** ** Creation *)

Definition with_id (o : SessionOptions) (id : string) : SessionOptions :=
  mkSessionOptions (so_Params o) (so_Labels o) id (ResourcePlugin o) (so_ResourceKey o) (so_ResourceData o) (so_Reference o)
    (so_Route o) (Command o) (TTY o).
Definition ensureSessionID (uuid id : string) : string := if bool_decide (id = "") then uuid else id.

(** [available] are the handler keys in this run's order. *)
Definition sessionHandler (m : Manager) (available : list string) (o : SessionOptions) : res failure Handler :=
  let handlerKey := ResourcePlugin o +:+ "/" +:+ so_ResourceKey o in
  match handlers m !! handlerKey with
  | Some h =>
    if h_TTYHandler h then
      match sessions m !! so_ID o with Some _ => Err (NewSessionExistsError (so_ID o)) | None => Ok h end
    else Err (NewHandlerNotFoundError handlerKey available)
  | None => Err (NewHandlerNotFoundError handlerKey available)
  end.

Definition begin_session (m : Manager) (o : SessionOptions) (resource : bool) (request : option failure) (h : Handler)
    : Manager :=
  mkManager (handlers m) (sessions m)
    (entries m ++ [mkEntry o resource request NoHook false None None Checked no_session NewDefaultOutputBuffer 0
                     (negb (HandlesResize h)) [] Unstarted Asleep false])
    (sink m) (streams m) (out m) (log m) (wg m).

(** The creation returns an error; [defer stopAdmission()] withdraws the hook. *)
Definition refuse (err : failure) (e : entry) : entry :=
  set_stage (Refused err) (set_hook (withdraw (e_hook e)) (cancel ByRefusal e)).

Definition sessionContext (e : entry) : entry :=
  if e_resource e then
    match e_request e with
    | Some err => refuse err e
    | None => set_stage Contexted (set_hook Armed e)
    end
  else set_stage Contexted e.

(** The factory answers an error, nothing, or a terminal. *)
Definition open_terminal (answer : res failure bool) (e : entry) : entry :=
  match answer with
  | Err err => refuse (NewTerminalError (so_ID (e_opts e)) err) e
  | Ok false => refuse (NewTerminalError (so_ID (e_opts e)) (Errorf (Sprintf "terminal factory returned nil" []))) e
  | Ok true => set_stage Opened (set_terminal (Some 0%nat) e)
  end.
Definition refuse_open (err : failure) (e : entry) : entry := refuse err (closeTerminal e).
(** [resource && baseCtx.Err() != nil] *)
Definition request_error (e : entry) : option failure := if e_resource e then e_request e else None.
Definition check_request (e : entry) : entry :=
  match request_error e with Some err => refuse_open err e | None => set_stage Handling e end.

Definition new_session (now : Time) (o : SessionOptions) : Session :=
  mkSession now (so_Labels o) (so_Params o) (so_ID o) (Command o) false.
Definition handled (answer : option failure) (now : Time) (e : entry) : entry :=
  match answer with
  | Some err => refuse_open (default (NewTerminalError (so_ID (e_opts e)) err) (request_error e)) e
  | None => set_stage Registering (set_session (new_session now (e_opts e)) e)
  end.

Definition canceled : failure := Foreign (mkForeign "context canceled" None).
Definition accept (e : entry) : entry :=
  mkEntry (e_opts e) (e_resource e) (e_request e) (withdraw (e_hook e)) (e_accepted e || e_resource e) (e_ended e)
    (e_closes e) Registered (e_session e) (e_buffer e) (e_nextSeq e) (e_ttyResize e) (e_history e) (e_reader e)
    (e_signals e) (e_done e).
(** Under the lock. [stopAdmission()] succeeds while the hook has not started. *)
Definition registerSession (m : Manager) (n : nat) (e : entry) : Manager :=
  let id := ID (e_session e) in
  match sessions m !! id with
  | Some _ => put m n (refuse_open (NewSessionExistsError id) e)
  | None =>
    if e_resource e && (negb (bool_decide (e_hook e = Armed)) || match e_request e with Some _ => true | None => false end)
    then put m n (refuse_open (default canceled (e_request e)) e)
    else with_sessions (put m n (accept e)) (<[id := n]> (sessions m))
  end.

(** [resourceAdmissionContext.Err], from the errors of its two contexts. *)
Definition admission_Err (accepted : bool) (parent own : option failure) : option failure :=
  if accepted then own else match parent with Some e => Some e | None => own end.

Definition start_workers (e : entry) : entry := set_stage Running (set_reader Reading (set_signals Waiting e)).

Definition end_request (err : failure) (e : entry) : entry :=
  mkEntry (e_opts e) (e_resource e) (Some err) (e_hook e) (e_accepted e) (e_ended e) (e_closes e) (e_stage e) (e_session e)
    (e_buffer e) (e_nextSeq e) (e_ttyResize e) (e_history e) (e_reader e) (e_signals e) (e_done e).

(** ** Reading *)

Definition DefaultStreamBufferSize : Z := 4096.

(** The locked section of [handleStream]: append, and publish to a client that is
    attached. *)
Definition read_chunk (data : bytes) (e : entry) : entry :=
  let attached := Attached (e_session e) in
  mkEntry (e_opts e) (e_resource e) (e_request e) (e_hook e) (e_accepted e) (e_ended e) (e_closes e) (e_stage e) (e_session e)
    (default (e_buffer e) (Append (e_buffer e) data)) ((e_nextSeq e + 1) mod 2 ^ 64) (e_ttyResize e)
    (e_history e ++ [(data, attached)]) (if attached then Emitting data (e_nextSeq e) else Reading)
    (e_signals e) (e_done e).

(** [emitOutput], through [ChannelSink.OnOutput]: sent when the channel has room,
    dropped when the stream of the sink has ended, else it blocks. *)
Inductive emits (m : Manager) (n : nat) (o : StreamOutput) : Manager → Prop :=
| Emit_unsunk : sink m = NoSink → emits m n o (with_output m (out m) (n, o, false))
| Emit_configured : sink m = ConfiguredSink → emits m n o (with_output m (out m) (n, o, true))
| Emit_sent s : sink m = ChannelSink s → Z.of_nat (length (out m)) < DefaultStreamBufferSize →
    emits m n o (with_output m (out m ++ [o]) (n, o, true))
| Emit_dropped s : sink m = ChannelSink s → streams m !! s = Some true → emits m n o (with_output m (out m) (n, o, false)).

(** ** Clients *)

(** [AttachSession]'s locked section, with the snapshot and the history it returns. *)
Definition AttachSession (e : entry) : entry * (Session * bytes) :=
  let e := set_session (setAttached true (e_session e)) e in (e, (e_session e, GetAll (e_buffer e))).
Definition DetachSession (e : entry) : entry := set_session (setAttached false (e_session e)) e.

Definition GetSession (m : Manager) (id : string) : res failure Session :=
  match sessions m !! id ≫= λ n, entries m !! n with
  | Some e => Ok (e_session e)
  | None => Err (NewSessionNotFoundError id)
  end.
(** In this run's order of the map. *)
Definition ListSessions (m : Manager) (ids : list string) : list Session :=
  omap (λ id, e_session <$> (sessions m !! id ≫= λ n, entries m !! n)) ids.

Definition Stream (m : Manager) : Manager :=
  mkManager (handlers m) (sessions m) (entries m)
    (match sink m with NoSink => ChannelSink (length (streams m)) | s => s end) (streams m ++ [false]) (out m) (log m) (wg m).

(** [accepted] is whether the resize loop takes the request within [ResizeTimeout]. *)
Definition ResizeSession (m : Manager) (id : string) (rows cols : Z) (accepted : bool) : res failure (Z * Z) :=
  if (rows <? 1) || (65535 <? rows) || (cols <? 1) || (65535 <? cols) then
    Err (Errorf (Sprintf "invalid resize dimensions: rows=%d cols=%d (must be 1..65535)" [OInt rows; OInt cols]))
  else match sessions m !! id with
       | None => Err (NewSessionNotFoundError id)
       | Some _ =>
         if accepted then Ok (rows mod 2 ^ 16, cols mod 2 ^ 16)
         else Err (Errorf (Sprintf "timeout sending resize for session %s" [OString id]))
       end.

(** What the stream loop does with an input and with a resize. *)
Definition writeToSession (e : entry) (write : option failure) : option failure :=
  match e_closes e with
  | None => Some (NewSessionClosedError (ID (e_session e)))
  | Some _ => NewTerminalError (ID (e_session e)) <$> write
  end.
Inductive resize := UnknownSession | ResizeTerminal (rows cols : Z) | ResizeHandler (rows cols : Z).
Definition handleResize (m : Manager) (id : string) (rows cols : Z) : resize :=
  match sessions m !! id ≫= λ n, entries m !! n with
  | None => UnknownSession
  | Some e => if e_ttyResize e then ResizeTerminal rows cols else ResizeHandler rows cols
  end.

(** ** Interleaving *)

Definition registered (e : entry) : bool := match e_stage e with Registered | Running => true | _ => false end.

Inductive step (m : Manager) : Manager → Prop :=
| Step_begin o resource request uuid available h :
    let o := with_id o (ensureSessionID uuid (so_ID o)) in
    sessionHandler m available o = Ok h → step m (begin_session m o resource request h)
| Step_context n e : entries m !! n = Some e → e_stage e = Checked → step m (put m n (sessionContext e))
| Step_terminal n e answer : entries m !! n = Some e → e_stage e = Contexted → step m (put m n (open_terminal answer e))
| Step_check n e : entries m !! n = Some e → e_stage e = Opened → step m (put m n (check_request e))
| Step_handle n e answer now :
    entries m !! n = Some e → e_stage e = Handling → step m (put m n (handled answer now e))
| Step_register n e : entries m !! n = Some e → e_stage e = Registering → step m (registerSession m n e)
| Step_start n e :
    entries m !! n = Some e → e_stage e = Registered → step m (with_wg (put m n (start_workers e)) (S (wg m)))
| Step_request_ends n e err :
    entries m !! n = Some e → e_request e = None → step m (put m n (end_request err e))
| Step_hook_fires n e :
    entries m !! n = Some e → is_Some (e_request e) → e_hook e = Armed → step m (put m n (set_hook Fired e))
| Step_hook_runs n e :
    entries m !! n = Some e → e_hook e = Fired → step m (put m n (set_hook Spent (cancel ByRequest e)))
| Step_read n e data :
    entries m !! n = Some e → e_reader e = Reading → 0 < blen data ≤ DefaultStreamBufferSize →
    step m (put m n (read_chunk data e))
| Step_emit_chunk n e data seq m' :
    entries m !! n = Some e → e_reader e = Emitting data seq →
    emits (put m n (set_reader Reading e)) n (data_output (ID (e_session e)) data seq) m' → step m m'
| Step_read_fails n e :                 (** an error, or the end of the terminal *)
    entries m !! n = Some e → e_reader e = Reading → step m (put m n (set_reader Stopped (cancel ByReader e)))
| Step_stop n e err :                   (** [<-ss.stopChan] *)
    entries m !! n = Some e → e_signals e = Waiting → step m (put m n (set_signals (Closing err) e))
| Step_context_done n e :               (** [<-ss.ctx.Done()] *)
    entries m !! n = Some e → e_signals e = Waiting → is_Some (e_ended e) →
    step m (put m n (set_signals (Closing None) e))
| Step_close_terminal n e err :
    entries m !! n = Some e → e_signals e = Closing err → step m (put m n (set_signals (Removing err) (closeTerminal e)))
| Step_remove n e err :
    entries m !! n = Some e → e_signals e = Removing err →
    step m (with_sessions (put m n (set_signals (Cancelling err) e)) (delete (ID (e_session e)) (sessions m)))
| Step_cleanup_cancel n e err :
    entries m !! n = Some e → e_signals e = Cancelling err →
    step m (put m n (set_signals (match err with Some x => Reporting x | None => Announcing None end) (cancel ByCleanup e)))
| Step_report n e err m' :
    entries m !! n = Some e → e_signals e = Reporting err →
    emits (put m n (set_signals (Announcing (Some err)) e)) n (error_output (ID (e_session e)) err) m' → step m m'
| Step_announce n e err m' :
    entries m !! n = Some e → e_signals e = Announcing err →
    emits (put m n (set_signals (Finished err) e)) n (close_output (ID (e_session e))) m' → step m m'
| Step_finish n e err :                 (** [ss.wg.Wait(); close(ss.done)] *)
    entries m !! n = Some e → e_reader e = Stopped → e_signals e = Finished err → e_done e = false →
    step m (with_wg (put m n (set_done e)) (Nat.pred (wg m)))
| Step_cancel n e :                     (** CloseSession, Close, or the end of a stream *)
    entries m !! n = Some e → registered e = true → step m (put m n (cancel ByCaller e))
| Step_attach n e :
    entries m !! n = Some e → registered e = true → step m (put m n (AttachSession e).1)
| Step_detach n e :
    entries m !! n = Some e → registered e = true → step m (put m n (DetachSession e))
| Step_stream : step m (Stream m)
| Step_stream_ends s :
    streams m !! s = Some false →
    step m (mkManager (handlers m) (sessions m) (entries m) (sink m) (<[s := true]> (streams m)) (out m) (log m) (wg m))
| Step_receive o rest :                 (** the transport takes an output *)
    out m = o :: rest → step m (mkManager (handlers m) (sessions m) (entries m) (sink m) (streams m) rest (log m) (wg m)).

Definition initial (m : Manager) : Prop := ∃ hs configured, m = NewManager hs configured.
Definition reachable (m : Manager) : Prop := ∃ m0, initial m0 ∧ rtc step m0 m.

(** ** What a session emitted *)

Definition outputs (n : nat) (m : Manager) : list StreamOutput :=
  omap (λ l : nat * StreamOutput * bool, if bool_decide (l.1.1 = n) then Some l.1.2 else None) (log m).
Definition is_data (o : StreamOutput) : bool := o_Signal o =? StreamSignalNone.
Definition data_outputs (n : nat) (m : Manager) : list StreamOutput := filter (λ o, is_data o = true) (outputs n m).
Definition notices (n : nat) (m : Manager) : list StreamOutput := filter (λ o, is_data o = false) (outputs n m).

(** The outputs due for chunks numbered from [k]: those read while attached. *)
Definition due (id : string) (k : nat) (h : list (bytes * bool)) : list StreamOutput :=
  concat (imap (λ i (c : bytes * bool), if c.2 then [data_output id c.1 (Z.of_nat (k + i) mod 2 ^ 64)] else []) h).
(** Read and published, not emitted yet. *)
Definition pending (e : entry) : list StreamOutput :=
  match e_reader e with Emitting data seq => [data_output (ID (e_session e)) data seq] | _ => [] end.
Definition history (e : entry) : bytes := concat (map fst (e_history e)).

(** What the cleanup has announced so far. *)
Definition reported (id : string) (err : option foreign) : list StreamOutput :=
  match err with Some x => [error_output id x] | None => [] end.
Definition announced (e : entry) : list StreamOutput :=
  let id := ID (e_session e) in
  match e_signals e with
  | Announcing err => reported id err
  | Finished err => reported id err ++ [close_output id]
  | _ => []
  end.

Lemma due_snoc id k h c : due id k (h ++ [c]) =
  due id k h ++ (if c.2 then [data_output id c.1 (Z.of_nat (k + length h) mod 2 ^ 64)] else []).
Proof.
  unfold due. rewrite imap_app, concat_app. f_equal. cbn [imap concat]. rewrite app_nil_r.
  by rewrite Nat.add_0_r.
Qed.
Lemma due_app id k h h' : due id k (h ++ h') = due id k h ++ due id (k + length h) h'.
Proof.
  unfold due. rewrite imap_app, concat_app. do 2 f_equal. apply imap_ext. intros i c _. cbn. by rewrite Nat.add_assoc.
Qed.
#[global] Arguments due : simpl never.
Lemma outputs_log n m o l : outputs n (with_output m o l) =
  outputs n m ++ (if bool_decide (l.1.1 = n) then [l.1.2] else []).
Proof. unfold outputs. cbn [log with_output]. rewrite omap_app. cbn [omap list_omap]. by destruct (bool_decide _). Qed.

(** ** The invariant *)

(** The terminal is closed; the session left the map. *)
Definition closed (s : signals) : bool :=
  match s with Asleep | Waiting | Closing _ => false | _ => true end.
Definition removed (s : signals) : bool := match s with Removing _ => false | s => closed s end.
(** The cleanup has cancelled. *)
Definition quit (s : signals) : bool := match s with Reporting _ | Announcing _ | Finished _ => true | _ => false end.
Definition listed (e : entry) : bool := registered e && negb (removed (e_signals e)).
Definition active (e : entry) : bool := match e_stage e with Running => negb (e_done e) | _ => false end.

Definition early (e : entry) : bool := match e_stage e with Registered | Running | Refused _ => false | _ => true end.

(** Before the workers start. *)
Record idle_ok (outs : list StreamOutput) (e : entry) : Prop := mkIdle {
  id_reader : e_reader e = Unstarted; id_signals : e_signals e = Asleep; id_history : e_history e = [];
  id_done : e_done e = false; id_outs : outs = [];
  id_buffer : e_buffer e = NewDefaultOutputBuffer; id_seq : e_nextSeq e = 0
}.
(** While they run and after. *)
Record worker_ok (outs : list StreamOutput) (e : entry) : Prop := mkWorker {
  wk_reader : e_reader e ≠ Unstarted; wk_signals : e_signals e ≠ Asleep;
  wk_buffer : holds (e_buffer e) DefaultOutputBufferSize (history e);
  wk_seq : e_nextSeq e = Z.of_nat (length (e_history e)) mod 2 ^ 64;
  wk_data : filter (λ o, is_data o = true) outs ++ pending e = due (ID (e_session e)) 0 (e_history e);
  wk_notices : filter (λ o, is_data o = false) outs = announced e;
  wk_done : e_done e = true → e_reader e = Stopped ∧ ∃ err, e_signals e = Finished err;
  wk_ended : e_reader e = Stopped ∨ quit (e_signals e) = true → is_Some (e_ended e);
  wk_flight : ∀ data seq, e_reader e = Emitting data seq → ∃ h, e_history e = h ++ [(data, true)] ∧ blen data ≤ DefaultStreamBufferSize
}.

(** The hook of a resource request before acceptance: the context is live until
    the hook ran. *)
Definition watched (e : entry) : Prop :=
  (e_resource e = false → e_hook e = NoHook) ∧ (e_ended e = None ∨ e_hook e = Spent).
(** Accepted: the request can no longer end the session. *)
Definition detached (e : entry) : Prop :=
  (e_hook e = NoHook ∨ e_hook e = Spent) ∧ e_ended e ≠ Some ByRequest ∧ e_ended e ≠ Some ByRefusal
  ∧ e_accepted e = e_resource e.
(** The terminal of each stage, how often it was closed, and who can cancel. *)
Definition creation_ok (e : entry) : Prop :=
  match e_stage e with
  | Checked => e_closes e = None ∧ e_hook e = NoHook ∧ e_ended e = None ∧ e_accepted e = false
  | Contexted => e_closes e = None ∧ watched e ∧ e_accepted e = false
  | Opened | Handling | Registering => e_closes e = Some 0%nat ∧ watched e ∧ e_accepted e = false
  | Registered => e_closes e = Some 0%nat ∧ detached e
  | Running => e_closes e = Some (if closed (e_signals e) then 1%nat else 0%nat) ∧ detached e
  | Refused _ => (e_closes e = None ∨ e_closes e = Some 1%nat) ∧ is_Some (e_ended e) ∧ e_hook e ≠ Armed ∧ e_accepted e = false
  end.
Definition entry_ok (outs : list StreamOutput) (e : entry) : Prop :=
  creation_ok e ∧ match e_stage e with Running => worker_ok outs e | _ => idle_ok outs e end.

Record inv (m : Manager) : Prop := mkInv {
  inv_entries : ∀ n e, entries m !! n = Some e → entry_ok (outputs n m) e;
  inv_silent : ∀ n, entries m !! n = None → outputs n m = [];
  inv_listed : ∀ id n, sessions m !! id = Some n ↔ ∃ e, entries m !! n = Some e ∧ listed e = true ∧ ID (e_session e) = id;
  inv_wg : wg m = sum_list_with (λ e, Nat.b2n (active e)) (entries m);
  inv_out : Z.of_nat (length (out m)) ≤ DefaultStreamBufferSize
}.

(** A step at one entry: what it must show. *)
Lemma inv_put m m' n e e' : inv m → entries m !! n = Some e →
  entries m' = <[n := e']> (entries m) →
  (∀ k, k ≠ n → outputs k m' = outputs k m) →
  entry_ok (outputs n m') e' →
  (∀ id k, sessions m' !! id = Some k ↔
     if decide (k = n) then listed e' = true ∧ ID (e_session e') = id else sessions m !! id = Some k) →
  (wg m' + Nat.b2n (active e) = wg m + Nat.b2n (active e'))%nat →
  Z.of_nat (length (out m')) ≤ DefaultStreamBufferSize →
  inv m'.
Proof.
  intros Hi Hn He Ho Hok Hs Hw Hout. pose proof (lookup_lt_Some _ _ _ Hn) as Hlt. constructor; [| | | |done].
  - intros k x. rewrite He, list_lookup_insert_Some. intros [(<- & <- & _)|[Hk Hx]]; [done|].
    rewrite Ho by done. by apply (inv_entries m Hi).
  - intros k. rewrite He. intros Hk. destruct (decide (k = n)) as [->|]; [by rewrite list_lookup_insert_eq in Hk|].
    rewrite list_lookup_insert_ne in Hk by done. rewrite Ho by done. by apply (inv_silent m Hi).
  - intros id k. rewrite Hs, He. destruct (decide (k = n)) as [->|Hk].
    + rewrite list_lookup_insert_eq by done. split; [intros [H1 H2]; by exists e'|]. by intros (x & [= <-] & H1 & H2).
    + rewrite list_lookup_insert_ne by done. apply (inv_listed m Hi).
  - rewrite He. pose proof (sum_list_with_set (λ e, Nat.b2n (active e)) _ _ _ e' Hn) as Hset. cbn beta in Hset.
    rewrite (inv_wg m Hi) in Hw. lia.
Qed.

(** A step that emits nothing and keeps the session's place. *)
Lemma inv_quiet m n e e' : inv m → entries m !! n = Some e → entry_ok (outputs n m) e' →
  listed e' = listed e → ID (e_session e') = ID (e_session e) ∨ listed e = false → active e' = active e → inv (put m n e').
Proof.
  intros Hi Hn Hok Hl Hid Ha. eapply (inv_put m _ n e e'); try done; cbn; [|by rewrite Ha|apply (inv_out m Hi)].
  intros id k. destruct (decide (k = n)) as [->|]; [|done]. rewrite (inv_listed m Hi), Hn, Hl.
  split; [intros (x & [= <-] & H1 & H2)|intros [H1 H2]].
  - destruct Hid as [->|Hid]; [done|congruence].
  - exists e. destruct Hid as [Hid|Hid]; [|congruence]. by rewrite <- Hid.
Qed.

(** *** Creation steps *)

Lemma begin_ok o resource request h :
  entry_ok [] (mkEntry o resource request NoHook false None None Checked no_session NewDefaultOutputBuffer 0
                 (negb (HandlesResize h)) [] Unstarted Asleep false).
Proof. repeat split; cbn; auto. Qed.

Lemma early_idle outs e : early e = true → entry_ok outs e → idle_ok outs e ∧ watched e ∧ e_accepted e = false.
Proof.
  intros He [Hc Hw]. unfold creation_ok, early in *. destruct (e_stage e); try done;
    (split; [done|]); try (by destruct Hc as (_ & ? & ?)).
  destruct Hc as (_ & Hh & He' & Ha). split; [|done]. split; [done|by left].
Qed.

Lemma exec_refuse_ok outs e err : idle_ok outs e → e_accepted e = false →
  e_closes e = None ∨ e_closes e = Some 1%nat → entry_ok outs (refuse err e).
Proof.
  intros [] Ha Hc. split; [|by constructor]. cbn. split_and!; [done|by eexists| |done]. by destruct (e_hook e).
Qed.
Lemma refuse_open_ok outs e err : idle_ok outs e → e_accepted e = false → e_closes e = Some 0%nat →
  entry_ok outs (refuse_open err e).
Proof. intros [] Ha Hc. apply exec_refuse_ok; [by constructor|done|right]. cbn. by rewrite Hc. Qed.

Ltac early_stage Hs Hok :=
  match type of Hok with entry_ok ?outs ?e =>
    let Hid := fresh "Hid" in let Hw := fresh "Hw" in let Ha := fresh "Ha" in let Hc := fresh "Hc" in
    destruct (early_idle outs e) as (Hid & Hw & Ha); [by unfold early; rewrite Hs|done|];
    destruct Hok as [Hc _]; unfold creation_ok in Hc; rewrite Hs in Hc; destruct Hc as (Hc & _)
  end.

Lemma sessionContext_ok outs e : e_stage e = Checked → entry_ok outs e → entry_ok outs (sessionContext e).
Proof.
  intros Hs [Hc Hid]. rewrite Hs in Hid. unfold creation_ok in Hc. rewrite Hs in Hc. destruct Hc as (Hc & Hh & He & Ha).
  unfold sessionContext. destruct (e_resource e) eqn:Hr.
  - destruct (e_request e); [apply exec_refuse_ok; auto|]. split; [|by destruct Hid].
    cbn. split_and!; [done| |done]. split; cbn; [congruence|by left].
  - split; [|by destruct Hid]. cbn. split_and!; [done| |done]. split; cbn; [done|by left].
Qed.
Lemma open_terminal_ok outs e answer : e_stage e = Contexted → entry_ok outs e → entry_ok outs (open_terminal answer e).
Proof.
  intros Hs Hok. early_stage Hs Hok. destruct answer as [[]|]; cbn; try (apply exec_refuse_ok; auto).
  split; [|by destruct Hid]. cbn. by destruct Hw.
Qed.
Lemma check_request_ok outs e : e_stage e = Opened → entry_ok outs e → entry_ok outs (check_request e).
Proof.
  intros Hs Hok. early_stage Hs Hok. unfold check_request. destruct (request_error e); [by apply refuse_open_ok|].
  split; [|by destruct Hid]. cbn. by destruct Hw.
Qed.
Lemma handled_ok outs e answer now : e_stage e = Handling → entry_ok outs e → entry_ok outs (handled answer now e).
Proof.
  intros Hs Hok. early_stage Hs Hok. unfold handled. destruct answer; [by apply refuse_open_ok|].
  split; [|by destruct Hid]. cbn. by destruct Hw.
Qed.
Lemma accept_ok outs e : e_stage e = Registering → entry_ok outs e →
  e_resource e && (negb (bool_decide (e_hook e = Armed)) || match e_request e with Some _ => true | None => false end) = false →
  entry_ok outs (accept e).
Proof.
  intros Hs Hok Hg. early_stage Hs Hok. split; [|by destruct Hid]. destruct Hw as [Hw1 Hw2].
  assert ((e_hook e = NoHook ∨ e_hook e = Armed) ∧ e_ended e = None) as [Hh He].
  { destruct (e_resource e) eqn:Hr; cbn in Hg.
    - apply orb_false_iff in Hg as [Hg _]. apply negb_false_iff, bool_decide_eq_true in Hg.
      split; [by right|]. destruct Hw2; [done|congruence].
    - specialize (Hw1 eq_refl). split; [by left|]. destruct Hw2; [done|congruence]. }
  cbn. split; [done|]. unfold detached. cbn. rewrite He, Ha. split_and!; try done. destruct Hh as [->| ->]; auto.
Qed.
Lemma start_workers_ok outs e : e_stage e = Registered → entry_ok outs e → entry_ok outs (start_workers e).
Proof.
  intros Hs [Hc Hid]. rewrite Hs in Hid. unfold creation_ok in Hc. rewrite Hs in Hc. destruct Hc as [Hc Hd].
  destruct Hid as [? ? Hh Hdn -> Hb Hq]. split; [by cbn|]. constructor; unfold history, pending; cbn; rewrite ?Hh, ?Hb, ?Hq, ?Hdn; try done.
  by intros [|].
Qed.

(** *** Requests, workers and clients *)

Lemma end_request_ok outs e err : entry_ok outs e → entry_ok outs (end_request err e).
Proof. intros [Hc Hw]. split; [exact Hc|]. cbn. destruct (e_stage e); by destruct Hw. Qed.
Lemma hook_fires_ok outs e : e_hook e = Armed → entry_ok outs e → entry_ok outs (set_hook Fired e).
Proof.
  intros Hh [Hc Hw]. split; [|cbn; destruct (e_stage e); by destruct Hw].
  unfold creation_ok, watched, detached in *. cbn. rewrite Hh in Hc.
  destruct (e_stage e); destruct_and?; split_and?; try done; naive_solver.
Qed.
Lemma hook_runs_ok outs e : e_hook e = Fired → entry_ok outs e → entry_ok outs (set_hook Spent (cancel ByRequest e)).
Proof.
  intros Hh [Hc Hw]. split.
  - unfold creation_ok, watched, detached in *. cbn. rewrite Hh in Hc.
    destruct (e_stage e); destruct_and?; split_and?; try done; naive_solver.
  - cbn. destruct (e_stage e); destruct Hw; constructor; auto.
Qed.

(** Only a running session has workers. *)
Lemma worker_stage outs e : entry_ok outs e → e_reader e ≠ Unstarted ∨ e_signals e ≠ Asleep → e_stage e = Running.
Proof. intros [_ Hw] Hx. destruct (e_stage e); try done; destruct Hw; naive_solver. Qed.
Lemma running_ok outs e : entry_ok outs e → e_stage e = Running →
  e_closes e = Some (if closed (e_signals e) then 1%nat else 0%nat) ∧ detached e ∧ worker_ok outs e.
Proof. intros [Hc Hw] Hs. unfold creation_ok in Hc. rewrite Hs in *. tauto. Qed.
Lemma mk_running outs e : e_stage e = Running → e_closes e = Some (if closed (e_signals e) then 1%nat else 0%nat) →
  detached e → worker_ok outs e → entry_ok outs e.
Proof. intros Hs Hc Hd Hw. split; [unfold creation_ok; by rewrite Hs|by rewrite Hs]. Qed.

Ltac running Hok :=
  let Hst := fresh "Hst" in
  match type of Hok with entry_ok ?outs ?e =>
    assert (e_stage e = Running) as Hst by (eapply worker_stage; [exact Hok|];
      match goal with
      | H : e_reader e = _ |- _ => left; by rewrite H
      | H : e_signals e = _ |- _ => right; by rewrite H
      end);
    apply running_ok in Hok as (Hcl & Hde & Hwk); [|exact Hst]
  end.

Lemma cancel_detached r e : r = ByCaller ∨ r = ByReader ∨ r = ByCleanup → detached e → detached (cancel r e).
Proof.
  intros Hr (Hh & H1 & H2 & Ha). unfold detached. cbn. split_and!; try done; destruct (e_ended e); cbn; try congruence; naive_solver.
Qed.

Lemma read_chunk_ok outs e data : e_reader e = Reading → e_done e = false → blen data ≤ DefaultStreamBufferSize →
  entry_ok outs e → entry_ok outs (read_chunk data e).
Proof.
  intros Hr Hdone Hsize Hok. running Hok. destruct Hwk as [Hrd Hsg Hbuf Hseq Hdata Hnot Hdn Hend Hfl].
  apply mk_running; [done|done|done|].
  destruct (Append_holds (e_buffer e) DefaultOutputBufferSize (history e) data) as (b & Hb & Hholds); [done|done|].
  unfold read_chunk. rewrite Hb. cbn [default]. constructor; cbn.
  - by destruct (Attached _).
  - done.
  - unfold history in *. cbn. rewrite map_app, concat_app. cbn. by rewrite app_nil_r.
  - rewrite length_app, Hseq. cbn. rewrite Nat2Z.inj_add. rewrite Zplus_mod_idemp_l. done.
  - unfold pending in *. cbn. rewrite Hr in Hdata. rewrite app_nil_r in Hdata. rewrite due_snoc, <- Hdata. cbn.
    rewrite Hseq. by destruct (Attached _).
  - done.
  - rewrite Hdone. done.
  - intros [H|H]; [by destruct (Attached _)|]. apply Hend. by right.
  - intros d q. destruct (Attached _); [|done]. intros [= <- _]. by eexists.
Qed.

Lemma filter_app_one {A} (P : A → Prop) `{∀ x, Decision (P x)} l a :
  filter P (l ++ [a]) = filter P l ++ (if decide (P a) then [a] else []).
Proof. rewrite filter_app. by f_equal. Qed.

Lemma emit_chunk_ok outs e data seq : e_reader e = Emitting data seq → entry_ok outs e →
  entry_ok (outs ++ [data_output (ID (e_session e)) data seq]) (set_reader Reading e).
Proof.
  intros Hr Hok. running Hok. destruct Hwk as [Hrd Hsg Hbuf Hseq Hdata Hnot Hdn Hend Hfl].
  apply mk_running; [done|done|done|]. constructor; cbn; try done.
  - rewrite filter_app_one. cbn. unfold pending in *. cbn. rewrite Hr in Hdata. by rewrite app_nil_r.
  - rewrite filter_app_one. cbn. by rewrite app_nil_r.
  - intros Hd. destruct (Hdn Hd) as [H _]. congruence.
  - intros [H|H]; [done|]. apply Hend. by right.
Qed.
Lemma read_fails_ok outs e : e_reader e = Reading → entry_ok outs e → entry_ok outs (set_reader Stopped (cancel ByReader e)).
Proof.
  intros Hr Hok. running Hok. destruct Hwk as [Hrd Hsg Hbuf Hseq Hdata Hnot Hdn Hend Hfl].
  apply mk_running; [done|done|apply cancel_detached; auto|]. constructor; cbn; try done.
  - unfold pending in *. cbn. by rewrite Hr in Hdata.
  - intros Hd. destruct (Hdn Hd) as [H _]. congruence.
Qed.

Lemma set_signals_ok outs e s : entry_ok outs e → e_stage e = Running → s ≠ Asleep → closed s = closed (e_signals e) →
  quit s = false → quit (e_signals e) = false → entry_ok outs (set_signals s e).
Proof.
  intros Hok Hst Hs Hc Hq Hq'. apply running_ok in Hok as (Hcl & Hde & Hwk); [|done].
  destruct Hwk as [Hrd Hsg Hbuf Hseq Hdata Hnot Hdn Hend Hfl]. apply mk_running; [done|cbn; by rewrite Hc|done|].
  constructor; cbn; try done.
  - unfold announced in *. cbn. destruct (e_signals e), s; try done.
  - intros Hd. destruct (Hdn Hd) as [_ [err H]]. by rewrite H in Hq'.
  - intros [H|H]; [apply Hend; by left|congruence].
Qed.
Lemma waiting_ok outs e err : e_signals e = Waiting → entry_ok outs e → entry_ok outs (set_signals (Closing err) e).
Proof.
  intros Hs Hok. assert (e_stage e = Running) as Hst by (eapply worker_stage; [exact Hok|right; by rewrite Hs]).
  apply set_signals_ok; rewrite ?Hs; done.
Qed.
Lemma remove_ok outs e err : e_signals e = Removing err → entry_ok outs e → entry_ok outs (set_signals (Cancelling err) e).
Proof.
  intros Hs Hok. assert (e_stage e = Running) as Hst by (eapply worker_stage; [exact Hok|right; by rewrite Hs]).
  apply set_signals_ok; rewrite ?Hs; done.
Qed.
Lemma close_terminal_ok outs e err : e_signals e = Closing err → entry_ok outs e →
  entry_ok outs (set_signals (Removing err) (closeTerminal e)).
Proof.
  intros Hs Hok. running Hok. destruct Hwk as [Hrd Hsg Hbuf Hseq Hdata Hnot Hdn Hend Hfl].
  apply mk_running; [done|cbn; by rewrite Hcl, Hs|done|]. constructor; cbn; try done.
  - unfold announced in *. cbn. by rewrite Hs in Hnot.
  - intros Hd. destruct (Hdn Hd) as [_ [x H]]. congruence.
  - intros [H|H]; [apply Hend; by left|done].
Qed.
Lemma cleanup_cancel_ok outs e err : e_signals e = Cancelling err → entry_ok outs e →
  entry_ok outs (set_signals (match err with Some x => Reporting x | None => Announcing None end) (cancel ByCleanup e)).
Proof.
  intros Hs Hok. running Hok. destruct Hwk as [Hrd Hsg Hbuf Hseq Hdata Hnot Hdn Hend Hfl].
  apply mk_running; [done|cbn; rewrite Hcl, Hs; by destruct err|apply cancel_detached; auto|].
  constructor; cbn; try done.
  - by destruct err.
  - unfold announced in *. cbn. rewrite Hs in Hnot. by destruct err.
  - intros Hd. destruct (Hdn Hd) as [_ [x H]]. congruence.
Qed.
Lemma report_ok outs e err : e_signals e = Reporting err → entry_ok outs e →
  entry_ok (outs ++ [error_output (ID (e_session e)) err]) (set_signals (Announcing (Some err)) e).
Proof.
  intros Hs Hok. running Hok. destruct Hwk as [Hrd Hsg Hbuf Hseq Hdata Hnot Hdn Hend Hfl].
  apply mk_running; [done|cbn; by rewrite Hcl, Hs|done|]. constructor; cbn; try done.
  - rewrite filter_app_one. cbn. by rewrite app_nil_r.
  - rewrite filter_app_one, Hnot. unfold announced. cbn. by rewrite Hs.
  - intros Hd. destruct (Hdn Hd) as [_ [x H]]. congruence.
  - intros _. apply Hend. right. by rewrite Hs.
Qed.
Lemma announce_ok outs e err : e_signals e = Announcing err → entry_ok outs e →
  entry_ok (outs ++ [close_output (ID (e_session e))]) (set_signals (Finished err) e).
Proof.
  intros Hs Hok. running Hok. destruct Hwk as [Hrd Hsg Hbuf Hseq Hdata Hnot Hdn Hend Hfl].
  apply mk_running; [done|cbn; by rewrite Hcl, Hs|done|]. constructor; cbn; try done.
  - rewrite filter_app_one. cbn. by rewrite app_nil_r.
  - rewrite filter_app_one, Hnot. unfold announced. cbn. by rewrite Hs.
  - intros Hd. destruct (Hdn Hd) as [_ [x H]]. congruence.
  - intros _. apply Hend. right. by rewrite Hs.
Qed.
Lemma finish_ok outs e err : e_reader e = Stopped → e_signals e = Finished err → entry_ok outs e → entry_ok outs (set_done e).
Proof.
  intros Hr Hs Hok. running Hok. destruct Hwk as [Hrd Hsg Hbuf Hseq Hdata Hnot Hdn Hend Hfl].
  apply mk_running; [done|done|done|]. constructor; cbn; try done. intros _. split; [done|]. by exists err.
Qed.

Lemma registered_ok outs e : entry_ok outs e → registered e = true → ∀ e', e_stage e' = e_stage e →
  e_closes e' = e_closes e → detached e' → e_reader e' = e_reader e → e_signals e' = e_signals e →
  e_history e' = e_history e → e_done e' = e_done e → e_buffer e' = e_buffer e → e_nextSeq e' = e_nextSeq e →
  ID (e_session e') = ID (e_session e) → (is_Some (e_ended e) → is_Some (e_ended e')) → entry_ok outs e'.
Proof.
  intros [Hc Hw] Hreg e' H1 H2 H3 H4 H5 H6 H7 H8 H9 H10 H11. unfold registered, creation_ok in *. unfold entry_ok, creation_ok.
  rewrite H1, H2. destruct (e_stage e); try done.
  - split; [tauto|]. destruct Hw. constructor; congruence.
  - rewrite H5. split; [tauto|]. destruct Hw. constructor; unfold history, pending, announced in *;
      rewrite ?H4, ?H5, ?H6, ?H7, ?H8, ?H9, ?H10; auto.
Qed.
Lemma registered_detached outs e : entry_ok outs e → registered e = true → detached e.
Proof. intros [Hc _] Hr. unfold registered, creation_ok in *. destruct (e_stage e); try done; tauto. Qed.
Lemma exec_cancel_ok outs e : registered e = true → entry_ok outs e → entry_ok outs (cancel ByCaller e).
Proof.
  intros Hr Hok. eapply (registered_ok outs e); try done. apply cancel_detached; [auto|]. by eapply registered_detached.
Qed.
Lemma set_attached_ok outs e v : registered e = true → entry_ok outs e →
  entry_ok outs (set_session (setAttached v (e_session e)) e).
Proof. intros Hr Hok. eapply (registered_ok outs e); try done. exact (registered_detached _ _ Hok Hr). Qed.

(** *** Every step *)

Lemma emits_spec m n o m' : emits m n o m' →
  entries m' = entries m ∧ sessions m' = sessions m ∧ wg m' = wg m ∧
  (∀ k, outputs k m' = outputs k m ++ (if bool_decide (n = k) then [o] else [])) ∧
  (Z.of_nat (length (out m)) ≤ DefaultStreamBufferSize → Z.of_nat (length (out m')) ≤ DefaultStreamBufferSize).
Proof.
  intros H. destruct H; (split_and!; [done..| |]); try (intros k; apply outputs_log); try done.
  intros _. cbn. rewrite length_app. cbn. lia.
Qed.
Lemma inv_emits m n e e' o m' : inv m → entries m !! n = Some e → emits (put m n e') n o m' →
  entry_ok (outputs n m ++ [o]) e' → listed e' = listed e → ID (e_session e') = ID (e_session e) → active e' = active e → inv m'.
Proof.
  intros Hi Hn He Hok Hl Hid Ha. apply emits_spec in He as (H1 & H2 & H3 & H4 & H5). cbn in *.
  apply (inv_put m m' n e e'); try done.
  - intros k Hk. rewrite H4, bool_decide_eq_false_2 by done. apply app_nil_r.
  - rewrite H4, bool_decide_eq_true_2 by done. done.
  - intros id k. rewrite H2. destruct (decide (k = n)) as [->|]; [|done]. rewrite (inv_listed m Hi), Hn, Hl, Hid.
    split; [by intros (x & [= <-] & ? & ?)|by exists e].
  - rewrite H3, Ha. done.
  - apply H5, (inv_out m Hi).
Qed.

Lemma inv_new hs configured : inv (NewManager hs configured).
Proof. constructor; cbn; try done. intros id n. rewrite lookup_empty. split; [done|]. by intros (e & He & _). Qed.

Lemma exec_inv_begin m o resource request h : inv m → inv (begin_session m o resource request h).
Proof.
  intros Hi. constructor; cbn.
  - intros n e He. apply lookup_app_Some in He as [He|[Hle He]]; [by apply (inv_entries m Hi)|].
    apply list_lookup_singleton_Some in He as [Hz <-].
    match goal with |- entry_ok ?x _ => change x with (outputs n m) end.
    rewrite (inv_silent m Hi); [apply begin_ok|]. apply lookup_ge_None_2. lia.
  - intros n Hn. apply (inv_silent m Hi). rewrite lookup_ge_None in *. rewrite length_app in Hn. lia.
  - intros id n. rewrite (inv_listed m Hi). split.
    + intros (e & He & Hl & Hid). exists e. split; [|done]. by apply lookup_app_l_Some.
    + intros (e & He & Hl & Hid). apply lookup_app_Some in He as [He|[_ He]]; [by exists e|].
      apply list_lookup_singleton_Some in He as [_ <-]. done.
  - rewrite sum_list_with_app. cbn. rewrite (inv_wg m Hi). lia.
  - apply (inv_out m Hi).
Qed.

Lemma inv_register m n e : inv m → entries m !! n = Some e → e_stage e = Registering → inv (registerSession m n e).
Proof.
  intros Hi Hn Hs. pose proof (inv_entries m Hi n e Hn) as Hok.
  assert (Hunl : listed e = false) by (unfold listed, registered; by rewrite Hs).
  assert (Hin : active e = false) by (unfold active; by rewrite Hs).
  assert (Hrefuse : ∀ err, inv (put m n (refuse_open err e))).
  { intros err. pose proof Hok as Hok'. early_stage Hs Hok'.
    apply (inv_quiet m n e); try done; [by apply refuse_open_ok|by right]. }
  unfold registerSession. destruct (sessions m !! ID (e_session e)) eqn:Hfree; [apply Hrefuse|].
  destruct (e_resource e && _) eqn:Hg; [apply Hrefuse|].
  assert (Hnew : e_signals e = Asleep) by (pose proof Hok as Hok'; early_stage Hs Hok'; by destruct Hid).
  apply (inv_put m _ n e (accept e)); try done.
  - change (entry_ok (outputs n m) (accept e)). by apply accept_ok.
  - intros id k. cbn. destruct (decide (k = n)) as [->|Hk].
    + rewrite lookup_insert_Some. unfold listed. cbn. rewrite Hnew. cbn. split; [|by intros [_ <-]; left].
      intros [[<- _]|[Hne H]]; [done|]. apply (inv_listed m Hi) in H as (x & Hx & Hl & _). congruence.
    + rewrite lookup_insert_Some. split; [intros [[_ <-]|[_ H]]; done|]. intros H. right. split; [|done]. intros <-. congruence.
  - cbn. rewrite Hin. done.
  - apply (inv_out m Hi).
Qed.

Lemma exec_inv_remove m n e err : inv m → entries m !! n = Some e → e_signals e = Removing err →
  inv (with_sessions (put m n (set_signals (Cancelling err) e)) (delete (ID (e_session e)) (sessions m))).
Proof.
  intros Hi Hn Hs. pose proof (inv_entries m Hi n e Hn) as Hok.
  assert (e_stage e = Running) as Hst by (eapply worker_stage; [exact Hok|right; by rewrite Hs]).
  assert (Hl : listed e = true) by (unfold listed, registered; by rewrite Hst, Hs).
  assert (Hmine : sessions m !! ID (e_session e) = Some n) by (apply (inv_listed m Hi); by exists e).
  apply (inv_put m _ n e (set_signals (Cancelling err) e)); try done.
  - change (entry_ok (outputs n m) (set_signals (Cancelling err) e)). by apply remove_ok.
  - intros id k. cbn. rewrite lookup_delete_Some. destruct (decide (k = n)) as [->|Hk].
    + unfold listed, registered. cbn. rewrite Hst. cbn. split; [|by intros []]. intros [Hne H].
      apply (inv_listed m Hi) in H as (x & Hx & _ & Hid). congruence.
    + split; [by intros []|]. intros H. split; [|done]. intros <-. congruence.
  - apply (inv_out m Hi).
Qed.

(** A step that only replaces its entry. *)
Ltac quiet_step Hi Hn :=
  match goal with |- inv (put ?m ?n ?e') =>
    match type of Hn with entries _ !! _ = Some ?e => apply (inv_quiet m n e e' Hi Hn) end
  end.

Lemma unlisted_early e : registered e = false → listed e = false ∧ active e = false.
Proof. unfold listed, active, registered. by destruct (e_stage e). Qed.

Lemma inv_creating m n e e' : inv m → entries m !! n = Some e → registered e = false → registered e' = false →
  entry_ok (outputs n m) e' → inv (put m n e').
Proof.
  intros Hi Hn Hr Hr' Hok. destruct (unlisted_early e Hr) as [H1 H2]. destruct (unlisted_early e' Hr') as [H3 H4].
  apply (inv_quiet m n e e' Hi Hn Hok); [congruence|by right|congruence].
Qed.
Lemma worker_running m n e : inv m → entries m !! n = Some e → e_reader e ≠ Unstarted ∨ e_signals e ≠ Asleep →
  e_stage e = Running.
Proof. intros Hi Hn. by eapply worker_stage, (inv_entries m Hi n). Qed.
Lemma not_done m n e : inv m → entries m !! n = Some e → e_reader e ≠ Stopped ∨ (∀ err, e_signals e ≠ Finished err) → e_done e = false.
Proof.
  intros Hi Hn Hx. destruct (e_done e) eqn:Hd; [|done]. pose proof (inv_entries m Hi n e Hn) as [_ Hw].
  destruct (e_stage e); destruct Hw as [? ? ? H]; try congruence.
  match goal with H : e_done e = true → _ |- _ => destruct (H Hd) as [Hr [err Hs]] end. destruct Hx as [|Hx]; [done|]. by destruct (Hx err).
Qed.

Lemma exec_inv_step m m' : inv m → step m m' → inv m'.
Proof.
  intros Hi Hs. pose proof (inv_entries m Hi) as Hok.
  destruct Hs as [o resource request uuid available h o'|n e Hn Hst|n e answer Hn Hst|n e Hn Hst|n e answer now Hn Hst
    |n e Hn Hst|n e Hn Hst|n e err Hn Hr|n e Hn Hr Hh|n e Hn Hh|n e data Hn Hr Hd|n e data seq m' Hn Hr He|n e Hn Hr
    |n e err Hn Hg|n e Hn Hg Hc|n e err Hn Hg|n e err Hn Hg|n e err Hn Hg|n e err m' Hn Hg He|n e err m' Hn Hg He
    |n e err Hn Hr Hg Hd|n e Hn Hr|n e Hn Hr|n e Hn Hr| |s Hst|o rest Ho].
  - by apply exec_inv_begin.
  - apply (inv_creating m n e); [done|done|unfold registered; by rewrite Hst| |by apply sessionContext_ok, Hok].
    unfold sessionContext, registered. destruct (e_resource e), (e_request e); done.
  - apply (inv_creating m n e); [done|done|unfold registered; by rewrite Hst| |by apply open_terminal_ok, Hok].
    by destruct answer as [[]|].
  - apply (inv_creating m n e); [done|done|unfold registered; by rewrite Hst| |by apply check_request_ok, Hok].
    unfold check_request. by destruct (request_error e).
  - apply (inv_creating m n e); [done|done|unfold registered; by rewrite Hst| |by apply handled_ok, Hok].
    by destruct answer.
  - by apply inv_register.
  - apply (inv_put m _ n e (start_workers e)); try done; cbn.
    + change (entry_ok (outputs n m) (start_workers e)). by apply start_workers_ok, Hok.
    + intros id k. destruct (decide (k = n)) as [->|]; [|done]. rewrite (inv_listed m Hi), Hn.
      destruct (Hok n e Hn) as [_ Hw]. rewrite Hst in Hw.
      assert (listed e = true) by (unfold listed, registered; by rewrite Hst, (id_signals _ _ Hw)).
      split; [by intros (x & [= <-] & _ & ?)|]. intros [_ <-]. by exists e.
    + unfold active. rewrite Hst. cbn. destruct (Hok n e Hn) as [_ Hw]. rewrite Hst in Hw. rewrite (id_done _ _ Hw). cbn. lia.
    + apply (inv_out m Hi).
  - quiet_step Hi Hn; auto. by apply end_request_ok, Hok.
  - quiet_step Hi Hn; auto. by apply hook_fires_ok, Hok.
  - quiet_step Hi Hn; auto. by apply hook_runs_ok, Hok.
  - quiet_step Hi Hn; auto. apply read_chunk_ok; [done| |lia|by apply Hok]. eapply not_done; [done..|left; congruence].
  - eapply (inv_emits m n e (set_reader Reading e)); try done. by apply emit_chunk_ok, Hok.
  - quiet_step Hi Hn; auto. by apply read_fails_ok, Hok.
  - quiet_step Hi Hn; auto; [by apply waiting_ok, Hok|]. unfold listed. cbn. by rewrite Hg.
  - quiet_step Hi Hn; auto; [by apply waiting_ok, Hok|]. unfold listed. cbn. by rewrite Hg.
  - quiet_step Hi Hn; auto; [by apply close_terminal_ok, Hok|]. unfold listed. cbn. by rewrite Hg.
  - by eapply exec_inv_remove.
  - quiet_step Hi Hn; auto; [by apply cleanup_cancel_ok, Hok|]. unfold listed. cbn. rewrite Hg. by destruct err.
  - eapply (inv_emits m n e (set_signals (Announcing (Some err)) e)); try done; [by apply report_ok, Hok|].
    unfold listed. cbn. by rewrite Hg.
  - eapply (inv_emits m n e (set_signals (Finished err) e)); try done; [by apply announce_ok, Hok|].
    unfold listed. cbn. by rewrite Hg.
  - assert (e_stage e = Running) as Hst by (eapply worker_running; [done..|left; congruence]).
    apply (inv_put m _ n e (set_done e)); try done; cbn.
    + change (entry_ok (outputs n m) (set_done e)). by eapply finish_ok, Hok.
    + intros id k. destruct (decide (k = n)) as [->|]; [|done]. rewrite (inv_listed m Hi), Hn. unfold listed, registered. cbn.
      split; [by intros (x & [= <-] & ? & ?)|by exists e].
    + unfold active. cbn. rewrite Hst, Hd. cbn.
      assert (Hpos : (sum_list_with (λ e, Nat.b2n (active e)) (<[n := set_done e]> (entries m)) + 1 = wg m)%nat).
      { pose proof (sum_list_with_set (λ e, Nat.b2n (active e)) _ _ _ (set_done e) Hn) as Hset. cbn beta in Hset.
        rewrite (inv_wg m Hi). unfold active at 2 4 in Hset. cbn in Hset. rewrite Hst, Hd in Hset. cbn in Hset. lia. }
      lia.
    + apply (inv_out m Hi).
  - quiet_step Hi Hn; auto. by apply exec_cancel_ok, Hok.
  - quiet_step Hi Hn; auto. by apply set_attached_ok, Hok.
  - quiet_step Hi Hn; auto. by apply set_attached_ok, Hok.
  - destruct Hi. by constructor.
  - destruct Hi. by constructor.
  - destruct Hi as [? ? ? ? Hout]. constructor; try done. cbn. rewrite Ho in Hout. cbn in *. lia.
Qed.

Lemma exec_inv_reachable m : reachable m → inv m.
Proof.
  intros (m0 & (hs & c & ->) & H). revert H. apply (rtc_ind_r (λ m, inv m)); [apply inv_new|]. intros x y _ Hs Hi. by eapply exec_inv_step.
Qed.

(** ** How a session advances *)

(** Still to be accepted while its request is over: it never will be. *)
Definition abandoned (e : entry) : Prop := registered e = false ∧ e_resource e = true ∧ is_Some (e_request e).

Record advances (e e' : entry) : Prop := mkAdvances {
  ad_registered : registered e = true → registered e' = true ∧ ID (e_session e') = ID (e_session e);
  ad_history : ∃ l, e_history e' = e_history e ++ l ∧ Forall (λ c, c.2 = Attached (e_session e)) l;
  ad_removed : removed (e_signals e) = true → removed (e_signals e') = true;
  ad_done : e_done e = true → e_done e' = true;
  ad_abandoned : abandoned e → abandoned e';
  ad_ended : is_Some (e_ended e) → e_ended e' = e_ended e
}.

Lemma advances_refl e : advances e e.
Proof. constructor; auto. exists []. by rewrite app_nil_r. Qed.

(** What every step but a read keeps. *)
Lemma advances_kept e e' : (registered e = true → registered e' = true ∧ ID (e_session e') = ID (e_session e)) →
  e_history e' = e_history e → (removed (e_signals e) = true → removed (e_signals e') = true) →
  (e_done e = true → e_done e' = true) → (abandoned e → registered e' = false) → e_resource e' = e_resource e →
  (is_Some (e_request e) → is_Some (e_request e')) → (is_Some (e_ended e) → e_ended e' = e_ended e) → advances e e'.
Proof.
  intros H1 H2 H3 H4 H5 H6 H7 H8. constructor; auto.
  - exists []. by rewrite app_nil_r.
  - intros Ha. pose proof (H5 Ha). destruct Ha as (? & ? & ?). split_and!; auto. congruence.
Qed.
Lemma advances_creating e e' : registered e = false → e_history e' = e_history e → e_signals e' = e_signals e →
  e_done e' = e_done e → (abandoned e → registered e' = false) → e_resource e' = e_resource e →
  e_request e' = e_request e → (is_Some (e_ended e) → e_ended e' = e_ended e) → advances e e'.
Proof. intros Hr Hh Hs Hd Ha Hres Hq He. apply advances_kept; rewrite ?Hs, ?Hd, ?Hq; auto. congruence. Qed.
Lemma advances_running e e' : registered e' = registered e → ID (e_session e') = ID (e_session e) → e_history e' = e_history e →
  (removed (e_signals e) = true → removed (e_signals e') = true) → (e_done e = true → e_done e' = true) →
  e_resource e' = e_resource e → (is_Some (e_request e) → is_Some (e_request e')) →
  (is_Some (e_ended e) → e_ended e' = e_ended e) → advances e e'.
Proof. intros Hr. intros. apply advances_kept; auto; rewrite Hr; [done|]. by intros [? _]. Qed.

Lemma ended_cancel r e : is_Some (e_ended e) → e_ended (cancel r e) = e_ended e.
Proof. by intros [? H]; cbn; rewrite H. Qed.

Lemma ended_refuse_open err e : is_Some (e_ended e) → e_ended (refuse_open err e) = e_ended e.
Proof. by intros [? H]; cbn; rewrite H. Qed.

Lemma step_advances m m' n e : inv m → step m m' → entries m !! n = Some e →
  ∃ e', entries m' !! n = Some e' ∧ advances e e'.
Proof.
  intros Hi Hs Hn.
  assert (Hsame : entries m' = entries m → ∃ e', entries m' !! n = Some e' ∧ advances e e').
  { intros ->. exists e. split; [done|apply advances_refl]. }
  assert (Hput : ∀ k x x', entries m !! k = Some x → advances x x' → entries m' = <[k := x']> (entries m) →
    ∃ e', entries m' !! n = Some e' ∧ advances e e').
  { intros k x x' Hk Ha ->. destruct (decide (k = n)) as [->|].
    - exists x'. rewrite list_lookup_insert_eq by (by eapply lookup_lt_Some). split; [done|congruence].
    - exists e. rewrite list_lookup_insert_ne by done. split; [done|apply advances_refl]. }
  destruct Hs as [o resource request uuid available h o'|k x Hk Hst|k x answer Hk Hst|k x Hk Hst|k x answer now Hk Hst
    |k x Hk Hst|k x Hk Hst|k x err Hk Hr|k x Hk Hr Hh|k x Hk Hh|k x data Hk Hr Hd|k x data seq m' Hk Hr He|k x Hk Hr
    |k x err Hk Hg|k x Hk Hg Hc|k x err Hk Hg|k x err Hk Hg|k x err Hk Hg|k x err m' Hk Hg He|k x err m' Hk Hg He
    |k x err Hk Hr Hg Hd|k x Hk Hr|k x Hk Hr|k x Hk Hr| |s Hst|o rest Ho]; try (by apply Hsame).
  - exists e. split; [|apply advances_refl]. cbn. by apply lookup_app_l_Some.
  - eapply Hput; [exact Hk| |reflexivity]. unfold sessionContext.
    destruct (e_resource x) eqn:Hres; [destruct (e_request x) eqn:Hreq|].
    all: apply advances_creating; try done; try (cbn; congruence); try apply ended_cancel; try apply ended_refuse_open.
    all: unfold registered; by rewrite Hst.
  - eapply Hput; [exact Hk| |reflexivity].
    destruct answer as [[]|]; apply advances_creating; try done; try apply ended_cancel; try apply ended_refuse_open; unfold registered; by rewrite Hst.
  - eapply Hput; [exact Hk| |reflexivity]. unfold check_request.
    destruct (request_error x); apply advances_creating; try done; try apply ended_cancel; try apply ended_refuse_open; unfold registered; by rewrite Hst.
  - eapply Hput; [exact Hk| |reflexivity]. unfold handled.
    destruct answer; apply advances_creating; try done; try apply ended_cancel; try apply ended_refuse_open; unfold registered; by rewrite Hst.
  - assert (Hun : registered x = false) by (unfold registered; by rewrite Hst).
    assert (Hrefuse : ∀ err, entries (put m k (refuse_open err x)) = <[k := refuse_open err x]> (entries m) ∧ advances x (refuse_open err x)).
    { intros err. split; [done|]. apply advances_creating; try done. apply ended_refuse_open. }
    unfold registerSession in *. destruct (sessions m !! ID (e_session x)).
    { eapply Hput; [exact Hk|apply Hrefuse|reflexivity]. }
    destruct (e_resource x && _) eqn:Hg.
    { eapply Hput; [exact Hk|apply Hrefuse|reflexivity]. }
    eapply Hput; [exact Hk| |reflexivity]. apply advances_creating; try done.
    intros (_ & Hres & [q Hq]). rewrite Hres, Hq, orb_true_r in Hg. done.
  - eapply Hput; [exact Hk| |reflexivity]. destruct (inv_entries m Hi k x Hk) as [_ Hw]. rewrite Hst in Hw.
    apply advances_running; try done; [unfold registered; by rewrite Hst|by rewrite (id_signals _ _ Hw)].
  - eapply Hput; [exact Hk| |reflexivity]. by apply advances_running.
  - eapply Hput; [exact Hk| |reflexivity]. by apply advances_running.
  - eapply Hput; [exact Hk| |reflexivity]. apply advances_running; try done. apply ended_cancel.
  - eapply Hput; [exact Hk| |reflexivity]. constructor; try done. cbn. eexists. split; [reflexivity|]. by repeat constructor.
  - apply emits_spec in He as (He & _). eapply Hput; [exact Hk| |exact He]. by apply advances_running.
  - eapply Hput; [exact Hk| |reflexivity]. apply advances_running; try done. apply ended_cancel.
  - eapply Hput; [exact Hk| |reflexivity]. apply advances_running; try done. by rewrite Hg.
  - eapply Hput; [exact Hk| |reflexivity]. apply advances_running; try done. by rewrite Hg.
  - eapply Hput; [exact Hk| |reflexivity]. apply advances_running; try done. by rewrite Hg.
  - eapply Hput; [exact Hk| |reflexivity]. by apply advances_running.
  - eapply Hput; [exact Hk| |reflexivity]. apply advances_running; try done; [by destruct err|apply ended_cancel].
  - apply emits_spec in He as (He & _). eapply Hput; [exact Hk| |exact He]. by apply advances_running.
  - apply emits_spec in He as (He & _). eapply Hput; [exact Hk| |exact He]. by apply advances_running.
  - eapply Hput; [exact Hk| |reflexivity]. by apply advances_running.
  - eapply Hput; [exact Hk| |reflexivity]. apply advances_running; try done. apply ended_cancel.
  - eapply Hput; [exact Hk| |reflexivity]. by apply advances_running.
  - eapply Hput; [exact Hk| |reflexivity]. by apply advances_running.
Qed.

Lemma rtc_inv m m' : inv m → rtc step m m' → inv m'.
Proof. intros Hi H. induction H as [|m1 m2 m3 Hs _ IH]; [done|]. by eapply IH, exec_inv_step. Qed.
Lemma reachable_step m m' : reachable m → rtc step m m' → reachable m'.
Proof. intros (m0 & H0 & H1) H2. exists m0. split; [done|]. by etrans. Qed.

Lemma rtc_keeps (P : entry → Prop) m m' n e : (∀ e e', advances e e' → P e → P e') →
  inv m → rtc step m m' → entries m !! n = Some e → P e → ∃ e', entries m' !! n = Some e' ∧ P e'.
Proof.
  intros HP Hi H. revert e. induction H as [m|m1 m2 m3 Hs _ IH]; intros e Hn He; [by exists e|].
  destruct (step_advances m1 m2 n e Hi Hs Hn) as (e2 & Hn2 & Ha). apply (IH (exec_inv_step _ _ Hi Hs) e2 Hn2). by eapply HP.
Qed.

(** Steps after which the client is still attached. *)
Definition attached_step (n : nat) (m m' : Manager) : Prop :=
  step m m' ∧ ∃ e, entries m' !! n = Some e ∧ Attached (e_session e) = true.

Lemma attached_rtc n m m' : rtc (attached_step n) m m' → rtc step m m'.
Proof. apply rtc_subrel. by intros ? ? []. Qed.

Lemma attached_history n m m' e : inv m → rtc (attached_step n) m m' → entries m !! n = Some e →
  registered e = true → Attached (e_session e) = true →
  ∃ e' l, entries m' !! n = Some e' ∧ registered e' = true ∧ ID (e_session e') = ID (e_session e)
    ∧ e_history e' = e_history e ++ l ∧ Forall (λ c, c.2 = true) l.
Proof.
  intros Hi H. revert e. induction H as [m|m1 m2 m3 [Hs (x & Hx & Hat)] _ IH]; intros e Hn Hr Ha.
  - exists e, []. by rewrite app_nil_r.
  - destruct (step_advances m1 m2 n e Hi Hs Hn) as (e2 & Hn2 & Hadv). assert (e2 = x) as -> by congruence.
    destruct (ad_registered _ _ Hadv Hr) as [Hr2 Hid]. destruct (ad_history _ _ Hadv) as (l & Hl & Hf).
    destruct (IH (exec_inv_step _ _ Hi Hs) x Hx Hr2 Hat) as (e3 & l2 & H1 & H2 & H3 & H4 & H5).
    exists e3, (l ++ l2). split_and!; [done|done|congruence| |].
    + by rewrite H4, Hl, app_assoc.
    + apply Forall_app. split; [|done]. eapply Forall_impl; [exact Hf|]. cbn. congruence.
Qed.

(** Chunks numbered from [k], as an attached client receives them. *)
Definition numbered (id : string) (k : nat) (chunks : list bytes) : list StreamOutput :=
  imap (λ i data, data_output id data (Z.of_nat (k + i) mod 2 ^ 64)) chunks.
Lemma due_attached id k l : Forall (λ c, c.2 = true) l → due id k l = numbered id k (map fst l).
Proof.
  intros H. unfold due, numbered. rewrite imap_fmap. revert k. induction H as [|[d a] l Ha _ IH]; intros k; [done|].
  cbn in Ha. subst a. cbn. f_equal. specialize (IH (S k)).
  rewrite (imap_ext _ (λ i (c : bytes * bool), if c.2 then [data_output id c.1 (Z.of_nat (S k + i) mod 2 ^ 64)] else []));
    [|intros; cbn; by rewrite Nat.add_succ_r].
  rewrite IH. apply imap_ext. intros. cbn. by rewrite Nat.add_succ_r.
Qed.

(** What the worker invariant says of a registered session. *)
Lemma registered_output m n e : inv m → entries m !! n = Some e → registered e = true →
  GetAll (e_buffer e) = last_bytes DefaultOutputBufferSize (history e)
  ∧ e_nextSeq e = Z.of_nat (length (e_history e)) mod 2 ^ 64
  ∧ data_outputs n m ++ pending e = due (ID (e_session e)) 0 (e_history e)
  ∧ notices n m = announced e.
Proof.
  intros Hi Hn Hr. destruct (inv_entries m Hi n e Hn) as [_ Hw]. unfold registered in Hr. unfold data_outputs, notices.
  destruct (e_stage e); try done.
  - destruct Hw as [H1 H2 H3 H4 H5 H6 H7]. rewrite H5. unfold history, pending, announced. by rewrite H1, H2, H3, H6, H7.
  - destruct Hw as [? ? [_ Hb] ? ? ? ? ? ?]. by split_and!.
Qed.

(** A chunk in flight is the last one printed: it was read while attached, and it
    will be emitted under its own number. *)
Lemma pending_last m n e : inv m → entries m !! n = Some e → registered e = true →
  pending e = [] ∨ ∃ h data, e_history e = h ++ [(data, true)] ∧ blen data ≤ DefaultStreamBufferSize
    ∧ pending e = [data_output (ID (e_session e)) data (Z.of_nat (length h) mod 2 ^ 64)].
Proof.
  intros Hi Hn Hr. destruct (registered_output m n e Hi Hn Hr) as (_ & _ & Hd & _).
  destruct (inv_entries m Hi n e Hn) as [_ Hw]. unfold pending in *. destruct (e_reader e) as [| |data seq|] eqn:He; auto.
  right. unfold registered in Hr. destruct (e_stage e); try done; [destruct Hw; congruence|].
  destruct (wk_flight _ _ Hw data seq He) as (h & Hh & Hs). exists h, data. split_and!; [done|done|].
  rewrite Hh, due_snoc in Hd. apply app_inj_tail in Hd as [_ Hd]. by rewrite Hd.
Qed.
Lemma last_bytes_suffix n a b : blen b ≤ n → b `suffix_of` last_bytes n (a ++ b).
Proof. intros H. rewrite last_bytes_app_l by (unfold blen in *; lia). by eexists. Qed.

(** ** The manager *)

(** C30: A session's output is exact. In every interleaving its buffer holds the
    last bytes of all it printed, evicting only the oldest, and what it emitted,
    with the chunk it is about to emit, is every chunk read while a client was
    attached, once and in order, each under its own number. *)
Theorem exec_output m n e : reachable m → entries m !! n = Some e → registered e = true →
  GetAll (e_buffer e) = last_bytes DefaultOutputBufferSize (concat (map fst (e_history e)))
  ∧ e_nextSeq e = Z.of_nat (length (e_history e)) mod 2 ^ 64
  ∧ data_outputs n m ++ pending e = due (ID (e_session e)) 0 (e_history e).
Proof. intros Hi%exec_inv_reachable Hn Hr. by destruct (registered_output m n e Hi Hn Hr) as (H1 & H2 & H3 & _). Qed.

(** C9: Attaching loses nothing, and repeats at most one chunk. The history an
    attaching client is given is the last bytes of everything printed so far.
    While it stays attached, whatever else runs, the session hands to its sink
    first the chunk in flight at that moment, if there was one, and then every
    chunk printed since, in order and consecutively numbered, nothing else and
    nothing twice. A chunk is in flight only when it was the last one printed and
    another client was attached when it was read; it is then the end of the
    history too, so exactly that chunk reaches the new client twice. *)
Theorem attach_seamless m m1 m2 n e : reachable m → entries m !! n = Some e → registered e = true →
  m1 = put m n (AttachSession e).1 → rtc (attached_step n) m1 m2 →
  ∃ e2 chunks replay, entries m2 !! n = Some e2
  ∧ map fst (e_history e2) = map fst (e_history e) ++ chunks
  ∧ replay = (AttachSession e).2.2
  ∧ replay = last_bytes DefaultOutputBufferSize (concat (map fst (e_history e)))
  ∧ data_outputs n m2 ++ pending e2 =
      data_outputs n m ++ pending e ++ numbered (ID (e_session e)) (length (e_history e)) chunks
  ∧ (pending e = [] ∨ ∃ h data, e_history e = h ++ [(data, true)]
      ∧ pending e = numbered (ID (e_session e)) (length h) [data] ∧ data `suffix_of` replay).
Proof.
  intros Hi%exec_inv_reachable Hn Hr -> Hs. destruct (registered_output m n e Hi Hn Hr) as (H1 & _ & H3 & _).
  assert (Hs1 : step m (put m n (AttachSession e).1)) by (by apply Step_attach).
  assert (Hn1 : entries (put m n (AttachSession e).1) !! n = Some (AttachSession e).1).
  { cbn. apply list_lookup_insert_eq. by eapply lookup_lt_Some. }
  pose proof (exec_inv_step _ _ Hi Hs1) as Hi1.
  destruct (attached_history n _ m2 _ Hi1 Hs Hn1 Hr eq_refl) as (e2 & l & Hn2 & Hr2 & Hid & Hh & Hl). cbn in Hid, Hh.
  exists e2, (map fst l), (GetAll (e_buffer e)). split_and!; [done|by rewrite Hh, map_app|done|done| |].
  - destruct (registered_output m2 n e2 (rtc_inv _ _ Hi1 (attached_rtc _ _ _ Hs)) Hn2 Hr2) as (_ & _ & H4 & _).
    rewrite app_assoc, H4, H3, Hid, Hh, due_app. by rewrite (due_attached _ _ _ Hl).
  - destruct (pending_last m n e Hi Hn Hr) as [|(h & data & Hhist & Hsize & Hp)]; [by left|]. right. exists h, data.
    split_and!; [done|rewrite Hp; unfold numbered; cbn; by rewrite Nat.add_0_r|]. rewrite H1. unfold history. rewrite Hhist, map_app, concat_app.
    cbn [map fst concat]. rewrite app_nil_r. apply last_bytes_suffix. unfold DefaultOutputBufferSize, DefaultStreamBufferSize in *. lia.
Qed.

(** C11: A session ends once and cleanly. The map holds exactly the sessions that
    are registered and not removed, under their own IDs, so a cleanup removes only
    its own session; no terminal is closed twice; a refused creation has cancelled
    its context, closed the terminal it opened, and emitted nothing; and when a
    session's workers are done its terminal was closed, it has left the map, and
    it announced the handler's error, if any, and then its closing, each once. *)
Theorem session_cleanup m n e : reachable m → entries m !! n = Some e →
  (∀ id, sessions m !! id = Some n ↔ listed e = true ∧ ID (e_session e) = id)
  ∧ (∀ k, e_closes e = Some k → (k ≤ 1)%nat)
  ∧ (∀ err, e_stage e = Refused err → e_closes e ≠ Some 0%nat ∧ is_Some (e_ended e) ∧ outputs n m = [])
  ∧ (e_done e = true → e_closes e = Some 1%nat ∧ is_Some (e_ended e) ∧ listed e = false
     ∧ ∃ err, notices n m = reported (ID (e_session e)) err ++ [close_output (ID (e_session e))]).
Proof.
  intros Hi%exec_inv_reachable Hn. destruct (inv_entries m Hi n e Hn) as [Hc Hw]. unfold creation_ok in Hc. split_and!.
  - intros id. rewrite (inv_listed m Hi), Hn. split; [by intros (x & [= <-] & ? & ?)|by exists e].
  - intros k Hk. destruct (e_stage e), (closed (e_signals e)); destruct_and?; try congruence; simplify_eq; try lia.
    all: destruct_or?; simplify_eq; lia.
  - intros err Hs. rewrite Hs in *. destruct Hc as (Hc & He & _). split_and!; [|done|by destruct Hw].
    by destruct Hc as [->| ->].
  - intros Hd. destruct (e_stage e) eqn:Hs; try by (destruct Hw as [_ _ _ Hdn _ _ _]; congruence).
    destruct Hw as [_ _ _ _ _ Hnot Hdn Hend _]. destruct (Hdn Hd) as (Hr & err & Hg). rewrite Hg in *. destruct Hc as [Hc _].
    split_and!; [done|apply Hend; by left|unfold listed; by rewrite Hg, andb_comm|]. exists err. unfold notices.
    rewrite Hnot. unfold announced. by rewrite Hg.
Qed.

(** Admission is a fence. Once a session is registered its request cannot end
    it: the context it runs under was never cancelled by the request and reports
    only its own end; and a resource creation whose request is over before that
    never becomes a session. *)
Theorem exec_admission m n e : reachable m → entries m !! n = Some e →
  (registered e = true → e_ended e ≠ Some ByRequest ∧ ∀ own,
     e_resource e = true → admission_Err (e_accepted e) (e_request e) own = own)
  ∧ (registered e = false → e_resource e = true → is_Some (e_request e) → ∀ m', rtc step m m' →
     ∃ e', entries m' !! n = Some e' ∧ registered e' = false ∧ ∀ id, sessions m' !! id ≠ Some n).
Proof.
  intros Hi%exec_inv_reachable Hn. split.
  - intros Hr. destruct (registered_detached _ _ (inv_entries m Hi n e Hn) Hr) as (_ & H1 & _ & H2).
    split; [done|]. intros own Hres. by rewrite H2, Hres.
  - intros Hr Hres Hq m' Hs.
    destruct (rtc_keeps abandoned m m' n e (λ e e' Ha, ad_abandoned e e' Ha) Hi Hs Hn) as (e' & Hn' & Hr' & _ & _); [by split_and!|].
    exists e'. split_and!; [done|done|]. intros id Hid.
    apply (inv_listed m' (rtc_inv _ _ Hi Hs)) in Hid as (x & Hx & Hl & _). unfold listed in Hl.
    assert (x = e') as -> by congruence. by rewrite Hr' in Hl.
Qed.

(** ** Draining *)

Definition reader_rank (r : reader) : nat := match r with Emitting _ _ => 2 | Reading => 1 | _ => 0 end.
Definition signals_rank (s : signals) : nat :=
  match s with
  | Waiting => 7 | Closing _ => 6 | Removing _ => 5 | Cancelling _ => 4 | Reporting _ => 3 | Announcing _ => 2
  | Finished _ => 1 | Asleep => 0
  end.
Definition worker_rank (e : entry) : nat :=
  match e_stage e with
  | Running => reader_rank (e_reader e) + signals_rank (e_signals e) + Nat.b2n (negb (e_done e))
  | _ => 0
  end.
Definition backlog (m : Manager) : nat := sum_list_with worker_rank (entries m).
(** Every running session has been told to end. *)
Definition ending (m : Manager) : Prop :=
  ∀ n e, entries m !! n = Some e → e_stage e = Running → is_Some (e_ended e).

Lemma backlog_put m m' n e e' : entries m !! n = Some e → entries m' = <[n := e']> (entries m) →
  (worker_rank e' < worker_rank e)%nat → (backlog m' < backlog m)%nat.
Proof.
  intros Hn He Hlt. unfold backlog. rewrite He. pose proof (sum_list_with_set worker_rank _ _ _ e' Hn). lia.
Qed.
Lemma ending_put m m' n e' : ending m → entries m' = <[n := e']> (entries m) → is_Some (e_ended e') → ending m'.
Proof.
  intros Hm He He' k x. rewrite He, list_lookup_insert_Some. intros [(<- & <- & _)|[_ Hx]] Hr; [done|]. by eapply Hm.
Qed.

(** A step of the manager on its own: no output is taken from the channel, and a
    reader only stops at a terminal that was closed. *)
Definition own_step (m m' : Manager) : Prop :=
  step m m' ∧ out m `prefix_of` out m' ∧ ∀ n e e', entries m !! n = Some e → entries m' !! n = Some e' →
    e_reader e' = Stopped → e_reader e = Stopped ∨ e_closes e = Some 1%nat.
(** The stream the channel was made for has ended. *)
Definition stream_over (m : Manager) : Prop := ∀ s, sink m = ChannelSink s → streams m !! s = Some true.
(** The sink takes or drops an output without anybody reading the channel. *)
Definition flows (m : Manager) : Prop := ∀ s, sink m = ChannelSink s →
  streams m !! s = Some true ∨ Z.of_nat (length (out m)) < DefaultStreamBufferSize.

Lemma own_step_rtc m m' : rtc own_step m m' → rtc step m m'.
Proof. apply rtc_subrel. by intros ? ? []. Qed.

Lemma flows_emits m n o : flows m → ∃ m', emits m n o m' ∧ entries m' = entries m ∧ sink m' = sink m
  ∧ streams m' = streams m ∧ out m `prefix_of` out m'.
Proof.
  intros Hf. destruct (sink m) as [| |s] eqn:Hk.
  - eexists. split; [by apply Emit_unsunk|]. by split_and!.
  - eexists. split; [by apply Emit_configured|]. by split_and!.
  - destruct (Hf s Hk) as [Hs|Hs]; eexists.
    + split; [by eapply Emit_dropped|]. by split_and!.
    + split; [by eapply Emit_sent|]. split_and!; try done. by eexists.
Qed.

(** One step of one worker that has not finished. *)
Definition drains_to (m m' : Manager) : Prop :=
  own_step m m' ∧ ending m' ∧ sink m' = sink m ∧ streams m' = streams m ∧ (backlog m' < backlog m)%nat.

Lemma drains_put m m' n e e' : ending m → entries m !! n = Some e → step m m' → entries m' = <[n := e']> (entries m) →
  sink m' = sink m → streams m' = streams m → out m `prefix_of` out m' → is_Some (e_ended e') →
  (e_reader e' = Stopped → e_reader e = Stopped ∨ e_closes e = Some 1%nat) → (worker_rank e' < worker_rank e)%nat →
  drains_to m m'.
Proof.
  intros Hend Hn Hs He Hk Hst Ho Hend' Hr Hlt. unfold drains_to, own_step. split_and!; try done; [|by eapply ending_put|by eapply backlog_put].
  intros k x x' Hx. rewrite He, list_lookup_insert_Some. intros [(<- & <- & _)|[_ Hx']] Hx'r; [by simplify_eq; auto|].
  left. congruence.
Qed.

Lemma drain_emit m n e e' o : flows m → ending m → entries m !! n = Some e → is_Some (e_ended e') →
  (∀ m', emits (put m n e') n o m' → step m m') →
  (e_reader e' = Stopped → e_reader e = Stopped) → (worker_rank e' < worker_rank e)%nat → ∃ m', drains_to m m'.
Proof.
  intros Hf Hend Hn He Hstep Hr Hlt. destruct (flows_emits (put m n e') n o Hf) as (m' & Hm & H1 & H2 & H3 & H4).
  exists m'. eapply (drains_put m m' n e e'); eauto.
Qed.

Lemma drain_one m n e : inv m → ending m → flows m → entries m !! n = Some e → e_stage e = Running → e_done e = false →
  ∃ m', drains_to m m'.
Proof.
  intros Hi Hend Hf Hn Hst Hd. destruct (inv_entries m Hi n e Hn) as [Hc Hw]. unfold creation_ok in Hc.
  rewrite Hst in Hw, Hc. destruct Hc as [Hc _]. pose proof (Hend n e Hn Hst) as Hended.
  assert (Hquiet : ∀ e' m', step m m' → entries m' = <[n := e']> (entries m) → sink m' = sink m → streams m' = streams m →
    out m' = out m → is_Some (e_ended e') → (e_reader e' = Stopped → e_reader e = Stopped ∨ e_closes e = Some 1%nat) →
    (worker_rank e' < worker_rank e)%nat → ∃ m', drains_to m m').
  { intros e' m' ? ? ? ? Ho ? ? ?. exists m'. eapply drains_put; eauto. by rewrite Ho. }
  assert (Hcan : ∀ r e, is_Some (e_ended (cancel r e))) by (intros; by eexists).
  unfold worker_rank in Hquiet. rewrite Hst, Hd in Hquiet.
  destruct (e_signals e) as [| |err|err|err|err|err|err] eqn:Hs; [by destruct Hw| | | | | | |].
  - eapply (Hquiet (set_signals (Closing None) e)); [by eapply Step_context_done|done..|by left|].
    cbn. rewrite Hst, Hd. cbn. lia.
  - eapply (Hquiet (set_signals (Removing err) (closeTerminal e))); [by eapply Step_close_terminal|done..|by left|].
    cbn. rewrite Hst, Hd. cbn. lia.
  - eapply (Hquiet (set_signals (Cancelling err) e)); [by eapply Step_remove|done..|by left|]. cbn. rewrite Hst, Hd. cbn. lia.
  - eapply (Hquiet (set_signals (match err with Some x => Reporting x | None => Announcing None end) (cancel ByCleanup e)));
      [by eapply Step_cleanup_cancel|done..|apply Hcan|by left|]. cbn. rewrite Hst, Hd. destruct err; cbn; lia.
  - eapply (drain_emit m n e (set_signals (Announcing (Some err)) e)); [done..|by intros; eapply Step_report|done|].
    unfold worker_rank. cbn. rewrite Hst, Hs. cbn. lia.
  - eapply (drain_emit m n e (set_signals (Finished err) e)); [done..|by intros; eapply Step_announce|done|].
    unfold worker_rank. cbn. rewrite Hst, Hs. cbn. lia.
  - destruct (e_reader e) as [| |data seq|] eqn:Hr; [by destruct Hw| | |].
    + eapply (Hquiet (set_reader Stopped (cancel ByReader e))); [by eapply Step_read_fails|done..|apply Hcan| |].
      * intros _. right. exact Hc.
      * cbn. rewrite Hst, Hd, Hs. cbn. lia.
    + eapply (drain_emit m n e (set_reader Reading e)); [done..|by intros; eapply Step_emit_chunk|done|].
      unfold worker_rank. cbn. rewrite Hst, Hr, Hs. cbn. lia.
    + eapply (Hquiet (set_done e)); [by eapply Step_finish|done..|by left|]. cbn. rewrite Hst, Hr, Hs. cbn. lia.
Qed.

(** Somebody is still waited for. *)
Lemma someone_active m : inv m → wg m ≠ 0%nat →
  ∃ n e, entries m !! n = Some e ∧ e_stage e = Running ∧ e_done e = false.
Proof.
  intros Hi Hw. rewrite (inv_wg m Hi) in Hw. destruct (decide (Exists (λ e, active e = true) (entries m))) as [Hx|Hx].
  - apply Exists_exists in Hx as (e & Hin & Ha). apply list_elem_of_lookup in Hin as [n Hn]. exists n, e.
    unfold active in Ha. destruct (e_stage e); try done. by apply negb_true_iff in Ha.
  - destruct Hw. clear Hi. induction (entries m) as [|e l IH]; [done|]. cbn.
    rewrite IH by (intros H; apply Hx; by right). destruct (active e) eqn:Ha; [|done]. destruct Hx. by left.
Qed.
(** Nobody is. *)
Lemma none_active m n e : inv m → wg m = 0%nat → entries m !! n = Some e → e_stage e = Running →
  e_done e = true ∧ e_closes e = Some 1%nat ∧ listed e = false.
Proof.
  intros Hi Hw Hn Hst. rewrite (inv_wg m Hi) in Hw. assert (Hd : e_done e = true).
  { assert (Nat.b2n (active e) ≤ sum_list_with (λ e, Nat.b2n (active e)) (entries m))%nat.
    { clear -Hn. revert n Hn. induction (entries m) as [|x l IH]; intros [|n] Hn; simplify_eq/=; [lia|]. specialize (IH n Hn). lia. }
    unfold active in *. rewrite Hst in *. destruct (e_done e); [done|]. cbn in *. lia. }
  destruct (inv_entries m Hi n e Hn) as [Hc Hwk]. unfold creation_ok in Hc. rewrite Hst in *.
  destruct Hwk as [_ _ _ _ _ _ Hdn _ _]. destruct (Hdn Hd) as (Hrd & err & Hg). rewrite Hg in *. destruct Hc as [Hc _].
  split_and!; [done|done|]. unfold listed. by rewrite Hg, andb_comm.
Qed.

Lemma exec_drains m : inv m → ending m → stream_over m → ∃ m', rtc own_step m m' ∧ wg m' = 0%nat.
Proof.
  remember (backlog m) as k eqn:Hk. revert m Hk. induction (lt_wf k) as [k _ IH]. intros m -> Hi Hend Hover.
  destruct (decide (wg m = 0%nat)) as [Hw|Hw]; [by exists m|].
  destruct (someone_active m Hi Hw) as (n & e & Hn & Hst & Hd).
  destruct (drain_one m n e Hi Hend) as (m1 & Hs & He1 & Hk1 & Hst1 & Hlt); [by intros s Hs; left; apply Hover|done..|].
  destruct (IH _ Hlt m1 eq_refl) as (m2 & Hr2 & Hw2); [by eapply exec_inv_step, Hs|done| |].
  - intros s. rewrite Hk1, Hst1. apply Hover.
  - exists m2. split; [by eapply rtc_l|done].
Qed.

(** C31: Close can always finish, with nobody reading the output. Once every
    running session has been told to end, then as long as the channel has room or
    its stream is over, some worker that is still waited for can take a step of its
    own that brings the end nearer; and once the stream is over, the workers run to
    completion even when the channel is full and stays full: no output is ever
    taken from it, readers stop at terminals their cleanup has closed, and at the
    end nothing is waited for, every terminal was closed once and no session is
    left in the map. (While a stream is open, a full channel makes the workers wait
    for its reader, as the code intends.) *)
Theorem close_drains m : reachable m →
  (∀ n e, entries m !! n = Some e → e_stage e = Running → is_Some (e_ended e)) →
  (flows m → wg m ≠ 0%nat → ∃ m', own_step m m' ∧ (backlog m' < backlog m)%nat)
  ∧ (stream_over m → ∃ m', rtc own_step m m' ∧ wg m' = 0%nat
     ∧ ∀ n e, entries m' !! n = Some e → e_stage e = Running →
         e_done e = true ∧ e_closes e = Some 1%nat ∧ listed e = false).
Proof.
  intros Hr Hend. pose proof (exec_inv_reachable m Hr) as Hi. split.
  - intros Hf Hw. destruct (someone_active m Hi Hw) as (n & e & Hn & Hst & Hd).
    destruct (drain_one m n e Hi Hend Hf Hn Hst Hd) as (m' & Hs & _ & _ & _ & Hlt). by exists m'.
  - intros Hover. destruct (exec_drains m Hi Hend Hover) as (m' & Hs & Hw). exists m'. split_and!; [done|done|].
    intros n e. apply none_active; [|done]. by eapply rtc_inv, own_step_rtc.
Qed.

(** ** A session attached to and closed *)

Definition sample_options : SessionOptions := mkSessionOptions [] [] "s1" "core" "pod" None None None ["sh"] true.
Definition sample_handlers : gmap string Handler := {["core/pod" := mkHandler true false]}.
Definition sample_entry (m : Manager) : entry :=
  default (mkEntry sample_options false None NoHook false None None Checked no_session NewDefaultOutputBuffer 0 false [] Unstarted
             Asleep false) (entries m !! 0%nat).
Definition at_first (f : entry → entry) (m : Manager) : Manager := put m 0 (f (sample_entry m)).
Definition run0 : Manager := Stream (NewManager sample_handlers false).
Definition run1 : Manager := begin_session run0 (with_id sample_options (ensureSessionID "u" "s1")) true None (mkHandler true false).
Definition run2 : Manager := at_first sessionContext run1.
Definition run3 : Manager := at_first (open_terminal (Ok true)) run2.
Definition run4 : Manager := at_first check_request run3.
Definition run5 : Manager := at_first (handled None zero_time) run4.
Definition run6 : Manager := registerSession run5 0 (sample_entry run5).
Definition run7 : Manager := with_wg (at_first start_workers run6) (S (wg run6)).
(** A chunk, a client, another chunk, CloseSession. *)
Definition run8 : Manager := at_first (read_chunk (bytes_of "hello ")) run7.
Definition run9 : Manager := at_first (λ e, (AttachSession e).1) run8.
Definition run10 : Manager := at_first (read_chunk (bytes_of "world")) run9.
Definition run11 : Manager := at_first (cancel ByCaller) run10.

Ltac sample := vm_compute; reflexivity.
Lemma sample_lookup m : (entries m !! 0%nat) ≠ None → entries m !! 0%nat = Some (sample_entry m).
Proof. unfold sample_entry. by destruct (entries m !! 0%nat). Qed.

Lemma run7_reachable : reachable run7.
Proof.
  exists (NewManager sample_handlers false). split; [by exists sample_handlers, false|].
  apply (rtc_l _ _ run0); [apply Step_stream|].
  apply (rtc_l _ _ run1); [apply (Step_begin run0 sample_options true None "u" [] (mkHandler true false)); sample|].
  apply (rtc_l _ _ run2); [apply (Step_context run1 0 (sample_entry run1)); sample|].
  apply (rtc_l _ _ run3); [apply (Step_terminal run2 0 (sample_entry run2) (Ok true)); sample|].
  apply (rtc_l _ _ run4); [apply (Step_check run3 0 (sample_entry run3)); sample|].
  apply (rtc_l _ _ run5); [apply (Step_handle run4 0 (sample_entry run4) None zero_time); sample|].
  apply (rtc_l _ _ run6); [apply (Step_register run5 0 (sample_entry run5)); sample|].
  apply (rtc_l _ _ run7); [apply (Step_start run6 0 (sample_entry run6)); sample|]. apply rtc_refl.
Qed.
Lemma run8_reachable : reachable run8.
Proof.
  apply (reachable_step run7); [exact run7_reachable|]. apply rtc_once.
  apply (Step_read run7 0 (sample_entry run7)); [sample|sample|]. by vm_compute.
Qed.
Lemma run10_attached : rtc (attached_step 0) run9 run10.
Proof.
  apply rtc_once. split; [apply (Step_read run9 0 (sample_entry run9)); [sample|sample|by vm_compute]|].
  exists (sample_entry run10). split; sample.
Qed.
Lemma run11_reachable : reachable run11.
Proof.
  apply (reachable_step run8); [exact run8_reachable|].
  apply (rtc_l _ _ run9); [apply (Step_attach run8 0 (sample_entry run8)); sample|].
  etrans; [exact (attached_rtc _ _ _ run10_attached)|]. apply rtc_once. apply (Step_cancel run10 0 (sample_entry run10)); sample.
Qed.

Lemma exec_output_witness : reachable run11 ∧ e_nextSeq (sample_entry run11) = 2
  ∧ data_outputs 0 run11 ++ pending (sample_entry run11) = [data_output "s1" (bytes_of "world") 1].
Proof.
  split; [exact run11_reachable|]. destruct (exec_output run11 0 (sample_entry run11) run11_reachable ltac:(sample) ltac:(sample)) as (_ & H1 & H2).
  split; [exact H1|exact H2].
Defined.
(** A second client attaches while "world" is in flight to the first: it gets the
    chunk in its history, and again from the sink. *)
Definition run12 : Manager := at_first (λ e, (AttachSession e).1) run10.
Lemma run10_reachable : reachable run10.
Proof.
  apply (reachable_step run8); [exact run8_reachable|].
  apply (rtc_l _ _ run9); [apply (Step_attach run8 0 (sample_entry run8)); sample|]. exact (attached_rtc _ _ _ run10_attached).
Qed.
Lemma attach_repeats_in_flight :
  reachable run12 ∧ (AttachSession (sample_entry run10)).2.2 = bytes_of "hello world"
  ∧ data_outputs 0 run12 = [] ∧ pending (sample_entry run12) = [data_output "s1" (bytes_of "world") 1].
Proof.
  split; [|by vm_compute]. apply (reachable_step run10); [exact run10_reachable|]. apply rtc_once.
  apply (Step_attach run10 0 (sample_entry run10)); sample.
Qed.

Lemma attach_seamless_witness : reachable run8 ∧ reachable run10
  ∧ (∃ e2 chunks, entries run10 !! 0%nat = Some e2
     ∧ map fst (e_history e2) = map fst (e_history (sample_entry run8)) ++ chunks)
  ∧ ∃ h data, e_history (sample_entry run10) = h ++ [(data, true)]
     ∧ data `suffix_of` (AttachSession (sample_entry run10)).2.2.
Proof.
  split; [exact run8_reachable|]. split; [exact run10_reachable|]. split.
  - destruct (attach_seamless run8 run9 run10 0 (sample_entry run8) run8_reachable ltac:(sample) eq_refl eq_refl run10_attached)
      as (e2 & chunks & _ & H1 & H2 & _). exact (ex_intro _ e2 (ex_intro _ chunks (conj H1 H2))).
  - destruct (attach_seamless run10 run12 run12 0 (sample_entry run10) run10_reachable ltac:(sample) eq_refl eq_refl (rtc_refl _ _))
      as (e2 & chunks & replay & _ & _ & -> & _ & _ & [H|(h & data & Hh & _ & Hs)]); [discriminate H|].
    exact (ex_intro _ h (ex_intro _ data (conj Hh Hs))).
Defined.
Lemma session_cleanup_witness : reachable run11 ∧ sessions run11 !! "s1" = Some 0%nat.
Proof.
  split; [exact run11_reachable|]. destruct (session_cleanup run11 0 (sample_entry run11) run11_reachable ltac:(sample)) as (H & _).
  apply (H "s1"). split; reflexivity.
Defined.
Lemma exec_admission_witness : reachable run11 ∧ e_ended (sample_entry run11) ≠ Some ByRequest
  ∧ admission_Err (e_accepted (sample_entry run11)) (Some canceled) None = None.
Proof.
  split; [exact run11_reachable|]. destruct (exec_admission run11 0 (sample_entry run11) run11_reachable ltac:(sample)) as (H & _).
  split; [apply (H eq_refl)|reflexivity].
Defined.
(** The stream ends under the session that was told to end. *)
Definition run13 : Manager :=
  mkManager (handlers run11) (sessions run11) (entries run11) (sink run11) [true] (out run11) (log run11) (wg run11).
Lemma run13_reachable : reachable run13.
Proof.
  apply (reachable_step run11); [exact run11_reachable|]. apply rtc_once. apply (Step_stream_ends run11 0). sample.
Qed.
Lemma close_drains_witness : reachable run13 ∧ wg run13 = 1%nat
  ∧ (∃ m', own_step run13 m' ∧ (backlog m' < backlog run13)%nat)
  ∧ ∃ m', rtc own_step run13 m' ∧ wg m' = 0%nat.
Proof.
  split; [exact run13_reachable|]. split; [reflexivity|].
  assert (Hover : stream_over run13) by (intros s [= <-]; reflexivity).
  destruct (close_drains run13 run13_reachable) as [H1 H2].
  - intros [|n] e Hn Hst; [|discriminate Hn]. injection Hn as <-. eexists. reflexivity.
  - split; [apply H1; [intros s Hs; left; exact (Hover s Hs)|discriminate]|].
    destruct (H2 Hover) as (m' & H3 & H4 & _). exact (ex_intro _ m' (conj H3 H4)).
Defined.

(** The sink keeps the context of the first stream: after that stream ended, a
    second stream does not save an output from being dropped. *)
Lemma reopened_stream_drops : ∃ m o m', sink m = ChannelSink 0 ∧ streams m = [true; false] ∧ out m = []
  ∧ emits m 0 o m' ∧ log m' = [(0%nat, o, false)] ∧ out m' = [].
Proof.
  set (m := mkManager sample_handlers ∅ [] (ChannelSink 0) [true; false] [] [] 0).
  exists m, (data_output "s1" (bytes_of "lost") 0), (with_output m [] (0%nat, data_output "s1" (bytes_of "lost") 0, false)).
  split_and!; try reflexivity. by eapply Emit_dropped.
Qed.
