(* ===== verification/ExecStream.v ===== *)
(** * Terminal streams on the wire (pkg/v1/exec/stream.go)

    The conversions of outputs, inputs and resizes, and what they keep. *)
From S2P Require Import Prelude GoStd GoTime GoFmt Errors Values Proto Json Domain Messages ExecOptions Exec.
Local Open Scope Z_scope.

Definition StreamSignalSigint : Z := 2.
Definition StreamSignalSigquit : Z := 3.
Definition StreamSignalSigterm : Z := 4.
Definition StreamSignalSigkill : Z := 5.
Definition StreamSignalSighup : Z := 6.
Definition StreamSignalSigusr1 : Z := 7.
Definition StreamSignalSigusr2 : Z := 8.
Definition StreamSignalSigwinch : Z := 9.

(** The signals with their wire numbers. *)
Definition stream_signals : list (Z * Z) :=
  [(StreamSignalNone, 0); (StreamSignalClose, 1); (StreamSignalSigint, 2); (StreamSignalSigquit, 3); (StreamSignalSigterm, 4);
   (StreamSignalSigkill, 5); (StreamSignalSighup, 6); (StreamSignalSigusr1, 7); (StreamSignalSigusr2, 8);
   (StreamSignalSigwinch, 9); (StreamSignalError, 10)].
Definition StreamSignal_ToProto (s : Z) : Z := enum_cases stream_signals 0 s.
Definition NewStreamSignalFromProto (p : Z) : Z := enum_cases (map (λ x, (x.2, x.1)) stream_signals) StreamSignalNone p.

Definition StreamError_ToProto (e : StreamError) : message :=
  put_string 1 (Title e) ++ put_string 2 (Message e) ++ put_string 3 (Suggestion e) ++ put_bool 4 (Retryable e)
  ++ put_strings 5 (RetryCommands e).
Definition NewStreamErrorFromProto (p : message) : StreamError :=
  mkStreamError (get_string 1 p) (get_string 2 p) (get_string 3 p) (negb (get_uint 4 p =? 0)) (get_strings 5 p).

Definition target_ToProto (t : Z) : Z :=
  if t =? StreamTargetStdOut then 0 else if t =? StreamTargetStdErr then 1 else 0.
Definition target_FromProto (p : Z) : Z :=
  if p =? 0 then StreamTargetStdOut else if p =? 1 then StreamTargetStdErr else StreamTargetStdOut.
Definition zero_output : StreamOutput := mkOutput "" [] StreamTargetStdOut StreamSignalNone None 0.
Definition StreamOutput_ToProto (o : option StreamOutput) : message :=
  match o with
  | None => []
  | Some o =>
    put_string 1 (SessionID o) ++ put_int32 2 (target_ToProto (o_Target o)) ++ put_bytes 3 (Data o)
    ++ put_int32 4 (StreamSignal_ToProto (o_Signal o)) ++ put_some 5 (StreamError_ToProto <$> o_Error o) ++ put_uint 6 (Seq o)
  end.
Definition NewStreamOutputFromProto (p : option message) : StreamOutput :=
  match p with
  | None => zero_output
  | Some p =>
    mkOutput (get_string 1 p) (get_bytes 3 p) (target_FromProto (get_int32 2 p)) (NewStreamSignalFromProto (get_int32 4 p))
      (NewStreamErrorFromProto <$> get_message 5 p) (get_uint 6 p)
  end.

Record StreamInput := mkInput { in_SessionID : string; in_Data : bytes }.
Definition StreamInput_ToProto (i : option StreamInput) : message :=
  match i with None => [] | Some i => put_string 1 (in_SessionID i) ++ put_bytes 2 (in_Data i) end.
Definition NewStreamInputFromProto (p : option message) : StreamInput :=
  match p with None => mkInput "" [] | Some p => mkInput (get_string 1 p) (get_bytes 2 p) end.

Record StreamResize := mkResize { rs_SessionID : string; Cols : Z; Rows : Z }.
Definition StreamResize_ToProto (r : option StreamResize) : message :=
  match r with None => [] | Some r => put_string 1 (rs_SessionID r) ++ put_int32 2 (Rows r) ++ put_int32 3 (Cols r) end.
Definition NewStreamResizeFromProto (p : option message) : res failure StreamResize :=
  match p with
  | None => Err (Errorf (Sprintf "nil ResizeSessionRequest" []))
  | Some p =>
    let cols := get_int32 3 p in
    let rows := get_int32 2 p in
    if (cols =? 0) || (rows =? 0) then
      Err (Errorf (Sprintf "resize dimensions must be non-zero: cols=%d rows=%d" [OInt cols; OInt rows]))
    else if (cols <? 0) || (max_uint16 <? cols) || (rows <? 0) || (max_uint16 <? rows) then
      Err (Errorf (Sprintf "resize dimensions out of range: cols=%d rows=%d" [OInt cols; OInt rows]))
    else Ok (mkResize (get_string 1 p) (cols mod 2 ^ 16) (rows mod 2 ^ 16))
  end.

(** ** What they keep *)

Lemma signal_roundtrip s : s ∈ map fst stream_signals → NewStreamSignalFromProto (StreamSignal_ToProto s) = s.
Proof. intros H. cbn in H. repeat (apply elem_of_cons in H as [->|H]; [reflexivity|]). by apply not_elem_of_nil in H. Qed.
Lemma signal_bound s : 0 ≤ StreamSignal_ToProto s ≤ 10.
Proof.
  unfold StreamSignal_ToProto, enum_cases. destruct (find _ _) as [p|] eqn:E; [|lia]. apply find_some in E as [Hin _].
  apply list_elem_of_In in Hin. repeat (apply elem_of_cons in Hin as [->|Hin]; [cbn; lia|]). by apply not_elem_of_nil in Hin.
Qed.

Lemma target_roundtrip t : t = StreamTargetStdOut ∨ t = StreamTargetStdErr →
  target_FromProto (target_ToProto t) = t ∧ - 2 ^ 31 ≤ target_ToProto t < 2 ^ 31.
Proof. by intros [->| ->]. Qed.

Lemma error_roundtrip e : NewStreamErrorFromProto (StreamError_ToProto e) = e.
Proof.
  destruct e as [t m s r c]. unfold NewStreamErrorFromProto, StreamError_ToProto. cbn [Title Message Suggestion Retryable RetryCommands].
  unfold put_bool. f_equal; try (by read_fields); destruct r; by read_fields.
Qed.

(** Outputs survive the wire: every output with a known target and signal and a
    64-bit number decodes to itself, data, error and number included. *)
Theorem output_roundtrip o : o_Target o = StreamTargetStdOut ∨ o_Target o = StreamTargetStdErr →
  o_Signal o ∈ map fst stream_signals → 0 ≤ Seq o < 2 ^ 64 →
  NewStreamOutputFromProto (Some (StreamOutput_ToProto (Some o))) = o.
Proof.
  destruct o as [id d t s e q]. cbn [o_Target o_Signal Seq]. intros Ht Hs Hq.
  destruct (target_roundtrip t Ht) as [Ht1 Ht2]. pose proof (signal_roundtrip s Hs) as Hs1. pose proof (signal_bound s) as Hs2.
  unfold NewStreamOutputFromProto, StreamOutput_ToProto. cbn [SessionID Data o_Target o_Signal o_Error Seq].
  unfold get_int32, put_int32. f_equal.
  - by read_fields.
  - by read_fields.
  - read_fields. by rewrite int32_roundtrip.
  - read_fields. rewrite int32_roundtrip by lia. done.
  - read_fields. destruct e; cbn; [|done]. by rewrite error_roundtrip.
  - by read_fields.
Qed.

Lemma input_roundtrip i : NewStreamInputFromProto (Some (StreamInput_ToProto (Some i))) = i.
Proof. destruct i. unfold NewStreamInputFromProto, StreamInput_ToProto. f_equal; by read_fields. Qed.

(** A resize is accepted exactly with both dimensions in 1..65535, and then
    decodes to itself. *)
Theorem resize_roundtrip id cols rows : - 2 ^ 31 ≤ cols < 2 ^ 31 → - 2 ^ 31 ≤ rows < 2 ^ 31 →
  let r := mkResize id cols rows in
  (1 ≤ cols ≤ 65535 ∧ 1 ≤ rows ≤ 65535 → NewStreamResizeFromProto (Some (StreamResize_ToProto (Some r))) = Ok r)
  ∧ (is_ok (NewStreamResizeFromProto (Some (StreamResize_ToProto (Some r)))) = true → 1 ≤ cols ≤ 65535 ∧ 1 ≤ rows ≤ 65535).
Proof.
  intros Hc Hr r. unfold NewStreamResizeFromProto, StreamResize_ToProto, get_int32, put_int32. subst r. cbn [rs_SessionID Cols Rows].
  read_fields. rewrite !int32_roundtrip by done. unfold max_uint16. split.
  - intros [H1 H2]. replace (cols =? 0) with false by lia. replace (rows =? 0) with false by lia. cbn [orb].
    replace (cols <? 0) with false by lia. replace (65535 <? cols) with false by lia. replace (rows <? 0) with false by lia.
    replace (65535 <? rows) with false by lia. cbn [orb]. by rewrite !Z.mod_small by lia.
  - destruct ((cols =? 0) || (rows =? 0)) eqn:E1; [done|]. intros E2.
    destruct ((cols <? 0) || (65535 <? cols) || (rows <? 0) || (65535 <? rows)) eqn:E3; [done|].
    repeat match goal with H : (_ || _) = false |- _ => apply orb_false_iff in H as [? ?] end. lia.
Qed.

Lemma output_roundtrip_witness : let o := error_output "s1" (mkForeign "boom" None) in
  NewStreamOutputFromProto (Some (StreamOutput_ToProto (Some o))) = o.
Proof. apply output_roundtrip; [right; reflexivity|vm_compute; repeat constructor|split; reflexivity || discriminate]. Defined.
