(* ===== verification/LogTypes.v ===== *)
(** * Log sessions and their messages (pkg/v1/logs: session.go, stream.go,
    opts.go, resource_options.go)

    Options, sessions, lines, events and commands with their wire forms, and the
    admission of a session request with an optional resource target. *)
From S2P Require Import Prelude GoStd GoTime Errors Values Proto Json TaggedJson Budget Domain Validation Scopes Admission Source Adapters Messages.
Local Open Scope Z_scope.

(** ** Enumerations *)

Definition LogSessionStatusActive : Z := 0.
Definition LogSessionStatusPaused : Z := 1.
Definition LogSessionStatusClosed : Z := 2.
Definition LogSessionStatusError : Z := 3.
Definition LogSessionStatusConnecting : Z := 4.
Definition LogSessionStatusInitializing : Z := 5.
Definition session_statuses : list (Z * Z) :=
  [(LogSessionStatusActive, 0); (LogSessionStatusPaused, 1); (LogSessionStatusClosed, 2); (LogSessionStatusError, 3);
   (LogSessionStatusConnecting, 4); (LogSessionStatusInitializing, 5)].
Definition flip (pairs : list (Z * Z)) : list (Z * Z) := map (λ x, (x.2, x.1)) pairs.
Definition LogSessionStatus_ToProto (s : Z) : Z := enum_cases session_statuses 0 s.
Definition LogSessionStatusFromProto (p : Z) : Z := enum_cases (flip session_statuses) LogSessionStatusActive p.

Definition LogLineOriginCurrent : Z := 0.
Definition LogLineOriginPrevious : Z := 1.
Definition LogLineOriginSystem : Z := 2.
Definition line_origins : list (Z * Z) := [(LogLineOriginCurrent, 0); (LogLineOriginPrevious, 1); (LogLineOriginSystem, 2)].
Definition LogLineOrigin_ToProto (o : Z) : Z := enum_cases line_origins 0 o.
Definition LogLineOriginFromProto (p : Z) : Z := enum_cases (flip line_origins) LogLineOriginCurrent p.

Definition LogLevelUnspecified : Z := 0.
Definition LogLevelTrace : Z := 1.
Definition LogLevelDebug : Z := 2.
Definition LogLevelInfo : Z := 3.
Definition LogLevelWarn : Z := 4.
Definition LogLevelError : Z := 5.
Definition LogLevelFatal : Z := 6.
Definition log_levels : list (Z * Z) :=
  [(LogLevelUnspecified, 0); (LogLevelTrace, 1); (LogLevelDebug, 2); (LogLevelInfo, 3); (LogLevelWarn, 4);
   (LogLevelError, 5); (LogLevelFatal, 6)].
Definition LogLevel_ToProto (l : Z) : Z := enum_cases log_levels 0 l.
Definition LogLevelFromProto (p : Z) : Z := enum_cases (flip log_levels) LogLevelUnspecified p.

Definition StreamEventSourceAdded : Z := 0.
Definition StreamEventSourceRemoved : Z := 1.
Definition StreamEventStreamError : Z := 2.
Definition StreamEventReconnecting : Z := 3.
Definition StreamEventReconnected : Z := 4.
Definition StreamEventStreamEnded : Z := 5.
Definition StreamEventSessionReady : Z := 6.
Definition stream_event_types : list (Z * Z) :=
  [(StreamEventSourceAdded, 0); (StreamEventSourceRemoved, 1); (StreamEventStreamError, 2); (StreamEventReconnecting, 3);
   (StreamEventReconnected, 4); (StreamEventStreamEnded, 5); (StreamEventSessionReady, 6)].
Definition LogStreamEventType_ToProto (t : Z) : Z := enum_cases stream_event_types 0 t.
Definition LogStreamEventTypeFromProto (p : Z) : Z := enum_cases (flip stream_event_types) StreamEventSourceAdded p.

Definition StreamCommandPause : Z := 0.
Definition StreamCommandResume : Z := 1.
Definition StreamCommandClose : Z := 2.
Definition stream_commands : list (Z * Z) := [(StreamCommandPause, 0); (StreamCommandResume, 1); (StreamCommandClose, 2)].
Definition LogStreamCommand_ToProto (c : Z) : Z := enum_cases stream_commands 0 c.
Definition LogStreamCommandFromProto (p : Z) : Z := enum_cases (flip stream_commands) StreamCommandPause p.

(** ** Data *)

Record LogSource := mkSource { src_ID : string; src_Labels : list (string * string) }.

Record LogSessionOptions := mkLogOptions {
  lo_Reference : option ResourceReference; lo_Route : option AccessRoute; lo_Target : string;
  Follow : bool; IncludePrevious : bool; IncludeTimestamps : bool; TailLines : Z; SinceSeconds : Z;
  SinceTime : option NativeTime; LimitBytes : Z; IncludeSourceEvents : bool; lo_Params : list (string * string)
}.
Definition no_log_options : LogSessionOptions := mkLogOptions None None "" false false false 0 0 None 0 false [].

Record LogSession := mkLogSession {
  ls_ID : string; ls_PluginID : string; ls_ConnectionID : string; ls_ResourceKey : string; ls_ResourceID : string;
  ls_Options : LogSessionOptions; Status : Z; ActiveSources : list LogSource; ls_CreatedAt : NativeTime
}.

Record CreateSessionOptions := mkCreate {
  cs_SessionID : string; cs_ResourceKey : string; cs_ResourceID : string; cs_ResourceData : option Value;
  cs_Reference : option ResourceReference; cs_Route : option AccessRoute; cs_Options : LogSessionOptions
}.

(** Instants of lines and events are kept in UTC, as the wire keeps them. *)
Record LogLine := mkLine {
  l_SessionID : string; l_SourceID : string; l_Labels : list (string * string); l_Timestamp : Time; Content : string;
  Origin : Z; Level : Z
}.
Record LogStreamEvent := mkEvent { ev_Type : Z; ev_SourceID : string; ev_Message : string; ev_Timestamp : Time }.
Record StreamInput := mkInput { si_SessionID : string; si_Command : Z }.

Record ActionTargetBuilder := mkTargetBuilder {
  tb_Label : string; tb_LabelSelector : string; tb_Paths : list string; tb_Selectors : list (string * string)
}.
(** The description of a handler; its callbacks stay in the plugin. *)
Record HandlerInfo := mkHandlerInfo { hi_Plugin : string; hi_Resource : string; hi_TargetBuilder : ActionTargetBuilder }.
Definition Handler_ID (h : HandlerInfo) : string := hi_Plugin h +:+ "/" +:+ hi_Resource h.

(** *** Reflected views; Reference and Route of the options are tagged ["-"]. *)

#[export] Instance reflect_LogSource : Reflect LogSource := λ s,
  RStruct [field (src_ID s); (false, reflect_map (src_Labels s))].
#[export] Instance reflect_LogSessionOptions : Reflect LogSessionOptions := λ o,
  RStruct [field (lo_Target o); field (Follow o); field (IncludePrevious o); field (IncludeTimestamps o);
           (false, reflect_uint (TailLines o)); (false, reflect_uint (SinceSeconds o)); omitted (SinceTime o);
           (false, reflect_uint (LimitBytes o)); field (IncludeSourceEvents o); (false, reflect_map (lo_Params o))].
#[export] Instance reflect_LogSession : Reflect LogSession := λ s,
  RStruct [field (ls_ID s); field (ls_PluginID s); field (ls_ConnectionID s); field (ls_ResourceKey s);
           field (ls_ResourceID s); field (ls_Options s); (false, reflect_uint (Status s)); field (ActiveSources s);
           field (ls_CreatedAt s)].

(** ** Messages of sessions and streams *)

Section messages.
Context `{Timestamppb}.

(** The instant of a field, of an empty message when it is absent. *)
Definition AsTime (m : option message) : NativeTime := let t := pb_AsTime (default [] m) in mkNativeTime (utc_year t) t.
(** The zero time when it is absent. *)
Definition time_or_zero (m : option message) : Time := match m with None => zero_time | Some m => pb_AsTime m end.

Definition LogSource_ToProto (s : LogSource) : message := put_string 1 (src_ID s) ++ put_map 2 (src_Labels s).
Definition LogSourceFromProto (p : message) : LogSource := mkSource (get_string 1 p) (get_map 2 p).

Definition LogSessionOptions_ToProto (o : option LogSessionOptions) : option message :=
  o ← o;
  Some (put_string 1 (lo_Target o) ++ put_bool 2 (Follow o) ++ put_bool 3 (IncludePrevious o)
        ++ put_bool 4 (IncludeTimestamps o) ++ put_int64 5 (TailLines o) ++ put_int64 6 (SinceSeconds o)
        ++ put_some 7 ((λ t, pb_New (nt_UTC t)) <$> SinceTime o) ++ put_int64 8 (LimitBytes o)
        ++ put_bool 9 (IncludeSourceEvents o) ++ put_map 10 (lo_Params o)).
Definition LogSessionOptionsFromProto (p : option message) : LogSessionOptions :=
  match p with
  | None => no_log_options
  | Some p =>
    mkLogOptions None None (get_string 1 p) (negb (get_uint 2 p =? 0)) (negb (get_uint 3 p =? 0)) (negb (get_uint 4 p =? 0))
      (get_int64 5 p) (get_int64 6 p) ((λ m, AsTime (Some m)) <$> get_message 7 p) (get_int64 8 p)
      (negb (get_uint 9 p =? 0)) (get_map 10 p)
  end.

Definition LogSession_ToProto (s : LogSession) : message :=
  put_string 1 (ls_ID s) ++ put_string 2 (ls_PluginID s) ++ put_string 3 (ls_ConnectionID s) ++ put_string 4 (ls_ResourceKey s)
  ++ put_string 5 (ls_ResourceID s) ++ put_some 6 (LogSessionOptions_ToProto (Some (ls_Options s)))
  ++ put_int32 7 (LogSessionStatus_ToProto (Status s)) ++ put_messages 8 (map LogSource_ToProto (ActiveSources s))
  ++ put_message 9 (pb_New (nt_UTC (ls_CreatedAt s))).
Definition LogSessionFromProto (p : message) : LogSession :=
  mkLogSession (get_string 1 p) (get_string 2 p) (get_string 3 p) (get_string 4 p) (get_string 5 p)
    (LogSessionOptionsFromProto (get_message 6 p)) (LogSessionStatusFromProto (get_int32 7 p))
    (map LogSourceFromProto (get_messages 8 p)) (AsTime (get_message 9 p)).

Definition LogLine_ToProto (l : LogLine) : message :=
  put_string 1 (l_SessionID l) ++ put_string 2 (l_SourceID l) ++ put_map 3 (l_Labels l) ++ put_message 4 (pb_New (l_Timestamp l))
  ++ put_bytes 5 (bytes_of (Content l)) ++ put_int32 6 (LogLineOrigin_ToProto (Origin l))
  ++ put_int32 7 (LogLevel_ToProto (Level l)).
Definition LogLineFromProto (p : message) : LogLine :=
  mkLine (get_string 1 p) (get_string 2 p) (get_map 3 p) (time_or_zero (get_message 4 p)) (string_of (get_bytes 5 p))
    (LogLineOriginFromProto (get_int32 6 p)) (LogLevelFromProto (get_int32 7 p)).

Definition LogStreamEvent_ToProto (e : LogStreamEvent) : message :=
  put_int32 1 (LogStreamEventType_ToProto (ev_Type e)) ++ put_string 2 (ev_SourceID e) ++ put_string 3 (ev_Message e)
  ++ put_message 4 (pb_New (ev_Timestamp e)).
Definition LogStreamEventFromProto (p : message) : LogStreamEvent :=
  mkEvent (LogStreamEventTypeFromProto (get_int32 1 p)) (get_string 2 p) (get_string 3 p) (time_or_zero (get_message 4 p)).

Definition StreamInput_ToProto (i : StreamInput) : message :=
  put_string 1 (si_SessionID i) ++ put_int32 2 (LogStreamCommand_ToProto (si_Command i)).
Definition StreamInputFromProto (p : message) : StreamInput :=
  mkInput (get_string 1 p) (LogStreamCommandFromProto (get_int32 2 p)).

Definition ActionTargetBuilder_ToProto (a : ActionTargetBuilder) : message :=
  put_string 1 (tb_Label a) ++ put_string 2 (tb_LabelSelector a) ++ put_strings 3 (tb_Paths a) ++ put_map 4 (tb_Selectors a).
Definition ActionTargetBuilderFromProto (p : option message) : ActionTargetBuilder :=
  match p with
  | None => mkTargetBuilder "" "" [] []
  | Some p => mkTargetBuilder (get_string 1 p) (get_string 2 p) (get_strings 3 p) (get_map 4 p)
  end.
Definition Handler_ToProto (h : HandlerInfo) : message :=
  put_string 1 (hi_Plugin h) ++ put_string 2 (hi_Resource h)
  ++ put_some 3 (Some (ActionTargetBuilder_ToProto (hi_TargetBuilder h))).
Definition HandlerFromProto (p : message) : HandlerInfo :=
  mkHandlerInfo (get_string 1 p) (get_string 2 p) (ActionTargetBuilderFromProto (get_message 3 p)).
End messages.

(** ** Session requests (resource_options.go) *)

Definition ResourceSessionWireVersion : Z := WireVersion.
Definition resourceDataField : Z := 5.
Definition resourceError (code detail : string) : error := NewError code detail.

Definition HasResourceIntent (o : CreateSessionOptions) : bool :=
  negb (bool_decide (cs_SessionID o = "")) || nonnil (cs_ResourceData o) || nonnil (cs_Reference o) || nonnil (cs_Route o)
  || negb (bool_decide (cs_ResourceKey o = "")) || negb (bool_decide (cs_ResourceID o = "")).

(** github.com/google/uuid: whether [Parse] accepts. *)
Class UUID := { uuid_Parse : string → bool }.

(** The anonymous struct of [Validate], as walked. *)
Definition sessionMetadata (o : CreateSessionOptions) : reflected :=
  RStruct [field (cs_ResourceKey o); field (cs_ResourceID o); field (cs_Reference o); field (cs_Route o); field (cs_Options o)].

Definition CreateSessionOptions_Validate `{Protowire, ProtoRuntime, UUID} (o : CreateSessionOptions) : outcome unit :=
  require (bool_decide (cs_SessionID o = "") || uuid_Parse (cs_SessionID o))
    (resourceError "INVALID_REQUEST" "Resource session ID must be a UUID.") ;;
  metadataAdmission (sessionMetadata o) maxDomainDepth maxDomainNodes true ;;
  match cs_Reference o with
  | None => Some (Ok tt)
  | Some r =>
    ValidateAddress (r_Address r) None ;;
    require (negb (bool_decide (r_Incarnation r = Some "")))
      (resourceError "INVALID_REQUEST" "Resource incarnation must not be empty.") ;;
    require (nonnil (cs_Route o)) (resourceError "INVALID_REQUEST" "Resource reference requires an explicit route.") ;;
    require (bool_decide (cs_ResourceKey o = "") || bool_decide (cs_ResourceKey o = a_Type (r_Address r)))
      (resourceError "INVALID_REQUEST" "Resource selector conflicts with reference.")
  end ;;
  require match cs_Route o with Some r => negb (bool_decide (Connection r = "")) | None => true end
    (resourceError "INVALID_REQUEST" "Resource route requires a connection.") ;;
  match cs_ResourceData o with Some v => ValidateValue v | None => Some (Ok tt) end.

(** [selected] is the connection the plugin context carries, if any. *)
Definition validateRoute (selected : option string) (o : CreateSessionOptions) : outcome unit :=
  require match cs_Route o with Some r => bool_decide (selected = Some (Connection r)) | None => true end
    (resourceError "INVALID_REQUEST" "Resource route must match trusted connection.").

Section requests.
Context `{Protowire, ProtoRuntime, Timestamppb, UUID}.

Definition create_frame (o : CreateSessionOptions) (data reference route : option message) : message :=
  put_string 9 (cs_SessionID o) ++ put_string 1 (cs_ResourceKey o) ++ put_string 2 (cs_ResourceID o)
  ++ put_some 4 (LogSessionOptions_ToProto (Some (cs_Options o)))
  ++ put_uint 6 (if HasResourceIntent o then ResourceSessionWireVersion else 0) ++ put_some 7 reference
  ++ put_some 8 route ++ put_some 5 data.

Definition CreateSessionOptions_ToProto (o : CreateSessionOptions) : outcome message :=
  CreateSessionOptions_Validate o ;;
  reference ← encode_optional ToProtoResourceReference (cs_Reference o);
  route ← encode_optional ToProtoAccessRoute (cs_Route o);
  extra ← body_bytes resourceDataField (cs_ResourceData o);
  require (proto_Size (pmsg (create_frame o None reference route)) + extra <=? MaxMessageBytes)
    (resourceError "RESOURCE_LIMIT" "Logs frame exceeds wire limit.") ;;
  data ← encode_optional ToProtoValue (cs_ResourceData o);
  Some (Ok (create_frame o data reference route)).

(** The request with its unknown fields. *)
Definition validateSessionRequest (p : option pvalue) : outcome unit :=
  match p with
  | Some (PMsg unknown p) =>
    require (proto_Size (PMsg unknown p) <=? MaxMessageBytes) (resourceError "RESOURCE_LIMIT" "Logs frame exceeds wire limit.") ;;
    require (length unknown =? 0)%nat (resourceError "UNSUPPORTED" "Unknown or retired logs resource field.") ;;
    let intent :=
      negb (bool_decide (get_string 1 p = "")) || negb (bool_decide (get_string 2 p = "")) || nonnil (get_embedded 5 p)
      || nonnil (get_embedded 7 p) || nonnil (get_embedded 8 p) || negb (get_uint 6 p =? 0)
      || negb (bool_decide (get_string 9 p = "")) in
    require (negb (intent && negb (get_uint 6 p =? ResourceSessionWireVersion)))
      (resourceError "UNSUPPORTED" "Unsupported logs resource wire version.")
  | _ => fails (resourceError "INVALID_REQUEST" "Request must not be nil.")
  end.

Definition check_since (p : message) : outcome unit :=
  match get_message 4 p ≫= get_message 7 with
  | Some t => require (negb (nonnil (pb_CheckValid t))) (resourceError "INVALID_REQUEST" "Invalid logs since timestamp.")
  | None => Some (Ok tt)
  end.

Definition CreateSessionOptionsFromProto (p : option pvalue) : outcome CreateSessionOptions :=
  validateSessionRequest p ;;
  match p with
  | Some (PMsg _ p) =>
    let decoded data reference route :=
      mkCreate (get_string 9 p) (get_string 1 p) (get_string 2 p) data reference route
        (LogSessionOptionsFromProto (get_message 4 p)) in
    CreateSessionOptions_Validate (decoded None None None) ;;
    check_since p ;;
    reference ← encode_optional (λ p, FromProtoResourceReference (Some p)) (get_embedded 7 p);
    route ← encode_optional (λ p, FromProtoAccessRoute (Some p)) (get_embedded 8 p);
    CreateSessionOptions_Validate (decoded None reference route) ;;
    data ← encode_optional (λ p, FromProtoValue (Some p)) (get_embedded 5 p);
    CreateSessionOptions_Validate (decoded data reference route) ;;
    Some (Ok (decoded data reference route))
  | _ => None
  end.

Definition validateResourceSessionResult (s : option LogSession) : outcome unit :=
  match s with
  | Some s =>
    require (negb (bool_decide (ls_ID s = ""))) (resourceError "PROVIDER_ERROR" "Logs response requires a session ID.") ;;
    require (negb (nonnil (pb_CheckValid (pb_New (nt_UTC (ls_CreatedAt s))))))
      (resourceError "PROVIDER_ERROR" "Invalid logs session timestamp.") ;;
    ValidateMetadata (Some s)
  | None => fails (resourceError "PROVIDER_ERROR" "Logs response requires a session ID.")
  end.
End requests.

(** ** Round trips *)

Lemma enum_roundtrip (pairs : list (Z * Z)) d d' x : x ∈ map fst pairs → NoDup (map snd pairs) →
  enum_cases (flip pairs) d' (enum_cases pairs d x) = x.
Proof.
  intros Hx Hd. unfold enum_cases.
  assert (∃ p, find (λ p, p.1 =? x) pairs = Some p ∧ p.1 = x ∧ p ∈ pairs) as (p & -> & <- & Hp).
  { clear Hd. induction pairs as [|q pairs IH]; cbn [map] in Hx; [by apply not_elem_of_nil in Hx|]. cbn [find].
    destruct (Z.eqb_spec q.1 x) as [E|E]; [exists q; split_and!; [done..|]; by left|].
    apply elem_of_cons in Hx as [->|Hx]; [done|]. destruct (IH Hx) as (p & ? & ? & ?). exists p. split_and!; [done..|]. by right. }
  assert (find (λ q, q.1 =? p.2) (flip pairs) = Some (p.2, p.1)) as ->; [|done].
  unfold flip. induction pairs as [|q pairs IH]; [by apply not_elem_of_nil in Hp|]. cbn [map find fst].
  cbn [map] in Hd. apply NoDup_cons in Hd as [Hq Hd]. apply elem_of_cons in Hp as [->|Hp]; [by rewrite Z.eqb_refl|].
  destruct (Z.eqb_spec q.2 p.2) as [E|E].
  - destruct Hq. rewrite E. apply list_elem_of_fmap. by exists p.
  - apply IH; [|done..]. apply list_elem_of_fmap. by exists p.
Qed.
Lemma enum_bound (pairs : list (Z * Z)) d x k : Forall (λ p, 0 ≤ p.2 < k) pairs → 0 ≤ d < k → 0 ≤ enum_cases pairs d x < k.
Proof.
  intros Hp Hd. unfold enum_cases. destruct (find _ pairs) as [p|] eqn:E; [|done]. apply find_some in E as [Hin _].
  by apply (proj1 (Forall_forall _ _) Hp), list_elem_of_In.
Qed.
Lemma enum_read pairs d d' x : x ∈ map fst pairs → NoDup (map snd pairs) → Forall (λ p, 0 ≤ p.2 < 2 ^ 31) pairs → 0 ≤ d < 2 ^ 31 →
  enum_cases (flip pairs) d' (int32_of (wire_int32 (enum_cases pairs d x))) = x.
Proof.
  intros Hx Hd Hp H0. rewrite int32_roundtrip; [by apply enum_roundtrip|]. pose proof (enum_bound pairs d x _ Hp H0). lia.
Qed.
Ltac read_enum := read_message; apply enum_read; [done|by apply (bool_decide_unpack _); vm_compute|by repeat constructor|done].

Section roundtrips.
Context `{TimestamppbLaws}.

Definition timed (t : Time) : Prop := year_ok t ∧ nanos_ok t.
(** What survives the wire: times of the years 1 to 9999 in UTC, and integers of
    their width; references and routes travel beside the options. *)
Definition wired_time (t : NativeTime) : Prop := timed (nt_UTC t) ∧ t = mkNativeTime (utc_year (nt_UTC t)) (nt_UTC t).
Definition wired_int (n : Z) : Prop := - 2 ^ 63 ≤ n < 2 ^ 63.
Definition wired_options (o : LogSessionOptions) : Prop :=
  lo_Reference o = None ∧ lo_Route o = None ∧ wired_int (TailLines o) ∧ wired_int (SinceSeconds o) ∧ wired_int (LimitBytes o)
  ∧ (∀ t, SinceTime o = Some t → wired_time t).
Definition wired_line (l : LogLine) : Prop :=
  timed (l_Timestamp l) ∧ Origin l ∈ map fst line_origins ∧ Level l ∈ map fst log_levels.

Lemma source_roundtrip s : LogSourceFromProto (LogSource_ToProto s) = s.
Proof. destruct s as [i l]. unfold LogSourceFromProto, LogSource_ToProto. cbn [src_ID src_Labels]. f_equal; by read_message. Qed.
Lemma time_roundtrip t : wired_time t → AsTime (Some (pb_New (nt_UTC t))) = t.
Proof. intros [[Hy Hn] Ht]. unfold AsTime. cbn. rewrite AsTime_New by done. by rewrite Ht at 3. Qed.
Lemma log_options_roundtrip o : wired_options o → LogSessionOptionsFromProto (LogSessionOptions_ToProto (Some o)) = o.
Proof.
  destruct o as [r ro tg f ip it tl ss st lb ie pa]. unfold wired_options. cbn [lo_Reference lo_Route TailLines SinceSeconds LimitBytes SinceTime].
  intros (-> & -> & Htl & Hss & Hlb & Hst). unfold LogSessionOptionsFromProto, LogSessionOptions_ToProto. cbn [mbind option_bind].
  cbn [lo_Target Follow IncludePrevious IncludeTimestamps TailLines SinceSeconds SinceTime LimitBytes IncludeSourceEvents lo_Params].
  f_equal; try (by read_message); try (read_message; by apply int64_roundtrip).
  read_message. destruct st as [t|]; cbn [fmap option_fmap option_map]; [|done]. f_equal. by apply time_roundtrip, Hst.
Qed.

Lemma line_roundtrip l : wired_line l → LogLineFromProto (LogLine_ToProto l) = l.
Proof.
  destruct l as [s i la t c o v]. unfold wired_line. cbn [l_Timestamp Origin Level]. intros ([Hy Hn] & Ho & Hv).
  unfold LogLineFromProto, LogLine_ToProto. cbn [l_SessionID l_SourceID l_Labels l_Timestamp Content Origin Level].
  f_equal; try (by read_message).
  - read_message. cbn.  by apply AsTime_New.
  - read_message. by rewrite string_of_bytes_of.
  - unfold LogLineOriginFromProto, LogLineOrigin_ToProto. read_enum.
  - unfold LogLevelFromProto, LogLevel_ToProto. read_enum.
Qed.

Definition wired_event (e : LogStreamEvent) : Prop := timed (ev_Timestamp e) ∧ ev_Type e ∈ map fst stream_event_types.
Definition wired_session (s : LogSession) : Prop :=
  wired_options (ls_Options s) ∧ Status s ∈ map fst session_statuses ∧ wired_time (ls_CreatedAt s).

Lemma event_roundtrip e : wired_event e → LogStreamEventFromProto (LogStreamEvent_ToProto e) = e.
Proof.
  destruct e as [k i m t]. unfold wired_event. cbn [ev_Type ev_Timestamp]. intros ([Hy Hn] & Hk).
  unfold LogStreamEventFromProto, LogStreamEvent_ToProto. cbn [ev_Type ev_SourceID ev_Message ev_Timestamp].
  f_equal; try (by read_message).
  - unfold LogStreamEventTypeFromProto, LogStreamEventType_ToProto. read_enum.
  - read_message. cbn. by apply AsTime_New.
Qed.
Lemma session_roundtrip s : wired_session s → LogSessionFromProto (LogSession_ToProto s) = s.
Proof.
  destruct s as [i p c k r o st so t]. unfold wired_session. cbn [ls_Options Status ls_CreatedAt]. intros (Ho & Hs & Ht).
  unfold LogSessionFromProto, LogSession_ToProto.
  cbn [ls_ID ls_PluginID ls_ConnectionID ls_ResourceKey ls_ResourceID ls_Options Status ActiveSources ls_CreatedAt].
  f_equal; try (by read_message).
  - rewrite <- (log_options_roundtrip o Ho) at 2. f_equal. read_message. done.
  - unfold LogSessionStatusFromProto, LogSessionStatus_ToProto. read_enum.
  - read_message. rewrite map_map. rewrite <- (map_id so) at 2. apply map_ext, source_roundtrip.
  - read_message. cbn. by apply time_roundtrip.
Qed.
Lemma log_input_roundtrip i : si_Command i ∈ map fst stream_commands → StreamInputFromProto (StreamInput_ToProto i) = i.
Proof.
  destruct i as [s c]. cbn [si_Command]. intros Hc. unfold StreamInputFromProto, StreamInput_ToProto. cbn [si_SessionID si_Command].
  f_equal; [by read_message|]. unfold LogStreamCommandFromProto, LogStreamCommand_ToProto. read_enum.
Qed.
Lemma handler_roundtrip h : HandlerFromProto (Handler_ToProto h) = h.
Proof.
  destruct h as [p r [l s pa se]]. unfold HandlerFromProto, Handler_ToProto, ActionTargetBuilder_ToProto.
  cbn [hi_Plugin hi_Resource hi_TargetBuilder tb_Label tb_LabelSelector tb_Paths tb_Selectors].
  f_equal; [by read_message..|]. unfold get_message. autorewrite with proto. cbn [Z.eqb Pos.eqb app as_message].
  unfold ActionTargetBuilderFromProto. f_equal; by read_message.
Qed.

(** The messages of log streaming lose nothing: lines, events, sessions with
    their options and sources, commands and handler descriptions decode to what
    was encoded, for times of the years 1 to 9999 in UTC, the declared constants
    and 64-bit integers. *)
Theorem log_messages_roundtrip :
  (∀ l, wired_line l → LogLineFromProto (LogLine_ToProto l) = l)
  ∧ (∀ e, wired_event e → LogStreamEventFromProto (LogStreamEvent_ToProto e) = e)
  ∧ (∀ s, wired_session s → LogSessionFromProto (LogSession_ToProto s) = s)
  ∧ (∀ i, si_Command i ∈ map fst stream_commands → StreamInputFromProto (StreamInput_ToProto i) = i)
  ∧ (∀ h, HandlerFromProto (Handler_ToProto h) = h).
Proof.
  split_and!; [apply line_roundtrip|apply event_roundtrip|apply session_roundtrip|apply log_input_roundtrip|apply handler_roundtrip].
Qed.
End roundtrips.

Lemma log_messages_roundtrip_witness :
  let l := mkLine "s1" "pod/a" [("app", "web")] (mkTime 1700000000 5) "hello" LogLineOriginCurrent LogLevelInfo in
  @LogLineFromProto sample_timestamppb (@LogLine_ToProto sample_timestamppb l) = l.
Proof.
  intros l. apply (@log_messages_roundtrip sample_timestamppb sample_timestamppb_laws).
  split_and!; [split; vm_compute; by split|by vm_compute; left|by vm_compute; do 3 right; left].
Defined.
