(* ===== verification/LogLines.v ===== *)
(** * Log handlers and log lines (pkg/v1/logs: registry.go, timestamp.go)

    The registry resolves a resource key to one handler whatever the order of the
    map it is built from, and a leading timestamp is split off a line. *)
From S2P Require Import Prelude GoStd GoTime Errors Values Json TaggedJson Domain Canonical Messages LogTypes.
Local Open Scope Z_scope.

(** ** Handlers *)

(** A handler: its description and its optional source builder. The callback that
    opens a stream answers anything. *)
Record Handler := mkHandler {
  h_Info : HandlerInfo; h_SourceBuilder : option (string → option Value → LogSessionOptions → list LogSource)
}.
(** Resolvers are callbacks too: which keys have one. *)
Record handlerRegistry := mkRegistry {
  r_handlers : gmap string Handler; r_index : gmap string string; r_resolvers : gset string
}.

(** [strings.Cut(s, "/")]: what follows the first slash. *)
Fixpoint cut_slash (s : string) : option string :=
  match s with
  | EmptyString => None
  | String c s => if Ascii.eqb c "/" then Some s else cut_slash s
  end.

Definition register (r : handlerRegistry) (e : string * Handler) : handlerRegistry :=
  let '(fullKey, h) := e in
  mkRegistry (<[fullKey := h]> (r_handlers r))
    (match cut_slash fullKey with
     | Some resourceKey =>
       match r_index r !! resourceKey with
       | Some existing => if string_lt fullKey existing then <[resourceKey := fullKey]> (r_index r) else r_index r
       | None => <[resourceKey := fullKey]> (r_index r)
       end
     | None => r_index r
     end)
    (r_resolvers r).
(** [handlers] in this run's iteration order. *)
Definition newHandlerRegistry (handlers : list (string * Handler)) (resolvers : gset string) : handlerRegistry :=
  foldl register (mkRegistry ∅ ∅ resolvers) handlers.

Definition FindHandler (r : handlerRegistry) (resourceKey : string) : option Handler :=
  fullKey ← r_index r !! resourceKey; r_handlers r !! fullKey.
Definition FindResolver (r : handlerRegistry) (resourceKey : string) : bool := bool_decide (resourceKey ∈ r_resolvers r).
Definition sorted_keys (r : handlerRegistry) : list string := sort_by id (map fst (map_to_list (r_handlers r))).
Definition AllHandlers (r : handlerRegistry) : list Handler := omap (λ k, r_handlers r !! k) (sorted_keys r).
Definition AnyHandler (r : handlerRegistry) : option Handler :=
  match sorted_keys r with [] => None | k :: _ => r_handlers r !! k end.

(** *** The handler of a key *)

(** The smallest full key among those of a resource. *)
Definition smallest (handlers : list (string * Handler)) (key full : string) : Prop :=
  full ∈ map fst handlers ∧ cut_slash full = Some key
  ∧ ∀ k, k ∈ map fst handlers → cut_slash k = Some key → string_le full k.

Lemma register_all handlers resolvers :
  let r := newHandlerRegistry handlers resolvers in
  NoDup (map fst handlers) →
  (∀ k h, r_handlers r !! k = Some h ↔ (k, h) ∈ handlers)
  ∧ (∀ key full, r_index r !! key = Some full → smallest handlers key full)
  ∧ (∀ key, r_index r !! key = None → ∀ k, k ∈ map fst handlers → cut_slash k ≠ Some key)
  ∧ r_resolvers r = resolvers.
Proof.
  cbn zeta. unfold newHandlerRegistry. induction handlers as [|[fk h] hs IH] using rev_ind; intros Hd.
  { cbn [foldl r_handlers r_index r_resolvers]. split_and!; [| | |done].
    - intros k h. rewrite lookup_empty. split; [done|by intros ?%not_elem_of_nil].
    - intros key full Hk. by rewrite lookup_empty in Hk.
    - intros key _ k Hk. by apply not_elem_of_nil in Hk. }
  rewrite map_app in Hd. apply NoDup_app in Hd as (Hd & Hx & _). cbn [map fst] in Hx.
  destruct (IH Hd) as (H1 & H2 & H3 & H4). rewrite foldl_app. cbn [foldl].
  set (r := foldl register _ hs) in *. clearbody r. unfold register. cbn [r_handlers r_index r_resolvers].
  assert (fk ∉ map fst hs) as Hfk by (intros Hin; destruct (Hx _ Hin); by left).
  split_and!; [| | |done].
  - intros k h'. rewrite elem_of_app, list_elem_of_singleton. destruct (decide (k = fk)) as [->|Hn].
    + rewrite lookup_insert_eq. split; [intros [= <-]; by right|]. intros [Hin|[= <-]]; [|done].
      destruct Hfk. apply list_elem_of_fmap. by exists (fk, h').
    + rewrite lookup_insert_ne by done. rewrite H1. split; [by left|]. intros [?|[= ->]]; done.
  - intros key full. unfold smallest. rewrite map_app. cbn [map fst]. setoid_rewrite elem_of_app.
    setoid_rewrite list_elem_of_singleton.
    assert (Hnew : cut_slash fk ≠ Some key → r_index r !! key = Some full →
              (full ∈ map fst hs ∨ full = fk) ∧ cut_slash full = Some key
              ∧ ∀ k, k ∈ map fst hs ∨ k = fk → cut_slash k = Some key → string_le full k).
    { intros Hc Hk. apply H2 in Hk as (Ha & Hb & Hl). split_and!; [by left|done|]. intros k [Hk| ->] Hck; [by apply Hl|done]. }
    destruct (cut_slash fk) as [key'|] eqn:Ec; [|by apply Hnew].
    destruct (r_index r !! key') as [ex|] eqn:Ek.
    + pose proof (H2 _ _ Ek) as (Ha & Hb & Hl). destruct (string_lt fk ex) eqn:El.
      * destruct (decide (key = key')) as [->|Hne]; [|rewrite lookup_insert_ne by done; apply Hnew; congruence].
        rewrite lookup_insert_eq. intros [= <-]. split_and!; [by right|done|]. intros k [Hk| ->] Hck; [|by apply string_le_refl].
        apply (string_le_trans _ ex); [by apply bytes_lt_asym|by apply Hl].
      * destruct (decide (key = key')) as [->|Hne]; [|apply Hnew; congruence].
        rewrite Ek. intros [= <-]. split_and!; [by left|done|]. intros k [Hk| ->] Hck; [by apply Hl|done].
    + destruct (decide (key = key')) as [->|Hne]; [|rewrite lookup_insert_ne by done; apply Hnew; congruence].
      rewrite lookup_insert_eq. intros [= <-]. split_and!; [by right|done|].
      intros k [Hk| ->] Hck; [by destruct (H3 _ Ek _ Hk)|by apply string_le_refl].
  - intros key Hkey k. rewrite map_app. cbn [map fst]. rewrite elem_of_app, list_elem_of_singleton. intros Hk Hc.
    assert (r_index r !! key = None ∧ (cut_slash fk = Some key → False)) as [Hnone Hfkc].
    { destruct (cut_slash fk) as [key'|]; [|done]. destruct (decide (key = key')) as [->|Hne].
      - destruct (r_index r !! key') as [ex|] eqn:Ek; [destruct (string_lt fk ex)|];
          rewrite ?lookup_insert_eq, ?Ek in Hkey; discriminate.
      - split; [|congruence]. destruct (r_index r !! key') as [ex|]; [destruct (string_lt fk ex)|];
          rewrite ?lookup_insert_ne in Hkey by done; done. }
    destruct Hk as [Hk| ->]; [by destruct (H3 _ Hnone _ Hk)|done].
Qed.

Section resolution.
Context (handlers : list (string * Handler)) (resolvers : gset string) (Hkeys : NoDup (map fst handlers)).
Abbreviation r := (newHandlerRegistry handlers resolvers).

Lemma registered_handlers k h : r_handlers r !! k = Some h ↔ (k, h) ∈ handlers.
Proof. by apply (register_all handlers resolvers). Qed.
Lemma sorted_keys_spec : sorted_keys r ≡ₚ map fst handlers ∧ StronglySorted string_le (sorted_keys r).
Proof.
  split; [|apply (sort_by_sorted id)]. unfold sorted_keys. rewrite sort_by_perm.
  apply (Permutation_map fst (l := map_to_list (r_handlers r))).
  apply NoDup_Permutation; [apply NoDup_map_to_list|by apply (NoDup_fmap_1 fst)|]. intros [k h].
  by rewrite elem_of_map_to_list, registered_handlers.
Qed.
Lemma smallest_unique key f f' : smallest handlers key f → smallest handlers key f' → f = f'.
Proof. intros (H1 & H2 & H3) (H1' & H2' & H3'). apply string_le_antisym; auto. Qed.
Lemma handler_of_key k : k ∈ map fst handlers → ∃ h, (k, h) ∈ handlers ∧ r_handlers r !! k = Some h.
Proof.
  intros Hk. apply list_elem_of_fmap in Hk as ([k' h] & -> & Hin). exists h. split; [done|]. by apply registered_handlers.
Qed.

(** Whatever the order of the handler map, a resource key resolves to the
    handler with the smallest full key among those of that resource, and to none
    exactly when there is none; the handler of resolved sources is the one with
    the smallest key of all, and the listing is every handler by key. *)
Theorem handler_resolution key :
  (∀ h, FindHandler r key = Some h ↔ ∃ full, smallest handlers key full ∧ (full, h) ∈ handlers)
  ∧ (FindHandler r key = None ↔ ∀ k, k ∈ map fst handlers → cut_slash k ≠ Some key)
  ∧ (∀ h, AnyHandler r = Some h ↔ ∃ full, (full, h) ∈ handlers ∧ ∀ k, k ∈ map fst handlers → string_le full k)
  ∧ AllHandlers r ≡ₚ map snd handlers.
Proof.
  destruct (register_all handlers resolvers Hkeys) as (H1 & H2 & H3 & _). destruct sorted_keys_spec as [Hp Hs].
  assert (FindHandler r key = None ↔ r_index r !! key = None) as Hnone.
  { unfold FindHandler. destruct (r_index r !! key) as [full|] eqn:E; cbn; [|done].
    destruct (handler_of_key full) as (h & _ & ->); [apply (H2 _ _ E)|]. by split. }
  split_and!.
  - intros h. unfold FindHandler. split.
    + intros (full & Hi & Hh)%bind_Some. exists full. split; [by apply H2|by apply H1].
    + intros (full & Hm & Hin). destruct (r_index r !! key) as [f|] eqn:E; [|by destruct (H3 _ E full (proj1 Hm) (proj1 (proj2 Hm)))].
      cbn. rewrite (smallest_unique key f full (H2 _ _ E) Hm). by apply H1.
  - rewrite Hnone. split; [apply H3|]. intros Hn. destruct (r_index r !! key) as [f|] eqn:E; [|done].
    destruct (H2 _ _ E) as (Ha & Hb & _). by destruct (Hn f Ha).
  - intros h. unfold AnyHandler. destruct (sorted_keys r) as [|k l] eqn:E.
    + split; [done|]. intros (full & Hin & _). apply Permutation_nil in Hp. assert (full ∈ map fst handlers) as Hf
        by (apply list_elem_of_fmap; by exists (full, h)). rewrite Hp in Hf. by apply not_elem_of_nil in Hf.
    + assert (∀ k', k' ∈ map fst handlers → string_le k k') as Hleast.
      { intros k' Hk'. rewrite <- Hp in Hk'. apply StronglySorted_inv in Hs as [_ Hs]. apply elem_of_cons in Hk' as [->|Hk'];
          [apply string_le_refl|by apply (proj1 (Forall_forall _ _) Hs)]. }
      rewrite H1. split; [by exists k|]. intros (full & Hin & Hl).
      assert (full = k) as ->; [|done]. apply string_le_antisym.
      * apply Hl. rewrite <- Hp. by left.
      * apply Hleast, list_elem_of_fmap. by exists (full, h).
  - unfold AllHandlers. rewrite Hp. clear -H1 Hkeys. assert (∀ l, (∀ e, e ∈ l → e ∈ handlers) → omap (λ k, r_handlers r !! k) (map fst l) = map snd l) as Hl.
    { induction l as [|[k h] l IH]; intros Hsub; [done|]. cbn. rewrite (proj2 (H1 k h)) by (apply Hsub; by left). f_equal.
      apply IH. intros e He. apply Hsub. by right. }
    by rewrite Hl.
Qed.
End resolution.

Definition sample_registry : list (string * Handler) :=
  map (λ k, (k, mkHandler (mkHandlerInfo k "pod" (mkTargetBuilder "" "" [] [])) None)) ["b/pod"; "a/pod"; "c"].
Lemma handler_resolution_witness :
  NoDup (map fst sample_registry)
  ∧ ∃ h, FindHandler (newHandlerRegistry sample_registry ∅) "pod" = Some h ∧ hi_Plugin (h_Info h) = "a/pod".
Proof.
  assert (NoDup (map fst sample_registry)) as Hd by (apply (bool_decide_unpack _); vm_compute; exact I).
  split; [exact Hd|]. exists (mkHandler (mkHandlerInfo "a/pod" "pod" (mkTargetBuilder "" "" [] [])) None). split; [|reflexivity].
  apply (proj1 (handler_resolution sample_registry ∅ Hd "pod")). exists "a/pod". split; [|unfold sample_registry; cbn [map]; apply elem_of_cons; right; apply elem_of_cons; left; reflexivity].
  split; [apply (bool_decide_unpack _); vm_compute; exact I|]. split; [reflexivity|].
  apply (Forall_forall (λ k, cut_slash k = Some "pod" → string_le "a/pod" k)). repeat constructor; vm_compute; congruence.
Defined.

(** ** Timestamps *)

(** [time.Parse] of the layout "2006-01-02T15:04:05" on the first nineteen bytes,
    in seconds: every field has its digits, every separator is in place, and the
    date and time exist. *)
Definition stamp_seconds (b : bytes) : option Z :=
  let year := num2 b 0 * 100 + num2 b 2 in
  let month := num2 b 5 in let day := num2 b 8 in
  let hour := num2 b 11 in let min := num2 b 14 in let sec := num2 b 17 in
  if forallb (λ i, is_digit (byte_at b i)) [0; 1; 2; 3; 5; 6; 8; 9; 11; 12; 14; 15; 17; 18]%nat
     && Ascii.eqb (byte_at b 4) "-" && Ascii.eqb (byte_at b 7) "-" && Ascii.eqb (byte_at b 10) "T"
     && Ascii.eqb (byte_at b 13) ":" && Ascii.eqb (byte_at b 16) ":"
     && negb ((month <? 1) || (12 <? month) || (day <? 1) || (days_in month year <? day)
              || (23 <? hour) || (59 <? min) || (59 <? sec))
  then Some (days_from_civil year month day * 86400 + hour * 3600 + min * 60 + sec)
  else None.

(** A fraction in nanoseconds: digits past the ninth are dropped. *)
Definition fraction (b : bytes) : Z * bytes :=
  match b with
  | "."%char :: ((c :: _) as r) =>
    if is_digit c then let '(ds, r) := span_digits r in (nanos_of (take 9 ds), r) else (0, b)
  | _ => (0, b)
  end.

(** [time.Parse] of the two bare layouts and of RFC 3339, whose two constants read
    the same texts. *)
Definition Parse_local (b : bytes) : option Time :=
  if (length b =? 19)%nat then (λ s, mkTime s 0) <$> stamp_seconds b else None.
Definition Parse_utc (b : bytes) : option Time :=
  if bool_decide (drop 19 b = ["Z"%char]) then (λ s, mkTime s 0) <$> stamp_seconds b else None.
Definition Parse_rfc3339 (b : bytes) : option Time :=
  s ← stamp_seconds b;
  let '(nanos, rest) := fraction (drop 19 b) in
  offset ← parse_zone rest;
  Some (mkTime (s - offset) nanos).

Definition timestampOffsetWidth : nat := 6.
(** The zone: [Z], or a sign and five bytes. *)
Definition zone_end (line : bytes) (i : nat) : option nat :=
  match line !! i with
  | None => None
  | Some c =>
    if Ascii.eqb c "Z" then Some (i + 1)%nat
    else if Ascii.eqb c "+" || Ascii.eqb c "-" then
      if (i + timestampOffsetWidth <=? length line)%nat then Some (i + timestampOffsetWidth)%nat else None
    else None
  end.
Definition findTimestampEnd (line : bytes) : option nat :=
  zone_end line match line !! 19%nat with
                | Some "."%char => (20 + length (span_digits (drop 20 line)).1)%nat
                | _ => 19%nat
                end.

Fixpoint trimCopyContent (b : bytes) : bytes :=
  match b with c :: b' => if Ascii.eqb c " " then trimCopyContent b' else b | [] => [] end.

Definition continues (c : ascii) : bool := Ascii.eqb c "." || Ascii.eqb c "Z" || Ascii.eqb c "+" || Ascii.eqb c "-".

Definition extractTimestamp (line : bytes) : Time * bytes :=
  let whole := (zero_time, line) in
  let split_at (n : nat) (t : option Time) :=
    match t with Some t => (t, trimCopyContent (drop n line)) | None => whole end in
  if (length line <? 19)%nat || negb (is_digit (byte_at line 0)) then whole
  else if negb (Ascii.eqb (byte_at line 4) "-" && Ascii.eqb (byte_at line 7) "-" && Ascii.eqb (byte_at line 10) "T"
                && Ascii.eqb (byte_at line 13) ":" && Ascii.eqb (byte_at line 16) ":") then whole
  else if (length line =? 19)%nat || negb (continues (byte_at line 19)) then split_at 19%nat (Parse_local (take 19 line))
  else if Ascii.eqb (byte_at line 19) "Z" then split_at 20%nat (Parse_utc (take 20 line))
  else match findTimestampEnd line with
       | None => whole
       | Some tsEnd => split_at tsEnd (Parse_rfc3339 (take tsEnd line))
       end.

(** *** What it recognises *)

(** A timestamp of any of the formats. *)
Definition parse_stamp (b : bytes) : option Time :=
  if (length b =? 19)%nat then Parse_local b else Parse_rfc3339 b.
(** A line that starts with a timestamp: no longer one starts there too. *)
Definition stamped (line stamp rest : bytes) (t : Time) : Prop :=
  line = stamp ++ rest ∧ parse_stamp stamp = Some t
  ∧ (length stamp = 19%nat → ∀ c rest', rest = c :: rest' → continues c = false).

Lemma stamp_seconds_take (b : bytes) n : (19 ≤ n)%nat → stamp_seconds (take n b) = stamp_seconds b.
Proof.
  intros Hn. unfold stamp_seconds, num2, byte_at. cbn [forallb].
  rewrite !lookup_take_lt by lia. done.
Qed.
Lemma stamp_seconds_app (a b : bytes) : (19 ≤ length a)%nat → stamp_seconds (a ++ b) = stamp_seconds a.
Proof. intros Ha. rewrite <- (stamp_seconds_take (a ++ b) (length a)) by done. by rewrite take_app_length. Qed.
Lemma stamp_seconds_long b s : stamp_seconds b = Some s → (19 ≤ length b)%nat.
Proof.
  intros Hs. destruct (decide (19 ≤ length b)%nat) as [|Hl]; [done|]. unfold stamp_seconds in Hs. cbn [forallb] in Hs.
  assert (is_digit (byte_at b 18) = false) as Hd by (unfold byte_at; by rewrite lookup_ge_None_2 by lia).
  rewrite Hd in Hs. rewrite !andb_false_r in Hs. done.
Qed.
Lemma stamp_seconds_shape b s : stamp_seconds b = Some s →
  is_digit (byte_at b 0) = true ∧ Ascii.eqb (byte_at b 4) "-" && Ascii.eqb (byte_at b 7) "-" && Ascii.eqb (byte_at b 10) "T"
  && Ascii.eqb (byte_at b 13) ":" && Ascii.eqb (byte_at b 16) ":" = true.
Proof.
  unfold stamp_seconds. cbn [forallb]. destruct (is_digit (byte_at b 0)); [|done]. split; [done|].
  destruct (Ascii.eqb (byte_at b 4) "-"), (Ascii.eqb (byte_at b 7) "-"), (Ascii.eqb (byte_at b 10) "T"),
    (Ascii.eqb (byte_at b 13) ":"), (Ascii.eqb (byte_at b 16) ":"); try done;
    rewrite ?andb_false_r, ?andb_false_l in *; done.
Qed.
Lemma span_digits_spec b : b = (span_digits b).1 ++ (span_digits b).2 ∧ forallb is_digit (span_digits b).1 = true
  ∧ ∀ c r, (span_digits b).2 = c :: r → is_digit c = false.
Proof.
  induction b as [|c b (IH1 & IH2 & IH3)]; [done|]. cbn [span_digits]. destruct (is_digit c) eqn:E.
  - destruct (span_digits b) as [ds r]. cbn in *. rewrite E. by rewrite <- IH1.
  - cbn. split_and!; [done..|]. by intros ? ? [= -> ->].
Qed.

Lemma zone_shape r off : parse_zone r = Some off →
  r = ["Z"%char] ∨ ∃ c r', r = c :: r' ∧ length r = 6%nat ∧ (c = "+"%char ∨ c = "-"%char).
Proof.
  unfold parse_zone. intros H. destruct r as [|c [|h1 [|h2 [|q [|m1 [|m2 [|x r]]]]]]]; try (repeat case_match; discriminate).
  - left. repeat case_match; congruence.
  - right. exists c, [h1; h2; q; m1; m2]. split_and!; [done..|].
    destruct (Ascii.eqb_spec c "+"); [by left|]. destruct (Ascii.eqb_spec c "-"); [by right|]. repeat case_match; discriminate.
Qed.
Lemma zone_first r off : parse_zone r = Some off → ∃ c r', r = c :: r' ∧ is_digit c = false ∧ c ≠ "."%char.
Proof. intros [->|(c & r' & -> & _ & [->| ->])]%zone_shape; eexists _, _; (split; [reflexivity|done]). Qed.

(** What the tail of a timestamp looks like. *)
Lemma fraction_shape tail n r off : fraction tail = (n, r) → parse_zone r = Some off →
  tail = r ∨ ∃ ds, forallb is_digit ds = true ∧ tail = "."%char :: ds ++ r.
Proof.
  intros Hf Hz. destruct tail as [|c tail]; [injection Hf as <- <-; by left|].
  destruct (decide (c = "."%char)) as [->|Hc].
  - cbn in Hf. destruct tail as [|d tail]; [injection Hf as <- <-; by left|]. destruct (is_digit d) eqn:Ed.
    + destruct (span_digits_spec (d :: tail)) as (H1 & H2 & _). destruct (span_digits (d :: tail)) as [ds r0].
      cbn [fst snd] in *. injection Hf as <- <-. right. exists ds. split; [done|]. by rewrite H1.
    + injection Hf as <- <-. by left.
  - left. assert (fraction (c :: tail) = (0, c :: tail)) as E; [|congruence].
    unfold fraction. destruct c as [[] [] [] [] [] [] [] []]; try reflexivity. by destruct Hc.
Qed.

Lemma zone_end_app p r rest off : parse_zone r = Some off → zone_end (p ++ r ++ rest) (length p) = Some (length p + length r)%nat.
Proof.
  intros Hz. unfold zone_end, timestampOffsetWidth. rewrite lookup_app_r, Nat.sub_diag by lia.
  apply zone_shape in Hz as [->|(c & r' & -> & Hl & Hc)]; cbn [app lookup list_lookup]; [done|].
  rewrite !length_app. cbn [length] in *. rewrite length_app.
  destruct (Nat.leb_spec (length p + 6) (length p + S (length r' + length rest))); [|lia].
  destruct Hc as [->| ->]; cbn; f_equal; lia.
Qed.
Lemma zone_end_bound line i e : zone_end line i = Some e → (i < e ≤ length line)%nat.
Proof.
  unfold zone_end, timestampOffsetWidth. destruct (line !! i) as [c|] eqn:E; [|done]. apply lookup_lt_Some in E.
  destruct (Ascii.eqb c "Z"); [intros [= <-]; lia|]. destruct (Ascii.eqb c "+" || Ascii.eqb c "-"); [|done].
  destruct (Nat.leb_spec (i + 6) (length line)); [|done]. intros [= <-]. lia.
Qed.

Lemma findTimestampEnd_app p tail rest n r off : length p = 19%nat → fraction tail = (n, r) → parse_zone r = Some off →
  findTimestampEnd (p ++ tail ++ rest) = Some (19 + length tail)%nat.
Proof.
  intros Hp Hf Hz. destruct (zone_first r off Hz) as (c & r' & Er & Hc & Hdot). unfold findTimestampEnd.
  rewrite lookup_app_r, Hp by lia. cbn [Nat.sub].
  destruct (fraction_shape _ _ _ _ Hf Hz) as [->|(ds & Hds & ->)].
  - assert ((r ++ rest) !! 0%nat = Some c) as -> by by rewrite Er.
    assert (match c with "."%char => (20 + length (span_digits (drop 20 (p ++ r ++ rest))).1)%nat | _ => 19%nat end = 19%nat) as ->.
    { destruct c as [[] [] [] [] [] [] [] []]; try reflexivity. by destruct Hdot. }
    rewrite <- Hp. by apply (zone_end_app p r rest off).
  - cbn [app lookup list_lookup].
    assert (drop 20 (p ++ "."%char :: (ds ++ r) ++ rest) = ds ++ r ++ rest) as ->.
    { rewrite drop_app_ge by lia. rewrite Hp. cbn [Nat.sub drop]. by rewrite app_assoc. }
    rewrite span_digits_app by (rewrite ?Er; done). cbn [fst].
    replace (p ++ "."%char :: (ds ++ r) ++ rest) with ((p ++ "."%char :: ds) ++ r ++ rest)
      by (rewrite <- !app_assoc; cbn [app]; rewrite <- ?app_assoc; done).
    replace (20 + length ds)%nat with (length (p ++ "."%char :: ds)) by (rewrite length_app; cbn [length]; lia).
    rewrite (zone_end_app _ r rest off) by done. f_equal. rewrite length_app. cbn [length]. rewrite length_app. lia.
Qed.

(** The first byte of a tail shows that the timestamp goes on. *)
Lemma tail_continues tail n r off : fraction tail = (n, r) → parse_zone r = Some off →
  ∃ c tail', tail = c :: tail' ∧ continues c = true ∧ (c = "Z"%char → tail = ["Z"%char] ∧ n = 0 ∧ off = 0).
Proof.
  intros Hf Hz. destruct (fraction_shape _ _ _ _ Hf Hz) as [->|(ds & Hds & ->)].
  - destruct (zone_shape _ _ Hz) as [->|(c & r' & -> & _ & [->| ->])]; eexists _, _; (split; [reflexivity|]); (split; [done|]); [|done..].
    intros _. injection Hf as <-. cbn in Hz. by injection Hz as <-.
  - by eexists _, _.
Qed.
Lemma Parse_utc_eq b : drop 19 b = ["Z"%char] → Parse_utc b = Parse_rfc3339 b.
Proof.
  intros Hb. unfold Parse_utc, Parse_rfc3339. rewrite Hb. cbn. destruct (stamp_seconds b) as [s|]; [|done]. cbn. by rewrite Z.sub_0_r.
Qed.

Lemma byte_at_app a b i : (i < length a)%nat → byte_at (a ++ b) i = byte_at a i.
Proof. intros Hi. unfold byte_at. by rewrite lookup_app_l. Qed.

Lemma extract_stamped line stamp rest t : stamped line stamp rest t → extractTimestamp line = (t, trimCopyContent rest).
Proof.
  intros (-> & Hp & Hlast). unfold parse_stamp in Hp.
  assert (∃ s, stamp_seconds stamp = Some s) as [s Hs].
  { destruct (length stamp =? 19)%nat; [unfold Parse_local in Hp; destruct (length stamp =? 19)%nat; [|done]|
      unfold Parse_rfc3339 in Hp]; destruct (stamp_seconds stamp); try done; eauto. }
  pose proof (stamp_seconds_long _ _ Hs) as Hlen. destruct (stamp_seconds_shape _ _ Hs) as [Hd Hsep].
  unfold extractTimestamp. rewrite !byte_at_app by lia. rewrite Hd, Hsep. rewrite length_app.
  destruct (Nat.ltb_spec (length stamp + length rest) 19); [lia|]. cbn [orb negb].
  destruct (Nat.eqb_spec (length stamp) 19) as [E|E].
  - assert ((length stamp + length rest =? 19)%nat || negb (continues (byte_at (stamp ++ rest) 19)) = true) as ->.
    { destruct rest as [|c rest]; [rewrite E; done|]. apply orb_true_iff. right. unfold byte_at.
      rewrite lookup_app_r, E by lia. cbn. by rewrite (Hlast E c rest). }
    rewrite <- E, take_app_length, drop_app_length. by rewrite Hp.
  - unfold Parse_rfc3339 in Hp. rewrite Hs in Hp. cbn [mbind option_bind] in Hp.
    destruct (fraction (drop 19 stamp)) as [n r] eqn:Ef. destruct (parse_zone r) as [off|] eqn:Ez; [|done].
    cbn [mbind option_bind] in Hp. destruct (tail_continues _ _ _ _ Ef Ez) as (c & tail' & Et & Hcont & HZ).
    assert (stamp = take 19 stamp ++ drop 19 stamp) as Hsplit by by rewrite take_drop.
    assert (length (take 19 stamp) = 19%nat) as H19 by (rewrite length_take; lia).
    assert (byte_at (stamp ++ rest) 19 = c) as Hc.
    { unfold byte_at. rewrite Hsplit, <- app_assoc, lookup_app_r, H19 by lia. by rewrite Et. }
    rewrite Hc, Hcont. destruct (Nat.eqb_spec (length stamp + length rest) 19); [lia|]. cbn [orb negb].
    assert (length stamp = 19 + length (drop 19 stamp))%nat as Hls by (rewrite length_drop; lia).
    destruct (Ascii.eqb_spec c "Z") as [->|Hz].
    + destruct (HZ eq_refl) as (Htail & -> & ->). rewrite Htail in Hls. cbn in Hls.
      rewrite <- Hls, take_app_length, drop_app_length. rewrite Parse_utc_eq by done. unfold Parse_rfc3339.
      rewrite Hs. cbn [mbind option_bind]. rewrite Ef, Ez. cbn [mbind option_bind]. by injection Hp as <-.
    + assert (findTimestampEnd (stamp ++ rest) = Some (length stamp)) as ->.
      { rewrite Hsplit, <- app_assoc. rewrite (findTimestampEnd_app _ _ _ n r off) by done. f_equal. rewrite length_app. lia. }
      rewrite take_app_length, drop_app_length. unfold Parse_rfc3339. rewrite Hs. cbn [mbind option_bind]. rewrite Ef, Ez.
      cbn [mbind option_bind]. by injection Hp as <-.
Qed.

Lemma extract_cases line : (∃ stamp rest t, stamped line stamp rest t) ∨ extractTimestamp line = (zero_time, line).
Proof.
  unfold extractTimestamp. destruct (Nat.ltb_spec (length line) 19); [by right|]. destruct (is_digit (byte_at line 0)); [|by right].
  cbn [orb negb]. destruct (_ && _); [cbn [negb]|by right].
  destruct ((length line =? 19)%nat || negb (continues (byte_at line 19))) eqn:Eb.
  - destruct (Parse_local (take 19 line)) as [t|] eqn:Ep; [|by right]. left. exists (take 19 line), (drop 19 line), t.
    assert (length (take 19 line) = 19%nat) as Hl by (rewrite length_take; lia).
    split_and!; [by rewrite take_drop|unfold parse_stamp; by rewrite Hl|]. intros _ c rest' Hr.
    assert (byte_at line 19 = c) as <-.
    { unfold byte_at. assert (line !! 19%nat = drop 19 line !! 0%nat) as -> by by rewrite lookup_drop. by rewrite Hr. }
    apply orb_true_iff in Eb as [Eb|Eb]; [|by apply negb_true_iff]. apply Nat.eqb_eq in Eb.
    apply (f_equal length) in Hr. rewrite length_drop in Hr. cbn in Hr. lia.
  - apply orb_false_iff in Eb as [Eb Hc]. apply Nat.eqb_neq in Eb.
    destruct (Ascii.eqb_spec (byte_at line 19) "Z") as [HZ|_].
    + destruct (Parse_utc (take 20 line)) as [t|] eqn:Ep; [|by right]. left. exists (take 20 line), (drop 20 line), t.
      assert (length (take 20 line) = 20%nat) as Hl by (rewrite length_take; lia).
      assert (drop 19 (take 20 line) = ["Z"%char]) as Hd by (unfold Parse_utc in Ep; by case_bool_decide).
      split_and!; [by rewrite take_drop| |by rewrite Hl]. unfold parse_stamp. rewrite Hl. cbn [Nat.eqb]. by rewrite <- Parse_utc_eq.
    + destruct (findTimestampEnd line) as [e|] eqn:Ef; [|by right].
      destruct (Parse_rfc3339 (take e line)) as [t|] eqn:Ep; [|by right]. left. exists (take e line), (drop e line), t.
      apply zone_end_bound in Ef. assert (length (take e line) ≠ 19%nat) as Hl.
      { rewrite length_take. destruct (line !! 19%nat) as [c|]; [destruct c as [[] [] [] [] [] [] [] []]|]; lia. }
      split_and!; [by rewrite take_drop| |done]. unfold parse_stamp. by destruct (Nat.eqb_spec (length (take e line)) 19).
Qed.

Lemma nanos_of_nine (b : bytes) : (length b ≤ 9)%nat → take 9 b = b.
Proof. intros. by apply take_ge. Qed.
Lemma fraction_tail_text n : 0 ≤ n < 1000000000 → fraction (tail_text n) = (n, ["Z"%char]).
Proof.
  intros Hn. pose proof (parse_fraction_tail n Hn) as Hp. unfold tail_text in *.
  destruct (Z.eqb_spec n 0) as [->|Hz]; [done|]. destruct (fraction_digits n ltac:(lia)) as (Hd & Hl & Hv).
  set (ts := trim_zeros _) in *. clearbody ts. cbn [app] in *. destruct ts as [|c r]; [cbn in Hl; lia|]. cbn [app] in *.
  cbn [forallb] in Hd. apply andb_true_iff in Hd as [Hc Hd]. cbn [fraction]. rewrite Hc.
  change (c :: r ++ ["Z"%char]) with ((c :: r) ++ ["Z"%char]). rewrite span_digits_app by (cbn [forallb]; rewrite ?Hc; done).
  rewrite nanos_of_nine by lia. by rewrite Hv.
Qed.
(** The date and time of a formatted instant. *)
Lemma format_parses t : year_ok t → nanos_ok t → parse_stamp (format_rfc3339nano t) = Some t.
Proof.
  intros Hy Hn. pose proof (parse_format t Hy Hn) as Hp. pose proof (format_stamp t Hy) as Hf.
  destruct (civil_from_days (Unix t / 86400)) as [[y mo] d]. fold (tail_text (Nanosecond t)) in Hf. rewrite Hf in *.
  set (p := stamp y mo d (Unix t mod 86400)) in *.
  assert (drop 19 (p ++ tail_text (Nanosecond t)) = tail_text (Nanosecond t)) as Hdrop by apply drop_stamp.
  assert (length p = 19%nat) as Hl.
  { subst p. unfold stamp. rewrite ?length_app. cbn [length]. rewrite ?length_app, ?length_pad_digits. cbn [length].
    rewrite ?length_app, ?length_pad_digits. cbn [length]. rewrite ?length_app, ?length_pad_digits. cbn [length].
    rewrite ?length_app, ?length_pad_digits. done. }
  unfold parse_stamp. rewrite length_app, Hl. assert (length (tail_text (Nanosecond t)) ≠ 0%nat) as Hnz.
  { unfold tail_text. rewrite length_app. cbn. lia. }
  destruct (Nat.eqb_spec (19 + length (tail_text (Nanosecond t))) 19); [lia|].
  unfold Parse_rfc3339. rewrite Hdrop, fraction_tail_text by done. cbn [parse_zone].
  unfold parse_rfc3339nano in Hp. rewrite Hdrop, parse_fraction_tail in Hp by done.
  unfold stamp_seconds. destruct (_ || _ || _ || _ || _ || _ || _); [done|]. cbn [mbind option_bind parse_zone] in Hp.
  injection Hp as Hyear Ht.
  assert (forallb (λ i, is_digit (byte_at (p ++ tail_text (Nanosecond t)) i)) [0; 1; 2; 3; 5; 6; 8; 9; 11; 12; 14; 15; 17; 18]%nat = true) as ->.
  { cbn [forallb]. rewrite !byte_at_app by lia. subst p. unfold byte_at, stamp. cbn [pad_digits app lookup list_lookup default from_option id].
    by rewrite !num_is_digit. }
  rewrite !byte_at_app by lia.
  assert (Ascii.eqb (byte_at p 4) "-" && Ascii.eqb (byte_at p 7) "-" && Ascii.eqb (byte_at p 10) "T"
          && Ascii.eqb (byte_at p 13) ":" && Ascii.eqb (byte_at p 16) ":" = true) as Hsep by reflexivity.
  cbn [andb negb]. rewrite andb_true_r, Hsep. cbn [mbind option_bind]. f_equal. exact Ht.
Qed.

(** A log line is split exactly where a timestamp ends. A line that starts
    with one of the four formats, and with no longer one, yields its instant and
    what follows it without leading blanks; any other line is kept whole with no
    timestamp. So a line written as a UTC instant, a blank and a text gives back
    the instant and the text. *)
Theorem extractTimestamp_exact :
  (∀ line stamp rest t, stamped line stamp rest t → extractTimestamp line = (t, trimCopyContent rest))
  ∧ (∀ line, (∀ stamp rest t, ¬ stamped line stamp rest t) → extractTimestamp line = (zero_time, line))
  ∧ (∀ t text, year_ok t → nanos_ok t →
       extractTimestamp (format_rfc3339nano t ++ " "%char :: text) = (t, trimCopyContent text)).
Proof.
  split_and!; [apply extract_stamped| |].
  - intros line Hn. destruct (extract_cases line) as [(stamp & rest & t & Hs)|]; [by destruct (Hn stamp rest t)|done].
  - intros t text Hy Hn. rewrite (extract_stamped _ (format_rfc3339nano t) (" "%char :: text) t); [done|].
    split_and!; [done|by apply format_parses|]. by intros _ c rest' [= <- <-].
Qed.
Lemma extractTimestamp_exact_witness : let line := bytes_of "2024-01-15T10:30:00.5+01:00  GET /" in
  extractTimestamp line = (mkTime 1705311000 500000000, bytes_of "GET /").
Proof.
  intros line. apply (proj1 extractTimestamp_exact line (take 27 line) (drop 27 line)).
  split_and!; [reflexivity|vm_compute; reflexivity|vm_compute; discriminate].
Defined.

