(* ===== verification/LogSession.v ===== *)
(** * One log session (pkg/v1/logs/manager.go)

    The goroutines of a session: its orchestrator, the watcher of dynamic sources,
    a goroutine per source, and the calls that change its options or status. A step
    is one critical section, or a stretch between two of them that touches nothing
    shared. What a session needs from its manager, the delivery of an output, is in
    the label of a step. *)
From S2P Require Import Prelude GoStd GoTime Errors Values Json Domain Source Messages LogTypes LogLines.
Local Open Scope Z_scope.

Definition MaxConcurrentStreamsPerSession : nat := 20.
Definition MaxScannerBuffer : Z := 1024 * 1024.
Definition Second : Z := 1000000000.
Definition ReconnectMaxAttempts : nat := 5.
Definition ReconnectInitialDelay : Z := 1 * Second.
Definition ReconnectMaxDelay : Z := 30 * Second.
Definition reconnectBackoffMultiplier : Z := 2.

(** A line or an event, for the session ID it carries. *)
Record StreamOutput := mkOutput { so_SessionID : string; so_Line : option LogLine; so_Event : option LogStreamEvent }.

(** ** The goroutines *)

(** Where a goroutine is: at a place of its code, or in [emitEvent] on the way to
    one, before it looks the session up and before it hands the event over. *)
Inductive flow (L : Type) :=
| At (l : L)
| Emit (ev : LogStreamEvent) (l : L)
| Deliver (ev : LogStreamEvent) (target : nat) (l : L).
Arguments At {L}.
Arguments Emit {L}.
Arguments Deliver {L}.

(** [markSourceReady], by its sections. *)
Inductive marking := Storing | Gating | Counting | Readying.
(** [launchSource], [launchRegisteredSource], [streamSource], [streamWithReconnect],
    [consumeSourceReader] and [readStream]. *)
Inductive loc :=
| Launching                        (** before [registerSourceCtx] *)
| Queued                           (** registered, before the semaphore *)
| Dropping                         (** cancelled in the queue *)
| Holding                          (** the semaphore is taken *)
| DroppingHeld                     (** cancelled while it waited *)
| Starting | Looping | Sleeping
| Opening                          (** in the handler *)
| Unopened                         (** it gave no reader *)
| Scanning | Scanned (line : bytes) | Checked (line : bytes) | Sending (l : LogLine)
| Closing (retry : bool)           (** the reader ended; whether with an error other than its end *)
| Closed (retry : bool)
| Exhausted
| Leaving                          (** before the deferred deletion *)
| Releasing                        (** before the semaphore is released *)
| Finished
| Marking (k : marking) (next : loc).

Inductive origin := Fanned | Watched | Reenabled (late : bool).
Record run := mkRun {
  r_source : LogSource; r_opts : CreateSessionOptions; r_origin : origin;
  r_ctx : option nat;              (** its cancel handle *)
  r_at : flow loc; r_attempt : nat; r_delay : Z;
  r_waits : list Z;                (** the delays it waited for *)
  r_opens : nat;                   (** its calls of the handler *)
  r_read : list (bytes * option Z) (** the lines its readers yielded, and the status of the session each was judged by *)
}.

Inductive oloc :=
| Beginning | Resolving (o : CreateSessionOptions) | Failing (message : string)
| Preparing (o : CreateSessionOptions) (sources : list LogSource) (watch : bool)
| Counted (o : CreateSessionOptions) (sources : list LogSource) (watch : bool)
| Transitioning (o : CreateSessionOptions) (sources : list LogSource) (watch : bool)
| Activating (o : CreateSessionOptions) (watch : bool)
| Fanning (o : CreateSessionOptions) (sources : list LogSource) (watch : bool)
| Joining                          (** [wg.Wait()] *)
| Draining                         (** [ss.sourceWg.Wait()] *)
| Settling | Settled | Ending | Finishing | Returning | Gone.

Inductive wloc :=
| Waiting | Registering (s : LogSource) | Adding (s : LogSource) (ctx : nat) | Spawning (s : LogSource) (ctx : nat)
| Cancelling (s : LogSource) | Removing (s : LogSource) | Stopped.

(** [UpdateSessionOptions]. *)
Inductive uloc :=
| Setting (o : LogSessionOptions) | Enabling (selection : string)
| Announcing (events : list LogStreamEvent) (restart : list LogSource)
| Reopening (restart : list LogSource) | Restarting (o : CreateSessionOptions) (restart : list LogSource)
| Updated.

(** What another call still does to the session: [cancel] and [setStatus]. *)
Inductive order := Cancel | Force (status : Z).

(** ** The session *)

Record readiness := mkReadiness {
  totalSources : Z; readySources : Z; readied : bool; readySet : gset string; initialSourceIDs : gset string
}.
(** The goroutines of a session. *)
Inductive worker := Main | Watcher | Updater (i : nat) | Reader (k : nat).
#[global] Instance worker_eq_dec : EqDecision worker.
Proof. solve_decision. Defined.
Record registered := mkRegistered {
  sourceCtxs : gmap string nat; ctxs : list bool;   (** every cancel handle made, and whether it was called *)
  sourceSem : nat
}.
Record entry := mkEntry {
  e_session : LogSession; e_opts : CreateSessionOptions; e_canceled : bool; e_done : bool;
  e_ready : readiness; e_sources : registered;
  e_orch : flow oloc; e_watch : option (flow wloc); e_runs : list run; e_updates : list (flow uloc);
  e_orders : list (list order);                     (** of each call *)
  e_asked : list (worker * LogStreamEvent);         (** every call of [emitEvent] that looked its session up *)
  e_log : list (worker * StreamOutput)              (** what it delivered, and which goroutine did *)
}.

Definition set_session (s : LogSession) (e : entry) : entry :=
  mkEntry s (e_opts e) (e_canceled e) (e_done e) (e_ready e) (e_sources e) (e_orch e) (e_watch e) (e_runs e) (e_updates e)
    (e_orders e) (e_asked e) (e_log e).
Definition cancel (e : entry) : entry :=
  mkEntry (e_session e) (e_opts e) true (e_done e) (e_ready e) (e_sources e) (e_orch e) (e_watch e) (e_runs e) (e_updates e)
    (e_orders e) (e_asked e) (e_log e).
Definition close_done (e : entry) : entry :=
  mkEntry (e_session e) (e_opts e) (e_canceled e) true (e_ready e) (e_sources e) (e_orch e) (e_watch e) (e_runs e)
    (e_updates e) (e_orders e) (e_asked e) (e_log e).
Definition set_ready (r : readiness) (e : entry) : entry :=
  mkEntry (e_session e) (e_opts e) (e_canceled e) (e_done e) r (e_sources e) (e_orch e) (e_watch e) (e_runs e) (e_updates e)
    (e_orders e) (e_asked e) (e_log e).
Definition set_registered (r : registered) (e : entry) : entry :=
  mkEntry (e_session e) (e_opts e) (e_canceled e) (e_done e) (e_ready e) r (e_orch e) (e_watch e) (e_runs e) (e_updates e)
    (e_orders e) (e_asked e) (e_log e).
Definition set_orch (o : flow oloc) (e : entry) : entry :=
  mkEntry (e_session e) (e_opts e) (e_canceled e) (e_done e) (e_ready e) (e_sources e) o (e_watch e) (e_runs e) (e_updates e)
    (e_orders e) (e_asked e) (e_log e).
Definition set_watch (w : flow wloc) (e : entry) : entry :=
  mkEntry (e_session e) (e_opts e) (e_canceled e) (e_done e) (e_ready e) (e_sources e) (e_orch e) (Some w) (e_runs e)
    (e_updates e) (e_orders e) (e_asked e) (e_log e).
Definition set_runs (r : list run) (e : entry) : entry :=
  mkEntry (e_session e) (e_opts e) (e_canceled e) (e_done e) (e_ready e) (e_sources e) (e_orch e) (e_watch e) r (e_updates e)
    (e_orders e) (e_asked e) (e_log e).
Definition set_updates (u : list (flow uloc)) (e : entry) : entry :=
  mkEntry (e_session e) (e_opts e) (e_canceled e) (e_done e) (e_ready e) (e_sources e) (e_orch e) (e_watch e) (e_runs e) u
    (e_orders e) (e_asked e) (e_log e).
Definition set_orders (o : list (list order)) (e : entry) : entry :=
  mkEntry (e_session e) (e_opts e) (e_canceled e) (e_done e) (e_ready e) (e_sources e) (e_orch e) (e_watch e) (e_runs e)
    (e_updates e) o (e_asked e) (e_log e).
Definition log_output (w : worker) (o : StreamOutput) (e : entry) : entry :=
  mkEntry (e_session e) (e_opts e) (e_canceled e) (e_done e) (e_ready e) (e_sources e) (e_orch e) (e_watch e) (e_runs e)
    (e_updates e) (e_orders e) (e_asked e) (e_log e ++ [(w, o)]).
Definition log_asked (w : worker) (ev : LogStreamEvent) (e : entry) : entry :=
  mkEntry (e_session e) (e_opts e) (e_canceled e) (e_done e) (e_ready e) (e_sources e) (e_orch e) (e_watch e) (e_runs e)
    (e_updates e) (e_orders e) (e_asked e ++ [(w, ev)]) (e_log e).
Definition put_run (k : nat) (r : run) (e : entry) : entry := set_runs (<[k := r]> (e_runs e)) e.
Definition spawn (rs : list run) (e : entry) : entry := set_runs (e_runs e ++ rs) e.

(** ** Operations of the session state *)

Definition with_Status (st : Z) (s : LogSession) : LogSession :=
  mkLogSession (ls_ID s) (ls_PluginID s) (ls_ConnectionID s) (ls_ResourceKey s) (ls_ResourceID s) (ls_Options s) st
    (ActiveSources s) (ls_CreatedAt s).
Definition with_ActiveSources (l : list LogSource) (s : LogSession) : LogSession :=
  mkLogSession (ls_ID s) (ls_PluginID s) (ls_ConnectionID s) (ls_ResourceKey s) (ls_ResourceID s) (ls_Options s) (Status s)
    l (ls_CreatedAt s).
Definition with_Options (o : LogSessionOptions) (s : LogSession) : LogSession :=
  mkLogSession (ls_ID s) (ls_PluginID s) (ls_ConnectionID s) (ls_ResourceKey s) (ls_ResourceID s) o (Status s)
    (ActiveSources s) (ls_CreatedAt s).
Definition create_with_Options (o : LogSessionOptions) (c : CreateSessionOptions) : CreateSessionOptions :=
  mkCreate (cs_SessionID c) (cs_ResourceKey c) (cs_ResourceID c) (cs_ResourceData c) (cs_Reference c) (cs_Route c) o.
Definition with_target (r : option ResourceReference) (ro : option AccessRoute) (o : LogSessionOptions) : LogSessionOptions :=
  mkLogOptions r ro (lo_Target o) (Follow o) (IncludePrevious o) (IncludeTimestamps o) (TailLines o) (SinceSeconds o)
    (SinceTime o) (LimitBytes o) (IncludeSourceEvents o) (lo_Params o).

Definition snapshot (e : entry) : LogSession := e_session e.
Definition status (e : entry) : Z := Status (e_session e).
Definition setStatus (to : Z) (e : entry) : entry := set_session (with_Status to (e_session e)) e.
Definition transition (from to : Z) (e : entry) : entry := if status e =? from then setStatus to e else e.
Definition setSources (l : list LogSource) (e : entry) : entry := set_session (with_ActiveSources l (e_session e)) e.
Definition addSource (s : LogSource) (e : entry) : entry := setSources (ActiveSources (e_session e) ++ [s]) e.
Definition removeSource (id : string) (e : entry) : entry :=
  setSources (filter (λ s, src_ID s ≠ id) (ActiveSources (e_session e))) e.

(** [registerSourceCtx]: the handle, unless the source is registered already. *)
Definition registerSourceCtx (id : string) (e : entry) : option (entry * nat) :=
  let s := e_sources e in
  match sourceCtxs s !! id with
  | Some _ => None
  | None =>
    let k := length (ctxs s) in
    Some (set_registered (mkRegistered (<[id := k]> (sourceCtxs s)) (ctxs s ++ [false]) (sourceSem s)) e, k)
  end.
(** [delete(ss.sourceCtxs, source.ID)] under the lock. *)
Definition unregister (id : string) (e : entry) : entry :=
  let s := e_sources e in set_registered (mkRegistered (delete id (sourceCtxs s)) (ctxs s) (sourceSem s)) e.
(** [if cancel, ok := ss.sourceCtxs[id]; ok { cancel() }] *)
Definition cancel_source (id : string) (e : entry) : entry :=
  let s := e_sources e in
  match sourceCtxs s !! id with
  | Some k => set_registered (mkRegistered (sourceCtxs s) (<[k := true]> (ctxs s)) (sourceSem s)) e
  | None => e
  end.
Definition acquire (e : entry) : entry :=
  let s := e_sources e in set_registered (mkRegistered (sourceCtxs s) (ctxs s) (S (sourceSem s))) e.
Definition release (e : entry) : entry :=
  let s := e_sources e in set_registered (mkRegistered (sourceCtxs s) (ctxs s) (pred (sourceSem s))) e.

(** [ctx.Err() != nil] of a source goroutine. *)
Definition ctx_done (e : entry) (r : run) : bool :=
  e_canceled e || match r_ctx r with Some k => default false (ctxs (e_sources e) !! k) | None => false end.

(** *** Readiness *)

(** [ss.totalSources] and [ss.initialSourceIDs], set before the goroutines start. *)
Definition prepare (o : CreateSessionOptions) (sources : list LogSource) (e : entry) : entry :=
  let total := Z.of_nat (length sources) in
  let total := if Follow (cs_Options o) && (Z.of_nat MaxConcurrentStreamsPerSession <? total)
               then Z.of_nat MaxConcurrentStreamsPerSession else total in
  let r := e_ready e in
  set_ready (mkReadiness total (readySources r) (readied r) (readySet r) (list_to_set (map src_ID sources))) e.

(** The sections of [markSourceReady]: what it does next. *)
Definition mark (id : string) (k : marking) (e : entry) : entry * option marking :=
  let r := e_ready e in
  match k with
  | Storing =>
    if bool_decide (id ∈ readySet r) then (e, None)
    else (set_ready (mkReadiness (totalSources r) (readySources r) (readied r) ({[id]} ∪ readySet r) (initialSourceIDs r)) e,
          Some Gating)
  | Gating => (e, if readied r || bool_decide (id ∈ initialSourceIDs r) then Some Counting else None)
  | Counting =>
    let ready := readySources r + 1 in
    (set_ready (mkReadiness (totalSources r) ready (readied r) (readySet r) (initialSourceIDs r)) e,
     if totalSources r <=? ready then Some Readying else None)
  | Readying => (e, None)
  end.
(** The last section, under the session's lock: whether SESSION_READY follows. *)
Definition becomes_ready (e : entry) : option entry :=
  let r := e_ready e in
  if e_canceled e || (status e =? LogSessionStatusError) || (status e =? LogSessionStatusClosed) || readied r then None
  else
    let e := set_ready (mkReadiness (totalSources r) (readySources r) true (readySet r) (initialSourceIDs r)) e in
    Some (transition LogSessionStatusInitializing LogSessionStatusActive e).

(** *** Events *)

Definition event (kind : Z) (id message : string) (now : Time) : LogStreamEvent := mkEvent kind id message now.
Definition event_output (e : entry) (ev : LogStreamEvent) : StreamOutput := mkOutput (ls_ID (e_session e)) None (Some ev).
Definition line_output (l : LogLine) : StreamOutput := mkOutput (l_SessionID l) (Some l) None.
Definition ready_event (now : Time) : LogStreamEvent := event StreamEventSessionReady "" "All sources connected" now.
Definition empty_event (now : Time) : LogStreamEvent :=
  event StreamEventSessionReady "" "No sources to stream (resolved 0 sources)" now.

(** What [readStream] makes of a line. *)
Definition to_line (e : entry) (src : LogSource) (line : bytes) : LogLine :=
  let '(ts, content) := extractTimestamp line in
  mkLine (ls_ID (e_session e)) (src_ID src) (src_Labels src) ts (string_of content) LogLineOriginCurrent LogLevelUnspecified.

(** *** Selections *)

(** The encodings of the runes [unicode.IsSpace] accepts. *)
Definition spaces : list bytes :=
  map (λ l, map byte_of l)
    ([[9]; [10]; [11]; [12]; [13]; [32]; [194; 133]; [194; 160]; [225; 154; 128]; [226; 128; 168]; [226; 128; 169];
      [226; 128; 175]; [226; 129; 159]; [227; 128; 128]] ++ map (λ n, [226; 128; Z.of_nat n]) (seq 128 11)).
Fixpoint has_prefix (p b : bytes) : option bytes :=
  match p, b with
  | [], b => Some b
  | x :: p, y :: b => if Ascii.eqb x y then has_prefix p b else None
  | _ :: _, [] => None
  end.
Fixpoint trim_go (fuel : nat) (seqs : list bytes) (b : bytes) : bytes :=
  match fuel, omap (λ p, has_prefix p b) seqs with S fuel, b' :: _ => trim_go fuel seqs b' | _, _ => b end.
(** Each turn drops a byte or more. *)
Definition trim_with (seqs : list bytes) (b : bytes) : bytes := trim_go (length b) seqs b.
Definition TrimSpace (s : string) : string :=
  string_of (reverse (trim_with (map reverse spaces) (reverse (trim_with spaces (bytes_of s))))).
Definition enabledSourceIDs (selection : string) : gset string :=
  list_to_set (filter (λ id, id ≠ "") (map TrimSpace (strings_split selection ","))).

(** The locked section of [updateEnabledSources]: what was disabled, in this run's
    order [keys] of the map, and which sources are to be restarted. *)
Definition enabled (selection id : string) : bool :=
  bool_decide (selection = "") || bool_decide (id ∈ enabledSourceIDs selection).
Definition updateEnabledSources (selection : string) (keys : list string) (now : Time) (e : entry)
    : entry * (list LogStreamEvent * list LogSource) :=
  let off := filter (λ id, enabled selection id = false) keys in
  let e := foldl (λ e id, unregister id (cancel_source id e)) e off in
  (e, (map (λ id, event StreamEventSourceRemoved id ("Source disabled: " +:+ id) now) off,
       filter (λ s, enabled selection (src_ID s) = true ∧ sourceCtxs (e_sources e) !! src_ID s = None)
         (ActiveSources (snapshot e)))).

(** ** Steps *)

(** What a step asks of the manager: nothing; what [emitEvent]'s lookup finds; that
    an output is taken; that a blocked delivery is given up, because the session
    found (or the source) was cancelled; that its orchestrator is over. *)
Inductive label := Quiet | Lookup (target : option nat) | Sent (o : StreamOutput) | Unsent (target : option nat) | Done.

(** What a step of [emitEvent] does with its event: it asks who gets it, hands it
    over, or gives it up. *)
Inductive report := Asked (ev : LogStreamEvent) | Handed (o : StreamOutput) | GivenUp.
Definition record (w : worker) (x : report) (e : entry) : entry :=
  match x with Asked ev => log_asked w ev e | Handed o => log_output w o e | GivenUp => e end.
Inductive delivery (e : entry) {L} : flow L → label → report → flow L → Prop :=
| D_lookup ev l target :
    delivery e (Emit ev l) (Lookup target) (Asked ev) match target with Some t => Deliver ev t l | None => At l end
| D_sent ev t l : delivery e (Deliver ev t l) (Sent (event_output e ev)) (Handed (event_output e ev)) (At l)
| D_unsent ev t l : delivery e (Deliver ev t l) (Unsent (Some t)) GivenUp (At l).

Definition at_flow (f : flow loc) (r : run) : run :=
  mkRun (r_source r) (r_opts r) (r_origin r) (r_ctx r) f (r_attempt r) (r_delay r) (r_waits r) (r_opens r) (r_read r).
Definition go (l : loc) (r : run) : run := at_flow (At l) r.
Definition new_run (src : LogSource) (o : CreateSessionOptions) (from : origin) (ctx : option nat) (l : loc) : run :=
  mkRun src o from ctx (At l) 0 ReconnectInitialDelay [] 0 [].
Definition with_ctx (k : nat) (r : run) : run :=
  mkRun (r_source r) (r_opts r) (r_origin r) (Some k) (r_at r) (r_attempt r) (r_delay r) (r_waits r) (r_opens r) (r_read r).
Definition next_attempt (r : run) : run :=
  mkRun (r_source r) (r_opts r) (r_origin r) (r_ctx r) (At Looping) (S (r_attempt r)) (r_delay r) (r_waits r) (r_opens r)
    (r_read r).
(** The timer fired; the delay doubles. *)
Definition waited (r : run) : run :=
  mkRun (r_source r) (r_opts r) (r_origin r) (r_ctx r) (At Opening) (r_attempt r)
    (Z.min (r_delay r * reconnectBackoffMultiplier) ReconnectMaxDelay) (r_waits r ++ [r_delay r]) (r_opens r) (r_read r).
Definition opened (f : flow loc) (r : run) : run :=
  mkRun (r_source r) (r_opts r) (r_origin r) (r_ctx r) f (r_attempt r) (r_delay r) (r_waits r) (S (r_opens r)) (r_read r).
Definition with_read (l : list (bytes * option Z)) (r : run) : run :=
  mkRun (r_source r) (r_opts r) (r_origin r) (r_ctx r) (r_at r) (r_attempt r) (r_delay r) (r_waits r) (r_opens r) l.
(** The reader yields a line; it is judged by the status of the session. *)
Definition read_line (line : bytes) (r : run) : run := with_read (r_read r ++ [(line, None)]) r.
Definition judge_line (st : Z) (r : run) : run :=
  with_read (alter (λ x : bytes * option Z, (x.1, Some st)) (pred (length (r_read r))) (r_read r)) r.

Definition id_of (r : run) : string := src_ID (r_source r).
Definition run_event (kind : Z) (message : string) (now : Time) (r : run) : LogStreamEvent := event kind (id_of r) message now.
Definition attempt_text (n : nat) : string := format_int (Z.of_nat n).

(** A section of [markSourceReady], on the way to [next]. *)
Definition mark_run (now : Time) (k : marking) (next : loc) (e : entry) (r : run) : entry * run :=
  match k with
  | Readying =>
    match becomes_ready e with Some e => (e, at_flow (Emit (ready_event now) next) r) | None => (e, go next r) end
  | _ => let '(e, more) := mark (id_of r) k e in (e, go match more with Some k => Marking k next | None => next end r)
  end.

Definition launch (e : entry) (r : run) : entry * run :=
  match registerSourceCtx (id_of r) e with
  | None => (e, go Finished r)
  | Some (e, k) => (e, go Queued (with_ctx k r))
  end.
(** The head of the loop of [streamWithReconnect]. *)
Definition turn (now : Time) (e : entry) (r : run) : run :=
  if (ReconnectMaxAttempts <? r_attempt r)%nat then go Exhausted r
  else if ctx_done e r then go Leaving r
  else if (0 <? r_attempt r)%nat then
    at_flow (Emit (run_event StreamEventReconnecting
                     ("Reconnecting (attempt " +:+ attempt_text (r_attempt r) +:+ "/" +:+ attempt_text ReconnectMaxAttempts +:+ ")")
                     now r) Sleeping) r
  else go Opening r.
(** The handler's answer: a reader or none. *)
Definition open_source (now : Time) (reader : bool) (r : run) : run :=
  if reader then
    let next := Marking Storing Scanning in
    opened (if (0 <? r_attempt r)%nat then Emit (run_event StreamEventReconnected "Reconnected" now r) next else At next) r
  else opened (At Unopened) r.
Definition exhausted (now : Time) (e : entry) (r : run) : entry * run :=
  if ctx_done e r then (e, go Leaving r)
  else (setStatus LogSessionStatusError e,
        at_flow (Emit (run_event StreamEventStreamError
                         ("Failed to reconnect after " +:+ attempt_text ReconnectMaxAttempts +:+ " attempts") now r) Leaving) r).

(** A step of a source goroutine at index [k] of its session. *)
Inductive run_step (k : nat) (e : entry) (r : run) : label → entry → Prop :=
| Run_launch : r_at r = At Launching → run_step k e r Quiet (let '(e, r) := launch e r in put_run k r e)
| Run_acquire : r_at r = At Queued → (sourceSem (e_sources e) < MaxConcurrentStreamsPerSession)%nat →
    run_step k e r Quiet (put_run k (go Holding r) (acquire e))
| Run_dropped : r_at r = At Queued → ctx_done e r = true → run_step k e r Quiet (put_run k (go Dropping r) e)
| Run_drop : r_at r = At Dropping →
    run_step k e r Quiet (put_run k (go (Marking Storing Finished) r) (unregister (id_of r) e))
| Run_hold : r_at r = At Holding →
    run_step k e r Quiet (put_run k (go (if ctx_done e r then DroppingHeld else Starting) r) e)
| Run_drop_held : r_at r = At DroppingHeld →
    run_step k e r Quiet (put_run k (go (Marking Storing Releasing) r) (unregister (id_of r) e))
| Run_start now : r_at r = At Starting →
    run_step k e r Quiet
      (put_run k (at_flow (if IncludeSourceEvents (cs_Options (r_opts r))
                           then Emit (run_event StreamEventSourceAdded ("Started streaming from " +:+ id_of r) now r) Looping
                           else At Looping) r) e)
| Run_turn now : r_at r = At Looping → run_step k e r Quiet (put_run k (turn now e r) e)
| Run_wake : r_at r = At Sleeping → ctx_done e r = true → run_step k e r Quiet (put_run k (go Leaving r) e)
| Run_wait : r_at r = At Sleeping → run_step k e r Quiet (put_run k (waited r) e)
| Run_open now reader : r_at r = At Opening → run_step k e r Quiet (put_run k (open_source now reader r) e)
| Run_unopened : r_at r = At Unopened →
    run_step k e r Quiet (put_run k (if ctx_done e r then go Leaving r else next_attempt r) e)
| Run_mark now m next : r_at r = At (Marking m next) →
    run_step k e r Quiet (let '(e, r) := mark_run now m next e r in put_run k r e)
| Run_scan line : r_at r = At Scanning → blen line < MaxScannerBuffer → run_step k e r Quiet (put_run k (go (Scanned line) (read_line line r)) e)
| Run_scan_ends retry : r_at r = At Scanning → run_step k e r Quiet (put_run k (go (Closing retry) r) e)
| Run_scanned line : r_at r = At (Scanned line) →
    run_step k e r Quiet (put_run k (go (if ctx_done e r then Closing true else Checked line) r) e)
| Run_checked line : r_at r = At (Checked line) →
    run_step k e r Quiet
      (put_run k (go (if status e =? LogSessionStatusPaused then Scanning else Sending (to_line e (r_source r) line))
                    (judge_line (status e) r)) e)
| Run_send l : r_at r = At (Sending l) →
    run_step k e r (Sent (line_output l)) (put_run k (go Scanning r) (log_output (Reader k) (line_output l) e))
| Run_unsent l : r_at r = At (Sending l) → ctx_done e r = true →
    run_step k e r (Unsent None) (put_run k (go (Closing true) r) e)
| Run_close retry : r_at r = At (Closing retry) → run_step k e r Quiet (put_run k (go (Closed retry) r) e)
| Run_closed retry : r_at r = At (Closed retry) →
    run_step k e r Quiet (put_run k (if ctx_done e r || negb retry then go Leaving r else next_attempt r) e)
| Run_exhausted now : r_at r = At Exhausted → run_step k e r Quiet (let '(e, r) := exhausted now e r in put_run k r e)
| Run_leave : r_at r = At Leaving → run_step k e r Quiet (put_run k (go Releasing r) (unregister (id_of r) e))
| Run_release : r_at r = At Releasing → run_step k e r Quiet (put_run k (go Finished r) (release e))
| Run_emits l x f : delivery e (r_at r) l x f →
    run_step k e r l
      (put_run k (at_flow f r) (record (Reader k) x e)).

(** *** The orchestrator *)

Section orchestration.
Context (reg : handlerRegistry).

(** [orchestrateSession] up to the resolver, or [streamFromHandler] up to its sources. *)
Definition begin_orchestration (o : CreateSessionOptions) : oloc :=
  match FindHandler reg (cs_ResourceKey o) with
  | Some h =>
    let sources := match h_SourceBuilder h with
                   | Some build => build (cs_ResourceID o) (cs_ResourceData o) (cs_Options o)
                   | None => [mkSource (cs_ResourceID o) []]
                   end in
    match sources with [] => Failing "No log sources found for this resource" | _ => Preparing o sources false end
  | None =>
    if FindResolver reg (cs_ResourceKey o) then Resolving o
    else Failing ("no log handler found for resource type " +:+ cs_ResourceKey o)
  end.
(** The resolver answers an error, or sources and whether there are events. *)
Definition resolved (o : CreateSessionOptions) (answer : option (list LogSource * bool)) : oloc :=
  match answer with
  | None => Failing "LOG_SOURCE_FAILED: Log sources could not be opened."
  | Some (sources, events) =>
    match AnyHandler reg with
    | None => Failing "no log handler available for resolved sources"
    | Some _ => Preparing o sources (Follow (cs_Options o) && events)
    end
  end.
Definition after_transition (o : CreateSessionOptions) (sources : list LogSource) (watch : bool) : oloc :=
  match sources with [] => Activating o watch | _ => Fanning o sources watch end.
(** The watcher and [fanOutSources] start their goroutines. *)
Definition fan_out (o : CreateSessionOptions) (sources : list LogSource) (watch : bool) (e : entry) : entry :=
  spawn (map (λ s, new_run s o Fanned None Launching) sources) (if watch then set_watch (At Waiting) e else e).

Definition over (f : flow loc) : bool := match f with At Finished => true | _ => false end.
Definition fanned (r : run) : bool := match r_origin r with Fanned => true | _ => false end.
(** Counted by [ss.sourceWg]. *)
Definition watched_over (e : entry) : bool := match e_watch e with Some (At Stopped) | None => true | _ => false end.

Inductive orch_step (e : entry) : label → entry → Prop :=
| Orch_begin : e_orch e = At Beginning → orch_step e Quiet (set_orch (At (begin_orchestration (e_opts e))) e)
| Orch_resolved o answer : e_orch e = At (Resolving o) → orch_step e Quiet (set_orch (At (resolved o answer)) e)
| Orch_fail msg now : e_orch e = At (Failing msg) →
    orch_step e Quiet (set_orch (Emit (event StreamEventStreamError "" msg now) Draining) (setStatus LogSessionStatusError e))
| Orch_prepare o sources w : e_orch e = At (Preparing o sources w) →
    orch_step e Quiet (set_orch (At (Counted o sources w)) (setSources sources e))
| Orch_count o sources w : e_orch e = At (Counted o sources w) →
    orch_step e Quiet (set_orch (At (Transitioning o sources w)) (prepare o sources e))
| Orch_transition o sources w : e_orch e = At (Transitioning o sources w) →
    orch_step e Quiet (set_orch (At (after_transition o sources w))
                         (transition LogSessionStatusConnecting LogSessionStatusInitializing e))
| Orch_activate o w now : e_orch e = At (Activating o w) →
    orch_step e Quiet (set_orch (Emit (empty_event now) (Fanning o [] w))
                         (transition LogSessionStatusInitializing LogSessionStatusActive e))
| Orch_fan_out o sources w : e_orch e = At (Fanning o sources w) →
    orch_step e Quiet (set_orch (At Joining) (fan_out o sources w e))
| Orch_joined : e_orch e = At Joining → Forall (λ r, fanned r = true → over (r_at r) = true) (e_runs e) →
    orch_step e Quiet (set_orch (At Draining) e)
| Orch_drained : e_orch e = At Draining → watched_over e = true →
    Forall (λ r, fanned r = false → over (r_at r) = true) (e_runs e) → orch_step e Quiet (set_orch (At Settling) e)
| Orch_settle : e_orch e = At Settling →
    orch_step e Quiet (set_orch (At (if status e =? LogSessionStatusError then Ending else Settled)) e)
| Orch_settled : e_orch e = At Settled → orch_step e Quiet (set_orch (At Ending) (setStatus LogSessionStatusClosed e))
| Orch_end now : e_orch e = At Ending →
    orch_step e Quiet (set_orch (if e_canceled e then At Finishing
                                 else Emit (event StreamEventStreamEnded "" "Log session ended." now) Finishing) e)
| Orch_finish : e_orch e = At Finishing → orch_step e Quiet (set_orch (At Returning) (close_done e))
| Orch_return : e_orch e = At Returning → orch_step e Done (set_orch (At Gone) e)
| Orch_emits l x f : delivery e (e_orch e) l x f → orch_step e l (set_orch f (record Main x e)).

(** *** The watcher *)

Inductive watch_step (e : entry) : label → entry → Prop :=
| Watch_stop : e_watch e = Some (At Waiting) → watch_step e Quiet (set_watch (At Stopped) e)
    (** cancelled, or the events are over *)
| Watch_added s : e_watch e = Some (At Waiting) → watch_step e Quiet (set_watch (At (Registering s)) e)
| Watch_removed s : e_watch e = Some (At Waiting) → watch_step e Quiet (set_watch (At (Cancelling s)) e)
| Watch_register s : e_watch e = Some (At (Registering s)) →
    watch_step e Quiet match registerSourceCtx (src_ID s) e with
                       | None => set_watch (At Waiting) e
                       | Some (e, k) => set_watch (At (Adding s k)) e
                       end
| Watch_add s k now : e_watch e = Some (At (Adding s k)) →
    watch_step e Quiet (set_watch (Emit (event StreamEventSourceAdded (src_ID s) ("Source added: " +:+ src_ID s) now)
                                     (Spawning s k)) (addSource s e))
| Watch_spawn s k : e_watch e = Some (At (Spawning s k)) →
    watch_step e Quiet (set_watch (At Waiting) (spawn [new_run s (e_opts e) Watched (Some k) Queued] e))
| Watch_cancel s : e_watch e = Some (At (Cancelling s)) →
    watch_step e Quiet (set_watch (At (Removing s)) (cancel_source (src_ID s) e))
| Watch_remove s now : e_watch e = Some (At (Removing s)) →
    watch_step e Quiet (set_watch (Emit (event StreamEventSourceRemoved (src_ID s) ("Source removed: " +:+ src_ID s) now) Waiting)
                          (removeSource (src_ID s) e))
| Watch_emits w l x f : e_watch e = Some w → delivery e w l x f → watch_step e l (set_watch f (record Watcher x e)).

(** *** Updates *)

Definition draining_over (f : flow oloc) : bool :=
  match f with
  | At (Settling | Settled | Ending | Finishing | Returning | Gone) | Emit _ Finishing | Deliver _ _ Finishing => true
  | _ => false
  end.
Definition set_options (o : LogSessionOptions) (e : entry) : entry :=
  let o := with_target (cs_Reference (e_opts e)) (cs_Route (e_opts e)) o in
  mkEntry (with_Options o (e_session e)) (create_with_Options o (e_opts e)) (e_canceled e) (e_done e) (e_ready e) (e_sources e)
    (e_orch e) (e_watch e) (e_runs e) (e_updates e) (e_orders e) (e_asked e) (e_log e).
(** [opts.Params["enabled_sources"]] *)
Definition after_options (o : LogSessionOptions) : uloc :=
  match list_find (λ p, p.1 = "enabled_sources") (lo_Params o) with Some (_, (_, s)) => Enabling s | None => Updated end.
(** [FindHandler], else [AnyHandler] *)
Definition restart_handler (o : CreateSessionOptions) : bool :=
  match FindHandler reg (cs_ResourceKey o), AnyHandler reg with None, None => false | _, _ => true end.
Definition set_update (i : nat) (u : flow uloc) (e : entry) : entry := set_updates (<[i := u]> (e_updates e)) e.

Inductive update_step (i : nat) (e : entry) : flow uloc → label → entry → Prop :=
| Update_set o : update_step i e (At (Setting o)) Quiet (set_update i (At (after_options o)) (set_options o e))
| Update_enabled s keys now : keys ≡ₚ map fst (map_to_list (sourceCtxs (e_sources e))) →
    update_step i e (At (Enabling s)) Quiet
      (let '(e, (evs, restart)) := updateEnabledSources s keys now e in set_update i (At (Announcing evs restart)) e)
| Update_announce ev evs restart :
    update_step i e (At (Announcing (ev :: evs) restart)) Quiet (set_update i (Emit ev (Announcing evs restart)) e)
| Update_announced restart : update_step i e (At (Announcing [] restart)) Quiet (set_update i (At (Reopening restart)) e)
| Update_reopen restart : update_step i e (At (Reopening restart)) Quiet
    (set_update i (At (if restart_handler (e_opts e) then Restarting (e_opts e) restart else Updated)) e)
| Update_restart o s rest now : update_step i e (At (Restarting o (s :: rest))) Quiet
    (set_update i (Emit (event StreamEventSourceAdded (src_ID s) ("Source re-enabled: " +:+ src_ID s) now) (Restarting o rest))
       (spawn [new_run s o (Reenabled (draining_over (e_orch e))) None Launching] e))
| Update_done o : update_step i e (At (Restarting o [])) Quiet (set_update i (At Updated) e)
| Update_emits u l x f : delivery e u l x f → update_step i e u l (set_update i f (record (Updater i) x e)).

(** *** A step of the session *)

Definition follow_order (x : order) (e : entry) : entry := match x with Cancel => cancel e | Force s => setStatus s e end.

Inductive entry_step (e : entry) : label → entry → Prop :=
| Entry_run k r l e' : e_runs e !! k = Some r → run_step k e r l e' → entry_step e l e'
| Entry_orch l e' : orch_step e l e' → entry_step e l e'
| Entry_watch l e' : watch_step e l e' → entry_step e l e'
| Entry_update i u l e' : e_updates e !! i = Some u → update_step i e u l e' → entry_step e l e'
| Entry_order i x rest : e_orders e !! i = Some (x :: rest) →
    entry_step e Quiet (follow_order x (set_orders (<[i := rest]> (e_orders e)) e)).
End orchestration.

(** What others do to a session: cancel it, ask for an update, and give orders. *)
Definition ask (o : LogSessionOptions) (e : entry) : entry := set_updates (e_updates e ++ [At (Setting o)]) e.
Definition order_to (xs : list order) (e : entry) : entry := set_orders (e_orders e ++ [xs]) e.
Inductive outside_step (e : entry) : entry → Prop :=
| Outside_cancel : outside_step e (cancel e)
| Outside_force s : outside_step e (setStatus s e)
| Outside_ask o : outside_step e (ask o e)
| Outside_order xs : outside_step e (order_to xs e).

(** [createSession]'s state, on a parent context that may have ended. *)
Definition new_entry (s : LogSession) (o : CreateSessionOptions) (canceled : bool) : entry :=
  mkEntry s o canceled false (mkReadiness 0 0 false ∅ ∅) (mkRegistered ∅ [] 0) (At Beginning) None [] [] [] [] [].
Inductive session_of (reg : handlerRegistry) : entry → Prop :=
| Session_new s o canceled : session_of reg (new_entry s o canceled)
| Session_step e l e' : session_of reg e → entry_step reg e l e' → session_of reg e'
| Session_outside e e' : session_of reg e → outside_step e e' → session_of reg e'.
