(* ===== verification/LogSources.v ===== *)
(** * The source goroutines of a log session

    What holds of every goroutine in every interleaving: the semaphore, the turns
    of the reconnect loop, and the lines it delivered. *)
From S2P Require Import Prelude GoStd GoTime Errors Values Json Domain Source Messages LogTypes LogLines LogSession.
Local Open Scope Z_scope.

(** ** Source goroutines *)

Definition place {L} (f : flow L) : L := match f with At l | Emit _ l | Deliver _ _ l => l end.
(** Between taking the semaphore and releasing it. *)
Fixpoint holds (l : loc) : bool :=
  match l with
  | Launching | Queued | Dropping | Finished => false
  | Marking _ next => holds next
  | _ => true
  end.
(** In the handler, or with an open reader. *)
Definition streaming (l : loc) : bool :=
  match l with
  | Opening | Scanning | Scanned _ | Checked _ | Sending _ | Closing _ | Marking _ Scanning => true
  | _ => false
  end.
Definition held (r : run) : nat := if holds (place (r_at r)) then 1 else 0.

(** The delay after so many waits. *)
Definition backoff (k : nat) : Z := Z.min (2 ^ Z.of_nat k * Second) ReconnectMaxDelay.
Inductive phase := Early | Turning | Slept | Calling | Reading | Spent | Over | Nowhere.
Definition phase_of (l : loc) : phase :=
  match l with
  | Launching | Queued | Dropping | Holding | DroppingHeld | Starting | Marking _ Finished | Marking _ Releasing => Early
  | Looping => Turning
  | Sleeping => Slept
  | Opening => Calling
  | Unopened | Scanning | Scanned _ | Checked _ | Sending _ | Closing _ | Closed _ | Marking _ Scanning => Reading
  | Exhausted => Spent
  | Leaving | Releasing | Finished => Over
  | Marking _ _ => Nowhere
  end.
(** Attempts, waits and calls of the handler in each phase. *)
Definition counts_ok (p : phase) (attempt waits opens : nat) : Prop :=
  match p with
  | Early => attempt = 0 ∧ waits = 0 ∧ opens = 0
  | Turning => attempt ≤ 6 ∧ waits = pred attempt ∧ opens = attempt
  | Slept => 1 ≤ attempt ≤ 5 ∧ waits = pred attempt ∧ opens = attempt
  | Calling => attempt ≤ 5 ∧ waits = attempt ∧ opens = attempt
  | Reading => attempt ≤ 5 ∧ waits = attempt ∧ opens = S attempt
  | Spent => attempt = 6 ∧ waits = 5 ∧ opens = 6
  | Over => waits ≤ 5 ∧ opens ≤ 6
  | Nowhere => False
  end%nat.

(** The lines of a goroutine that were delivered, and those it was to show. *)
Definition lines_of (k : nat) (log : list (worker * StreamOutput)) : list LogLine :=
  omap (λ x, if bool_decide (x.1 = Reader k) then so_Line x.2 else None) log.
(** A line judged while the session was not paused. *)
Definition to_show (x : bytes * option Z) : bool :=
  match x.2 with Some st => negb (st =? LogSessionStatusPaused) | None => false end.
Definition judged (x : bytes * option Z) : Prop := x.2 ≠ None.
Definition shown (e : entry) (r : run) : list LogLine :=
  map (λ x, to_line e (r_source r) x.1) (filter (λ x, to_show x = true) (r_read r)).
Definition ending (l : loc) : bool := match l with Closing _ | Closed _ | Leaving | Releasing | Finished => true | _ => false end.
Definition lines_ok (e : entry) (k : nat) (r : run) : Prop :=
  match place (r_at r) with
  | Sending l => lines_of k (e_log e) ++ [l] = shown e r
  | l => lines_of k (e_log e) = shown e r
         ∨ ctx_done e r = true ∧ ending l = true ∧ ∃ l, lines_of k (e_log e) ++ [l] = shown e r
  end.

(** Every line is judged, but for the one that is being looked at. *)
Definition unjudged (r : run) (line : bytes) : Prop := ∃ rs, r_read r = rs ++ [(line, None)] ∧ Forall judged rs.
Definition judged_ok (e : entry) (r : run) : Prop :=
  match place (r_at r) with
  | Scanned line | Checked line => unjudged r line
  | l => Forall judged (r_read r) ∨ ctx_done e r = true ∧ ending l = true ∧ ∃ line, unjudged r line
  end.

Record run_ok (e : entry) (k : nat) (r : run) : Prop := mkRunOk {
  run_delay : r_waits r = map backoff (seq 0 (length (r_waits r))) ∧ r_delay r = backoff (length (r_waits r));
  run_counts : counts_ok (phase_of (place (r_at r))) (r_attempt r) (length (r_waits r)) (r_opens r);
  run_unread : phase_of (place (r_at r)) = Early → r_read r = [];
  run_lines : lines_ok e k r;
  run_judged : judged_ok e r
}.
Record runs_ok (e : entry) : Prop := mkRunsOk {
  runs_each : ∀ k r, e_runs e !! k = Some r → run_ok e k r;
  runs_sem : sourceSem (e_sources e) = sum_list_with held (e_runs e);
  runs_bound : (sourceSem (e_sources e) ≤ MaxConcurrentStreamsPerSession)%nat;
  runs_log : ∀ k, (length (e_runs e) ≤ k)%nat → lines_of k (e_log e) = []
}.

Lemma backoff_next k : Z.min (backoff k * reconnectBackoffMultiplier) ReconnectMaxDelay = backoff (S k).
Proof.
  unfold backoff, reconnectBackoffMultiplier, ReconnectMaxDelay, Second. rewrite Nat2Z.inj_succ, Z.pow_succ_r by lia. lia.
Qed.
Lemma lines_of_app k a b : lines_of k (a ++ b) = lines_of k a ++ lines_of k b.
Proof. apply omap_app. Qed.
Lemma lines_of_other k log o : o ≠ Reader k → ∀ x, lines_of k (log ++ [(o, x)]) = lines_of k log.
Proof. intros Ho x. rewrite lines_of_app. cbn. rewrite bool_decide_eq_false_2 by done. by rewrite app_nil_r. Qed.
Lemma lines_of_event k log e ev : lines_of k (log ++ [(Reader k, event_output e ev)]) = lines_of k log.
Proof. rewrite lines_of_app. cbn. rewrite bool_decide_eq_true_2 by done. by rewrite app_nil_r. Qed.
Lemma lines_of_line k log l : lines_of k (log ++ [(Reader k, line_output l)]) = lines_of k log ++ [l].
Proof. rewrite lines_of_app. cbn. by rewrite bool_decide_eq_true_2. Qed.

(** What no step undoes. *)
Record keeps (e e' : entry) : Prop := mkKeeps {
  keeps_id : ls_ID (e_session e') = ls_ID (e_session e);
  keeps_done : ∀ r, ctx_done e r = true → ctx_done e' r = true
}.
Lemma keeps_refl e : keeps e e.
Proof. by split. Qed.
Lemma keeps_trans e e' e'' : keeps e e' → keeps e' e'' → keeps e e''.
Proof. intros [] []. split; [congruence|auto]. Qed.
Lemma to_line_same e e' s line : ls_ID (e_session e') = ls_ID (e_session e) → to_line e' s line = to_line e s line.
Proof. unfold to_line. by intros ->. Qed.
Lemma shown_same e e' r : keeps e e' → shown e' r = shown e r.
Proof. intros [Hid _]. unfold shown. apply map_ext. intros x. by apply to_line_same. Qed.
Lemma run_ok_keeps e e' k r : keeps e e' → lines_of k (e_log e') = lines_of k (e_log e) → run_ok e k r → run_ok e' k r.
Proof.
  intros Hk Hl [Hd Hc Hu Hs Hj]. split; [done..| |].
  - unfold lines_ok in *. rewrite Hl, (shown_same _ _ _ Hk).
    destruct (place (r_at r)); try done; (destruct Hs as [?|(? & ? & ?)]; [by left|right]); split_and!; auto; by apply Hk.
  - unfold judged_ok in *. destruct (place (r_at r)); try done; (destruct Hj as [?|(? & ? & ?)]; [by left|right]); split_and!; auto; by apply Hk.
Qed.

(** Steps that are not of a source goroutine. *)
Definition fresh (r : run) : Prop :=
  (r_at r = At Launching ∨ r_at r = At Queued) ∧ r_attempt r = 0%nat ∧ r_delay r = ReconnectInitialDelay ∧ r_waits r = []
  ∧ r_opens r = 0%nat ∧ r_read r = [].
Record quiet (e e' : entry) : Prop := mkQuiet {
  quiet_keeps : keeps e e';
  quiet_sem : sourceSem (e_sources e') = sourceSem (e_sources e);
  quiet_runs : ∃ new, e_runs e' = e_runs e ++ new ∧ Forall fresh new;
  quiet_log : ∀ k, lines_of k (e_log e') = lines_of k (e_log e)
}.

Lemma fresh_ok e k r : fresh r → lines_of k (e_log e) = [] → run_ok e k r.
Proof.
  intros (Hat & Ha & Hd & Hw & Ho & Hr) Hl.
  split; rewrite ?Ha, ?Hd, ?Hw, ?Ho; destruct Hat as [Hat|Hat]; unfold lines_ok, judged_ok, shown; rewrite ?Hat, ?Hr, ?Hl; try done; by left.
Qed.
Lemma fresh_held rs : Forall fresh rs → sum_list_with held rs = 0%nat.
Proof. induction 1 as [|r rs ([Hat|Hat] & _) _ IH]; [done|..]; cbn; unfold held at 1; by rewrite Hat, IH. Qed.
Lemma runs_ok_quiet e e' : quiet e e' → runs_ok e → runs_ok e'.
Proof.
  intros [Hk Hs (new & Hr & Hn) Hl] [H1 H2 H3 H4]. split.
  - intros k r. rewrite Hr, lookup_app_Some. intros [Hkr|[Hge Hkr]].
    + apply (run_ok_keeps e); auto.
    + apply fresh_ok; [by eapply (Forall_lookup_1 _ _ _ _ Hn)|]. rewrite Hl. by apply H4.
  - rewrite Hs, Hr, sum_list_with_app, (fresh_held new) by done. lia.
  - by rewrite Hs.
  - intros k. rewrite Hr, length_app, Hl. intros Hle. apply H4. lia.
Qed.

(** *** Quiet changes *)

Lemma ctx_done_mono e e' : (e_canceled e = true → e_canceled e' = true) →
  (∀ k, ctxs (e_sources e) !! k = Some true → ctxs (e_sources e') !! k = Some true) → ∀ r, ctx_done e r = true → ctx_done e' r = true.
Proof.
  intros Hc Hx r. unfold ctx_done. intros [Hd|Hd]%orb_true_iff; [by rewrite Hc|]. apply orb_true_iff. right.
  destruct (r_ctx r) as [k|]; [|done]. destruct (ctxs (e_sources e) !! k) as [[]|] eqn:E; [|done..]. by rewrite (Hx k E).
Qed.
Lemma quiet_refl e : quiet e e.
Proof. split; [apply keeps_refl|done| |done]. exists []. by rewrite app_nil_r. Qed.
Lemma quiet_trans e e' e'' : quiet e e' → quiet e' e'' → quiet e e''.
Proof.
  intros [H1 H2 (n & H3 & H4) H5] [H1' H2' (n' & H3' & H4') H5']. split; [by eapply keeps_trans|congruence| |congruence].
  exists (n ++ n'). rewrite H3', H3, app_assoc. split; [done|]. by apply Forall_app.
Qed.
Lemma quiet_same e e' : ls_ID (e_session e') = ls_ID (e_session e) → (e_canceled e = true → e_canceled e' = true) →
  e_sources e' = e_sources e → e_runs e' = e_runs e → e_log e' = e_log e → quiet e e'.
Proof.
  intros Hi Hc Hs Hr Hl. split; [|by rewrite Hs|exists []; by rewrite app_nil_r|by rewrite Hl].
  split; [done|]. apply ctx_done_mono; [done|]. by rewrite Hs.
Qed.
Lemma quiet_registered e s : (∀ k, ctxs (e_sources e) !! k = Some true → ctxs s !! k = Some true) →
  sourceSem s = sourceSem (e_sources e) → quiet e (set_registered s e).
Proof.
  intros Hc Hs. split; [|done|exists []; by rewrite app_nil_r|done]. split; [done|]. by apply ctx_done_mono.
Qed.
Lemma quiet_log_output e w o : (∀ k, w ≠ Reader k) → quiet e (log_output w o e).
Proof. intros Hw. split; [by split|done|exists []; by rewrite app_nil_r|]. intros k. by apply lines_of_other. Qed.
Lemma quiet_log_asked e w ev : quiet e (log_asked w ev e).
Proof. by apply quiet_same. Qed.
Lemma quiet_record e w x : (∀ k, w ≠ Reader k) → quiet e (record w x e).
Proof. intros Hw. destruct x; [apply quiet_log_asked|by apply quiet_log_output|apply quiet_refl]. Qed.
Lemma quiet_spawn e rs : Forall fresh rs → quiet e (spawn rs e).
Proof. intros H. split; [by split|done|by exists rs|done]. Qed.
Lemma quiet_unregister e id : quiet e (unregister id e).
Proof. by apply quiet_registered. Qed.
Lemma quiet_cancel_source e id : quiet e (cancel_source id e).
Proof.
  unfold cancel_source. destruct (sourceCtxs (e_sources e) !! id) as [j|]; [|apply quiet_refl]. apply quiet_registered; [|done].
  intros k Hk. cbn. destruct (decide (j = k)) as [->|Hn]; [|by rewrite list_lookup_insert_ne].
  apply list_lookup_insert_eq. by eapply lookup_lt_Some.
Qed.
Lemma quiet_register e id e' k : registerSourceCtx id e = Some (e', k) → quiet e e'.
Proof.
  unfold registerSourceCtx. destruct (sourceCtxs (e_sources e) !! id); [done|]. intros [= <- <-].
  apply quiet_registered; [|done]. intros j Hj. cbn. rewrite lookup_app_l; [done|]. by eapply lookup_lt_Some.
Qed.
Lemma quiet_transition e from to : quiet e (transition from to e).
Proof. unfold transition. destruct (status e =? from); [|apply quiet_refl]. by apply quiet_same. Qed.
Lemma quiet_disable e ids : quiet e (foldl (λ e id, unregister id (cancel_source id e)) e ids).
Proof.
  revert e. induction ids as [|id ids IH]; intros e; [apply quiet_refl|]. cbn [foldl]. eapply quiet_trans; [|apply IH].
  eapply quiet_trans; [apply quiet_cancel_source|apply quiet_unregister].
Qed.
Lemma fresh_new src o from ctx l : l = Launching ∨ l = Queued → fresh (new_run src o from ctx l).
Proof. by intros [->| ->]; repeat split; auto. Qed.

Create HintDb sessions.
#[export] Hint Resolve quiet_refl quiet_log_asked quiet_record quiet_unregister quiet_cancel_source quiet_transition quiet_register fresh_new : sessions.
Ltac quiet_head := match goal with
  | |- quiet ?e (set_orch _ ?e') => apply (quiet_trans e e'); [|by apply quiet_same]
  | |- quiet ?e (set_watch _ ?e') => apply (quiet_trans e e'); [|by apply quiet_same]
  | |- quiet ?e (set_update _ _ ?e') => apply (quiet_trans e e'); [|by apply quiet_same]
  | |- quiet ?e (set_options _ ?e') => apply (quiet_trans e e'); [|by apply quiet_same]
  | |- quiet ?e (set_orders _ ?e') => apply (quiet_trans e e'); [|by apply quiet_same]
  | |- quiet ?e (setStatus _ ?e') => apply (quiet_trans e e'); [|by apply quiet_same]
  | |- quiet ?e (setSources _ ?e') => apply (quiet_trans e e'); [|by apply quiet_same]
  | |- quiet ?e (addSource _ ?e') => apply (quiet_trans e e'); [|by apply quiet_same]
  | |- quiet ?e (removeSource _ ?e') => apply (quiet_trans e e'); [|by apply quiet_same]
  | |- quiet ?e (prepare _ _ ?e') => apply (quiet_trans e e'); [|by apply quiet_same]
  | |- quiet ?e (close_done ?e') => apply (quiet_trans e e'); [|by apply quiet_same]
  | |- quiet ?e (cancel ?e') => apply (quiet_trans e e'); [|by apply quiet_same]
  | |- quiet ?e (spawn _ ?e') => apply (quiet_trans e e'); [|apply quiet_spawn]
  end.
Ltac quiet := repeat quiet_head; eauto with sessions; try (by apply quiet_same); try (apply Forall_singleton, fresh_new; auto).

Lemma orch_quiet reg e l e' : orch_step reg e l e' → quiet e e'.
Proof.
  destruct 1; quiet.
  - unfold fan_out. quiet_head; [destruct w; quiet|].
    apply Forall_forall. intros r (s & -> & _)%list_elem_of_fmap. apply fresh_new. by left.
Qed.
Lemma watch_quiet e l e' : watch_step e l e' → quiet e e'.
Proof.
  destruct 1; quiet.
  - destruct (registerSourceCtx (src_ID s) e) as [[e' k]|] eqn:E; quiet.
Qed.
Lemma update_quiet reg i e u l e' : update_step reg i e u l e' → quiet e e'.
Proof.
  destruct 1; quiet.
  - unfold updateEnabledSources. cbn zeta. quiet_head. apply quiet_disable.
Qed.
Lemma outside_quiet e e' : outside_step e e' → quiet e e'.
Proof. destruct 1; by apply quiet_same. Qed.

(** *** Steps of a source goroutine *)

Definition sending (f : flow loc) : bool := match place f with Sending _ => true | _ => false end.
Lemma lines_unsent e k r : lines_ok e k r → sending (r_at r) = false →
  lines_of k (e_log e) = shown e r
  ∨ ctx_done e r = true ∧ ending (place (r_at r)) = true ∧ ∃ l, lines_of k (e_log e) ++ [l] = shown e r.
Proof. unfold lines_ok, sending. by destruct (place (r_at r)). Qed.
Lemma lines_unsent_ok e k r : sending (r_at r) = false →
  lines_of k (e_log e) = shown e r
  ∨ ctx_done e r = true ∧ ending (place (r_at r)) = true ∧ (∃ l, lines_of k (e_log e) ++ [l] = shown e r) → lines_ok e k r.
Proof. unfold lines_ok, sending. by destruct (place (r_at r)). Qed.

Record moved (k : nat) (e e' : entry) (r r' : run) : Prop := mkMoved {
  moved_keeps : keeps e e';
  moved_runs : e_runs e' = <[k := r']> (e_runs e);
  moved_sem : (sourceSem (e_sources e') + held r = sourceSem (e_sources e) + held r')%nat;
  moved_bound : (sourceSem (e_sources e) ≤ MaxConcurrentStreamsPerSession → sourceSem (e_sources e') ≤ MaxConcurrentStreamsPerSession)%nat;
  moved_log : ∀ j, j ≠ k → lines_of j (e_log e') = lines_of j (e_log e);
  moved_ok : run_ok e' k r'
}.
Lemma runs_ok_moved k e e' r r' : moved k e e' r r' → e_runs e !! k = Some r → runs_ok e → runs_ok e'.
Proof.
  intros [Hk Hr Hs Hb Hl Hok] Hkr [H1 H2 H3 H4]. split.
  - intros j x. rewrite Hr. destruct (decide (j = k)) as [->|Hn].
    + rewrite list_lookup_insert_eq by (by eapply lookup_lt_Some). by intros [= <-].
    + rewrite list_lookup_insert_ne by done. intros Hx. apply (run_ok_keeps e); auto.
  - pose proof (sum_list_with_set held (e_runs e) k r r' Hkr) as Hsum. rewrite Hr. lia.
  - auto.
  - intros j. rewrite Hr, length_insert. intros Hj. rewrite Hl; [auto|]. apply lookup_lt_Some in Hkr. lia.
Qed.

Definition looking (f : flow loc) : bool := match place f with Scanned _ | Checked _ => true | _ => false end.
Lemma judged_unlooking e r : looking (r_at r) = false → judged_ok e r ↔
  Forall judged (r_read r) ∨ ctx_done e r = true ∧ ending (place (r_at r)) = true ∧ ∃ line, unjudged r line.
Proof. unfold looking, judged_ok. by destruct (place (r_at r)). Qed.

(** A goroutine goes on without reading or delivering a line. *)
Lemma goes_on e e0 k r r' : run_ok e k r → keeps e e0 → lines_of k (e_log e0) = lines_of k (e_log e) →
  sending (r_at r) = false → sending (r_at r') = false → looking (r_at r) = false → looking (r_at r') = false →
  r_source r' = r_source r → r_read r' = r_read r →
  (ctx_done e r = true → ending (place (r_at r)) = true → r_ctx r' = r_ctx r ∧ ending (place (r_at r')) = true) →
  r_waits r' = map backoff (seq 0 (length (r_waits r'))) ∧ r_delay r' = backoff (length (r_waits r')) →
  counts_ok (phase_of (place (r_at r'))) (r_attempt r') (length (r_waits r')) (r_opens r') →
  (phase_of (place (r_at r')) = Early → phase_of (place (r_at r)) = Early) →
  run_ok e0 k r'.
Proof.
  intros [Hd Hc Hu Hs Hj] Hk Hl Hsr Hsr' Hlk Hlk' Hsrc Hrd Hend Hd' Hc' He. split; [done..| | |].
  - rewrite Hrd. auto.
  - apply lines_unsent_ok; [done|]. rewrite Hl.
    assert (shown e0 r' = shown e r) as -> by (rewrite <- (shown_same e e0 r Hk); unfold shown; by rewrite Hsrc, Hrd).
    destruct (lines_unsent e k r Hs Hsr) as [?|(Hcd & He' & Hex)]; [by left|right].
    destruct (Hend Hcd He') as [Hctx Hen]. split_and!; [|done..]. apply (keeps_done _ _ Hk) in Hcd.
    unfold ctx_done in *. by rewrite Hctx.
  - apply judged_unlooking; [done|]. unfold unjudged. rewrite Hrd. apply judged_unlooking in Hj as [?|(Hcd & He' & Hex)]; [by left|right|done].
    destruct (Hend Hcd He') as [Hctx Hen]. split_and!; [|done..]. apply (keeps_done _ _ Hk) in Hcd.
    unfold ctx_done in *. by rewrite Hctx.
Qed.


Lemma keeps_registered e s : (∀ k, ctxs (e_sources e) !! k = Some true → ctxs s !! k = Some true) → keeps e (set_registered s e).
Proof. intros Hc. split; [done|]. by apply ctx_done_mono. Qed.
Lemma keeps_ready e x : keeps e (set_ready x e).
Proof. by split. Qed.
Lemma keeps_status e st : keeps e (setStatus st e).
Proof. by split. Qed.
Lemma becomes_ready_inv e e' : becomes_ready e = Some e' → keeps e e' ∧ e_runs e' = e_runs e ∧ e_sources e' = e_sources e ∧ e_log e' = e_log e.
Proof.
  unfold becomes_ready, transition. repeat case_match; try done; intros [= <-]; by split.
Qed.
Lemma mark_inv id m e e' more : mark id m e = (e', more) → keeps e e' ∧ e_runs e' = e_runs e ∧ e_sources e' = e_sources e ∧ e_log e' = e_log e.
Proof. unfold mark. destruct m; repeat case_match; intros [= <- _]; (split; [|done]); done. Qed.

Lemma moved_put k e e0 r r' : keeps e e0 → e_runs e0 = e_runs e →
  (sourceSem (e_sources e0) + held r = sourceSem (e_sources e) + held r')%nat →
  (sourceSem (e_sources e) ≤ MaxConcurrentStreamsPerSession → sourceSem (e_sources e0) ≤ MaxConcurrentStreamsPerSession)%nat →
  (∀ j, j ≠ k → lines_of j (e_log e0) = lines_of j (e_log e)) → run_ok e0 k r' → moved k e (put_run k r' e0) r r'.
Proof.
  intros Hk Hr Hs Hb Hl Hok. split; [by destruct Hk| |done..|].
  - cbn. by rewrite Hr.
  - apply (run_ok_keeps e0); [by split|done|done].
Qed.

Ltac here Hat Hok := pose proof (run_counts _ _ _ Hok) as Hcounts; pose proof (run_delay _ _ _ Hok) as Hdelay;
  rewrite Hat in Hcounts; cbn [place phase_of counts_ok] in Hcounts.
(** Closes the side conditions of [goes_on] where the goroutine only moves. *)
Ltac moves Hat := first
  [ done | by rewrite Hat | cbn; lia | by cbn; intros; rewrite Hat | by rewrite Hat; intros _ ? | intros ? Hend; rewrite Hat in Hend; done].

Lemma held_at r l : r_at r = At l → held r = if holds l then 1%nat else 0%nat.
Proof. unfold held. by intros ->. Qed.

Lemma launch_moved k e r e' r' : run_ok e k r → r_at r = At Launching → launch e r = (e', r') → moved k e (put_run k r' e') r r'.
Proof.
  intros Hok Hat. unfold launch. here Hat Hok. destruct (registerSourceCtx (id_of r) e) as [[e1 c]|] eqn:E; intros [= <- <-].
  - pose proof (quiet_register _ _ _ _ E) as [Hk Hs _ Hl].
    assert (e_runs e1 = e_runs e) as Hr by (unfold registerSourceCtx in E; case_match; [done|]; by injection E as <- _).
    apply moved_put; [done|done| | |auto|].
    + rewrite (held_at r _ Hat), Hs. done.
    + by rewrite Hs.
    + apply (goes_on e e1 k r); auto; moves Hat.
  - apply moved_put; [apply keeps_refl|done| |done|done|].
    + by rewrite (held_at r _ Hat).
    + apply (goes_on e e k r); auto using keeps_refl; moves Hat.
Qed.

Ltac keeping := first [apply keeps_refl | by apply keeps_registered | by split].
(** A step from [Hat] that leaves goroutine [r'] and the session [e0]. *)
Ltac moving Hok Hat e0 r' := exists r'; here Hat Hok; apply moved_put;
  [keeping|done|rewrite (held_at _ _ Hat); cbn; try lia|cbn; try lia|done|
   apply (goes_on _ e0 _ _ _ Hok); try done; try keeping; try moves Hat].

(** The same where the step names the goroutine. *)
Ltac moving' Hok Hat e0 := apply moved_put;
  [keeping|done|rewrite (held_at _ _ Hat); cbn; try lia|cbn; try lia|done|
   apply (goes_on _ e0 _ _ _ Hok); try done; try keeping; try moves Hat].

Lemma mark_place m next e r e' r' now : mark_run now m next e r = (e', r') →
  keeps e e' ∧ e_runs e' = e_runs e ∧ e_sources e' = e_sources e ∧ e_log e' = e_log e
  ∧ ∃ f, r' = at_flow f r ∧ (place f = next ∨ ∃ m', place f = Marking m' next) ∧ sending f = match next with Sending _ => sending f | _ => false end.
Proof.
  unfold mark_run. destruct m.
  1-3: destruct (mark (id_of r) _ e) as [e1 more] eqn:E; intros [= <- <-]; destruct (mark_inv _ _ _ _ _ E) as (? & ? & ? & ?);
    split_and!; [done..|]; eexists; (split; [reflexivity|]); destruct more as [m'|]; cbn; (split; [eauto|]); by destruct next.
  destruct (becomes_ready e) as [e1|] eqn:E; intros [= <- <-].
  - destruct (becomes_ready_inv _ _ E) as (? & ? & ? & ?). split_and!; [done..|]. eexists. split; [reflexivity|]. cbn. split; [by left|].
    by destruct next.
  - split_and!; [apply keeps_refl|done..|]. eexists. split; [reflexivity|]. cbn. split; [by left|]. by destruct next.
Qed.
Lemma mark_moved k e r m next now e' r' : run_ok e k r → r_at r = At (Marking m next) → mark_run now m next e r = (e', r') →
  moved k e (put_run k r' e') r r'.
Proof.
  intros Hok Hat Hm. destruct (mark_place _ _ _ _ _ _ _ Hm) as (Hk & Hr & Hs & Hl & f & -> & Hp & Hsend). here Hat Hok.
  assert (holds (place f) = holds next) as Hh by (destruct Hp as [->|[m' ->]]; done).
  assert (next = Scanning ∨ next = Finished ∨ next = Releasing) as Hnext by (destruct next; auto; done).
  assert (sending f = false) as Hsf by (destruct Hnext as [->|[->| ->]]; done).
  assert (looking f = false) as Hlf by (unfold looking; destruct Hp as [->|[m' ->]]; [|done]; destruct Hnext as [->|[->| ->]]; done).
  apply moved_put; [done|done| |by rewrite Hs|by rewrite Hl|].
  - rewrite (held_at _ _ Hat), Hs. unfold held. cbn [at_flow r_at]. rewrite Hh. done.
  - apply (goes_on e e' k r); auto; try (by rewrite Hl); try (by rewrite Hat).
    + cbn [at_flow r_at r_attempt r_waits r_opens]. destruct Hp as [->|[m' ->]], Hnext as [->|[->| ->]]; cbn in Hcounts |- *; lia.
    + cbn [at_flow r_at]. rewrite Hat. destruct Hp as [->|[m' ->]], Hnext as [->|[->| ->]]; done.
Qed.

Lemma delivery_place {L} e (f : flow L) l o f' : delivery e f l o f' → place f' = place f.
Proof. by destruct 1; [destruct target| |]. Qed.
Lemma lines_record e (f : flow loc) l x f' k j : delivery e f l x f' → lines_of j (e_log (record (Reader k) x e)) = lines_of j (e_log e).
Proof.
  destruct 1; try done. cbn [record e_log log_output]. destruct (decide (j = k)) as [->|Hj]; [apply lines_of_event|apply lines_of_other; congruence].
Qed.

(** A line is read, and judged. *)
Lemma shown_read e line r : shown e (read_line line r) = shown e r.
Proof. unfold shown. cbn [r_read read_line with_read r_source]. by rewrite filter_app, map_app, app_nil_r. Qed.
Lemma shown_judged e r line st : unjudged r line →
  shown e (judge_line st r) = shown e r ++ (if st =? LogSessionStatusPaused then [] else [to_line e (r_source r) line])
  ∧ Forall judged (r_read (judge_line st r)).
Proof.
  intros (rs & Hr & Hj). unfold shown, judge_line. cbn [r_read with_read r_source].
  rewrite Hr, length_app, Nat.add_1_r. cbn [pred length].
  replace (alter _ (length rs) (rs ++ [(line, None)])) with (rs ++ [(line, Some st)])
    by (symmetry; rewrite <- (Nat.add_0_r (length rs)) at 1; by rewrite alter_app_r).
  split; [|apply Forall_app; split; [done|by apply Forall_singleton]].
  rewrite !filter_app, !map_app, !filter_cons, !filter_nil, <- app_assoc. f_equal.
  rewrite (decide_False (P := to_show (line, None) = true)) by done. unfold to_show. cbn [snd map app].
  by destruct (st =? LogSessionStatusPaused).
Qed.
Lemma unlooking_delivered e k r : lines_ok e k r → sending (r_at r) = false → ending (place (r_at r)) = false →
  lines_of k (e_log e) = shown e r.
Proof. intros H Hs He. destruct (lines_unsent e k r H Hs) as [?|(_ & ? & _)]; [done|congruence]. Qed.

Lemma scan_ok e k r line : run_ok e k r → r_at r = At Scanning → run_ok e k (go (Scanned line) (read_line line r)).
Proof.
  intros [Hd Hc Hu Hs Hj] Hat. rewrite Hat in Hc. split; [done|done|done| |].
  - apply lines_unsent_ok; [done|]. left. unfold go, at_flow. change (shown e _) with (shown e (read_line line r)).
    rewrite shown_read. apply unlooking_delivered; [done|by rewrite Hat..].
  - unfold judged_ok in *. rewrite Hat in Hj. cbn. exists (r_read r). split; [done|].
    destruct Hj as [?|(_ & ? & _)]; done.
Qed.
Lemma scanned_ok e k r line : run_ok e k r → r_at r = At (Scanned line) →
  run_ok e k (go (if ctx_done e r then Closing true else Checked line) r).
Proof.
  intros [Hd Hc Hu Hs Hj] Hat. unfold judged_ok in Hj. rewrite Hat in Hc, Hj. cbn in Hj.
  assert (lines_of k (e_log e) = shown e r) as Hl by (apply unlooking_delivered; [done|by rewrite Hat..]).
  split; [done|by destruct (ctx_done e r)|by destruct (ctx_done e r)| |].
  - apply lines_unsent_ok; [by destruct (ctx_done e r)|]. left. exact Hl.
  - unfold judged_ok. cbn [go at_flow r_at place r_read]. destruct (ctx_done e r) eqn:Ed; [|exact Hj].
    right. split_and!; [exact Ed|done|by exists line].
Qed.
Lemma checked_ok e k r line : run_ok e k r → r_at r = At (Checked line) →
  run_ok e k (go (if status e =? LogSessionStatusPaused then Scanning else Sending (to_line e (r_source r) line))
                (judge_line (status e) r)).
Proof.
  intros [Hd Hc Hu Hs Hj] Hat. unfold judged_ok in Hj. rewrite Hat in Hc, Hj. cbn in Hj.
  assert (lines_of k (e_log e) = shown e r) as Hl by (apply unlooking_delivered; [done|by rewrite Hat..]).
  destruct (shown_judged e r line (status e) Hj) as [Hsh Hjd]. rewrite <- Hl in Hsh.
  split; [done|by destruct (_ =? _)|by destruct (_ =? _)| |].
  - unfold lines_ok. change (shown e (go ?l ?x)) with (shown e x).
    destruct (status e =? LogSessionStatusPaused); cbn [go at_flow r_at place]; [left; by rewrite app_nil_r in Hsh|done].
  - unfold judged_ok. destruct (status e =? LogSessionStatusPaused); cbn [go at_flow r_at place]; by left.
Qed.
Lemma sent_ok e k r l : run_ok e k r → r_at r = At (Sending l) → run_ok (log_output (Reader k) (line_output l) e) k (go Scanning r).
Proof.
  intros [Hd Hc Hu Hs Hj] Hat. unfold lines_ok, judged_ok in *. rewrite Hat in Hc, Hs, Hj. split; [done|done|done| |].
  - left. cbn [e_log log_output]. by rewrite lines_of_line, Hs.
  - left. by destruct Hj as [?|(_ & ? & _)].
Qed.
Lemma unsent_ok e k r l : run_ok e k r → r_at r = At (Sending l) → ctx_done e r = true → run_ok e k (go (Closing true) r).
Proof.
  intros [Hd Hc Hu Hs Hj] Hat Hdone. unfold lines_ok, judged_ok in *. rewrite Hat in Hc, Hs, Hj. split; [done|done|done| |].
  - right. split_and!; [done|done|]. by exists l.
  - left. by destruct Hj as [?|(_ & ? & _)].
Qed.

Lemma run_ok_place e k r f : place f = place (r_at r) → run_ok e k r → run_ok e k (at_flow f r).
Proof. intros Hp [Hd Hc Hu Hs Hj]. split; cbn [at_flow r_at r_waits r_delay r_attempt r_opens r_read]; rewrite ?Hp; try done.
  - unfold lines_ok in *. cbn [at_flow r_at]. by rewrite Hp.
  - unfold judged_ok in *. cbn [at_flow r_at]. by rewrite Hp.
Qed.

Lemma run_moved k e r l e' : run_ok e k r → (held r ≤ sourceSem (e_sources e))%nat → run_step k e r l e' → ∃ r', moved k e e' r r'.
Proof.
  intros Hok Hsem Hs. destruct Hs as [Hat|Hat Hb|Hat Hd|Hat|Hat|Hat|now Hat|now Hat|Hat Hd|Hat|now reader Hat|Hat|now m next Hat|line Hat Hb
    |retry Hat|line Hat|line Hat|li Hat|li Hat Hd|retry Hat|retry Hat|now Hat|Hat|Hat|l o f Hdel].
  - destruct (launch e r) as [e1 r1] eqn:E. exists r1. by apply launch_moved.
  - moving Hok Hat (acquire e) (go Holding r).
  - moving Hok Hat e (go Dropping r).
  - moving Hok Hat (unregister (id_of r) e) (go (Marking Storing Finished) r).
  - moving Hok Hat e (go (if ctx_done e r then DroppingHeld else Starting) r); by destruct (ctx_done e r).
  - moving Hok Hat (unregister (id_of r) e) (go (Marking Storing Releasing) r).
  - here Hat Hok. destruct (IncludeSourceEvents (cs_Options (r_opts r))); eexists; moving' Hok Hat e.
  - here Hat Hok. unfold turn. destruct (Nat.ltb_spec ReconnectMaxAttempts (r_attempt r)) as [Hlt|Hge]; [eexists; moving' Hok Hat e|].
    + unfold ReconnectMaxAttempts in Hlt. cbn. lia.
    + destruct (ctx_done e r); [eexists; moving' Hok Hat e|].
      unfold ReconnectMaxAttempts in Hge.
      destruct (Nat.ltb_spec 0 (r_attempt r)); eexists; moving' Hok Hat e; try (cbn; lia).
  - moving Hok Hat e (go Leaving r); try (cbn; lia).
  - moving Hok Hat e (waited r).
    + cbn [waited r_waits r_delay]. destruct Hdelay as [Hw Hde]. rewrite length_app, Nat.add_1_r, seq_S, map_app, <- Hw, Hde.
      split; [done|]. cbn [length]. apply backoff_next.
    + cbn [waited r_at r_attempt r_waits r_opens place phase_of counts_ok]. rewrite length_app. cbn [length]. lia.
  - here Hat Hok. unfold open_source. destruct reader; [destruct (Nat.ltb_spec 0 (r_attempt r))|]; eexists; moving' Hok Hat e; try (cbn; lia).
  - here Hat Hok. destruct (ctx_done e r); eexists; moving' Hok Hat e; try (cbn; lia).
  - destruct (mark_run now m next e r) as [e1 r1] eqn:E. exists r1. by eapply mark_moved.
  - exists (go (Scanned line) (read_line line r)).
    apply moved_put; [keeping|done|by rewrite (held_at _ _ Hat)|done|done|by apply scan_ok].
  - moving Hok Hat e (go (Closing retry) r).
  - eexists. apply moved_put; [keeping|done|rewrite (held_at _ _ Hat)|done|done|by apply scanned_ok].
    unfold held. by destruct (ctx_done e r).
  - eexists. apply moved_put; [keeping|done|rewrite (held_at _ _ Hat)|done|done|by apply checked_ok].
    unfold held. by destruct (status e =? LogSessionStatusPaused).
  - exists (go Scanning r). apply moved_put; [by split|done|by rewrite (held_at _ _ Hat)|done| |by apply sent_ok].
    intros j Hj. apply lines_of_other. congruence.
  - exists (go (Closing true) r). apply moved_put; [by split|done|by rewrite (held_at _ _ Hat)|done|done|by eapply unsent_ok].
  - moving Hok Hat e (go (Closed retry) r).
  - here Hat Hok. destruct (ctx_done e r || negb retry) eqn:Ed; eexists; moving' Hok Hat e; try (cbn; lia).
    intros Hc. by rewrite Hc in Ed.
  - here Hat Hok. unfold exhausted. destruct (ctx_done e r); [eexists; moving' Hok Hat e|eexists; moving' Hok Hat (setStatus LogSessionStatusError e)];
      try (cbn; lia).
  - moving Hok Hat (unregister (id_of r) e) (go Releasing r).
  - moving Hok Hat (release e) (go Finished r).
    rewrite (held_at _ _ Hat) in Hsem. cbn in Hsem. lia.
  - exists (at_flow f r). pose proof (delivery_place _ _ _ _ _ Hdel) as Hp.
    set (e0 := record (Reader k) o e).
    assert (keeps e e0 ∧ e_runs e0 = e_runs e ∧ e_sources e0 = e_sources e) as (Hk & Hr & Hso) by (subst e0; by destruct o; split_and!).
    assert (∀ j, lines_of j (e_log e0) = lines_of j (e_log e)) as Hl by (intros j; by eapply lines_record).
    apply moved_put; [done|done|by rewrite Hso; unfold held; cbn [at_flow r_at]; rewrite Hp|by rewrite Hso|by intros; apply Hl|].
    by apply (run_ok_keeps e), run_ok_place.
Qed.

(** Every goroutine of a session stays well. *)
Lemma runs_ok_step reg e l e' : runs_ok e → entry_step reg e l e' → runs_ok e'.
Proof.
  intros H Hs. destruct Hs as [k r l e' Hk Hs|l e' Hs|l e' Hs|i u l e' _ Hs|i x rest Hi].
  - assert (held r ≤ sourceSem (e_sources e))%nat as Hsem.
    { rewrite (runs_sem _ H). apply sum_list_with_in, (list_elem_of_lookup_2 _ _ _ Hk). }
    destruct (run_moved k e r l e' (runs_each _ H _ _ Hk) Hsem Hs) as [r' Hm]. by apply (runs_ok_moved k e e' r r').
  - by eapply runs_ok_quiet, H; eapply orch_quiet.
  - by eapply runs_ok_quiet, H; eapply watch_quiet.
  - by eapply runs_ok_quiet, H; eapply update_quiet.
  - eapply runs_ok_quiet, H. destruct x; cbn; quiet.
Qed.
Lemma runs_ok_of reg e : session_of reg e → runs_ok e.
Proof.
  induction 1 as [s o canceled|e l e' _ IH Hs|e e' _ IH Hs].
  - split; cbn; [done|done|unfold MaxConcurrentStreamsPerSession; lia|done].
  - by eapply runs_ok_step.
  - by eapply runs_ok_quiet, IH; apply outside_quiet.
Qed.

(** ** What a session's sources do *)

Definition streams_now (e : entry) : nat := sum_list_with (λ r, Nat.b2n (streaming (place (r_at r)))) (e_runs e).
Lemma streaming_held r : (Nat.b2n (streaming (place (r_at r))) ≤ held r)%nat.
Proof. unfold held. destruct (place (r_at r)) as [| | | | | | | | | | | | | | | | | | | |m []]; cbn; lia. Qed.

(** C36: A session never reads more than twenty sources at a time, however many it
    has and whatever else happens to it. A source is opened at most six times,
    with pauses of 1, 2, 4, 8 and 16 seconds in between, and is given up only
    after all of them. *)
Theorem log_streams_bounded reg e : session_of reg e →
  (streams_now e ≤ MaxConcurrentStreamsPerSession)%nat
  ∧ ∀ k r, e_runs e !! k = Some r →
      r_waits r `prefix_of` map (λ s, s * Second) [1; 2; 4; 8; 16] ∧ (r_opens r ≤ S ReconnectMaxAttempts)%nat
      ∧ (place (r_at r) = Exhausted → r_opens r = S ReconnectMaxAttempts ∧ length (r_waits r) = ReconnectMaxAttempts).
Proof.
  intros H. pose proof (runs_ok_of reg e H) as [H1 H2 H3 _]. split.
  - etransitivity; [|exact H3]. rewrite H2. unfold streams_now. clear. induction (e_runs e) as [|r rs IH]; cbn; [done|].
    pose proof (streaming_held r). lia.
  - intros k r Hk. destruct (H1 k r Hk) as [[Hw _] Hc _ _].
    assert (length (r_waits r) ≤ 5 ∧ r_opens r ≤ 6
            ∧ (place (r_at r) = Exhausted → r_opens r = 6 ∧ length (r_waits r) = 5))%nat as (Hl & Ho & Hx).
    { destruct (place (r_at r)) as [| | | | | | | | | | | | | | | | | | | |m []]; cbn in Hc; split_and!; try done; try lia. }
    split_and!; [|done|done]. rewrite Hw.
    replace (map (λ s, s * Second) [1; 2; 4; 8; 16]) with (map backoff (seq 0 5)) by reflexivity.
    replace 5%nat with (length (r_waits r) + (5 - length (r_waits r)))%nat at 1 by lia. rewrite seq_app, map_app. by apply prefix_app_r.
Qed.

(** C35: A source goroutine delivers the lines of its readers. Each line a reader
    yields is judged once, by the status its session has then; only the last one
    may go unjudged, while it is looked at or because the goroutine was cancelled.
    What is delivered is, in order and each once, exactly the lines judged while
    the session was not paused, split at their timestamps and labelled with
    session and source; only the line it holds, or held when it was cancelled, can
    be missing, at the end. *)
Theorem log_delivery reg e k r : session_of reg e → e_runs e !! k = Some r →
  (lines_of k (e_log e) = shown e r
   ∨ ∃ l, lines_of k (e_log e) ++ [l] = shown e r ∧ (place (r_at r) = Sending l ∨ ctx_done e r = true))
  ∧ (Forall judged (r_read r)
     ∨ ∃ line, unjudged r line ∧ (place (r_at r) = Scanned line ∨ place (r_at r) = Checked line ∨ ctx_done e r = true)).
Proof.
  intros H Hk. pose proof (runs_each _ (runs_ok_of reg e H) k r Hk) as Hr. split.
  - pose proof (run_lines _ _ _ Hr) as Hl. unfold lines_ok in Hl.
    destruct (place (r_at r)) eqn:Ep; try (destruct Hl as [Hl|(Hd & _ & l1 & Hl)]; [by left|right; exists l1; auto]).
    right. exists l. auto.
  - pose proof (run_judged _ _ _ Hr) as Hj. unfold judged_ok in Hj.
    destruct (place (r_at r)) eqn:Ep; try (right; eexists; split; [exact Hj|by auto]);
      (destruct Hj as [?|(? & _ & line & ?)]; [by left|right; exists line; auto]).
Qed.

(** ** Concrete runs *)

(** One way a goroutine can go on: sources open, deliveries succeed, and a reader
    yields [line] or ends. *)
Definition advance_run (now : Time) (line : option bytes) (k : nat) (e : entry) : entry :=
  match e_runs e !! k with
  | None => e
  | Some r =>
    match r_at r with
    | At Launching => let '(e, r) := launch e r in put_run k r e
    | At Queued => if (sourceSem (e_sources e) <? MaxConcurrentStreamsPerSession)%nat then put_run k (go Holding r) (acquire e) else e
    | At Dropping => put_run k (go (Marking Storing Finished) r) (unregister (id_of r) e)
    | At Holding => put_run k (go (if ctx_done e r then DroppingHeld else Starting) r) e
    | At DroppingHeld => put_run k (go (Marking Storing Releasing) r) (unregister (id_of r) e)
    | At Starting =>
      put_run k (at_flow (if IncludeSourceEvents (cs_Options (r_opts r))
                          then Emit (run_event StreamEventSourceAdded ("Started streaming from " +:+ id_of r) now r) Looping
                          else At Looping) r) e
    | At Looping => put_run k (turn now e r) e
    | At Sleeping => put_run k (waited r) e
    | At Opening => put_run k (open_source now true r) e
    | At Unopened => put_run k (if ctx_done e r then go Leaving r else next_attempt r) e
    | At (Marking m next) => let '(e, r) := mark_run now m next e r in put_run k r e
    | At Scanning =>
      match line with
      | Some line => if blen line <? MaxScannerBuffer then put_run k (go (Scanned line) (read_line line r)) e else e
      | None => put_run k (go (Closing false) r) e
      end
    | At (Scanned line) => put_run k (go (if ctx_done e r then Closing true else Checked line) r) e
    | At (Checked line) =>
      put_run k (go (if status e =? LogSessionStatusPaused then Scanning else Sending (to_line e (r_source r) line))
                   (judge_line (status e) r)) e
    | At (Sending l) => put_run k (go Scanning r) (log_output (Reader k) (line_output l) e)
    | At (Closing retry) => put_run k (go (Closed retry) r) e
    | At (Closed retry) => put_run k (if ctx_done e r || negb retry then go Leaving r else next_attempt r) e
    | At Exhausted => let '(e, r) := exhausted now e r in put_run k r e
    | At Leaving => put_run k (go Releasing r) (unregister (id_of r) e)
    | At Releasing => put_run k (go Finished r) (release e)
    | At Finished => e
    | Emit ev l => put_run k (at_flow (Deliver ev 0%nat l) r) (log_asked (Reader k) ev e)
    | Deliver ev t l => put_run k (at_flow (At l) r) (log_output (Reader k) (event_output e ev) e)
    end
  end.
Definition advance_orch (reg : handlerRegistry) (now : Time) (e : entry) : entry :=
  match e_orch e with
  | At Beginning => set_orch (At (begin_orchestration reg (e_opts e))) e
  | At (Preparing o sources w) => set_orch (At (Counted o sources w)) (setSources sources e)
  | At (Counted o sources w) => set_orch (At (Transitioning o sources w)) (prepare o sources e)
  | At (Transitioning o sources w) =>
    set_orch (At (after_transition o sources w)) (transition LogSessionStatusConnecting LogSessionStatusInitializing e)
  | At (Fanning o sources w) => set_orch (At Joining) (fan_out o sources w e)
  | At Joining =>
    if forallb (λ r, implb (fanned r) (over (r_at r))) (e_runs e) then set_orch (At Draining) e else e
  | At Draining =>
    if watched_over e && forallb (λ r, fanned r || over (r_at r)) (e_runs e) then set_orch (At Settling) e else e
  | At Settling => set_orch (At (if status e =? LogSessionStatusError then Ending else Settled)) e
  | At Settled => set_orch (At Ending) (setStatus LogSessionStatusClosed e)
  | At Ending => set_orch (if e_canceled e then At Finishing
                           else Emit (event StreamEventStreamEnded "" "Log session ended." now) Finishing) e
  | At Finishing => set_orch (At Returning) (close_done e)
  | At Returning => set_orch (At Gone) e
  | Emit ev l => set_orch (Deliver ev 0%nat l) (log_asked Main ev e)
  | Deliver ev t l => set_orch (At l) (log_output Main (event_output e ev) e)
  | _ => e
  end.

(** The label of such a step. *)
Definition run_label (e : entry) (f : flow loc) : label :=
  match f with
  | At (Sending l) => Sent (line_output l)
  | At _ => Quiet
  | Emit _ _ => Lookup (Some 0%nat)
  | Deliver ev _ _ => Sent (event_output e ev)
  end.
Definition orch_label (e : entry) (f : flow oloc) : label :=
  match f with At Returning => Done | At _ => Quiet | Emit _ _ => Lookup (Some 0%nat) | Deliver ev _ _ => Sent (event_output e ev) end.
Lemma advance_run_cases now line k e r : e_runs e !! k = Some r →
  advance_run now line k e = e ∧ run_label e (r_at r) = Quiet ∨ run_step k e r (run_label e (r_at r)) (advance_run now line k e).
Proof.
  intros Ek. unfold advance_run. rewrite Ek.
  destruct (r_at r) as [[]|ev l|ev t l] eqn:Ea; cbn [run_label]; try (by left); try (by right; constructor; rewrite ?Ea).
  - destruct (Nat.ltb_spec (sourceSem (e_sources e)) MaxConcurrentStreamsPerSession); [|by left]. by right; constructor.
  - destruct line as [line|]; [|by right; constructor].
    destruct (Z.ltb_spec (blen line) MaxScannerBuffer); [|by left]. by right; constructor.
  - right. eapply (Run_emits k e r _ (Asked ev)). rewrite Ea. apply (D_lookup e ev l (Some 0%nat)).
  - right. eapply (Run_emits k e r _ (Handed _)). rewrite Ea. apply D_sent.
Qed.
Lemma advance_run_step reg now line k e : session_of reg e → session_of reg (advance_run now line k e).
Proof.
  intros H. destruct (e_runs e !! k) as [r|] eqn:Ek; [|unfold advance_run; by rewrite Ek].
  destruct (advance_run_cases now line k e r Ek) as [[-> _]|Hs]; [done|]. eapply Session_step; [exact H|by eapply Entry_run].
Qed.
Lemma advance_orch_cases reg now e : advance_orch reg now e = e ∧ orch_label e (e_orch e) = Quiet ∨ orch_step reg e (orch_label e (e_orch e)) (advance_orch reg now e).
Proof.
  unfold advance_orch. destruct (e_orch e) as [[]|ev l|ev t l] eqn:Ea; cbn [orch_label]; try (by left); try (by right; constructor; rewrite ?Ea).
  - destruct (forallb _ _) eqn:Ef; [|by left]. right. constructor; [done|]. apply Forall_forall. intros r Hr Hf.
    rewrite forallb_forall in Ef. specialize (Ef r (proj1 (list_elem_of_In _ _) Hr)). by rewrite Hf in Ef.
  - destruct (watched_over e && _) eqn:Ef; [|by left]. apply andb_true_iff in Ef as [Hw Ef]. right. constructor; [done..|].
    apply Forall_forall. intros r Hr Hf. rewrite forallb_forall in Ef. specialize (Ef r (proj1 (list_elem_of_In _ _) Hr)). by rewrite Hf in Ef.
  - right. eapply (Orch_emits reg e _ (Asked ev)). rewrite Ea. apply (D_lookup e ev l (Some 0%nat)).
  - right. eapply (Orch_emits reg e _ (Handed _)). rewrite Ea. apply D_sent.
Qed.
Lemma advance_orch_step reg now e : session_of reg e → session_of reg (advance_orch reg now e).
Proof.
  intros H. destruct (advance_orch_cases reg now e) as [[-> _]|Hs]; [done|]. eapply Session_step; [exact H|by eapply Entry_orch].
Qed.

Definition sample_reg : handlerRegistry := newHandlerRegistry sample_registry ∅.
Definition sample_create (follow : bool) : CreateSessionOptions :=
  mkCreate "s1" "pod" "p1" None None None
    (mkLogOptions None None "" follow false false 0 0 None 0 false []).
Definition sample_session (o : CreateSessionOptions) : LogSession :=
  mkLogSession (cs_SessionID o) "" "" (cs_ResourceKey o) (cs_ResourceID o) (cs_Options o) LogSessionStatusConnecting []
    (mkNativeTime 1 zero_time).
Definition steps (n : nat) (f : entry → entry) (e : entry) : entry := Nat.iter n f e.
Lemma steps_of reg n f e : (∀ e, session_of reg e → session_of reg (f e)) → session_of reg e → session_of reg (steps n f e).
Proof. intros Hf H. induction n as [|n IH]; [done|]. cbn. by apply Hf. Qed.

(** A session of one source that has delivered a line and holds another. *)
Definition sample_line : bytes := bytes_of "2024-01-15T10:30:00Z GET /".
Definition sample_reading : entry :=
  steps 16 (advance_run zero_time (Some sample_line) 0)
    (steps 5 (advance_orch sample_reg zero_time) (new_entry (sample_session (sample_create true)) (sample_create true) false)).
Lemma sample_reading_reachable : session_of sample_reg sample_reading.
Proof.
  apply steps_of; [intros e; apply advance_run_step|]. apply steps_of; [intros e; apply advance_orch_step|]. apply Session_new.
Qed.

Lemma log_streams_bounded_witness : session_of sample_reg sample_reading
  ∧ (streams_now sample_reading ≤ MaxConcurrentStreamsPerSession)%nat.
Proof.
  split; [exact sample_reading_reachable|]. exact (proj1 (log_streams_bounded sample_reg sample_reading sample_reading_reachable)).
Defined.
Lemma log_delivery_witness : session_of sample_reg sample_reading
  ∧ ∃ r, e_runs sample_reading !! 0%nat = Some r ∧ length (lines_of 0 (e_log sample_reading)) = 1%nat
    ∧ (lines_of 0 (e_log sample_reading) = shown sample_reading r
       ∨ ∃ l, lines_of 0 (e_log sample_reading) ++ [l] = shown sample_reading r
              ∧ (place (r_at r) = Sending l ∨ ctx_done sample_reading r = true)).
Proof.
  split; [exact sample_reading_reachable|].
  destruct (e_runs sample_reading !! 0%nat) as [r|] eqn:E; [|vm_compute in E; discriminate E].
  exists r. split; [reflexivity|]. split; [vm_compute; reflexivity|].
  exact (proj1 (log_delivery sample_reg sample_reading 0 r sample_reading_reachable E)).
Defined.
