(* ===== verification/LogReady.v ===== *)
(** * The readiness of a log session

    The counters of [markSourceReady] in every interleaving of the goroutines of a
    session, and the SESSION_READY events they lead to. *)
From S2P Require Import Prelude GoStd GoTime Errors Values Json Domain Source Messages LogTypes LogLines LogSession LogSources.
Local Open Scope Z_scope.

(** ** Readiness *)

Definition is_ready (ev : LogStreamEvent) : bool := ev_Type ev =? StreamEventSessionReady.
Definition ready_output (x : worker * StreamOutput) : bool :=
  match so_Event x.2 with Some ev => is_ready ev | None => false end.
Definition of_run (x : worker * StreamOutput) : bool := match x.1 with Reader _ => true | _ => false end.
Definition pending {L} (f : flow L) : bool := match f with At _ => false | Emit ev _ | Deliver ev _ _ => is_ready ev end.
(** SESSION_READY events by goroutines of sources and by the others. *)
Definition run_readies (e : entry) : nat :=
  length (filter (λ x, ready_output x && of_run x = true) (e_log e))
  + sum_list_with (λ r, Nat.b2n (pending (r_at r))) (e_runs e).
Definition orch_readies (e : entry) : nat :=
  length (filter (λ x, ready_output x && negb (of_run x) = true) (e_log e)) + Nat.b2n (pending (e_orch e)).

(** Sources between [LoadOrStore] and the count, and those past it. *)
Definition gated (r : run) : option string :=
  match place (r_at r) with Marking Gating _ | Marking Counting _ => Some (id_of r) | _ => None end.
Definition gates (rs : list run) : list string := omap gated rs.
Definition counting (r : run) : bool := match place (r_at r) with Marking Counting _ => true | _ => false end.
Definition readying (r : run) : bool := match place (r_at r) with Marking Readying _ => true | _ => false end.

Definition prepared (f : flow oloc) : bool :=
  match place f with Beginning | Resolving _ | Failing _ | Preparing _ _ _ | Counted _ _ _ => false | _ => true end.
Definition activated (f : flow oloc) : bool :=
  match place f with
  | Beginning | Resolving _ | Failing _ | Preparing _ _ _ | Counted _ _ _ | Transitioning _ _ _ | Activating _ _ => false
  | _ => true
  end.

(** The counters between two sections, for the sources counted so far. *)
Record counters_ok (r : readiness) (rs : list run) (counted : gset string) : Prop := mkCounters {
  count_size : readySources r = Z.of_nat (size counted);
  count_ready : counted ⊆ readySet r ∩ initialSourceIDs r;
  count_gates : NoDup (gates rs);
  count_gated : ∀ id, id ∈ gates rs → id ∈ readySet r ∧ id ∉ counted;
  count_counting : ∀ x, x ∈ rs → counting x = true → id_of x ∈ initialSourceIDs r;
  count_readying : ∀ x, x ∈ rs → readying x = true → totalSources r ≤ readySources r ∧ initialSourceIDs r ≠ ∅
}.
Record ready_ok (e : entry) : Prop := mkReadyOk {
  ready_counters : readied (e_ready e) = false → ∃ counted, counters_ok (e_ready e) (e_runs e) counted;
  ready_done : readied (e_ready e) = true →
    totalSources (e_ready e) ≤ Z.of_nat (size (readySet (e_ready e) ∩ initialSourceIDs (e_ready e)))
    ∧ initialSourceIDs (e_ready e) ≠ ∅;
  ready_unprepared : prepared (e_orch e) = false → initialSourceIDs (e_ready e) = ∅;
  ready_sources : match place (e_orch e) with
                  | Transitioning _ sources _ => initialSourceIDs (e_ready e) = list_to_set (map src_ID sources)
                  | Activating _ _ => initialSourceIDs (e_ready e) = ∅
                  | _ => True
                  end;
  ready_runs : (run_readies e ≤ Nat.b2n (readied (e_ready e)))%nat;
  ready_orch : (orch_readies e ≤ Nat.b2n (activated (e_orch e)))%nat ∧ (orch_readies e ≠ 0%nat → initialSourceIDs (e_ready e) = ∅);
  ready_watch : match e_watch e with Some f => pending f = false | None => True end;
  ready_updates : Forall (λ f, pending f = false ∧ match place f with Announcing evs _ => Forall (λ ev, is_ready ev = false) evs | _ => True end)
                    (e_updates e)
}.

(** *** Changes that do not concern readiness *)

Lemma omap_insert_perm {A B} (f : A → option B) (l : list A) k a b : l !! k = Some a →
  ∃ rest, omap f l ≡ₚ option_list (f a) ++ rest ∧ omap f (<[k := b]> l) ≡ₚ option_list (f b) ++ rest.
Proof.
  intros Hk. exists (omap f (delete k l)). split.
  - rewrite (delete_Permutation l k a Hk) at 1. cbn. by destruct (f a).
  - assert (<[k := b]> l ≡ₚ b :: delete k l) as ->; [|cbn; by destruct (f b)].
    rewrite (delete_Permutation (<[k := b]> l) k b) by (apply list_lookup_insert_eq; by eapply lookup_lt_Some).
    f_equiv. apply reflexive_eq. revert k Hk. induction l as [|x l IH]; intros [|k] Hk; simplify_eq/=; [done|]. f_equal. by apply IH.
Qed.
Lemma counters_ok_perm r rs rs' counted : gates rs' ≡ₚ gates rs → (∀ x, x ∈ rs' → counting x = true → x ∈ rs) →
  (∀ x, x ∈ rs' → readying x = true → x ∈ rs) → counters_ok r rs counted → counters_ok r rs' counted.
Proof.
  intros Hg Hc Hr [H1 H2 H3 H4 H5 H6]. split; [done|done|by rewrite Hg| | |]; try setoid_rewrite Hg; eauto.
Qed.
(** A change of one goroutine outside [markSourceReady]. *)
Definition unmarked (r : run) : bool := match place (r_at r) with Marking Storing _ => true | Marking _ _ => false | _ => true end.
Lemma unmarked_gated r : unmarked r = true → gated r = None ∧ counting r = false ∧ readying r = false.
Proof. unfold unmarked, gated, counting, readying. by destruct (place (r_at r)) as [| | | | | | | | | | | | | | | | | | | |[] ?]. Qed.
Lemma list_elem_of_insert_inv {A} (l : list A) k a x : x ∈ <[k := a]> l → x = a ∨ x ∈ l.
Proof.
  intros Hx. apply list_elem_of_lookup in Hx as [j Hj]. apply list_lookup_insert_Some in Hj as [(_ & <- & _)|[_ Hj]]; [by left|].
  right. by eapply list_elem_of_lookup_2.
Qed.
Lemma counters_unmarked r rs k a b counted : rs !! k = Some a → unmarked a = true → unmarked b = true →
  counters_ok r rs counted → counters_ok r (<[k := b]> rs) counted.
Proof.
  intros Hk Ha Hb. destruct (unmarked_gated a Ha) as (Ga & _), (unmarked_gated b Hb) as (Gb & Cb & Rb).
  apply counters_ok_perm.
  - destruct (omap_insert_perm gated rs k a b Hk) as (rest & H1 & H2). unfold gates. by rewrite H1, H2, Ga, Gb.
  - intros x [->|?]%list_elem_of_insert_inv Hx; [congruence|done].
  - intros x [->|?]%list_elem_of_insert_inv Hx; [congruence|done].
Qed.
Lemma gates_app a b : gates (a ++ b) = gates a ++ gates b.
Proof. apply omap_app. Qed.
Lemma fresh_unmarked rs : Forall fresh rs → gates rs = [] ∧ ∀ x, x ∈ rs → counting x = false ∧ readying x = false ∧ pending (r_at x) = false.
Proof.
  induction 1 as [|r rs ([Hat|Hat] & _) _ [IH1 IH2]]; (split; [|]); try done; try (intros x Hx; by apply not_elem_of_nil in Hx).
  1, 3: unfold gates; cbn; unfold gated at 1; rewrite Hat; exact IH1.
  all: intros x [->|?]%elem_of_cons; [unfold counting, readying; by rewrite Hat|auto].
Qed.
Lemma counters_spawn r rs new counted : Forall fresh new → counters_ok r rs counted → counters_ok r (rs ++ new) counted.
Proof.
  intros Hn. destruct (fresh_unmarked new Hn) as [Hg Hx]. apply counters_ok_perm.
  - by rewrite gates_app, Hg, app_nil_r.
  - intros x [?|Hin]%elem_of_app Hc; [done|]. destruct (Hx x Hin) as (? & _). congruence.
  - intros x [?|Hin]%elem_of_app Hc; [done|]. destruct (Hx x Hin) as (_ & ? & _). congruence.
Qed.

(** *** The sections of [markSourceReady] *)

Definition plain (l : loc) : bool := match l with Marking _ _ => false | _ => true end.
Lemma plain_unmarked l r : plain l = true → unmarked (go l r) = true.
Proof. unfold unmarked. cbn. by destruct l. Qed.
Lemma marking_next e k r m next : run_ok e k r → r_at r = At (Marking m next) → plain next = true.
Proof. intros H Hat. pose proof (run_counts _ _ _ H) as Hc. rewrite Hat in Hc. by destruct next. Qed.

Section marking.
Context (r : readiness) (rs : list run) (k : nat) (x : run) (counted : gset string).
Context (Hk : rs !! k = Some x) (Hok : counters_ok r rs counted).

Lemma gates_at : ∃ rest, gates rs ≡ₚ option_list (gated x) ++ rest ∧ ∀ y, gates (<[k := y]> rs) ≡ₚ option_list (gated y) ++ rest.
Proof.
  destruct (omap_insert_perm gated rs k x x Hk) as (rest & H1 & _). exists rest. split; [exact H1|]. intros y.
  destruct (omap_insert_perm gated rs k x y Hk) as (rest' & H1' & H2'). unfold gates. rewrite H2'. f_equiv.
  apply (Permutation_app_inv_l (option_list (gated x))). by rewrite <- H1, <- H1'.
Qed.
Lemma others y z : z ∈ <[k := y]> rs → z = y ∨ z ∈ rs.
Proof. apply list_elem_of_insert_inv. Qed.

(** [LoadOrStore] of a new source. *)
Lemma counters_store next : gated x = None → id_of x ∉ readySet r → plain next = true →
  counters_ok (mkReadiness (totalSources r) (readySources r) (readied r) ({[id_of x]} ∪ readySet r) (initialSourceIDs r))
    (<[k := go (Marking Gating next) x]> rs) counted.
Proof.
  intros Hg Hnew Hnext. destruct Hok as [H1 H2 H3 H4 H5 H6]. destruct gates_at as (rest & Ha & Hb). rewrite Hg in Ha. cbn in Ha.
  specialize (Hb (go (Marking Gating next) x)). cbn in Hb. change (id_of (go (Marking Gating next) x)) with (id_of x) in Hb.
  split; cbn [readySources readySet initialSourceIDs totalSources].
  - done.
  - set_solver.
  - rewrite Hb, <- Ha. apply NoDup_cons. split; [|done]. intros Hin. by apply H4 in Hin as [? _].
  - intros id. rewrite Hb, <- Ha. intros [->|Hin]%elem_of_cons; [|destruct (H4 _ Hin); set_solver].
    split; [set_solver|]. intros Hc. apply H2 in Hc. set_solver.
  - intros z [->|Hz]%others Hc; [done|by apply H5].
  - intros z [->|Hz]%others Hc; [done|by apply (H6 z)].
Qed.
(** The gate lets a source through, or not. *)
Lemma counters_pass next : gated x = Some (id_of x) → id_of x ∈ initialSourceIDs r →
  counters_ok r (<[k := go (Marking Counting next) x]> rs) counted.
Proof.
  intros Hg Hin. destruct Hok as [H1 H2 H3 H4 H5 H6]. destruct gates_at as (rest & Ha & Hb). rewrite Hg in Ha.
  specialize (Hb (go (Marking Counting next) x)). cbn in Ha, Hb. change (id_of (go (Marking Counting next) x)) with (id_of x) in Hb.
  split; try done.
  - by rewrite Hb, <- Ha.
  - intros id. rewrite Hb, <- Ha. apply H4.
  - intros z [->|Hz]%others Hc; [done|by apply H5].
  - intros z [->|Hz]%others Hc; [done|by apply (H6 z)].
Qed.
Lemma counters_turned next : plain next = true → counters_ok r (<[k := go next x]> rs) counted.
Proof.
  intros Hn. destruct (unmarked_gated _ (plain_unmarked next x Hn)) as (Gn & Cn & Rn).
  destruct Hok as [H1 H2 H3 H4 H5 H6]. destruct gates_at as (rest & Ha & Hb). specialize (Hb (go next x)). rewrite Gn in Hb. cbn in Hb.
  split; try done.
  - rewrite Hb. rewrite Ha in H3. by apply NoDup_app in H3 as (_ & _ & ?).
  - intros id. rewrite Hb. intros Hid. apply H4. rewrite Ha. apply elem_of_app. by right.
  - intros z [->|Hz]%others Hc; [congruence|by apply H5].
  - intros z [->|Hz]%others Hc; [congruence|by apply (H6 z)].
Qed.
(** The count. *)
Lemma counters_count next l : gated x = Some (id_of x) → counting x = true → plain next = true →
  l = (if totalSources r <=? readySources r + 1 then Marking Readying next else next) →
  counters_ok (mkReadiness (totalSources r) (readySources r + 1) (readied r) (readySet r) (initialSourceIDs r))
    (<[k := go l x]> rs) ({[id_of x]} ∪ counted).
Proof.
  intros Hg Hc Hnext Hl. destruct Hok as [H1 H2 H3 H4 H5 H6]. destruct gates_at as (rest & Ha & Hb). rewrite Hg in Ha. cbn in Ha.
  specialize (Hb (go l x)).
  assert (id_of x ∈ gates rs) as Hin by (rewrite Ha; by left). destruct (H4 _ Hin) as [Hset Hnot].
  assert (id_of x ∈ initialSourceIDs r) as Hinit by (apply H5; [by eapply list_elem_of_lookup_2|done]).
  assert (gated (go l x) = None ∧ counting (go l x) = false) as [Gl Cl].
  { subst l. destruct (_ <=? _); [done|]. by destruct (unmarked_gated _ (plain_unmarked next x Hnext)) as (? & ? & _). }
  rewrite Gl in Hb. cbn in Hb. rewrite Ha in H3. apply NoDup_cons in H3 as [Hni H3].
  split; cbn [readySources readySet initialSourceIDs totalSources].
  - rewrite size_union by set_solver. rewrite size_singleton, H1. lia.
  - set_solver.
  - by rewrite Hb.
  - intros id. rewrite Hb. intros Hid. destruct (H4 id) as [Hs Hn]; [rewrite Ha; by right|]. split; [done|]. set_solver.
  - intros z [->|Hz]%others Hcz; [congruence|by apply H5].
  - intros z [->|Hz]%others Hcz.
    + subst l. destruct (Z.leb_spec (totalSources r) (readySources r + 1)).
      * split; [done|]. set_solver.
      * destruct (unmarked_gated _ (plain_unmarked next x Hnext)) as (_ & _ & ?). congruence.
    + destruct (H6 z Hz Hcz). split; [lia|done].
Qed.
End marking.

(** *** Steps *)

Definition logged (by_run : bool) (log : list (worker * StreamOutput)) : nat :=
  length (filter (λ x, ready_output x && Bool.eqb (of_run x) by_run = true) log).
Lemma run_readies_eq e : run_readies e = (logged true (e_log e) + sum_list_with (λ r, Nat.b2n (pending (r_at r))) (e_runs e))%nat.
Proof.
  unfold run_readies, logged. f_equal. f_equal. apply list_filter_iff. intros x. by destruct (of_run x).
Qed.
Lemma orch_readies_eq e : orch_readies e = (logged false (e_log e) + Nat.b2n (pending (e_orch e)))%nat.
Proof.
  unfold orch_readies, logged. do 2 f_equal.
Qed.
Lemma logged_snoc b log x : logged b (log ++ [x]) = (logged b log + Nat.b2n (ready_output x && Bool.eqb (of_run x) b))%nat.
Proof. unfold logged. rewrite filter_app, length_app. f_equal. cbn. by destruct (ready_output x && _). Qed.
Lemma delivered {L} e (f : flow L) l o f' tag : delivery e f l o f' →
  (Nat.b2n (pending f') + match o with Handed o => Nat.b2n (ready_output (tag, o)) | _ => 0 end ≤ Nat.b2n (pending f))%nat.
Proof. destruct 1 as [ev l [t|]|ev t l|ev t l]; cbn; lia. Qed.
(** What a delivery of the goroutine [tag] adds to the log. *)
Lemma logged_delivery {L} e (f : flow L) l o f' (tag : worker) b : delivery e f l o f' →
  (logged b (e_log (record tag o e)) + (if Bool.eqb (of_run (tag, mkOutput "" None None)) b then Nat.b2n (pending f') else 0)
   ≤ logged b (e_log e) + (if Bool.eqb (of_run (tag, mkOutput "" None None)) b then Nat.b2n (pending f) else 0))%nat.
Proof.
  intros Hd. pose proof (delivered e f l o f' tag Hd) as H. destruct o as [ev|o|]; cbn [record e_log log_output log_asked].
  - destruct (Bool.eqb _ b); lia.
  - rewrite logged_snoc. change (of_run (tag, o)) with (of_run (tag, mkOutput "" None None)).
    destruct (Bool.eqb _ b); [|rewrite andb_false_r; cbn; lia]. rewrite andb_true_r. lia.
  - destruct (Bool.eqb _ b); lia.
Qed.

(** A step that leaves the counters and the goroutines of sources. *)
Lemma ready_frame e e' : ready_ok e → e_ready e' = e_ready e →
  (∃ new, e_runs e' = e_runs e ++ new ∧ Forall fresh new) →
  logged true (e_log e') = logged true (e_log e) →
  (prepared (e_orch e') = false → prepared (e_orch e) = false) →
  match place (e_orch e') with
  | Transitioning _ sources _ => initialSourceIDs (e_ready e) = list_to_set (map src_ID sources)
  | Activating _ _ => initialSourceIDs (e_ready e) = ∅
  | _ => True
  end →
  (orch_readies e' ≤ Nat.b2n (activated (e_orch e')) ∧ (orch_readies e' ≠ 0 → initialSourceIDs (e_ready e) = ∅))%nat →
  match e_watch e' with Some f => pending f = false | None => True end →
  Forall (λ f, pending f = false ∧ match place f with Announcing evs _ => Forall (λ ev, is_ready ev = false) evs | _ => True end)
    (e_updates e') → ready_ok e'.
Proof.
  intros [H1 H2 H3 H4 H5 H6 H7 H8] Hr (new & Hruns & Hn) Hlog Hp Hs Ho Hw Hu. split; rewrite ?Hr; auto.
  - intros Hf. destruct (H1 Hf) as [c Hc]. exists c. rewrite Hruns. by apply counters_spawn.
  - rewrite run_readies_eq, Hlog, Hruns, sum_list_with_app. rewrite run_readies_eq in H5.
    assert (sum_list_with (λ r, Nat.b2n (pending (r_at r))) new = 0%nat) as ->; [|lia].
    destruct (fresh_unmarked new Hn) as [_ Hx]. clear -Hx. induction new as [|r new IH]; [done|]. cbn.
    destruct (Hx r) as (_ & _ & ->); [by left|]. apply IH. intros x Hin. apply Hx. by right.
Qed.

(** A source goroutine outside [markSourceReady]. *)
Lemma ready_run e e0 k r r' : ready_ok e → e_runs e !! k = Some r → unmarked r = true → unmarked r' = true →
  pending (r_at r) = false → pending (r_at r') = false → e_ready e0 = e_ready e → e_runs e0 = e_runs e →
  (∀ b, logged b (e_log e0) = logged b (e_log e)) → e_orch e0 = e_orch e → e_watch e0 = e_watch e → e_updates e0 = e_updates e →
  ready_ok (put_run k r' e0).
Proof.
  intros [H1 H2 H3 H4 H5 H6 H7 H8] Hk Hm Hm' Hp Hp' Hr Hruns Hlog Ho Hw Hu.
  split; cbn [put_run set_runs e_ready e_runs e_log e_orch e_watch e_updates]; rewrite ?Hr, ?Ho, ?Hw, ?Hu; auto.
  - intros Hf. destruct (H1 Hf) as [c Hc]. exists c. rewrite Hruns. by apply (counters_unmarked _ _ _ r).
  - rewrite run_readies_eq in *. cbn [e_log e_runs put_run set_runs]. rewrite Hlog, Hruns.
    pose proof (sum_list_with_set (λ r, Nat.b2n (pending (r_at r))) (e_runs e) k r r' Hk) as Hsum. cbn beta in Hsum.
    rewrite Hp, Hp' in Hsum. cbn in Hsum. lia.
  - rewrite orch_readies_eq in *. cbn [e_log e_orch put_run set_runs]. rewrite Hlog, Ho. done.
Qed.

Lemma pending_sum e k r r' : e_runs e !! k = Some r →
  (sum_list_with (λ r, Nat.b2n (pending (r_at r))) (<[k := r']> (e_runs e)) + Nat.b2n (pending (r_at r))
   = sum_list_with (λ r, Nat.b2n (pending (r_at r))) (e_runs e) + Nat.b2n (pending (r_at r')))%nat.
Proof. apply (sum_list_with_set (λ r, Nat.b2n (pending (r_at r)))). Qed.

(** A section of [markSourceReady] before the last. *)
Lemma ready_mark e k r m next e1 more : ready_ok e → run_ok e k r → e_runs e !! k = Some r → r_at r = At (Marking m next) →
  m ≠ Readying → mark (id_of r) m e = (e1, more) →
  ready_ok (put_run k (go match more with Some m => Marking m next | None => next end r) e1).
Proof.
  intros Hr Hok Hk Hat Hm Hmark. pose proof (marking_next _ _ _ _ _ Hok Hat) as Hnext.
  destruct Hr as [H1 H2 H3 H4 H5 H6 H7 H8].
  assert (e_runs e1 = e_runs e ∧ e_log e1 = e_log e ∧ e_orch e1 = e_orch e ∧ e_watch e1 = e_watch e ∧ e_updates e1 = e_updates e
          ∧ readied (e_ready e1) = readied (e_ready e) ∧ totalSources (e_ready e1) = totalSources (e_ready e)
          ∧ initialSourceIDs (e_ready e1) = initialSourceIDs (e_ready e) ∧ readySet (e_ready e) ⊆ readySet (e_ready e1))
    as (Hruns & Hlog & Ho & Hw & Hu & Hrd & Ht & Hi & Hset).
  { unfold mark in Hmark. destruct m; repeat case_match; injection Hmark as <- <-; cbn; split_and!; try done; set_solver. }
  split; cbn [put_run set_runs e_ready e_runs e_log e_orch e_watch e_updates]; rewrite ?Hrd, ?Ht, ?Hi, ?Ho, ?Hw, ?Hu, ?Hruns; auto.
  - intros Hf. destruct (H1 Hf) as [c Hc]. unfold mark in Hmark. destruct m; [| | |done].
    + case_bool_decide as Hin; injection Hmark as <- <-; [exists c; by apply (counters_turned _ _ _ r)|].
      exists c. cbn [e_ready set_ready]. rewrite <- Hrd. cbn. apply (counters_store _ _ _ r); auto. unfold gated. by rewrite Hat.
    + injection Hmark as <- <-. rewrite Hf. cbn [orb]. case_bool_decide; exists c.
      * apply (counters_pass _ _ _ r); auto. unfold gated. by rewrite Hat.
      * by apply (counters_turned _ _ _ r).
    + injection Hmark as <- <-. exists ({[id_of r]} ∪ c). cbn [e_ready set_ready].
      apply (counters_count _ _ _ r c Hk Hc next); auto; [unfold gated; by rewrite Hat|unfold counting; by rewrite Hat|].
      by destruct (totalSources (e_ready e) <=? readySources (e_ready e) + 1).
  - intros Hf. destruct (H2 Hf) as [Hle Hne]. split; [|done]. etransitivity; [exact Hle|]. apply inj_le, subseteq_size. set_solver.
  - rewrite run_readies_eq in *. cbn [e_log e_runs put_run set_runs]. rewrite Hlog, Hruns.
    pose proof (pending_sum e k r (go match more with Some m => Marking m next | None => next end r) Hk) as Hsum.
    rewrite Hat in Hsum. cbn in Hsum. lia.
  - rewrite orch_readies_eq in *. cbn [e_log e_orch put_run set_runs]. by rewrite Hlog, Ho.
Qed.

(** The last section. *)
Lemma ready_becomes e k r next e1 now : ready_ok e → run_ok e k r → e_runs e !! k = Some r → r_at r = At (Marking Readying next) →
  becomes_ready e = Some e1 → ready_ok (put_run k (at_flow (Emit (ready_event now) next) r) e1).
Proof.
  intros Hr Hok Hk Hat Hb. destruct Hr as [H1 H2 H3 H4 H5 H6 H7 H8].
  assert (readied (e_ready e) = false ∧ e_runs e1 = e_runs e ∧ e_log e1 = e_log e ∧ e_orch e1 = e_orch e ∧ e_watch e1 = e_watch e
          ∧ e_updates e1 = e_updates e ∧ readied (e_ready e1) = true ∧ totalSources (e_ready e1) = totalSources (e_ready e)
          ∧ initialSourceIDs (e_ready e1) = initialSourceIDs (e_ready e) ∧ readySet (e_ready e1) = readySet (e_ready e))
    as (Hf & Hruns & Hlog & Ho & Hw & Hu & Hrd & Ht & Hi & Hset).
  { unfold becomes_ready, transition in Hb. destruct (e_canceled e || _ || _ || _) eqn:Eg; [done|].
    apply orb_false_iff in Eg as [_ Eg]. destruct (status _ =? _); injection Hb as <-; by split_and!. }
  destruct (H1 Hf) as [c [C1 C2 C3 C4 C5 C6]].
  destruct (C6 r) as [Hle Hne]; [by eapply list_elem_of_lookup_2|unfold readying; by rewrite Hat|].
  split; cbn [put_run set_runs e_ready e_runs e_log e_orch e_watch e_updates]; rewrite ?Hrd, ?Ht, ?Hi, ?Ho, ?Hw, ?Hu, ?Hruns, ?Hset; auto.
  - done.
  - intros _. split; [|done]. rewrite C1 in Hle. etransitivity; [exact Hle|]. by apply inj_le, subseteq_size.
  - rewrite run_readies_eq in *. cbn [e_log e_runs put_run set_runs]. rewrite Hlog, Hruns.
    pose proof (pending_sum e k r (at_flow (Emit (ready_event now) next) r) Hk) as Hsum. rewrite Hat in Hsum. rewrite Hf in H5.
    cbn in Hsum, H5 |- *. lia.
  - rewrite orch_readies_eq in *. cbn [e_log e_orch put_run set_runs]. by rewrite Hlog, Ho.
Qed.

Lemma ready_delivery e k r l o f : ready_ok e → e_runs e !! k = Some r → delivery e (r_at r) l o f →
  ready_ok (put_run k (at_flow f r) (record (Reader k) o e)).
Proof.
  intros [H1 H2 H3 H4 H5 H6 H7 H8] Hk Hd. pose proof (delivery_place _ _ _ _ _ Hd) as Hp.
  set (e0 := record (Reader k) o e).
  assert (e_ready e0 = e_ready e ∧ e_runs e0 = e_runs e ∧ e_orch e0 = e_orch e ∧ e_watch e0 = e_watch e ∧ e_updates e0 = e_updates e)
    as (Hr & Hruns & Ho & Hw & Hu) by (subst e0; by destruct o).
  assert (gated (at_flow f r) = gated r ∧ counting (at_flow f r) = counting r ∧ readying (at_flow f r) = readying r) as (Hg & Hc & Hrd)
    by (unfold gated, counting, readying; cbn [at_flow r_at]; by rewrite Hp).
  split; cbn [put_run set_runs e_ready e_runs e_log e_orch e_watch e_updates]; rewrite ?Hr, ?Ho, ?Hw, ?Hu, ?Hruns; auto.
  - intros Hf. destruct (H1 Hf) as [c [C1 C2 C3 C4 C5 C6]]. exists c.
    destruct (omap_insert_perm gated (e_runs e) k r (at_flow f r) Hk) as (rest & Ha & Hb). rewrite Hg, <- Ha in Hb.
    assert (gates (<[k := at_flow f r]> (e_runs e)) ≡ₚ gates (e_runs e)) as Hgs by exact Hb.
    split; [done|done|by rewrite Hgs|setoid_rewrite Hgs; done| |].
    + intros x [->|Hx]%list_elem_of_insert_inv Hcx; [|by apply C5]. change (id_of (at_flow f r)) with (id_of r).
      apply (C5 r); [by eapply list_elem_of_lookup_2|congruence].
    + intros x [->|Hx]%list_elem_of_insert_inv Hcx; [|by apply (C6 x)]. apply (C6 r); [by eapply list_elem_of_lookup_2|congruence].
  - rewrite run_readies_eq in *. cbn [e_log e_runs put_run set_runs]. rewrite Hruns.
    pose proof (pending_sum e k r (at_flow f r) Hk) as Hsum. pose proof (logged_delivery e (r_at r) l o f (Reader k) true Hd) as Hl.
    cbn in Hsum, Hl. fold e0 in Hl. lia.
  - rewrite orch_readies_eq in *. cbn [e_log e_orch put_run set_runs]. rewrite Ho.
    pose proof (logged_delivery e (r_at r) l o f (Reader k) false Hd) as Hl. cbn in Hl. fold e0 in Hl. split; [lia|]. intros Hn. apply H6. lia.
Qed.

Ltac unmarked_by Hat := first [done | unfold unmarked; by rewrite Hat | by rewrite Hat].
Lemma ready_run_step e k r l e' : ready_ok e → run_ok e k r → e_runs e !! k = Some r → run_step k e r l e' → ready_ok e'.
Proof.
  intros Hr Hok Hk Hs. destruct Hs as [Hat|Hat Hb|Hat Hd|Hat|Hat|Hat|now Hat|now Hat|Hat Hd|Hat|now reader Hat|Hat|now m next Hat|line Hat Hb
    |retry Hat|line Hat|line Hat|li Hat|li Hat Hd|retry Hat|retry Hat|now Hat|Hat|Hat|l o f Hdel].
  - unfold launch, registerSourceCtx. destruct (sourceCtxs (e_sources e) !! id_of r); eapply ready_run; eauto; unmarked_by Hat.
  - eapply ready_run; eauto; unmarked_by Hat.
  - eapply ready_run; eauto; unmarked_by Hat.
  - eapply ready_run; eauto; unmarked_by Hat.
  - destruct (ctx_done e r); eapply ready_run; eauto; unmarked_by Hat.
  - eapply ready_run; eauto; unmarked_by Hat.
  - destruct (IncludeSourceEvents _); eapply ready_run; eauto; unmarked_by Hat.
  - unfold turn. repeat case_match; eapply ready_run; eauto; unmarked_by Hat.
  - eapply ready_run; eauto; unmarked_by Hat.
  - eapply ready_run; eauto; unmarked_by Hat.
  - unfold open_source. repeat case_match; eapply ready_run; eauto; unmarked_by Hat.
  - destruct (ctx_done e r); eapply ready_run; eauto; unmarked_by Hat.
  - unfold mark_run. destruct m.
    1-3: destruct (mark (id_of r) _ e) as [e1 more] eqn:E; eapply ready_mark; eauto.
    destruct (becomes_ready e) as [e1|] eqn:E; [by eapply ready_becomes|].
    pose proof (marking_next _ _ _ _ _ Hok Hat) as Hn. destruct Hr as [H1 H2 H3 H4 H5 H6 H7 H8].
    split; cbn [put_run set_runs e_ready e_runs e_log e_orch e_watch e_updates]; auto.
    + intros Hf. destruct (H1 Hf) as [c Hc]. exists c. by apply (counters_turned _ _ _ r).
    + rewrite run_readies_eq in *. cbn [e_log e_runs put_run set_runs].
      pose proof (pending_sum e k r (go next r) Hk) as Hsum. rewrite Hat in Hsum. cbn in Hsum. lia.
  - eapply ready_run; eauto; unmarked_by Hat.
  - eapply ready_run; eauto; unmarked_by Hat.
  - destruct (ctx_done e r); eapply ready_run; eauto; unmarked_by Hat.
  - destruct (status e =? LogSessionStatusPaused); eapply ready_run; eauto; unmarked_by Hat.
  - eapply ready_run; eauto; try unmarked_by Hat. intros b. cbn [e_log log_output]. rewrite logged_snoc. cbn. lia.
  - eapply ready_run; eauto; unmarked_by Hat.
  - eapply ready_run; eauto; unmarked_by Hat.
  - destruct (ctx_done e r || negb retry); eapply ready_run; eauto; unmarked_by Hat.
  - unfold exhausted. destruct (ctx_done e r); eapply ready_run; eauto; unmarked_by Hat.
  - eapply ready_run; eauto; unmarked_by Hat.
  - eapply ready_run; eauto; unmarked_by Hat.
  - by eapply ready_delivery.
Qed.

Lemma unchanged_runs (rs : list run) : ∃ new, rs = rs ++ new ∧ Forall fresh new.
Proof. exists []. by rewrite app_nil_r. Qed.
#[local] Hint Resolve unchanged_runs : sessions.

(** The orchestrator. *)
Lemma begin_place reg o : match begin_orchestration reg o with Resolving _ | Failing _ | Preparing _ _ _ => True | _ => False end.
Proof. unfold begin_orchestration. repeat case_match; done. Qed.
Lemma resolved_place reg o answer : match resolved reg o answer with Failing _ | Preparing _ _ _ => True | _ => False end.
Proof. unfold resolved. repeat case_match; done. Qed.
(** The orchestrator goes on without announcing readiness. *)
Lemma ready_orch_at e e' l f : ready_ok e → e_orch e = At l → e_orch e' = f → pending f = false → e_ready e' = e_ready e →
  (∃ new, e_runs e' = e_runs e ++ new ∧ Forall fresh new) → e_log e' = e_log e → e_updates e' = e_updates e →
  (e_watch e' = e_watch e ∨ e_watch e' = Some (At Waiting)) →
  (prepared f = false → prepared (At l) = false) → (activated (At l) = true → activated f = true) →
  match place f with
  | Transitioning _ sources _ => initialSourceIDs (e_ready e) = list_to_set (map src_ID sources)
  | Activating _ _ => initialSourceIDs (e_ready e) = ∅
  | _ => True
  end → ready_ok e'.
Proof.
  intros Hr Ho Ho' Hf Hrd Hruns Hlog Hu Hw Hp Ha Hi. pose proof Hr as [_ _ _ _ _ H6 H7 H8].
  rewrite orch_readies_eq, Ho in H6. cbn [pending] in H6.
  apply (ready_frame e); auto; try congruence.
  - by rewrite Ho, Ho'.
  - by rewrite Ho'.
  - rewrite orch_readies_eq, Ho', Hlog, Hf. destruct H6 as [H6 H6']. split; [|exact H6'].
    destruct (activated (At l)); [rewrite (Ha eq_refl); exact H6|]. change (Nat.b2n false) with 0%nat in *. lia.
  - by destruct Hw as [->| ->].
Qed.
Lemma ready_prepare e o sources w : ready_ok e → e_orch e = At (Counted o sources w) →
  ready_ok (set_orch (At (Transitioning o sources w)) (prepare o sources e)).
Proof.
  intros [H1 H2 H3 H4 H5 H6 H7 H8] Ho. rewrite Ho in *. specialize (H3 eq_refl).
  assert (readied (e_ready e) = false) as Hf by (destruct (readied (e_ready e)); [by destruct (H2 eq_refl)|done]).
  split; cbn [set_orch prepare set_ready e_ready e_runs e_orch e_watch e_updates readied]; auto; try done.
  - intros _. destruct (H1 Hf) as [c [C1 C2 C3 C4 C5 C6]]. assert (c = ∅) as -> by set_solver. exists ∅.
    split; cbn [readySources readySet initialSourceIDs totalSources]; auto.
    + set_solver.
    + intros x Hx Hc. specialize (C5 x Hx Hc). set_solver.
    + intros x Hx Hc. by destruct (C6 x Hx Hc).
  - congruence.
  - assert (orch_readies (set_orch (At (Transitioning o sources w)) (prepare o sources e)) = 0%nat) as ->; [|split; [lia|done]].
    rewrite orch_readies_eq in *. change (e_log (set_orch _ _)) with (e_log e). destruct H6 as [H6 _]. rewrite Ho in H6. cbn [pending e_orch set_orch activated place Nat.b2n] in H6 |- *. lia.
Qed.
Lemma ready_activate e o w now : ready_ok e → e_orch e = At (Activating o w) → initialSourceIDs (e_ready e) = ∅ →
  ready_ok (set_orch (Emit (empty_event now) (Fanning o [] w)) (transition LogSessionStatusInitializing LogSessionStatusActive e)).
Proof.
  intros Hr Ho Hi. pose proof Hr as [_ _ _ _ _ H6 H7 H8]. rewrite orch_readies_eq, Ho in H6.
  set (e1 := transition _ _ e). assert (e_ready e1 = e_ready e ∧ e_runs e1 = e_runs e ∧ e_log e1 = e_log e ∧ e_watch e1 = e_watch e
    ∧ e_updates e1 = e_updates e) as (H1 & H2 & H3 & H4 & H5) by (unfold e1, transition; by destruct (_ =? _)).
  apply (ready_frame e); cbn [set_orch e_ready e_runs e_log e_watch e_updates e_orch place]; rewrite ?H1, ?H2, ?H3, ?H4, ?H5; auto with sessions.
  - done.
  - rewrite orch_readies_eq. cbn [set_orch e_log e_orch]. rewrite H3. destruct H6 as [H6 _]. split; [|done].
    cbn [pending Nat.b2n activated place] in H6 |- *. change (is_ready (empty_event now)) with true. cbn [Nat.b2n]. lia.
Qed.
Lemma ready_orch_delivery e l o f : ready_ok e → delivery e (e_orch e) l o f →
  ready_ok (set_orch f (record Main o e)).
Proof.
  intros Hr Hd. pose proof Hr as [_ _ _ H4 _ H6 H7 H8]. pose proof (delivery_place _ _ _ _ _ Hd) as Hp.
  rewrite orch_readies_eq in H6. pose proof (logged_delivery e (e_orch e) l o f Main false Hd) as Hl.
  pose proof (logged_delivery e (e_orch e) l o f Main true Hd) as Ht. cbn [of_run fst Bool.eqb] in Hl, Ht.
  set (e1 := record Main o e) in *.
  assert (e_ready e1 = e_ready e ∧ e_runs e1 = e_runs e ∧ e_watch e1 = e_watch e ∧ e_updates e1 = e_updates e
    ∧ logged true (e_log e1) = logged true (e_log e)) as (H1 & H2 & H3 & H5 & H9).
  { subst e1. destruct o; split_and!; try done. cbn [record e_log log_output]. rewrite logged_snoc. cbn. rewrite andb_false_r. cbn. lia. }
  apply (ready_frame e); cbn [set_orch e_ready e_runs e_log e_watch e_updates e_orch]; rewrite ?H1, ?H2, ?H3, ?H5, ?H9, ?Hp; auto with sessions.
  - unfold prepared. by rewrite Hp.
  - rewrite orch_readies_eq. cbn [set_orch e_log e_orch]. unfold activated in *. rewrite Hp. split; [lia|]. intros. apply H6. lia.
Qed.
Lemma ready_orch_step reg e l e' : ready_ok e → orch_step reg e l e' → ready_ok e'.
Proof.
  intros Hok Hs. pose proof Hok as [H1 H2 H3 H4 H5 H6 H7 H8].
  destruct Hs as [Ho|o answer Ho|msg now Ho|o sources w Ho|o sources w Ho|o sources w Ho|o w now Ho|o sources w Ho|Ho _|Ho _ _|Ho|Ho|now Ho|Ho|Ho|l o f Hd].
  - pose proof (begin_place reg (e_opts e)) as Hb. eapply (ready_orch_at e); eauto with sessions; destruct (begin_orchestration reg (e_opts e)); done.
  - pose proof (resolved_place reg o answer) as Hb. eapply (ready_orch_at e); eauto with sessions; destruct (resolved reg o answer); done.
  - eapply (ready_orch_at e); eauto with sessions; done.
  - eapply (ready_orch_at e); eauto with sessions; done.
  - by apply ready_prepare.
  - rewrite Ho in H4. cbn in H4. unfold transition. destruct (_ =? _); (eapply (ready_orch_at e); eauto with sessions; destruct sources; done).
  - rewrite Ho in H4. cbn in H4. apply (ready_activate e o w now); auto. 
  - eapply (ready_orch_at e); eauto with sessions; try done; unfold fan_out; try (by destruct w).
    + exists (map (λ s, new_run s o Fanned None Launching) sources). split; [by destruct w|]. apply Forall_map, Forall_true.
      intros s. apply fresh_new. by left.
    + destruct w; auto.
  - eapply (ready_orch_at e); eauto with sessions; done.
  - eapply (ready_orch_at e); eauto with sessions; done.
  - destruct (_ =? _); (eapply (ready_orch_at e); eauto with sessions; done).
  - eapply (ready_orch_at e); eauto with sessions; done.
  - destruct (e_canceled e); (eapply (ready_orch_at e); eauto with sessions; done).
  - eapply (ready_orch_at e); eauto with sessions; done.
  - eapply (ready_orch_at e); eauto with sessions; done.
  - by eapply ready_orch_delivery.
Qed.

(** The others never announce readiness. *)
Lemma ready_others e e' : ready_ok e → e_ready e' = e_ready e → e_orch e' = e_orch e →
  (∃ new, e_runs e' = e_runs e ++ new ∧ Forall fresh new) → (∀ b, logged b (e_log e') = logged b (e_log e)) →
  match e_watch e' with Some f => pending f = false | None => True end →
  Forall (λ f, pending f = false ∧ match place f with Announcing evs _ => Forall (λ ev, is_ready ev = false) evs | _ => True end)
    (e_updates e') → ready_ok e'.
Proof.
  intros Hr H1 H2 H3 H4 H5 H6. pose proof Hr as [_ _ _ A4 _ A6 _ _]. apply (ready_frame e); auto.
  - by rewrite H2.
  - by rewrite H2.
  - rewrite orch_readies_eq, H2, H4, <- orch_readies_eq. exact A6.
Qed.
Lemma other_delivery e {L} (f : flow L) l o f' w : delivery e f l o f' → pending f = false →
  let e1 := record w o e in
  pending f' = false ∧ (∀ b, logged b (e_log e1) = logged b (e_log e)) ∧ e_ready e1 = e_ready e ∧ e_orch e1 = e_orch e ∧ e_runs e1 = e_runs e
  ∧ e_watch e1 = e_watch e ∧ e_updates e1 = e_updates e.
Proof.
  intros Hd Hf e1. pose proof (delivered e f l o f' w Hd) as H. rewrite Hf in H. cbn [Nat.b2n] in H.
  split; [by destruct (pending f'); cbn in H; [lia|]|]. subst e1. destruct o as [ev|o|]; [done| |done]. split_and!; try done.
  intros b. cbn [record e_log log_output]. rewrite logged_snoc. destruct (ready_output (w, o)); cbn in H |- *; lia.
Qed.
Lemma ready_watch_step e l e' : ready_ok e → watch_step e l e' → ready_ok e'.
Proof.
  intros Hr Hs. pose proof Hr as [_ _ _ _ _ _ H7 H8].
  destruct Hs as [Hw|s Hw|s Hw|s Hw|s k now Hw|s k Hw|s Hw|s now Hw|w l o f Hw Hd]; try (apply (ready_others e); auto with sessions; done).
  - unfold registerSourceCtx. destruct (sourceCtxs (e_sources e) !! src_ID s); (apply (ready_others e); auto with sessions; done).
  - apply (ready_others e); auto; try done. eexists. split; [done|]. apply Forall_singleton, fresh_new. by right.
  - unfold cancel_source. destruct (sourceCtxs (e_sources e) !! src_ID s); (apply (ready_others e); auto with sessions; done).
  - rewrite Hw in H7. destruct (other_delivery e w l o f Watcher Hd H7) as (D1 & D2 & D3 & D4 & D5 & D6 & D7).
    apply (ready_others e); cbn [set_watch e_ready e_orch e_runs e_log e_watch e_updates]; rewrite ?D3, ?D4, ?D5, ?D7; auto with sessions.
Qed.
Lemma disabled_frame ids e : let e' := foldl (λ e id, unregister id (cancel_source id e)) e ids in
  e_ready e' = e_ready e ∧ e_orch e' = e_orch e ∧ e_runs e' = e_runs e ∧ e_log e' = e_log e ∧ e_watch e' = e_watch e ∧ e_updates e' = e_updates e.
Proof.
  cbn zeta. revert e. induction ids as [|id ids IH]; intros e; [done|]. cbn [foldl].
  destruct (IH (unregister id (cancel_source id e))) as (-> & -> & -> & -> & -> & ->). unfold cancel_source.
  by destruct (sourceCtxs (e_sources e) !! id).
Qed.
Lemma disabled_done ids e : e_done (foldl (λ e id, unregister id (cancel_source id e)) e ids) = e_done e.
Proof. revert e. induction ids as [|id ids IH]; intros e; [done|]. cbn [foldl]. rewrite IH. unfold cancel_source. by destruct (sourceCtxs _ !! id). Qed.
Lemma ready_update_step reg i e u l e' : ready_ok e → e_updates e !! i = Some u → update_step reg i e u l e' → ready_ok e'.
Proof.
  intros Hr Hi Hs. pose proof Hr as [_ _ _ _ _ _ H7 H8]. pose proof (Forall_lookup_1 _ _ _ _ H8 Hi) as [Hu Hus].
  destruct Hs as [o|s keys now Hk|ev evs restart|restart|restart|o s rest now|o|u l o f Hd].
  - apply (ready_others e); auto with sessions; try done. apply Forall_insert; [done|]. split; [done|]. cbn. unfold after_options. by repeat case_match.
  - unfold updateEnabledSources. set (off := filter _ keys). destruct (disabled_frame off e) as (D1 & D2 & D3 & D4 & D5 & D6).
    apply (ready_others e); cbn [set_update set_updates e_ready e_orch e_runs e_log e_watch e_updates];
      rewrite ?D1, ?D2, ?D3, ?D4, ?D5, ?D6; auto with sessions.
    apply Forall_insert; [done|]. split; [done|]. cbn. apply Forall_map, Forall_true. done.
  - cbn in Hus. apply Forall_cons in Hus as [Hev Hus]. apply (ready_others e); auto with sessions; try done. apply Forall_insert; [done|]. done.
  - apply (ready_others e); auto with sessions; try done. by apply Forall_insert.
  - apply (ready_others e); auto with sessions; try done. apply Forall_insert; [done|]. split; [done|]. cbn. by destruct (restart_handler _ _).
  - apply (ready_others e); auto with sessions; try done.
    + eexists. split; [done|]. apply Forall_singleton, fresh_new. by left.
    + by apply Forall_insert.
  - apply (ready_others e); auto with sessions; try done. by apply Forall_insert.
  - destruct (other_delivery e u l o f (Updater i) Hd Hu) as (D1 & D2 & D3 & D4 & D5 & D6 & D7). pose proof (delivery_place _ _ _ _ _ Hd) as Hp.
    apply (ready_others e); cbn [set_update set_updates e_ready e_orch e_runs e_log e_watch e_updates]; rewrite ?D3, ?D4, ?D5, ?D6, ?D7;
      auto with sessions. apply Forall_insert; [done|]. split; [done|]. by rewrite Hp.
Qed.
Lemma ready_ok_of reg e : session_of reg e → ready_ok e.
Proof.
  induction 1 as [s o c|e l e' H IH Hs|e e' H IH Hs].
  - split; cbn; try done. intros _. exists ∅. split; cbn; try done; try set_solver. constructor.
  - pose proof (runs_ok_of reg e H) as Hruns. destruct Hs as [k r l e' Hk Hs|l e' Hs|l e' Hs|i u l e' Hi Hs|i x rest Hi].
    + eapply ready_run_step; eauto. by apply runs_each.
    + by eapply ready_orch_step.
    + by eapply ready_watch_step.
    + by eapply ready_update_step.
    + pose proof IH as [_ _ _ _ _ _ H7 H8]. by destruct x; apply (ready_others e); auto with sessions.
  - pose proof IH as [_ _ _ _ _ _ H7 H8]. destruct Hs; apply (ready_others e); auto with sessions.
    apply Forall_app. split; [done|]. by apply Forall_singleton.
Qed.
