(* ===== verification/LogEnd.v ===== *)
(** * The end of a log session

    What the counters of readiness say of the sources, and what is over when a
    session is. *)
From S2P Require Import Prelude GoStd GoTime Errors Values Json Domain Source Messages LogTypes LogLines LogSession LogSources LogReady.
Local Open Scope Z_scope.

(** *** Which sources are counted *)

Definition connected (e : entry) (r : run) : Prop := (0 < r_opens r)%nat ∨ ctx_done e r = true.
(** Dropped because it was cancelled. *)
Definition dropped (l : loc) : bool :=
  match l with Dropping | DroppingHeld | Marking _ Finished | Marking _ Releasing => true | _ => false end.
Definition drop_ok (e : entry) (r : run) : Prop :=
  (dropped (place (r_at r)) = true → ctx_done e r = true) ∧ (place (r_at r) = Launching → r_ctx r = None).
Record seen_ok (e : entry) : Prop := mkSeenOk {
  seen_dropped : ∀ k r, e_runs e !! k = Some r → drop_ok e r;
  seen_set : ∀ id, id ∈ readySet (e_ready e) → ∃ k r, e_runs e !! k = Some r ∧ id_of r = id ∧ connected e r
}.
(** What a step keeps of its goroutine. *)
Record goes (k : nat) (e e' : entry) (r r' : run) : Prop := mkGoes {
  goes_runs : e_runs e' = <[k := r']> (e_runs e);
  goes_id : id_of r' = id_of r;
  goes_origin : r_origin r' = r_origin r;
  goes_opens : (r_opens r ≤ r_opens r')%nat;
  goes_done : ctx_done e r = true → ctx_done e' r' = true;
  goes_drop : drop_ok e' r';
  goes_set : ∀ id, id ∈ readySet (e_ready e') → id ∈ readySet (e_ready e) ∨ id = id_of r ∧ connected e' r';
  goes_rest : e_orch e' = e_orch e ∧ e_watch e' = e_watch e ∧ e_done e' = e_done e;
  goes_open : over (r_at r) = false
}.
Lemma goes_put k e e0 r r' : over (r_at r) = false → e_runs e0 = e_runs e → readySet (e_ready e0) = readySet (e_ready e) →
  (∀ x, ctx_done e x = true → ctx_done e0 x = true) → e_orch e0 = e_orch e → e_watch e0 = e_watch e → e_done e0 = e_done e →
  id_of r' = id_of r → r_origin r' = r_origin r → r_ctx r' = r_ctx r → (r_opens r ≤ r_opens r')%nat →
  (dropped (place (r_at r')) = true → dropped (place (r_at r)) = true ∨ ctx_done e r = true) →
  (place (r_at r') = Launching → place (r_at r) = Launching) → drop_ok e r → goes k e (put_run k r' e0) r r'.
Proof.
  intros Hov Hr Hset Hd Ho Hw Hdn Hid Hor Hctx Hop Hdr Hl [Hok Hok'].
  assert (∀ x, ctx_done (put_run k r' e0) x = ctx_done e0 x) as Heq by done.
  assert (∀ f, ctx_done f r' = ctx_done f r) as Hc by (intros f; unfold ctx_done; by rewrite Hctx).
  split; cbn [put_run set_runs e_runs e_ready e_orch e_watch e_done]; auto.
  - by rewrite Hr.
  - rewrite Heq, Hc. apply Hd.
  - split; [|rewrite Hctx; auto]. intros H. rewrite Heq, Hc. apply Hd. destruct (Hdr H); [by apply Hok|done].
  - intros id Hin. left. by rewrite Hset in Hin.
Qed.
Ltac going Hat := apply goes_put; auto; cbn; rewrite ?Hat; try done; try lia; try (by intros; left).

Lemma registered_done e id e' k x : registerSourceCtx id e = Some (e', k) → ctx_done e x = true → ctx_done e' x = true.
Proof. intros H. by apply (quiet_keeps _ _ (quiet_register e id e' k H)). Qed.
Lemma mark_run_inv now m next e r e1 r1 : mark_run now m next e r = (e1, r1) →
  (∃ f, r1 = at_flow f r ∧ (place f = next ∨ ∃ m', place f = Marking m' next))
  ∧ e_runs e1 = e_runs e ∧ (∀ x, ctx_done e1 x = ctx_done e x) ∧ e_orch e1 = e_orch e ∧ e_watch e1 = e_watch e ∧ e_done e1 = e_done e
  ∧ ∀ id, id ∈ readySet (e_ready e1) → id ∈ readySet (e_ready e) ∨ id = id_of r.
Proof.
  unfold mark_run, mark, becomes_ready, transition. intros Hm.
  destruct m; repeat case_match; simplify_eq/=; (split; [eexists; split; [done|]; cbn; eauto|]); split_and!; try done; cbn; set_solver.
Qed.
Lemma mark_goes k e r m next now e1 r1 : run_ok e k r → drop_ok e r → r_at r = At (Marking m next) → mark_run now m next e r = (e1, r1) →
  goes k e (put_run k r1 e1) r r1.
Proof.
  intros Hok Hdr Hat Hm. pose proof (marking_next _ _ _ _ _ Hok Hat) as Hplain. pose proof (run_counts _ _ _ Hok) as Hc.
  rewrite Hat in Hc. destruct Hdr as [Hdr _]. rewrite Hat in Hdr. cbn [place] in Hc, Hdr.
  destruct (mark_run_inv _ _ _ _ _ _ _ Hm) as ((f & -> & Hf) & Hr & Hd & Ho & Hw & Hdn & Hset).
  assert (∀ x, ctx_done (put_run k (at_flow f r) e1) x = ctx_done e x) as Hd' by exact Hd.
  assert (connected e r) as Hcon.
  { unfold connected. destruct next; try done; cbn in Hc; [left; lia|right; by apply Hdr..]. }
  split; cbn [put_run set_runs e_runs e_ready e_orch e_watch e_done]; auto.
  - by rewrite Hr.
  - rewrite Hd'. done.
  - split; cbn [at_flow r_at]; [|by destruct Hf as [->|[m' ->]]; destruct next].
    rewrite Hd'. intros H. apply Hdr. destruct Hf as [Hf|[m' Hf]]; rewrite Hf in H; [by destruct next|done].
  - intros id Hin. destruct (Hset id Hin) as [?| ->]; [by left|right]. split; [done|]. unfold connected. by rewrite Hd'.
  - by rewrite Hat.
Qed.
Lemma goes_step k e r l e' : run_ok e k r → drop_ok e r → run_step k e r l e' → ∃ r', goes k e e' r r'.
Proof.
  intros Hok Hdr Hs. destruct Hs as [Hat|Hat Hb|Hat Hd|Hat|Hat|Hat|now Hat|now Hat|Hat Hd|Hat|now reader Hat|Hat|now m next Hat|line Hat Hb
    |retry Hat|line Hat|line Hat|li Hat|li Hat Hd|retry Hat|retry Hat|now Hat|Hat|Hat|l o f Hdel];
    try (assert (over (r_at r) = false) as Hov by (by rewrite Hat)).
  - unfold launch. destruct (registerSourceCtx (id_of r) e) as [[e1 k1]|] eqn:E; [|by eexists; going Hat].
    exists (go Queued (with_ctx k1 r)). pose proof (proj2 Hdr) as Hctx. rewrite Hat in Hctx. specialize (Hctx eq_refl).
    assert (ctx_done e r = true → e_canceled e = true) as Hcan by (unfold ctx_done; rewrite Hctx, orb_false_r; done).
    unfold registerSourceCtx in E. destruct (sourceCtxs _ !! _); [done|]. injection E as <- <-.
    split; auto; try done; cbn; try lia; try (by left).
    intros H%Hcan. unfold ctx_done. cbn. by rewrite H.
  - eexists; going Hat.
  - eexists; going Hat.
  - eexists; going Hat.
  - eexists; going Hat; destruct (ctx_done e r); try done; auto.
  - eexists; going Hat.
  - eexists; going Hat; by destruct (IncludeSourceEvents _).
  - unfold turn. repeat case_match; eexists; going Hat.
  - eexists; going Hat.
  - eexists; going Hat.
  - unfold open_source. repeat case_match; eexists; going Hat.
  - destruct (ctx_done e r) eqn:Ed; eexists; going Hat.
  - destruct (mark_run now m next e r) as [e1 r1] eqn:E. exists r1. by eapply mark_goes.
  - eexists; going Hat.
  - eexists; going Hat.
  - destruct (ctx_done e r) eqn:Ed; eexists; going Hat.
  - destruct (status e =? LogSessionStatusPaused); eexists; going Hat.
  - eexists; going Hat.
  - eexists; going Hat.
  - eexists; going Hat.
  - destruct (ctx_done e r || negb retry) eqn:Ed; eexists; going Hat.
  - unfold exhausted. destruct (ctx_done e r) eqn:Ed; eexists; going Hat.
  - eexists; going Hat.
  - eexists; going Hat.
  - pose proof (delivery_place _ _ _ _ _ Hdel) as Hp. exists (at_flow f r).
    apply goes_put; auto; cbn [at_flow r_at]; rewrite ?Hp; auto; try (by destruct o). by destruct Hdel.
Qed.

(** Steps of the others, for the goroutines of sources. *)
Definition unstarted (r : run) : Prop := dropped (place (r_at r)) = false ∧ (place (r_at r) = Launching → r_ctx r = None).
Record aside (e e' : entry) : Prop := mkAside {
  aside_runs : ∃ new, e_runs e' = e_runs e ++ new ∧ Forall unstarted new;
  aside_done : ∀ r, ctx_done e r = true → ctx_done e' r = true;
  aside_set : readySet (e_ready e') = readySet (e_ready e)
}.
Lemma aside_of e e' : quiet e e' → readySet (e_ready e') = readySet (e_ready e) →
  (∃ new, e_runs e' = e_runs e ++ new ∧ Forall unstarted new) → aside e e'.
Proof. intros Hq Hs Hr. split; [done|apply Hq|done]. Qed.
Lemma no_runs (rs : list run) : ∃ new, rs = rs ++ new ∧ Forall unstarted new.
Proof. exists []. by rewrite app_nil_r. Qed.
#[local] Hint Resolve no_runs : sessions.
Lemma orch_aside reg e l e' : orch_step reg e l e' → aside e e'.
Proof.
  intros Hs. apply aside_of; [by eapply orch_quiet|..].
  all: destruct Hs as [Ho|o answer Ho|msg now Ho|o sources w Ho|o sources w Ho|o sources w Ho|o w now Ho|o sources w Ho|Ho _|Ho _ _|Ho|Ho|now Ho|Ho|Ho|l o f Hd];
    unfold fan_out, transition, record; repeat case_match; auto with sessions.
  all: exists (map (λ s, new_run s o Fanned None Launching) sources); split; [done|]; by apply Forall_map, Forall_true.
Qed.
Lemma watch_aside e l e' : watch_step e l e' → aside e e'.
Proof.
  intros Hs. apply aside_of; [by eapply watch_quiet|..].
  all: destruct Hs as [Hw|s Hw|s Hw|s Hw|s k now Hw|s k Hw|s Hw|s now Hw|w l o f Hw Hd]; unfold registerSourceCtx, cancel_source, record;
    repeat case_match; simplify_eq/=; auto with sessions.
  eexists. split; [done|]. by apply Forall_singleton.
Qed.
Lemma update_aside reg i e u l e' : update_step reg i e u l e' → aside e e'.
Proof.
  intros Hs. apply aside_of; [by eapply update_quiet|..].
  all: destruct Hs as [o|s keys now Hk|ev evs restart|restart|restart|o s rest now|o|u l o f Hd]; auto with sessions; try (by destruct o; auto with sessions).
  - unfold updateEnabledSources. set (off := filter _ keys). destruct (disabled_frame off e) as (D1 & _). cbn. by rewrite D1.
  - unfold updateEnabledSources. set (off := filter _ keys). destruct (disabled_frame off e) as (_ & _ & D3 & _). cbn. rewrite D3. apply no_runs.
  - eexists. split; [done|]. by apply Forall_singleton.
Qed.
Lemma outside_aside e e' : outside_step e e' → aside e e'.
Proof. intros Hs. apply aside_of; [by apply outside_quiet|..]; destruct Hs; auto with sessions. Qed.
Lemma order_aside x os e : aside e (follow_order x (set_orders os e)).
Proof. by split; destruct x; auto with sessions. Qed.

Lemma seen_aside e e' : aside e e' → seen_ok e → seen_ok e'.
Proof.
  intros [(new & Hr & Hn) Hd Hs] [H1 H2]. split.
  - intros k r. rewrite Hr, lookup_app_Some. intros [Hk|[_ Hk]].
    + destruct (H1 k r Hk). by split; auto.
    + destruct (Forall_lookup_1 _ _ _ _ Hn Hk) as [Hdr Hl]. split; [by rewrite Hdr|done].
  - intros id. rewrite Hs. intros (k & r & Hk & Hid & Hc)%H2. exists k, r. rewrite Hr. split_and!; [by apply lookup_app_l_Some|done|].
    destruct Hc; [by left|right; auto].
Qed.
Lemma seen_goes k e e' r r' : e_runs e !! k = Some r → keeps e e' → goes k e e' r r' → seen_ok e → seen_ok e'.
Proof.
  intros Hk [_ Hkeep] [G1 G2 G3 G4 G5 G6 G7 _ _] [H1 H2]. assert (k < length (e_runs e))%nat as Hlt by (by eapply lookup_lt_Some).
  split.
  - intros j x. rewrite G1. destruct (decide (j = k)) as [->|Hj].
    + rewrite list_lookup_insert_eq by done. by intros [= <-].
    + rewrite list_lookup_insert_ne by done. intros Hx. destruct (H1 j x Hx). split; auto.
  - assert (connected e r → connected e' r') as Hcr by (intros [?|?]; [left; lia|right; auto]).
    intros id [Hin|[-> Hc]]%G7; [|exists k, r'; rewrite G1, list_lookup_insert_eq by done; auto].
    destruct (H2 id Hin) as (j & x & Hx & Hid & Hc). destruct (decide (j = k)) as [->|Hj].
    + exists k, r'. rewrite G1, list_lookup_insert_eq by done. simplify_eq. auto.
    + exists j, x. rewrite G1, list_lookup_insert_ne by done. split_and!; auto. destruct Hc; [by left|right; auto].
Qed.
Lemma goes_of reg e k r l e' : session_of reg e → seen_ok e → e_runs e !! k = Some r → run_step k e r l e' →
  ∃ r', goes k e e' r r' ∧ keeps e e'.
Proof.
  intros H Hok Hk Hs. pose proof (runs_ok_of reg e H) as Hruns. pose proof (runs_each _ Hruns k r Hk) as Hr.
  destruct (goes_step k e r l e' Hr (seen_dropped _ Hok k r Hk) Hs) as [r' Hg]. exists r'. split; [done|].
  assert (held r ≤ sourceSem (e_sources e))%nat as Hsem.
  { rewrite (runs_sem _ Hruns). apply sum_list_with_in, (list_elem_of_lookup_2 _ _ _ Hk). }
  destruct (run_moved k e r l e' Hr Hsem Hs) as [r1 Hm]. apply Hm.
Qed.
Lemma seen_ok_of reg e : session_of reg e → seen_ok e.
Proof.
  induction 1 as [s o c|e l e' H IH Hs|e e' H IH Hs].
  - split; cbn; [done|set_solver].
  - destruct Hs as [k r l e' Hk Hs|l e' Hs|l e' Hs|i u l e' Hi Hs|i x rest Hi].
    + destruct (goes_of reg e k r l e' H IH Hk Hs) as (r' & Hg & Hke). by apply (seen_goes k e e' r r').
    + eapply seen_aside, IH. by eapply orch_aside.
    + eapply seen_aside, IH. by eapply watch_aside.
    + eapply seen_aside, IH. by eapply update_aside.
    + eapply seen_aside, IH. apply order_aside.
  - eapply seen_aside, IH. by apply outside_aside.
Qed.

(** *** What is over at the end *)

(** Re-enabled after the session waited for its goroutines. *)
Definition late (r : run) : bool := match r_origin r with Reenabled b => b | _ => false end.
Definition unfanned (l : oloc) : bool :=
  match l with
  | Beginning | Resolving _ | Failing _ | Preparing _ _ _ | Counted _ _ _ | Transitioning _ _ _ | Activating _ _ | Fanning _ _ _ => true
  | _ => false
  end.
Definition joined (l : oloc) : bool :=
  match l with Draining | Settling | Settled | Ending | Finishing | Returning | Gone => true | _ => false end.
Definition drained (l : oloc) : bool :=
  match l with Settling | Settled | Ending | Finishing | Returning | Gone => true | _ => false end.
(** [finalizeSession] is over. *)
Definition returned (l : oloc) : bool := match l with Returning | Gone => true | _ => false end.
Definition fanned_over (rs : list run) : Prop := Forall (λ r, fanned r = true → over (r_at r) = true) rs.
Definition early_over (rs : list run) : Prop := Forall (λ r, late r = false → over (r_at r) = true) rs.
Record drain_ok (e : entry) : Prop := mkDrainOk {
  drain_flow : draining_over (e_orch e) = drained (place (e_orch e));
  drain_early : unfanned (place (e_orch e)) = true →
    e_watch e = None ∧ Forall (λ r, match r_origin r with Reenabled _ => True | _ => False end) (e_runs e);
  drain_joined : joined (place (e_orch e)) = true → fanned_over (e_runs e);
  drain_over : drained (place (e_orch e)) = true → watched_over e = true ∧ early_over (e_runs e);
  drain_done : e_done e = true → drained (place (e_orch e)) = true;
  drain_returned : returned (place (e_orch e)) = true → e_done e = true
}.
Lemma drain_delivery e (f : flow oloc) l o f' : delivery e f l o f' → draining_over f = drained (place f) → draining_over f' = drained (place f').
Proof. by destruct 1 as [ev x [t|]|ev t x|ev t x]; destruct x. Qed.

Lemma drain_goes k e e' r r' : e_runs e !! k = Some r → goes k e e' r r' → drain_ok e → drain_ok e'.
Proof.
  intros Hk [G1 G2 G3 _ _ _ _ (Go & Gw & Gd) Gov] [D1 D2 D3 D4 D5 D6].
  assert (∀ P : run → Prop, Forall P (e_runs e) → (P r → P r') → Forall P (e_runs e')) as HP.
  { intros P HF Hi. rewrite G1. apply Forall_insert; [done|]. apply Hi. by eapply Forall_lookup_1. }
  split; rewrite ?Go, ?Gd; auto.
  - intros He. destruct (D2 He) as [Hw HF]. rewrite Gw. split; [done|]. apply HP; [done|]. by rewrite G3.
  - intros He. apply HP; [by apply D3|]. unfold fanned. rewrite G3. intros Hf Ho. specialize (Hf Ho). congruence.
  - intros He. destruct (D4 He) as [Hw HF]. unfold watched_over in *. rewrite Gw. split; [done|]. apply HP; [done|].
    unfold late. rewrite G3. intros Hf Ho. specialize (Hf Ho). congruence.
Qed.
(** Steps that leave the goroutines of sources, and where the session is. *)
Lemma drain_same e e' : e_orch e' = e_orch e → e_watch e' = e_watch e → e_runs e' = e_runs e → e_done e' = e_done e → drain_ok e → drain_ok e'.
Proof. intros Ho Hw Hr Hd []. by split; unfold watched_over in *; rewrite ?Ho, ?Hw, ?Hr, ?Hd. Qed.
Lemma drain_watching e e' : watched_over e = false → e_orch e' = e_orch e → e_watch e ≠ None → e_done e' = e_done e →
  (∃ new, e_runs e' = e_runs e ++ new ∧ Forall (λ r, fanned r = false) new) → drain_ok e → drain_ok e'.
Proof.
  intros Hw Ho Hnone Hd (new & Hr & Hn) [D1 D2 D3 D4 D5 D6]. split; rewrite ?Ho, ?Hd; auto.
  - intros He. by destruct (D2 He).
  - intros He. unfold fanned_over. rewrite Hr. apply Forall_app. split; [by apply D3|]. eapply Forall_impl; [exact Hn|]. cbn. congruence.
  - intros He. destruct (D4 He). congruence.
Qed.
Lemma drain_orch e e' : drain_ok e → e_runs e' = e_runs e → e_watch e' = e_watch e → draining_over (e_orch e') = drained (place (e_orch e')) →
  (unfanned (place (e_orch e')) = true → unfanned (place (e_orch e)) = true) →
  (joined (place (e_orch e')) = true → joined (place (e_orch e)) = true ∨ fanned_over (e_runs e)) →
  (drained (place (e_orch e')) = true → drained (place (e_orch e)) = true ∨ watched_over e = true ∧ early_over (e_runs e)) →
  (e_done e' = true → e_done e = true ∨ drained (place (e_orch e')) = true) →
  (drained (place (e_orch e)) = true → drained (place (e_orch e')) = true) →
  (returned (place (e_orch e')) = true → e_done e' = true ∨ returned (place (e_orch e)) = true ∧ e_done e' = e_done e) → drain_ok e'.
Proof.
  intros [D1 D2 D3 D4 D5 D6] Hr Hw Hf Hu Hj Hd Hdn Hmono Hret.
  split; [done|rewrite Hr; unfold watched_over in *; rewrite ?Hw..| |].
  - auto.
  - intros He. destruct (Hj He); auto.
  - intros He. destruct (Hd He); auto.
  - intros He. destruct (Hdn He); auto.
  - intros He. destruct (Hret He) as [?|[? ->]]; auto.
Qed.
Lemma reenabled_not_fanned rs : Forall (λ r, match r_origin r with Reenabled _ => True | _ => False end) rs → fanned_over rs.
Proof. intros H. eapply Forall_impl; [exact H|]. intros r. unfold fanned. by destruct (r_origin r). Qed.
Lemma drain_orch_step reg e l e' : drain_ok e → orch_step reg e l e' → drain_ok e'.
Proof.
  intros Hok Hs. pose proof Hok as [D1 D2 D3 D4 D5 D6].
  destruct Hs as [Ho|o answer Ho|msg now Ho|o sources w Ho|o sources w Ho|o sources w Ho|o w now Ho|o sources w Ho|Ho Hover|Ho Hw Hover|Ho|Ho|now Ho|Ho|Ho|l o f Hd];
    rewrite ?Ho in *.
  - pose proof (begin_place reg (e_opts e)). destruct (begin_orchestration reg (e_opts e)); try done; apply (drain_orch e); rewrite ?Ho; auto; done.
  - pose proof (resolved_place reg o answer). destruct (resolved reg o answer); try done; apply (drain_orch e); rewrite ?Ho; auto; done.
  - apply (drain_orch e); rewrite ?Ho; auto; try done. intros _. right. apply reenabled_not_fanned. by apply D2.
  - apply (drain_orch e); rewrite ?Ho; auto; done.
  - apply (drain_orch e); rewrite ?Ho; auto; done.
  - destruct sources; unfold transition; destruct (_ =? _); apply (drain_orch e); rewrite ?Ho; auto; done.
  - unfold transition; destruct (_ =? _); apply (drain_orch e); rewrite ?Ho; auto; done.
  - split; unfold fan_out; cbn; try done. by destruct w.
  - apply (drain_orch e); rewrite ?Ho; auto; done.
  - apply (drain_orch e); rewrite ?Ho; auto; try done. intros _. right. split; [done|]. specialize (D3 eq_refl).
    apply Forall_forall. intros r Hr _. unfold fanned_over in D3. rewrite Forall_forall in D3, Hover. destruct (fanned r) eqn:Ef; auto.
  - destruct (_ =? _); apply (drain_orch e); rewrite ?Ho; auto; done.
  - apply (drain_orch e); rewrite ?Ho; auto; done.
  - destruct (e_canceled e); apply (drain_orch e); rewrite ?Ho; auto; done.
  - apply (drain_orch e); rewrite ?Ho; auto; done.
  - apply (drain_orch e); rewrite ?Ho; auto; done.
  - pose proof (delivery_place _ _ _ _ _ Hd) as Hp. pose proof (drain_delivery _ _ _ _ _ Hd D1) as Hf. rewrite Hp in Hf.
    apply (drain_orch e); cbn [set_orch e_runs e_watch e_orch e_done]; rewrite ?Hp; auto; destruct o; auto.
Qed.
Lemma drain_watch_step e l e' : drain_ok e → watch_step e l e' → drain_ok e'.
Proof.
  intros Hok Hs. destruct Hs as [Hw|s Hw|s Hw|s Hw|s k now Hw|s k Hw|s Hw|s now Hw|w l o f Hw Hd].
  - pose proof Hok as [D1 D2 D3 D4 D5 D6]. split; cbn; auto.
    + intros He. destruct (D2 He). congruence.
    + intros He. split; [done|]. by apply D4.
  - apply (drain_watching e); rewrite ?Hw; auto; try done; [by unfold watched_over; rewrite Hw|exists []; by rewrite app_nil_r].
  - apply (drain_watching e); rewrite ?Hw; auto; try done; [by unfold watched_over; rewrite Hw|exists []; by rewrite app_nil_r].
  - assert (watched_over e = false) by (by unfold watched_over; rewrite Hw).
    unfold registerSourceCtx. destruct (sourceCtxs (e_sources e) !! src_ID s); (apply (drain_watching e); rewrite ?Hw; auto; try done;
      exists []; by rewrite app_nil_r).
  - apply (drain_watching e); rewrite ?Hw; auto; try done; [by unfold watched_over; rewrite Hw|exists []; by rewrite app_nil_r].
  - apply (drain_watching e); rewrite ?Hw; auto; try done; [by unfold watched_over; rewrite Hw|].
    eexists. split; [done|]. by apply Forall_singleton.
  - assert (watched_over e = false) by (by unfold watched_over; rewrite Hw).
    unfold cancel_source. destruct (sourceCtxs (e_sources e) !! src_ID s); (apply (drain_watching e); rewrite ?Hw; auto; try done;
      exists []; by rewrite app_nil_r).
  - apply (drain_watching e); rewrite ?Hw; auto; try done; [by unfold watched_over; rewrite Hw|exists []; by rewrite app_nil_r].
  - assert (watched_over e = false) by (unfold watched_over; rewrite Hw; by destruct Hd).
    apply (drain_watching e); rewrite ?Hw; auto; try done; try (by destruct o). destruct o; exists []; by rewrite app_nil_r.
Qed.
Lemma drain_reenabled e r : r_origin r = Reenabled (draining_over (e_orch e)) → drain_ok e → drain_ok (spawn [r] e).
Proof.
  intros Hr [D1 D2 D3 D4 D5 D6]. rewrite D1 in Hr. split; cbn [spawn set_runs e_orch e_watch e_runs e_done]; auto.
  - intros He. destruct (D2 He). split; [done|]. apply Forall_app. split; [done|]. apply Forall_singleton. by rewrite Hr.
  - intros He. apply Forall_app. split; [by apply D3|]. apply Forall_singleton. unfold fanned. by rewrite Hr.
  - intros He. destruct (D4 He). split; [done|]. apply Forall_app. split; [done|]. apply Forall_singleton. unfold late. rewrite Hr, He. done.
Qed.
Lemma drain_update_step reg i e u l e' : drain_ok e → update_step reg i e u l e' → drain_ok e'.
Proof.
  intros Hok Hs. destruct Hs as [o|s keys now Hk|ev evs restart|restart|restart|o s rest now|o|u l o f Hd].
  2: { unfold updateEnabledSources. set (off := filter _ keys). destruct (disabled_frame off e) as (_ & D2 & D3 & _ & D5 & _).
       apply (drain_same e); auto. cbn. by rewrite disabled_done. }
  5: { apply (drain_same (spawn [new_run s o (Reenabled (draining_over (e_orch e))) None Launching] e)); try done. by apply drain_reenabled. }
  all: apply (drain_same e); auto; by destruct o.
Qed.
Lemma drain_ok_of reg e : session_of reg e → drain_ok e.
Proof.
  intros H. induction H as [s o c|e l e' H IH Hs|e e' H IH Hs].
  - by split; cbn.
  - destruct Hs as [k r l e' Hk Hs|l e' Hs|l e' Hs|i u l e' Hi Hs|i x rest Hi].
    + destruct (goes_of reg e k r l e' H (seen_ok_of reg e H) Hk Hs) as (r' & Hg & _). by apply (drain_goes k e e' r r').
    + by eapply drain_orch_step.
    + by eapply drain_watch_step.
    + by eapply drain_update_step.
    + apply (drain_same e); by destruct x.
  - by destruct Hs; apply (drain_same e).
Qed.

(** ** Readiness and the end *)

Lemma logged_split log : length (filter (λ x, ready_output x = true) log) = (logged true log + logged false log)%nat.
Proof.
  unfold logged. induction log as [|x log IH]; [done|]. rewrite !filter_cons.
  destruct (ready_output x), (of_run x); cbn; repeat case_decide; try done; cbn; rewrite IH; lia.
Qed.

(** C37: A session announces that it is ready at most once. When it had sources, it
    does so only after as many different sources of its initial ones as it counted
    beforehand were each opened, or were cancelled. *)
Theorem session_ready reg e : session_of reg e →
  let n := length (filter (λ x, ready_output x = true) (e_log e)) in
  (n ≤ 1)%nat
  ∧ (n = 1%nat → initialSourceIDs (e_ready e) = ∅
     ∨ ∃ seen : gset string, seen ⊆ initialSourceIDs (e_ready e) ∧ totalSources (e_ready e) ≤ Z.of_nat (size seen)
       ∧ ∀ id, id ∈ seen → ∃ k r, e_runs e !! k = Some r ∧ id_of r = id ∧ connected e r).
Proof.
  intros H n. pose proof (ready_ok_of reg e H) as [_ H2 _ _ H5 H6 _ _]. destruct (seen_ok_of reg e H) as [_ Hseen].
  rewrite run_readies_eq in H5. rewrite orch_readies_eq in H6. subst n. rewrite logged_split.
  destruct (readied (e_ready e)) eqn:Er; cbn [Nat.b2n] in H5.
  - destruct (H2 eq_refl) as [Hle Hne]. destruct H6 as [_ H6].
    assert (logged false (e_log e) = 0%nat) as Hz by (destruct (decide (logged false (e_log e) = 0%nat)); [done|exfalso; apply Hne, H6; lia]).
    split; [lia|]. intros _. right. exists (readySet (e_ready e) ∩ initialSourceIDs (e_ready e)). split_and!; [set_solver|done|].
    intros id Hid. apply Hseen. set_solver.
  - destruct H6 as [Hle H6]. assert (Nat.b2n (activated (e_orch e)) ≤ 1)%nat by (destruct (activated _); cbn; lia).
    split; [lia|]. intros Hn. left. apply H6. lia.
Qed.

(** When a session is done, its watcher and all its source goroutines are over,
    those of sources it added or re-enabled included; only a source re-enabled
    after the session had waited for them can still run. *)
Theorem session_over reg e : session_of reg e → e_done e = true →
  drained (place (e_orch e)) = true ∧ watched_over e = true
  ∧ ∀ k r, e_runs e !! k = Some r → r_at r = At Finished ∨ r_origin r = Reenabled true.
Proof.
  intros H Hd. pose proof (drain_ok_of reg e H) as [_ _ _ H4 H5 _]. specialize (H5 Hd). destruct (H4 H5) as [Hw Hr].
  split_and!; [done..|]. intros k r Hk. pose proof (Forall_lookup_1 _ _ _ _ Hr Hk) as Hl. cbn in Hl.
  destruct (late r) eqn:El; [right|left].
  - unfold late in El. by destruct (r_origin r) as [| |[]].
  - specialize (Hl eq_refl). unfold over in Hl. by destruct (r_at r) as [[]| |].
Qed.

(** ** Concrete runs *)

(** One way an update can go on. *)
Definition advance_update (reg : handlerRegistry) (now : Time) (i : nat) (e : entry) : entry :=
  match e_updates e !! i with
  | Some (At (Setting o)) => set_update i (At (after_options o)) (set_options o e)
  | Some (At (Enabling s)) =>
    let '(e, (evs, restart)) := updateEnabledSources s (map fst (map_to_list (sourceCtxs (e_sources e)))) now e in
    set_update i (At (Announcing evs restart)) e
  | Some (At (Announcing (ev :: evs) restart)) => set_update i (Emit ev (Announcing evs restart)) e
  | Some (At (Announcing [] restart)) => set_update i (At (Reopening restart)) e
  | Some (At (Reopening restart)) =>
    set_update i (At (if restart_handler reg (e_opts e) then Restarting (e_opts e) restart else Updated)) e
  | Some (At (Restarting o (s :: rest))) =>
    set_update i (Emit (event StreamEventSourceAdded (src_ID s) ("Source re-enabled: " +:+ src_ID s) now) (Restarting o rest))
      (spawn [new_run s o (Reenabled (draining_over (e_orch e))) None Launching] e)
  | Some (At (Restarting o [])) => set_update i (At Updated) e
  | Some (Emit ev l) => set_update i (Deliver ev 0%nat l) (log_asked (Updater i) ev e)
  | Some (Deliver ev t l) => set_update i (At l) (log_output (Updater i) (event_output e ev) e)
  | _ => e
  end.
Lemma advance_update_step reg now i e : session_of reg e → session_of reg (advance_update reg now i e).
Proof.
  intros H. unfold advance_update. destruct (e_updates e !! i) as [u|] eqn:Ei; [|done].
  assert (∀ l e', update_step reg i e u l e' → session_of reg e') as Hs
    by (intros l e' Hr; eapply Session_step; [exact H|by eapply Entry_update]).
  destruct u as [[o|s|[|ev evs] restart|restart|o [|s rest]|]|ev l|ev t l]; try done; try (by eapply Hs; constructor).
  - eapply Hs. eapply (Update_emits reg i e _ _ (Asked ev)). apply (D_lookup e ev l (Some 0%nat)).
  - eapply Hs. eapply (Update_emits reg i e _ _ (Handed _)). apply D_sent.
Qed.

Definition run_on (k n : nat) (line : option bytes) (e : entry) : entry := steps n (advance_run zero_time line k) e.
Definition orch_on (reg : handlerRegistry) (n : nat) (e : entry) : entry := steps n (advance_orch reg zero_time) e.
Definition update_on (reg : handlerRegistry) (i n : nat) (e : entry) : entry := steps n (advance_update reg zero_time i) e.
Lemma run_on_of reg k n line e : session_of reg e → session_of reg (run_on k n line e).
Proof. apply steps_of. intros ?. apply advance_run_step. Qed.
Lemma orch_on_of reg n e : session_of reg e → session_of reg (orch_on reg n e).
Proof. apply steps_of. intros ?. apply advance_orch_step. Qed.
Lemma update_on_of reg i n e : session_of reg e → session_of reg (update_on reg i n e).
Proof. apply steps_of. intros ?. apply advance_update_step. Qed.
Lemma ask_of reg o e : session_of reg e → session_of reg (ask o e).
Proof. intros H. eapply Session_outside; [exact H|]. apply Outside_ask. Qed.

Definition sample_new : entry := new_entry (sample_session (sample_create true)) (sample_create true) false.
(** Its source opens, its reader ends, and the session ends. *)
Definition sample_done : entry :=
  orch_on sample_reg 10 (run_on 0 9 None (run_on 0 14 None (orch_on sample_reg 5 sample_new))).
Lemma sample_done_reachable : session_of sample_reg sample_done.
Proof. apply orch_on_of, run_on_of, run_on_of, orch_on_of, Session_new. Qed.
Lemma session_ready_witness : session_of sample_reg sample_done
  ∧ length (filter (λ x, ready_output x = true) (e_log sample_done)) = 1%nat
  ∧ ∃ seen : gset string, totalSources (e_ready sample_done) ≤ Z.of_nat (size seen).
Proof.
  split; [exact sample_done_reachable|]. split; [vm_compute; reflexivity|].
  destruct (proj2 (session_ready sample_reg sample_done sample_done_reachable) ltac:(vm_compute; reflexivity)) as [Hi|(seen & _ & Hle & _)].
  - exfalso. revert Hi. apply (bool_decide_unpack _). vm_compute. exact I.
  - exists seen. exact Hle.
Defined.
Lemma session_over_witness : session_of sample_reg sample_done ∧ e_done sample_done = true ∧ watched_over sample_done = true.
Proof.
  assert (e_done sample_done = true) as Hd by (vm_compute; reflexivity).
  split; [exact sample_done_reachable|]. split; [exact Hd|]. exact (proj1 (proj2 (session_over sample_reg sample_done sample_done_reachable Hd))).
Defined.

(** Two sources of the same ID: the session counts both and streams one, so it
    never leaves INITIALIZING although its only reader is open. *)
Definition twins : handlerRegistry :=
  newHandlerRegistry [("a/pod", mkHandler (mkHandlerInfo "a/pod" "pod" (mkTargetBuilder "" "" [] []))
                         (Some (λ _ _ _, [mkSource "c" []; mkSource "c" []])))] ∅.
Definition twins_reading : entry := run_on 1 5 None (run_on 0 9 None (orch_on twins 5 sample_new)).
Example duplicate_sources_wait : session_of twins twins_reading
  ∧ map r_at (e_runs twins_reading) = [At Scanning; At Finished] ∧ status twins_reading = LogSessionStatusInitializing
  ∧ totalSources (e_ready twins_reading) = 2 ∧ readied (e_ready twins_reading) = false.
Proof. split; [apply run_on_of, run_on_of, orch_on_of, Session_new|]. vm_compute. repeat split. Qed.

(** The options that enable some sources. *)
Definition enable (selection : string) : LogSessionOptions :=
  mkLogOptions None None "" true false false 0 0 None 0 false [("enabled_sources", selection)].
(** A source is disabled and enabled again while its goroutine is blocked: when that
    ends, it deletes the registration of the new one, and disabling the source once
    more has no effect on it. *)
Definition reopened : entry :=
  run_on 0 8 (Some sample_line) (run_on 1 7 None
    (update_on sample_reg 1 10 (ask (enable "") (update_on sample_reg 0 10 (ask (enable "other")
      (run_on 0 14 (Some sample_line) (orch_on sample_reg 5 sample_new))))))).
Definition redisabled : entry := update_on sample_reg 2 10 (ask (enable "other") reopened).
Example reenabled_source_unregistered : session_of sample_reg redisabled
  ∧ map r_at (e_runs reopened) = [At Finished; At Scanning] ∧ sourceCtxs (e_sources reopened) = ∅
  ∧ map r_at (e_runs redisabled) = [At Finished; At Scanning] ∧ map (ctx_done redisabled) (e_runs redisabled) = [true; false].
Proof.
  split; [|vm_compute; repeat split].
  apply update_on_of, ask_of, run_on_of, run_on_of, update_on_of, ask_of, update_on_of, ask_of, run_on_of, orch_on_of, Session_new.
Qed.

(** A source enabled after the session is done starts reading again. *)
Definition late_run : entry := run_on 1 11 (Some sample_line) (update_on sample_reg 0 10 (ask (enable "") sample_done)).
Example late_source_reads : session_of sample_reg late_run ∧ e_done late_run = true
  ∧ map r_at (e_runs late_run) = [At Finished; At Scanning] ∧ lines_of 1 (e_log late_run) ≠ [].
Proof.
  split; [apply run_on_of, update_on_of, ask_of, sample_done_reachable|].
  split; [vm_compute; reflexivity|]. split; [vm_compute; reflexivity|]. vm_compute. discriminate.
Qed.
