(* ===== verification/LogManager.v ===== *)
(** * The log manager (pkg/v1/logs/manager.go)

    Every session of a manager with the calls that create, close and change them,
    the shared output channel and the streams that carry commands, as interleaved
    steps. A step of a session is a step of [LogSession]; here its lookups, its
    deliveries and its end are given their effect. *)
From S2P Require Import Prelude GoStd GoTime Errors Values Json Domain Canonical Source Proto Messages LogTypes LogLines LogSession LogSources LogReady LogEnd.
Local Open Scope Z_scope.

Definition streamOutputBuffer : nat := 256.

(** ** State *)

(** The goroutine of [CreateResourceSession]. Between [InCallback] and [Released]
    it holds the lease of the configured generation. *)
Inductive stage :=
| Acquiring | InCallback | Accepting
| Registered (k : nat)
| Created (k : nat) (s : LogSession)   (** before it asks for the request's context again *)
| Withdrawing (k : nat) | Withdrawn (k : nat)
| Published (k : nat)              (** answered *)
| Released.
Record creation := mkCreation {
  c_opts : CreateSessionOptions; c_ended : bool;    (** the request's context is over *)
  c_stage : stage; c_answer : option (result LogSession); c_session : option nat
}.

Record Manager := mkManager {
  m_sink : bool;                                    (** configured with a sink *)
  m_sessions : gmap string nat; m_entries : list entry; m_closed : bool;
  m_out : list (nat * StreamOutput);                (** the channel; with the session that sent *)
  m_taken : list (nat * StreamOutput);              (** taken from it, or by the sink *)
  m_wg : nat; m_creations : list creation;
  m_streams : list bool;                            (** whether each stream is over *)
  m_closers : list bool                             (** whether each [Close] has returned *)
}.
Definition NewManager (sink : bool) : Manager := mkManager sink ∅ [] false [] [] 0 [] [] [].

Definition with_sessions (s : gmap string nat) (m : Manager) : Manager :=
  mkManager (m_sink m) s (m_entries m) (m_closed m) (m_out m) (m_taken m) (m_wg m) (m_creations m) (m_streams m) (m_closers m).
Definition with_entries (l : list entry) (m : Manager) : Manager :=
  mkManager (m_sink m) (m_sessions m) l (m_closed m) (m_out m) (m_taken m) (m_wg m) (m_creations m) (m_streams m) (m_closers m).
Definition with_wg (n : nat) (m : Manager) : Manager :=
  mkManager (m_sink m) (m_sessions m) (m_entries m) (m_closed m) (m_out m) (m_taken m) n (m_creations m) (m_streams m) (m_closers m).
Definition with_outputs (out taken : list (nat * StreamOutput)) (m : Manager) : Manager :=
  mkManager (m_sink m) (m_sessions m) (m_entries m) (m_closed m) out taken (m_wg m) (m_creations m) (m_streams m) (m_closers m).
Definition with_creations (l : list creation) (m : Manager) : Manager :=
  mkManager (m_sink m) (m_sessions m) (m_entries m) (m_closed m) (m_out m) (m_taken m) (m_wg m) l (m_streams m) (m_closers m).
Definition with_streams (l : list bool) (m : Manager) : Manager :=
  mkManager (m_sink m) (m_sessions m) (m_entries m) (m_closed m) (m_out m) (m_taken m) (m_wg m) (m_creations m) l (m_closers m).
Definition put (k : nat) (e : entry) (m : Manager) : Manager := with_entries (<[k := e]> (m_entries m)) m.
Definition put_creation (i : nat) (c : creation) (m : Manager) : Manager := with_creations (<[i := c]> (m_creations m)) m.
Definition at_stage (s : stage) (c : creation) : creation := mkCreation (c_opts c) (c_ended c) s (c_answer c) (c_session c).
Definition answered (a : result LogSession) (s : stage) (c : creation) : creation :=
  mkCreation (c_opts c) (c_ended c) s (Some a) (c_session c).
Definition registered_as (k : nat) (c : creation) : creation :=
  mkCreation (c_opts c) (c_ended c) (Registered k) (c_answer c) (Some k).

(** ** Operations *)

Definition new_session (o : CreateSessionOptions) (id : string) (now : NativeTime) : LogSession :=
  mkLogSession id "" "" (cs_ResourceKey o) (cs_ResourceID o) (cs_Options o) LogSessionStatusConnecting [] now.
(** [createSession] on a context that may have ended; [uuid] is the new ID where
    none is asked for. *)
Definition createSession (o : CreateSessionOptions) (uuid : string) (now : NativeTime) (ended : bool) (m : Manager)
    : result (Manager * nat) :=
  let o := create_with_Options (with_target (cs_Reference o) (cs_Route o) (cs_Options o)) o in
  let id := if bool_decide (cs_SessionID o = "") then uuid else cs_SessionID o in
  if m_closed m then Err (resourceError "CONNECTION_ERROR" "Log manager is closed.")
  else match m_sessions m !! id with
  | Some _ => Err (resourceError "CONFLICT" "Log session ID already exists.")
  | None =>
    let k := length (m_entries m) in
    let e := new_entry (new_session o id now) o (HasResourceIntent o && ended) in
    Ok (with_wg (S (m_wg m)) (with_sessions (<[id := k]> (m_sessions m)) (with_entries (m_entries m ++ [e]) m)), k)
  end.
(** [CreateSession] *)
Definition CreateSession (o : CreateSessionOptions) (uuid : string) (now : NativeTime) (m : Manager) : result (Manager * nat) :=
  if HasResourceIntent o then Err (resourceError "UNSUPPORTED" "Resource logs require CreateResourceSession.")
  else createSession o uuid now false m.
Definition GetSession (id : string) (m : Manager) : option LogSession :=
  k ← m_sessions m !! id; snapshot <$> m_entries m !! k.
Definition ListSessions (m : Manager) : list LogSession :=
  omap (λ id, GetSession id m) (sort_by id (map fst (map_to_list (m_sessions m)))).

(** The session of an ID, and what a call does to it. *)
Definition on_session (id : string) (f : entry → entry) (m : Manager) : Manager :=
  match m_sessions m !! id with
  | Some k => match m_entries m !! k with Some e => put k (f e) m | None => m end
  | None => m
  end.
Definition CloseSession (id : string) (m : Manager) : Manager :=
  with_sessions (delete id (m_sessions m)) (on_session id (order_to [Cancel; Force LogSessionStatusClosed]) m).
Definition UpdateSessionOptions (id : string) (o : LogSessionOptions) (m : Manager) : Manager := on_session id (ask o) m.
(** A command of [handleCommands]. *)
Definition command (i : StreamInput) (m : Manager) : Manager :=
  if si_Command i =? StreamCommandPause then on_session (si_SessionID i) (order_to [Force LogSessionStatusPaused]) m
  else if si_Command i =? StreamCommandResume then on_session (si_SessionID i) (order_to [Force LogSessionStatusActive]) m
  else if si_Command i =? StreamCommandClose then CloseSession (si_SessionID i) m
  else m.
(** The same orders to every registered session. *)
Definition to_all (os : list order) (m : Manager) : Manager :=
  with_entries (imap (λ k e, if bool_decide (k ∈ map snd (map_to_list (m_sessions m))) then order_to os e else e) (m_entries m)) m.
Definition closeAll (m : Manager) : Manager := with_sessions ∅ (to_all [Cancel] m).
(** [Close], before it waits. *)
Definition Close (m : Manager) : Manager :=
  let m := with_sessions ∅ (to_all [Cancel; Force LogSessionStatusClosed] m) in
  mkManager (m_sink m) (m_sessions m) (m_entries m) true (m_out m) (m_taken m) (m_wg m) (m_creations m) (m_streams m)
    (m_closers m ++ [false]).

(** What [emitEvent] finds for the ID of a session. *)
Definition lookup_session (e : entry) (m : Manager) : option nat :=
  match m_sessions m !! ls_ID (e_session e) with
  | Some j => match m_entries m !! j with Some t => if e_canceled t then None else Some j | None => None end
  | None => None
  end.
(** The sink, or the channel, takes an output of session [k]. *)
Definition send (k : nat) (o : StreamOutput) (m : Manager) : Manager :=
  if m_sink m then with_outputs (m_out m) (m_taken m ++ [(k, o)]) m else with_outputs (m_out m ++ [(k, o)]) (m_taken m) m.

(** ** Steps *)

(** What the manager makes of the label of a step of session [k]. *)
Inductive follows (m : Manager) (k : nat) (e : entry) : label → Manager → Prop :=
| Follow_quiet : follows m k e Quiet m
| Follow_lookup : follows m k e (Lookup (lookup_session e m)) m
| Follow_sent o : m_sink m = true ∨ (length (m_out m) < streamOutputBuffer)%nat → follows m k e (Sent o) (send k o m)
| Follow_unsent t x : m_entries m !! t = Some x → e_canceled x = true → follows m k e (Unsent (Some t)) m
| Follow_unsent_source : follows m k e (Unsent None) m
| Follow_done : follows m k e Done (with_wg (pred (m_wg m)) m).

(** Whether session [k] is over, for a creation that waits for it. *)
Definition session_done (k : nat) (m : Manager) : Prop := ∃ e, m_entries m !! k = Some e ∧ e_done e = true.
Definition cancel_entry (k : nat) (m : Manager) : Manager :=
  match m_entries m !! k with Some e => put k (cancel e) m | None => m end.
(** [if m.sessions[session.ID] == state { delete }] *)
Definition withdraw (k : nat) (m : Manager) : Manager :=
  match m_entries m !! k with
  | Some e => if bool_decide (m_sessions m !! ls_ID (e_session e) = Some k)
              then with_sessions (delete (ls_ID (e_session e)) (m_sessions m)) m else m
  | None => m
  end.

Section steps.
Context {wire : Protowire} {runtime : ProtoRuntime} {uuids : UUID} (reg : handlerRegistry).

(** The checks of [CreateResourceSession] before it starts. *)
Definition request_checks (selected : option string) (o : CreateSessionOptions) : outcome unit :=
  CreateSessionOptions_Validate o ;; validateRoute selected o.

Inductive step (m : Manager) : Manager → Prop :=
| Step_session k e l e' m' : m_entries m !! k = Some e → entry_step reg e l e' → follows m k e l m' → step m (put k e' m')
| Step_create o uuid now m' k : CreateSession o uuid now m = Ok (m', k) → step m m'
| Step_request o selected : request_checks selected o = Some (Ok tt) →
    step m (with_creations (m_creations m ++ [mkCreation o false Acquiring None None]) m)
| Step_request_ends i c : m_creations m !! i = Some c →
    step m (put_creation i (mkCreation (c_opts c) true (c_stage c) (c_answer c) (c_session c)) m)
| Step_refused i c err : m_creations m !! i = Some c → c_stage c = Acquiring →
    step m (put_creation i (answered (Err err) Released c) m)
| Step_leased i c : m_creations m !! i = Some c → c_stage c = Acquiring → step m (put_creation i (at_stage InCallback c) m)
| Step_accept i c err : m_creations m !! i = Some c → c_stage c = InCallback →
    step m (put_creation i (if c_ended c then answered (Err err) Released c else at_stage Accepting c) m)
| Step_register i c uuid now ended : m_creations m !! i = Some c → c_stage c = Accepting →
    step m match createSession (c_opts c) uuid now ended m with
           | Ok (m', k) => put_creation i (registered_as k c) m'
           | Err err => put_creation i (answered (Err err) Released c) m
           end
| Step_snapshot i c k e : m_creations m !! i = Some c → c_stage c = Registered k → m_entries m !! k = Some e →
    step m (put_creation i (at_stage (Created k (snapshot e)) c) m)
| Step_publish i c k s : m_creations m !! i = Some c → c_stage c = Created k s → c_ended c = false →
    step m (put_creation i (answered (Ok s) (Published k) c) m)
| Step_abandon i c k s : m_creations m !! i = Some c → c_stage c = Created k s → c_ended c = true →
    step m (put_creation i (at_stage (Withdrawing k) c) (cancel_entry k m))
| Step_withdraw i c k : m_creations m !! i = Some c → c_stage c = Withdrawing k →
    step m (put_creation i (at_stage (Withdrawn k) c) (withdraw k m))
| Step_withdrawn i c k err : m_creations m !! i = Some c → c_stage c = Withdrawn k → session_done k m →
    step m (put_creation i (answered (Err err) Released c) m)
| Step_release i c k : m_creations m !! i = Some c → c_stage c = Published k → session_done k m →
    step m (put_creation i (at_stage Released c) m)
| Step_retire k e : m_entries m !! k = Some e → HasResourceIntent (e_opts e) = true → step m (cancel_entry k m)
| Step_close_session id : step m (CloseSession id m)
| Step_update id o : step m (UpdateSessionOptions id o m)
| Step_stream : step m (with_streams (m_streams m ++ [false]) m)
| Step_command s i : m_streams m !! s = Some false → step m (command i m)
| Step_stream_ends s : m_streams m !! s = Some false → step m (with_streams (<[s := true]> (m_streams m)) (closeAll m))
| Step_receive x rest : m_out m = x :: rest → step m (with_outputs rest (m_taken m ++ [x]) m)
| Step_close : step m (Close m)
| Step_close_returns j : m_closers m !! j = Some false → m_wg m = 0%nat →
    step m (mkManager (m_sink m) (m_sessions m) (m_entries m) (m_closed m) (m_out m) (m_taken m) (m_wg m) (m_creations m) (m_streams m)
              (<[j := true]> (m_closers m))).

Inductive reachable : Manager → Prop :=
| Reach_new sink : reachable (NewManager sink)
| Reach_step m m' : reachable m → step m m' → reachable m'.
End steps.
