(* ===== verification/LogRegistry.v ===== *)
(** * What the log manager guarantees

    The invariant of a manager in every interleaving, and its consequences for the
    outputs of sessions, the leases of their creations and [Close]. *)
From S2P Require Import Prelude GoStd GoTime Errors Values Json Domain Canonical Source Proto Messages LogTypes LogLines LogSession LogSources LogReady LogEnd LogManager.
Local Open Scope Z_scope.

(** ** What a step of a session does to the rest *)

Definition sent (l : label) : list StreamOutput := match l with Sent o => [o] | _ => [] end.
Definition outputs (e : entry) : list StreamOutput := map snd (e_log e).
Definition gone (e : entry) : bool := match e_orch e with At Gone => true | _ => false end.

Lemma delivery_outputs e {L} (f : flow L) l o f' tag : delivery e f l o f' →
  outputs (record tag o e) = outputs e ++ sent l.
Proof. destruct 1; unfold outputs; cbn; rewrite ?map_app, ?app_nil_r; done. Qed.
Lemma mark_log now m next e r : e_log (mark_run now m next e r).1 = e_log e.
Proof. unfold mark_run, mark, becomes_ready, transition. by repeat case_match; simplify_eq/=. Qed.
Lemma run_outputs k e r l e' : run_step k e r l e' → outputs e' = outputs e ++ sent l.
Proof.
  intros Hs. destruct Hs as [Hat|Hat Hb|Hat Hd|Hat|Hat|Hat|now Hat|now Hat|Hat Hd|Hat|now reader Hat|Hat|now m next Hat|line Hat Hb
    |retry Hat|line Hat|line Hat|li Hat|li Hat Hd|retry Hat|retry Hat|now Hat|Hat|Hat|l o f Hdel];
    try (cbn [sent]; rewrite app_nil_r).
  1: unfold launch, registerSourceCtx; by repeat case_match; simplify_eq/=.
  12: { pose proof (mark_log now m next e r) as H. destruct (mark_run now m next e r). unfold outputs. cbn in *. by rewrite H. }
  20: unfold exhausted; by destruct (ctx_done e r).
  all: try done.
  - unfold outputs. cbn. by rewrite map_app.
  - by apply (delivery_outputs e (r_at r)) with (tag := Reader k) in Hdel.
Qed.
Lemma orch_outputs reg e l e' : orch_step reg e l e' → outputs e' = outputs e ++ sent l.
Proof.
  intros Hs. destruct Hs as [Ho|o answer Ho|msg now Ho|o sources w Ho|o sources w Ho|o sources w Ho|o w now Ho|o sources w Ho|Ho _|Ho _ _|Ho|Ho|now Ho|Ho|Ho|l o f Hd];
    try (cbn [sent]; rewrite app_nil_r; unfold transition, fan_out; by repeat case_match).
  by apply (delivery_outputs e (e_orch e)) with (tag := Main) in Hd.
Qed.
Lemma watch_outputs e l e' : watch_step e l e' → outputs e' = outputs e ++ sent l.
Proof.
  intros Hs. destruct Hs as [Hw|s Hw|s Hw|s Hw|s k now Hw|s k Hw|s Hw|s now Hw|w l o f Hw Hd];
    try (cbn [sent]; rewrite app_nil_r; unfold registerSourceCtx, cancel_source; by repeat case_match; simplify_eq/=).
  by apply (delivery_outputs e w) with (tag := Watcher) in Hd.
Qed.
Lemma update_outputs reg i e u l e' : update_step reg i e u l e' → outputs e' = outputs e ++ sent l.
Proof.
  intros Hs. destruct Hs as [o|s keys now Hk|ev evs restart|restart|restart|o s rest now|o|u l o f Hd]; try (cbn [sent]; rewrite app_nil_r; done).
  - cbn [sent]. rewrite app_nil_r. unfold updateEnabledSources. set (off := filter _ keys).
    destruct (disabled_frame off e) as (_ & _ & _ & D & _). unfold outputs. cbn. by rewrite D.
  - by apply (delivery_outputs e u) with (tag := Updater i) in Hd.
Qed.
Lemma delivery_sends e {L} (f : flow L) l o f' : delivery e f l o f' → l ≠ Done.
Proof. by destruct 1. Qed.

(** What is preserved by every step, and what the end of the orchestrator is. *)
Record proceeds (e : entry) (l : label) (e' : entry) : Prop := mkProceeds {
  proceeds_id : ls_ID (e_session e') = ls_ID (e_session e);
  proceeds_outputs : outputs e' = outputs e ++ sent l;
  proceeds_canceled : e_canceled e = true → e_canceled e' = true;
  proceeds_done : e_done e = true → e_done e' = true;
  proceeds_gone : match l with Done => gone e = false ∧ gone e' = true | _ => gone e' = gone e end
}.
Lemma keeps_canceled e e' : keeps e e' → e_canceled e = true → e_canceled e' = true.
Proof.
  intros [_ Hd] Hc. specialize (Hd (new_run (mkSource "" []) (e_opts e) Fanned None Launching)). unfold ctx_done in Hd. cbn in Hd.
  rewrite !orb_false_r in Hd. auto.
Qed.
Lemma orch_rest reg e l e' : drain_ok e → orch_step reg e l e' →
  (e_done e = true → e_done e' = true) ∧ match l with Done => gone e = false ∧ gone e' = true | _ => gone e' = gone e end.
Proof.
  intros [Hf _ _ _ _ _] Hs. destruct Hs as [Ho|o answer Ho|msg now Ho|o sources w Ho|o sources w Ho|o sources w Ho|o w now Ho|o sources w Ho|Ho _|Ho _ _|Ho|Ho|now Ho|Ho|Ho|l o f Hd];
    unfold gone; rewrite ?Ho; unfold transition, fan_out.
  1: pose proof (begin_place reg (e_opts e)); by destruct (begin_orchestration reg (e_opts e)).
  1: pose proof (resolved_place reg o answer); by destruct (resolved reg o answer).
  6: (split; [by destruct w|done]).
  all: try (by repeat case_match).
  - by destruct (_ =? _), sources.
  - split; [by destruct o|]. cbn [e_orch set_orch]. destruct Hd as [ev x [t|]|ev t x|ev t x]; try done; by destruct x.
Qed.
Lemma watch_rest e l e' : watch_step e l e' → l ≠ Done ∧ e_orch e' = e_orch e ∧ e_done e' = e_done e.
Proof.
  intros Hs. destruct Hs as [Hw|s Hw|s Hw|s Hw|s k now Hw|s k Hw|s Hw|s now Hw|w l o f Hw Hd];
    try (unfold registerSourceCtx, cancel_source; by repeat case_match; simplify_eq/=).
  split; [by eapply delivery_sends|by destruct o].
Qed.
Lemma update_rest reg i e u l e' : update_step reg i e u l e' → l ≠ Done ∧ e_orch e' = e_orch e ∧ e_done e' = e_done e.
Proof.
  intros Hs. destruct Hs as [o|s keys now Hk|ev evs restart|restart|restart|o s rest now|o|u l o f Hd]; try done.
  - unfold updateEnabledSources. set (off := filter _ keys). destruct (disabled_frame off e) as (_ & D & _).
    split; [done|]. cbn. by rewrite D, disabled_done.
  - split; [by eapply delivery_sends|by destruct o].
Qed.
Lemma run_undone k e r l e' : run_step k e r l e' → l ≠ Done.
Proof. destruct 1; try done. by eapply delivery_sends. Qed.
Lemma gone_same e e' l : l ≠ Done → e_orch e' = e_orch e → match l with Done => gone e = false ∧ gone e' = true | _ => gone e' = gone e end.
Proof. intros Hl Ho. unfold gone. rewrite Ho. by destruct l. Qed.
Lemma step_proceeds reg e l e' : session_of reg e → entry_step reg e l e' → proceeds e l e'.
Proof.
  intros H Hs. pose proof (seen_ok_of reg e H) as Hseen.
  destruct Hs as [k r l e' Hk Hs|l e' Hs|l e' Hs|i u l e' Hi Hs|i x rest Hi].
  - destruct (goes_of reg e k r l e' H Hseen Hk Hs) as (r' & Hg & Hke).
    destruct (goes_rest _ _ _ _ _ Hg) as (Go & _ & Gd). split.
    + apply Hke.
    + by eapply run_outputs.
    + by apply keeps_canceled.
    + by rewrite Gd.
    + apply gone_same; [by eapply run_undone|done].
  - destruct (orch_rest reg e l e' (drain_ok_of reg e H) Hs) as [Hd Hg]. pose proof (orch_quiet reg e l e' Hs) as Hq.
    split; [apply Hq|by eapply orch_outputs|by apply keeps_canceled, Hq|done|done].
  - destruct (watch_rest e l e' Hs) as (Hl & Ho & Hd). pose proof (watch_quiet e l e' Hs) as Hq.
    split; [apply Hq|by eapply watch_outputs|by apply keeps_canceled, Hq|by rewrite Hd|by apply gone_same].
  - destruct (update_rest reg i e u l e' Hs) as (Hl & Ho & Hd). pose proof (update_quiet reg i e u l e' Hs) as Hq.
    split; [apply Hq|by eapply update_outputs|by apply keeps_canceled, Hq|by rewrite Hd|by apply gone_same].
  - by split; destruct x; cbn; rewrite ?app_nil_r.
Qed.

(** ** The invariant of a manager *)

Definition outputs_of (k : nat) (l : list (nat * StreamOutput)) : list StreamOutput :=
  omap (λ x, if bool_decide (x.1 = k) then Some x.2 else None) l.
Definition open_sessions (m : Manager) : nat := length (filter (λ e, gone e = false) (m_entries m)).
Definition unregistered (k : nat) (m : Manager) : Prop := ∀ id, m_sessions m !! id ≠ Some k.
Definition creation_ok (m : Manager) (c : creation) : Prop :=
  match c_stage c with
  | Acquiring | InCallback | Accepting => c_session c = None ∧ c_answer c = None
  | Registered k | Created k _ => c_session c = Some k ∧ c_answer c = None ∧ (k < length (m_entries m))%nat
  | Withdrawing k => c_session c = Some k ∧ c_answer c = None ∧ ∃ e, m_entries m !! k = Some e ∧ e_canceled e = true
  | Withdrawn k => c_session c = Some k ∧ c_answer c = None ∧ unregistered k m ∧ ∃ e, m_entries m !! k = Some e ∧ e_canceled e = true
  | Published k => c_session c = Some k ∧ (∃ s, c_answer c = Some (Ok s)) ∧ (k < length (m_entries m))%nat
  | Released => match c_session c with
                | Some k => session_done k m ∧ ((∃ s, c_answer c = Some (Ok s)) ∨ unregistered k m)
                | None => ∃ err, c_answer c = Some (Err err)
                end
  end.

Section invariant.
Context {wire : Protowire} {runtime : ProtoRuntime} {uuids : UUID} (reg : handlerRegistry).

Record manager_ok (m : Manager) : Prop := mkManagerOk {
  ok_entries : ∀ k e, m_entries m !! k = Some e → session_of reg e;
  ok_sessions : ∀ id k, m_sessions m !! id = Some k → ∃ e, m_entries m !! k = Some e ∧ ls_ID (e_session e) = id;
  ok_wg : m_wg m = open_sessions m;
  ok_closed : m_closed m = true → m_sessions m = ∅;
  ok_out : (length (m_out m) ≤ streamOutputBuffer)%nat;
  ok_log : ∀ k, outputs_of k (m_taken m ++ m_out m) = match m_entries m !! k with Some e => outputs e | None => [] end;
  ok_sink : m_sink m = true → m_out m = [];
  ok_closers : true ∈ m_closers m → open_sessions m = 0%nat;
  ok_closing : m_closers m ≠ [] → m_closed m = true;
  ok_creations : ∀ i c, m_creations m !! i = Some c → creation_ok m c
}.

(** *** Changes of one session *)

(** Another call changed the session. *)
Record touched (e e' : entry) : Prop := mkTouched {
  touched_of : session_of reg e → session_of reg e';
  touched_id : ls_ID (e_session e') = ls_ID (e_session e);
  touched_outputs : outputs e' = outputs e;
  touched_canceled : e_canceled e = true → e_canceled e' = true;
  touched_done : e_done e = true → e_done e' = true;
  touched_gone : gone e' = gone e
}.
Lemma touched_outside e e' : outside_step e e' → touched e e'.
Proof.
  intros Hs. split; [intros H2; by eapply Session_outside|destruct Hs; done..].
Qed.
Lemma touched_refl e : touched e e.
Proof. by split. Qed.
Definition all_touched (m m' : Manager) : Prop := Forall2 touched (m_entries m) (m_entries m').
Lemma all_touched_refl m : all_touched m m.
Proof. apply Forall2_same_length_lookup_2; [done|]. intros k e e' He He'. simplify_eq. apply touched_refl. Qed.
Lemma all_touched_put k e e' m : m_entries m !! k = Some e → touched e e' → all_touched m (put k e' m).
Proof.
  intros Hk Ht. unfold all_touched. cbn [put with_entries m_entries]. apply Forall2_same_length_lookup_2; [by rewrite length_insert|].
  intros j x y Hx Hy. destruct (decide (j = k)) as [->|Hj].
  - rewrite list_lookup_insert_eq in Hy by (by eapply lookup_lt_Some). by simplify_eq.
  - rewrite list_lookup_insert_ne in Hy by done. simplify_eq. apply touched_refl.
Qed.
Definition kept (m m' : Manager) : Prop :=
  ∀ k e, m_entries m !! k = Some e → ∃ e', m_entries m' !! k = Some e' ∧ (e_canceled e = true → e_canceled e' = true)
    ∧ (e_done e = true → e_done e' = true).
Lemma all_touched_kept m m' : all_touched m m' → kept m m'.
Proof. intros Ht k e He. destruct (Forall2_lookup_l _ _ _ _ _ Ht He) as (e' & He' & Hte). exists e'. split_and!; [done|apply Hte..]. Qed.
Lemma kept_length m m' : kept m m' → (length (m_entries m) ≤ length (m_entries m'))%nat.
Proof.
  intros Hk. destruct (decide (length (m_entries m) = 0)%nat) as [->|Hn]; [lia|].
  destruct (lookup_lt_is_Some_2 (m_entries m) (pred (length (m_entries m)))) as [e He]; [lia|].
  destruct (Hk _ _ He) as (e' & He'%lookup_lt_Some & _). lia.
Qed.
Lemma creation_kept m m' c : kept m m' →
  (∀ id k, (k < length (m_entries m))%nat → m_sessions m' !! id = Some k → m_sessions m !! id = Some k) → creation_ok m c → creation_ok m' c.
Proof.
  intros Hk Hs. pose proof (kept_length m m' Hk) as Hl.
  assert (∀ k, (∃ e, m_entries m !! k = Some e ∧ e_canceled e = true) → ∃ e, m_entries m' !! k = Some e ∧ e_canceled e = true) as Hc.
  { intros k (e & He & Hd). destruct (Hk k e He) as (e' & He' & ? & _). eauto. }
  assert (∀ k, session_done k m → session_done k m') as Hd.
  { intros k (e & He & Hd). destruct (Hk k e He) as (e' & He' & _ & ?). exists e'. auto. }
  assert (∀ k, (k < length (m_entries m))%nat → unregistered k m → unregistered k m') as Hu by (intros k Hlt H2 id H3; by apply (H2 id), Hs).
  assert (∀ k, session_done k m → (k < length (m_entries m))%nat) as Hdl by (intros k (e & He%lookup_lt_Some & _); done).
  unfold creation_ok. destruct (c_stage c) as [| | |k|k s|k|k|k|]; try done.
  - intros (? & ? & ?). split_and!; auto. lia.
  - intros (? & ? & ?). split_and!; auto. lia.
  - intros (? & ? & ?). split_and!; auto.
  - intros (? & ? & ? & He). split_and!; auto. apply Hu; [|done]. by destruct He as (e & He%lookup_lt_Some & _).
  - intros (? & ? & ?). split_and!; auto. lia.
  - destruct (c_session c) as [k|]; [|done]. intros [? [?|?]]; split; auto.
Qed.
Lemma open_touched m m' : all_touched m m' → open_sessions m' = open_sessions m.
Proof.
  unfold all_touched, open_sessions. induction 1 as [|e e' l l' Ht _ IH]; [done|]. rewrite !filter_cons, (touched_gone _ _ Ht).
  by case_decide; cbn; rewrite IH.
Qed.
(** A call that touches sessions and may unregister some. *)
Lemma ok_touched m m' : manager_ok m → all_touched m m' → (∀ id k, m_sessions m' !! id = Some k → m_sessions m !! id = Some k) →
  m_wg m' = m_wg m → m_out m' = m_out m → m_taken m' = m_taken m → m_sink m' = m_sink m → m_creations m' = m_creations m →
  (m_closed m' = m_closed m ∧ m_closers m' = m_closers m
   ∨ m_closed m' = true ∧ m_sessions m' = ∅ ∧ (true ∈ m_closers m' → true ∈ m_closers m)) → manager_ok m'.
Proof.
  intros [H1 H2 H3 H4 H5 H6 H7 H8 H9 H10] Ht Hs Hwg Hout Htaken Hsink Hcr Hcl.
  pose proof (open_touched m m' Ht) as Hopen. split; rewrite ?Hwg, ?Hout, ?Htaken, ?Hsink, ?Hcr, ?Hopen; auto.
  - intros k e He. destruct (Forall2_lookup_r _ _ _ _ _ Ht He) as (e0 & He0 & Hte). apply Hte. by eapply H1.
  - intros id k Hk. destruct (H2 id k (Hs id k Hk)) as (e & He & Hid). destruct (Forall2_lookup_l _ _ _ _ _ Ht He) as (e' & He' & Hte).
    exists e'. split; [done|]. by rewrite (touched_id _ _ Hte).
  - intros Hc. destruct Hcl as [[Hc' _]|(_ & ? & _)]; [|done]. apply map_empty. intros id. rewrite Hc' in Hc.
    destruct (m_sessions m' !! id) as [k|] eqn:E; [|done]. apply Hs in E. by rewrite (H4 Hc) in E.
  - intros k. rewrite H6. destruct (m_entries m !! k) as [e|] eqn:E.
    + destruct (Forall2_lookup_l _ _ _ _ _ Ht E) as (e' & -> & Hte). by rewrite (touched_outputs _ _ Hte).
    + rewrite lookup_ge_None in E. rewrite (Forall2_length _ _ _ Ht) in E. by rewrite (proj2 (lookup_ge_None _ _) E).
  - intros Hin. apply H8. destruct Hcl as [[_ <-]|(_ & _ & Hcl)]; auto.
  - intros Hne. destruct Hcl as [[-> Hcl]|(-> & _)]; [|done]. apply H9. congruence.
  - intros i c Hi. eapply (creation_kept m); [by apply all_touched_kept|auto|eauto].
Qed.

(** *** A step of a session *)

Lemma filter_insert_length {A} (P : A → Prop) `{∀ x, Decision (P x)} l k a b : l !! k = Some a →
  (length (filter P (<[k := b]> l)) + (if decide (P a) then 1 else 0) = length (filter P l) + (if decide (P b) then 1 else 0))%nat.
Proof.
  intros Hk. pose proof (sum_list_with_set (λ x, if decide (P x) then 1%nat else 0%nat) l k a b Hk) as Hs.
  assert (∀ l, length (filter P l) = sum_list_with (λ x, if decide (P x) then 1%nat else 0%nat) l) as E; [|by rewrite !E].
  intros l'. induction l' as [|x l' IH]; [done|]. rewrite filter_cons. cbn. destruct (decide (P x)); cbn; by rewrite IH.
Qed.
Lemma outputs_of_snoc k l j o : outputs_of k (l ++ [(j, o)]) = outputs_of k l ++ (if bool_decide (j = k) then [o] else []).
Proof. unfold outputs_of. rewrite omap_app. cbn. by case_bool_decide. Qed.
Lemma outputs_send j k o m : (m_sink m = true → m_out m = []) →
  outputs_of j (m_taken (send k o m) ++ m_out (send k o m)) = outputs_of j (m_taken m ++ m_out m) ++ (if bool_decide (k = j) then [o] else []).
Proof.
  intros Hs. unfold send. destruct (m_sink m); cbn [with_outputs m_taken m_out].
  - rewrite (Hs eq_refl), !app_nil_r. apply outputs_of_snoc.
  - rewrite app_assoc. apply outputs_of_snoc.
Qed.
Lemma follows_frame m k e l m' : follows m k e l m' →
  m_entries m' = m_entries m ∧ m_sessions m' = m_sessions m ∧ m_closed m' = m_closed m ∧ m_sink m' = m_sink m
  ∧ m_creations m' = m_creations m ∧ m_closers m' = m_closers m ∧ m_wg m' = (match l with Done => pred (m_wg m) | _ => m_wg m end)
  ∧ (length (m_out m) ≤ streamOutputBuffer → length (m_out m') ≤ streamOutputBuffer)%nat
  ∧ ((m_sink m = true → m_out m = []) → (m_sink m = true → m_out m' = [])
     ∧ ∀ j, outputs_of j (m_taken m' ++ m_out m') = outputs_of j (m_taken m ++ m_out m) ++ (if bool_decide (k = j) then sent l else [])).
Proof.
  destruct 1 as [| |o Hroom|t x Ht Hx| |]; split_and!; try done;
    try (intros Hs; split; [done|]; intros j; cbn [sent]; case_bool_decide; by rewrite app_nil_r).
  1-7: unfold send; destruct (m_sink m) eqn:E; cbn; congruence.
  - unfold send. destruct (m_sink m); cbn; [done|]. rewrite length_app. cbn. destruct Hroom; [done|lia].
  - intros Hs. split; [|intros j; by apply outputs_send]. unfold send. intros Hsink. rewrite Hsink. cbn. auto.
Qed.
Lemma ok_session m k e l e' m' : manager_ok m → m_entries m !! k = Some e → entry_step reg e l e' → follows m k e l m' →
  manager_ok (put k e' m').
Proof.
  intros Hok Hk Hs Hf. pose proof Hok as [H1 H2 H3 H4 H5 H6 H7 H8 H9 H10].
  destruct (step_proceeds reg e l e' (H1 k e Hk) Hs) as [P1 P2 P3 P4 P5].
  destruct (follows_frame m k e l m' Hf) as (F1 & F2 & F3 & F4 & F5 & F6 & F7 & F8 & F9).
  destruct (F9 H7) as [F10 F11]. assert (k < length (m_entries m))%nat as Hlt by (by eapply lookup_lt_Some).
  pose proof (filter_insert_length (λ e, gone e = false) (m_entries m) k e e' Hk) as Hcount.
  cbn beta in Hcount.
  assert (open_sessions (put k e' m') = match l with Done => pred (open_sessions m) | _ => open_sessions m end
    ∧ (l = Done → 0 < open_sessions m)%nat) as [Hopen Hpos].
  { unfold open_sessions. cbn [put with_entries m_entries]. rewrite F1. split.
    - destruct l; try (rewrite P5 in Hcount; lia). destruct P5 as [P5 P6]. rewrite P5, P6 in Hcount. cbn in Hcount.
      destruct (decide (false = false)); [|done]. destruct (decide (true = false)); [done|]. lia.
    - intros ->. destruct P5 as [P5 P6]. rewrite P5, P6 in Hcount. cbn in Hcount.
      destruct (decide (false = false)); [|done]. destruct (decide (true = false)); [done|]. lia. }
  split; rewrite ?Hopen; cbn [put with_entries m_entries m_sessions m_wg m_closed m_out m_taken m_sink m_closers m_creations];
    rewrite ?F1, ?F2, ?F3, ?F4, ?F5, ?F6, ?F7; auto.
  - intros j x [(-> & <- & _)|[_ Hx]]%list_lookup_insert_Some; [|by eapply H1]. eapply Session_step; [by eapply H1|done].
  - intros id j Hj. destruct (H2 id j Hj) as (x & Hx & Hid). destruct (decide (j = k)) as [->|Hn].
    + exists e'. rewrite list_lookup_insert_eq by done. split; [done|]. rewrite P1. by simplify_eq.
    + exists x. by rewrite list_lookup_insert_ne.
  - destruct l; lia.
  - intros j. rewrite F11, H6. destruct (decide (j = k)) as [->|Hn].
    + rewrite list_lookup_insert_eq, Hk, bool_decide_true by done. by rewrite P2.
    + rewrite list_lookup_insert_ne, bool_decide_false by done. by rewrite app_nil_r.
  - intros Hc%H8. destruct l; lia.
  - intros i c Hi. apply (creation_kept m); [|cbn; rewrite F2; auto|by eapply H10].
    intros j x Hx. cbn. rewrite F1. destruct (decide (j = k)) as [->|Hn].
    + exists e'. rewrite list_lookup_insert_eq by done. simplify_eq. auto.
    + exists x. by rewrite list_lookup_insert_ne.
Qed.

(** *** Creations *)

Lemma ok_put_creation m i c' : manager_ok m → creation_ok m c' → manager_ok (put_creation i c' m).
Proof.
  intros [H1 H2 H3 H4 H5 H6 H7 H8 H9 H10] Hc. split; auto. cbn [put_creation with_creations m_creations].
  intros j c [(-> & <- & _)|[_ Hj]]%list_lookup_insert_Some; [done|by eapply H10].
Qed.
Lemma ok_creation m i c c' : manager_ok m → m_creations m !! i = Some c → (creation_ok m c → creation_ok m c') → manager_ok (put_creation i c' m).
Proof. intros Hok Hi Hc. apply ok_put_creation; [done|]. apply Hc. by eapply ok_creations. Qed.
Lemma createSession_inv o uuid now ended m m' k : createSession o uuid now ended m = Ok (m', k) →
  ∃ id e, m_closed m = false ∧ m_sessions m !! id = None ∧ k = length (m_entries m) ∧ session_of reg e ∧ ls_ID (e_session e) = id
    ∧ outputs e = [] ∧ gone e = false
    ∧ m' = with_wg (S (m_wg m)) (with_sessions (<[id := k]> (m_sessions m)) (with_entries (m_entries m ++ [e]) m)).
Proof.
  unfold createSession. destruct (m_closed m); [done|]. destruct (m_sessions m !! _) eqn:E; [done|]. intros [= <- <-].
  eexists _, _. split_and!; [..|reflexivity]; try done. apply Session_new.
Qed.
Lemma ok_register o uuid now ended m m' k : manager_ok m → createSession o uuid now ended m = Ok (m', k) → manager_ok m'.
Proof.
  intros [H1 H2 H3 H4 H5 H6 H7 H8 H9 H10] Hcr.
  destruct (createSession_inv _ _ _ _ _ _ _ Hcr) as (id & e & Hcl & Hid & -> & He & Heid & Hout & Hg & ->).
  assert (open_sessions (with_wg (S (m_wg m)) (with_sessions (<[id := length (m_entries m)]> (m_sessions m)) (with_entries (m_entries m ++ [e]) m)))
    = S (open_sessions m)) as Hopen.
  { unfold open_sessions. cbn. rewrite filter_app, length_app, filter_cons, Hg, decide_True by done. cbn. lia. }
  split; rewrite ?Hopen; cbn [with_wg with_sessions with_entries m_entries m_sessions m_wg m_closed m_out m_taken m_sink m_closers m_creations]; auto.
  - intros k x [Hx|[_ Hx]]%lookup_app_Some; [by eapply H1|]. apply list_elem_of_lookup_2, list_elem_of_singleton in Hx. by subst.
  - intros id' k [(<- & <-)|[_ Hk]]%lookup_insert_Some.
    + exists e. split; [|done]. by rewrite lookup_app_r, Nat.sub_diag by done.
    + destruct (H2 id' k Hk) as (x & Hx & ?). exists x. split; [by apply lookup_app_l_Some|done].
  - congruence.
  - intros k. rewrite H6. destruct (m_entries m !! k) as [x|] eqn:E; [by rewrite (lookup_app_l_Some _ _ _ _ E)|].
    destruct ((m_entries m ++ [e]) !! k) as [x|] eqn:E'; [|done]. apply lookup_app_Some in E' as [E'|[_ E']]; [congruence|].
    apply list_elem_of_lookup_2, list_elem_of_singleton in E'. by subst.
  - intros Hin. destruct (m_closers m) as [|b bs] eqn:Ec; [by apply not_elem_of_nil in Hin|]. rewrite H9 in Hcl; done.
  - intros i c Hi. apply (creation_kept m); [| |by eapply H10].
    + intros k x Hx. exists x. cbn. split_and!; auto. by apply lookup_app_l_Some.
    + intros id' k Hlt. cbn. intros [(_ & <-)|[_ ?]]%lookup_insert_Some; [lia|done].
Qed.
Lemma ok_cancel k m : manager_ok m → manager_ok (cancel_entry k m).
Proof.
  intros Hok. unfold cancel_entry. destruct (m_entries m !! k) as [e|] eqn:E; [|done].
  apply (ok_touched m); auto. apply (all_touched_put k e); [done|]. apply touched_outside, Outside_cancel.
Qed.
Lemma ok_unregister id m : manager_ok m → manager_ok (with_sessions (delete id (m_sessions m)) m).
Proof.
  intros Hok. apply (ok_touched m); auto; [exact (all_touched_refl m)|]. intros id' k. cbn. by intros [_ ?]%lookup_delete_Some.
Qed.
Lemma ok_withdraw k m : manager_ok m → manager_ok (withdraw k m).
Proof. intros Hok. unfold withdraw. destruct (m_entries m !! k); [|done]. case_bool_decide; [by apply ok_unregister|done]. Qed.
Lemma withdraw_unregistered k m : manager_ok m → unregistered k (withdraw k m).
Proof.
  intros Hok id Hid. unfold withdraw in Hid. destruct (m_entries m !! k) as [e|] eqn:E.
  - assert (m_sessions m !! id = Some k) as Hs.
    { case_bool_decide; [|done]. cbn in Hid. by apply lookup_delete_Some in Hid as [_ ?]. }
    destruct (ok_sessions m Hok id k Hs) as (x & Hx & Hxid). simplify_eq. case_bool_decide as Hb; [|done].
    cbn in Hid. by rewrite lookup_delete_eq in Hid.
  - destruct (ok_sessions m Hok id k Hid) as (x & Hx & _). congruence.
Qed.

(** *** Calls *)

Lemma touched_order os e : touched e (order_to os e).
Proof. apply touched_outside, Outside_order. Qed.
Lemma on_session_touched id f m : (∀ e, touched e (f e)) → all_touched m (on_session id f m).
Proof.
  intros Hf. unfold on_session. destruct (m_sessions m !! id) as [k|]; [|apply all_touched_refl].
  destruct (m_entries m !! k) as [e|] eqn:E; [|apply all_touched_refl]. by apply (all_touched_put k e).
Qed.
Lemma on_session_frame id f m : m_sessions (on_session id f m) = m_sessions m ∧ m_wg (on_session id f m) = m_wg m
  ∧ m_out (on_session id f m) = m_out m ∧ m_taken (on_session id f m) = m_taken m ∧ m_sink (on_session id f m) = m_sink m
  ∧ m_creations (on_session id f m) = m_creations m ∧ m_closed (on_session id f m) = m_closed m ∧ m_closers (on_session id f m) = m_closers m.
Proof. unfold on_session. by repeat case_match. Qed.
Lemma ok_on_session id f m : (∀ e, touched e (f e)) → manager_ok m → manager_ok (on_session id f m).
Proof.
  intros Hf Hok. destruct (on_session_frame id f m) as (E1 & E2 & E3 & E4 & E5 & E6 & E7 & E8).
  apply (ok_touched m); auto; [by apply on_session_touched|]. intros id' k. by rewrite E1.
Qed.
Lemma ok_close_session id m : manager_ok m → manager_ok (CloseSession id m).
Proof.
  intros Hok. unfold CloseSession. destruct (on_session_frame id (order_to [Cancel; Force LogSessionStatusClosed]) m) as (<- & _).
  apply ok_unregister, ok_on_session; [apply touched_order|done].
Qed.
Lemma to_all_touched os m : all_touched m (to_all os m).
Proof.
  unfold all_touched, to_all. cbn [with_entries m_entries]. apply Forall2_same_length_lookup_2; [by rewrite length_imap|].
  intros k e e' He. rewrite list_lookup_imap, He. cbn. intros [= <-]. case_bool_decide; [apply touched_order|apply touched_refl].
Qed.
Lemma ok_command i m : manager_ok m → manager_ok (command i m).
Proof.
  intros Hok. unfold command. repeat case_match; auto using ok_close_session, ok_on_session, touched_order.
Qed.
Lemma ok_to_all os m m' : manager_ok m → m_entries m' = m_entries (to_all os m) → m_sessions m' = ∅ →
  m_wg m' = m_wg m → m_out m' = m_out m → m_taken m' = m_taken m → m_sink m' = m_sink m → m_creations m' = m_creations m →
  (m_closed m' = m_closed m ∧ m_closers m' = m_closers m ∨ m_closed m' = true ∧ (true ∈ m_closers m' → true ∈ m_closers m)) → manager_ok m'.
Proof.
  intros Hok He Hs Hwg Hout Ht Hsi Hc Hcl. apply (ok_touched m); auto.
  - unfold all_touched. rewrite He. apply to_all_touched.
  - intros id k. by rewrite Hs, lookup_empty.
  - destruct Hcl as [?|[? ?]]; auto.
Qed.

Lemma manager_ok_step m m' : manager_ok m → step reg m m' → manager_ok m'.
Proof.
  intros Hok Hs. destruct Hs as [k e l e' m' Hk Hs Hf|o uuid now m' k Hcr|o selected Hreq|i c Hi|i c err Hi Hst|i c Hi Hst|i c err Hi Hst
    |i c uuid now ended Hi Hst|i c k e Hi Hst He|i c k s Hi Hst Hend|i c k s Hi Hst Hend|i c k Hi Hst|i c k err Hi Hst Hd|i c k Hi Hst Hd
    |k e He Hint|id|id o| |s i Hs|s Hs|x rest Hout| |j Hj Hwg].
  - by eapply ok_session.
  - unfold CreateSession in Hcr. destruct (HasResourceIntent o); [done|]. by eapply ok_register.
  - pose proof Hok as [H1 H2 H3 H4 H5 H6 H7 H8 H9 H10]. split; auto. cbn. intros i c [Hi|[_ Hi]]%lookup_app_Some; [by eapply H10|].
    apply list_elem_of_lookup_2, list_elem_of_singleton in Hi. by subst.
  - by apply (ok_creation m i c).
  - apply (ok_creation m i c); auto. unfold creation_ok. rewrite Hst. cbn. intros [-> _]. eauto.
  - apply (ok_creation m i c); auto. unfold creation_ok. rewrite Hst. done.
  - apply (ok_creation m i c); auto. unfold creation_ok. rewrite Hst. destruct (c_ended c); cbn; intros [-> ?]; eauto.
  - destruct (createSession (c_opts c) uuid now ended m) as [[m' k]|err] eqn:E.
    + apply ok_put_creation; [by eapply ok_register|]. pose proof (ok_creations m Hok i c Hi) as Hc. unfold creation_ok in *. rewrite Hst in Hc.
      destruct (createSession_inv _ _ _ _ _ _ _ E) as (id & e & _ & _ & -> & _ & _ & _ & _ & ->). cbn. rewrite length_app. cbn.
      split_and!; [done|apply Hc|lia].
    + apply (ok_creation m i c); auto. unfold creation_ok. rewrite Hst. cbn. intros [-> _]. eauto.
  - apply (ok_creation m i c); auto. unfold creation_ok. by rewrite Hst.
  - apply (ok_creation m i c); auto. unfold creation_ok. rewrite Hst. cbn. intros (? & _ & ?). eauto.
  - apply ok_put_creation; [by apply ok_cancel|]. pose proof (ok_creations m Hok i c Hi) as Hc. unfold creation_ok in *. rewrite Hst in Hc. cbn.
    destruct Hc as (? & ? & Hlt). split_and!; auto. destruct (lookup_lt_is_Some_2 _ _ Hlt) as [e He]. unfold cancel_entry. rewrite He.
    exists (cancel e). cbn. by rewrite list_lookup_insert_eq.
  - apply ok_put_creation; [by apply ok_withdraw|]. pose proof (ok_creations m Hok i c Hi) as Hc. unfold creation_ok in *. rewrite Hst in Hc. cbn.
    destruct Hc as (? & ? & Hc). split_and!; [done|done|by apply withdraw_unregistered|].
    assert (m_entries (withdraw k m) = m_entries m) as -> by (unfold withdraw; by repeat case_match). done.
  - apply (ok_creation m i c); auto. unfold creation_ok. rewrite Hst. cbn. intros (-> & _ & ? & _). auto.
  - apply (ok_creation m i c); auto. unfold creation_ok. rewrite Hst. cbn. intros (-> & ? & _). auto.
  - by apply ok_cancel.
  - by apply ok_close_session.
  - apply ok_on_session; [|done]. intros e. apply touched_outside, Outside_ask.
  - by destruct Hok; split.
  - by apply ok_command.
  - apply (ok_to_all [Cancel] m); auto.
  - pose proof Hok as [H1 H2 H3 H4 H5 H6 H7 H8 H9 H10]. split; auto; cbn.
    + rewrite Hout in H5. cbn in H5. lia.
    + intros k. rewrite <- H6, Hout, <- app_assoc. done.
    + intros Hsi. rewrite H7 in Hout; done.
  - apply (ok_to_all [Cancel; Force LogSessionStatusClosed] m); auto. right. split; [done|]. cbn.
    intros [?|Hin%list_elem_of_singleton]%elem_of_app; [done|done].
  - pose proof Hok as [H1 H2 H3 H4 H5 H6 H7 H8 H9 H10]. split; auto; cbn.
    + intros _. unfold open_sessions in *. cbn. congruence.
    + intros _. apply H9. destruct (m_closers m); [done|discriminate].
Qed.
Lemma manager_ok_of m : reachable reg m → manager_ok m.
Proof.
  induction 1 as [sink|m m' _ IH Hs]; [|by eapply manager_ok_step].
  split; cbn; try done; try (intros ? ?; done).
  lia.
Qed.
End invariant.

(** ** What the manager guarantees *)

Section guarantees.
Context {wire : Protowire} {runtime : ProtoRuntime} {uuids : UUID} (reg : handlerRegistry).

(** Only an update re-enables a source. *)
Definition unenabled (r : run) : Prop := match r_origin r with Reenabled _ => False | _ => True end.
Lemma run_updates k e r l e' : run_step k e r l e' → e_updates e' = e_updates e.
Proof.
  destruct 1; unfold launch, registerSourceCtx, mark_run, mark, becomes_ready, transition, exhausted, record;
    repeat case_match; simplify_eq/=; done.
Qed.
Lemma orch_unenabled reg' e l e' : orch_step reg' e l e' → e_updates e' = e_updates e ∧ (Forall unenabled (e_runs e) → Forall unenabled (e_runs e')).
Proof.
  destruct 1; unfold fan_out, transition, record; repeat case_match; try done; (split; [done|]); cbn; intros Hf; apply Forall_app; (split; [done|]);
    by apply Forall_map, Forall_true.
Qed.
Lemma watch_unenabled e l e' : watch_step e l e' → e_updates e' = e_updates e ∧ (Forall unenabled (e_runs e) → Forall unenabled (e_runs e')).
Proof.
  destruct 1; unfold registerSourceCtx, cancel_source, record; repeat case_match; simplify_eq/=; try done; (split; [done|]); cbn; intros Hf;
    apply Forall_app; (split; [done|]); by apply Forall_singleton.
Qed.
Lemma update_asked reg' i e u l e' : e_updates e !! i = Some u → update_step reg' i e u l e' → e_updates e' ≠ [].
Proof.
  intros Hi Hs He. assert (length (e_updates e') = length (e_updates e)) as Hl; [|rewrite He in Hl; apply lookup_lt_Some in Hi; cbn in Hl; lia].
  destruct Hs; try (cbn; by rewrite length_insert).
  - unfold updateEnabledSources. set (off := filter _ keys). destruct (disabled_frame off e) as (_ & _ & _ & _ & _ & D6).
    cbn. by rewrite length_insert, D6.
  - cbn. rewrite length_insert. unfold record. by case_match.
Qed.
Lemma unchanged_all_runs e : session_of reg e → e_updates e = [] → Forall unenabled (e_runs e).
Proof.
  induction 1 as [s o c|e l e' H IH Hs|e e' H IH Hs]; [by constructor|..].
  - destruct Hs as [k r l e' Hk Hs|l e' Hs|l e' Hs|i u l e' Hi Hs|i x rest Hi].
    + rewrite (run_updates _ _ _ _ _ Hs). intros Hu. specialize (IH Hu).
      destruct (goes_of reg e k r l e' H (seen_ok_of reg e H) Hk Hs) as (r' & Hg & _). rewrite (goes_runs _ _ _ _ _ Hg).
      apply Forall_insert; [done|]. unfold unenabled. rewrite (goes_origin _ _ _ _ _ Hg). by eapply (Forall_lookup_1 _ _ _ _ IH).
    + destruct (orch_unenabled reg e l e' Hs) as [-> Hf]. auto.
    + destruct (watch_unenabled e l e' Hs) as [-> Hf]. auto.
    + intros Hu. by destruct (update_asked reg i e u l e' Hi Hs).
    + by destruct x.
  - destruct Hs; try done. cbn. intros Hu. by apply app_eq_nil in Hu as [_ ?].
Qed.

(** A goroutine of a source is over, or was re-enabled after its session had ended. *)
Definition over_or_late (e : entry) : Prop := ∀ j r, e_runs e !! j = Some r → r_at r = At Finished ∨ r_origin r = Reenabled true.
Lemma done_over m k : manager_ok reg m → session_done k m → ∃ e, m_entries m !! k = Some e ∧ e_done e = true ∧ over_or_late e.
Proof.
  intros Hok (e & He & Hd). exists e. split_and!; [done..|]. intros j r Hj.
  pose proof (drain_ok_of reg e (ok_entries reg m Hok k e He)) as [_ _ _ H4 H5 _]. destruct (H4 (H5 Hd)) as [_ Hr].
  pose proof (Forall_lookup_1 _ _ _ _ Hr Hj) as Hl. cbn in Hl. destruct (late r) eqn:El.
  - right. unfold late in El. by destruct (r_origin r) as [| |[]].
  - left. specialize (Hl eq_refl). unfold over in Hl. by destruct (r_at r) as [[]| |].
Qed.

(** C12: A creation returns the lease of its generation only when its session is done
    and every source goroutine of it is over, but for those that a call of
    [UpdateSessionOptions] re-enabled after the session had already drained; a
    session whose options nobody changed has none left at all. (The exception is
    the code's: it adds such a goroutine to a wait group that was waited for, and
    the goroutine then runs without the lease.) A creation that fails after it had
    registered a session leaves none behind. *)
Theorem log_lease_held m i c k : reachable reg m → m_creations m !! i = Some c → c_session c = Some k →
  (c_stage c = Released → ∃ e, m_entries m !! k = Some e ∧ e_done e = true ∧ over_or_late e
     ∧ (e_updates e = [] → ∀ j r, e_runs e !! j = Some r → r_at r = At Finished))
  ∧ ((∃ err, c_answer c = Some (Err err)) → unregistered k m).
Proof.
  intros H Hi Hk. pose proof (manager_ok_of reg m H) as Hok. pose proof (ok_creations reg m Hok i c Hi) as Hc. unfold creation_ok in Hc.
  split.
  - intros Hst. rewrite Hst, Hk in Hc. destruct Hc as [Hd _]. destruct (done_over m k Hok Hd) as (e & He & Hde & Hl).
    exists e. split_and!; [done..|]. intros Hu j r Hj. destruct (Hl j r Hj) as [?|Ho]; [done|].
    pose proof (Forall_lookup_1 _ _ _ _ (unchanged_all_runs e (ok_entries reg m Hok k e He) Hu) Hj) as Hr. cbn in Hr.
    unfold unenabled in Hr. by rewrite Ho in Hr.
  - intros [err Herr]. destruct (c_stage c); try (destruct Hc; congruence); try (destruct Hc as (? & ? & _); congruence).
    + destruct Hc as (_ & [s Hs] & _). congruence.
    + rewrite Hk in Hc. destruct Hc as [_ [[s Hs]|?]]; [congruence|done].
Qed.

(** C14: When [Close] has returned, no session is registered, none can be created
    any more, and every session there ever was is done with its source goroutines
    over, except those re-enabled afterwards. *)
Theorem log_close_waits m : reachable reg m → true ∈ m_closers m →
  m_sessions m = ∅ ∧ (∀ o uuid now ended, ∃ err, createSession o uuid now ended m = Err err)
  ∧ ∀ k e, m_entries m !! k = Some e → gone e = true ∧ e_done e = true ∧ over_or_late e.
Proof.
  intros H Hin. pose proof (manager_ok_of reg m H) as Hok.
  assert (m_closed m = true) as Hcl by (apply (ok_closing reg m Hok); intros E; rewrite E in Hin; by apply not_elem_of_nil in Hin).
  split_and!; [by apply (ok_closed reg m Hok)|intros; unfold createSession; rewrite Hcl; eauto|].
  intros k e Hk. pose proof (ok_closers reg m Hok Hin) as Ho. apply length_zero_iff_nil in Ho.
  assert (gone e = true) as Hg.
  { destruct (gone e) eqn:Eg; [done|]. assert (e ∈ filter (λ e, gone e = false) (m_entries m)) as Hf
      by (apply list_elem_of_filter; split; [done|by eapply list_elem_of_lookup_2]). rewrite Ho in Hf. by apply not_elem_of_nil in Hf. }
  assert (session_done k m) as Hd.
  { exists e. split; [done|]. apply (drain_returned e (drain_ok_of reg e (ok_entries reg m Hok k e Hk))). unfold gone in Hg.
    by destruct (e_orch e) as [[]| |]. }
  destruct (done_over m k Hok Hd) as (e' & He' & ? & ?). simplify_eq. auto.
Qed.
End guarantees.

(** ** Concrete runs *)

Section runs.
Context {wire : Protowire} {runtime : ProtoRuntime} {uuids : UUID} (reg : handlerRegistry).

(** The manager's part of a step of session [k] with a label, where it is ready for it. *)
Definition answer_label (k : nat) (e : entry) (l : label) (m : Manager) : option Manager :=
  match l with
  | Quiet | Unsent None => Some m
  | Lookup t => if bool_decide (t = lookup_session e m) then Some m else None
  | Sent o => if m_sink m || (length (m_out m) <? streamOutputBuffer)%nat then Some (send k o m) else None
  | Unsent (Some _) => None
  | Done => Some (with_wg (pred (m_wg m)) m)
  end.
Lemma answer_follows k e l m m' : answer_label k e l m = Some m' → follows m k e l m'.
Proof.
  destruct l as [|t|o|[t|]|]; unfold answer_label; try (intros [= <-]; constructor); try done.
  - case_bool_decide as Ht; [|done]. intros [= <-]. subst. constructor.
  - destruct (m_sink m || _) eqn:E; [|done]. intros [= <-]. constructor.
    apply orb_true_iff in E as [?|E]; [by left|right]. by apply Nat.ltb_lt in E.
Qed.
(** Session [k] goes from [e] to [e'] with a label. *)
Definition act (k : nat) (l : entry → label) (f : entry → entry) (m : Manager) : Manager :=
  match m_entries m !! k with
  | Some e => match answer_label k e (l e) m with Some m' => put k (f e) m' | None => m end
  | None => m
  end.
Lemma act_reach k l f m : (∀ e, f e = e ∧ l e = Quiet ∨ entry_step reg e (l e) (f e)) → reachable reg m → reachable reg (act k l f m).
Proof.
  intros Hf H. unfold act. destruct (m_entries m !! k) as [e|] eqn:E; [|done].
  destruct (answer_label k e (l e) m) as [m'|] eqn:Ea; [|done]. destruct (Hf e) as [[He Hl]|Hs].
  - rewrite Hl in Ea. injection Ea as <-. rewrite He. assert (put k e m = m) as ->; [|done].
    unfold put. rewrite list_insert_id by done. by destruct m.
  - eapply Reach_step; [done|]. eapply Step_session; [done..|]. by apply answer_follows.
Qed.

Definition source_label (j : nat) (e : entry) : label := match e_runs e !! j with Some r => run_label e (r_at r) | None => Quiet end.
Definition source_on (k j n : nat) (line : option bytes) (m : Manager) : Manager :=
  Nat.iter n (act k (source_label j) (advance_run zero_time line j)) m.
Definition main_on (k n : nat) (m : Manager) : Manager :=
  Nat.iter n (act k (λ e, orch_label e (e_orch e)) (advance_orch reg zero_time)) m.
(** The next order of a session's first call. *)
Definition obey (e : entry) : entry :=
  match e_orders e !! 0%nat with Some (x :: rest) => follow_order x (set_orders (<[0%nat := rest]> (e_orders e)) e) | _ => e end.
Definition orders_on (k n : nat) (m : Manager) : Manager := Nat.iter n (act k (λ _, Quiet) obey) m.
Lemma iter_reach n f m : (∀ m, reachable reg m → reachable reg (f m)) → reachable reg m → reachable reg (Nat.iter n f m).
Proof. intros Hf H. induction n as [|n IH]; [done|]. cbn. by apply Hf. Qed.
Lemma source_reach k j n line m : reachable reg m → reachable reg (source_on k j n line m).
Proof.
  intros H. apply iter_reach; [|done]. intros m'. apply act_reach. intros e. unfold source_label.
  destruct (e_runs e !! j) as [r|] eqn:E; [|left; unfold advance_run; by rewrite E].
  destruct (advance_run_cases zero_time line j e r E) as [?|Hs]; [by left|right]. by eapply Entry_run.
Qed.
(** The lookup of [emitEvent], whatever it finds. *)
Definition look_up (k j : nat) (m : Manager) : Manager :=
  match m_entries m !! k with
  | Some e =>
    match e_runs e !! j with
    | Some r => match r_at r with
                | Emit ev l => put k (put_run j (at_flow match lookup_session e m with Some t => Deliver ev t l | None => At l end r) (log_asked (Reader j) ev e)) m
                | _ => m
                end
    | None => m
    end
  | None => m
  end.
Lemma look_up_reach k j m : reachable reg m → reachable reg (look_up k j m).
Proof.
  intros H. unfold look_up. destruct (m_entries m !! k) as [e|] eqn:Ek; [|done]. destruct (e_runs e !! j) as [r|] eqn:Ej; [|done].
  destruct (r_at r) as [l|ev l|ev t l] eqn:Ea; [done| |done]. eapply Reach_step; [done|].
  eapply (Step_session reg m k e); [done| |apply Follow_lookup]. eapply Entry_run; [done|].
  eapply (Run_emits j e r _ (Asked ev)). rewrite Ea. apply D_lookup.
Qed.
Lemma main_reach k n m : reachable reg m → reachable reg (main_on k n m).
Proof.
  intros H. apply iter_reach; [|done]. intros m'. apply act_reach. intros e.
  destruct (advance_orch_cases reg zero_time e) as [?|Hs]; [by left|right]. by eapply Entry_orch.
Qed.
Lemma orders_reach k n m : reachable reg m → reachable reg (orders_on k n m).
Proof.
  intros H. apply iter_reach; [|done]. intros m'. apply act_reach. intros e. unfold obey.
  destruct (e_orders e !! 0%nat) as [[|x rest]|] eqn:E; [by left| |by left]. right. by eapply Entry_order.
Qed.

(** A creation goes on; its lease is granted and its request does not end. *)
Definition advance_creation (uuid : string) (i : nat) (m : Manager) : Manager :=
  match m_creations m !! i with
  | None => m
  | Some c =>
    match c_stage c with
    | Acquiring => put_creation i (at_stage InCallback c) m
    | InCallback => put_creation i (if c_ended c then answered (Err ECanceled) Released c else at_stage Accepting c) m
    | Accepting =>
      match createSession (c_opts c) uuid zero_native false m with
      | Ok (m', k) => put_creation i (registered_as k c) m'
      | Err err => put_creation i (answered (Err err) Released c) m
      end
    | Registered k => match m_entries m !! k with Some e => put_creation i (at_stage (Created k (snapshot e)) c) m | None => m end
    | Created k s =>
      if c_ended c then put_creation i (at_stage (Withdrawing k) c) (cancel_entry k m)
      else put_creation i (answered (Ok s) (Published k) c) m
    | Published k =>
      match m_entries m !! k with Some e => if e_done e then put_creation i (at_stage Released c) m else m | None => m end
    | _ => m
    end
  end.
Definition creation_on (uuid : string) (i n : nat) (m : Manager) : Manager := Nat.iter n (advance_creation uuid i) m.
Lemma creation_reach uuid i n m : reachable reg m → reachable reg (creation_on uuid i n m).
Proof.
  intros H. apply iter_reach; [|done]. clear m H. intros m H. unfold advance_creation.
  destruct (m_creations m !! i) as [c|] eqn:Ei; [|done].
  destruct (c_stage c) as [| | |k|k s|k|k|k|] eqn:Es; try done.
  - eapply Reach_step; [done|]. by eapply Step_leased.
  - eapply Reach_step; [done|]. by eapply Step_accept.
  - eapply Reach_step; [done|]. by eapply Step_register.
  - destruct (m_entries m !! k) as [e|] eqn:Ee; [|done]. eapply Reach_step; [done|]. by eapply Step_snapshot.
  - destruct (c_ended c) eqn:Ee; (eapply Reach_step; [done|]); [by eapply Step_abandon|by eapply Step_publish].
  - destruct (m_entries m !! k) as [e|] eqn:Ee; [|done]. destruct (e_done e) eqn:Ed; [|done]. eapply Reach_step; [done|].
    eapply Step_release; [done..|]. by exists e.
Qed.
Definition request (o : CreateSessionOptions) (m : Manager) : Manager :=
  with_creations (m_creations m ++ [mkCreation o false Acquiring None None]) m.
Lemma request_reach o m : request_checks None o = Some (Ok tt) → reachable reg m → reachable reg (request o m).
Proof. intros Hc H. eapply Reach_step; [done|]. by eapply Step_request. Qed.
Lemma close_session_reach id m : reachable reg m → reachable reg (CloseSession id m).
Proof. intros H. eapply Reach_step; [done|]. apply Step_close_session. Qed.
Lemma close_reach m : reachable reg m → reachable reg (Close m).
Proof. intros H. eapply Reach_step; [done|]. apply Step_close. Qed.
Definition close_returns (j : nat) (m : Manager) : Manager :=
  if bool_decide (m_closers m !! j = Some false ∧ m_wg m = 0%nat) then
    mkManager (m_sink m) (m_sessions m) (m_entries m) (m_closed m) (m_out m) (m_taken m) (m_wg m) (m_creations m) (m_streams m)
      (<[j := true]> (m_closers m))
  else m.
Lemma close_returns_reach j m : reachable reg m → reachable reg (close_returns j m).
Proof. intros H. unfold close_returns. case_bool_decide as Hc; [|done]. destruct Hc. eapply Reach_step; [done|]. by apply Step_close_returns. Qed.
End runs.

#[local] Instance sample_wire : Protowire := {| SizeVarint n := Z.min 10 (varintSize n `max` 1); EncodeZigZag n := 2 * n |}.
#[local] Instance sample_runtime : ProtoRuntime := {| proto_Size := encoded_size; SizeTag := tag_size; SizeBytes := delimited |}.
#[local] Instance sample_uuids : UUID := {| uuid_Parse _ := true |}.

(** A session of one source, with events of its sources, runs to its end; its
    creation returns, and so does [Close]. *)
Definition eventful : CreateSessionOptions :=
  mkCreate "s1" "pod" "p1" None None None (mkLogOptions None None "" true false false 0 0 None 0 true []).
Lemma eventful_checks : request_checks None eventful = Some (Ok tt).
Proof. vm_compute. reflexivity. Qed.
Definition serving : Manager := main_on sample_reg 0 5 (creation_on "" 0 5 (request eventful (NewManager false))).
Lemma serving_reachable : reachable sample_reg serving.
Proof. apply main_reach, creation_reach, request_reach, Reach_new. exact eventful_checks. Qed.
Definition closed_manager : Manager :=
  close_returns 0 (Close (creation_on "" 0 1 (main_on sample_reg 0 12 (source_on 0 0 9 None (source_on 0 0 18 (Some sample_line) serving))))).
Lemma closed_reachable : reachable sample_reg closed_manager.
Proof. apply close_returns_reach, close_reach, creation_reach, main_reach, source_reach, source_reach, serving_reachable. Qed.
Lemma log_close_waits_witness : reachable sample_reg closed_manager ∧ true ∈ m_closers closed_manager
  ∧ length (m_entries closed_manager) = 1%nat ∧ m_sessions closed_manager = ∅.
Proof.
  assert (true ∈ m_closers closed_manager) as Hin by (apply (bool_decide_unpack _); vm_compute; exact I).
  split; [exact closed_reachable|]. split; [exact Hin|]. split; [vm_compute; reflexivity|].
  exact (proj1 (log_close_waits sample_reg closed_manager closed_reachable Hin)).
Defined.
Lemma log_lease_held_witness : reachable sample_reg closed_manager
  ∧ ∃ c, m_creations closed_manager !! 0%nat = Some c ∧ c_session c = Some 0%nat ∧ c_stage c = Released
    ∧ ∃ e, m_entries closed_manager !! 0%nat = Some e ∧ e_done e = true
      ∧ ∀ j r, e_runs e !! j = Some r → r_at r = At Finished.
Proof.
  split; [exact closed_reachable|].
  destruct (m_creations closed_manager !! 0%nat) as [c|] eqn:E; [|vm_compute in E; discriminate E].
  assert (c_session c = Some 0%nat ∧ c_stage c = Released) as [Hc Hs] by (vm_compute in E; injection E as <-; split; reflexivity).
  exists c. split; [reflexivity|]. split; [exact Hc|]. split; [exact Hs|].
  destruct (proj1 (log_lease_held sample_reg closed_manager 0 c 0 closed_reachable E Hc) Hs) as (e & He & Hd & _ & Hu).
  exists e. split; [exact He|]. split; [exact Hd|]. apply Hu.
  vm_compute in He. injection He as <-. reflexivity.
Defined.

(** A session is closed while its source is about to announce itself, and another
    is created under its ID: the announcement of the first is delivered to the
    client in the name of the second, which has done nothing yet. *)
Definition succeeded : Manager :=
  creation_on "" 1 5 (request eventful (orders_on 0 2 (CloseSession "s1" (source_on 0 0 4 None serving)))).
Definition misdelivered : Manager := source_on 0 0 1 None (look_up 0 0 succeeded).
Example closed_session_emits : reachable sample_reg misdelivered
  ∧ m_sessions succeeded !! "s1" = Some 1%nat ∧ map e_canceled (m_entries succeeded) = [true; false] ∧ m_out succeeded = []
  ∧ map (λ x, (x.1, so_SessionID x.2, ev_Message <$> so_Event x.2)) (m_out misdelivered) = [(0%nat, "s1", Some "Started streaming from p1")]
  ∧ map e_orch (m_entries misdelivered) = [At Joining; At Beginning].
Proof.
  split; [apply source_reach, look_up_reach, creation_reach, request_reach, orders_reach, close_session_reach, source_reach, serving_reachable;
          exact eventful_checks|].
  vm_compute. repeat split.
Qed.
