(* ===== verification/LogEvents.v ===== *)
(** * Events reach the stream (pkg/v1/logs/manager.go, emitEvent)

    What becomes of every call of [emitEvent] and of every output, from the
    goroutine that makes it to the client: the calls are recorded when they look
    their session up, the outputs when they are handed over, and an event between
    the two is in flight. *)
From S2P Require Import Prelude GoStd GoTime Errors Values Json Domain Canonical Source Proto Messages LogTypes LogLines LogSession LogSources LogReady LogEnd LogManager LogRegistry.
Local Open Scope Z_scope.

(** ** The events of a goroutine *)

(** Looked up, not handed over yet; with the session it was found for. *)
Definition in_flight {L} (f : flow L) : list (LogStreamEvent * nat) :=
  match f with Deliver ev t _ => [(ev, t)] | _ => [] end.
Definition from {A B} (f : A → list B) (x : option A) : list B := match x with Some a => f a | None => [] end.
Definition flight (w : worker) (e : entry) : list (LogStreamEvent * nat) :=
  match w with
  | Main => in_flight (e_orch e)
  | Watcher => from in_flight (e_watch e)
  | Updater i => from in_flight (e_updates e !! i)
  | Reader j => from (in_flight ∘ r_at) (e_runs e !! j)
  end.
Definition asked_by (w : worker) (l : list (worker * LogStreamEvent)) : list LogStreamEvent :=
  omap (λ x, if bool_decide (x.1 = w) then Some x.2 else None) l.
Definition events_by (w : worker) (l : list (worker * StreamOutput)) : list LogStreamEvent :=
  omap (λ x, if bool_decide (x.1 = w) then so_Event x.2 else None) l.

Lemma asked_snoc w l v ev : asked_by w (l ++ [(v, ev)]) = asked_by w l ++ (if bool_decide (v = w) then [ev] else []).
Proof. unfold asked_by. rewrite omap_app. cbn. by case_bool_decide. Qed.
Lemma events_snoc w l v o : events_by w (l ++ [(v, o)]) =
  events_by w l ++ (if bool_decide (v = w) then from (λ ev, [ev]) (so_Event o) else []).
Proof. unfold events_by. rewrite omap_app. cbn. case_bool_decide; [by destruct (so_Event o)|done]. Qed.

(** A step in which no goroutine calls or leaves [emitEvent]. *)
Record calm (e e' : entry) : Prop := mkCalm {
  calm_flight : ∀ w, flight w e' = flight w e;
  calm_asked : e_asked e' = e_asked e;
  calm_events : ∀ w, events_by w (e_log e') = events_by w (e_log e)
}.
(** A step of [emitEvent] by goroutine [w]. *)
Inductive speaks (e : entry) (w : worker) (e' : entry) : label → Prop :=
| Speaks_asks ev target : flight w e = [] → flight w e' = from (λ t, [(ev, t)]) target →
    e_asked e' = e_asked e ++ [(w, ev)] → e_log e' = e_log e → speaks e w e' (Lookup target)
| Speaks_hands ev t : flight w e = [(ev, t)] → flight w e' = [] → e_asked e' = e_asked e →
    e_log e' = e_log e ++ [(w, event_output e ev)] → speaks e w e' (Sent (event_output e ev))
| Speaks_gives_up ev t : flight w e = [(ev, t)] → flight w e' = [] → e_asked e' = e_asked e → e_log e' = e_log e →
    speaks e w e' (Unsent (Some t)).
Definition others_same (w : worker) (e e' : entry) : Prop := ∀ v, v ≠ w → flight v e' = flight v e.

Lemma calm_same e e' : e_orch e' = e_orch e → e_watch e' = e_watch e → e_updates e' = e_updates e → e_runs e' = e_runs e →
  e_asked e' = e_asked e → e_log e' = e_log e → calm e e'.
Proof. intros Ho Hw Hu Hr Ha Hl. split; rewrite ?Hl; auto. intros [| |i|j]; cbn; by rewrite ?Ho, ?Hw, ?Hu, ?Hr. Qed.
Lemma calm_trans e e' e'' : calm e e' → calm e' e'' → calm e e''.
Proof. intros [F A E] [F' A' E']. split; intros; by rewrite ?F', ?A', ?E', ?F, ?A, ?E. Qed.
Lemma calm_orch e f : in_flight (e_orch e) = [] → in_flight f = [] → calm e (set_orch f e).
Proof. intros H H'. split; [|done..]. intros [| |i|j]; cbn; by rewrite ?H, ?H'. Qed.
Lemma calm_watch e f : from in_flight (e_watch e) = [] → in_flight f = [] → calm e (set_watch f e).
Proof. intros H H'. split; [|done..]. intros [| |i|j]; cbn; by rewrite ?H, ?H'. Qed.
Lemma calm_update e i u f : e_updates e !! i = Some u → in_flight u = [] → in_flight f = [] → calm e (set_update i f e).
Proof.
  intros Hi H H'. split; [|done..]. intros [| |i'|j]; cbn; try done. destruct (decide (i' = i)) as [->|Hn].
  - rewrite list_lookup_insert_eq, Hi by (by eapply lookup_lt_Some). cbn. by rewrite H, H'.
  - by rewrite list_lookup_insert_ne.
Qed.
Lemma calm_run e k r r' : e_runs e !! k = Some r → in_flight (r_at r) = [] → in_flight (r_at r') = [] → calm e (put_run k r' e).
Proof.
  intros Hk H H'. split; [|done..]. intros [| |i|j]; cbn; try done. destruct (decide (j = k)) as [->|Hn].
  - rewrite list_lookup_insert_eq, Hk by (by eapply lookup_lt_Some). cbn. by rewrite H, H'.
  - by rewrite list_lookup_insert_ne.
Qed.
Lemma calm_spawn e rs : Forall fresh rs → calm e (spawn rs e).
Proof.
  intros Hf. split; [|done..]. intros [| |i|j]; cbn; try done. destruct (e_runs e !! j) as [r|] eqn:E.
  - by rewrite (lookup_app_l_Some _ _ _ _ E).
  - rewrite lookup_app_r by (by apply lookup_ge_None). destruct (rs !! _) as [r|] eqn:E'; [|done].
    destruct (Forall_lookup_1 _ _ _ _ Hf E') as ([H|H] & _); cbn; by rewrite H.
Qed.
Lemma calm_line e k l : calm e (log_output k (line_output l) e).
Proof. split; [by intros []|done|]. intros w. cbn [e_log log_output]. rewrite events_snoc. cbn. case_bool_decide; by rewrite app_nil_r. Qed.

(** A delivery is a step of [emitEvent]. *)
Lemma delivery_speaks {L} e (f : flow L) l x f' w e' : delivery e f l x f' → flight w e = in_flight f → flight w e' = in_flight f' →
  e_asked e' = e_asked (record w x e) → e_log e' = e_log (record w x e) → speaks e w e' l.
Proof.
  intros Hd. destruct Hd as [ev l target|ev t l|ev t l]; cbn [in_flight record log_asked log_output e_asked e_log]; intros Hf Hf' Ha Hl.
  - apply (Speaks_asks e w e' ev); auto. by destruct target.
  - by apply (Speaks_hands e w e' ev t).
  - by apply (Speaks_gives_up e w e' ev t).
Qed.

Ltac calming := repeat match goal with
  | |- calm ?e (set_orch _ ?e') => apply (calm_trans e e'); [|apply calm_orch]
  | |- calm ?e (set_watch _ ?e') => apply (calm_trans e e'); [|apply calm_watch]
  | |- calm ?e (spawn _ ?e') => apply (calm_trans e e'); [|apply calm_spawn]
  end; try done; try (by apply calm_same).

Lemma run_speaks k e r l e' : e_runs e !! k = Some r → run_step k e r l e' → calm e e' ∨ speaks e (Reader k) e' l ∧ others_same (Reader k) e e'.
Proof.
  intros Hk Hs. destruct Hs as [Hat|Hat Hb|Hat Hd|Hat|Hat|Hat|now Hat|now Hat|Hat Hd|Hat|now reader Hat|Hat|now m next Hat|line Hat Hb
    |retry Hat|line Hat|line Hat|li Hat|li Hat Hd|retry Hat|retry Hat|now Hat|Hat|Hat|l x f Hdel].
  25: { right. split.
        - eapply delivery_speaks; [exact Hdel|cbn; by rewrite Hk| |by destruct x|by destruct x].
          assert (e_runs (record (Reader k) x e) = e_runs e) as Hr by (by destruct x).
          cbn. rewrite Hr, list_lookup_insert_eq by (by eapply lookup_lt_Some). done.
        - intros [| |i|j] Hj; cbn; try (by destruct x). rewrite list_lookup_insert_ne by congruence. by destruct x. }
  all: left; assert (in_flight (r_at r) = []) as Hf by (by rewrite Hat).
  1: { unfold launch, registerSourceCtx. destruct (sourceCtxs _ !! _); [by apply (calm_run e k r)|].
       eapply calm_trans; [|by apply (calm_run _ k r)]. by apply calm_same. }
  12: { unfold mark_run, mark, becomes_ready, transition. destruct m; repeat case_match; simplify_eq/=; try (by apply (calm_run e k r));
          (eapply calm_trans; [|by apply (calm_run _ k r)]); by apply calm_same. }
  16: { eapply calm_trans; [apply calm_line|by apply (calm_run _ k r)]. }
  all: unfold turn, open_source, exhausted; repeat case_match; simplify_eq/=;
    first [by apply (calm_run e k r) | eapply calm_trans; [|by apply (calm_run _ k r)]; by apply calm_same].
Qed.
Lemma fresh_fanned o sources : Forall fresh (map (λ s, new_run s o Fanned None Launching) sources).
Proof. apply Forall_map, Forall_true. intros s. apply fresh_new. by left. Qed.
Lemma orch_speaks reg e l e' : drain_ok e → orch_step reg e l e' → calm e e' ∨ speaks e Main e' l ∧ others_same Main e e'.
Proof.
  intros [_ Hearly _ _ _ _] Hs. destruct Hs as [Ho|o answer Ho|msg now Ho|o sources w Ho|o sources w Ho|o sources w Ho|o w now Ho|o sources w Ho|Ho _|Ho _ _|Ho|Ho|now Ho|Ho|Ho|l x f Hd].
  16: { right. split; [by eapply delivery_speaks; [exact Hd|done|done|destruct x..]|]. intros [| |i|j] Hj; cbn; try done; by destruct x. }
  all: left; rewrite Ho in Hearly; unfold transition, fan_out; repeat case_match; calming; try apply fresh_fanned; try (cbn; by rewrite Ho).
  by destruct (Hearly eq_refl) as [-> _].
Qed.
Lemma watch_speaks e l e' : watch_step e l e' → calm e e' ∨ speaks e Watcher e' l ∧ others_same Watcher e e'.
Proof.
  intros Hs. destruct Hs as [Hw|s Hw|s Hw|s Hw|s k now Hw|s k Hw|s Hw|s now Hw|w l x f Hw Hd].
  9: { right. split; [eapply delivery_speaks; [exact Hd|cbn; by rewrite Hw|done|destruct x; done..]|].
       intros [| |i|j] Hj; cbn; try done; by destruct x. }
  all: left; unfold registerSourceCtx, cancel_source; repeat case_match; simplify_eq/=; calming; try (cbn; by rewrite Hw).
  apply Forall_singleton, fresh_new. by right.
Qed.
Lemma update_speaks reg i e u l e' : e_updates e !! i = Some u → update_step reg i e u l e' →
  calm e e' ∨ speaks e (Updater i) e' l ∧ others_same (Updater i) e e'.
Proof.
  intros Hi Hs. destruct Hs as [o|s keys now Hk|ev evs restart|restart|restart|o s rest now|o|u l x f Hd].
  8: { right. split.
       - eapply delivery_speaks; [exact Hd|cbn; by rewrite Hi| |by destruct x|by destruct x].
         assert (e_updates (record (Updater i) x e) = e_updates e) as Hr by (by destruct x).
         cbn. rewrite Hr, list_lookup_insert_eq by (by eapply lookup_lt_Some). done.
       - intros [| |i'|j] Hj; cbn; try (by destruct x). rewrite list_lookup_insert_ne by congruence. by destruct x. }
  all: left.
  - apply (calm_trans e (set_options o e)); [by apply calm_same|]. by apply (calm_update _ i (At (Setting o))).
  - unfold updateEnabledSources. set (off := filter _ keys). destruct (disabled_frame off e) as (_ & D2 & D3 & D4 & D5 & D6).
    eapply calm_trans; [|eapply (calm_update _ i (At (Enabling s))); [by rewrite D6|done..]].
    apply calm_same; auto. clear. revert e. induction off as [|id off IH]; intros e; [done|]. cbn [foldl]. rewrite IH.
    unfold cancel_source. by destruct (sourceCtxs _ !! id).
  - by eapply calm_update.
  - by eapply calm_update.
  - by eapply calm_update.
  - eapply calm_trans; [apply (calm_spawn e)|by eapply calm_update]. apply Forall_singleton, fresh_new. by left.
  - by eapply calm_update.
Qed.

(** Every step of a session is calm or a step of [emitEvent] by one goroutine. *)
Lemma step_speaks reg e l e' : session_of reg e → entry_step reg e l e' → calm e e' ∨ ∃ w, speaks e w e' l ∧ others_same w e e'.
Proof.
  intros H Hs. destruct Hs as [k r l e' Hk Hs|l e' Hs|l e' Hs|i u l e' Hi Hs|i x rest Hi].
  - destruct (run_speaks k e r l e' Hk Hs); eauto.
  - destruct (orch_speaks reg e l e' (drain_ok_of reg e H) Hs); eauto.
  - destruct (watch_speaks e l e' Hs); eauto.
  - destruct (update_speaks reg i e u l e' Hi Hs); eauto.
  - left. by destruct x; apply calm_same.
Qed.
Lemma outside_calm e e' : outside_step e e' → calm e e'.
Proof.
  destruct 1; try (by apply calm_same). split; [|done..]. intros [| |i|j]; cbn; try done.
  destruct (e_updates e !! i) as [u|] eqn:E; [by rewrite (lookup_app_l_Some _ _ _ _ E)|].
  rewrite lookup_app_r by (by apply lookup_ge_None). destruct (_ - _)%nat; done.
Qed.

(** ** The invariant *)

(** Session [k] was cancelled, or has left the map. *)
Definition closed_off (k : nat) (e : entry) (m : Manager) : Prop := e_canceled e = true ∨ unregistered k m.
Record told (k : nat) (e : entry) (m : Manager) (w : worker) : Prop := mkTold {
  told_order : (events_by w (e_log e) ++ map fst (flight w e)) `sublist_of` asked_by w (e_asked e);
  told_all : asked_by w (e_asked e) = events_by w (e_log e) ++ map fst (flight w e) ∨ closed_off k e m;
  told_target : ∀ ev t, (ev, t) ∈ flight w e → t = k ∨ unregistered k m
}.
Definition all_told (m : Manager) : Prop := ∀ k e, m_entries m !! k = Some e → ∀ w, told k e m w.

(** What keeps it: entries change calmly or are new, and indices are not registered again. *)
Definition settled (e e' : entry) : Prop := calm e e' ∧ (e_canceled e = true → e_canceled e' = true).
Definition untold (e : entry) : Prop := e_asked e = [] ∧ e_log e = [] ∧ ∀ w, flight w e = [].
Definition no_return (m m' : Manager) : Prop :=
  ∀ id k, (k < length (m_entries m))%nat → m_sessions m' !! id = Some k → m_sessions m !! id = Some k.
Definition follows_up (m m' : Manager) : Prop :=
  no_return m m' ∧ ∀ k e', m_entries m' !! k = Some e' → untold e' ∨ ∃ e, m_entries m !! k = Some e ∧ settled e e'.

Lemma settled_refl e : settled e e.
Proof. by split; [by apply calm_same|]. Qed.
Lemma settled_outside e e' : outside_step e e' → settled e e'.
Proof. intros Hs. split; [by apply outside_calm|by destruct Hs]. Qed.
Lemma unregistered_kept m m' k : no_return m m' → (k < length (m_entries m))%nat → unregistered k m → unregistered k m'.
Proof. intros Hn Hk Hu id Hid. by apply (Hu id), Hn. Qed.
Lemma told_settled m m' k e e' w : no_return m m' → m_entries m !! k = Some e → settled e e' → told k e m w → told k e' m' w.
Proof.
  intros Hn Hk [[F A E] Hc] [T1 T2 T3]. pose proof (unregistered_kept m m' k Hn (lookup_lt_Some _ _ _ Hk)) as Hu.
  split; rewrite ?F, ?A, ?E; [done| |].
  - destruct T2 as [?|[?|?]]; [by left|right; left; auto|right; right; auto].
  - intros ev t Hin. destruct (T3 ev t Hin); auto.
Qed.
Lemma told_untold m k e w : untold e → told k e m w.
Proof. intros (Ha & Hl & Hf). split; rewrite ?Ha, ?Hl, ?Hf; [done|by left|]. by intros ev t ?%elem_of_nil. Qed.
Lemma all_told_follows m m' : follows_up m m' → all_told m → all_told m'.
Proof.
  intros [Hn He] H k e' Hk w. destruct (He k e' Hk) as [Hu|(e & He' & Hs)]; [by apply told_untold|].
  apply (told_settled m m' k e); auto.
Qed.

(** *** Steps outside [emitEvent] *)

Lemma follows_put k e e' m : m_entries m !! k = Some e → settled e e' → follows_up m (put k e' m).
Proof.
  intros Hk Hs. split; [by intros ?|]. intros j x [(-> & <- & _)|[_ Hx]]%list_lookup_insert_Some; right; [by exists e|].
  exists x. split; [done|apply settled_refl].
Qed.
Lemma follows_refl m m' : m_entries m' = m_entries m → (∀ id k, m_sessions m' !! id = Some k → m_sessions m !! id = Some k) → follows_up m m'.
Proof. intros He Hs. split; [by intros ? ? _; apply Hs|]. intros k e. rewrite He. intros Hk. right. exists e. split; [done|apply settled_refl]. Qed.
Lemma follows_then m m1 m' : follows_up m m1 → m_entries m' = m_entries m1 →
  (∀ id k, m_sessions m' !! id = Some k → m_sessions m1 !! id = Some k) → follows_up m m'.
Proof. intros [Hn He] H1 H2. split; [intros id k Hk Hs; by apply Hn, H2|]. intros k e'. rewrite H1. apply He. Qed.
Lemma follows_on_session id f m : (∀ e, settled e (f e)) → follows_up m (on_session id f m).
Proof.
  intros Hf. unfold on_session. destruct (m_sessions m !! id) as [k|]; [|by apply follows_refl].
  destruct (m_entries m !! k) as [e|] eqn:E; [by apply (follows_put k e)|by apply follows_refl].
Qed.
Lemma follows_cancel k m : follows_up m (cancel_entry k m).
Proof.
  unfold cancel_entry. destruct (m_entries m !! k) as [e|] eqn:E; [|by apply follows_refl].
  apply (follows_put k e); [done|]. apply settled_outside, Outside_cancel.
Qed.
Lemma settled_order os e : settled e (order_to os e).
Proof. apply settled_outside, Outside_order. Qed.
Lemma follows_to_all os m : follows_up m (to_all os m).
Proof.
  split; [by intros ?|]. intros k e'. unfold to_all. cbn [with_entries m_entries]. rewrite list_lookup_imap.
  destruct (m_entries m !! k) as [e|]; [|done]. cbn. intros [= <-]. right. exists e. split; [done|].
  case_bool_decide; [apply settled_order|apply settled_refl].
Qed.
Lemma follows_create o uuid now ended m m' k : createSession o uuid now ended m = Ok (m', k) → follows_up m m'.
Proof.
  unfold createSession. destruct (m_closed m); [done|]. destruct (m_sessions m !! _) eqn:E; [done|]. intros [= <- <-].
  split.
  { intros id k Hk Hid. cbn in Hid. apply lookup_insert_Some in Hid as [(_ & <-)|[_ ?]]; [lia|done]. }
  cbn. intros k e' [Hk|[_ Hk]]%lookup_app_Some; [right; exists e'; split; [done|apply settled_refl]|left].
  apply list_elem_of_lookup_2, list_elem_of_singleton in Hk as ->. split_and!; [done|done|by intros []].
Qed.
Lemma follows_close_session id m : follows_up m (CloseSession id m).
Proof.
  apply (follows_then m (on_session id (order_to [Cancel; Force LogSessionStatusClosed]) m)); [by apply follows_on_session, settled_order|done|].
  intros id' k. cbn. rewrite lookup_delete_Some. intros [_ ?].
  by destruct (on_session_frame id (order_to [Cancel; Force LogSessionStatusClosed]) m) as (-> & _).
Qed.
Lemma follows_withdraw k m : follows_up m (withdraw k m).
Proof.
  unfold withdraw. destruct (m_entries m !! k); [|by apply follows_refl]. case_bool_decide; [|by apply follows_refl].
  apply follows_refl; [done|]. cbn. by intros id j [_ ?]%lookup_delete_Some.
Qed.
Lemma follows_command i m : follows_up m (command i m).
Proof. unfold command. repeat case_match; auto using follows_on_session, settled_order, follows_close_session. by apply follows_refl. Qed.

(** *** Steps of [emitEvent] *)

Section invariant.
Context {wire : Protowire} {runtime : ProtoRuntime} {uuids : UUID} (reg : handlerRegistry).

(** What the lookup finds says whether the session is closed off. *)
Lemma lookup_told m k e : manager_ok reg m → m_entries m !! k = Some e →
  match lookup_session e m with Some t => t = k ∨ unregistered k m | None => closed_off k e m end.
Proof.
  intros Hok Hk. assert (∀ j, m_sessions m !! ls_ID (e_session e) = Some j → j ≠ k → unregistered k m) as Hother.
  { intros j Hj Hn id Hid. destruct (ok_sessions reg m Hok id k Hid) as (x & Hx & Hxid). simplify_eq. }
  unfold lookup_session. destruct (m_sessions m !! _) as [j|] eqn:Ej.
  - destruct (m_entries m !! j) as [x|] eqn:Ex.
    + destruct (e_canceled x) eqn:Ec; destruct (decide (j = k)) as [->|Hn]; eauto; [left; by simplify_eq|right; by eapply Hother].
    + destruct (ok_sessions reg m Hok _ j Ej) as (y & Hy & _). congruence.
  - right. intros id Hid. destruct (ok_sessions reg m Hok id k Hid) as (x & Hx & Hxid). simplify_eq.
Qed.

Lemma asked_other w v l ev : v ≠ w → asked_by v (l ++ [(w, ev)]) = asked_by v l.
Proof. intros Hn. by rewrite asked_snoc, bool_decide_eq_false_2, app_nil_r. Qed.
Lemma events_other w v l o : v ≠ w → events_by v (l ++ [(w, o)]) = events_by v l.
Proof. intros Hn. by rewrite events_snoc, bool_decide_eq_false_2, app_nil_r. Qed.
Lemma asked_self w l ev : asked_by w (l ++ [(w, ev)]) = asked_by w l ++ [ev].
Proof. by rewrite asked_snoc, bool_decide_eq_true_2. Qed.
Lemma events_self e w l ev : events_by w (l ++ [(w, event_output e ev)]) = events_by w l ++ [ev].
Proof. by rewrite events_snoc, bool_decide_eq_true_2. Qed.

Lemma told_session m k e l e' m' w : manager_ok reg m → m_entries m !! k = Some e → follows m k e l m' →
  speaks e w e' l → others_same w e e' → (e_canceled e = true → e_canceled e' = true) →
  (∀ v, told k e m v) → ∀ v, told k e' (put k e' m') v.
Proof.
  intros Hok Hk Hf Hs Hsame Hc Ht v. destruct (follows_frame m k e l m' Hf) as (_ & F2 & _).
  assert (∀ j, unregistered j m → unregistered j (put k e' m')) as Hu by (intros j Hj id; cbn; rewrite F2; apply Hj).
  assert (closed_off k e m → closed_off k e' (put k e' m')) as Hcl by (intros [?|?]; [left|right]; auto).
  destruct (Ht v) as [T1 T2 T3]. destruct (decide (v = w)) as [->|Hn].
  - destruct Hs as [ev target Hf0 Hf1 Ha Hl|ev t Hf0 Hf1 Ha Hl|ev t Hf0 Hf1 Ha Hl]; rewrite Hf0 in *; cbn in T1, T2, T3;
      (split; rewrite ?Ha, ?Hl, Hf1, ?asked_self, ?events_self).
    + rewrite app_nil_r in T1. destruct target as [t|]; cbn; [by apply sublist_app|]. rewrite app_nil_r. by apply sublist_inserts_r.
    + rewrite app_nil_r in T2. assert (target = lookup_session e m) as -> by (clear -Hf; by inversion Hf). pose proof (lookup_told m k e Hok Hk) as Hlk.
      destruct (lookup_session e m) as [t|]; cbn; [|by right; apply Hcl]. destruct T2 as [->|?]; [by left|right; auto].
    + assert (target = lookup_session e m) as -> by (clear -Hf; by inversion Hf). pose proof (lookup_told m k e Hok Hk) as Hlk.
      destruct (lookup_session e m) as [t|]; [|by intros ? ? ?%elem_of_nil]. intros ev' t' Hin%list_elem_of_singleton. simplify_eq.
      destruct Hlk; auto.
    + by rewrite app_nil_r.
    + rewrite app_nil_r. destruct T2 as [->|?]; [by left|right; auto].
    + by intros ? ? ?%elem_of_nil.
    + rewrite app_nil_r. etrans; [|exact T1]. by apply sublist_inserts_r.
    + right. assert (∃ x, m_entries m !! t = Some x ∧ e_canceled x = true) as (x & Hx & Hxc) by (clear -Hf; inversion Hf; subst; eauto).
      destruct (T3 ev t) as [->|?]; [by apply list_elem_of_singleton| |by right; auto].
      left. simplify_eq. auto.
    + by intros ? ? ?%elem_of_nil.
  - assert (asked_by v (e_asked e') = asked_by v (e_asked e) ∧ events_by v (e_log e') = events_by v (e_log e)) as [Ha Hl].
    { destruct Hs as [ev target _ _ Ha Hl|ev t _ _ Ha Hl|ev t _ _ Ha Hl]; rewrite Ha, Hl; split; try done; [by apply asked_other|by apply events_other]. }
    split; rewrite (Hsame v Hn), ?Ha, ?Hl; [done| |].
    + destruct T2; auto.
    + intros ev t Hin. destruct (T3 ev t Hin); auto.
Qed.

Lemma all_told_session m k e l e' m' : manager_ok reg m → m_entries m !! k = Some e → entry_step reg e l e' → follows m k e l m' →
  all_told m → all_told (put k e' m').
Proof.
  intros Hok Hk Hs Hf H. destruct (follows_frame m k e l m' Hf) as (F1 & F2 & _).
  pose proof (step_proceeds reg e l e' (ok_entries reg m Hok k e Hk) Hs) as [_ _ P3 _ _].
  destruct (step_speaks reg e l e' (ok_entries reg m Hok k e Hk) Hs) as [Hc|(w & Hsp & Hsame)].
  - apply (all_told_follows m); [|done]. apply (follows_then m (put k e' m)); [by apply (follows_put k e)|cbn; by rewrite F1|].
    intros id j. cbn. by rewrite F2.
  - intros j x [(-> & <- & _)|[Hn Hx]]%list_lookup_insert_Some v.
    + apply (told_session m j e l e' m' w); auto.
    + rewrite F1 in Hx. apply (told_settled m _ j x x); [|done|apply settled_refl|by apply H].
      intros id i _. cbn. by rewrite F2.
Qed.

Lemma all_told_step m m' : manager_ok reg m → step reg m m' → all_told m → all_told m'.
Proof.
  intros Hok Hs. destruct Hs as [k e l e' m' Hk Hs Hf|o uuid now m' k Hcr|o selected Hreq|i c Hi|i c err Hi Hst|i c Hi Hst|i c err Hi Hst
    |i c uuid now ended Hi Hst|i c k e Hi Hst He|i c k s Hi Hst Hend|i c k s Hi Hst Hend|i c k Hi Hst|i c k err Hi Hst Hd|i c k Hi Hst Hd
    |k e He Hint|id|id o| |s i Hs|s Hs|x rest Hout| |j Hj Hwg].
  1: by eapply all_told_session.
  all: apply all_told_follows; try (by apply follows_refl).
  - unfold CreateSession in Hcr. destruct (HasResourceIntent o); [done|]. by eapply follows_create.
  - destruct (createSession (c_opts c) uuid now ended m) as [[m' k]|err] eqn:E; [|by apply follows_refl].
    by apply (follows_then m m'); [eapply follows_create| |].
  - by apply (follows_then m (cancel_entry k m)); [apply follows_cancel| |].
  - by apply (follows_then m (withdraw k m)); [apply follows_withdraw| |].
  - apply follows_cancel.
  - apply follows_close_session.
  - apply follows_on_session. intros e. apply settled_outside, Outside_ask.
  - apply follows_command.
  - apply (follows_then m (to_all [Cancel] m)); [apply follows_to_all|done|]. intros id k. cbn. by rewrite lookup_empty.
  - apply (follows_then m (to_all [Cancel; Force LogSessionStatusClosed] m)); [apply follows_to_all|done|].
    intros id k. cbn. by rewrite lookup_empty.
Qed.
Lemma all_told_of m : reachable reg m → all_told m.
Proof.
  induction 1 as [sink|m m' Hr IH Hs]; [by intros k e|]. eapply all_told_step; [by apply manager_ok_of|done|done].
Qed.
End invariant.

(** ** Outputs reach the client *)

Section guarantees.
Context {wire : Protowire} {runtime : ProtoRuntime} {uuids : UUID} (reg : handlerRegistry).

(** C13: Between a goroutine of a session and the client nothing is lost, repeated or
    reordered while the session is open. What was taken from the shared channel and
    what still waits in it are together what the goroutines of the session handed
    over, and the channel never holds more than its 256. The events a goroutine
    handed over, and the one it is about to, are in the order of its calls of
    [emitEvent] and each from a call of its own; and they are all the calls there
    were, for as long as the session is neither cancelled nor gone from the map of
    its manager: a full channel only makes the goroutine wait. *)
Theorem log_outputs_ordered m k e : reachable reg m → m_entries m !! k = Some e →
  outputs_of k (m_taken m) ++ outputs_of k (m_out m) = map snd (e_log e)
  ∧ (length (m_out m) ≤ streamOutputBuffer)%nat
  ∧ ∀ w, (events_by w (e_log e) ++ map fst (flight w e)) `sublist_of` asked_by w (e_asked e)
      ∧ (e_canceled e = false → ¬ unregistered k m →
         asked_by w (e_asked e) = events_by w (e_log e) ++ map fst (flight w e)).
Proof.
  intros H Hk. pose proof (manager_ok_of reg m H) as Hok. split_and!; [|apply (ok_out reg m Hok)|].
  - pose proof (ok_log reg m Hok k) as Hl. rewrite Hk in Hl. unfold outputs in Hl. rewrite <- Hl. unfold outputs_of. by rewrite omap_app.
  - intros w. destruct (all_told_of reg m H k e Hk w) as [T1 [T2|[T2|T2]] _]; (split; [done|]); [done|congruence|done].
Qed.
End guarantees.

#[local] Existing Instance sample_wire.
#[local] Existing Instance sample_runtime.
#[local] Existing Instance sample_uuids.
(** The session of [serving] has announced its source and delivered a line. *)
Definition streaming_manager : Manager := source_on 0 0 18 (Some sample_line) serving.
Lemma log_outputs_ordered_witness : reachable sample_reg streaming_manager
  ∧ ∃ e, m_entries streaming_manager !! 0%nat = Some e ∧ length (e_log e) = 3%nat
    ∧ asked_by (Reader 0) (e_asked e) = events_by (Reader 0) (e_log e) ++ map fst (flight (Reader 0) e).
Proof.
  assert (reachable sample_reg streaming_manager) as Hr by exact (source_reach sample_reg 0 0 18 _ _ serving_reachable).
  split; [exact Hr|]. destruct (m_entries streaming_manager !! 0%nat) as [e|] eqn:E; [|vm_compute in E; discriminate E].
  assert (length (e_log e) = 3%nat ∧ e_canceled e = false) as [Hl Hc] by (vm_compute in E; injection E as <-; split; reflexivity).
  exists e. split; [reflexivity|]. split; [exact Hl|].
  apply (log_outputs_ordered sample_reg streaming_manager 0 e Hr E); [exact Hc|].
  intros Hu. apply (Hu "s1"). vm_compute. reflexivity.
Defined.
