(* ===== verification/Metadata.v ===== *)
(** * Connection metadata (pkg/resource/v2/connection_metadata.go)

    Facts about a connection, the snapshots that carry them, and what the SDK
    admits: the exact JSON size of every part is computed before it is encoded. *)
From S2P Require Import Prelude GoStd GoTime GoJson GoFloat Errors Values Json TaggedJson Budget Connections.
Local Open Scope Z_scope.

Definition MaxConnectionMetadataKeyBytes : Z := 256.
Definition MaxConnectionMetadataEntries : Z := 128.
Definition MaxConnectionMetadataEntryBytes : Z := Z.shiftl 16 10.
Definition MaxConnectionMetadataDepth : Z := 16.
Definition MaxConnectionMetadataSnapshotBytes : Z := Z.shiftl 256 10.
Definition MaxConnectionMetadataErrorCodeBytes : Z := 128.
Definition MaxConnectionMetadataErrorMessageBytes : Z := 1024.
Definition ConnectionMetadataLifecycleReserveBytes : Z := 512.
Definition metadataMaxSafeInteger : Z := 9007199254740991.

(** ** Data *)

(** A native value as the reflection walk sees it; an interface stands for what it
    holds, and a map is in the order of this run. *)
Inductive fact :=
| FNil
| FNumber (n : string)                          (** [json.Number] *)
| FCustom                                       (** a type with an encoder of its own *)
| FBool (b : bool) | FString (s : string) | FInt (n : Z) | FUint (n : Z)
| FFloat (single : bool) (x : float64)
| FMap (entries : option (list (string * fact))) | FKeyed   (** a map with other keys *)
| FSlice (items : option (list fact)) | FArray (items : list fact) | FBytes
| FOther.                                       (** structs, pointers, functions, channels *)

(** A [time.Time] with its offset from UTC. *)
Record observedTime := mkObserved { ob_Time : NativeTime; ob_Offset : Z }.
Definition ob_UTC (t : observedTime) : observedTime :=
  mkObserved (mkNativeTime (nt_Instant (ob_Time t)) (utc_year (nt_Instant (ob_Time t)))) 0.

Record ConnectionMetadataError := mkMetadataError { me_Code : string; me_Message : string }.
Record ConnectionMetadataEntry := mkMetadataEntry {
  me_State : string; me_Value : fact; me_ObservedAt : option observedTime; me_Error : option ConnectionMetadataError
}.
Record ConnectionMetadataObservation := mkObservation {
  mo_State : string; mo_Value : fact; mo_ObservedAt : observedTime; mo_Error : option ConnectionMetadataError
}.
(** The map of an update in the order of this run. *)
Record ConnectionMetadataUpdate := mkMetadataUpdate { mu_Set : list (string * ConnectionMetadataObservation); mu_Remove : list string }.
Record ConnectionMetadataSnapshot := mkSnapshot {
  ms_ConnectionID : string; ms_Generation : string; ms_Revision : string; ms_Active : bool; ms_Refreshing : bool;
  ms_LastRefreshError : option ConnectionMetadataError; ms_Entries : option (gmap string ConnectionMetadataEntry)
}.
Record ConnectionMetadataEvent := mkMetadataEvent { mv_Snapshot : ConnectionMetadataSnapshot; mv_Removed : bool }.

(** ** Values *)

Definition add (size bytes : Z) : result Z :=
  let bytes := bytes + size in
  guard_err (MaxConnectionMetadataEntryBytes <? bytes) (limited "connection metadata value byte limit") ;; Ok bytes.
Definition metadataBoolSize (b : bool) : Z := if b then 4 else 5.

(** *** Numbers *)

(** The magnitude of a JSON number, [m * 10^e]. *)
Definition decimal_of (b : bytes) : option (bool * Z * Z) :=
  let '(neg, b) := match b with "-"%char :: t => (true, t) | _ => (false, b) end in
  '(i, b) ← lex_int_part b;
  '(f, b) ← lex_frac_part b;
  '(e, b) ← lex_exp_part b;
  match b with
  | [] => let frac := drop 1 f in Some (neg, digits_number (i ++ frac), exp_value e - Z.of_nat (length frac))
  | _ => None
  end.
(** [big.Rat]'s comparison of two of them. *)
Definition same_decimal (a b : bool * Z * Z) : bool :=
  let '(s1, m1, e1) := a in
  let '(s2, m2, e2) := b in
  let e := Z.min e1 e2 in
  (m1 * 10 ^ (e1 - e) =? m2 * 10 ^ (e2 - e)) && ((m1 =? 0) || Bool.eqb s1 s2).
Definition unsafe (x : float64) : bool :=
  f64_is_nan x || f64_is_inf x || (f64_is_integral x && (metadataMaxSafeInteger <? Z.abs (f64_to_Z x))).
(** A digit other than zero before the exponent. *)
Fixpoint significant (b : bytes) : bool :=
  match b with
  | [] => false
  | c :: t => if Ascii.eqb c "e" || Ascii.eqb c "E" then false
              else if (byte_val "1" <=? byte_val c) && (byte_val c <=? byte_val "9") then true else significant t
  end.
(** Valid JSON text that [ParseFloat] reads is the text of a JSON number. *)
Definition validateMetadataNumber (number : string) : result unit :=
  let b := bytes_of number in
  match decimal_of b, parse_float b with
  | Some original, Some value =>
    if unsafe value then Err (invalid "metadata number is not JavaScript-safe")
    else if f64_is_zero value then guard_err (significant b) (invalid "metadata number loses JavaScript precision")
    else match decimal_of (format_float value) with
         | Some roundtrip => guard_err (negb (same_decimal original roundtrip)) (invalid "metadata number loses JavaScript precision")
         | None => Err (invalid "metadata number loses JavaScript precision")
         end
  | Some _, None => Err (invalid "metadata number is not JavaScript-safe")
  | None, _ => Err (invalid "invalid metadata JSON number")
  end.

(** *** Floats *)

(** The digits of a shortest text and the place of its point, [0.d1d2... * 10^dp]. *)
Definition digits_of (b : bytes) : option (bytes * Z) :=
  '(i, b) ← lex_int_part b;
  '(f, b) ← lex_frac_part b;
  '(e, _) ← lex_exp_part b;
  let ds := i ++ drop 1 f in
  let dp := Z.of_nat (length i) + exp_value e in
  let rest := (fix skip (l : bytes) := match l with "0"%char :: l' => skip l' | _ => l end) ds in
  match rest with
  | [] => Some (["0"%char], 1)
  | _ => Some (strip_trailing_zeros rest, dp - Z.of_nat (length ds - length rest))
  end.
(** binary32: the nearest value of a decimal, and the shortest text that reads back. *)
Definition f32_of_ratio (s : bool) (p q : Z) : float64 :=
  let '(m, e, l) := SFdiv_core_binary 24 128 p 0 q 0 in
  binary_round_aux 24 128 s m e l.
Definition parse_float32 (b : bytes) : option float64 :=
  '(s, m, e) ← decimal_of b;
  Some (if m =? 0 then S754_zero s
        else if 50 <? Z.of_nat (ndigits m) + e then S754_infinity s
        else if Z.of_nat (ndigits m) + e <? -60 then S754_zero s
        else if 0 <=? e then f32_of_ratio s (m * 10 ^ e) 1 else f32_of_ratio s m (10 ^ (- e))).
(** [x] in the precision of a binary32. *)
Definition as_float32 (x : float64) : float64 :=
  match x with
  | S754_finite s m e => if 0 <=? e then f32_of_ratio s (Z.pos m * 2 ^ e) 1 else f32_of_ratio s (Z.pos m) (2 ^ (- e))
  | _ => x
  end.
Fixpoint shortest32_go (fuel : nat) (neg : bool) (p q E n : Z) (x : float64) : option bytes :=
  match fuel with
  | O => None
  | S fuel =>
    match List.find (λ t, bool_decide (parse_float32 t = Some x)) (shortest_candidates neg p q E n) with
    | Some t => Some t
    | None => shortest32_go fuel neg p q E (n + 1) x
    end
  end.
(** Nine digits identify a binary32. *)
Definition format_float32 (x : float64) : bytes :=
  match x with
  | S754_finite s m e =>
    let p := if 0 <=? e then Z.pos m * 2 ^ e else Z.pos m in
    let q := if 0 <=? e then 1 else 2 ^ (- e) in
    default [] (shortest32_go 9 s p q (decimal_scale p q) 1 (as_float32 x))
  | _ => format_float x
  end.
(** [strconv.AppendFloat] with the shortest digits, in the forms ['e'] and ['f']. *)
Definition AppendFloat (exponent single : bool) (x : float64) : bytes :=
  let t := if single then format_float32 x else format_float x in
  let '(neg, t) := match t with "-"%char :: t => (true, t) | _ => (false, t) end in
  (if neg then ["-"%char] else [])
  ++ match digits_of t with
     | Some (ds, dp) => if exponent then fmtE ds dp else fmtF ds dp
     | None => []
     end.
(** The constants [1e-6] and [1e21], rounded to the kind they are compared in. *)
Definition micro (single : bool) : float64 := if single then f32_of_ratio false 1 1000000 else f64_of_ratio false 1 1000000.
Definition sextillion (single : bool) : float64 := if single then f32_of_ratio false (10 ^ 21) 1 else f64_of_ratio false (10 ^ 21) 1.
Definition float_exponent (single : bool) (x : float64) : bool :=
  let a := SFabs x in
  negb (f64_is_zero x)
  && (match SFcompare a (micro single) with Some Lt => true | _ => false end
      || match SFcompare a (sextillion single) with Some Lt => false | _ => true end).
Definition float_size (single : bool) (x : float64) : Z :=
  let e := float_exponent single x in
  let t := AppendFloat e single x in
  let k := (length t - 4)%nat in
  if e && (4 <=? length t)%nat && bool_decide (take 3 (drop k t) = ["e"; "-"; "0"]%char) then blen t - 1 else blen t.

(** *** The walk *)

Fixpoint visit (v : fact) (depth bytes : Z) {struct v} : result Z :=
  guard_err (MaxConnectionMetadataDepth <? depth) (limited "connection metadata nesting limit") ;;
  match v with
  | FNil => add 4 bytes
  | FNumber n => bytes ← add (slen n) bytes; validateMetadataNumber n ;; Ok bytes
  | FCustom => Err (invalid "custom metadata encoders are not JSON values")
  | FBool b => add (metadataBoolSize b) bytes
  | FString s =>
    guard_err (MaxConnectionMetadataEntryBytes <? slen s) (limited "connection metadata value byte limit") ;;
    guard_err (negb (utf8_valid_string s)) (invalid "invalid metadata UTF-8 string") ;;
    add (quotedJSONSize s) bytes
  | FInt n =>
    guard_err ((n <? - metadataMaxSafeInteger) || (metadataMaxSafeInteger <? n)) (invalid "metadata integer is not JavaScript-safe") ;;
    add (slen (format_int n)) bytes
  | FUint n =>
    guard_err (metadataMaxSafeInteger <? n) (invalid "metadata integer is not JavaScript-safe") ;;
    add (slen (format_uint n)) bytes
  | FFloat single x =>
    guard_err (unsafe x) (invalid "metadata number is not JavaScript-safe") ;;
    add (float_size single x) bytes
  | FKeyed => Err (invalid "metadata object keys must be strings")
  | FMap None => add 4 bytes
  | FMap (Some entries) =>
    bytes ← add 2 bytes;
    (fix go (entries : list (string * fact)) (first : bool) (bytes : Z) : result Z :=
       match entries with
       | [] => Ok bytes
       | (key, x) :: entries =>
         guard_err (MaxConnectionMetadataEntryBytes <? slen key) (limited "connection metadata object key byte limit") ;;
         guard_err (negb (utf8_valid_string key)) (invalid "invalid metadata object key") ;;
         bytes ← add (quotedJSONSize key + 1 + (if first then 0 else 1)) bytes;
         bytes ← visit x (depth + 1) bytes;
         go entries false bytes
       end) entries true bytes
  | FBytes => Err (invalid "byte slices are not metadata JSON arrays")
  | FSlice None => add 4 bytes
  | FSlice (Some items) | FArray items =>
    bytes ← add 2 bytes;
    (fix go (items : list fact) (first : bool) (bytes : Z) : result Z :=
       match items with
       | [] => Ok bytes
       | x :: items =>
         bytes ← (if first then Ok bytes else add 1 bytes);
         bytes ← visit x (depth + 1) bytes;
         go items false bytes
       end) items true bytes
  | FOther => Err (invalid "metadata value must be plain JSON")
  end.

(** ** Parts *)

Definition metadataErrorSize (e : option ConnectionMetadataError) : result Z :=
  match e with
  | None => Err (invalid "metadata error is required")
  | Some e =>
    guard_err ((MaxConnectionMetadataErrorCodeBytes <? slen (me_Code e)) || (MaxConnectionMetadataErrorMessageBytes <? slen (me_Message e)))
      (limited "connection metadata error byte limit") ;;
    text (me_Code e) true ;;
    text (me_Message e) true ;;
    Ok (20 + quotedJSONSize (me_Code e) + quotedJSONSize (me_Message e))
  end.
Definition metadataTimeSize (t : observedTime) : result Z :=
  guard_err (IsZero (ob_Time t)) (invalid "metadata observation time is required") ;;
  validateNativeTime (nt_LocalYear (ob_Time t)) (utc_year (nt_Instant (ob_Time t))) ;;
  guard_err (negb (ob_Offset t =? 0)) (invalid "metadata observation time must be UTC") ;;
  Ok (blen (format_rfc3339nano (nt_Instant (ob_Time t))) + 2).
Definition is_some {A} (x : option A) : bool := match x with Some _ => true | None => false end.
Definition is_fnil (v : fact) : bool := match v with FNil => true | _ => false end.

(** The switch over the state. *)
Definition entry_payload (e : ConnectionMetadataEntry) (size : Z) : result Z :=
  if bool_decide (me_State e = "current") || bool_decide (me_State e = "stale") then
    match me_ObservedAt e with
    | None => Err (invalid "metadata observation time is required")
    | Some t =>
      guard_err (bool_decide (me_State e = "current") && is_some (me_Error e)) (invalid "current metadata cannot have an error") ;;
      n ← metadataTimeSize t;
      value ← visit (me_Value e) 0 0;
      Ok (size + (14 + n + 9) + value)
    end
  else if bool_decide (me_State e = "unavailable") then
    guard_err (negb (is_fnil (me_Value e)) || is_some (me_ObservedAt e))
      (invalid "unavailable metadata has a value or observation time") ;;
    guard_err (negb (is_some (me_Error e))) (invalid "unavailable metadata requires an error") ;;
    Ok size
  else Err (invalid "invalid metadata entry state").
Definition entry_error (e : ConnectionMetadataEntry) (size : Z) : result Z :=
  match me_Error e with
  | Some _ => n ← metadataErrorSize (me_Error e); Ok (size + (9 + n))
  | None => Ok size
  end.
Definition metadataEntrySize (e : ConnectionMetadataEntry) : result Z :=
  size ← entry_payload e (10 + quotedJSONSize (me_State e));
  size ← entry_error e size;
  guard_err (MaxConnectionMetadataEntryBytes <? size) (limited "connection metadata entry byte limit") ;;
  Ok size.
Definition metadataObservationSize (o : ConnectionMetadataObservation) : result Z :=
  if bool_decide (mo_State o = "success") then
    metadataEntrySize (mkMetadataEntry "current" (mo_Value o) (Some (mo_ObservedAt o)) (mo_Error o))
  else if bool_decide (mo_State o = "unavailable") then
    guard_err (negb (IsZero (ob_Time (mo_ObservedAt o)))) (invalid "unavailable observation has a timestamp") ;;
    metadataEntrySize (mkMetadataEntry "unavailable" (mo_Value o) None (mo_Error o))
  else Err (invalid "invalid metadata observation state").
Definition validateMetadataKey (key : string) : result unit :=
  guard_err (MaxConnectionMetadataKeyBytes <? slen key) (limited "connection metadata key byte limit") ;;
  text key true.

(** ** Updates *)

Fixpoint update_sets (l : list (string * ConnectionMetadataObservation)) (size : Z) : result Z :=
  match l with
  | [] => Ok size
  | (key, o) :: l =>
    validateMetadataKey key ;;
    n ← metadataObservationSize o;
    update_sets l (size + (quotedJSONSize key + 1 + n))
  end.
Fixpoint update_removes (u : ConnectionMetadataUpdate) (l seen : list string) (size : Z) : result Z :=
  match l with
  | [] => Ok size
  | key :: l =>
    validateMetadataKey key ;;
    guard_err (bool_decide (key ∈ map fst (mu_Set u))) (invalid "metadata key is both set and removed") ;;
    guard_err (bool_decide (key ∈ seen)) (invalid "duplicate metadata removal") ;;
    update_removes u l (key :: seen) (size + quotedJSONSize key)
  end.
(** The commas between so many parts. *)
Definition commas {A} (l : list A) : Z := Z.max 0 (Z.of_nat (length l) - 1).
Definition ValidateConnectionMetadataUpdate (u : ConnectionMetadataUpdate) : result unit :=
  guard_err (MaxConnectionMetadataEntries <? Z.of_nat (length (mu_Set u)) + Z.of_nat (length (mu_Remove u)))
    (limited "connection metadata key count limit") ;;
  size ← update_sets (mu_Set u) 22;
  size ← update_removes u (mu_Remove u) [] (size + commas (mu_Set u));
  guard_err (MaxConnectionMetadataSnapshotBytes <? size + commas (mu_Remove u)) (limited "connection metadata update byte limit").

(** ** Snapshots *)

Definition revision_ok (r : string) : bool :=
  match bytes_of r with
  | [] => false
  | c :: _ => negb (Ascii.eqb c "0") && is_some (parse_uint64 r) && forallb (λ c, (48 <=? byte_val c) && (byte_val c <=? 57)) (bytes_of r)
  end.
(** The entries in the order [l] of this run. *)
Fixpoint snapshot_entries (s : ConnectionMetadataSnapshot) (limit : Z) (l : list (string * ConnectionMetadataEntry)) (size : Z) : result Z :=
  match l with
  | [] => Ok size
  | (key, e) :: l =>
    validateMetadataKey key ;;
    guard_err (bool_decide (me_State e = "current") && negb (ms_Active s)) (invalid "inactive metadata cannot contain current facts") ;;
    guard_err (bool_decide (ms_Generation s = "")) (invalid "metadata facts require a generation") ;;
    n ← metadataEntrySize e;
    let size := size + (quotedJSONSize key + 1 + n) in
    guard_err (limit <? size) (limited "connection metadata snapshot byte limit") ;;
    snapshot_entries s limit l size
  end.
Definition snapshot_frame (s : ConnectionMetadataSnapshot) : Z :=
  80 + quotedJSONSize (ms_ConnectionID s) + quotedJSONSize (ms_Generation s) + quotedJSONSize (ms_Revision s)
  + metadataBoolSize (ms_Active s) + metadataBoolSize (ms_Refreshing s).
Definition validateMetadataSnapshotLimit (s : ConnectionMetadataSnapshot) (l : list (string * ConnectionMetadataEntry)) (limit : Z) : result unit :=
  guard_err ((4096 <? slen (ms_ConnectionID s)) || (256 <? slen (ms_Generation s))) (limited "connection metadata identity byte limit") ;;
  text (ms_ConnectionID s) true ;;
  text (ms_Generation s) (ms_Active s) ;;
  guard_err (negb (revision_ok (ms_Revision s))) (invalid "invalid metadata revision") ;;
  guard_err (ms_Refreshing s && negb (ms_Active s)) (invalid "inactive metadata cannot refresh") ;;
  guard_err (MaxConnectionMetadataEntries <? Z.of_nat (length l)) (limited "connection metadata key count limit") ;;
  guard_err (negb (is_some (ms_Entries s))) (invalid "metadata entries must be an object") ;;
  size ← match ms_LastRefreshError s with
         | Some _ => n ← metadataErrorSize (ms_LastRefreshError s); Ok (snapshot_frame s + (20 + n))
         | None => Ok (snapshot_frame s)
         end;
  size ← snapshot_entries s limit l size;
  guard_err (limit <? size + commas l) (limited "connection metadata snapshot byte limit").
Definition ValidateConnectionMetadataSnapshot (s : ConnectionMetadataSnapshot) (l : list (string * ConnectionMetadataEntry)) : result unit :=
  validateMetadataSnapshotLimit s l MaxConnectionMetadataSnapshotBytes.
Definition validateMetadataSnapshotAdmission (s : ConnectionMetadataSnapshot) (l : list (string * ConnectionMetadataEntry)) : result unit :=
  validateMetadataSnapshotLimit s l (MaxConnectionMetadataSnapshotBytes - ConnectionMetadataLifecycleReserveBytes).

(** ** Sizes *)

Lemma add_ok size b b' : add size b = Ok b' → b' = b + size ∧ b' ≤ MaxConnectionMetadataEntryBytes.
Proof.
  unfold add. intros H. destruct (guard_err _ _) as [u|] eqn:E; [|done]. injection H as <-. apply guard_err_ok in E. lia.
Qed.

(** The JSON text of a fact, as encoding/json writes it for maps in this order. *)
Definition float_json (single : bool) (x : float64) : bytes :=
  let e := float_exponent single x in
  let t := AppendFloat e single x in
  let k := (length t - 4)%nat in
  if e && (4 <=? length t)%nat && bool_decide (take 3 (drop k t) = ["e"; "-"; "0"]%char) then take k t ++ ["e"; "-"]%char ++ drop (k + 3) t
  else t.
Fixpoint comma_joined (first : bool) (parts : list bytes) : bytes :=
  match parts with [] => [] | p :: parts => (if first then [] else [","%char]) ++ p ++ comma_joined false parts end.
Fixpoint fact_json (v : fact) : bytes :=
  match v with
  | FNumber n => bytes_of n
  | FBool b => bytes_of (if b then "true" else "false")
  | FString s => appendJSONString [] s
  | FInt n => bytes_of (format_int n)
  | FUint n => bytes_of (format_uint n)
  | FFloat single x => float_json single x
  | FMap (Some l) => ["{"%char] ++ comma_joined true (map (λ p, appendJSONString [] p.1 ++ [":"%char] ++ fact_json p.2) l) ++ ["}"%char]
  | FSlice (Some l) | FArray l => ["["%char] ++ comma_joined true (map fact_json l) ++ ["]"%char]
  | _ => bytes_of "null"
  end.
Lemma float_json_size single x : blen (float_json single x) = float_size single x.
Proof.
  unfold float_json, float_size. destruct (_ && _) eqn:E; [|done]. apply andb_true_iff in E as [E _]. apply andb_true_iff in E as [_ E].
  apply Nat.leb_le in E. unfold blen. rewrite !length_app, length_take, length_drop. cbn [length]. lia.
Qed.
Section fact_induction.
Context (P : fact → Prop).
Context (Hleaf : ∀ v, match v with FMap (Some _) | FSlice (Some _) | FArray _ => True | _ => P v end).
Context (Hmap : ∀ l, Forall (λ p, P p.2) l → P (FMap (Some l))) (Hslice : ∀ l, Forall P l → P (FSlice (Some l)))
  (Harray : ∀ l, Forall P l → P (FArray l)).
Fixpoint fact_nested_ind (v : fact) : P v.
Proof.
  pose proof (Hleaf v) as H. destruct v as [|n| |b|s|n|n|single x|[l|]| |[l|]|l| |]; try exact H.
  - apply Hmap. induction l as [|[k x] l IH]; constructor; [apply fact_nested_ind|exact IH].
  - apply Hslice. induction l as [|x l IH]; constructor; [apply fact_nested_ind|exact IH].
  - apply Harray. induction l as [|x l IH]; constructor; [apply fact_nested_ind|exact IH].
Defined.
End fact_induction.
Definition sized (v : fact) : Prop := ∀ d b b', 0 ≤ b → visit v d b = Ok b' →
  b' = b + blen (fact_json v) ∧ b' ≤ MaxConnectionMetadataEntryBytes.
Lemma items_sized l d : Forall sized l → ∀ first b b', 0 ≤ b ≤ MaxConnectionMetadataEntryBytes →
  (fix go (items : list fact) (first : bool) (bytes : Z) : result Z :=
     match items with
     | [] => Ok bytes
     | x :: items =>
       bytes ← (if first then Ok bytes else add 1 bytes);
       bytes ← visit x (d + 1) bytes;
       go items false bytes
     end) l first b = Ok b' → b' = b + blen (comma_joined first (map fact_json l)) ∧ b' ≤ MaxConnectionMetadataEntryBytes.
Proof.
  induction 1 as [|x l Hx _ IH]; intros first b b' Hb H; [injection H as <-; cbn [map comma_joined]; rewrite blen_nil; lia|].
  apply bind_ok in H as (b1 & H1 & H). apply bind_ok in H as (b2 & H2 & H).
  assert (b1 = b + (if first then 0 else 1) ∧ b1 ≤ MaxConnectionMetadataEntryBytes) as [-> Hb1].
  { destruct first; [injection H1 as <-; lia|by apply add_ok in H1]. }
  apply Hx in H2 as [-> Hb2]; [|destruct first; lia].
  apply IH in H as [-> Hb']; [|pose proof (blen_nonneg (fact_json x)); destruct first; lia].
  split; [|done]. cbn [map comma_joined]. rewrite !blen_app. destruct first; cbn [app]; rewrite ?blen_cons, ?blen_nil; lia.
Qed.
Lemma entries_sized l d : Forall (λ p, sized p.2) l → ∀ first b b', 0 ≤ b ≤ MaxConnectionMetadataEntryBytes →
  (fix go (entries : list (string * fact)) (first : bool) (bytes : Z) : result Z :=
     match entries with
     | [] => Ok bytes
     | (key, x) :: entries =>
       guard_err (MaxConnectionMetadataEntryBytes <? slen key) (limited "connection metadata object key byte limit") ;;
       guard_err (negb (utf8_valid_string key)) (invalid "invalid metadata object key") ;;
       bytes ← add (quotedJSONSize key + 1 + (if first then 0 else 1)) bytes;
       bytes ← visit x (d + 1) bytes;
       go entries false bytes
     end) l first b = Ok b' →
  b' = b + blen (comma_joined first (map (λ p, appendJSONString [] p.1 ++ [":"%char] ++ fact_json p.2) l))
  ∧ b' ≤ MaxConnectionMetadataEntryBytes.
Proof.
  induction 1 as [|[key x] l Hx _ IH]; intros first b b' Hb H; [injection H as <-; cbn [map comma_joined]; rewrite blen_nil; lia|].
  apply bind_ok in H as ([] & _ & H). apply bind_ok in H as ([] & _ & H).
  apply bind_ok in H as (b1 & H1 & H). apply bind_ok in H as (b2 & H2 & H). apply add_ok in H1 as [-> Hb1]. cbn in Hx.
  pose proof (quotedJSONSize_exact [] key) as Hq. rewrite blen_nil in Hq. pose proof (blen_nonneg (appendJSONString [] key)).
  apply Hx in H2 as [-> Hb2]; [|destruct first; lia].
  apply IH in H as [-> Hb']; [|pose proof (blen_nonneg (fact_json x)); destruct first; lia].
  split; [|done]. cbn [map comma_joined]. rewrite !blen_app. cbn [fst snd]. destruct first; cbn [app]; rewrite ?blen_cons, ?blen_nil; lia.
Qed.

(** What a fact is charged is the length of its JSON text, and what is admitted
    fits an entry. *)
Lemma visit_sized v : sized v.
Proof.
  revert v. apply fact_nested_ind.
  - intros v. destruct v as [|n| |b|s|n|n|single x|[l|]| |[l|]|l| |]; try exact I; intros d b0 b' Hb H;
      apply bind_ok in H as ([] & _ & H); try discriminate H; cbn [fact_json].
    + by apply add_ok in H as [-> ?].
    + apply bind_ok in H as (b1 & H1 & H). apply bind_ok in H as ([] & _ & H). injection H as <-. by apply add_ok in H1 as [-> ?].
    + apply add_ok in H as [-> ?]. by destruct b.
    + apply bind_ok in H as ([] & _ & H). apply bind_ok in H as ([] & _ & H). apply add_ok in H as [-> ?].
      pose proof (quotedJSONSize_exact [] s) as Hq. rewrite blen_nil in Hq. split; [lia|done].
    + apply bind_ok in H as ([] & _ & H). by apply add_ok in H as [-> ?].
    + apply bind_ok in H as ([] & _ & H). by apply add_ok in H as [-> ?].
    + apply bind_ok in H as ([] & _ & H). apply add_ok in H as [-> ?]. by rewrite float_json_size.
    + by apply add_ok in H as [-> ?].
    + by apply add_ok in H as [-> ?].
  - intros l IH d b b' Hb H. apply bind_ok in H as ([] & _ & H). apply bind_ok in H as (b1 & H1 & H). apply add_ok in H1 as [-> Hb1].
    apply (entries_sized l d IH true) in H as [-> ?]; [|lia]. cbn [fact_json]. rewrite !blen_app, !blen_cons, !blen_nil. split; [lia|done].
  - intros l IH d b b' Hb H. apply bind_ok in H as ([] & _ & H). apply bind_ok in H as (b1 & H1 & H). apply add_ok in H1 as [-> Hb1].
    apply (items_sized l d IH true) in H as [-> ?]; [|lia]. cbn [fact_json]. rewrite !blen_app, !blen_cons, !blen_nil. split; [lia|done].
  - intros l IH d b b' Hb H. apply bind_ok in H as ([] & _ & H). apply bind_ok in H as (b1 & H1 & H). apply add_ok in H1 as [-> Hb1].
    apply (items_sized l d IH true) in H as [-> ?]; [|lia]. cbn [fact_json]. rewrite !blen_app, !blen_cons, !blen_nil. split; [lia|done].
Qed.

(** *** Snapshots *)

Definition entry_size (e : ConnectionMetadataEntry) : Z := match metadataEntrySize e with Ok n => n | Err _ => 0 end.
Definition entries_size (l : list (string * ConnectionMetadataEntry)) : Z :=
  foldr (λ p n, quotedJSONSize p.1 + 1 + entry_size p.2 + n) 0 l.
Definition entry_valid (s : ConnectionMetadataSnapshot) (p : string * ConnectionMetadataEntry) : Prop :=
  validateMetadataKey p.1 = Ok tt ∧ (me_State p.2 = "current" → ms_Active s = true) ∧ ms_Generation s ≠ ""
  ∧ ∃ n, metadataEntrySize p.2 = Ok n.
Definition error_part (e : option ConnectionMetadataError) : Z :=
  match e with Some _ => 20 + match metadataErrorSize e with Ok n => n | Err _ => 0 end | None => 0 end.
Definition snapshot_size (s : ConnectionMetadataSnapshot) (l : list (string * ConnectionMetadataEntry)) : Z :=
  snapshot_frame s + error_part (ms_LastRefreshError s) + entries_size l + commas l.
Definition head_valid (s : ConnectionMetadataSnapshot) : Prop :=
  slen (ms_ConnectionID s) ≤ 4096 ∧ slen (ms_Generation s) ≤ 256 ∧ text (ms_ConnectionID s) true = Ok tt
  ∧ text (ms_Generation s) (ms_Active s) = Ok tt ∧ revision_ok (ms_Revision s) = true
  ∧ (ms_Refreshing s = true → ms_Active s = true) ∧ is_some (ms_Entries s) = true
  ∧ (ms_LastRefreshError s = None ∨ ∃ n, metadataErrorSize (ms_LastRefreshError s) = Ok n).

Lemma quotedJSONSize_pos s : 2 ≤ quotedJSONSize s.
Proof.
  unfold quotedJSONSize, jsonQuoteBytes. rewrite (quoted_size_body (length (bytes_of s))) by done.
  pose proof (blen_nonneg (json_string_body (bytes_of s))). lia.
Qed.
Lemma quoted_size_le n : ∀ s size, (length s ≤ n)%nat → quoted_size s size ≤ size + 6 * blen s.
Proof.
  induction n as [|n IH]; intros [|c t] size Hn; cbn [quoted_size length] in *; rewrite ?blen_nil, ?blen_cons; try lia.
  unfold jsonShortEscapeBytes, jsonEscapeSize. pose proof (blen_nonneg t).
  repeat case_match; try (etransitivity; [apply IH; cbn [length] in *; lia|]; subst; rewrite ?blen_cons; lia).
Qed.
Lemma quotedJSONSize_le s : quotedJSONSize s ≤ 2 + 6 * slen s.
Proof. unfold quotedJSONSize, jsonQuoteBytes. apply (quoted_size_le (length (bytes_of s))). done. Qed.

Lemma text_iff s b : text s b = Ok tt ↔ utf8_valid_string s = true ∧ (b = true → s ≠ "").
Proof.
  unfold text. rewrite guard_err_iff, orb_false_iff, negb_false_iff, andb_false_iff, bool_decide_eq_false. destruct b; naive_solver.
Qed.
Lemma error_size_pos e n : metadataErrorSize e = Ok n → 0 ≤ n.
Proof.
  unfold metadataErrorSize. destruct e as [e|]; [|done]. rewrite bind_guard_iff, !bind_unit_iff. intros (_ & _ & _ & [= <-]).
  pose proof (quotedJSONSize_pos (me_Code e)). pose proof (quotedJSONSize_pos (me_Message e)). lia.
Qed.
Lemma error_part_nonneg e : 0 ≤ error_part e.
Proof.
  unfold error_part. destruct e; [|done]. destruct (metadataErrorSize _) eqn:E; [|done]. apply error_size_pos in E. lia.
Qed.
Lemma snapshot_entries_iff s limit l : ∀ size total, snapshot_entries s limit l size = Ok total →
  Forall (entry_valid s) l ∧ total = size + entries_size l.
Proof.
  induction l as [|[key e] l IH]; intros size total; cbn [snapshot_entries entries_size foldr]; [intros [= <-]; split; [done|lia]|].
  rewrite bind_unit_iff, !bind_guard_iff, bind_ok_iff. intros (Hk & Hc & Hg & n & Hn & H). rewrite bind_guard_iff in H. destruct H as [_ H].
  apply IH in H as [Hf ->]. split.
  - constructor; [|done]. split_and!; [done| |by apply bool_decide_eq_false in Hg|by exists n].
    cbn. intros He. rewrite bool_decide_true in Hc by done. by apply andb_false_iff in Hc as [?|?%negb_false_iff].
  - assert (entry_size e = n) as <- by (unfold entry_size; by rewrite Hn). cbn [fst snd]. unfold entries_size. lia.
Qed.
Definition with_State (st : string) (e : ConnectionMetadataEntry) : ConnectionMetadataEntry :=
  mkMetadataEntry st (me_Value e) (me_ObservedAt e) (me_Error e).
Lemma entry_payload_ge e size n : entry_payload e size = Ok n → size ≤ n.
Proof.
  unfold entry_payload. destruct (_ || _).
  - destruct (me_ObservedAt e) as [t|]; [|done]. rewrite bind_guard_iff, !bind_ok_iff. intros (_ & m & Hm & H).
    apply bind_ok in H as (v & Hv & [= <-]). apply visit_sized in Hv as [-> _]; [|done]. pose proof (blen_nonneg (fact_json (me_Value e))).
    unfold metadataTimeSize in Hm. rewrite bind_guard_iff, bind_unit_iff, bind_guard_iff in Hm. destruct Hm as (_ & _ & _ & [= <-]).
    pose proof (blen_nonneg (format_rfc3339nano (nt_Instant (ob_Time t)))). lia.
  - destruct (bool_decide _); [|done]. rewrite !bind_guard_iff. intros (_ & _ & [= <-]). lia.
Qed.
Lemma entry_error_ge e size n : entry_error e size = Ok n → size ≤ n.
Proof.
  unfold entry_error. destruct (me_Error e) as [x|]; [|intros [= <-]; lia]. intros H. apply bind_ok in H as (k & Hk & [= <-]).
  apply error_size_pos in Hk. lia.
Qed.
Lemma metadataEntrySize_pos e n : metadataEntrySize e = Ok n → 0 ≤ n.
Proof.
  unfold metadataEntrySize. rewrite !bind_ok_iff. intros (a & Ha & H). apply bind_ok in H as (b & Hb & H).
  apply bind_guard_iff in H as [_ [= <-]]. apply entry_payload_ge in Ha. apply entry_error_ge in Hb.
  pose proof (quotedJSONSize_pos (me_State e)). lia.
Qed.
(** An entry whose facts are no longer current takes no more room. *)
Lemma stale_size e n : me_State e ≠ "unavailable" → metadataEntrySize e = Ok n →
  ∃ n', metadataEntrySize (with_State "stale" e) = Ok n' ∧ n' ≤ n.
Proof.
  intros Hu. unfold metadataEntrySize. rewrite !bind_ok_iff. intros (a & Ha & H). apply bind_ok in H as (b & Hb & H).
  apply bind_guard_iff in H as [Hl [= <-]]. apply Z.ltb_ge in Hl.
  unfold entry_payload in *. cbn [with_State me_State me_ObservedAt me_Error me_Value].
  destruct (bool_decide (me_State e = "current") || bool_decide (me_State e = "stale")) eqn:Es;
    [|destruct (bool_decide (me_State e = "unavailable")) eqn:Eu; [apply bool_decide_eq_true in Eu; done|done]].
  destruct (me_ObservedAt e) as [t|]; [|done]. rewrite bind_guard_iff, !bind_ok_iff in Ha. destruct Ha as (_ & m & Hm & Ha).
  apply bind_ok in Ha as (v & Hv & [= <-]).
  assert (quotedJSONSize "stale" ≤ quotedJSONSize (me_State e)) as Hq.
  { apply orb_true_iff in Es as [->%bool_decide_eq_true| ->%bool_decide_eq_true]; vm_compute; done. }
  assert (∃ k, 0 ≤ k ∧ b = 10 + quotedJSONSize (me_State e) + (14 + m + 9) + v + k
    ∧ entry_error (with_State "stale" e) (10 + quotedJSONSize "stale" + (14 + m + 9) + v)
      = Ok (10 + quotedJSONSize "stale" + (14 + m + 9) + v + k)) as (k & Hk & -> & He).
  { unfold entry_error in *. cbn [with_State me_Error]. destruct (me_Error e) as [x|]; [|exists 0; injection Hb as <-; split_and!; [lia|lia|f_equal; lia]].
    apply bind_ok in Hb as (k & Hk & [= <-]). exists (9 + k). rewrite Hk. pose proof (error_size_pos _ _ Hk). split_and!; [lia|lia|done]. }
  eexists. split; [|shelve].
  change (bool_decide ("stale" = "current") || bool_decide ("stale" = "stale")) with true.
  change (bool_decide ("stale" = "current") && is_some (me_Error e)) with false. cbn [guard_err mbind res_bind]. rewrite Hm. cbn [mbind res_bind].
  rewrite Hv. cbn [mbind res_bind]. fold (with_State "stale" e). rewrite He. cbn [mbind res_bind].
  assert ((MaxConnectionMetadataEntryBytes <? 10 + quotedJSONSize "stale" + (14 + m + 9) + v + k) = false) as -> by (apply Z.ltb_ge; lia).
  cbn [guard_err mbind res_bind]. reflexivity.
  Unshelve. lia.
Qed.
Lemma entry_size_nonneg e : 0 ≤ entry_size e.
Proof. unfold entry_size. destruct (metadataEntrySize e) eqn:E; [|done]. by apply metadataEntrySize_pos in E. Qed.
Lemma entries_size_nonneg l : 0 ≤ entries_size l.
Proof.
  induction l as [|[k e] l IH]; cbn [entries_size foldr fst snd]; [done|]. fold (entries_size l).
  pose proof (quotedJSONSize_pos k). pose proof (entry_size_nonneg e). lia.
Qed.
Lemma entries_size_perm l l' : l ≡ₚ l' → entries_size l = entries_size l'.
Proof.
  induction 1 as [|[k e] l l' _ IH|[k e] [k' e'] l|l1 l2 l3 _ IH1 _ IH2]; cbn [entries_size foldr fst snd] in *;
    [done|unfold entries_size in *; lia|lia|congruence].
Qed.
Lemma snapshot_entries_fit s limit l : Forall (entry_valid s) l → ∀ size, size + entries_size l ≤ limit →
  snapshot_entries s limit l size = Ok (size + entries_size l).
Proof.
  induction 1 as [|[key e] l (Hk & Hc & Hg & n & Hn) _ IH]; intros size Hle; cbn [snapshot_entries entries_size foldr fst snd] in *; [f_equal; lia|].
  fold (entries_size l) in *. rewrite Hk. cbn [mbind res_bind].
  assert (bool_decide (me_State e = "current") && negb (ms_Active s) = false) as ->
    by (case_bool_decide as He; [by rewrite Hc|done]).
  rewrite (bool_decide_false _ Hg), Hn. cbn [guard_err mbind res_bind].
  assert (entry_size e = n) as En by (unfold entry_size; by rewrite Hn). rewrite En in *. pose proof (entries_size_nonneg l).
  assert ((limit <? size + (quotedJSONSize key + 1 + n)) = false) as -> by (apply Z.ltb_ge; lia). cbn [guard_err mbind res_bind].
  rewrite IH by lia. f_equal. lia.
Qed.
(** A snapshot is admitted when its parts are and it fits. *)
Lemma validateSnapshot_iff s l limit : validateMetadataSnapshotLimit s l limit = Ok tt ↔
  head_valid s ∧ Z.of_nat (length l) ≤ MaxConnectionMetadataEntries ∧ Forall (entry_valid s) l ∧ snapshot_size s l ≤ limit.
Proof.
  unfold validateMetadataSnapshotLimit, head_valid, snapshot_size.
  rewrite !bind_unit_iff, !bind_ok_iff, !guard_err_iff, orb_false_iff, !Z.ltb_ge, !negb_false_iff.
  assert (commas l = Z.max 0 (Z.of_nat (length l) - 1)) as Hcommas by done.
  split.
  - intros ([H1 H2] & H3 & H4 & H5 & H6 & H7 & H8 & size & Hs & H). apply bind_ok in H as (total & Ht & H).
    apply guard_err_iff, Z.ltb_ge in H. apply snapshot_entries_iff in Ht as [Hf ->].
    assert (size = snapshot_frame s + error_part (ms_LastRefreshError s) ∧ (ms_LastRefreshError s = None ∨ ∃ n, metadataErrorSize (ms_LastRefreshError s) = Ok n))
      as [-> He].
    { unfold error_part. destruct (ms_LastRefreshError s) as [x|]; [|injection Hs as <-; split; [lia|by left]].
      apply bind_ok in Hs as (n & Hn & [= <-]). rewrite Hn. split; [lia|right; by exists n]. }
    split_and!; try done. intros Hr. rewrite Hr in H6. by apply negb_false_iff in H6.
  - intros ((H1 & H2 & H3 & H4 & H5 & H6 & H7 & H8) & H9 & H10 & H11). split_and!; try done.
    + destruct (ms_Refreshing s); [by rewrite H6|done].
    + exists (snapshot_frame s + error_part (ms_LastRefreshError s)). split.
      { unfold error_part. destruct (ms_LastRefreshError s) as [x|]; [|f_equal; lia]. destruct H8 as [|[n Hn]]; [done|]. rewrite Hn. cbn. f_equal. }
      rewrite (snapshot_entries_fit s limit l H10) by lia. cbn [mbind res_bind]. apply guard_err_iff, Z.ltb_ge. lia.
Qed.

(** ** The JSON text of a snapshot *)

(** What MarshalJSON of an entry and encoding/json of the rest write. *)
Definition json_field (name : string) (v : bytes) : bytes := appendJSONString [] name ++ [":"%char] ++ v.
Definition error_json (e : ConnectionMetadataError) : bytes :=
  ["{"%char] ++ comma_joined true [json_field "code" (appendJSONString [] (me_Code e)); json_field "message" (appendJSONString [] (me_Message e))]
  ++ ["}"%char].
Definition time_json (t : observedTime) : bytes := [byte_of 34] ++ format_rfc3339nano (nt_Instant (ob_Time t)) ++ [byte_of 34].
Definition entry_json (e : ConnectionMetadataEntry) : bytes :=
  ["{"%char] ++ comma_joined true
    ([json_field "state" (appendJSONString [] (me_State e))]
     ++ (if bool_decide (me_State e = "unavailable") then [] else [json_field "value" (fact_json (me_Value e))])
     ++ match me_ObservedAt e with Some t => [json_field "observedAt" (time_json t)] | None => [] end
     ++ match me_Error e with Some x => [json_field "error" (error_json x)] | None => [] end)
  ++ ["}"%char].
Definition bool_json (b : bool) : bytes := bytes_of (if b then "true" else "false").
(** The entries in the order [l]. *)
Definition snapshot_json (s : ConnectionMetadataSnapshot) (l : list (string * ConnectionMetadataEntry)) : bytes :=
  ["{"%char] ++ comma_joined true
    ([json_field "connectionID" (appendJSONString [] (ms_ConnectionID s)); json_field "generation" (appendJSONString [] (ms_Generation s));
      json_field "revision" (appendJSONString [] (ms_Revision s)); json_field "active" (bool_json (ms_Active s));
      json_field "refreshing" (bool_json (ms_Refreshing s))]
     ++ match ms_LastRefreshError s with Some x => [json_field "lastRefreshError" (error_json x)] | None => [] end
     ++ [json_field "entries" (["{"%char] ++ comma_joined true (map (λ p, json_field p.1 (entry_json p.2)) l) ++ ["}"%char])])
  ++ ["}"%char].

Lemma blen_json_string s : blen (appendJSONString [] s) = quotedJSONSize s.
Proof. pose proof (quotedJSONSize_exact [] s) as H. rewrite blen_nil in H. lia. Qed.
Lemma blen_json_field name v : blen (json_field name v) = quotedJSONSize name + 1 + blen v.
Proof. unfold json_field. rewrite !blen_app, blen_json_string, blen_cons, blen_nil. lia. Qed.
Lemma blen_bool_json b : blen (bool_json b) = metadataBoolSize b.
Proof. by destruct b. Qed.
Lemma blen_error_json e n : metadataErrorSize (Some e) = Ok n → blen (error_json e) = n.
Proof.
  unfold metadataErrorSize. rewrite bind_guard_iff, !bind_unit_iff. intros (_ & _ & _ & [= <-]). unfold error_json.
  cbn [comma_joined]. rewrite !blen_app, !blen_json_field, !blen_json_string, !blen_cons, !blen_nil.
  change (quotedJSONSize "code") with 6. change (quotedJSONSize "message") with 9. lia.
Qed.
Lemma blen_time_json t n : metadataTimeSize t = Ok n → blen (time_json t) = n.
Proof.
  unfold metadataTimeSize, time_json. rewrite bind_guard_iff, bind_unit_iff, bind_guard_iff. intros (_ & _ & _ & [= <-]).
  rewrite !blen_app, !blen_cons, !blen_nil. lia.
Qed.
Lemma comma_joined_app a r : ∀ first, comma_joined first (a ++ r) = comma_joined first a ++ comma_joined (first && bool_decide (a = [])) r.
Proof.
  induction a as [|x a IH]; intros first; cbn [app comma_joined]; [by rewrite bool_decide_true, andb_true_r|].
  by rewrite IH, andb_false_r, <- !app_assoc.
Qed.
Lemma blen_joined_app a r : a ≠ [] → blen (["{"%char] ++ comma_joined true (a ++ r)) = blen (["{"%char] ++ comma_joined true a) + blen (comma_joined false r).
Proof. intros Ha. by rewrite comma_joined_app, (bool_decide_false _ Ha), andb_false_r, app_assoc, blen_app. Qed.
(** An admitted entry is charged the length of its text. *)
Lemma blen_entry_json e n : metadataEntrySize e = Ok n → blen (entry_json e) = n.
Proof.
  unfold metadataEntrySize. rewrite !bind_ok_iff. intros (a & Ha & H). apply bind_ok in H as (b & Hb & H).
  apply bind_guard_iff in H as [_ [= <-]]. unfold entry_json.
  assert (blen (["{"%char] ++ comma_joined true ([json_field "state" (appendJSONString [] (me_State e))]
     ++ (if bool_decide (me_State e = "unavailable") then [] else [json_field "value" (fact_json (me_Value e))])
     ++ match me_ObservedAt e with Some t => [json_field "observedAt" (time_json t)] | None => [] end) ++ ["}"%char]) = a) as Ea.
  { unfold entry_payload in Ha. destruct (bool_decide (me_State e = "current") || bool_decide (me_State e = "stale")) eqn:Es.
    - assert (bool_decide (me_State e = "unavailable") = false) as ->
        by (apply bool_decide_eq_false; apply orb_true_iff in Es as [->%bool_decide_eq_true| ->%bool_decide_eq_true]; done).
      destruct (me_ObservedAt e) as [t|]; [|done]. rewrite bind_guard_iff, !bind_ok_iff in Ha. destruct Ha as (_ & m & Hm & Ha).
      apply bind_ok in Ha as (v & Hv & [= <-]). apply visit_sized in Hv as [-> _]; [|done]. apply blen_time_json in Hm.
      cbn [app comma_joined]. rewrite ?blen_app, ?blen_cons, ?blen_app, ?blen_json_field, ?blen_json_string, ?blen_cons, ?blen_app, ?blen_json_field, ?blen_cons, ?blen_app, ?blen_json_field, ?blen_nil.
      change (quotedJSONSize "state") with 7. change (quotedJSONSize "value") with 7. change (quotedJSONSize "observedAt") with 12. lia.
    - destruct (bool_decide (me_State e = "unavailable")) eqn:Eu; [|done]. rewrite !bind_guard_iff in Ha. destruct Ha as (Hv & _ & [= <-]).
      destruct (me_ObservedAt e); [by rewrite orb_true_r in Hv|].
      cbn [app comma_joined]. rewrite ?blen_app, ?blen_cons, ?blen_app, ?blen_json_field, ?blen_json_string, ?blen_cons, ?blen_nil.
      change (quotedJSONSize "state") with 7. lia. }
  rewrite !app_assoc in Ea. rewrite !app_assoc, (blen_app _ ["}"%char]), blen_joined_app by (by destruct (bool_decide _)). rewrite blen_app in Ea.
  match type of Ea with ?u + _ = _ => generalize dependent u end. intros w Ea. clear Ha.
  unfold entry_error in Hb. destruct (me_Error e) as [x|]; [|injection Hb as <-; cbn [comma_joined]; rewrite blen_nil; lia].
  apply bind_ok in Hb as (k & Hk & [= <-]). apply blen_error_json in Hk. cbn [comma_joined].
  rewrite !blen_app, blen_json_field, blen_cons, !blen_nil. change (quotedJSONSize "error") with 7. lia.
Qed.
Lemma blen_entries_json s l : Forall (entry_valid s) l → ∀ first,
  blen (comma_joined first (map (λ p, json_field p.1 (entry_json p.2)) l))
  = entries_size l + Z.of_nat (length l) - (if first && negb (bool_decide (l = [])) then 1 else 0).
Proof.
  induction 1 as [|[key e] l (Hk & Hc & Hg & n & Hn) _ IH]; intros first; cbn [map comma_joined entries_size foldr fst snd length];
    [by rewrite blen_nil, bool_decide_true, andb_false_r|].
  cbn [snd] in Hn. rewrite !blen_app, IH, blen_json_field, (blen_entry_json _ _ Hn). fold (entries_size l). unfold entry_size. rewrite Hn.
  destruct first; cbn [app andb]; rewrite ?blen_cons, ?blen_nil; cbn [bool_decide]; try rewrite (bool_decide_false (_ :: _ = [])) by done; cbn [negb]; lia.
Qed.
Lemma commas_length {A} (l : list A) : commas l = Z.of_nat (length l) - (if bool_decide (length l = O) then 0 else 1).
Proof. unfold commas. case_bool_decide; lia. Qed.
Lemma blen_snapshot_json s l : head_valid s → Forall (entry_valid s) l → blen (snapshot_json s l) = snapshot_size s l.
Proof.
  intros (_ & _ & _ & _ & _ & _ & _ & He) Hl. unfold snapshot_json, snapshot_size, snapshot_frame.
  assert (blen (comma_joined false match ms_LastRefreshError s with Some x => [json_field "lastRefreshError" (error_json x)] | None => [] end)
    = error_part (ms_LastRefreshError s)) as Hp.
  { unfold error_part. destruct (ms_LastRefreshError s) as [x|]; [|done]. destruct He as [|[n Hn]]; [done|]. rewrite Hn.
    cbn [comma_joined]. rewrite !blen_app, blen_json_field, (blen_error_json _ _ Hn), blen_cons, !blen_nil.
    change (quotedJSONSize "lastRefreshError") with 18. lia. }
  match goal with |- context [_ ++ _ ++ [json_field "entries" ?v]] => set (entries := v) end.
  assert (blen entries = 2 + entries_size l + commas l) as Hen.
  { unfold entries. rewrite !blen_app, (blen_entries_json s) by done. rewrite commas_length, !blen_cons, !blen_nil.
    destruct l as [|p l]; [done|]. rewrite !bool_decide_false by done. cbn [andb negb]. lia. }
  clearbody entries. rewrite app_assoc, blen_app, blen_joined_app, (comma_joined_app _ _ false), (blen_app (comma_joined false _)), Hp by done. cbn [comma_joined].
  rewrite ?blen_app, !blen_json_field, !blen_json_string, !blen_bool_json, Hen, !blen_cons, !blen_nil.
  change (quotedJSONSize "connectionID") with 14. change (quotedJSONSize "generation") with 12. change (quotedJSONSize "revision") with 10.
  change (quotedJSONSize "active") with 8. change (quotedJSONSize "refreshing") with 12. change (quotedJSONSize "entries") with 9.
  cbn [andb]. rewrite blen_cons, blen_nil. set (commas l) in *. lia.
Qed.

(** A complete snapshot is admitted by ValidateConnectionMetadataSnapshot
    exactly when its identity, revision, flags and last error are valid, it has at
    most 128 entries, every key and entry is valid (an inactive snapshot has no
    current fact) and its JSON text, which is never built, has at most 256 KiB. *)
Theorem metadata_snapshot_exact s l : ValidateConnectionMetadataSnapshot s l = Ok tt ↔
  head_valid s ∧ Z.of_nat (length l) ≤ MaxConnectionMetadataEntries ∧ Forall (entry_valid s) l
  ∧ blen (snapshot_json s l) ≤ MaxConnectionMetadataSnapshotBytes.
Proof.
  unfold ValidateConnectionMetadataSnapshot. rewrite validateSnapshot_iff.
  split; intros (H1 & H2 & H3 & H4); split_and!; try done; by rewrite blen_snapshot_json in *.
Qed.
