(* ===== verification/MetadataSync.v ===== *)
(** * The metadata coordinator (pkg/resource/v2/controller_metadata.go)

    Every section under the controller's lock that touches metadata, as steps: the
    generations of a connection come and go, observations run and end, callers
    read, refresh and invalidate, and watchers are served. Generations are those of
    [Lifecycle]; of them only what the coordinator asks for is kept here. *)
From S2P Require Import Prelude GoStd GoTime GoJson GoFloat Errors Values Json TaggedJson Budget Connections Metadata.
Local Open Scope Z_scope.

Definition watchBuffer : nat := 64.

(** reflect.DeepEqual on snapshots: what is equal to it agrees in every field; its
    entries may differ in what this model does not tell apart. *)
Class DeepEqual := {
  deep_equal : ConnectionMetadataSnapshot → ConnectionMetadataSnapshot → bool;
  deep_equal_fields a b : deep_equal a b = true →
    ms_ConnectionID a = ms_ConnectionID b ∧ ms_Generation a = ms_Generation b ∧ ms_Revision a = ms_Revision b
    ∧ ms_Active a = ms_Active b ∧ ms_Refreshing a = ms_Refreshing b ∧ ms_LastRefreshError a = ms_LastRefreshError b
}.

(** ** State *)

Record metadataState := mkState {
  st_snapshot : ConnectionMetadataSnapshot; st_revision : Z;
  st_slot : option nat; st_running : option nat; st_pending : bool; st_removed : bool
}.
(** [metadataAcquisition] with its goroutine: whether [done] is closed and with
    which error, and whether it has left its generation. *)
Record acquisition := mkAcquisition { aq_id : string; aq_slot : nat; aq_done : option (option error); aq_left : bool }.
(** A generation: [clientSlot] as far as it concerns the coordinator. *)
Record generation := mkGeneration {
  gn_id : string; gn_text : string;                  (** its nonce in hexadecimal *)
  gn_stopping : bool; gn_cancelled : bool; gn_users : nat; gn_destroyed : bool
}.
Record metadataWatcher := mkWatcher {
  w_events : list ConnectionMetadataEvent; w_overflow : bool;
  w_listed : bool;                                   (** in [metadataWatchers] *)
  w_initial : list ConnectionMetadataEvent;          (** still to be replayed *)
  w_hand : option ConnectionMetadataEvent;           (** received from [events], not yet passed on *)
  w_got : list ConnectionMetadataEvent;              (** what the sink was given *)
  w_result : option error;
  w_replay : list ConnectionMetadataEvent; w_from : nat  (** the replay, and how much had been published before *)
}.
Record coordinator := mkCoordinator {
  c_closed : bool; c_connections : gset string; c_changing : gset string;
  c_staged : option (gset string * gset string);     (** what changes, and the inventory to come *)
  c_clients : gmap string nat; c_slots : list generation;
  c_states : gmap string metadataState; c_jobs : list acquisition; c_watchers : list metadataWatcher;
  c_history : list ConnectionMetadataEvent           (** everything published *)
}.
Definition NewCoordinator : coordinator := mkCoordinator false ∅ ∅ None ∅ [] ∅ [] [] [].

Definition with_states (s : gmap string metadataState) (c : coordinator) : coordinator :=
  mkCoordinator (c_closed c) (c_connections c) (c_changing c) (c_staged c) (c_clients c) (c_slots c) s (c_jobs c) (c_watchers c) (c_history c).
Definition with_slots (s : list generation) (c : coordinator) : coordinator :=
  mkCoordinator (c_closed c) (c_connections c) (c_changing c) (c_staged c) (c_clients c) s (c_states c) (c_jobs c) (c_watchers c) (c_history c).
Definition with_jobs (j : list acquisition) (c : coordinator) : coordinator :=
  mkCoordinator (c_closed c) (c_connections c) (c_changing c) (c_staged c) (c_clients c) (c_slots c) (c_states c) j (c_watchers c) (c_history c).
Definition with_watchers (w : list metadataWatcher) (c : coordinator) : coordinator :=
  mkCoordinator (c_closed c) (c_connections c) (c_changing c) (c_staged c) (c_clients c) (c_slots c) (c_states c) (c_jobs c) w (c_history c).
Definition with_clients (m : gmap string nat) (c : coordinator) : coordinator :=
  mkCoordinator (c_closed c) (c_connections c) (c_changing c) (c_staged c) m (c_slots c) (c_states c) (c_jobs c) (c_watchers c) (c_history c).
Definition with_inventory (closed : bool) (connections changing : gset string) (staged : option (gset string * gset string)) (c : coordinator)
    : coordinator :=
  mkCoordinator closed connections changing staged (c_clients c) (c_slots c) (c_states c) (c_jobs c) (c_watchers c) (c_history c).
Definition put_state (id : string) (m : metadataState) (c : coordinator) : coordinator := with_states (<[id := m]> (c_states c)) c.

Definition with_Revision (r : string) (s : ConnectionMetadataSnapshot) : ConnectionMetadataSnapshot :=
  mkSnapshot (ms_ConnectionID s) (ms_Generation s) r (ms_Active s) (ms_Refreshing s) (ms_LastRefreshError s) (ms_Entries s).
Definition with_Refreshing (b : bool) (s : ConnectionMetadataSnapshot) : ConnectionMetadataSnapshot :=
  mkSnapshot (ms_ConnectionID s) (ms_Generation s) (ms_Revision s) (ms_Active s) b (ms_LastRefreshError s) (ms_Entries s).
Definition with_Entries (e : gmap string ConnectionMetadataEntry) (s : ConnectionMetadataSnapshot) : ConnectionMetadataSnapshot :=
  mkSnapshot (ms_ConnectionID s) (ms_Generation s) (ms_Revision s) (ms_Active s) (ms_Refreshing s) (ms_LastRefreshError s) (Some e).
Definition with_Error (x : option ConnectionMetadataError) (s : ConnectionMetadataSnapshot) : ConnectionMetadataSnapshot :=
  mkSnapshot (ms_ConnectionID s) (ms_Generation s) (ms_Revision s) (ms_Active s) (ms_Refreshing s) x (ms_Entries s).
Definition with_Inactive (s : ConnectionMetadataSnapshot) : ConnectionMetadataSnapshot :=
  mkSnapshot (ms_ConnectionID s) (ms_Generation s) (ms_Revision s) false false (ms_LastRefreshError s) (ms_Entries s).
Definition entries_of (s : ConnectionMetadataSnapshot) : gmap string ConnectionMetadataEntry := default ∅ (ms_Entries s).
Definition empty_snapshot (id revision : string) : ConnectionMetadataSnapshot := mkSnapshot id "" revision false false None (Some ∅).

(** [metadataStateLocked] *)
Definition state_of (id : string) (c : coordinator) : metadataState :=
  default (mkState (empty_snapshot id "") 0 None None false false) (c_states c !! id).
Definition set_slot (n : option nat) (m : metadataState) : metadataState :=
  mkState (st_snapshot m) (st_revision m) n (st_running m) (st_pending m) (st_removed m).
Definition set_running (j : option nat) (m : metadataState) : metadataState :=
  mkState (st_snapshot m) (st_revision m) (st_slot m) j (st_pending m) (st_removed m).
Definition set_pending (b : bool) (m : metadataState) : metadataState :=
  mkState (st_snapshot m) (st_revision m) (st_slot m) (st_running m) b (st_removed m).
Definition detach (m : metadataState) : metadataState :=
  mkState (st_snapshot m) (st_revision m) None (st_running m) false (st_removed m).
Definition set_users (f : nat → nat) (g : generation) : generation :=
  mkGeneration (gn_id g) (gn_text g) (gn_stopping g) (gn_cancelled g) (f (gn_users g)) (gn_destroyed g).
Definition set_stopping (g : generation) : generation := mkGeneration (gn_id g) (gn_text g) true true (gn_users g) (gn_destroyed g).
Definition set_cancelled (g : generation) : generation := mkGeneration (gn_id g) (gn_text g) (gn_stopping g) true (gn_users g) (gn_destroyed g).
Definition set_destroyed (g : generation) : generation := mkGeneration (gn_id g) (gn_text g) (gn_stopping g) (gn_cancelled g) (gn_users g) true.
Definition on_slot (n : nat) (f : generation → generation) (c : coordinator) : coordinator := with_slots (alter f n (c_slots c)) c.

(** ** Operations under the lock *)

Section operations.
Context `{DeepEqual}.

(** [select { case w.events <- event: default: close(w.overflow); delete }] *)
Definition offer (ev : ConnectionMetadataEvent) (w : metadataWatcher) : metadataWatcher :=
  if negb (w_listed w) then w
  else if (length (w_events w) <? watchBuffer)%nat then
    mkWatcher (w_events w ++ [ev]) (w_overflow w) true (w_initial w) (w_hand w) (w_got w) (w_result w) (w_replay w) (w_from w)
  else mkWatcher (w_events w) true false (w_initial w) (w_hand w) (w_got w) (w_result w) (w_replay w) (w_from w).
Definition metadataPublishLocked (id : string) (next : ConnectionMetadataSnapshot) (removed : bool) (c : coordinator) : coordinator :=
  let m := state_of id c in
  if deep_equal (st_snapshot m) next && Bool.eqb (st_removed m) removed && negb (st_revision m =? 0) then c
  else
    let revision := (st_revision m + 1) mod 2 ^ 64 in
    let next := with_Revision (format_uint revision) next in
    let ev := mkMetadataEvent next removed in
    let c := put_state id (mkState next revision (st_slot m) (st_running m) (st_pending m) removed) c in
    mkCoordinator (c_closed c) (c_connections c) (c_changing c) (c_staged c) (c_clients c) (c_slots c) (c_states c) (c_jobs c)
      (map (offer ev) (c_watchers c)) (c_history c ++ [ev]).
(** [metadataAcquireLocked], for the generation [n] of the connection. *)
Definition metadataAcquireLocked (id : string) (n : nat) (c : coordinator) : coordinator :=
  match st_running (state_of id c) with
  | Some _ => c
  | None =>
    let c := with_jobs (c_jobs c ++ [mkAcquisition id n None false]) (put_state id (set_running (Some (length (c_jobs c))) (state_of id c)) c) in
    let c := metadataPublishLocked id (with_Refreshing true (st_snapshot (state_of id c))) false c in
    on_slot n (set_users S) c
  end.
Definition live (n : nat) (c : coordinator) : bool :=
  match c_slots c !! n with
  | Some g => negb (gn_stopping g || gn_cancelled g || c_closed c) && bool_decide (c_clients c !! gn_id g = Some n)
  | None => false
  end.
Definition metadataAdmitLocked (n : nat) (c : coordinator) : coordinator :=
  match c_slots c !! n with
  | None => c
  | Some g =>
    let id := gn_id g in
    if negb (live n c) || bool_decide (st_slot (state_of id c) = Some n) then c
    else
      let c := put_state id (set_slot (Some n) (state_of id c)) c in
      let next := mkSnapshot id (gn_text g) (ms_Revision (st_snapshot (state_of id c))) true false None (Some ∅) in
      metadataAcquireLocked id n (metadataPublishLocked id next false c)
  end.
Definition staled (all : bool) (e : ConnectionMetadataEntry) : ConnectionMetadataEntry :=
  if bool_decide (me_State e = "current") || (all && negb (bool_decide (me_State e = "unavailable"))) then with_State "stale" e else e.
Definition metadataStopLocked (n : nat) (c : coordinator) : coordinator :=
  match c_slots c !! n with
  | None => c
  | Some g =>
    let id := gn_id g in
    match c_states c !! id with
    | Some m =>
      if bool_decide (st_slot m = Some n) then
        let c := put_state id (detach m) c in
        metadataPublishLocked id (with_Entries (staled false <$> entries_of (st_snapshot m)) (with_Inactive (st_snapshot m))) false c
      else c
    | None => c
    end
  end.
(** The prologue of [stopSlot]. *)
Definition stop_slot (n : nat) (c : coordinator) : coordinator := on_slot n set_stopping (metadataStopLocked n c).

(** [metadataInventoryLocked]; [gone] and [next] list the maps in the order of this run. *)
Definition forget (c : coordinator) (id : string) : coordinator :=
  let c := put_state id (detach (state_of id c)) c in
  metadataPublishLocked id (empty_snapshot id (ms_Revision (st_snapshot (state_of id c)))) true c.
Definition welcome (previous : gset string) (c : coordinator) (id : string) : coordinator :=
  let m := state_of id c in
  if negb (bool_decide (id ∈ previous)) || st_removed m
  then metadataPublishLocked id (empty_snapshot id (ms_Revision (st_snapshot m))) false c else put_state id m c.
Definition metadataInventoryLocked (previous : gset string) (gone next : list string) (c : coordinator) : coordinator :=
  foldl (welcome previous) (foldl forget c gone) next.
(** The second lock of [applyInventory]: [ok] when nothing failed before it. *)
Definition commit_inventory (ok : bool) (changed : gset string) (gone next : list string) (c : coordinator) : coordinator :=
  if ok && negb (c_closed c) then
    let c := metadataInventoryLocked (c_connections c) gone next c in
    with_inventory (c_closed c) (list_to_set next) (c_changing c ∖ changed) None c
  else with_inventory (c_closed c) (c_connections c) (c_changing c ∖ changed) None c.
(** What [stageInventory] does to a connection that changes. *)
Definition stage_one (c : coordinator) (id : string) : coordinator :=
  let c := if bool_decide (id ∈ c_connections c) then
             let c := put_state id (detach (state_of id c)) c in
             metadataPublishLocked id (empty_snapshot id (ms_Revision (st_snapshot (state_of id c)))) false c
           else c in
  match c_clients c !! id with Some n => on_slot n set_stopping c | None => c end.
Definition stageInventory (changed : list string) (next : gset string) (c : coordinator) : coordinator :=
  let c := with_inventory (c_closed c) (c_connections c) (c_changing c ∪ list_to_set changed) (Some (list_to_set changed, next)) c in
  foldl stage_one c changed.
(** The lock of [Close] over the registered generations. *)
Definition Close (slots : list nat) (c : coordinator) : coordinator :=
  foldl (λ c n, stop_slot n c) (with_inventory true (c_connections c) (c_changing c) (c_staged c) c) slots.
(** [startSlotLocked] of a connection without a generation; [text] is its nonce. *)
Definition startSlotLocked (id text : string) (c : coordinator) : coordinator :=
  with_slots (c_slots c ++ [mkGeneration id text false false 0 false]) (with_clients (<[id := length (c_slots c)]> (c_clients c)) c).
(** The end of [destroy.Do]. *)
Definition remove_slot (n : nat) (g : generation) (c : coordinator) : coordinator :=
  if bool_decide (c_clients c !! gn_id g = Some n) then with_clients (delete (gn_id g) (c_clients c)) c else c.

(** *** Reading and refreshing *)

Definition read_metadata (c : coordinator) (id : string) : coordinator :=
  let m := state_of id c in
  if st_revision m =? 0 then metadataPublishLocked id (st_snapshot m) false c else put_state id m c.
Definition GetConnectionMetadata (id : string) (c : coordinator) : result (coordinator * ConnectionMetadataSnapshot) :=
  guard_err (negb (bool_decide (id ∈ c_connections c))) (NewError "NOT_FOUND" "Connection was removed.") ;;
  guard_err (c_closed c) (NewError "CANCELLED" "Provider is closed.") ;;
  let c := read_metadata c id in Ok (c, st_snapshot (state_of id c)).
(** The generation an observation may be asked of. *)
Definition observable (id : string) (c : coordinator) : result nat :=
  match st_slot (state_of id c) with
  | Some n =>
    guard_err (match c_slots c !! n with Some g => gn_stopping g | None => true end || c_closed c)
      (NewError "CONNECTION_ERROR" "Connection is not started.") ;; Ok n
  | None => Err (NewError "CONNECTION_ERROR" "Connection is not started.")
  end.
(** [RefreshConnectionMetadata] after its first read; it then waits for the job. *)
Definition RefreshConnectionMetadata (id : string) (c : coordinator) : result coordinator :=
  n ← observable id c;
  guard_err (bool_decide (id ∈ c_changing c)) (NewError "CONNECTION_ERROR" "Connection is not started.") ;;
  Ok (metadataAcquireLocked id n c).
Definition InvalidateConnectionMetadata (id : string) (c : coordinator) : result coordinator :=
  n ← observable id c;
  Ok match st_running (state_of id c) with
     | Some _ => put_state id (set_pending true (state_of id c)) c
     | None => metadataAcquireLocked id n c
     end.

(** *** The end of an observation *)

(** What [ConnectionMetadata] gave: [None] is a panic; [ctx] is the context's error. *)
Definition observation (answer : option (result ConnectionMetadataUpdate)) (ctx : option error) : result ConnectionMetadataUpdate :=
  match answer with
  | None => Err (NewError "INTERNAL" "Connection metadata observation failed.")
  | Some (Err e) => Err e
  | Some (Ok u) => match ctx with Some e => Err e | None => ValidateConnectionMetadataUpdate u ;; Ok u end
  end.
Definition apply_observation (entries : gmap string ConnectionMetadataEntry) (p : string * ConnectionMetadataObservation)
    : gmap string ConnectionMetadataEntry :=
  let '(key, o) := p in
  if bool_decide (mo_State o = "success") then <[key := mkMetadataEntry "current" (mo_Value o) (Some (ob_UTC (mo_ObservedAt o))) None]> entries
  else match entries !! key with
  | Some old =>
    if bool_decide (me_State old = "unavailable") then <[key := mkMetadataEntry "unavailable" FNil None (mo_Error o)]> entries
    else <[key := mkMetadataEntry "stale" (me_Value old) (me_ObservedAt old) (mo_Error o)]> entries
  | None => <[key := mkMetadataEntry "unavailable" FNil None (mo_Error o)]> entries
  end.
Definition apply_update (u : ConnectionMetadataUpdate) (s : ConnectionMetadataSnapshot) : ConnectionMetadataSnapshot :=
  let entries := foldl apply_observation (entries_of s) (mu_Set u) in
  with_Error None (with_Refreshing false (with_Entries (foldl (λ m k, delete k m) entries (mu_Remove u)) s)).
Definition refresh_failed : ConnectionMetadataError :=
  mkMetadataError "OBSERVATION_FAILED" "Connection metadata could not be refreshed.".
Definition fail_refresh (s : ConnectionMetadataSnapshot) : ConnectionMetadataSnapshot :=
  with_Error (Some refresh_failed) (with_Refreshing false (with_Entries (staled true <$> entries_of s) s)).
(** The snapshot an observation leads to. *)
Definition observed (answer : result ConnectionMetadataUpdate) (s : ConnectionMetadataSnapshot) : ConnectionMetadataSnapshot :=
  match answer with
  | Ok u =>
    let next := apply_update u s in
    match validateMetadataSnapshotAdmission next (map_to_list (entries_of next)) with Ok _ => next | Err _ => fail_refresh s end
  | Err _ => fail_refresh s
  end.
Definition retired : error := NewError "CANCELLED" "Metadata acquisition retired.".
Definition finish_job (j : nat) (err : option error) (c : coordinator) : coordinator :=
  with_jobs (alter (λ q, mkAcquisition (aq_id q) (aq_slot q) (Some err) (aq_left q)) j (c_jobs c)) c.
Definition leave_job (q : acquisition) : acquisition := mkAcquisition (aq_id q) (aq_slot q) (aq_done q) true.
(** The locked end of [metadataObserve] of job [j]. *)
Definition metadataObserve (j : nat) (q : acquisition) (answer : result ConnectionMetadataUpdate) (c : coordinator) : coordinator :=
  let id := aq_id q in
  let n := aq_slot q in
  if negb (bool_decide (st_running (state_of id c) = Some j)) then finish_job j (Some retired) c
  else
    let c := put_state id (set_running None (state_of id c)) c in
    if negb (bool_decide (st_slot (state_of id c) = Some n)) || negb (live n c) then
      let cancelled := match c_slots c !! n with Some g => gn_cancelled g | None => false end in
      let c := if bool_decide (st_slot (state_of id c) = Some n) && cancelled then metadataStopLocked n c else c in
      let c := finish_job j (Some retired) c in
      match st_slot (state_of id c) with
      | Some n' =>
        match c_slots c !! n' with
        | Some g => if negb (bool_decide (n' = n)) && negb (gn_stopping g) && negb (gn_cancelled g) && negb (c_closed c)
                    then metadataAcquireLocked id n' c else c
        | None => c
        end
      | None => c
      end
    else
      let c := metadataPublishLocked id (observed answer (st_snapshot (state_of id c))) false c in
      let c := finish_job j None c in
      if st_pending (state_of id c) then metadataAcquireLocked id n (put_state id (set_pending false (state_of id c)) c) else c.

(** *** Watching *)

Definition with_watcher (k : nat) (f : metadataWatcher → metadataWatcher) (c : coordinator) : coordinator :=
  with_watchers (alter f k (c_watchers c)) c.
(** The lock of [WatchConnectionMetadata]; [ids] and [tombs] list the maps in the
    order of this run. *)
Definition WatchConnectionMetadata (ids tombs : list string) (c : coordinator) : coordinator :=
  let c := foldl read_metadata c ids in
  let replay := map (λ id, mkMetadataEvent (st_snapshot (state_of id c)) false) ids
                ++ map (λ id, mkMetadataEvent (st_snapshot (state_of id c)) true) tombs in
  with_watchers (c_watchers c ++ [mkWatcher [] false true replay None [] None replay (length (c_history c))]) c.
(** The sink takes a replayed event. *)
Definition replay_one (w : metadataWatcher) : metadataWatcher :=
  match w_initial w with
  | ev :: rest => mkWatcher (w_events w) (w_overflow w) (w_listed w) rest (w_hand w) (w_got w ++ [ev]) (w_result w) (w_replay w) (w_from w)
  | [] => w
  end.
(** [case event := <-w.events] *)
Definition receive_one (w : metadataWatcher) : metadataWatcher :=
  match w_events w with
  | ev :: rest => mkWatcher rest (w_overflow w) (w_listed w) (w_initial w) (Some ev) (w_got w) (w_result w) (w_replay w) (w_from w)
  | [] => w
  end.
(** The sink takes the event received. *)
Definition pass_one (w : metadataWatcher) : metadataWatcher :=
  match w_hand w with
  | Some ev => mkWatcher (w_events w) (w_overflow w) (w_listed w) (w_initial w) None (w_got w ++ [ev]) (w_result w) (w_replay w) (w_from w)
  | None => w
  end.
Definition end_watch (e : error) (w : metadataWatcher) : metadataWatcher :=
  mkWatcher (w_events w) (w_overflow w) (w_listed w) (w_initial w) (w_hand w) (w_got w) (Some e) (w_replay w) (w_from w).
Definition unlist (w : metadataWatcher) : metadataWatcher :=
  mkWatcher (w_events w) (w_overflow w) false (w_initial w) (w_hand w) (w_got w) (w_result w) (w_replay w) (w_from w).
Definition reset_required : error := NewError "RESET_REQUIRED" "Metadata subscription must resynchronize.".

(** ** Interleaving *)

(** The text of a nonce: 64 hexadecimal digits. *)
Definition EncodeToString (src : bytes) : string :=
  string_of (flat_map (λ b, [hex_digit (byte_val b / 16); hex_digit (byte_val b mod 16)]) src).
Definition nonce_text (s : string) : Prop := ∃ nonce, length nonce = 32%nat ∧ s = EncodeToString nonce.
(** What [applyInventory] requires of an ID. *)
Definition id_admitted (id : string) : Prop := ValidateConnectionMetadataSnapshot (empty_snapshot id "1") [] = Ok tt.
Definition removed_ids (c : coordinator) : list string := (filter (λ p, st_removed p.2 = true) (map_to_list (c_states c))).*1.

Inductive step (c : coordinator) : coordinator → Prop :=
| step_start id text : c_closed c = false → id ∉ c_changing c → id ∈ c_connections c → c_clients c !! id = None → nonce_text text →
    step c (startSlotLocked id text c)
| step_admit n : step c (metadataAdmitLocked n c)                        (** [StartConnection] returns *)
| step_cancel n : step c (on_slot n set_cancelled c)                     (** its caller gives up *)
| step_stop n : step c (stop_slot n c)
| step_destroy n g : c_slots c !! n = Some g → gn_stopping g = true → gn_users g = O → step c (on_slot n set_destroyed c)
| step_remove n g : c_slots c !! n = Some g → gn_destroyed g = true → step c (remove_slot n g c)
| step_stage changed next : c_staged c = None → c_closed c = false → (∀ id, id ∈ next → id_admitted id) →
    (c_connections c ∖ next) ∪ (next ∖ c_connections c) ⊆ list_to_set changed → list_to_set changed ⊆ c_connections c ∪ next →
    step c (stageInventory changed next c)
| step_commit ok changed next gone ids : c_staged c = Some (changed, next) →
    (∀ id, id ∈ changed → c_clients c !! id = None) →                    (** the retired generations were removed *)
    gone ≡ₚ elements (c_connections c ∖ next) → ids ≡ₚ elements next →
    step c (commit_inventory ok changed gone ids c)
| step_close slots : slots ≡ₚ (map_to_list (c_clients c)).*2 → step c (Close slots c)
| step_get id c' s : GetConnectionMetadata id c = Ok (c', s) → step c c'
| step_refresh id c' : RefreshConnectionMetadata id c = Ok c' → step c c'
| step_invalidate id c' : InvalidateConnectionMetadata id c = Ok c' → step c c'
| step_observe j q answer ctx : c_jobs c !! j = Some q → aq_done q = None → step c (metadataObserve j q (observation answer ctx) c)
| step_leave j q : c_jobs c !! j = Some q → aq_done q ≠ None → aq_left q = false →
    step c (on_slot (aq_slot q) (set_users pred) (with_jobs (alter leave_job j (c_jobs c)) c))
| step_watch ids tombs : c_closed c = false → ids ≡ₚ elements (c_connections c) →
    tombs ≡ₚ removed_ids (foldl read_metadata c ids) → step c (WatchConnectionMetadata ids tombs c)
| step_replay k w : c_watchers c !! k = Some w → w_result w = None → w_initial w ≠ [] → step c (with_watcher k replay_one c)
| step_receive k w : c_watchers c !! k = Some w → w_result w = None → w_initial w = [] → w_hand w = None →
    step c (with_watcher k receive_one c)
| step_pass k w : c_watchers c !! k = Some w → w_result w = None → w_overflow w = false → step c (with_watcher k pass_one c)
| step_reset k w : c_watchers c !! k = Some w → w_result w = None → w_initial w = [] → w_overflow w = true →
    step c (with_watcher k (end_watch reset_required) c)
| step_end k w e : c_watchers c !! k = Some w → w_result w = None → step c (with_watcher k (end_watch e) c)  (** a context or the sink ends it *)
| step_unlist k w e : c_watchers c !! k = Some w → w_result w = Some e → step c (with_watcher k unlist c).
Definition reachable (c : coordinator) : Prop := rtc step NewCoordinator c.
End operations.
