(* ===== verification/MetadataGen.v ===== *)
(** * Generations and observations of the metadata coordinator

    What a published snapshot says about its generation, and how long a generation
    outlives the observations made with it. *)
From S2P Require Import Prelude GoStd GoTime GoJson GoFloat Errors Values Json TaggedJson Budget Connections Metadata MetadataSync.
From stdpp Require Import relations.
Local Open Scope Z_scope.

Section generations.
Context `{DeepEqual}.

(** ** Frames *)

Record same_but (id : string) (c c' : coordinator) : Prop := {
  sb_closed : c_closed c' = c_closed c; sb_connections : c_connections c' = c_connections c;
  sb_changing : c_changing c' = c_changing c; sb_staged : c_staged c' = c_staged c;
  sb_clients : c_clients c' = c_clients c; sb_slots : c_slots c' = c_slots c; sb_jobs : c_jobs c' = c_jobs c;
  sb_other id' : id' ≠ id → state_of id' c' = state_of id' c
}.
Lemma same_but_trans id a b c : same_but id a b → same_but id b c → same_but id a c.
Proof. intros A B. destruct A, B. split; [congruence..|]. intros id' Hid. transitivity (state_of id' b); auto. Qed.
Lemma state_of_put id id' m c : state_of id' (put_state id m c) = if decide (id' = id) then m else state_of id' c.
Proof. unfold state_of, put_state. cbn. case_decide; [subst; by rewrite lookup_insert_eq|by rewrite lookup_insert_ne]. Qed.
Lemma state_of_put_eq id m c : state_of id (put_state id m c) = m.
Proof. rewrite state_of_put. by rewrite decide_True. Qed.
Lemma put_same_but id m c : same_but id c (put_state id m c).
Proof. split; try done. intros id' Hid. rewrite state_of_put. by rewrite decide_False. Qed.
Lemma publish_same_but id next r c : same_but id c (metadataPublishLocked id next r c).
Proof.
  unfold metadataPublishLocked. destruct (_ && _); [by split|]. split; try done. intros id' Hid. unfold state_of. cbn.
  by rewrite lookup_insert_ne.
Qed.

(** What agrees with a snapshot up to its revision. *)
Record agrees (s next : ConnectionMetadataSnapshot) : Prop := {
  ag_id : ms_ConnectionID s = ms_ConnectionID next; ag_generation : ms_Generation s = ms_Generation next;
  ag_active : ms_Active s = ms_Active next; ag_refreshing : ms_Refreshing s = ms_Refreshing next;
  ag_error : ms_LastRefreshError s = ms_LastRefreshError next
}.
(** The state a publication leaves. *)
Lemma state_of_publish id next r c : let m := state_of id c in let k := (st_revision m + 1) mod 2 ^ 64 in
  state_of id (metadataPublishLocked id next r c)
  = if deep_equal (st_snapshot m) next && Bool.eqb (st_removed m) r && negb (st_revision m =? 0) then m
    else mkState (with_Revision (format_uint k) next) k (st_slot m) (st_running m) (st_pending m) r.
Proof. cbn zeta. unfold metadataPublishLocked. destruct (_ && _); [done|]. unfold state_of at 1. cbn. by rewrite lookup_insert_eq. Qed.
Lemma publish_state id next r c : let m := state_of id c in let m' := state_of id (metadataPublishLocked id next r c) in
  agrees (st_snapshot m') next ∧ st_slot m' = st_slot m ∧ st_running m' = st_running m ∧ st_pending m' = st_pending m ∧ st_removed m' = r.
Proof.
  cbn zeta. rewrite state_of_publish. destruct (deep_equal _ _) eqn:E; cbn [andb]; [|split; [by split|done]].
  destruct (Bool.eqb _ _) eqn:Er; cbn [andb]; [|split; [by split|done]]. destruct (negb _); [|split; [by split|done]].
  apply deep_equal_fields in E as (? & ? & _ & ? & ? & ?). apply eqb_prop in Er. split; [by split|done].
Qed.

(** ** The invariant *)

Definition unfinished (id : string) (q : acquisition) : Prop := aq_id q = id ∧ aq_done q = None.
(** How many observations hold a generation. *)
Definition observers (n : nat) (jobs : list acquisition) : nat := length (filter (λ q, aq_slot q = n ∧ aq_left q = false) jobs).
Definition live_slot (c : coordinator) (id : string) (n : nat) (text : string) : Prop :=
  c_clients c !! id = Some n ∧ ∃ g, c_slots c !! n = Some g ∧ gn_stopping g = false ∧ gn_text g = text.
(** What the state of a connection says. *)
Record state_inv (c : coordinator) (id : string) (m : metadataState) : Prop := {
  si_id : ms_ConnectionID (st_snapshot m) = id;
  si_slot n : st_slot m = Some n → live_slot c id n (ms_Generation (st_snapshot m));
  si_active : ms_Active (st_snapshot m) = is_some (st_slot m);
  si_refreshing : ms_Refreshing (st_snapshot m) = is_some (st_slot m) && is_some (st_running m);
  si_removed : st_removed m = true → st_slot m = None;
  si_running j : st_running m = Some j ↔ ∃ q, c_jobs c !! j = Some q ∧ unfinished id q
}.
Record inv (c : coordinator) : Prop := {
  inv_state id : state_inv c id (state_of id c);
  inv_clients id n : c_clients c !! id = Some n → ∃ g, c_slots c !! n = Some g ∧ gn_id g = id;
  inv_live id n g : c_clients c !! id = Some n → c_slots c !! n = Some g → gn_stopping g = false →
    id ∈ c_connections c ∧ (id ∉ c_changing c) ∧ c_closed c = false;
  inv_held j q : c_jobs c !! j = Some q → aq_left q = false →
    c_clients c !! aq_id q = Some (aq_slot q) ∧ ∃ g, c_slots c !! aq_slot q = Some g ∧ gn_destroyed g = false;
  inv_left j q : c_jobs c !! j = Some q → aq_left q = true → aq_done q ≠ None;
  inv_users n g : c_slots c !! n = Some g → gn_users g = observers n (c_jobs c);
  inv_destroyed n g : c_slots c !! n = Some g → gn_destroyed g = true → gn_stopping g = true;
  inv_staged changed next : c_staged c = Some (changed, next) →
    changed ⊆ c_changing c ∧ c_connections c ∖ next ⊆ changed ∧ ∀ id, id ∈ next → id_admitted id;
  inv_text n g : c_slots c !! n = Some g → nonce_text (gn_text g);
  inv_ids id : id ∈ c_connections c → id_admitted id
}.

(** Steps that only change the state of one connection. *)
Lemma inv_state_change id c c' : same_but id c c' → inv c → state_inv c' id (state_of id c') → inv c'.
Proof.
  intros [E1 E2 E3 E4 E5 E6 E7 Ho] [I1 I2 I3 I4 I5 I6 I7 I8 I9 I10] Hs. split.
  - intros id'. destruct (decide (id' = id)) as [->|Hid]; [done|]. rewrite (Ho _ Hid). destruct (I1 id'). split; unfold live_slot in *; by rewrite ?E5, ?E6, ?E7.
  - by rewrite E5, E6.
  - by rewrite E1, E2, E3, E5, E6.
  - by rewrite E5, E6, E7.
  - by rewrite E7.
  - by rewrite E6, E7.
  - by rewrite E6.
  - by rewrite E2, E3, E4.
  - by rewrite E6.
  - by rewrite E2.
Qed.
(** A connection without a generation. *)
Lemma detached_publish id next r c : inv c → agrees next (with_Inactive next) → ms_ConnectionID next = id →
  inv (metadataPublishLocked id next r (put_state id (detach (state_of id c)) c)).
Proof.
  intros I Ha Hid. set (d := put_state id _ c). pose proof (publish_state id next r d) as (Hs & E1 & E2 & E3 & E4).
  pose proof (publish_same_but id next r d) as F. pose proof (put_same_but id (detach (state_of id c)) c) as F'. fold d in F'.
  pose proof (same_but_trans _ _ _ _ F' F) as G. apply (inv_state_change id c); [done|done|].
  assert (state_of id d = detach (state_of id c)) as Ed by apply state_of_put_eq. rewrite Ed in E1, E2. cbn in E1, E2.
  destruct Hs as [S1 S2 S3 S4 S5], Ha as [_ _ A3 A4 _]. cbn in A3, A4. split.
  - congruence.
  - by rewrite E1.
  - rewrite S3, A3, E1. done.
  - rewrite S4, A4, E1. done.
  - done.
  - intros j. rewrite E2. rewrite (sb_jobs _ _ _ G). apply I.
Qed.

(** *** Operations on one connection *)

Lemma inactive_agrees s e : agrees (with_Entries e (with_Inactive s)) (with_Inactive (with_Entries e (with_Inactive s))).
Proof. by split. Qed.
Lemma empty_agrees id r : agrees (empty_snapshot id r) (with_Inactive (empty_snapshot id r)).
Proof. by split. Qed.

Lemma state_of_default id c m : c_states c !! id = Some m → state_of id c = m.
Proof. unfold state_of. by intros ->. Qed.
Lemma stop_inv n c : inv c → inv (metadataStopLocked n c).
Proof.
  intros I. unfold metadataStopLocked. destruct (c_slots c !! n) as [g|] eqn:En; [|done].
  destruct (c_states c !! gn_id g) as [m|] eqn:Em; [|done]. case_bool_decide; [|done].
  apply state_of_default in Em. subst m. apply detached_publish; [done|apply inactive_agrees|apply I].
Qed.
Lemma forget_inv c id : inv c → inv (forget c id).
Proof. intros I. apply detached_publish; [done|apply empty_agrees|done]. Qed.
(** A connection that has no generation is given an empty snapshot. *)
Lemma empty_publish_inv id r c : inv c → st_slot (state_of id c) = None →
  inv (metadataPublishLocked id (empty_snapshot id (ms_Revision (st_snapshot (state_of id c)))) r c).
Proof.
  intros I Hn. pose proof (publish_state id (empty_snapshot id (ms_Revision (st_snapshot (state_of id c)))) r c) as (Hs & E1 & E2 & E3 & E4).
  pose proof (publish_same_but id (empty_snapshot id (ms_Revision (st_snapshot (state_of id c)))) r c) as F.
  apply (inv_state_change id c); [done|done|]. destruct Hs as [S1 S2 S3 S4 S5]. split.
  - by rewrite S1.
  - by rewrite E1, Hn.
  - by rewrite S3, E1, Hn.
  - by rewrite S4, E1, Hn.
  - by rewrite E1.
  - intros j. rewrite E2, (sb_jobs _ _ _ F). apply I.
Qed.
(** Publishing the current snapshot once more, or only keeping the state. *)
Lemma same_publish_inv id c : inv c → inv (metadataPublishLocked id (st_snapshot (state_of id c)) false c).
Proof.
  intros I. pose proof (publish_state id (st_snapshot (state_of id c)) false c) as (Hs & E1 & E2 & E3 & E4).
  pose proof (publish_same_but id (st_snapshot (state_of id c)) false c) as F.
  apply (inv_state_change id c); [done|done|]. destruct Hs as [S1 S2 S3 S4 S5], (inv_state _ I id) as [J1 J2 J3 J4 J6 J5]. split.
  - congruence.
  - intros n. rewrite E1, S2. unfold live_slot. rewrite (sb_clients _ _ _ F), (sb_slots _ _ _ F). apply J2.
  - by rewrite S3, E1.
  - by rewrite S4, E1, E2.
  - by rewrite E4.
  - intros j. rewrite E2, (sb_jobs _ _ _ F). apply J5.
Qed.
Lemma put_state_inv id c m : inv c → st_snapshot m = st_snapshot (state_of id c) → st_slot m = st_slot (state_of id c) →
  st_running m = st_running (state_of id c) → st_removed m = st_removed (state_of id c) → inv (put_state id m c).
Proof.
  intros I E1 E2 E3 E4. apply (inv_state_change id c); [apply put_same_but|done|]. rewrite state_of_put_eq.
  destruct (inv_state _ I id) as [J1 J2 J3 J4 J6 J5].
  split; [by rewrite E1|intros n; rewrite E1, E2; apply J2|by rewrite E1, E2|by rewrite E1, E2, E3|by rewrite E4, E2|intros j; rewrite E3; apply J5].
Qed.
Lemma read_inv c id : inv c → inv (read_metadata c id).
Proof. intros I. unfold read_metadata. destruct (_ =? _); [by apply same_publish_inv|by apply put_state_inv]. Qed.
Lemma foldl_inv {A} (f : coordinator → A → coordinator) (P : coordinator → Prop) l c :
  (∀ c a, a ∈ l → P c → P (f c a)) → P c → P (foldl f c l).
Proof.
  revert c. induction l as [|a l IH]; intros c Hf Hc; [done|]. cbn. apply IH; [|apply Hf; [by left|done]]. intros c' a' Ha. apply Hf. by right.
Qed.

(** *** Observations *)

Lemma observers_app n l q : observers n (l ++ [q]) = (observers n l + (if decide (aq_slot q = n ∧ aq_left q = false) then 1 else 0))%nat.
Proof. unfold observers. rewrite filter_app, length_app, filter_cons. f_equal. by case_decide. Qed.
Lemma observers_same n f j l : (∀ q, aq_slot (f q) = aq_slot q ∧ aq_left (f q) = aq_left q) → observers n (alter f j l) = observers n l.
Proof.
  intros Hf. unfold observers. revert j. induction l as [|q l IH]; intros [|j]; [done..| |].
  - change (alter f 0%nat (q :: l)) with (f q :: l). rewrite !filter_cons. destruct (Hf q) as [-> ->]. by case_decide.
  - change (alter f (S j) (q :: l)) with (q :: alter f j l). rewrite !filter_cons. case_decide; cbn [length]; by rewrite IH.
Qed.
Lemma observers_leave n j l q : l !! j = Some q → aq_left q = false →
  observers n l = (observers n (alter leave_job j l) + (if decide (aq_slot q = n) then 1 else 0))%nat.
Proof.
  unfold observers. revert j. induction l as [|q' l IH]; intros [|j] Hj Hq; [done..| |].
  - injection Hj as ->. change (alter leave_job 0%nat (q :: l)) with (leave_job q :: l). rewrite !filter_cons.
    rewrite (decide_False (P := aq_slot (leave_job q) = n ∧ aq_left (leave_job q) = false)) by (intros [_ Hx]; discriminate Hx). repeat case_decide; cbn [length]; first [lia|naive_solver].
  - change (alter leave_job (S j) (q' :: l)) with (q' :: alter leave_job j l). rewrite !filter_cons.
    specialize (IH j Hj Hq). repeat case_decide; cbn [length] in *; lia.
Qed.
Lemma observers_pos n l j q : l !! j = Some q → aq_slot q = n → aq_left q = false → (0 < observers n l)%nat.
Proof.
  intros Hj Hn Hq. unfold observers. apply Nat.neq_0_lt_0. intros E. apply nil_length_inv in E.
  assert (q ∈ filter (λ q, aq_slot q = n ∧ aq_left q = false) l) as Hin by (apply list_elem_of_filter; split; [done|by eapply list_elem_of_lookup_2]).
  by rewrite E in Hin; apply not_elem_of_nil in Hin.
Qed.

Lemma on_slot_lookup n f c k : c_slots (on_slot n f c) !! k = if decide (k = n) then f <$> c_slots c !! k else c_slots c !! k.
Proof. unfold on_slot. cbn. case_decide; [subst; by rewrite list_lookup_alter_eq|by rewrite list_lookup_alter_ne]. Qed.
(** Changing a generation in a way the states do not notice. *)
Lemma live_slot_mono c c' id n text :
  c_clients c' = c_clients c →
  (∀ k g, c_slots c !! k = Some g → c_clients c !! id = Some k → gn_stopping g = false →
    ∃ g', c_slots c' !! k = Some g' ∧ gn_stopping g' = false ∧ gn_text g' = gn_text g) →
  live_slot c id n text → live_slot c' id n text.
Proof. intros E Hs (Hc & g & Hg & Hst & Ht). split; [by rewrite E|]. destruct (Hs n g) as (g' & ? & ? & ?); [done..|]. exists g'. split_and!; congruence. Qed.

Lemma acquire_inv id n c : inv c → st_slot (state_of id c) = Some n → inv (metadataAcquireLocked id n c).
Proof.
  intros I Hslot. unfold metadataAcquireLocked. destruct (st_running (state_of id c)) as [j|] eqn:Hr; [done|].
  set (J := length (c_jobs c)). set (new := mkAcquisition id n None false).
  set (d := with_jobs (c_jobs c ++ [new]) (put_state id (set_running (Some J) (state_of id c)) c)).
  set (next := with_Refreshing true (st_snapshot (state_of id d))).
  set (e := metadataPublishLocked id next false d).
  pose proof (publish_state id next false d) as (Hs & E1 & E2 & E3 & E4). fold e in Hs, E1, E2, E3, E4.
  pose proof (publish_same_but id next false d) as [F1 F2 F3 F4 F5 F6 F7 Fo]. fold e in F1, F2, F3, F4, F5, F6, F7, Fo.
  cbn in F1, F2, F3, F4, F5, F6, F7.
  assert (state_of id d = set_running (Some J) (state_of id c)) as Ed by apply (state_of_put_eq id).
  assert (∀ id', id' ≠ id → state_of id' e = state_of id' c) as Hother.
  { intros id' Hid. rewrite Fo by done. transitivity (state_of id' (put_state id (set_running (Some J) (state_of id c)) c)); [done|].
    rewrite state_of_put. by rewrite decide_False. }
  destruct (inv_state _ I id) as [J1 J2 J3 J4 J5 J6]. pose proof (J2 _ Hslot) as (Hclient & g & Hg & Hstop & Htext).
  assert (gn_destroyed g = false) as Hdes.
  { destruct (gn_destroyed g) eqn:Hd; [|done]. by rewrite (inv_destroyed _ I _ _ Hg Hd) in Hstop. }
  assert (Hview : ∀ id' k text, live_slot c id' k text → live_slot (on_slot n (set_users S) e) id' k text).
  { intros id' k text. apply live_slot_mono; [by cbn; rewrite F5|]. intros k' g' Hk' _ ?. rewrite on_slot_lookup, F6.
    case_decide; [rewrite Hk'; eexists; by split_and!|by exists g']. }
  split.
  - intros id'. change (state_of id' (on_slot n (set_users S) e)) with (state_of id' e). destruct (decide (id' = id)) as [->|Hid].
    + destruct Hs as [S1 S2 S3 S4 S5]. split.
      * rewrite S1. cbn. by rewrite Ed.
      * intros k. rewrite E1, Ed, S2. cbn. rewrite Ed. cbn. intros Hk. by apply Hview, J2.
      * rewrite S3, E1. cbn. by rewrite Ed.
      * rewrite S4, E1, E2, Ed. cbn. by rewrite Hslot.
      * by rewrite E4.
      * intros j. rewrite E2, Ed. cbn. rewrite F7. split.
        { intros [= <-]. exists new. split; [|done]. apply list_lookup_middle. done. }
        intros (q & Hq & Hu). apply lookup_app_Some in Hq as [Hq|[Hj Hq]].
        { assert (st_running (state_of id c) = Some j) by (apply J6; by exists q). congruence. }
        apply list_lookup_singleton_Some in Hq as [Hj0 <-]. f_equal. unfold J. lia.
    + rewrite Hother by done. destruct (inv_state _ I id') as [K1 K2 K3 K4 K5 K6]. split; try done.
      * intros k Hk. by apply Hview, K2.
      * intros j. rewrite K6. cbn. rewrite F7. split; intros (q & Hq & Hu).
        { exists q. split; [by apply lookup_app_l_Some|done]. }
        apply lookup_app_Some in Hq as [Hq|[Hj Hq]]; [by exists q|]. apply list_lookup_singleton_Some in Hq as [_ <-].
        destruct Hu as [Hu _]. by cbn in Hu.
  - intros id' k. cbn. rewrite F5. intros Hk. destruct (inv_clients _ I _ _ Hk) as (g' & Hg' & Hid').
    change (alter _ _ _ !! k) with (c_slots (on_slot n (set_users S) e) !! k). rewrite on_slot_lookup, F6, Hg'. case_decide; eexists; by split.
  - intros id' k g'. rewrite on_slot_lookup, F6. cbn. rewrite F5, F2, F3, F1. intros Hk Hg' Hst.
    case_decide; [|by eapply I]. destruct (c_slots c !! k) as [g0|] eqn:E0; [|done]. injection Hg' as <-. by eapply I.
  - intros j q. cbn. rewrite F7, F5. intros Hj Hl. change (alter _ _ (c_slots e)) with (c_slots (on_slot n (set_users S) e)).
    rewrite on_slot_lookup, F6. apply lookup_app_Some in Hj as [Hj|[_ Hj]].
    + destruct (inv_held _ I _ _ Hj Hl) as (Hc & g' & Hg' & Hd). split; [done|]. rewrite Hg'. case_decide; eexists; by split.
    + apply list_lookup_singleton_Some in Hj as [_ <-]. cbn. split; [done|]. rewrite decide_True by done. rewrite Hg. eexists. by split.
  - intros j q. cbn. rewrite F7. intros Hj Hl. apply lookup_app_Some in Hj as [Hj|[_ Hj]]; [by eapply I|].
    apply list_lookup_singleton_Some in Hj as [_ <-]. done.
  - intros k g'. rewrite on_slot_lookup, F6. change (c_jobs (on_slot n (set_users S) e)) with (c_jobs e). rewrite F7, observers_app. cbn [aq_slot aq_left new].
    case_decide as Hk; [subst k; rewrite Hg; intros [= <-]; cbn; rewrite decide_True by done; rewrite (inv_users _ I _ _ Hg); lia|].
    rewrite decide_False by (intros [? _]; congruence). intros Hg'. rewrite (inv_users _ I _ _ Hg'). lia.
  - intros k g'. rewrite on_slot_lookup, F6. case_decide; [|by eapply I].
    destruct (c_slots c !! k) as [g0|] eqn:E0; [|done]. intros [= <-]. cbn. by eapply I.
  - intros changed nx. cbn. rewrite F4, F3, F2. apply I.
  - intros k g'. rewrite on_slot_lookup, F6. case_decide; [|by apply I]. destruct (c_slots c !! k) as [g0|] eqn:E0; [|done]. intros [= <-].
    exact (inv_text _ I _ _ E0).
  - cbn. rewrite F2. apply I.
Qed.

(** *** Generations *)

Lemma on_slot_inv n f c : inv c →
  (∀ g, gn_id (f g) = gn_id g ∧ gn_text (f g) = gn_text g ∧ gn_users (f g) = gn_users g) →
  (∀ g, c_slots c !! n = Some g → gn_stopping (f g) = gn_stopping g ∨ gn_stopping (f g) = true ∧ ∀ id, st_slot (state_of id c) ≠ Some n) →
  (∀ g, c_slots c !! n = Some g → gn_destroyed (f g) = gn_destroyed g ∧ (gn_stopping g = true → gn_stopping (f g) = true)
    ∨ gn_stopping (f g) = true ∧ gn_users g = O) →
  inv (on_slot n f c).
Proof.
  intros I Hf Hst Hde.
  assert (Hlook : ∀ k g', c_slots (on_slot n f c) !! k = Some g' → ∃ g, c_slots c !! k = Some g ∧ (g' = g ∨ k = n ∧ g' = f g)).
  { intros k g'. rewrite on_slot_lookup. case_decide; [|by exists g'; split; [|left]]. destruct (c_slots c !! k) as [g|]; [|done].
    intros [= <-]. exists g. split; [done|by right]. }
  split.
  - intros id. change (state_of id (on_slot n f c)) with (state_of id c). destruct (inv_state _ I id) as [K1 K2 K3 K4 K5 K6]. split; try done.
    intros k Hk. destruct (K2 k Hk) as (Hc & g & Hg & Hs & Ht). split; [done|]. rewrite on_slot_lookup.
    case_decide as Hkn; [|by exists g]. subst k. rewrite Hg. exists (f g). destruct (Hf g) as (_ & -> & _). split_and!; [done| |done].
    destruct (Hst g Hg) as [->|[_ Hno]]; [done|]. by destruct (Hno id).
  - intros id k Hk. destruct (inv_clients _ I id k Hk) as (g & Hg & Hid). rewrite on_slot_lookup. case_decide; [|by exists g].
    rewrite Hg. exists (f g). by destruct (Hf g) as (-> & _).
  - intros id k g' Hk Hg' Hs. apply Hlook in Hg' as (g & Hg & [->|[-> ->]]); [by eapply I|].
    destruct (gn_stopping g) eqn:E; [|by eapply I]. destruct (Hst g Hg) as [?|[? _]]; congruence.
  - intros j q Hj Hl. destruct (inv_held _ I j q Hj Hl) as (Hc & g & Hg & Hd). split; [done|]. rewrite on_slot_lookup. case_decide as Hkn; [|by exists g].
    rewrite Hg. exists (f g). split; [done|]. destruct (Hde g) as [[-> _]|[_ Hu]]; [by rewrite <- Hkn|done|].
    rewrite (inv_users _ I _ _ Hg) in Hu. pose proof (observers_pos _ _ _ _ Hj eq_refl Hl). change (c_jobs (on_slot n f c)) with (c_jobs c) in *. lia.
  - apply I.
  - intros k g' Hg'. apply Hlook in Hg' as (g & Hg & [->|[-> ->]]); [by apply I|]. destruct (Hf g) as (_ & _ & ->). by apply I.
  - intros k g' Hg'. apply Hlook in Hg' as (g & Hg & [->|[-> ->]]); [by eapply I|]. destruct (Hde g Hg) as [[-> Hm]|[? _]]; [|done].
    intros Hd. apply Hm. by eapply I.
  - apply I.
  - intros k g' Hg'. apply Hlook in Hg' as (g & Hg & [->|[-> ->]]); [by eapply I|]. destruct (Hf g) as (_ & -> & _). by eapply I.
  - apply I.
Qed.

(** An observation that runs with a generation still in use is that of the state. *)
Definition current_obs (c : coordinator) : Prop := ∀ j q g, c_jobs c !! j = Some q → aq_done q = None →
  c_slots c !! aq_slot q = Some g → gn_stopping g = false → st_slot (state_of (aq_id q) c) = Some (aq_slot q).
Definition good (c : coordinator) : Prop := inv c ∧ current_obs c.
Lemma current_obs_change id c c' : same_but id c c' → st_slot (state_of id c') = st_slot (state_of id c) → current_obs c → current_obs c'.
Proof.
  intros F E Ho j q g. rewrite (sb_jobs _ _ _ F), (sb_slots _ _ _ F). intros Hj Hd Hg Hs. destruct (decide (aq_id q = id)) as [Hq|Hq].
  - rewrite Hq, E, <- Hq. by eapply Ho.
  - rewrite (sb_other _ _ _ F) by done. by eapply Ho.
Qed.
Lemma unfinished_held c j q : inv c → c_jobs c !! j = Some q → aq_done q = None → c_clients c !! aq_id q = Some (aq_slot q).
Proof.
  intros I Hj Hd. destruct (aq_left q) eqn:Hl; [by destruct (inv_left _ I _ _ Hj Hl)|]. by destruct (inv_held _ I _ _ Hj Hl).
Qed.
(** Nobody observes a connection without a generation. *)
Lemma no_client_obs id c c' : same_but id c c' → inv c → c_clients c !! id = None → current_obs c → current_obs c'.
Proof.
  intros F I Hn Ho j q g. rewrite (sb_jobs _ _ _ F), (sb_slots _ _ _ F). intros Hj Hd Hg Hs. destruct (decide (aq_id q = id)) as [Hq|Hq].
  - rewrite <- Hq in Hn. by rewrite (unfinished_held _ _ _ I Hj Hd) in Hn.
  - rewrite (sb_other _ _ _ F) by done. by eapply Ho.
Qed.
(** Detached together with the generation it had. *)
Lemma stopped_obs id n c c' : same_but id c c' → inv c → c_clients c !! id = Some n → current_obs c → current_obs (on_slot n set_stopping c').
Proof.
  intros F I Hn Ho j q g. rewrite on_slot_lookup. change (c_jobs (on_slot n set_stopping c')) with (c_jobs c').
  change (state_of (aq_id q) (on_slot n set_stopping c')) with (state_of (aq_id q) c').
  rewrite (sb_jobs _ _ _ F), (sb_slots _ _ _ F). intros Hj Hd Hg Hs. case_decide as Hk.
  { destruct (c_slots c !! aq_slot q); [by injection Hg as <-|done]. }
  destruct (decide (aq_id q = id)) as [Hq|Hq].
  - apply (unfinished_held _ _ _ I Hj) in Hd. congruence.
  - rewrite (sb_other _ _ _ F) by done. by eapply Ho.
Qed.
Lemma publish_obs id next r c : current_obs c → current_obs (metadataPublishLocked id next r c).
Proof. apply (current_obs_change id); [apply publish_same_but|]. by destruct (publish_state id next r c) as (_ & ? & _). Qed.
Lemma more_stopping_obs n f c : (∀ g, gn_stopping (f g) = false → gn_stopping g = false) → current_obs c → current_obs (on_slot n f c).
Proof.
  intros Hf Ho j q g. rewrite on_slot_lookup. intros Hj Hd Hg Hs. change (state_of (aq_id q) (on_slot n f c)) with (state_of (aq_id q) c).
  case_decide; [|by eapply Ho]. destruct (c_slots c !! aq_slot q) as [g0|] eqn:E; [|done]. injection Hg as <-. eapply Ho; eauto.
Qed.
Lemma detach_obs id n next r c : inv c → c_clients c !! id = Some n → current_obs c →
  current_obs (on_slot n set_stopping (metadataPublishLocked id next r (put_state id (detach (state_of id c)) c))).
Proof. intros I Hn Ho. apply (stopped_obs id n c); [|done..]. eapply same_but_trans; [apply put_same_but|apply publish_same_but]. Qed.
Lemma detached_slot id next r c : st_slot (state_of id (metadataPublishLocked id next r (put_state id (detach (state_of id c)) c))) = None.
Proof. destruct (publish_state id next r (put_state id (detach (state_of id c)) c)) as (_ & -> & _). by rewrite state_of_put_eq. Qed.
Lemma set_stopping_inv n c : inv c → (∀ id, st_slot (state_of id c) ≠ Some n) → inv (on_slot n set_stopping c).
Proof. intros I Hn. apply on_slot_inv; [done|done|by right|by left]. Qed.
Lemma slot_client c id n : inv c → st_slot (state_of id c) = Some n → c_clients c !! id = Some n.
Proof. intros I Hs. by destruct (si_slot _ _ _ (inv_state _ I id) n Hs). Qed.
Lemma client_id c id n g : inv c → c_clients c !! id = Some n → c_slots c !! n = Some g → gn_id g = id.
Proof. intros I Hc Hg. destruct (inv_clients _ I _ _ Hc) as (g' & Hg' & E). congruence. Qed.

Lemma stop_detaches n c id : inv c → st_slot (state_of id (metadataStopLocked n c)) ≠ Some n.
Proof.
  intros I. unfold metadataStopLocked.
  assert (∀ id, st_slot (state_of id c) = Some n → ∃ g, c_slots c !! n = Some g ∧ gn_id g = id) as Hslot.
  { intros id' Hs. pose proof (slot_client _ _ _ I Hs) as Hc. by apply (inv_clients _ I). }
  destruct (c_slots c !! n) as [g|] eqn:En; [|intros Hs; destruct (Hslot _ Hs) as (? & ? & _); congruence].
  destruct (decide (id = gn_id g)) as [->|Hid].
  - destruct (c_states c !! gn_id g) as [m|] eqn:Em; [|unfold state_of; by rewrite Em]. case_bool_decide as Hs.
    + apply state_of_default in Em. subst m. by rewrite detached_slot.
    + apply state_of_default in Em. by subst m.
  - assert (st_slot (state_of id c) ≠ Some n) as Hno by (intros Hs; destruct (Hslot _ Hs) as (? & ? & ?); congruence).
    destruct (c_states c !! gn_id g) as [m|]; [|done]. case_bool_decide; [|done].
    rewrite (sb_other _ _ _ (publish_same_but _ _ _ _)), (sb_other _ _ _ (put_same_but _ _ _)) by done. done.
Qed.
Lemma stop_slot_good n c : good c → good (stop_slot n c).
Proof.
  intros [I Ho]. split; [apply set_stopping_inv; [by apply stop_inv|intros id; by apply stop_detaches]|].
  unfold stop_slot, metadataStopLocked. destruct (c_slots c !! n) as [g|] eqn:En; [|by apply more_stopping_obs].
  destruct (c_states c !! gn_id g) as [m|] eqn:Em; [|by apply more_stopping_obs]. case_bool_decide as Hs; [|by apply more_stopping_obs].
  apply state_of_default in Em. subst m. apply detach_obs; [done|by apply slot_client|done].
Qed.
Lemma stage_one_good c id : good c → good (stage_one c id).
Proof.
  intros [I Ho]. unfold stage_one. case_bool_decide as Hin.
  - set (d := put_state id (detach (state_of id c)) c). set (next := empty_snapshot id _). set (e := metadataPublishLocked id next false d).
    assert (inv e) as Ie by (apply detached_publish; [done|apply empty_agrees|done]).
    assert (c_clients e = c_clients c) as Ee by apply (sb_clients _ _ _ (publish_same_but id next false d)). rewrite Ee.
    destruct (c_clients c !! id) as [n|] eqn:Hn.
    + split; [|by apply detach_obs]. apply set_stopping_inv; [done|]. intros id' Hs. pose proof (slot_client _ _ _ Ie Hs) as Hc.
      rewrite Ee in Hc.
      destruct (inv_clients _ I _ _ Hn) as (g & Hg & Hid). pose proof (client_id _ _ _ _ I Hc Hg) as Hid'. subst id'. rewrite Hid in Hs.
      unfold e, d in Hs. by rewrite detached_slot in Hs.
    + split; [done|]. apply (no_client_obs id c); [|done..]. eapply same_but_trans; [apply put_same_but|apply publish_same_but].
  - destruct (c_clients c !! id) as [n|] eqn:Hn; [|done]. split; [|by apply more_stopping_obs]. apply set_stopping_inv; [done|].
    intros id' Hs. destruct (inv_clients _ I _ _ Hn) as (g & Hg & Hid). pose proof (slot_client _ _ _ I Hs) as Hc.
    pose proof (client_id _ _ _ _ I Hc Hg). subst id'. destruct (si_slot _ _ _ (inv_state _ I _) _ Hs) as (_ & g' & Hg' & Hst & _).
    apply Hin. rewrite <- Hid. by apply (inv_live _ I _ _ g' Hc).
Qed.
Lemma forget_good c id : c_clients c !! id = None → good c → good (forget c id).
Proof.
  intros Hn [I Ho]. split; [by apply forget_inv|]. apply (no_client_obs id c); [|done..].
  eapply same_but_trans; [apply put_same_but|apply publish_same_but].
Qed.
Lemma acquire_good id n c : st_slot (state_of id c) = Some n → good c → good (metadataAcquireLocked id n c).
Proof.
  intros Hs [I Ho]. split; [by apply acquire_inv|]. unfold metadataAcquireLocked. destruct (st_running (state_of id c)) eqn:Hr; [done|].
  set (new := mkAcquisition id n None false). set (d := with_jobs _ _). set (next := with_Refreshing true (st_snapshot (state_of id d))).
  apply more_stopping_obs; [done|]. apply publish_obs.
  assert (∀ id', st_slot (state_of id' d) = st_slot (state_of id' c)) as Hd.
  { intros id'. transitivity (st_slot (state_of id' (put_state id (set_running (Some (length (c_jobs c))) (state_of id c)) c))); [done|].
    rewrite state_of_put. by case_decide; [subst|]. }
  intros j q g Hj Hdone Hg Hst. rewrite Hd. change (c_jobs d) with (c_jobs c ++ [new]) in Hj. change (c_slots d) with (c_slots c) in Hg.
  apply lookup_app_Some in Hj as [Hj|[_ Hj]]; [by eapply Ho|]. by apply list_lookup_singleton_Some in Hj as [_ <-].
Qed.
Lemma empty_publish_good id r c : st_slot (state_of id c) = None → good c →
  good (metadataPublishLocked id (empty_snapshot id (ms_Revision (st_snapshot (state_of id c)))) r c).
Proof. intros Hn [I Ho]. split; [by apply empty_publish_inv|by apply publish_obs]. Qed.
Lemma put_state_good id c m : st_snapshot m = st_snapshot (state_of id c) → st_slot m = st_slot (state_of id c) →
  st_running m = st_running (state_of id c) → st_removed m = st_removed (state_of id c) → good c → good (put_state id m c).
Proof.
  intros E1 E2 E3 E4 [I Ho]. split; [by apply put_state_inv|]. apply (current_obs_change id c); [apply put_same_but|by rewrite state_of_put_eq|done].
Qed.
Lemma read_good c id : good c → good (read_metadata c id).
Proof.
  intros G. unfold read_metadata. destruct (_ =? _); [|by apply put_state_good].
  destruct G as [I Ho]. split; [by apply same_publish_inv|by apply publish_obs].
Qed.
(** A connection of the next inventory has no generation unless it was in the previous one. *)
Lemma welcome_good c id : good c → good (welcome (c_connections c) c id).
Proof.
  intros G. unfold welcome. destruct (_ || _) eqn:E; [|by apply put_state_good]. apply empty_publish_good; [|done]. destruct G as [I _].
  apply orb_true_iff in E as [Hn%negb_true_iff%bool_decide_eq_false|Hr]; [|by eapply si_removed; [apply I|]].
  destruct (st_slot (state_of id c)) as [n|] eqn:Hs; [|done]. destruct (si_slot _ _ _ (inv_state _ I id) _ Hs) as (Hc & g & Hg & Hst & _).
  by destruct (inv_live _ I _ _ _ Hc Hg Hst).
Qed.
Lemma welcome_connections prev c id : c_connections (welcome prev c id) = c_connections c.
Proof. unfold welcome. destruct (_ || _); [apply (sb_connections _ _ _ (publish_same_but _ _ _ _))|done]. Qed.
Lemma forget_frame c id : same_but id c (forget c id).
Proof. eapply same_but_trans; [apply put_same_but|apply publish_same_but]. Qed.
Lemma inventory_inv closed connections changing staged c : inv c →
  (∀ id n g, c_clients c !! id = Some n → c_slots c !! n = Some g → gn_stopping g = false → id ∈ connections ∧ (id ∉ changing) ∧ closed = false) →
  (∀ changed next, staged = Some (changed, next) →
    changed ⊆ changing ∧ connections ∖ next ⊆ changed ∧ ∀ id, id ∈ next → id_admitted id) →
  (∀ id, id ∈ connections → id_admitted id) →
  inv (with_inventory closed connections changing staged c).
Proof.
  intros I Hl Hs Hi. split; [|apply I|done|apply I..|done|apply I|done]. intros id. destruct (inv_state _ I id) as [K1 K2 K3 K4 K5 K6]. by split.
Qed.
Lemma commit_good ok changed next gone ids c : c_staged c = Some (changed, next) → (∀ id, id ∈ changed → c_clients c !! id = None) →
  gone ≡ₚ elements (c_connections c ∖ next) → ids ≡ₚ elements next → good c → good (commit_inventory ok changed gone ids c).
Proof.
  intros Est Hno Hgone Hids G. pose proof (inv_staged _ (proj1 G) _ _ Est) as (Hch & Hsub & Hadm). unfold commit_inventory.
  assert (∀ d cn, good d → (∀ id n g, c_clients d !! id = Some n → c_slots d !! n = Some g → gn_stopping g = false → id ∈ cn) →
    (∀ id, id ∈ cn → id_admitted id) → good (with_inventory (c_closed d) cn (c_changing d ∖ changed) None d)) as Hset.
  { intros d cn [I Ho] Hcn Hi. split; [|done]. apply inventory_inv; [done| |done|done]. intros id n g Hc Hg Hs.
    destruct (inv_live _ I id n g Hc Hg Hs) as (? & ? & ?). split; [by eapply Hcn|]. split; [set_solver|done]. }
  destruct (ok && _); [|apply Hset; [done|intros id n g Hc Hg Hs; by destruct (inv_live _ (proj1 G) id n g Hc Hg Hs)|apply G]].
  set (P d := good d ∧ c_connections d = c_connections c ∧ c_clients d = c_clients c ∧ c_slots d = c_slots c ∧ c_changing d = c_changing c).
  assert (P (metadataInventoryLocked (c_connections c) gone ids c)) as (Gd & Ecn & Ecl & Esl & Ech).
  { unfold metadataInventoryLocked. apply (foldl_inv _ P).
    - intros d id _ (Gd & E1 & E2 & E3 & E4). unfold P. rewrite <- E1 at 1. split; [by apply welcome_good|].
      rewrite welcome_connections. split; [done|]. unfold welcome. destruct (_ || _); [|done].
      destruct (publish_same_but id (empty_snapshot id (ms_Revision (st_snapshot (state_of id d)))) false d) as [_ _ -> _ -> -> _ _]. done.
    - apply (foldl_inv _ P); [|done]. intros d id Hin (Gd & E1 & E2 & E3 & E4). destruct (forget_frame d id) as [_ F2 F3 _ F5 F6 _ _].
      unfold P. rewrite F2, F3, F5, F6. split; [|done]. apply forget_good; [|done]. rewrite E2. apply Hno.
      rewrite Hgone in Hin. apply elem_of_elements in Hin. set_solver. }
  apply Hset; [done| |intros id Hin; apply Hadm; apply elem_of_list_to_set in Hin; rewrite Hids in Hin; by apply elem_of_elements in Hin].
  intros id n g. rewrite Ecl, Esl. intros Hc Hg Hs. destruct (inv_live _ (proj1 G) id n g Hc Hg Hs) as (Hin & Hnc & _).
  apply elem_of_list_to_set. rewrite Hids. apply elem_of_elements. set_solver.
Qed.

(** *** Inventory and Close *)

Lemma inventory_good closed connections changing staged c : good c →
  (∀ id n g, c_clients c !! id = Some n → c_slots c !! n = Some g → gn_stopping g = false → id ∈ connections ∧ (id ∉ changing) ∧ closed = false) →
  (∀ changed next, staged = Some (changed, next) →
    changed ⊆ changing ∧ connections ∖ next ⊆ changed ∧ ∀ id, id ∈ next → id_admitted id) →
  (∀ id, id ∈ connections → id_admitted id) →
  good (with_inventory closed connections changing staged c).
Proof. intros [I Ho] Hl Hs Hi. split; [by apply inventory_inv|done]. Qed.

(** Sections that do not look at the flags they are under. *)
Lemma publish_inventory id next r a b d c :
  metadataPublishLocked id next r (with_inventory a (c_connections c) b d c) = with_inventory a (c_connections c) b d (metadataPublishLocked id next r c).
Proof.
  unfold metadataPublishLocked. change (state_of id (with_inventory a (c_connections c) b d c)) with (state_of id c). by destruct (_ && _).
Qed.
Lemma publish_connections id next r c : c_connections (metadataPublishLocked id next r c) = c_connections c.
Proof. apply (sb_connections _ _ _ (publish_same_but _ _ _ _)). Qed.
Lemma publish_clients id next r c : c_clients (metadataPublishLocked id next r c) = c_clients c.
Proof. apply (sb_clients _ _ _ (publish_same_but _ _ _ _)). Qed.
Lemma publish_slots id next r c : c_slots (metadataPublishLocked id next r c) = c_slots c.
Proof. apply (sb_slots _ _ _ (publish_same_but _ _ _ _)). Qed.
Lemma stage_one_connections c id : c_connections (stage_one c id) = c_connections c.
Proof. unfold stage_one. case_bool_decide; destruct (c_clients _ !! id); cbn -[metadataPublishLocked]; by rewrite ?publish_connections. Qed.
Lemma stage_one_inventory a b d c id :
  stage_one (with_inventory a (c_connections c) b d c) id = with_inventory a (c_connections c) b d (stage_one c id).
Proof.
  unfold stage_one. change (c_connections (with_inventory a (c_connections c) b d c)) with (c_connections c).
  change (state_of id (with_inventory a (c_connections c) b d c)) with (state_of id c).
  case_bool_decide; [|by cbn [c_clients with_inventory]; destruct (c_clients c !! id)].
  set (e := put_state id (detach (state_of id c)) c).
  change (put_state id (detach (state_of id c)) (with_inventory a (c_connections c) b d c)) with (with_inventory a (c_connections e) b d e).
  change (state_of id (with_inventory a (c_connections e) b d e)) with (state_of id e). rewrite publish_inventory.
  cbn [c_clients with_inventory]. by destruct (c_clients _ !! id).
Qed.
Lemma stage_all_inventory a b d l c :
  foldl stage_one (with_inventory a (c_connections c) b d c) l = with_inventory a (c_connections c) b d (foldl stage_one c l).
Proof.
  revert c. induction l as [|id l IH]; intros c; [done|]. cbn [foldl].
  rewrite stage_one_inventory, <- (stage_one_connections c id). apply IH.
Qed.
Lemma stop_connections n c : c_connections (stop_slot n c) = c_connections c.
Proof. unfold stop_slot, metadataStopLocked. cbn -[metadataPublishLocked]. repeat case_match; by rewrite ?publish_connections. Qed.
Lemma stop_clients n c : c_clients (stop_slot n c) = c_clients c.
Proof. unfold stop_slot, metadataStopLocked. cbn -[metadataPublishLocked]. repeat case_match; by rewrite ?publish_clients. Qed.
Lemma stop_inventory a b d n c : stop_slot n (with_inventory a (c_connections c) b d c) = with_inventory a (c_connections c) b d (stop_slot n c).
Proof.
  unfold stop_slot, metadataStopLocked. cbn [c_slots with_inventory c_states]. destruct (c_slots c !! n) as [g|]; [|done].
  destruct (c_states c !! gn_id g) as [m|]; [|done]. case_bool_decide; [|done].
  set (e := put_state (gn_id g) (detach m) c).
  change (put_state (gn_id g) (detach m) (with_inventory a (c_connections c) b d c)) with (with_inventory a (c_connections e) b d e).
  by rewrite publish_inventory.
Qed.
Lemma stop_all_inventory a b d l c : foldl (λ c n, stop_slot n c) (with_inventory a (c_connections c) b d c) l
  = with_inventory a (c_connections c) b d (foldl (λ c n, stop_slot n c) c l).
Proof.
  revert c. induction l as [|n l IH]; intros c; [done|]. cbn [foldl]. rewrite stop_inventory, <- (stop_connections n c). apply IH.
Qed.

(** Which generations a section stops. *)
Definition stops (P : nat → Prop) (c c' : coordinator) : Prop :=
  c_clients c' = c_clients c ∧ c_connections c' = c_connections c
  ∧ ∀ n g', c_slots c' !! n = Some g' → gn_stopping g' = false → ¬ P n ∧ ∃ g, c_slots c !! n = Some g ∧ gn_stopping g = false ∧ gn_id g = gn_id g'.
Lemma stops_trans P Q a b c : stops P a b → stops Q b c → stops (λ n, P n ∨ Q n) a c.
Proof.
  intros (A1 & A2 & A3) (B1 & B2 & B3). split; [congruence|]. split; [congruence|]. intros n g Hg Hs.
  destruct (B3 n g Hg Hs) as (Hq & g1 & Hg1 & Hs1 & E1). destruct (A3 n g1 Hg1 Hs1) as (Hp & g0 & Hg0 & Hs0 & E0).
  split; [tauto|]. exists g0. split_and!; congruence.
Qed.
Lemma stops_impl (P Q : nat → Prop) a b : (∀ n, Q n → P n) → stops P a b → stops Q a b.
Proof. intros Hpq (A1 & A2 & A3). split_and!; [done..|]. intros n g Hg Hs. destruct (A3 n g Hg Hs) as [? ?]. split; [auto|done]. Qed.
Lemma stops_foldl {A} (f : coordinator → A → coordinator) (P : A → nat → Prop) l c :
  (∀ c' a, c_clients c' = c_clients c → stops (P a) c' (f c' a)) → stops (λ n, ∃ a, a ∈ l ∧ P a n) c (foldl f c l).
Proof.
  intros Hf. assert (∀ d, c_clients d = c_clients c → stops (λ n, ∃ a, a ∈ l ∧ P a n) d (foldl f d l)) as Hd; [|by apply Hd].
  induction l as [|a l IH]; intros d Ed; cbn.
  - split_and!; [done..|]. intros n g Hg Hs. split; [by intros (? & ?%not_elem_of_nil & _)|by exists g].
  - pose proof (Hf d a Ed) as F. eapply stops_impl; [|eapply stops_trans; [exact F|apply IH; destruct F as [-> _]; done]].
    intros n (a' & [->|Ha]%elem_of_cons & Hp); [by left|]. right. by exists a'.
Qed.
Lemma set_stopping_stops n c c' : c_clients c' = c_clients c → c_connections c' = c_connections c → c_slots c' = c_slots c →
  stops (λ k, k = n) c (on_slot n set_stopping c').
Proof.
  intros E1 E2 E3. split_and!; [done..|]. intros k g. rewrite on_slot_lookup, E3. case_decide as Hk.
  - destruct (c_slots c !! k); [by intros [= <-]|done].
  - intros Hg Hs. split; [done|by exists g].
Qed.
Lemma stop_slot_stops n c : stops (λ k, k = n) c (stop_slot n c).
Proof.
  unfold stop_slot. destruct (c_slots c !! n) as [g|] eqn:En.
  - apply set_stopping_stops; unfold metadataStopLocked; rewrite En; repeat case_match; by rewrite ?publish_clients, ?publish_connections, ?publish_slots.
  - unfold metadataStopLocked. rewrite En. by apply set_stopping_stops.
Qed.
Lemma stage_one_stops c id : stops (λ n, c_clients c !! id = Some n) c (stage_one c id).
Proof.
  unfold stage_one. set (d := if bool_decide _ then _ else _).
  assert (c_clients d = c_clients c ∧ c_connections d = c_connections c ∧ c_slots d = c_slots c) as (E1 & E2 & E3).
  { unfold d. case_bool_decide; [|done]. by rewrite publish_clients, publish_connections, publish_slots. }
  rewrite E1. destruct (c_clients c !! id) as [n|].
  - eapply stops_impl; [|by apply set_stopping_stops]. by intros k [= <-].
  - split_and!; [done..|]. intros n g. rewrite E3. intros Hg Hs. split; [done|by exists g].
Qed.
Lemma stage_good changed next c : c_staged c = None → (∀ id, id ∈ next → id_admitted id) →
  (c_connections c ∖ next) ∪ (next ∖ c_connections c) ⊆ list_to_set changed →
  good c → good (stageInventory changed next c).
Proof.
  intros Est Hadm Hsub G. unfold stageInventory. rewrite stage_all_inventory.
  pose proof (stops_foldl stage_one (λ id n, c_clients c !! id = Some n) changed c) as (F1 & F2 & F3).
  { intros c' id E. rewrite <- E. apply stage_one_stops. }
  assert (good (foldl stage_one c changed)) as G' by (apply (foldl_inv _ good); [by intros d id _; apply stage_one_good|done]).
  apply inventory_good; [done| | |].
  - intros id n g Hc Hg Hs. rewrite <- F2. destruct (inv_live _ (proj1 G') id n g Hc Hg Hs) as (H1 & H2 & H3).
    destruct (F3 n g Hg Hs) as (Hno & g0 & Hg0 & Hs0 & _). rewrite F1 in Hc. destruct (inv_live _ (proj1 G) id n g0 Hc Hg0 Hs0) as (_ & Hnc & Hcl).
    split_and!; [done| |done]. rewrite not_elem_of_union. split; [done|]. rewrite elem_of_list_to_set. intros Hin. apply Hno. by exists id.
  - intros changed' next' [= <- <-]. split; [set_solver|split; [set_solver|done]].
  - apply G.
Qed.
Lemma close_good slots c : slots ≡ₚ (map_to_list (c_clients c)).*2 → good c → good (Close slots c).
Proof.
  intros Hp G. unfold Close. rewrite stop_all_inventory.
  pose proof (stops_foldl (λ c n, stop_slot n c) (λ n k, k = n) slots c) as (F1 & F2 & F3); [by intros; apply stop_slot_stops|].
  assert (good (foldl (λ c n, stop_slot n c) c slots)) as G' by (apply (foldl_inv _ good); [by intros d n _; apply stop_slot_good|done]).
  apply inventory_good; [done| |apply G|apply G].
  intros id n g Hc Hg Hs. exfalso. destruct (F3 n g Hg Hs) as (Hno & _). apply Hno. exists n. split; [|done].
  rewrite Hp. apply list_elem_of_fmap. exists (id, n). split; [done|]. apply elem_of_map_to_list. by rewrite <- F1.
Qed.

(** *** Admission and the end of an observation *)

Lemma no_running_obs id c c' : same_but id c c' → inv c → st_running (state_of id c) = None → current_obs c → current_obs c'.
Proof.
  intros F I Hr Ho j q g. rewrite (sb_jobs _ _ _ F), (sb_slots _ _ _ F). intros Hj Hd Hg Hs. destruct (decide (aq_id q = id)) as [Hq|Hq].
  - assert (st_running (state_of id c) = Some j) by (apply (inv_state _ I id); by exists q). congruence.
  - rewrite (sb_other _ _ _ F) by done. by eapply Ho.
Qed.
Lemma admit_good n c : good c → good (metadataAdmitLocked n c).
Proof.
  intros G. pose proof G as [I Ho]. unfold metadataAdmitLocked. destruct (c_slots c !! n) as [g|] eqn:En; [|done].
  destruct (negb (live n c) || _) eqn:E; [done|]. apply orb_false_iff in E as [E Hs%bool_decide_eq_false].
  apply negb_false_iff in E. unfold live in E. rewrite En in E. apply andb_true_iff in E as [E Hc%bool_decide_eq_true].
  apply negb_true_iff, orb_false_iff in E as [[Hst _]%orb_false_iff _].
  set (id := gn_id g) in *.
  assert (st_running (state_of id c) = None) as Hr.
  { destruct (st_running (state_of id c)) as [j|] eqn:Hr; [|done]. apply (inv_state _ I id) in Hr as (q & Hj & Hq & Hd).
    pose proof (unfinished_held _ _ _ I Hj Hd) as Hc'. rewrite Hq, Hc in Hc'. injection Hc' as ->.
    pose proof (Ho j q g Hj Hd En Hst) as Hsl. rewrite Hq in Hsl. done. }
  set (d := put_state id (set_slot (Some n) (state_of id c)) c).
  set (next := mkSnapshot id (gn_text g) _ true false None (Some ∅)).
  pose proof (publish_state id next false d) as ([S1 S2 S3 S4 S5] & E1 & E2 & E3 & E4).
  assert (state_of id d = set_slot (Some n) (state_of id c)) as Ed by apply state_of_put_eq. rewrite Ed in E1, E2. cbn in E1, E2.
  assert (same_but id c (metadataPublishLocked id next false d)) as F by (eapply same_but_trans; [apply put_same_but|apply publish_same_but]).
  apply acquire_good; [done|]. split; [|by apply (no_running_obs id c)].
  apply (inv_state_change id c); [done|done|]. split.
  - done.
  - intros k. rewrite E1. intros [= <-]. unfold live_slot. rewrite (sb_clients _ _ _ F), (sb_slots _ _ _ F). split; [done|].
    exists g. by rewrite S2.
  - by rewrite S3, E1.
  - by rewrite S4, E1, E2, Hr.
  - by rewrite E4.
  - intros j. rewrite E2, (sb_jobs _ _ _ F). apply I.
Qed.

(** An observation ends: its connection may have lost its generation. *)
Lemma finish_good id j q e c c' : good c → same_but id c c' → c_jobs c !! j = Some q → unfinished id q →
  let m := state_of id c' in
  ms_ConnectionID (st_snapshot m) = id → st_running m = None → ms_Active (st_snapshot m) = is_some (st_slot m) →
  ms_Refreshing (st_snapshot m) = false → (st_removed m = true → st_slot m = None) →
  (st_slot m = None ∨ st_slot m = st_slot (state_of id c) ∧ ms_Generation (st_snapshot m) = ms_Generation (st_snapshot (state_of id c))) →
  good (finish_job j e c').
Proof.
  cbn zeta. intros [I Ho] F Hj [Hq Hd] M1 M2 M3 M4 M5 M6. set (f := λ q, mkAcquisition (aq_id q) (aq_slot q) (Some e) (aq_left q)).
  pose proof F as [F1 F2 F3 F4 F5 F6 F7 Fo].
  assert (Hjobs : ∀ i q', c_jobs (finish_job j e c') !! i = Some q' → ∃ q0, c_jobs c !! i = Some q0 ∧ (i ≠ j ∧ q' = q0 ∨ i = j ∧ q' = f q0)).
  { intros i q'. unfold finish_job. cbn. rewrite F7. destruct (decide (i = j)) as [->|Hne].
    - rewrite list_lookup_alter_eq. destruct (c_jobs c !! j) as [q0|]; [|done]. intros [= <-]. exists q0. split; [done|by right].
    - rewrite list_lookup_alter_ne by done. intros Hi. exists q'. split; [done|by left]. }
  assert (Hother : ∀ i q', c_jobs c !! i = Some q' → i ≠ j → c_jobs (finish_job j e c') !! i = Some q').
  { intros i q' Hi Hne. unfold finish_job. cbn. by rewrite F7, list_lookup_alter_ne by done. }
  assert (Huniq : ∀ i q', c_jobs c !! i = Some q' → unfinished id q' → i = j).
  { intros i q' Hi Hu. assert (st_running (state_of id c) = Some i) as E1 by (apply (inv_state _ I id); by exists q').
    assert (st_running (state_of id c) = Some j) as E2 by (apply (inv_state _ I id); by exists q). congruence. }
  split; [split|].
  - intros id'. change (state_of id' (finish_job j e c')) with (state_of id' c'). destruct (decide (id' = id)) as [->|Hid].
    + split; [done| |done|rewrite M4, M2; by rewrite andb_false_r|done|].
      * intros n Hs. destruct M6 as [?|[E1 E2]]; [congruence|]. rewrite Hs in E1. symmetry in E1.
        destruct (si_slot _ _ _ (inv_state _ I id) n E1) as (Hc & g & Hg & Hst & Ht). split; [cbn; by rewrite F5|]. exists g. cbn. rewrite F6, E2. done.
      * intros i. rewrite M2. split; [done|]. intros (q' & Hi & Hu). apply Hjobs in Hi as (q0 & Hi & [[Hne ->]|[-> ->]]).
        { by destruct (Hne (Huniq _ _ Hi Hu)). } by destruct Hu.
    + rewrite (Fo _ Hid). destruct (inv_state _ I id') as [K1 K2 K3 K4 K5 K6]. split; try done.
      * intros n Hs. destruct (K2 n Hs) as (Hc & g & Hg & Hst & Ht). split; [cbn; by rewrite F5|]. exists g. cbn. by rewrite F6.
      * intros i. rewrite K6. split; intros (q' & Hi & Hu).
        { exists q'. split; [|done]. apply Hother; [done|]. intros ->. rewrite Hj in Hi. injection Hi as <-. destruct Hu. congruence. }
        apply Hjobs in Hi as (q0 & Hi & [[Hne ->]|[-> ->]]); [by exists q0|]. by destruct Hu.
  - cbn. rewrite F5, F6. apply I.
  - cbn. rewrite F1, F2, F3, F5, F6. apply I.
  - intros i q' Hi Hl. cbn. rewrite F5, F6. apply Hjobs in Hi as (q0 & Hi & [[_ ->]|[-> ->]]); by apply (inv_held _ I _ _ Hi).
  - intros i q' Hi Hl. apply Hjobs in Hi as (q0 & Hi & [[_ ->]|[-> ->]]); [by eapply I|done].
  - intros n g. change (c_jobs (finish_job j e c')) with (alter f j (c_jobs c')). change (c_slots (finish_job j e c')) with (c_slots c').
    rewrite F6, F7, observers_same by done. apply I.
  - cbn. rewrite F6. apply I.
  - cbn. rewrite F2, F3, F4. apply I.
  - cbn. rewrite F6. apply I.
  - cbn. rewrite F2. apply I.
  - intros i q' g Hi Hdone. cbn. rewrite F6. intros Hg Hst. apply Hjobs in Hi as (q0 & Hi & [[Hne ->]|[-> ->]]); [|done].
    change (state_of (aq_id q0) (finish_job j e c')) with (state_of (aq_id q0) c'). destruct (decide (aq_id q0 = id)) as [Hid|Hid].
    + by destruct (Hne (Huniq _ _ Hi (conj Hid Hdone))).
    + rewrite (Fo _ Hid). by eapply Ho.
Qed.
Lemma observed_agrees answer s : agrees (observed answer s) (with_Error (ms_LastRefreshError (observed answer s)) (with_Refreshing false s)).
Proof. unfold observed, fail_refresh, apply_update. destruct answer; [|by split]. by destruct (validateMetadataSnapshotAdmission _ _). Qed.
Lemma finish_stop n j e c : metadataStopLocked n (finish_job j e c) = finish_job j e (metadataStopLocked n c).
Proof.
  unfold metadataStopLocked. cbn [c_slots c_states finish_job with_jobs]. destruct (c_slots c !! n); [|done].
  destruct (c_states c !! gn_id _); [|done]. case_bool_decide; [|done]. unfold metadataPublishLocked.
  change (state_of ?i (put_state ?i ?m (finish_job j e c))) with (state_of i (put_state i m c)). by destruct (_ && _).
Qed.
(** The two ways an observation ends: its generation is gone, or its answer is
    published. No other generation can have joined before it ended. *)
Lemma observe_cases j q answer c : c_jobs c !! j = Some q → aq_done q = None → good c →
  let id := aq_id q in let n := aq_slot q in let d := put_state id (set_running None (state_of id c)) c in
  (∃ e, (e = metadataStopLocked n d ∧ st_slot (state_of id c) = Some n ∨ e = d) ∧ metadataObserve j q answer c = finish_job j (Some retired) e
    ∧ same_but id c e ∧ st_slot (state_of id e) = None ∧ st_running (state_of id e) = None
    ∧ ms_ConnectionID (st_snapshot (state_of id e)) = id ∧ ms_Active (st_snapshot (state_of id e)) = false
    ∧ ms_Refreshing (st_snapshot (state_of id e)) = false)
  ∨ st_slot (state_of id c) = Some n
    ∧ let e := finish_job j None (metadataPublishLocked id (observed answer (st_snapshot (state_of id c))) false d) in
      metadataObserve j q answer c
      = if st_pending (state_of id e) then metadataAcquireLocked id n (put_state id (set_pending false (state_of id e)) e) else e.
Proof.
  intros Hj Hd G id n d. pose proof G as [I Ho]. unfold metadataObserve. fold id n.
  assert (st_running (state_of id c) = Some j) as Hr by (apply (inv_state _ I id); by exists q).
  rewrite bool_decide_true by done. cbn [negb]. fold d.
  assert (state_of id d = set_running None (state_of id c)) as Ed by apply state_of_put_eq.
  pose proof (put_same_but id (set_running None (state_of id c)) c) as Fd. fold d in Fd.
  destruct (inv_state _ I id) as [K1 K2 K3 K4 K5 K6].
  pose proof (unfinished_held _ _ _ I Hj Hd) as Hc. change (aq_id q) with id in Hc. fold n in Hc.
  destruct (negb (bool_decide (st_slot (state_of id d) = Some n)) || negb (live n d)) eqn:Eretire.
  - left. set (e := if _ && _ then metadataStopLocked n d else d).
    assert ((e = metadataStopLocked n d ∧ st_slot (state_of id c) = Some n ∨ e = d) ∧ same_but id c e ∧ st_slot (state_of id e) = None ∧ st_running (state_of id e) = None
      ∧ ms_ConnectionID (st_snapshot (state_of id e)) = id ∧ ms_Active (st_snapshot (state_of id e)) = false
      ∧ ms_Refreshing (st_snapshot (state_of id e)) = false) as (He & Fe & Es & Er & E1 & E2 & E3).
    { unfold e. rewrite Ed in *. cbn [st_slot set_running] in *. case_bool_decide as Hs; cbn [andb negb orb] in *.
      - destruct (K2 n Hs) as (_ & g & Hg & Hst & _). pose proof (client_id _ _ _ _ I Hc Hg) as Hgid.
        destruct (inv_live _ I _ _ _ Hc Hg Hst) as (_ & _ & Hcl). unfold live in Eretire. change (c_slots d) with (c_slots c) in *. rewrite Hg in *.
        change (c_closed d) with (c_closed c) in Eretire. change (c_clients d) with (c_clients c) in Eretire.
        rewrite Hst, Hcl, Hgid, (bool_decide_true _ Hc), andb_true_r, orb_false_r, negb_involutive in Eretire. cbn [orb] in Eretire. rewrite Eretire.
        unfold metadataStopLocked. change (c_slots d) with (c_slots c). rewrite Hg, Hgid.
        assert (c_states d !! id = Some (set_running None (state_of id c))) as -> by apply lookup_insert_eq.
        rewrite bool_decide_true by done. set (next := with_Entries _ _).
        pose proof (publish_state id next false (put_state id (detach (set_running None (state_of id c))) d)) as ([S1 _ S3 S4 _] & P1 & P2 & _).
        rewrite P1, P2, S1, S3, S4, state_of_put_eq. split_and!; try done; [by left|].
        eapply same_but_trans; [exact Fd|]. eapply same_but_trans; [apply put_same_but|apply publish_same_but].
      - assert (st_slot (state_of id c) = None) as Hnone.
        { destruct (st_slot (state_of id c)) as [n'|] eqn:E; [|done]. pose proof (slot_client _ _ _ I E). congruence. }
        rewrite Ed. cbn. rewrite K3, K4, Hnone. split_and!; try done. by right. }
    exists e. split; [done|]. change (state_of id (finish_job j (Some retired) e)) with (state_of id e). rewrite Es. by split_and!.
  - right. apply orb_false_iff in Eretire as [Hs%negb_false_iff%bool_decide_eq_true _]. rewrite Ed in *. by split.
Qed.
Lemma observe_good j q answer c : c_jobs c !! j = Some q → aq_done q = None → good c → good (metadataObserve j q answer c).
Proof.
  intros Hj Hd G. pose proof G as [I Ho]. destruct (observe_cases j q answer c Hj Hd G) as [(e & _ & -> & Fe & Es & Er & E1 & E2 & E3)|[Hs ->]].
  - apply (finish_good (aq_id q) j q _ c); try done; [by rewrite E2, Es|by left].
  - set (id := aq_id q) in *. set (n := aq_slot q) in *. set (d := put_state id (set_running None (state_of id c)) c).
    assert (state_of id d = set_running None (state_of id c)) as Ed by apply state_of_put_eq.
    pose proof (put_same_but id (set_running None (state_of id c)) c) as Fd. fold d in Fd.
    destruct (inv_state _ I id) as [K1 K2 K3 K4 K5 K6].
    set (next := observed answer (st_snapshot (state_of id c))). set (e := metadataPublishLocked id next false d).
    pose proof (publish_state id next false d) as ([S1 S2 S3 S4 _] & P1 & P2 & _ & P4). fold e in S1, S2, S3, S4, P1, P2, P4.
    destruct (observed_agrees answer (st_snapshot (state_of id c))) as [A1 A2 A3 A4 _]. fold next in A1, A2, A3, A4.
    cbn in A1, A2, A3, A4. rewrite Ed in P1, P2. cbn in P1, P2.
    assert (good (finish_job j None e)) as Ge.
    { apply (finish_good id j q _ c); try done.
      - eapply same_but_trans; [exact Fd|apply publish_same_but].
      - congruence.
      - by rewrite S3, P1, A3.
      - by rewrite S4, A4.
      - by rewrite P4.
      - right. by rewrite P1, S2, A2. }
    destruct (st_pending _); [|done]. apply acquire_good; [|by apply put_state_good].
    rewrite state_of_put_eq. cbn. change (state_of id (finish_job j None e)) with (state_of id e). by rewrite P1.
Qed.

(** *** Steps *)

Lemma start_good id text c : c_clients c !! id = None → (id ∉ c_changing c) → id ∈ c_connections c → c_closed c = false →
  nonce_text text → good c → good (startSlotLocked id text c).
Proof.
  intros Hn Hnc Hin Hcl Htext [I Ho]. set (N := length (c_slots c)).
  assert (Hold : ∀ n g, c_slots c !! n = Some g → c_slots (startSlotLocked id text c) !! n = Some g ∧ n ≠ N).
  { intros n g Hg. split; [by apply lookup_app_l_Some|]. apply lookup_lt_Some in Hg. unfold N. lia. }
  assert (Hnew : ∀ n g, c_slots (startSlotLocked id text c) !! n = Some g → c_slots c !! n = Some g ∨ n = N ∧ g = mkGeneration id text false false 0 false).
  { intros n g Hg. apply lookup_app_Some in Hg as [?|[Hl Hg]]; [by left|right]. apply list_lookup_singleton_Some in Hg as [? <-]. split; [unfold N; lia|done]. }
  assert (Hcls : ∀ id' n, c_clients c !! id' = Some n → c_clients (startSlotLocked id text c) !! id' = Some n).
  { intros id' n Hc. unfold startSlotLocked. cbn. rewrite lookup_insert_ne; [done|congruence]. }
  split; [split|].
  - intros id'. change (state_of id' (startSlotLocked id text c)) with (state_of id' c). destruct (inv_state _ I id') as [K1 K2 K3 K4 K5 K6]. split; try done.
    intros n Hs. destruct (K2 n Hs) as (Hc & g & Hg & ?). split; [by apply Hcls|]. exists g. split; [by apply Hold|done].
  - intros id' n Hc. unfold startSlotLocked in Hc. cbn in Hc. apply lookup_insert_Some in Hc as [[<- <-]|[_ Hc]].
    + exists (mkGeneration id text false false 0 false). split; [by apply list_lookup_middle|done].
    + destruct (inv_clients _ I _ _ Hc) as (g & Hg & ?). exists g. split; [by apply Hold|done].
  - intros id' n g Hc Hg Hs. unfold startSlotLocked in Hc. cbn in Hc. apply lookup_insert_Some in Hc as [[<- <-]|[_ Hc]]; [done|].
    apply Hnew in Hg as [Hg|[-> _]]; [by eapply I|]. destruct (inv_clients _ I _ _ Hc) as (g' & Hg' & _). by destruct (Hold _ _ Hg').
  - intros j q Hj Hl. destruct (inv_held _ I _ _ Hj Hl) as (Hc & g & Hg & ?). split; [by apply Hcls|]. exists g. split; [by apply Hold|done].
  - apply I.
  - intros n g Hg. apply Hnew in Hg as [Hg|[-> ->]]; [by apply I|]. cbn [gn_users]. unfold observers.
    destruct (filter _ (c_jobs (startSlotLocked id text c))) as [|q l] eqn:E; [done|exfalso].
    assert (q ∈ q :: l) as Hq by left. rewrite <- E in Hq. apply list_elem_of_filter in Hq as [[Hs Hl] Hq].
    apply list_elem_of_lookup in Hq as [j Hj]. destruct (inv_held _ I _ _ Hj Hl) as (_ & g & Hg & _). rewrite Hs in Hg. by destruct (Hold _ _ Hg).
  - intros n g Hg Hd. apply Hnew in Hg as [Hg|[-> ->]]; [by eapply I|done].
  - apply I.
  - intros n g Hg. apply Hnew in Hg as [Hg|[-> ->]]; [by eapply I|done].
  - apply I.
  - intros j q g Hj Hd Hg Hst. apply Hnew in Hg as [Hg|[E _]]; [by eapply Ho|].
    pose proof (unfinished_held _ _ _ I Hj Hd) as Hc. destruct (inv_clients _ I _ _ Hc) as (g' & Hg' & _). rewrite E in Hg'. by destruct (Hold _ _ Hg').
Qed.
Lemma remove_good n g c : c_slots c !! n = Some g → gn_destroyed g = true → good c → good (remove_slot n g c).
Proof.
  intros Hg Hd G. pose proof G as [I Ho]. unfold remove_slot. case_bool_decide as Hc; [|done].
  pose proof (inv_destroyed _ I _ _ Hg Hd) as Hst.
  assert (Hkeep : ∀ id k, c_clients c !! id = Some k → k ≠ n → delete (gn_id g) (c_clients c) !! id = Some k).
  { intros id k Hk Hne. rewrite lookup_delete_ne; [done|]. congruence. }
  split; [split|].
  - intros id. change (state_of id (with_clients _ c)) with (state_of id c). destruct (inv_state _ I id) as [K1 K2 K3 K4 K5 K6]. split; try done.
    intros k Hk. destruct (K2 k Hk) as (Hck & g' & Hg' & Hs' & ?). split; [|by exists g']. apply Hkeep; [done|]. intros ->. congruence.
  - intros id k Hk. cbn in Hk. apply lookup_delete_Some in Hk as [_ Hk]. by apply I.
  - intros id k g' Hk. cbn in Hk. apply lookup_delete_Some in Hk as [_ Hk]. by apply I.
  - intros j q Hj Hl. destruct (inv_held _ I _ _ Hj Hl) as (Hck & g' & Hg' & Hd'). split; [|by exists g']. apply Hkeep; [done|]. intros E. rewrite E in Hg'. congruence.
  - apply I.
  - apply I.
  - apply I.
  - apply I.
  - apply I.
  - apply I.
  - apply Ho.
Qed.
Lemma leave_good j q c : c_jobs c !! j = Some q → aq_done q ≠ None → aq_left q = false →
  good c → good (on_slot (aq_slot q) (set_users pred) (with_jobs (alter leave_job j (c_jobs c)) c)).
Proof.
  intros Hj Hd Hl [I Ho]. set (c' := on_slot _ _ _).
  assert (Hjobs : ∀ i q', c_jobs c' !! i = Some q' → ∃ q0, c_jobs c !! i = Some q0 ∧ (q' = q0 ∨ i = j ∧ q' = leave_job q0)).
  { intros i q'. unfold c'. cbn. destruct (decide (i = j)) as [->|Hne].
    - rewrite list_lookup_alter_eq. destruct (c_jobs c !! j) as [q0|]; [|done]. intros [= <-]. exists q0. split; [done|by right].
    - rewrite list_lookup_alter_ne by done. intros Hi. exists q'. split; [done|by left]. }
  assert (Hslot : ∀ n g, c_slots c' !! n = Some g → ∃ g0, c_slots c !! n = Some g0 ∧ (g = g0 ∧ n ≠ aq_slot q ∨ n = aq_slot q ∧ g = set_users pred g0)).
  { intros n g. unfold c'. rewrite on_slot_lookup. cbn. case_decide; [|intros Hg; exists g; split; [done|by left]].
    destruct (c_slots c !! n) as [g0|]; [|done]. intros [= <-]. exists g0. split; [done|by right]. }
  assert (Hfwd : ∀ n g, c_slots c !! n = Some g → ∃ g', c_slots c' !! n = Some g' ∧ gn_id g' = gn_id g ∧ gn_text g' = gn_text g ∧ gn_stopping g' = gn_stopping g ∧ gn_destroyed g' = gn_destroyed g).
  { intros n g Hg. unfold c'. rewrite on_slot_lookup. change (c_slots (with_jobs _ c)) with (c_slots c). rewrite Hg. case_decide; eexists; by split_and!. }
  split; [split|].
  - intros id. change (state_of id c') with (state_of id c). destruct (inv_state _ I id) as [K1 K2 K3 K4 K5 K6]. split; try done.
    + intros n Hs. destruct (K2 n Hs) as (Hc & g & Hg & Hst & Ht). split; [done|]. destruct (Hfwd _ _ Hg) as (g' & Hg' & _ & Et & Es & _). exists g'. by rewrite Et, Es.
    + intros i. rewrite K6. split; intros (q' & Hi & Hu).
      * exists q'. split; [|done]. unfold c'. cbn. rewrite list_lookup_alter_ne; [done|]. intros <-. destruct Hu. congruence.
      * apply Hjobs in Hi as (q0 & Hi & [->|[-> ->]]); by exists q0.
  - intros id n Hc. destruct (inv_clients _ I _ _ Hc) as (g & Hg & Hid). destruct (Hfwd _ _ Hg) as (g' & Hg' & Ei & _). exists g'. by rewrite Ei.
  - intros id n g Hc Hg Hs. apply Hslot in Hg as (g0 & Hg0 & [[-> _]|[-> ->]]); by eapply I.
  - intros i q' Hi Hl'. apply Hjobs in Hi as (q0 & Hi & [->|[-> ->]]); [|done]. destruct (inv_held _ I _ _ Hi Hl') as (Hc & g & Hg & Hde). split; [done|].
    destruct (Hfwd _ _ Hg) as (g' & Hg' & _ & _ & _ & Ed). exists g'. by rewrite Ed.
  - intros i q' Hi Hl'. apply Hjobs in Hi as (q0 & Hi & [->|[-> ->]]); [by eapply I|]. cbn. congruence.
  - intros n g Hg. change (c_jobs c') with (alter leave_job j (c_jobs c)). pose proof (observers_leave n j (c_jobs c) q Hj Hl) as E.
    apply Hslot in Hg as (g0 & Hg0 & [[-> Hne]|[-> ->]]); cbn [gn_users set_users]; rewrite (inv_users _ I _ _ Hg0), E.
    + rewrite decide_False by congruence. lia.
    + rewrite decide_True by done. lia.
  - intros n g Hg. apply Hslot in Hg as (g0 & Hg0 & [[-> _]|[-> ->]]); exact (inv_destroyed _ I _ g0 Hg0).
  - apply I.
  - intros n g Hg. apply Hslot in Hg as (g0 & Hg0 & [[-> _]|[_ ->]]); exact (inv_text _ I _ g0 Hg0).
  - apply I.
  - intros i q' g Hi Hd' Hg Hs. change (state_of (aq_id q') c') with (state_of (aq_id q') c).
    apply Hjobs in Hi as (q0 & Hi & [->|[-> ->]]); [|by rewrite Hj in Hi; injection Hi as <-].
    apply Hslot in Hg as (g0 & Hg0 & [[-> _]|[_ ->]]); exact (Ho _ _ g0 Hi Hd' Hg0 Hs).
Qed.
Lemma observable_slot id c n : observable id c = Ok n → st_slot (state_of id c) = Some n.
Proof. unfold observable. destruct (st_slot _); [|done]. by intros [_ [= <-]]%bind_guard_iff. Qed.
Lemma watchers_good w c : good c → good (with_watchers w c).
Proof. intros [I Ho]. split; [|done]. split; try apply I. intros id. destruct (inv_state _ I id). by split. Qed.
Lemma step_good c c' : step c c' → good c → good c'.
Proof.
  intros Hstep G. pose proof G as [I Ho]. destruct Hstep.
  - by apply start_good.
  - by apply admit_good.
  - split; [|by apply more_stopping_obs]. apply on_slot_inv; [done|done|by left|by left].
  - by apply stop_slot_good.
  - split; [|by apply more_stopping_obs]. apply on_slot_inv; [done|done|by left|]. right. split; [cbn; congruence|congruence].
  - by apply remove_good.
  - by apply stage_good.
  - by apply (commit_good ok _ next).
  - by apply close_good.
  - match goal with E : GetConnectionMetadata _ _ = _ |- _ => rename E into HE end. unfold GetConnectionMetadata in HE.
    rewrite !bind_guard_iff in HE. destruct HE as (_ & _ & [= <- _]). by apply read_good.
  - match goal with E : RefreshConnectionMetadata _ _ = _ |- _ => rename E into HE end. unfold RefreshConnectionMetadata in HE.
    apply bind_ok in HE as (n & Hn & HE). apply bind_guard_iff in HE as [_ [= <-]]. apply acquire_good; [|done]. by apply observable_slot.
  - match goal with E : InvalidateConnectionMetadata _ _ = _ |- _ => rename E into HE end. unfold InvalidateConnectionMetadata in HE.
    apply bind_ok in HE as (n & Hn & [= <-]). apply observable_slot in Hn. destruct (st_running _); [by apply put_state_good|by apply acquire_good].
  - by apply observe_good.
  - by apply leave_good.
  - unfold WatchConnectionMetadata. apply watchers_good, (foldl_inv _ good); [by intros d id _; apply read_good|done].
  - by apply watchers_good.
  - by apply watchers_good.
  - by apply watchers_good.
  - by apply watchers_good.
  - by apply watchers_good.
  - by apply watchers_good.
Qed.
Lemma new_good : good NewCoordinator.
Proof.
  split; [split|]; try done.
  - intros id. assert (state_of id NewCoordinator = mkState (empty_snapshot id "") 0 None None false false) as -> by done.
    split; try done. intros j. split; [done|by intros (q & ? & _)].
Qed.
Lemma reachable_good c : reachable c → good c.
Proof.
  intros Hr. refine (rtc_ind_r good NewCoordinator new_good _ c Hr). intros a b _ Hs G. by apply (step_good a).
Qed.

(** C34: Whenever no section of the controller runs, a snapshot published as active
    names a generation that is registered, not retired and of a connection of the
    inventory of an open provider; it says that it is refreshing exactly while an
    observation of that generation runs; a connection has at most one such
    observation; and a generation is not destroyed, nor replaced, while an
    observation holds it. *)
Theorem metadata_generation_safe c id : reachable c →
  let m := state_of id c in let s := st_snapshot m in
  (ms_Active s = true → ∃ n g, st_slot m = Some n ∧ c_clients c !! id = Some n ∧ c_slots c !! n = Some g
    ∧ gn_stopping g = false ∧ gn_text g = ms_Generation s ∧ id ∈ c_connections c ∧ c_closed c = false)
  ∧ (ms_Refreshing s = true ↔ ms_Active s = true ∧ ∃ j q, c_jobs c !! j = Some q ∧ unfinished id q ∧ st_slot m = Some (aq_slot q))
  ∧ (∀ i j p q, c_jobs c !! i = Some p → c_jobs c !! j = Some q → unfinished id p → unfinished id q → i = j)
  ∧ (∀ j q, c_jobs c !! j = Some q → aq_left q = false →
      c_clients c !! aq_id q = Some (aq_slot q) ∧ ∃ g, c_slots c !! aq_slot q = Some g ∧ gn_destroyed g = false).
Proof.
  cbn zeta. intros [I Ho]%reachable_good. destruct (inv_state _ I id) as [K1 K2 K3 K4 K5 K6]. split_and!.
  - rewrite K3. destruct (st_slot (state_of id c)) as [n|]; [|done]. intros _. destruct (K2 n eq_refl) as (Hc & g & Hg & Hs & Ht).
    destruct (inv_live _ I _ _ _ Hc Hg Hs) as (? & _ & ?). by exists n, g.
  - rewrite K4, K3. destruct (st_slot (state_of id c)) as [n|]; cbn [is_some andb]; [|naive_solver]. split.
    + intros Hr. destruct (st_running (state_of id c)) as [j|]; [|done]. destruct (proj1 (K6 j) eq_refl) as (q & Hj & Hq & Hd).
      split; [done|]. exists j, q. split_and!; try done. destruct (K2 n eq_refl) as (Hc & _). pose proof (unfinished_held _ _ _ I Hj Hd). congruence.
    + intros (_ & j & q & Hj & Hu & _). assert (st_running (state_of id c) = Some j) as -> by (apply K6; by exists q). done.
  - intros i j p q Hi Hj Hp Hq. assert (st_running (state_of id c) = Some i) by (apply K6; by exists p).
    assert (st_running (state_of id c) = Some j) by (apply K6; by exists q). congruence.
  - intros j q Hj Hl. by apply (inv_held _ I j).
Qed.
End generations.

(** ** A run *)

(** A comparison that recognises snapshots without facts. *)
Definition factless (s : ConnectionMetadataSnapshot) : bool := bool_decide (map_to_list (entries_of s) = []) && is_some (ms_Entries s).
#[global] Instance metadata_error_eq_dec : EqDecision ConnectionMetadataError.
Proof. solve_decision. Defined.
Definition same_fields (a b : ConnectionMetadataSnapshot) : bool :=
  bool_decide (ms_ConnectionID a = ms_ConnectionID b ∧ ms_Generation a = ms_Generation b ∧ ms_Revision a = ms_Revision b
    ∧ ms_Active a = ms_Active b ∧ ms_Refreshing a = ms_Refreshing b ∧ ms_LastRefreshError a = ms_LastRefreshError b).
#[global] Instance map_to_list_nil_dec (s : ConnectionMetadataSnapshot) : Decision (map_to_list (entries_of s) = []).
Proof. destruct (map_to_list (entries_of s)); [by left|by right]. Defined.
Definition sample_equal (a b : ConnectionMetadataSnapshot) : bool := same_fields a b && factless a && factless b.
Lemma sample_equal_fields a b : sample_equal a b = true →
  ms_ConnectionID a = ms_ConnectionID b ∧ ms_Generation a = ms_Generation b ∧ ms_Revision a = ms_Revision b
  ∧ ms_Active a = ms_Active b ∧ ms_Refreshing a = ms_Refreshing b ∧ ms_LastRefreshError a = ms_LastRefreshError b.
Proof. intros [[E _]%andb_true_iff _]%andb_true_iff. by apply bool_decide_eq_true in E. Qed.
Definition sample_deep_equal : DeepEqual := {| deep_equal := sample_equal; deep_equal_fields := sample_equal_fields |}.
Definition sample_nonce : bytes := replicate 32 (byte_of 171).
Definition staged_run : coordinator := @stageInventory sample_deep_equal ["a"] {["a"]} NewCoordinator.
Definition listed_run : coordinator := @commit_inventory sample_deep_equal true {["a"]} [] ["a"] staged_run.
Definition started_run : coordinator := startSlotLocked "a" (EncodeToString sample_nonce) listed_run.
Definition admitted_run : coordinator := @metadataAdmitLocked sample_deep_equal 0 started_run.
Lemma listed_reachable : @reachable sample_deep_equal listed_run.
Proof.
  eapply rtc_l; [|eapply rtc_l; [|apply rtc_refl]].
  - apply (step_stage _ ["a"] {["a"]}); [done|done| |vm_compute; set_solver|vm_compute; set_solver].
    intros id ->%elem_of_singleton. vm_compute. reflexivity.
  - apply (step_commit _ true {["a"]} {["a"]} [] ["a"]); [done|by intros id ->%elem_of_singleton|done|done].
Qed.
Lemma admitted_reachable : @reachable sample_deep_equal admitted_run.
Proof.
  unfold reachable. transitivity listed_run; [apply listed_reachable|]. eapply rtc_l; [|eapply rtc_l; [|apply rtc_refl]].
  - apply (step_start _ "a" (EncodeToString sample_nonce)); [done|vm_compute; set_solver|vm_compute; set_solver|done|]. by exists sample_nonce.
  - apply (step_admit _ 0).
Qed.
Lemma metadata_generation_safe_witness : @reachable sample_deep_equal admitted_run
  ∧ ms_Refreshing (st_snapshot (state_of "a" admitted_run)) = true ∧ ms_Active (st_snapshot (state_of "a" admitted_run)) = true.
Proof.
  assert (ms_Refreshing (st_snapshot (state_of "a" admitted_run)) = true) as Hr by (vm_compute; reflexivity).
  split; [exact admitted_reachable|]. split; [exact Hr|].
  exact (proj1 (proj1 (proj1 (proj2 (@metadata_generation_safe sample_deep_equal admitted_run "a" admitted_reachable))) Hr)).
Defined.
