(* ===== verification/MetadataWatch.v ===== *)
(** * What the metadata coordinator publishes, and what its watchers receive *)
From S2P Require Import Prelude GoStd GoTime GoJson GoFloat Errors Values Json TaggedJson RoundTrip Budget Connections Metadata MetadataSync MetadataGen.
From stdpp Require Import relations.
Local Open Scope Z_scope.

(** ** Snapshots that leave room for the SDK's own changes *)

(** What a snapshot takes up apart from its revision, flags and error. *)
Definition room (s : ConnectionMetadataSnapshot) : Z :=
  quotedJSONSize (ms_ConnectionID s) + quotedJSONSize (ms_Generation s) + entries_size (map_to_list (entries_of s))
  + commas (map_to_list (entries_of s)).
Definition room_limit : Z := 261541.
Record fits (id : string) (s : ConnectionMetadataSnapshot) : Prop := {
  ft_id : ms_ConnectionID s = id;
  ft_generation : slen (ms_Generation s) ≤ 256 ∧ text (ms_Generation s) (ms_Active s) = Ok tt;
  ft_refreshing : ms_Refreshing s = true → ms_Active s = true;
  ft_error : ms_LastRefreshError s = None ∨ ms_LastRefreshError s = Some refresh_failed;
  ft_entries : is_some (ms_Entries s) = true;
  ft_count : Z.of_nat (length (map_to_list (entries_of s))) ≤ MaxConnectionMetadataEntries;
  ft_valid : Forall (entry_valid s) (map_to_list (entries_of s));
  ft_room : room s ≤ room_limit
}.

Lemma admitted_id id : id_admitted id → slen id ≤ 4096 ∧ text id true = Ok tt.
Proof. unfold id_admitted, ValidateConnectionMetadataSnapshot. rewrite validateSnapshot_iff. by intros ((? & _ & ? & _) & _). Qed.
Lemma empty_fits id r : id_admitted id → fits id (empty_snapshot id r).
Proof.
  intros [Hl Ht]%admitted_id. split; try done; [by left|].
  assert (room (empty_snapshot id r) = quotedJSONSize id + 2) as -> by (unfold room; change (quotedJSONSize (ms_Generation _)) with 2; cbn [empty_snapshot ms_ConnectionID]; change (entries_size _) with 0; change (commas _) with 0; lia).
  pose proof (quotedJSONSize_le id). unfold room_limit. lia.
Qed.
Lemma refresh_failed_size : metadataErrorSize (Some refresh_failed) = Ok 85.
Proof. vm_compute. reflexivity. Qed.
(** The reserve is enough for every revision, flag and lifecycle error. *)
Lemma fits_valid id s l : id_admitted id → fits id s → revision_ok (ms_Revision s) = true → slen (ms_Revision s) ≤ 20 →
  quotedJSONSize (ms_Revision s) ≤ 22 → l ≡ₚ map_to_list (entries_of s) → ValidateConnectionMetadataSnapshot s l = Ok tt.
Proof.
  intros [Hl Ht]%admitted_id [F1 [F2 F2'] F3 F4 F5 F6 F7 F8] Hr Hlen Hq Hp. unfold ValidateConnectionMetadataSnapshot.
  rewrite validateSnapshot_iff. split_and!; [|by rewrite Hp|by rewrite Hp|].
  - unfold head_valid. rewrite F1. split_and!; try done. destruct F4 as [E|E]; [by left|right]. rewrite E. exists 85. apply refresh_failed_size.
  - unfold snapshot_size, snapshot_frame. rewrite (entries_size_perm _ _ Hp). unfold commas in *. rewrite Hp. fold (commas (map_to_list (entries_of s))).
    unfold room, room_limit in F8. change MaxConnectionMetadataSnapshotBytes with 262144.
    assert (error_part (ms_LastRefreshError s) ≤ 105) as He by (destruct F4 as [-> | ->]; unfold error_part; [lia|rewrite refresh_failed_size; lia]).
    assert (metadataBoolSize (ms_Active s) ≤ 5 ∧ metadataBoolSize (ms_Refreshing s) ≤ 5) as [] by (by destruct (ms_Active s), (ms_Refreshing s)). lia.
Qed.

(** Revisions below 2^64, and nonces. *)
Lemma quoted_digits b : forallb is_digit b = true → ∀ size, quoted_size b size = size + blen b.
Proof.
  intros Hb. induction b as [|c b IH]; intros size; [cbn; rewrite blen_nil; lia|]. cbn [forallb] in Hb. apply andb_true_iff in Hb as [Hc Hb].
  specialize (IH Hb). cbn [quoted_size]. rewrite blen_cons.
  assert (short_escape c = None ∧ html_byte c = false ∧ (byte_val c <? jsonControlLimit) = false ∧ ∀ d e, line_separator c d e = false) as (-> & -> & -> & Hl)
    by (destruct c as [[] [] [] [] [] [] [] []]; try discriminate Hc; by split_and!).
  destruct b as [|d [|e b]]; rewrite ?Hl; rewrite IH; lia.
Qed.
Lemma revision_fits k : 1 ≤ k < 2 ^ 64 → revision_ok (format_uint k) = true ∧ slen (format_uint k) ≤ 20 ∧ quotedJSONSize (format_uint k) ≤ 22.
Proof.
  intros Hk. pose proof (format_digits_digits k) as Hd. pose proof (format_digits_length k 20 ltac:(lia) ltac:(lia)) as Hl.
  assert (slen (format_uint k) ≤ 20) as Hs by (unfold slen, format_uint; rewrite bytes_of_string_of; lia). split_and!; [|done|].
  - unfold revision_ok. rewrite parse_format_uint by (unfold max_uint64; lia). unfold format_uint. rewrite bytes_of_string_of.
    pose proof (format_digits_lead k ltac:(lia)) as Hlead. pose proof (format_digits_nonempty k ltac:(lia)) as Hne.
    destruct (format_digits k) as [|c b] eqn:E; [done|]. cbn [is_some]. rewrite andb_true_r. apply andb_true_iff. split.
    + apply negb_true_iff, Ascii.eqb_neq. intros ->. specialize (Hlead eq_refl). lia.
    + apply Hd.
  - unfold quotedJSONSize, format_uint. rewrite bytes_of_string_of, quoted_digits by done. unfold jsonQuoteBytes, blen. lia.
Qed.
Lemma nonce_text_ok s : nonce_text s → slen s = 64 ∧ text s true = Ok tt.
Proof.
  intros (b & Hb & ->). unfold EncodeToString. rewrite text_iff. unfold slen, utf8_valid_string. rewrite bytes_of_string_of.
  assert (length (flat_map (λ b, [hex_digit (byte_val b / 16); hex_digit (byte_val b mod 16)]) b) = 2 * length b)%nat as Hlen.
  { clear. induction b as [|c b IH]; [done|]. cbn [flat_map app length]. lia. }
  rewrite Hlen, Hb. split; [done|]. split.
  - apply ascii7_valid. clear. induction b as [|c b IH]; [done|]. cbn [flat_map app forallb]. rewrite IH, andb_true_r.
    destruct c as [[] [] [] [] [] [] [] []]; vm_compute; reflexivity.
  - intros _ E. assert (bytes_of (string_of (flat_map (λ b, [hex_digit (byte_val b / 16); hex_digit (byte_val b mod 16)]) b)) = []) as E' by (by rewrite E).
    rewrite bytes_of_string_of in E'. rewrite E' in Hlen. cbn in Hlen. lia.
Qed.

(** *** The snapshots the coordinator makes *)

Lemma staled_entry all s s' k e : ms_Generation s' = ms_Generation s → entry_valid s (k, e) →
  entry_valid s' (k, staled all e) ∧ entry_size (staled all e) ≤ entry_size e.
Proof.
  intros Hg (Hk & Hc & Hne & n & Hn). cbn [fst snd] in *. unfold staled.
  destruct (_ || _) eqn:E.
  - assert (me_State e ≠ "unavailable") as Hu.
    { apply orb_true_iff in E as [->%bool_decide_eq_true|[_ E]%andb_true_iff]; [done|]. by apply negb_true_iff, bool_decide_eq_false in E. }
    destruct (stale_size e n Hu Hn) as (n' & Hn' & Hle). split; [|unfold entry_size; rewrite Hn, Hn'; lia].
    split_and!; [done|done|by rewrite Hg|by exists n'].
  - apply orb_false_iff in E as [E%bool_decide_eq_false _]. split; [|lia]. split_and!; [done|done|by rewrite Hg|by exists n].
Qed.
Lemma staled_entries all s s' l : ms_Generation s' = ms_Generation s → Forall (entry_valid s) l →
  Forall (entry_valid s') (prod_map id (staled all) <$> l) ∧ entries_size (prod_map id (staled all) <$> l) ≤ entries_size l.
Proof.
  intros Hg. induction 1 as [|[k e] l He _ [IH1 IH2]]; cbn [fmap list_fmap]; [split; [constructor|done]|].
  destruct (staled_entry all s s' k e Hg He) as [H1 H2]. split; [by constructor|].
  cbn [entries_size foldr fst snd prod_map id] in *. fold (entries_size l) in *. unfold entries_size in *. lia.
Qed.
Lemma staled_fits all id s s' : ms_Entries s' = Some (staled all <$> entries_of s) → ms_ConnectionID s' = ms_ConnectionID s →
  ms_Generation s' = ms_Generation s → ms_Refreshing s' = false → text (ms_Generation s') (ms_Active s') = Ok tt →
  (ms_LastRefreshError s' = None ∨ ms_LastRefreshError s' = Some refresh_failed) → fits id s → fits id s'.
Proof.
  intros E1 E2 E3 E4 E5 E6 [F1 F2 F3 F4 F5 F6 F7 F8].
  assert (map_to_list (entries_of s') = prod_map Datatypes.id (staled all) <$> map_to_list (entries_of s)) as El
    by (unfold entries_of at 1; rewrite E1; apply map_to_list_fmap).
  destruct (staled_entries all s s' _ E3 F7) as [H1 H2]. split.
  - congruence.
  - rewrite E3. split; [apply F2|by rewrite <- E3].
  - by rewrite E4.
  - done.
  - by rewrite E1.
  - by rewrite El, length_fmap.
  - by rewrite El.
  - unfold room, commas in *. rewrite El, E2, E3, length_fmap. lia.
Qed.
Lemma stop_fits id s : fits id s → fits id (with_Entries (staled false <$> entries_of s) (with_Inactive s)).
Proof.
  intros F. apply (staled_fits false id s); try done; [|apply F]. apply text_iff. split; [|done].
  by destruct (ft_generation _ _ F) as [_ [? _]%text_iff].
Qed.
Lemma fail_fits id s : fits id s → fits id (fail_refresh s).
Proof. intros F. apply (staled_fits true id s); try done; [apply F|by right]. Qed.
Lemma refreshing_fits id s : ms_Active s = true → fits id s → fits id (with_Refreshing true s).
Proof. by intros Ha []. Qed.
Lemma admit_fits id text r : id_admitted id → nonce_text text → fits id (mkSnapshot id text r true false None (Some ∅)).
Proof.
  intros [Hl Ht]%admitted_id [Hn1 Hn2]%nonce_text_ok. split; try done; [cbn; split; [lia|done]|by left|].
  assert (room (mkSnapshot id text r true false None (Some ∅)) = quotedJSONSize id + quotedJSONSize text) as ->
    by (unfold room; cbn [ms_ConnectionID ms_Generation]; change (entries_size _) with 0; change (commas _) with 0; lia).
  pose proof (quotedJSONSize_le id). pose proof (quotedJSONSize_le text). unfold room_limit. lia.
Qed.
Lemma observed_fits id answer s : ms_Active s = true → fits id s → fits id (observed answer s).
Proof.
  intros Ha F. unfold observed. destruct answer as [u|]; [|by apply fail_fits].
  destruct (validateMetadataSnapshotAdmission _ _) as [[]|] eqn:E; [|by apply fail_fits].
  unfold validateMetadataSnapshotAdmission in E. apply validateSnapshot_iff in E as (Hh & Hc & Hv & Hs).
  set (next := apply_update u s) in *. destruct Hh as (_ & _ & _ & _ & Hr & _). split; try done.
  - apply F.
  - apply F.
  - by left.
  - change (MaxConnectionMetadataSnapshotBytes - ConnectionMetadataLifecycleReserveBytes) with 261632 in Hs.
    unfold snapshot_size, snapshot_frame in Hs. unfold room, room_limit.
    assert (ms_Active next = true ∧ ms_Refreshing next = false ∧ ms_LastRefreshError next = None) as (E1 & E2 & E3) by done.
    rewrite E1, E2, E3 in Hs. change (metadataBoolSize true) with 4 in Hs. change (metadataBoolSize false) with 5 in Hs. change (error_part None) with 0 in Hs.
    pose proof (quotedJSONSize_pos (ms_Revision next)). lia.
Qed.

(** ** What is published *)

Section watching.
Context `{DeepEqual}.

Definition about (id : string) (ev : ConnectionMetadataEvent) : Prop := ms_ConnectionID (mv_Snapshot ev) = id.
#[local] Instance about_dec id ev : Decision (about id ev).
Proof. unfold about. apply _. Defined.
Definition count_of (id : string) (h : list ConnectionMetadataEvent) : Z := Z.of_nat (length (filter (about id) h)).
Definition tombstone (s : ConnectionMetadataSnapshot) : Prop :=
  ms_Active s = false ∧ ms_Refreshing s = false ∧ ms_LastRefreshError s = None ∧ ms_Entries s = Some ∅.
Definition event_ok (ev : ConnectionMetadataEvent) : Prop :=
  ∃ id, id_admitted id ∧ fits id (mv_Snapshot ev) ∧ (mv_Removed ev = true → tombstone (mv_Snapshot ev)).
(** The state of a connection as an event. *)
Definition current (c : coordinator) (id : string) : ConnectionMetadataEvent :=
  mkMetadataEvent (st_snapshot (state_of id c)) (st_removed (state_of id c)).
(** What a watcher is to receive: its replay, then everything published since. *)
Definition stream (c : coordinator) (w : metadataWatcher) : list ConnectionMetadataEvent := w_replay w ++ drop (w_from w) (c_history c).
(** The last event about a connection is its state. *)
Definition known (c : coordinator) (id : string) (w : metadataWatcher) : Prop := last (filter (about id) (stream c w)) = Some (current c id).
Definition to_come (w : metadataWatcher) : list ConnectionMetadataEvent := option_list (w_hand w) ++ w_initial w ++ w_events w.
Record watch_ok (c : coordinator) (w : metadataWatcher) : Prop := {
  wo_from : (w_from w ≤ length (c_history c))%nat;
  wo_got : w_got w `prefix_of` stream c w;
  wo_running : w_result w = None → (w_got w ++ to_come w) `prefix_of` stream c w
    ∧ (w_listed w = true → w_got w ++ to_come w = stream c w) ∧ (w_listed w = false → w_overflow w = true);
  wo_overflow : w_overflow w = true → w_listed w = false;
  wo_initial : w_initial w ≠ [] → w_hand w = None
}.
Record published (c : coordinator) : Prop := {
  pb_fits id : id_admitted id → fits id (st_snapshot (state_of id c));
  pb_history : Forall event_ok (c_history c);
  pb_revision id : id_admitted id → st_revision (state_of id c) = count_of id (c_history c) mod 2 ^ 64;
  pb_revisions i ev : c_history c !! i = Some ev →
    ms_Revision (mv_Snapshot ev) = format_uint (count_of (ms_ConnectionID (mv_Snapshot ev)) (take (S i) (c_history c)) mod 2 ^ 64);
  pb_watchers : Forall (watch_ok c) (c_watchers c)
}.

Lemma publish_cases id next r c : let c' := metadataPublishLocked id next r c in
  c' = c ∧ st_removed (state_of id c) = r ∧ st_revision (state_of id c) ≠ 0
  ∨ let k := (st_revision (state_of id c) + 1) mod 2 ^ 64 in let ev := mkMetadataEvent (with_Revision (format_uint k) next) r in
    c_history c' = c_history c ++ [ev] ∧ c_watchers c' = map (offer ev) (c_watchers c) ∧ current c' id = ev ∧ st_revision (state_of id c') = k.
Proof.
  cbn zeta. unfold current. rewrite !state_of_publish. unfold metadataPublishLocked. destruct (deep_equal _ _ && _ && _) eqn:E; [|right; by split_and!].
  left. apply andb_true_iff in E as [[_ E]%andb_true_iff Er]. apply eqb_prop in E. split_and!; [done|done|]. by apply negb_true_iff, Z.eqb_neq in Er.
Qed.
Lemma count_of_app id h h' : count_of id (h ++ h') = count_of id h + count_of id h'.
Proof. unfold count_of. rewrite filter_app, length_app. lia. Qed.
Lemma count_of_one id ev : count_of id [ev] = if decide (about id ev) then 1 else 0.
Proof. unfold count_of. rewrite filter_cons. by case_decide. Qed.
Lemma revision_next a : ((a mod 2 ^ 64) + 1) mod 2 ^ 64 = (a + 1) mod 2 ^ 64.
Proof. by rewrite Zplus_mod_idemp_l. Qed.

Lemma stream_app c c' w evs : c_history c' = c_history c ++ evs → (w_from w ≤ length (c_history c))%nat → stream c' w = stream c w ++ evs.
Proof. intros E Hf. unfold stream. rewrite E, drop_app_le by done. by rewrite app_assoc. Qed.
Lemma offer_stream ev w c : stream c (offer ev w) = stream c w.
Proof. unfold offer. by repeat case_match. Qed.
Lemma offer_ok c c' ev w : c_history c' = c_history c ++ [ev] → watch_ok c w → watch_ok c' (offer ev w).
Proof.
  intros E [W1 W2 W3 W4 W5]. pose proof (stream_app c c' w [ev] E W1) as Es.
  assert (length (c_history c') = S (length (c_history c))) as El by (rewrite E, length_app; cbn; lia).
  unfold offer. destruct (negb (w_listed w)) eqn:Eu; [|destruct (length (w_events w) <? watchBuffer)%nat].
  - apply negb_true_iff in Eu. split; rewrite ?El, ?Es; try done; [lia|by apply prefix_app_r|].
    intros Hr. destruct (W3 Hr) as (P1 & P2 & P3). split_and!; [by apply prefix_app_r|congruence|done].
  - apply negb_false_iff in Eu. set (w' := mkWatcher _ _ _ _ _ _ _ _ _). assert (stream c' w' = stream c w ++ [ev]) as Es' by done.
    split; rewrite ?El, ?Es'; cbn [w_from w_got w_result w_listed w_overflow w_initial w_hand w']; try done; [lia|by apply prefix_app_r| |].
    + intros Hr. destruct (W3 Hr) as (P1 & P2 & P3). assert (w_got w ++ to_come w' = stream c w ++ [ev]) as ->.
      { rewrite <- (P2 Eu). unfold to_come. cbn. by rewrite !app_assoc. } done.
    + intros Ho. specialize (W4 Ho). congruence.
  - set (w' := mkWatcher _ _ _ _ _ _ _ _ _). assert (stream c' w' = stream c w ++ [ev]) as Es' by done.
    split; rewrite ?El, ?Es'; cbn [w_from w_got w_result w_listed w_overflow w_initial w_hand w']; try done; [lia|by apply prefix_app_r|].
    intros Hr. destruct (W3 Hr) as (P1 & P2 & P3). split_and!; [by apply prefix_app_r|done|done].
Qed.
Lemma revision_fits_snapshot id r s : fits id s → fits id (with_Revision r s).
Proof. by intros []. Qed.

(** A publication about an admitted connection that leaves enough room. *)
Lemma publish_published id next r c : id_admitted id → fits id next → (r = true → tombstone next) →
  published c → published (metadataPublishLocked id next r c).
Proof.
  intros Hid Hf Hr [B1 B2 B3 B4 B5]. destruct (publish_cases id next r c) as [(-> & _)|(Eh & Ew & Ec & Ek)]; [done|].
  set (k := (st_revision (state_of id c) + 1) mod 2 ^ 64) in *. set (ev := mkMetadataEvent (with_Revision (format_uint k) next) r) in *.
  set (c' := metadataPublishLocked id next r c) in *. pose proof (publish_same_but id next r c) as F. fold c' in F.
  assert (about id ev) as Hab by (apply (ft_id _ _ Hf)).
  assert (k = count_of id (c_history c ++ [ev]) mod 2 ^ 64) as Hk.
  { unfold k. rewrite (B3 id Hid), revision_next, count_of_app, count_of_one, decide_True by done. done. }
  split.
  - intros id' Hid'. destruct (decide (id' = id)) as [->|Hne]; [|rewrite (sb_other _ _ _ F) by done; by apply B1].
    unfold current in Ec. assert (st_snapshot (state_of id c') = mv_Snapshot ev) as -> by (by rewrite <- Ec). by apply revision_fits_snapshot.
  - rewrite Eh. apply Forall_app. split; [done|]. constructor; [|done]. exists id. split; [done|]. split; [by apply revision_fits_snapshot|apply Hr].
  - intros id' Hid'. rewrite Eh. destruct (decide (id' = id)) as [->|Hne]; [by rewrite Ek|].
    rewrite (sb_other _ _ _ F), B3, count_of_app, count_of_one, decide_False, Z.add_0_r by (done || (unfold about in *; congruence)). done.
  - intros i e. rewrite Eh. intros Hi. apply lookup_app_Some in Hi as [Hi|[Hl Hi]].
    + rewrite take_app_le by (apply lookup_lt_Some in Hi; lia). by apply B4.
    + apply list_lookup_singleton_Some in Hi as [Hi <-]. rewrite take_ge by (rewrite length_app; cbn; lia).
      unfold about in Hab. rewrite Hab. cbn. by rewrite Hk.
  - rewrite Ew. apply Forall_fmap, (Forall_impl _ _ _ B5). intros w. by apply offer_ok.
Qed.

Record tracked (c : coordinator) : Prop := {
  tk_known id : id ∈ c_connections c ∨ st_removed (state_of id c) = true → Forall (known c id) (c_watchers c);
  tk_fresh id : id ∉ c_connections c → st_removed (state_of id c) = false → st_revision (state_of id c) = 0;
  tk_listed id : id ∈ c_connections c → st_removed (state_of id c) = false
}.
Definition sound (c : coordinator) : Prop := published c ∧ tracked c.

Lemma last_about_app id l ev : last (filter (about id) (l ++ [ev])) = if decide (about id ev) then Some ev else last (filter (about id) l).
Proof. rewrite filter_app, filter_cons, filter_nil. case_decide; [by rewrite last_snoc|by rewrite app_nil_r]. Qed.
(** A publication tells every watcher about its connection, and about no other. *)
Lemma publish_known id next r c id' : published c → ms_ConnectionID next = id →
  (id' = id ∧ metadataPublishLocked id next r c ≠ c ∨ Forall (known c id') (c_watchers c)) →
  Forall (known (metadataPublishLocked id next r c) id') (c_watchers (metadataPublishLocked id next r c)).
Proof.
  intros B Hid Hk. destruct (publish_cases id next r c) as [(E & _)|(Eh & Ew & Ec & _)]; [rewrite E in *; by destruct Hk as [[_ ?]|?]|].
  set (c' := metadataPublishLocked id next r c) in *. set (ev := mkMetadataEvent _ r) in *.
  assert (about id ev) as Hab by done. rewrite Ew. apply Forall_fmap, Forall_forall. intros w Hw. unfold known. cbn.
  rewrite offer_stream, (stream_app c c' w [ev]) by (done || (pose proof (pb_watchers _ B) as Hok; rewrite Forall_forall in Hok; by apply Hok)).
  rewrite last_about_app. destruct (decide (id' = id)) as [->|Hne]; [rewrite decide_True by done; by rewrite Ec|].
  rewrite decide_False by (unfold about in *; congruence). destruct Hk as [[? _]|Hk]; [done|]. rewrite Forall_forall in Hk. rewrite (Hk w Hw).
  unfold current. pose proof (publish_same_but id next r c) as F. fold c' in F. by rewrite (sb_other _ _ _ F).
Qed.
Lemma publish_sound id next c : id ∈ c_connections c → id_admitted id → fits id next → sound c → sound (metadataPublishLocked id next false c).
Proof.
  intros Hin Hid Hf [B [K1 K2 K3]]. split; [by apply publish_published|]. pose proof (publish_same_but id next false c) as F.
  pose proof (publish_state id next false c) as (_ & _ & _ & _ & Er). split.
  - intros id'. rewrite publish_connections. intros Hd. apply publish_known; [done|apply Hf|]. right. apply K1.
    destruct (decide (id' = id)) as [->|Hne]; [by left|]. by rewrite (sb_other _ _ _ F) in Hd.
  - intros id'. rewrite publish_connections. intros Hn. rewrite (sb_other _ _ _ F) by congruence. by apply K2.
  - intros id'. rewrite publish_connections. intros Hi. destruct (decide (id' = id)) as [->|Hne]; [done|]. rewrite (sb_other _ _ _ F) by done. by apply K3.
Qed.

(** *** Sections as publications *)

Inductive micro (c : coordinator) : coordinator → Prop :=
| micro_put id m : st_snapshot m = st_snapshot (state_of id c) → st_revision m = st_revision (state_of id c) →
    st_removed m = st_removed (state_of id c) → micro c (put_state id m c)
| micro_publish id next : id ∈ c_connections c → (id_admitted id → fits id (st_snapshot (state_of id c)) → fits id next) →
    micro c (metadataPublishLocked id next false c)
| micro_frame c' : c_states c' = c_states c → c_history c' = c_history c → c_watchers c' = c_watchers c → c_connections c' = c_connections c →
    micro c c'.
(** States that agree on what is published. *)
Lemma same_sound c c' : (∀ id, st_snapshot (state_of id c') = st_snapshot (state_of id c) ∧ st_revision (state_of id c') = st_revision (state_of id c)
    ∧ st_removed (state_of id c') = st_removed (state_of id c)) →
  c_history c' = c_history c → c_watchers c' = c_watchers c → c_connections c' = c_connections c → sound c → sound c'.
Proof.
  intros Hs E1 E2 E3 [[B1 B2 B3 B4 B5] [K1 K2 K3]].
  assert (∀ w, stream c' w = stream c w) as Est by (intros w; unfold stream; by rewrite E1).
  assert (∀ id, current c' id = current c id) as Ecu by (intros id; unfold current; by destruct (Hs id) as (-> & _ & ->)).
  split; split.
  - intros id. destruct (Hs id) as (-> & _ & _). apply B1.
  - by rewrite E1.
  - intros id. destruct (Hs id) as (_ & -> & _). rewrite E1. apply B3.
  - by rewrite E1.
  - rewrite E2. apply (Forall_impl _ _ _ B5). intros w [W1 W2 W3 W4 W5]. split; rewrite ?Est, ?E1; done.
  - intros id. destruct (Hs id) as (_ & _ & ->). rewrite E2, E3. intros Hd. apply (Forall_impl _ _ _ (K1 id Hd)). intros w. unfold known. by rewrite Est, Ecu.
  - intros id. destruct (Hs id) as (_ & -> & ->). rewrite E3. apply K2.
  - intros id. destruct (Hs id) as (_ & _ & ->). rewrite E3. apply K3.
Qed.
Lemma micro_sound c c' : (∀ id, id ∈ c_connections c → id_admitted id) → micro c c' → sound c → sound c' ∧ c_connections c' = c_connections c.
Proof.
  intros Hadm Hm G. destruct Hm as [id m E1 E2 E3|id next Hin Hf|c' E1 E2 E3 E4].
  - split; [|done]. apply (same_sound c); try done. intros id'. rewrite state_of_put. by case_decide; [subst|].
  - split; [|apply publish_connections]. apply publish_sound; [done|by apply Hadm| |done]. apply Hf; [by apply Hadm|]. by apply G, Hadm.
  - split; [|done]. apply (same_sound c); try done. intros id. unfold state_of. by rewrite E1.
Qed.
Lemma micros_sound c c' : (∀ id, id ∈ c_connections c → id_admitted id) → rtc micro c c' → sound c → sound c' ∧ c_connections c' = c_connections c.
Proof.
  intros Hadm Hm. induction Hm as [c|a b c Hab _ IH]; [by split|]. intros G. destruct (micro_sound a b Hadm Hab G) as [Gb Eb].
  rewrite <- Eb in *. by apply IH.
Qed.

Lemma rtc_two {A} (R : relation A) a b c : R a b → R b c → rtc R a c.
Proof. intros H1 H2. eapply rtc_l; [exact H1|]. by apply rtc_once. Qed.
Lemma put_publish_micro id m next c : id ∈ c_connections c → st_snapshot m = st_snapshot (state_of id c) →
  st_revision m = st_revision (state_of id c) → st_removed m = st_removed (state_of id c) →
  (id_admitted id → fits id (st_snapshot (state_of id c)) → fits id next) →
  rtc micro c (metadataPublishLocked id next false (put_state id m c)).
Proof.
  intros Hin E1 E2 E3 Hf. eapply rtc_two; [by apply micro_put|]. apply micro_publish; [done|]. by rewrite state_of_put_eq, E1.
Qed.
Lemma on_slot_micro n f c : micro c (on_slot n f c).
Proof. by apply micro_frame. Qed.
Lemma stop_micro n c : (∀ id, st_slot (state_of id c) = Some n → id ∈ c_connections c) → rtc micro c (metadataStopLocked n c).
Proof.
  intros Hin. unfold metadataStopLocked. destruct (c_slots c !! n) as [g|]; [|done]. destruct (c_states c !! gn_id g) as [m|] eqn:Em; [|done].
  case_bool_decide as Hs; [|done]. apply state_of_default in Em. subst m. apply put_publish_micro; try done; [by apply Hin|]. intros _. apply stop_fits.
Qed.
Lemma slot_connected c id n : inv c → st_slot (state_of id c) = Some n → id ∈ c_connections c.
Proof. intros I Hs. destruct (si_slot _ _ _ (inv_state _ I id) n Hs) as (Hc & g & Hg & Hst & _). by destruct (inv_live _ I _ _ _ Hc Hg Hst). Qed.
Lemma stop_slot_micro n c : inv c → rtc micro c (stop_slot n c).
Proof. intros I. eapply rtc_r; [|apply on_slot_micro]. apply stop_micro. intros id. by apply slot_connected. Qed.
Lemma stage_one_micro c id : rtc micro c (stage_one c id).
Proof.
  unfold stage_one. set (d := if bool_decide _ then _ else _). assert (rtc micro c d) as Hd.
  { unfold d. case_bool_decide; [|done]. apply put_publish_micro; try done. intros Hid _. by apply empty_fits. }
  destruct (c_clients d !! id); [|exact Hd]. eapply rtc_r; [exact Hd|apply on_slot_micro].
Qed.
Lemma read_micro c id : id ∈ c_connections c → micro c (read_metadata c id).
Proof. intros Hin. unfold read_metadata. destruct (_ =? _); [by apply micro_publish|by apply micro_put]. Qed.
Lemma acquire_micro id n c : id ∈ c_connections c → ms_Active (st_snapshot (state_of id c)) = true → rtc micro c (metadataAcquireLocked id n c).
Proof.
  intros Hin Ha. unfold metadataAcquireLocked. destruct (st_running (state_of id c)); [done|].
  set (p := put_state id _ c). assert (state_of id p = set_running (Some (length (c_jobs c))) (state_of id c)) as Ep by apply state_of_put_eq.
  set (d := with_jobs _ p). change (state_of id d) with (state_of id p). rewrite Ep.
  eapply rtc_r; [|apply on_slot_micro]. eapply rtc_r; [|apply micro_publish; [done|]].
  - apply (rtc_two _ _ p); [by apply micro_put|by apply micro_frame].
  - intros _. change (state_of id d) with (state_of id p). rewrite Ep. by apply refreshing_fits.
Qed.
Lemma admit_micro n c : inv c → rtc micro c (metadataAdmitLocked n c).
Proof.
  intros I. unfold metadataAdmitLocked. destruct (c_slots c !! n) as [g|] eqn:En; [|done]. destruct (negb (live n c) || _) eqn:E; [done|].
  apply orb_false_iff in E as [E%negb_false_iff _]. unfold live in E. rewrite En in E. apply andb_true_iff in E as [E Hc%bool_decide_eq_true].
  apply negb_true_iff, orb_false_iff in E as [[Hst _]%orb_false_iff _]. destruct (inv_live _ I _ _ _ Hc En Hst) as (Hin & _).
  pose proof (inv_text _ I _ _ En) as Htext. set (d := put_state _ _ c). set (next := mkSnapshot _ _ _ _ _ _ _).
  pose proof (publish_state (gn_id g) next false d) as ([_ _ S3 _ _] & _). etransitivity; [|apply acquire_micro].
  - apply put_publish_micro; try done. intros Hid _. by apply admit_fits.
  - by rewrite publish_connections.
  - by rewrite S3.
Qed.
Lemma observe_micro j q answer c : c_jobs c !! j = Some q → aq_done q = None → good c → rtc micro c (metadataObserve j q answer c).
Proof.
  intros Hj Hd G. pose proof G as [I Ho]. set (id := aq_id q). set (n := aq_slot q). set (d := put_state id (set_running None (state_of id c)) c).
  assert (state_of id d = set_running None (state_of id c)) as Ed by apply state_of_put_eq.
  assert (micro c d) as Hcd by (by apply micro_put).
  destruct (observe_cases j q answer c Hj Hd G) as [(e & He & -> & _)|[Hs ->]].
  - apply (rtc_r _ e); [|by apply micro_frame]. destruct He as [[-> Hs]| ->]; [|by apply rtc_once]. eapply rtc_l; [exact Hcd|]. apply stop_micro.
    intros id' Hs'. apply (slot_connected c id' n I). fold id n d in Hs'. destruct (decide (id' = id)) as [->|Hne]; [done|].
    rewrite <- Hs'. unfold d. rewrite state_of_put. by rewrite decide_False.
  - fold id n d in Hs |- *. set (next := observed answer (st_snapshot (state_of id c))). set (e := finish_job j None (metadataPublishLocked id next false d)).
    pose proof (slot_connected c id n I Hs) as Hin. assert (ms_Active (st_snapshot (state_of id c)) = true) as Ha by (rewrite (si_active _ _ _ (inv_state _ I id)), Hs; done).
    assert (rtc micro c e) as He.
    { apply (rtc_r _ (metadataPublishLocked id next false d)); [|by apply micro_frame]. apply put_publish_micro; try done. intros _. by apply observed_fits. }
    destruct (st_pending _); [|exact He]. etransitivity; [exact He|].
    pose proof (publish_state id next false d) as ([_ _ S3 _ _] & _).
    assert (c_connections e = c_connections c) as Ee by exact (publish_connections id next false d).
    eapply rtc_l; [by apply (micro_put e id (set_pending false (state_of id e)))|]. apply acquire_micro; [by rewrite <- Ee in Hin|]. rewrite state_of_put_eq. cbn.
    change (state_of id e) with (state_of id (metadataPublishLocked id next false d)). rewrite S3.
    destruct (observed_agrees answer (st_snapshot (state_of id c))) as [_ _ A3 _ _]. unfold next. by rewrite A3.
Qed.
Lemma foldl_micro {A} (f : coordinator → A → coordinator) (P : coordinator → Prop) l c :
  (∀ d a, a ∈ l → P d → rtc micro d (f d a) ∧ P (f d a)) → P c → rtc micro c (foldl f c l).
Proof.
  revert c. induction l as [|a l IH]; intros c Hf Hc; [done|]. cbn. destruct (Hf c a) as [H1 H2]; [by left|done|].
  etransitivity; [exact H1|]. apply IH; [|done]. intros d b Hb. apply Hf. by right.
Qed.

(** *** Inventories *)

(** Between the tombstones [F] and the welcomes [W] of an inventory. *)
Record between (F W : list string) (c : coordinator) : Prop := {
  bt_published : published c;
  bt_known id : id ∈ W ∨ id ∈ c_connections c ∨ st_removed (state_of id c) = true → Forall (known c id) (c_watchers c);
  bt_fresh id : id ∉ c_connections c → id ∉ W → st_removed (state_of id c) = false → st_revision (state_of id c) = 0;
  bt_listed id : id ∈ c_connections c ∧ id ∉ F ∨ id ∈ W → st_removed (state_of id c) = false;
  bt_gone id : id ∈ F → st_removed (state_of id c) = true
}.
Lemma foldl_done {A} (f : coordinator → A → coordinator) (P : list A → coordinator → Prop) l c :
  P [] c → (∀ done a d, a ∈ l → P done d → P (done ++ [a]) (f d a)) → P l (foldl f c l).
Proof.
  intros H0 Hf. assert (∀ done rest d, done ++ rest = l → P done d → P l (foldl f d rest)) as Hgen; [|by apply (Hgen [] l)].
  intros done rest. revert done. induction rest as [|a rest IH]; intros done d <- Hd; [by rewrite app_nil_r in *|].
  cbn. apply (IH (done ++ [a])); [by rewrite <- app_assoc|]. apply Hf; [|done]. apply elem_of_app. right. by left.
Qed.
Lemma put_between F W id m c : st_snapshot m = st_snapshot (state_of id c) → st_revision m = st_revision (state_of id c) →
  st_removed m = st_removed (state_of id c) → between F W c → between F W (put_state id m c).
Proof.
  intros E1 E2 E3 [B K1 K2 K3 K4].
  assert (∀ id', st_snapshot (state_of id' (put_state id m c)) = st_snapshot (state_of id' c) ∧ st_revision (state_of id' (put_state id m c)) = st_revision (state_of id' c)
    ∧ st_removed (state_of id' (put_state id m c)) = st_removed (state_of id' c)) as Hs by (intros id'; rewrite state_of_put; by case_decide; [subst|]).
  split.
  - destruct B as [B1 B2 B3 B4 B5]. split; [intros id'; destruct (Hs id') as (-> & _); apply B1|done|intros id'; destruct (Hs id') as (_ & -> & _); apply B3|done|].
    apply (Forall_impl _ _ _ B5). by intros w [].
  - intros id'. destruct (Hs id') as (_ & _ & ->). intros Hd. apply (Forall_impl _ _ _ (K1 id' Hd)). intros w. unfold known, current.
    by destruct (Hs id') as (-> & _ & ->).
  - intros id'. destruct (Hs id') as (_ & -> & ->). apply K2.
  - intros id'. destruct (Hs id') as (_ & _ & ->). apply K3.
  - intros id'. destruct (Hs id') as (_ & _ & ->). apply K4.
Qed.
Lemma forget_between F id c : id ∈ c_connections c → id_admitted id → between F [] c → between (F ++ [id]) [] (forget c id).
Proof.
  intros Hin Hid Hb. unfold forget. set (d := put_state id (detach (state_of id c)) c).
  assert (between F [] d) as [B K1 K2 K3 K4] by exact (put_between F [] id (detach (state_of id c)) c eq_refl eq_refl eq_refl Hb). set (next := empty_snapshot id _).
  pose proof (publish_same_but id next true d) as Fr. pose proof (publish_state id next true d) as (_ & _ & _ & _ & Er).
  set (e := metadataPublishLocked id next true d) in *. change (c_connections d) with (c_connections c) in *.
  assert (c_connections e = c_connections c) as Ee by exact (publish_connections id next true d). split.
  - apply publish_published; [done|by apply empty_fits|done|done].
  - intros id' Hd. apply publish_known; [done|done|]. right. apply K1. rewrite Ee in Hd. right.
    destruct (decide (id' = id)) as [->|Hne]; [by left|]. rewrite (sb_other _ _ _ Fr) in Hd by done. destruct Hd as [?%not_elem_of_nil|Hd]; [done|exact Hd].
  - intros id' Hn Hw Hr. rewrite Ee in Hn. destruct (decide (id' = id)) as [->|Hne]; [done|]. rewrite (sb_other _ _ _ Fr) in * by done. by apply K2.
  - intros id' [[Hi Hn]|?%not_elem_of_nil]; [|done]. rewrite Ee in Hi. rewrite not_elem_of_app, list_elem_of_singleton in Hn. destruct Hn as [Hn Hne].
    rewrite (sb_other _ _ _ Fr) by done. apply K3. by left.
  - intros id' [Hi|Hi%list_elem_of_singleton]%elem_of_app; [|by subst]. destruct (decide (id' = id)) as [->|Hne]; [done|].
    rewrite (sb_other _ _ _ Fr) by done. by apply K4.
Qed.
Lemma welcome_between F W id c : id ∉ F → id_admitted id → between F W c → between F (W ++ [id]) (welcome (c_connections c) c id).
Proof.
  intros HF Hid Hb. pose proof Hb as [B K1 K2 K3 K4]. unfold welcome. destruct (decide (id ∈ c_connections c)) as [Hin|Hin].
  - rewrite bool_decide_true by done. rewrite (K3 id) by (left; done). cbn [negb orb]. destruct (put_between F W id (state_of id c) c) as [B' K1' K2' K3' K4']; try done.
    change (c_connections (put_state id (state_of id c) c)) with (c_connections c) in *. split; try done.
    + intros id' Hd. apply K1'. destruct Hd as [[?|Hi%list_elem_of_singleton]%elem_of_app|Hd]; [by left|subst; right; by left|by right].
    + intros id' Hn Hw. apply K2'; [done|]. by apply not_elem_of_app in Hw as [? _].
    + intros id' Hd. apply K3'. destruct Hd as [?|[?|Hi%list_elem_of_singleton]%elem_of_app]; [by left|by right|subst; by left].
  - rewrite bool_decide_false by done. cbn [negb orb]. set (next := empty_snapshot id _).
    pose proof (publish_same_but id next false c) as Fr. pose proof (publish_state id next false c) as (_ & _ & _ & _ & Er).
    set (e := metadataPublishLocked id next false c) in *. assert (c_connections e = c_connections c) as Ee by exact (publish_connections id next false c). split.
    + apply publish_published; [done|by apply empty_fits|done|done].
    + intros id' Hd. apply publish_known; [done|done|]. rewrite Ee in Hd. destruct (decide (id' = id)) as [->|Hne].
      * destruct (decide (id ∈ W)) as [Hw|Hw]; [right; apply K1; by left|].
        destruct (publish_cases id next false c) as [(_ & Hr & Hrev)|(Eh & _)]; [by specialize (K2 id Hin Hw Hr)|].
        left. split; [done|]. intros E. rewrite E in Eh. apply (f_equal length) in Eh. rewrite length_app in Eh. cbn in Eh. lia.
      * right. apply K1. rewrite (sb_other _ _ _ Fr) in Hd by done.
        destruct Hd as [[?|Hi%list_elem_of_singleton]%elem_of_app|Hd]; [by left|done|by right].
    + intros id' Hn Hw Hr. rewrite Ee in Hn. rewrite not_elem_of_app, list_elem_of_singleton in Hw. destruct Hw as [Hw Hne].
      rewrite (sb_other _ _ _ Fr) in * by done. by apply K2.
    + intros id' Hd. rewrite Ee in Hd. destruct (decide (id' = id)) as [->|Hne]; [done|]. rewrite (sb_other _ _ _ Fr) by done. apply K3.
      destruct Hd as [?|[?|Hi%list_elem_of_singleton]%elem_of_app]; [by left|by right|done].
    + intros id' Hi. destruct (decide (id' = id)) as [->|Hne]; [done|]. rewrite (sb_other _ _ _ Fr) by done. by apply K4.
Qed.
Lemma commit_sound ok changed next gone ids c : c_staged c = Some (changed, next) → gone ≡ₚ elements (c_connections c ∖ next) →
  ids ≡ₚ elements next → inv c → sound c → sound (commit_inventory ok changed gone ids c).
Proof.
  intros Est Hgone Hids I S. unfold commit_inventory. destruct (ok && _); [|by apply (same_sound c)].
  pose proof (inv_staged _ I _ _ Est) as (_ & _ & Hadm).
  assert (∀ id, id ∈ gone ↔ id ∈ c_connections c ∖ next) as Hg by (intros id; by rewrite Hgone, elem_of_elements).
  assert (∀ id, id ∈ ids ↔ id ∈ next) as Hi by (intros id; by rewrite Hids, elem_of_elements).
  assert (between gone ids (metadataInventoryLocked (c_connections c) gone ids c) ∧ c_connections (metadataInventoryLocked (c_connections c) gone ids c) = c_connections c)
    as [[B K1 K2 K3 K4] Ec].
  { unfold metadataInventoryLocked. apply (foldl_done _ (λ W d, between gone W d ∧ c_connections d = c_connections c)).
    - apply (foldl_done _ (λ F d, between F [] d ∧ c_connections d = c_connections c)).
      + split; [|done]. destruct S as [B [T1 T2 T3]]. split; [done| | |  |].
        * intros id [?%not_elem_of_nil|Hd]; [done|by apply T1].
        * intros id Hn _. by apply T2.
        * intros id [[Hin _]|?%not_elem_of_nil]; [by apply T3|done].
        * by intros id ?%not_elem_of_nil.
      + intros F id d Hin [Hb Ed]. rewrite Hg in Hin. assert (id ∈ c_connections c) as Hc by set_solver.
        split; [|by rewrite (sb_connections _ _ _ (forget_frame d id))]. apply forget_between; [by rewrite Ed|by apply I|done].
    - intros W id d Hin [Hb Ed]. rewrite Hi in Hin. split; [|by rewrite welcome_connections]. rewrite <- Ed. apply welcome_between; [|by apply Hadm|done].
      rewrite Hg. set_solver. }
  set (d := metadataInventoryLocked (c_connections c) gone ids c) in *. split.
  - destruct B as [B1 B2 B3 B4 B5]. split; try done. apply (Forall_impl _ _ _ B5). by intros w [].
  - split; cbn.
    + intros id Hd. assert (Forall (known d id) (c_watchers d)) as Hk.
      { apply K1. destruct Hd as [Hd%elem_of_list_to_set|Hd]; [by left|by right; right]. } exact Hk.
    + intros id Hn Hr. rewrite elem_of_list_to_set, Hi in Hn. apply K2; [|by rewrite Hi|done]. intros Hin. rewrite Ec in Hin.
      assert (id ∈ gone) as Hg' by (rewrite Hg; set_solver). apply K4 in Hg'. change (state_of id (with_inventory _ _ _ _ d)) with (state_of id d) in Hr. congruence.
    + intros id Hd%elem_of_list_to_set. apply K3. by right.
Qed.

(** *** Watchers *)

Lemma set_watchers_sound ws c : Forall (watch_ok c) ws →
  (∀ id, id ∈ c_connections c ∨ st_removed (state_of id c) = true → Forall (known c id) ws) → sound c → sound (with_watchers ws c).
Proof.
  intros Hok Hk [[B1 B2 B3 B4 B5] [K1 K2 K3]]. split; split; try done.
  apply (Forall_impl _ _ _ Hok). by intros w [].
Qed.
Lemma with_watcher_sound k f c : (∀ w, w_replay (f w) = w_replay w ∧ w_from (f w) = w_from w) →
  (∀ w, c_watchers c !! k = Some w → watch_ok c w → watch_ok c (f w)) → sound c → sound (with_watcher k f c).
Proof.
  intros Hf Hok S. pose proof S as [[_ _ _ _ B5] [K1 _ _]]. rewrite Forall_lookup in B5.
  assert (∀ i w', alter f k (c_watchers c) !! i = Some w' → ∃ w, c_watchers c !! i = Some w ∧ (w' = w ∨ i = k ∧ w' = f w)) as Halt.
  { intros i w'. destruct (decide (i = k)) as [->|Hne].
    - rewrite list_lookup_alter_eq. destruct (c_watchers c !! k) as [w|]; [|done]. intros [= <-]. exists w. split; [done|by right].
    - rewrite list_lookup_alter_ne by done. intros Hw. exists w'. split; [done|by left]. }
  apply set_watchers_sound; [| |done].
  - apply Forall_lookup. intros i w' (w & Hw & [->|[-> ->]])%Halt; [by eapply B5|]. by apply Hok, B5 with k.
  - intros id Hd. specialize (K1 id Hd). rewrite Forall_lookup in K1. apply Forall_lookup. intros i w' (w & Hw & [->|[-> ->]])%Halt; [by eapply K1|].
    specialize (K1 _ _ Hw). unfold known, stream in *. by destruct (Hf w) as [-> ->].
Qed.
Lemma replay_sound k c : (∀ w, c_watchers c !! k = Some w → w_result w = None) → sound c → sound (with_watcher k replay_one c).
Proof.
  intros Hres. apply with_watcher_sound; [intros w; unfold replay_one; by destruct (w_initial w)|]. intros w Hw [W1 W2 W3 W4 W5]. specialize (Hres w Hw).
  destruct (W3 Hres) as (P1 & P2 & P3). unfold replay_one. destruct (w_initial w) as [|ev rest] eqn:Ei; [by split; rewrite ?Ei|].
  assert (w_hand w = None) as Eh by by apply W5. unfold to_come in P1, P2. rewrite Eh, Ei in P1, P2. cbn [option_list app] in P1, P2.
  set (w' := mkWatcher _ _ _ _ _ _ _ _ _). assert (w_got w' ++ to_come w' = w_got w ++ ev :: rest ++ w_events w) as Ew
    by (unfold to_come; cbn; rewrite Eh, <- app_assoc; done).
  split; [exact W1| |intros _; rewrite Ew; by split_and!|exact W4|by intros _].
  etransitivity; [|exact P1]. exists (rest ++ w_events w). cbn. by rewrite <- app_assoc.
Qed.
Lemma receive_sound k c : (∀ w, c_watchers c !! k = Some w → w_initial w = [] ∧ w_hand w = None) → sound c → sound (with_watcher k receive_one c).
Proof.
  intros Hres. apply with_watcher_sound; [intros w; unfold receive_one; by destruct (w_events w)|]. intros w Hw [W1 W2 W3 W4 W5]. destruct (Hres w Hw) as [Ei Eh].
  unfold receive_one. destruct (w_events w) as [|ev rest] eqn:Ev; [by split; rewrite ?Ev|]. set (w' := mkWatcher _ _ _ _ _ _ _ _ _).
  assert (to_come w' = to_come w) as Ew by (unfold to_come; cbn; by rewrite Ei, Eh, Ev).
  split; [exact W1|exact W2|by rewrite Ew|exact W4|]. intros Hi. by destruct (Hi Ei).
Qed.
Lemma pass_sound k c : (∀ w, c_watchers c !! k = Some w → w_result w = None) → sound c → sound (with_watcher k pass_one c).
Proof.
  intros Hres. apply with_watcher_sound; [intros w; unfold pass_one; by destruct (w_hand w)|]. intros w Hw [W1 W2 W3 W4 W5]. specialize (Hres w Hw).
  destruct (W3 Hres) as (P1 & P2 & P3). unfold pass_one. destruct (w_hand w) as [ev|] eqn:Eh; [|by split; rewrite ?Eh].
  assert (w_initial w = []) as Ei by (destruct (w_initial w); [done|by specialize (W5 ltac:(done))]).
  unfold to_come in P1, P2. rewrite Eh, Ei in P1, P2. cbn [option_list app] in P1, P2.
  set (w' := mkWatcher _ _ _ _ _ _ _ _ _). assert (w_got w' ++ to_come w' = w_got w ++ ev :: w_events w) as Ew
    by (unfold to_come; cbn; rewrite Ei, <- app_assoc; done).
  split; [exact W1| |intros _; rewrite Ew; by split_and!|exact W4|done].
  etransitivity; [|exact P1]. exists (w_events w). cbn. by rewrite <- app_assoc.
Qed.
Lemma end_sound k e c : sound c → sound (with_watcher k (end_watch e) c).
Proof. apply with_watcher_sound; [done|]. intros w Hw [W1 W2 W3 W4 W5]. by split. Qed.
Lemma unlist_sound k e c : (∀ w, c_watchers c !! k = Some w → w_result w = Some e) → sound c → sound (with_watcher k unlist c).
Proof.
  intros Hres. apply with_watcher_sound; [done|]. intros w Hw [W1 W2 W3 W4 W5]. specialize (Hres w Hw). split; [exact W1|exact W2|cbn; congruence|done|exact W5].
Qed.
Lemma last_all_equal {A} (x : A) l : l ≠ [] → Forall (eq x) l → last l = Some x.
Proof.
  intros Hne Hl. destruct l as [|y l _] using rev_ind; [done|]. rewrite last_snoc. apply Forall_app in Hl as [_ Hl]. by inversion Hl; subst.
Qed.
(** A new watcher is told the state of every connection, and every tombstone. *)
Lemma watch_sound ids tombs c : ids ≡ₚ elements (c_connections c) → tombs ≡ₚ removed_ids (foldl read_metadata c ids) →
  good c → sound c → sound (WatchConnectionMetadata ids tombs c).
Proof.
  intros Hids Htombs G S. unfold WatchConnectionMetadata. set (d := foldl read_metadata c ids) in *.
  assert (rtc micro c d ∧ good d) as [Hm [Id _]].
  { split; [|by apply (foldl_inv _ good); [intros ? ? _; apply read_good|]].
    apply (foldl_micro _ (λ d, c_connections d = c_connections c)); [|done]. intros d' id Hin Ed. rewrite Hids, elem_of_elements, <- Ed in Hin. split.
    - by apply rtc_once, read_micro.
    - unfold read_metadata. destruct (_ =? _); [by rewrite publish_connections|done]. }
  destruct (micros_sound c d (inv_ids _ (proj1 G)) Hm S) as [Sd Ed].
  assert (∀ id, id ∈ ids ↔ id ∈ c_connections d) as Hi by (intros id; by rewrite Hids, elem_of_elements, Ed).
  assert (∀ id, id ∈ tombs ↔ st_removed (state_of id d) = true) as Ht.
  { intros id. rewrite Htombs. unfold removed_ids. rewrite list_elem_of_fmap. split.
    - intros ([id' m] & -> & Hp). apply list_elem_of_filter in Hp as [Hr Hp]. apply elem_of_map_to_list in Hp. cbn [fst]. by rewrite (state_of_default _ _ _ Hp).
    - intros Hr. unfold state_of in Hr. destruct (c_states d !! id) as [m|] eqn:Em; [|done]. exists (id, m). split; [done|].
      apply list_elem_of_filter. split; [done|]. by apply elem_of_map_to_list. }
  set (replay := map _ ids ++ map _ tombs). pose proof Sd as [B [K1 K2 K3]]. set (w := mkWatcher [] false true replay None [] None replay (length (c_history d))).
  assert (stream d w = replay) as Es by (unfold stream; cbn; by rewrite drop_all, app_nil_r).
  assert (∀ id, ms_ConnectionID (st_snapshot (state_of id d)) = id) as Hid by (intros id; apply (inv_state _ Id)).
  apply set_watchers_sound; [| |done].
  - apply Forall_app. split; [apply B|]. constructor; [|done]. split; rewrite ?Es; try done; [by apply prefix_nil|]. intros _. unfold to_come. cbn. by rewrite app_nil_r.
  - intros id Hd. apply Forall_app. split; [by apply K1|]. constructor; [|done]. unfold known. rewrite Es. apply last_all_equal.
    + intros E. assert (current d id ∈ filter (about id) replay) as Hin; [|by rewrite E in Hin; apply not_elem_of_nil in Hin].
      apply list_elem_of_filter. split; [apply Hid|]. unfold replay. rewrite elem_of_app, !list_elem_of_fmap. destruct Hd as [Hd|Hd].
      * left. exists id. rewrite Hi. split; [|done]. unfold current. by rewrite (K3 id Hd).
      * right. exists id. rewrite Ht. split; [|done]. unfold current. by rewrite Hd.
    + apply Forall_forall. intros ev. rewrite list_elem_of_filter. unfold replay. rewrite elem_of_app, !list_elem_of_fmap.
      intros [Hab [(id' & -> & Hin)|(id' & -> & Hin)]]; unfold about in Hab; cbn in Hab; rewrite Hid in Hab; subst id'; unfold current.
      * rewrite Hi in Hin. by rewrite (K3 id Hin).
      * rewrite Ht in Hin. by rewrite Hin.
Qed.

(** *** Steps *)

Lemma micro_step c c' : good c → sound c → rtc micro c c' → sound c'.
Proof. intros [I _] S Hm. by apply (micros_sound c c' (inv_ids _ I) Hm S). Qed.
Lemma stage_sound changed next c : sound c → (∀ id, id ∈ c_connections c → id_admitted id) → sound (stageInventory changed next c).
Proof.
  intros S Hadm. unfold stageInventory. rewrite stage_all_inventory. destruct (micros_sound c (foldl stage_one c changed)) as [Sd Ed]; [done| |done|].
  - apply (foldl_micro _ (λ _, True)); [|done]. intros d id _ _. split; [apply stage_one_micro|done].
  - by apply (same_sound (foldl stage_one c changed)).
Qed.
Lemma close_sound slots c : good c → sound c → sound (Close slots c).
Proof.
  intros G S. unfold Close. rewrite stop_all_inventory. set (d := foldl _ c slots).
  destruct (micros_sound c d (inv_ids _ (proj1 G))) as [Sd Ed]; [|done|by apply (same_sound d)].
  apply (foldl_micro _ good); [|done]. intros e n _ Ge. split; [by apply stop_slot_micro; destruct Ge|by apply stop_slot_good].
Qed.
Lemma step_sound c c' : step c c' → good c → sound c → sound c'.
Proof.
  intros Hstep G S. pose proof G as [I Ho]. destruct Hstep.
  - by apply (same_sound c).
  - apply (micro_step c); [done..|by apply admit_micro].
  - by apply (same_sound c).
  - apply (micro_step c); [done..|by apply stop_slot_micro].
  - by apply (same_sound c).
  - unfold remove_slot. case_bool_decide; by apply (same_sound c).
  - apply stage_sound; [done|apply I].
  - by apply (commit_sound ok _ next).
  - by apply close_sound.
  - match goal with E : GetConnectionMetadata _ _ = _ |- _ => rename E into HE end. unfold GetConnectionMetadata in HE.
    rewrite !bind_guard_iff in HE. destruct HE as (Hin%negb_false_iff%bool_decide_eq_true & _ & [= <- _]).
    apply (micro_step c); [done..|]. by apply rtc_once, read_micro.
  - match goal with E : RefreshConnectionMetadata _ _ = _ |- _ => rename E into HE end. unfold RefreshConnectionMetadata in HE.
    apply bind_ok in HE as (n & Hn & HE). apply bind_guard_iff in HE as [_ [= <-]]. apply observable_slot in Hn.
    apply (micro_step c); [done..|]. apply acquire_micro; [by apply (slot_connected c id n)|]. by rewrite (si_active _ _ _ (inv_state _ I id)), Hn.
  - match goal with E : InvalidateConnectionMetadata _ _ = _ |- _ => rename E into HE end. unfold InvalidateConnectionMetadata in HE.
    apply bind_ok in HE as (n & Hn & [= <-]). apply observable_slot in Hn. apply (micro_step c); [done..|].
    destruct (st_running _); [by apply rtc_once, micro_put|].
    apply acquire_micro; [by apply (slot_connected c id n)|]. by rewrite (si_active _ _ _ (inv_state _ I id)), Hn.
  - apply (micro_step c); [done..|by apply observe_micro].
  - by apply (same_sound c).
  - by apply watch_sound.
  - apply replay_sound; [congruence|done].
  - apply receive_sound; [|done]. intros w' Hw'. naive_solver.
  - apply pass_sound; [congruence|done].
  - by apply end_sound.
  - by apply end_sound.
  - apply (unlist_sound k e); [congruence|done].
Qed.
Lemma new_sound : sound NewCoordinator.
Proof.
  assert (∀ id, state_of id NewCoordinator = mkState (empty_snapshot id "") 0 None None false false) as E by done.
  split; split; try done; try (by constructor).
  intros id Hid. rewrite E. by apply empty_fits.
Qed.
Lemma reachable_sound c : reachable c → good c ∧ sound c.
Proof.
  intros Hr. refine (rtc_ind_r (λ c, good c ∧ sound c) NewCoordinator (conj new_good new_sound) _ c Hr).
  intros a b _ Hs [G S]. split; [by apply (step_good a)|by apply (step_sound a)].
Qed.

(** C33: Every snapshot the coordinator publishes passes
    ValidateConnectionMetadataSnapshot whatever the order of its entries, also those
    it makes itself when a generation stops, starts, refreshes or fails: the 512
    bytes that admission reserves are enough, for any of the first 2^64 events. A
    removal event carries no live state, and the revisions of a connection count
    its events from 1. *)
Theorem metadata_published_valid c i ev : reachable c → c_history c !! i = Some ev → Z.of_nat (length (c_history c)) < 2 ^ 64 →
  (∀ l, l ≡ₚ map_to_list (entries_of (mv_Snapshot ev)) → ValidateConnectionMetadataSnapshot (mv_Snapshot ev) l = Ok tt)
  ∧ (mv_Removed ev = true → tombstone (mv_Snapshot ev))
  ∧ ms_Revision (mv_Snapshot ev) = format_uint (count_of (ms_ConnectionID (mv_Snapshot ev)) (take (S i) (c_history c))).
Proof.
  intros [_ [B _]]%reachable_sound Hi Hlen. pose proof (pb_history _ B) as Hh. rewrite Forall_lookup in Hh.
  destruct (Hh i ev Hi) as (id & Hid & Hf & Ht). pose proof (pb_revisions _ B i ev Hi) as Hrev.
  set (n := count_of (ms_ConnectionID (mv_Snapshot ev)) (take (S i) (c_history c))) in *.
  assert (1 ≤ n < 2 ^ 64) as Hn.
  { split.
    - unfold n. rewrite (take_S_r _ _ _ Hi), count_of_app, count_of_one, decide_True by done. unfold count_of. lia.
    - eapply Z.le_lt_trans; [|exact Hlen]. unfold n, count_of. apply Nat2Z.inj_le. etransitivity; [apply length_filter|]. rewrite length_take. lia. }
  rewrite Z.mod_small in Hrev by lia. destruct (revision_fits n Hn) as (R1 & R2 & R3). split_and!; [|done|done].
  intros l Hl. apply (fits_valid id); rewrite ?Hrev; done.
Qed.

(** C32: A watcher receives, in order and without a gap, the snapshots of the
    connections and the tombstones it subscribed to and then every event published
    since, until it is told to resynchronise because it fell more than 64 events
    behind; and the last event about a connection in that sequence is always the
    connection's present state, so a watcher that has caught up knows it. *)
Theorem metadata_watch_faithful c k w : reachable c → c_watchers c !! k = Some w →
  w_got w `prefix_of` stream c w
  ∧ (w_result w = None → w_overflow w = false → w_got w ++ to_come w = stream c w)
  ∧ ∀ id, id ∈ c_connections c ∨ st_removed (state_of id c) = true → last (filter (about id) (stream c w)) = Some (current c id).
Proof.
  intros [_ [B [K1 _ _]]]%reachable_sound Hw. pose proof (pb_watchers _ B) as Hok. rewrite Forall_lookup in Hok. destruct (Hok k w Hw) as [W1 W2 W3 W4 W5].
  split_and!; [done| |].
  - intros Hr Ho. destruct (W3 Hr) as (_ & P2 & P3). apply P2. destruct (w_listed w); [done|]. specialize (P3 eq_refl). congruence.
  - intros id Hd. specialize (K1 id Hd). rewrite Forall_lookup in K1. exact (K1 k w Hw).
Qed.
End watching.

(** ** A run with a watcher *)

Definition last_event (c : coordinator) : ConnectionMetadataEvent := default (current c "a") (last (c_history c)).
Lemma metadata_published_valid_witness : let ev := last_event admitted_run in
  @reachable sample_deep_equal admitted_run ∧ c_history admitted_run !! 2%nat = Some ev ∧ Z.of_nat (length (c_history admitted_run)) < 2 ^ 64
  ∧ ValidateConnectionMetadataSnapshot (mv_Snapshot ev) [] = Ok tt ∧ ms_Revision (mv_Snapshot ev) = "3".
Proof.
  assert (c_history admitted_run !! 2%nat = Some (last_event admitted_run)) as Hi by (vm_compute; reflexivity).
  assert (Z.of_nat (length (c_history admitted_run)) < 2 ^ 64) as Hl by (vm_compute; reflexivity).
  assert (map_to_list (entries_of (mv_Snapshot (last_event admitted_run))) = []) as El by (vm_compute; reflexivity).
  pose proof (@metadata_published_valid sample_deep_equal admitted_run 2 _ admitted_reachable Hi Hl) as (H1 & _ & H3).
  cbv zeta. split; [exact admitted_reachable|]. split; [exact Hi|]. split; [exact Hl|]. split; [apply H1; by rewrite El|].
  rewrite H3. vm_compute. reflexivity.
Defined.

Definition subscribed_run : coordinator := @WatchConnectionMetadata sample_deep_equal ["a"] [] listed_run.
Definition busy_run : coordinator := @metadataAdmitLocked sample_deep_equal 0 (startSlotLocked "a" (EncodeToString sample_nonce) subscribed_run).
Definition served_run : coordinator := with_watcher 0 pass_one (with_watcher 0 receive_one (with_watcher 0 replay_one busy_run)).
Definition watcher_of (c : coordinator) : metadataWatcher := default (mkWatcher [] false true [] None [] None [] 0) (c_watchers c !! 0%nat).
Lemma served_reachable : @reachable sample_deep_equal served_run.
Proof.
  unfold reachable. transitivity listed_run; [apply listed_reachable|].
  apply (rtc_l _ _ subscribed_run); [apply (step_watch _ ["a"] []); [done|done|vm_compute; reflexivity]|].
  eapply rtc_l; [apply (step_start _ "a" (EncodeToString sample_nonce)); [done|vm_compute; set_solver|vm_compute; set_solver|done|by exists sample_nonce]|].
  apply (rtc_l _ _ busy_run); [apply (step_admit _ 0)|].
  eapply rtc_l; [apply (step_replay _ 0 (watcher_of busy_run)); vm_compute; [reflexivity|reflexivity|discriminate]|].
  eapply rtc_l; [eapply (step_receive _ 0); [vm_compute; reflexivity..]|].
  apply rtc_once. eapply (step_pass _ 0); [vm_compute; reflexivity..].
Qed.
Lemma metadata_watch_faithful_witness : @reachable sample_deep_equal served_run ∧ c_watchers served_run !! 0%nat = Some (watcher_of served_run)
  ∧ length (w_got (watcher_of served_run)) = 2%nat
  ∧ w_got (watcher_of served_run) ++ to_come (watcher_of served_run) = stream served_run (watcher_of served_run).
Proof.
  assert (c_watchers served_run !! 0%nat = Some (watcher_of served_run)) as Hw by (vm_compute; reflexivity).
  split; [exact served_reachable|]. split; [exact Hw|]. split; [vm_compute; reflexivity|].
  apply (proj1 (proj2 (@metadata_watch_faithful sample_deep_equal served_run 0 _ served_reachable Hw))); vm_compute; reflexivity.
Defined.
