(* ===== verification/NetSession.v ===== *)
(** * Port-forward sessions (pkg/v1/networker/session.go, errors.go,
    resource_connection.go)

    Targets, sessions and options with every field of the Go structs, the session
    state machine, the validators that bind a resource target to its options, and
    the conversions to and from the messages of proto/v1/networker. *)
From S2P Require Import Prelude GoStd GoTime Errors Values Proto Json TaggedJson Budget Domain Validation Source Adapters Messages.
Local Open Scope Z_scope.

(** ** States *)

Definition SessionStateActive := "ACTIVE".
Definition SessionStatePaused := "PAUSED".
Definition SessionStateStopped := "STOPPED".
Definition SessionStateFailed := "FAILED".
Definition session_states : list string :=
  [SessionStateActive; SessionStatePaused; SessionStateStopped; SessionStateFailed].

Definition CanTransition (from to : string) : bool :=
  if bool_decide (from = SessionStateActive) then
    bool_decide (to = SessionStatePaused) || bool_decide (to = SessionStateStopped) || bool_decide (to = SessionStateFailed)
  else if bool_decide (from = SessionStatePaused) then
    bool_decide (to = SessionStateActive) || bool_decide (to = SessionStateStopped) || bool_decide (to = SessionStateFailed)
  else false.

Definition SessionState_ToProto (s : string) : Z :=
  if bool_decide (s = SessionStateActive) then 0
  else if bool_decide (s = SessionStatePaused) then 1
  else if bool_decide (s = SessionStateStopped) then 2
  else if bool_decide (s = SessionStateFailed) then 3
  else 2.
Definition sessionStateFromProto (p : Z) : string :=
  if p =? 0 then SessionStateActive
  else if p =? 1 then SessionStatePaused
  else if p =? 2 then SessionStateStopped
  else if p =? 3 then SessionStateFailed
  else SessionStateStopped.

Definition PortForwardProtocolTCP := "TCP".
Definition PortForwardProtocolUDP := "UDP".
Definition protocol_Valid (p : string) : bool :=
  bool_decide (p = PortForwardProtocolTCP) || bool_decide (p = PortForwardProtocolUDP).
(** An [int32] enum; unknown protocols are [-1]. *)
Definition protocol_ToProto (p : string) : Z :=
  if bool_decide (p = PortForwardProtocolTCP) then 0
  else if bool_decide (p = PortForwardProtocolUDP) then 1
  else -1.
Definition PortForwardProtocolFromProto (p : Z) : string :=
  if p =? 0 then PortForwardProtocolTCP else if p =? 1 then PortForwardProtocolUDP else "".

Definition PortForwardConnectionTypeResource := "RESOURCE".
Definition PortForwardConnectionTypeStatic := "STATIC".

(** ** Targets *)

Record PortForwardResourceConnection := mkResourceConnection {
  ResourceData : option Value; pr_Reference : option ResourceReference; pr_Route : option AccessRoute;
  ConnectionID : string; PluginID : string; ResourceID : string; ResourceKey : string
}.
Record PortForwardStaticConnection := mkStaticConnection { Address : string }.

(** The sealed interface: a value or a pointer of either type, or nil. *)
Inductive Target :=
| NoTarget
| ResourceTarget (c : PortForwardResourceConnection)
| ResourcePointer (c : option PortForwardResourceConnection)
| StaticTarget (c : PortForwardStaticConnection)
| StaticPointer (c : option PortForwardStaticConnection).

Record PortForwardSessionEncryption := mkEncryption { en_Algorithm : string; en_Key : string; en_Enabled : bool }.

Record PortForwardSession := mkSession {
  CreatedAt : NativeTime; UpdatedAt : NativeTime; ps_Connection : Target;
  ps_Labels : list (string * string); ps_ID : string; ps_Protocol : string; State : string;
  ps_ConnectionType : string; ps_Encryption : PortForwardSessionEncryption; ps_LocalPort : Z; ps_RemotePort : Z
}.
Record PortForwardSessionOptions := mkOptions {
  po_Connection : Target; po_Labels : list (string * string); po_Params : list (string * string);
  po_Protocol : string; po_ConnectionType : string; po_Encryption : PortForwardSessionEncryption;
  po_LocalPort : Z; po_RemotePort : Z
}.
Record FindPortForwardSessionRequest := mkFind { fr_ResourceID : string; fr_ConnectionID : string }.

(** Deep copies are the value itself; a pointer to nothing clones to nil. *)
Definition cloneConnection (c : Target) : Target :=
  match c with ResourcePointer None | StaticPointer None => NoTarget | c => c end.

Definition resourceConnection (c : Target) : option PortForwardResourceConnection :=
  match c with ResourceTarget c | ResourcePointer (Some c) => Some c | _ => None end.

(** *** Reflected views, as declared *)

#[export] Instance reflect_ResourceConnection : Reflect PortForwardResourceConnection := λ c,
  RStruct [omitted (ResourceData c); omitted (pr_Reference c); omitted (pr_Route c); field (ConnectionID c);
           field (PluginID c); field (ResourceID c); field (ResourceKey c)].
#[export] Instance reflect_StaticConnection : Reflect PortForwardStaticConnection := λ c, RStruct [field (Address c)].
#[export] Instance reflect_Target : Reflect Target := λ c,
  match c with
  | NoTarget => RNil
  | ResourceTarget c => RRef (reflect c)
  | ResourcePointer c => RRef (reflect c)
  | StaticTarget c => RRef (reflect c)
  | StaticPointer c => RRef (reflect c)
  end.
#[export] Instance reflect_Encryption : Reflect PortForwardSessionEncryption := λ e,
  RStruct [field (en_Algorithm e); field (en_Key e); field (en_Enabled e)].
#[export] Instance reflect_PortForwardSession : Reflect PortForwardSession := λ s,
  RStruct [field (CreatedAt s); field (UpdatedAt s); field (ps_Connection s); (false, reflect_map (ps_Labels s));
           field (ps_ID s); field (ps_Protocol s); field (State s); field (ps_ConnectionType s); field (ps_Encryption s);
           (false, reflect_uint (ps_LocalPort s)); (false, reflect_uint (ps_RemotePort s))].
#[export] Instance reflect_PortForwardSessionOptions : Reflect PortForwardSessionOptions := λ o,
  RStruct [field (po_Connection o); (false, reflect_map (po_Labels o)); (false, reflect_map (po_Params o));
           field (po_Protocol o); field (po_ConnectionType o); field (po_Encryption o);
           (false, reflect_uint (po_LocalPort o)); (false, reflect_uint (po_RemotePort o))].

(** ** Validation *)

Section validation.
Context `{Protowire, ProtoRuntime}.

Definition without_data (c : PortForwardResourceConnection) : PortForwardResourceConnection :=
  mkResourceConnection None (pr_Reference c) (pr_Route c) (ConnectionID c) (PluginID c) (ResourceID c) (ResourceKey c).

(** [a != "" && a != b] *)
Definition conflicts (a b : string) : bool := negb (bool_decide (a = "")) && negb (bool_decide (a = b)).

Definition validateResourceConnection (c : PortForwardResourceConnection) : outcome unit :=
  ValidateMetadata (without_data c) ;;
  match pr_Reference c with
  | Some r =>
    ToProtoResourceReference r ;;
    require (negb (conflicts (PluginID c) (a_Provider (r_Address r))))
      (NewError "INVALID_REQUEST" "Resource provider conflicts with reference.") ;;
    require (negb (conflicts (ResourceKey c) (a_Type (r_Address r))))
      (NewError "INVALID_REQUEST" "Resource type conflicts with reference.")
  | None => Some (Ok tt)
  end ;;
  match pr_Route c with
  | Some r =>
    ToProtoAccessRoute r ;;
    require (negb (conflicts (ConnectionID c) (Connection r)))
      (NewError "INVALID_REQUEST" "Resource connection conflicts with route.")
  | None => Some (Ok tt)
  end ;;
  match ResourceData c with Some v => ValidateValue v | None => Some (Ok tt) end.

Definition with_target (o : PortForwardSessionOptions) (c : Target) : PortForwardSessionOptions :=
  mkOptions c (po_Labels o) (po_Params o) (po_Protocol o) (po_ConnectionType o) (po_Encryption o)
    (po_LocalPort o) (po_RemotePort o).
Definition with_connection (s : PortForwardSession) (c : Target) : PortForwardSession :=
  mkSession (CreatedAt s) (UpdatedAt s) c (ps_Labels s) (ps_ID s) (ps_Protocol s) (State s) (ps_ConnectionType s)
    (ps_Encryption s) (ps_LocalPort s) (ps_RemotePort s).

Definition resource_options (o : PortForwardSessionOptions) (c : PortForwardResourceConnection) : outcome unit :=
  require (bool_decide (po_ConnectionType o = PortForwardConnectionTypeResource))
    (NewError "INVALID_REQUEST" "Resource connection requires RESOURCE type.") ;;
  validateResourceConnection c.
Definition validateOptionMetadata (o : PortForwardSessionOptions) : outcome unit :=
  ValidateMetadata (with_target o NoTarget) ;;
  match po_Connection o with
  | ResourceTarget c | ResourcePointer (Some c) => resource_options o c
  | ResourcePointer None => fails (NewError "INVALID_REQUEST" "Resource connection must not be nil.")
  | _ =>
    require (negb (bool_decide (po_ConnectionType o = PortForwardConnectionTypeResource)))
      (NewError "INVALID_REQUEST" "RESOURCE type requires resource connection.")
  end.

(** [selected] is the ID of the configured connection the context carries. *)
Definition validateResourceContext (selected : option string) (o : PortForwardSessionOptions) : outcome unit :=
  validateOptionMetadata o ;;
  match resourceConnection (po_Connection o) with
  | None => fails (NewError "INVALID_REQUEST" "Resource connection required.")
  | Some c =>
    require (negb match selected, pr_Route c with
                  | Some id, Some r => negb (bool_decide (Connection r = id))
                  | _, _ => false
                  end)
      (NewError "INVALID_REQUEST" "Resource route conflicts with trusted connection.")
  end.

Definition validateResourceSession (s : PortForwardSession) : outcome unit :=
  match resourceConnection (ps_Connection s) with
  | None => Some (Ok tt)
  | Some _ =>
    require (bool_decide (ps_ConnectionType s = PortForwardConnectionTypeResource) && protocol_Valid (ps_Protocol s))
      (NewError "INVALID_REQUEST" "Invalid resource session type or protocol.") ;;
    require (bool_decide (State s ∈ session_states)) (NewError "INVALID_REQUEST" "Invalid resource session state.")
  end.

Definition validateFrame (m : message) : outcome unit :=
  require (proto_Size (pmsg m) <=? MaxMessageBytes)
    (NewError "RESOURCE_LIMIT" "Port forward frame exceeds wire limit.").
End validation.

(** ** Conversions *)

Definition resourceWireVersion : Z := 2.
Definition resourceDataField : Z := 6.
Definition sessionResourceField : Z := 20.
Definition optionsResourceField : Z := 10.

Section codecs.
Context `{Protowire, ProtoRuntime, Timestamppb}.

Definition encryption_message (e : PortForwardSessionEncryption) : message :=
  put_bool 1 (en_Enabled e) ++ put_string 2 (en_Algorithm e) ++ put_string 3 (en_Key e).
Definition PortForwardSessionEncryptionFromProto (p : option message) : PortForwardSessionEncryption :=
  match p with
  | None => mkEncryption "" "" false
  | Some p => mkEncryption (get_string 2 p) (get_string 3 p) (negb (get_uint 1 p =? 0))
  end.
Definition static_message (c : PortForwardStaticConnection) : message := put_string 1 (Address c).
Definition PortForwardStaticConnectionFromProto (p : option message) : PortForwardStaticConnection :=
  mkStaticConnection match p with None => "" | Some p => get_string 1 p end.

Definition connection_message (c : PortForwardResourceConnection) (data reference route : option message) : message :=
  put_string 1 (ConnectionID c) ++ put_string 2 (PluginID c) ++ put_string 3 (ResourceID c) ++ put_string 4 (ResourceKey c)
  ++ put_some 6 data ++ put_uint 7 resourceWireVersion ++ put_some 8 reference ++ put_some 9 route.

Definition data_bytes (o : option Value) : outcome Z := body_bytes resourceDataField o.

(** [PortForwardResourceConnection.ToProto] *)
Definition ResourceConnection_ToProto (c : option PortForwardResourceConnection) : outcome message :=
  match c with
  | None => fails (NewError "INVALID_REQUEST" "Resource connection must not be nil.")
  | Some c =>
    validateResourceConnection c ;;
    reference ← encode_optional ToProtoResourceReference (pr_Reference c);
    route ← encode_optional ToProtoAccessRoute (pr_Route c);
    extra ← data_bytes (ResourceData c);
    require (proto_Size (pmsg (connection_message c None reference route)) + extra <=? MaxMessageBytes)
      (NewError "RESOURCE_LIMIT" "Resource connection exceeds frame limit.") ;;
    data ← encode_optional ToProtoValue (ResourceData c);
    Some (Ok (connection_message c data reference route))
  end.

Definition resourceConnectionWireSize (c : PortForwardResourceConnection) : outcome Z :=
  wire ← ResourceConnection_ToProto (Some (without_data c));
  extra ← data_bytes (ResourceData c);
  Some (Ok (proto_Size (pmsg wire) + extra)).

Definition preflightResource (parent : message) (number : Z) (c : Target) : outcome unit :=
  match resourceConnection c with
  | None => validateFrame parent
  | Some c =>
    size ← resourceConnectionWireSize c;
    require (proto_Size (pmsg parent) + SizeTag number + SizeBytes size <=? MaxMessageBytes)
      (NewError "RESOURCE_LIMIT" "Port forward frame exceeds wire limit.")
  end.

(** The connection oneof; a nil static pointer leaves it unset. *)
Definition target_message (resourceField staticField : Z) (c : Target) : outcome message :=
  match c with
  | NoTarget | StaticPointer None => Some (Ok [])
  | ResourceTarget c => m ← ResourceConnection_ToProto (Some c); Some (Ok (put_message resourceField m))
  | ResourcePointer c => m ← ResourceConnection_ToProto c; Some (Ok (put_message resourceField m))
  | StaticTarget c | StaticPointer (Some c) => Some (Ok (put_message staticField (static_message c)))
  end.

Definition session_message (s : PortForwardSession) : message :=
  put_string 1 (ps_ID s) ++ put_int32 2 (ps_LocalPort s) ++ put_int32 3 (ps_RemotePort s)
  ++ put_int32 4 (protocol_ToProto (ps_Protocol s)) ++ put_message 5 (pb_New (nt_UTC (CreatedAt s)))
  ++ put_message 6 (pb_New (nt_UTC (UpdatedAt s))) ++ put_map 7 (ps_Labels s)
  ++ put_int32 8 (SessionState_ToProto (State s)) ++ put_message 9 (encryption_message (ps_Encryption s)).

(** [PortForwardSession.ToProto] *)
Definition Session_ToProto (s : option PortForwardSession) : outcome (option message) :=
  match s with
  | None => Some (Ok None)
  | Some s =>
    validateResourceSession s ;;
    ValidateMetadata (with_connection s NoTarget) ;;
    let m := session_message s in
    match resourceConnection (ps_Connection s) with
    | Some _ => check_valid (pb_New (nt_UTC (CreatedAt s))) ;; check_valid (pb_New (nt_UTC (UpdatedAt s)))
    | None => Some (Ok tt)
    end ;;
    preflightResource m sessionResourceField (ps_Connection s) ;;
    connection ← target_message sessionResourceField 21 (ps_Connection s);
    let m := m ++ connection in
    validateFrame m ;; Some (Ok (Some m))
  end.

(** [PortForwardResourceConnectionFromProto] *)
Definition decode_connection (p : option pvalue) : outcome PortForwardResourceConnection :=
  match p with
  | Some (PMsg u o) =>
    require (proto_Size (PMsg u o) <=? MaxMessageBytes)
      (NewError "RESOURCE_LIMIT" "Port forward frame exceeds wire limit.") ;;
    require (get_uint 7 o =? resourceWireVersion) (NewError "UNSUPPORTED" "Resource wire version 2 is required.") ;;
    require (length u =? 0)%nat (NewError "UNSUPPORTED" "Unknown resource connection fields.") ;;
    reference ← encode_optional (λ p, FromProtoResourceReference (Some p)) (get_embedded 8 o);
    route ← encode_optional (λ p, FromProtoAccessRoute (Some p)) (get_embedded 9 o);
    let out := mkResourceConnection None reference route (get_string 1 o) (get_string 2 o) (get_string 3 o) (get_string 4 o) in
    validateResourceConnection out ;;
    data ← encode_optional (λ p, FromProtoValue (Some p)) (get_embedded 6 o);
    let out := mkResourceConnection data reference route (get_string 1 o) (get_string 2 o) (get_string 3 o) (get_string 4 o) in
    validateResourceConnection out ;; Some (Ok out)
  | _ => fails (NewError "INVALID_REQUEST" "Resource connection must not be nil.")
  end.

Definition resourceInvalidResponse : error :=
  NewError "INVALID_REQUEST" "Resource forwarding returned no resource session.".

Definition require_time (m : option message) : outcome unit :=
  match m with None => fails resourceInvalidResponse | Some m => check_valid m end.

(** The target and its type in the fields of the oneof. *)
Definition decode_target (resourceField staticField : Z) (m : message) : outcome (Target * string) :=
  match oneof [resourceField; staticField] m with
  | Some (n, v) =>
    if n =? resourceField then
      c ← decode_connection (Some v); Some (Ok (ResourceTarget c, PortForwardConnectionTypeResource))
    else Some (Ok (StaticTarget (PortForwardStaticConnectionFromProto (as_message [v])), PortForwardConnectionTypeStatic))
  | None => Some (Ok (NoTarget, ""))
  end.

(** [NewPortForwardSessionFromProto] *)
Definition NewPortForwardSessionFromProto (p : option message) : outcome (option PortForwardSession) :=
  match p with
  | None => Some (Ok None)
  | Some s =>
    validateFrame s ;;
    let encryption := PortForwardSessionEncryptionFromProto (get_message 9 s) in
    ValidateMetadata (mkSession zero_native zero_native NoTarget (get_map 7 s) (get_string 1 s) "" "" "" encryption
                        (get_int32 2 s) (get_int32 3 s)) ;;
    match get_message sessionResourceField s with
    | Some _ =>
      require (protocol_Valid (PortForwardProtocolFromProto (get_int32 4 s)) && (0 <=? get_int32 8 s) && (get_int32 8 s <=? 3))
        resourceInvalidResponse ;;
      require (negb (bool_decide (get_message 5 s = None)) && negb (bool_decide (get_message 6 s = None)))
        resourceInvalidResponse ;;
      require_time (get_message 5 s) ;; require_time (get_message 6 s)
    | None => Some (Ok tt)
    end ;;
    '(connection, type) ← decode_target sessionResourceField 21 s;
    Some (Ok (Some (mkSession (as_time (get_message 5 s)) (as_time (get_message 6 s)) connection (get_map 7 s) (get_string 1 s)
                      (PortForwardProtocolFromProto (get_int32 4 s)) (sessionStateFromProto (get_int32 8 s)) type encryption
                      (get_int32 2 s) (get_int32 3 s))))
  end.

Definition options_message (o : PortForwardSessionOptions) : message :=
  put_int32 1 (po_LocalPort o) ++ put_int32 2 (po_RemotePort o) ++ put_int32 3 (protocol_ToProto (po_Protocol o))
  ++ put_map 4 (po_Labels o) ++ put_map 5 (po_Params o) ++ put_message 6 (encryption_message (po_Encryption o)).

(** [PortForwardSessionOptions.ToProto] *)
Definition Options_ToProto (o : option PortForwardSessionOptions) : outcome message :=
  match o with
  | None => fails (NewError "INVALID_REQUEST" "Session options must not be nil.")
  | Some o =>
    validateOptionMetadata o ;;
    preflightResource (options_message o) optionsResourceField (po_Connection o) ;;
    connection ← target_message optionsResourceField 11 (po_Connection o);
    let m := options_message o ++ connection in
    validateFrame m ;; Some (Ok m)
  end.

Definition NewPortForwardSessionOptionsFromProto (p : option message) : outcome PortForwardSessionOptions :=
  match p with
  | None => fails (NewError "INVALID_REQUEST" "Session options must not be nil.")
  | Some o =>
    validateFrame o ;;
    let decoded c t := mkOptions c (get_map 4 o) (get_map 5 o) (PortForwardProtocolFromProto (get_int32 3 o)) t
                         (PortForwardSessionEncryptionFromProto (get_message 6 o)) (get_int32 1 o) (get_int32 2 o) in
    ValidateMetadata (decoded NoTarget "") ;;
    '(connection, type) ← decode_target optionsResourceField 11 o;
    validateOptionMetadata (decoded connection type) ;; Some (Ok (decoded connection type))
  end.

(** [preflightSessions]: the running size of a response that holds the sessions,
    whose tagged data is measured and never encoded. *)
Definition session_bytes (s : PortForwardSession) : outcome Z :=
  body ← match resourceConnection (ps_Connection s) with Some c => data_bytes (ResourceData c) | None => Some (Ok 0) end;
  let metadata := match resourceConnection (ps_Connection s) with
                  | Some c => with_connection s (ResourceTarget (without_data c))
                  | None => s
                  end in
  wire ← Session_ToProto (Some metadata);
  let wire := default [] wire in
  let sessionBytes := proto_Size (pmsg wire) in
  Some (Ok match get_message sessionResourceField wire with
           | Some c => sessionBytes + (SizeBytes (proto_Size (pmsg c) + body) - SizeBytes (proto_Size (pmsg c)))
           | None => sessionBytes
           end).
Fixpoint preflight_loop (number size : Z) (l : list (option PortForwardSession)) : outcome unit :=
  match l with
  | [] => Some (Ok tt)
  | None :: l => preflight_loop number size l
  | Some s :: l =>
    n ← session_bytes s;
    let size := size + SizeTag number + SizeBytes n in
    require (size <=? MaxMessageBytes) (NewError "RESOURCE_LIMIT" "Port forward response exceeds wire limit.") ;;
    preflight_loop number size l
  end.
Definition preflightSessions (l : list (option PortForwardSession)) (resourceResponse : bool) : outcome unit :=
  if resourceResponse then preflight_loop 2 2 l else preflight_loop 1 0 l.
End codecs.
