(* ===== verification/Networker.v ===== *)
(** * The port-forward manager (pkg/v1/networker/manager.go, errors.go)

    Tunnels are created, watched, closed and swept concurrently. Each definition
    is one critical section of the code or one stretch between two waits, and the
    step relation interleaves them in any order; forwarders, requests, listeners
    and clocks answer anything at any time. A tunnel is addressed by its index in
    the list of all tunnels ever begun, which plays the part of the
    [*sessionEntry] pointer, and keeps the contexts of its creation. *)
From S2P Require Import Prelude GoStd GoTime GoFmt Errors Values Proto Json TaggedJson Budget Domain Validation Source Adapters Messages NetSession.
From stdpp Require Import relations.
Local Open Scope nat_scope.

(** ** Errors *)

Inductive NetworkerErrorCode :=
| ErrCodeSessionNotFound | ErrCodeNoHandlerFound | ErrCodePortUnavailable | ErrCodeForwarderFailed
| ErrCodeManagerShuttingDown | ErrCodeInvalidStateTransition | ErrCodeInvalidConnectionType.

(** Errors of the manager, its forwarders and their contexts. *)
Inductive failure :=
| Foreign (e : error)
| ErrSessionClosed
| ErrManagerStopped
| NetworkerError (Code : NetworkerErrorCode) (SessionID : string) (Message : formatted failure) (Err : option failure)
| Errorf (m : formatted failure)
| Wrapped (m : formatted failure) (cause : failure)
| Joined (causes : list failure).

Definition NewSessionNotFoundError (id : string) : failure :=
  NetworkerError ErrCodeSessionNotFound id (Sprintf "session not found" []) None.
Definition NewNoHandlerFoundError (key : string) : failure :=
  NetworkerError ErrCodeNoHandlerFound "" (Sprintf "no handler found for resource %q" [OString key]) None.
Definition NewPortUnavailableError (port : Z) : failure :=
  NetworkerError ErrCodePortUnavailable "" (Sprintf "port %d is unavailable" [OInt port]) None.
Definition NewForwarderFailedError (id : string) (e : failure) : failure :=
  NetworkerError ErrCodeForwarderFailed id (Sprintf "forwarder failed: %v" [OError e]) (Some e).
Definition NewManagerShuttingDownError (id : string) : failure :=
  NetworkerError ErrCodeManagerShuttingDown id (Sprintf "manager is shutting down" []) None.
Definition NewInvalidStateTransitionError (id from to : string) : failure :=
  NetworkerError ErrCodeInvalidStateTransition id (Sprintf "cannot transition from %s to %s" [OString from; OString to]) None.
Definition NewInvalidConnectionTypeError (t : string) : failure :=
  NetworkerError ErrCodeInvalidConnectionType "" (Sprintf "unsupported connection type %q" [OString t]) None.

(** [errors.Is(err, ErrSessionClosed) || errors.Is(err, ErrManagerStopped)]; the
    [Is] method of a [NetworkerError] matches no sentinel. *)
Fixpoint intentional (e : failure) : bool :=
  match e with
  | ErrSessionClosed | ErrManagerStopped => true
  | NetworkerError _ _ _ (Some c) | Wrapped _ c => intentional c
  | Joined cs => existsb intentional cs
  | Foreign _ | NetworkerError _ _ _ None | Errorf _ => false
  end.
Definition isIntentionalStop (err : option failure) : bool :=
  match err with Some e => intentional e | None => false end.

(** [errors.As(err, &nerr)] *)
Fixpoint is_networker (e : failure) : bool :=
  match e with
  | NetworkerError _ _ _ _ => true
  | Wrapped _ c => is_networker c
  | Joined cs => existsb is_networker cs
  | _ => false
  end.

(** ** State *)

(** A context that is done: [Err()] and [context.Cause]. *)
Record done := mkDone { ctx_Err : failure; ctx_Cause : failure }.
Definition cancelled (cause : failure) : done := mkDone (Foreign ECanceled) cause.
(** [cancel(nil)] *)
Definition plain_cancel : done := cancelled (Foreign ECanceled).

Inductive stage :=
| Created                   (** before the shutdown check *)
| Invoking                  (** before the forwarder returned *)
| Awaiting (ready : bool)   (** with or without a [Ready] channel *)
| Fencing                   (** ready, before [stopRequest] *)
| Fenced                    (** before [request.Err] *)
| Accepted                  (** before publication *)
| Live
| Refused (e : failure).

Inductive monitor := Unwatched | Watching | Deciding (to : string) | Releasing | Leaving | Finished.

#[export] Instance monitor_eq_dec : EqDecision monitor.
Proof. solve_decision. Defined.

Record tunnel := mkTunnel {
  t_id : string; t_opts : PortForwardSessionOptions;
  t_retained : bool;                (** [retainCancellation] *)
  t_leased : bool;                  (** the generation lease of a retained tunnel *)
  t_request : option done; t_hook : hook; t_ctx : option done;
  t_stage : stage; t_session : PortForwardSession; t_monitor : monitor
}.

(** What [StopAll] does next with the lock held. *)
Inductive sweep := Scanning | Stopping (id : string) (n : nat) | Dropping (id : string).
(** What [ClosePortForwardSession] does next without it. *)
Inductive close_stage := CloseCancel | CloseTransition | CloseSnapshot.

Record Manager := mkManager {
  sessions : gmap string nat; tunnels : list tunnel; stopped : bool; wg : nat;
  sweeping : option sweep; closers : list (nat * close_stage); waiting : nat
}.
Definition NewManager : Manager := mkManager ∅ [] false 0 None [] 0.

Definition on_tunnel (m : Manager) (n : nat) (f : tunnel → tunnel) : Manager :=
  mkManager (sessions m) (alter f n (tunnels m)) (stopped m) (wg m) (sweeping m) (closers m) (waiting m).
Definition with_closers (m : Manager) (l : list (nat * close_stage)) : Manager :=
  mkManager (sessions m) (tunnels m) (stopped m) (wg m) (sweeping m) l (waiting m).
Definition with_sweep (m : Manager) (s : option sweep) : Manager :=
  mkManager (sessions m) (tunnels m) (stopped m) (wg m) s (closers m) (waiting m).
Definition with_sessions (m : Manager) (s : gmap string nat) : Manager :=
  mkManager s (tunnels m) (stopped m) (wg m) (sweeping m) (closers m) (waiting m).
Definition with_wg (m : Manager) (w : nat) : Manager :=
  mkManager (sessions m) (tunnels m) (stopped m) w (sweeping m) (closers m) (waiting m).

Definition set_stage (st : stage) (t : tunnel) : tunnel :=
  mkTunnel (t_id t) (t_opts t) (t_retained t) (t_leased t) (t_request t) (t_hook t) (t_ctx t) st (t_session t) (t_monitor t).
Definition set_monitor (w : monitor) (t : tunnel) : tunnel :=
  mkTunnel (t_id t) (t_opts t) (t_retained t) (t_leased t) (t_request t) (t_hook t) (t_ctx t) (t_stage t) (t_session t) w.
Definition set_hook (h : hook) (t : tunnel) : tunnel :=
  mkTunnel (t_id t) (t_opts t) (t_retained t) (t_leased t) (t_request t) h (t_ctx t) (t_stage t) (t_session t) (t_monitor t).
(** The first cancellation of a context wins. *)
Definition cancel (d : done) (t : tunnel) : tunnel :=
  mkTunnel (t_id t) (t_opts t) (t_retained t) (t_leased t) (t_request t) (t_hook t)
    (Some (default d (t_ctx t))) (t_stage t) (t_session t) (t_monitor t).
Definition set_session (s : PortForwardSession) (t : tunnel) : tunnel :=
  mkTunnel (t_id t) (t_opts t) (t_retained t) (t_leased t) (t_request t) (t_hook t) (t_ctx t) (t_stage t) s (t_monitor t).
Definition drop_lease (t : tunnel) : tunnel :=
  mkTunnel (t_id t) (t_opts t) (t_retained t) false (t_request t) (t_hook t) (t_ctx t) (t_stage t) (t_session t) (t_monitor t).
(** [cancel(...); return nil, err], which also returns a lease. *)
Definition refuse (d : done) (e : failure) (t : tunnel) : tunnel := set_stage (Refused e) (drop_lease (cancel d t)).

Definition with_state (s : PortForwardSession) (to : string) (now : NativeTime) : PortForwardSession :=
  mkSession (CreatedAt s) now (ps_Connection s) (ps_Labels s) (ps_ID s) (ps_Protocol s) to (ps_ConnectionType s)
    (ps_Encryption s) (ps_LocalPort s) (ps_RemotePort s).
(** [(e *sessionEntry) transition]; every caller drops the error. *)
Definition transition (s : PortForwardSession) (to : string) (now : NativeTime) : res failure PortForwardSession :=
  if CanTransition (State s) to then Ok (with_state s to now)
  else Err (NewInvalidStateTransitionError (ps_ID s) (State s) to).
Definition move (to : string) (now : NativeTime) (t : tunnel) : tunnel :=
  match transition (t_session t) to now with Ok s => set_session s t | Err _ => t end.

(** ** Creation *)

Definition with_port (o : PortForwardSessionOptions) (port : Z) : PortForwardSessionOptions :=
  mkOptions (po_Connection o) (po_Labels o) (po_Params o) (po_Protocol o) (po_ConnectionType o) (po_Encryption o)
    port (po_RemotePort o).
(** [free] and [unavailable] are the answers of the [PortChecker]. *)
Definition resolveForwardEndpoint (free : res failure Z) (unavailable : Z → bool) (o : PortForwardSessionOptions)
    : res failure PortForwardSessionOptions :=
  if negb (protocol_Valid (po_Protocol o)) then
    Err (Errorf (Sprintf "invalid port forward protocol: %q" [OString (po_Protocol o)]))
  else if (po_LocalPort o =? 0)%Z then port ← free; Ok (with_port o port)
  else if unavailable (po_LocalPort o) then Err (NewPortUnavailableError (po_LocalPort o))
  else Ok o.

(** Whether a result carries a [Ready] channel; its error channel delivers events. *)
Record ForwarderResult := mkResult { fr_SessionID : string; fr_Ready : bool }.
Definition answer : Type := res failure (option ForwarderResult).

(** The registered forwarders, each with what it answers to this call. *)
Definition handleResourceForward (forwarders : gmap string answer) (o : PortForwardSessionOptions) : answer :=
  match po_Connection o with
  | ResourceTarget c | ResourcePointer (Some c) =>
    match forwarders !! ResourceKey c with Some a => a | None => Err (NewNoHandlerFoundError (ResourceKey c)) end
  | ResourcePointer None => Err (NewInvalidConnectionTypeError "resource connection is nil")
  | _ => Err (NewInvalidConnectionTypeError "connection is not a resource")
  end.
Definition handleStaticForward (forwarders : gmap string answer) (o : PortForwardSessionOptions) : answer :=
  match po_Connection o with
  | StaticTarget c | StaticPointer (Some c) =>
    match forwarders !! Address c with Some a => a | None => Err (NewNoHandlerFoundError (Address c)) end
  | StaticPointer None => Err (NewInvalidConnectionTypeError "static connection is nil")
  | _ => Err (NewInvalidConnectionTypeError "connection is not static")
  end.
Definition normalize_answer (id : string) (a : answer) : res failure ForwarderResult :=
  match a with
  | Err e => if is_networker e then Err e else Err (NewForwarderFailedError id e)
  | Ok None => Err (NewForwarderFailedError id (Errorf (Sprintf "forwarder returned nil result" [])))
  | Ok (Some r) => Ok r
  end.
Definition invokeForwarder (resources statics : gmap string answer) (o : PortForwardSessionOptions) (id : string)
    : res failure ForwarderResult :=
  if bool_decide (po_ConnectionType o = PortForwardConnectionTypeResource)
  then normalize_answer id (handleResourceForward resources o)
  else if bool_decide (po_ConnectionType o = PortForwardConnectionTypeStatic)
  then normalize_answer id (handleStaticForward statics o)
  else Err (NewInvalidConnectionTypeError (po_ConnectionType o)).

(** Which case [waitForwarderReady] takes. *)
Inductive readiness := NoReady | ReadyClosed | ErrChClosed | ErrChNil | ErrChSent (e : failure) | CtxDone | TimedOut.
(** A case the selects can take: without a channel only the first. *)
Definition possible (ready : bool) (ctx : option done) (ev : readiness) : bool :=
  match ev with
  | NoReady => negb ready
  | CtxDone => ready && if ctx is Some _ then true else false
  | _ => ready
  end.
Definition waitForwarderReady (ctx : option done) (ev : readiness) : option failure :=
  match ev with
  | NoReady | ReadyClosed => None
  | ErrChClosed => Some (Errorf (Sprintf "forwarder error channel closed before ready" []))
  | ErrChNil => Some (Errorf (Sprintf "forwarder error channel returned nil error" []))
  | ErrChSent e => Some e
  | CtxDone => ctx_Err <$> ctx
  | TimedOut => Some (Errorf (Sprintf "timed out waiting for tunnel to be ready" []))
  end.

Definition new_session (now : NativeTime) (id : string) (o : PortForwardSessionOptions) : PortForwardSession :=
  mkSession now now (cloneConnection (po_Connection o)) (po_Labels o) id (po_Protocol o) SessionStateActive
    (po_ConnectionType o) (po_Encryption o) (po_LocalPort o) (po_RemotePort o).
Definition no_session : PortForwardSession :=
  mkSession zero_native zero_native NoTarget [] "" "" "" "" (mkEncryption "" "" false) 0 0.

(** [createPortForwardSession] up to its contexts: a retained tunnel derives its
    context from the request, a detached one registers [AfterFunc]. *)
Definition begin_creation (m : Manager) (o : PortForwardSessionOptions) (retained : bool) (request : option done)
    (uuid : string) : Manager :=
  mkManager (sessions m)
    (tunnels m ++ [mkTunnel uuid o retained retained request (if retained then NoHook else Armed)
                     (if retained then request else None) Created no_session Unwatched])
    (stopped m) (wg m) (sweeping m) (closers m) (waiting m).

Definition check_shutdown (m : Manager) (t : tunnel) : tunnel :=
  if stopped m then refuse plain_cancel (NewManagerShuttingDownError (t_id t)) t else set_stage Invoking t.

Definition set_id (id : string) (t : tunnel) : tunnel :=
  mkTunnel id (t_opts t) (t_retained t) (t_leased t) (t_request t) (t_hook t) (t_ctx t) (t_stage t) (t_session t) (t_monitor t).
Definition invoked (r : res failure ForwarderResult) (t : tunnel) : tunnel :=
  match r with
  | Err e => refuse plain_cancel e t
  | Ok r => set_stage (Awaiting (fr_Ready r)) (if bool_decide (fr_SessionID r = "") then t else set_id (fr_SessionID r) t)
  end.
Definition awaited (ev : readiness) (t : tunnel) : tunnel :=
  match waitForwarderReady (t_ctx t) ev with
  | Some e => refuse plain_cancel (NewForwarderFailedError (t_id t) e) t
  | None => set_stage Fencing t
  end.
(** [stopRequest()] withdraws a hook that has not started. *)
Definition stop_request (t : tunnel) : tunnel :=
  set_stage Fenced (set_hook (withdraw (t_hook t)) t).
Definition fence (now : NativeTime) (t : tunnel) : tunnel :=
  match t_request t with
  | Some d => refuse (cancelled (ctx_Cause d)) (NewForwarderFailedError (t_id t) (ctx_Err d)) t
  | None => set_stage Accepted (set_session (new_session now (t_id t) (t_opts t)) t)
  end.

(** [publishSession]: what the creation becomes, under the lock. *)
Definition publishSession (m : Manager) (n : nat) (t : tunnel) : Manager :=
  let id := ps_ID (t_session t) in
  if stopped m then on_tunnel m n (refuse plain_cancel (NewManagerShuttingDownError id))
  else match sessions m !! id with
       | Some _ =>
         on_tunnel m n (refuse plain_cancel
           (NewForwarderFailedError id (Errorf (Sprintf "duplicate session ID %q" [OString id]))))
       | None =>
         let m := on_tunnel m n (λ t, set_monitor Watching (set_stage Live t)) in
         with_wg (with_sessions m (<[id := n]> (sessions m))) (S (wg m))
       end.

(** ** Requests *)

(** The request ends: a retained tunnel's context with it. *)
Definition end_request (d : done) (t : tunnel) : tunnel :=
  let t' := mkTunnel (t_id t) (t_opts t) (t_retained t) (t_leased t) (Some d) (t_hook t) (t_ctx t) (t_stage t)
              (t_session t) (t_monitor t) in
  if t_retained t then cancel d t' else t'.
Definition run_hook (d : done) (t : tunnel) : tunnel := set_hook Spent (cancel (cancelled (ctx_Cause d)) t).

(** ** Monitoring *)

(** What [monitorSession] decides from its select: the context, or an event of
    the error channel ([None] is closed or nil). *)
Inductive wake := WakeDone | WakeErr (e : option failure).
Definition monitorSession (ctx : option done) (w : wake) : string :=
  match w with
  | WakeDone | WakeErr None => SessionStateStopped
  | WakeErr (Some e) =>
    if intentional e || isIntentionalStop (ctx_Cause <$> ctx) then SessionStateStopped else SessionStateFailed
  end.
Definition woken (w : wake) (t : tunnel) : tunnel := set_monitor (Deciding (monitorSession (t_ctx t) w)) t.

(** ** Closing and sweeping *)

(** The locked section of [ClosePortForwardSession]. *)
Definition ClosePortForwardSession (m : Manager) (id : string) : res failure Manager :=
  match sessions m !! id with
  | None => Err (NewSessionNotFoundError id)
  | Some n => Ok (with_closers (with_sessions m (delete id (sessions m))) ((n, CloseCancel) :: closers m))
  end.

Definition StopAll (m : Manager) : Manager :=
  mkManager (sessions m) (tunnels m) true (wg m) (Some Scanning) (closers m) (waiting m).

(** ** Queries *)

Definition GetPortForwardSession (m : Manager) (id : string) : res failure PortForwardSession :=
  match sessions m !! id ≫= λ n, tunnels m !! n with
  | Some t => Ok (t_session t)
  | None => Err (NewSessionNotFoundError id)
  end.
(** In the iteration order [ids] of the map. *)
Definition ListPortForwardSessions (m : Manager) (ids : list string) : list PortForwardSession :=
  omap (λ id, t_session <$> (sessions m !! id ≫= λ n, tunnels m !! n)) ids.
Definition matches (r : FindPortForwardSessionRequest) (s : PortForwardSession) : bool :=
  let c := default (mkResourceConnection None None None "" "" "" "") (resourceConnection (ps_Connection s)) in
  let selective := negb (bool_decide (ResourceKey c = "")) || negb (bool_decide (ResourceID c = ""))
                   || negb (bool_decide (ConnectionID c = "")) in
  let passes wanted actual := bool_decide (wanted = "") || (selective && bool_decide (actual = wanted)) in
  passes (fr_ResourceID r) (ResourceID c) && passes (fr_ConnectionID r) (ConnectionID c).
Definition FindPortForwardSessions (m : Manager) (ids : list string) (r : FindPortForwardSessionRequest)
    : list PortForwardSession :=
  filter (λ s, matches r s = true) (ListPortForwardSessions m ids).

(** ** Interleaving *)

(** [stopped] is read, and sessions are published and removed, under a lock that
    a sweep holds. *)
Definition unlocked (m : Manager) : Prop := sweeping m = None.

Inductive step (m : Manager) : Manager → Prop :=
| Step_begin o retained request uuid free unavailable o' :
    resolveForwardEndpoint free unavailable o = Ok o' → step m (begin_creation m o' retained request uuid)
| Step_check n t : unlocked m →
    tunnels m !! n = Some t → t_stage t = Created → step m (on_tunnel m n (check_shutdown m))
| Step_invoke n t resources statics :
    tunnels m !! n = Some t → t_stage t = Invoking →
    step m (on_tunnel m n (invoked (invokeForwarder resources statics (t_opts t) (t_id t))))
| Step_await n t ready ev :
    tunnels m !! n = Some t → t_stage t = Awaiting ready → possible ready (t_ctx t) ev = true →
    step m (on_tunnel m n (awaited ev))
| Step_stop_request n t :
    tunnels m !! n = Some t → t_stage t = Fencing → step m (on_tunnel m n stop_request)
| Step_fence n t now :
    tunnels m !! n = Some t → t_stage t = Fenced → step m (on_tunnel m n (fence now))
| Step_publish n t : unlocked m →
    tunnels m !! n = Some t → t_stage t = Accepted → step m (publishSession m n t)
| Step_request_ends n t d :
    tunnels m !! n = Some t → t_request t = None → step m (on_tunnel m n (end_request d))
| Step_hook_fires n t d :
    tunnels m !! n = Some t → t_request t = Some d → t_hook t = Armed → step m (on_tunnel m n (set_hook Fired))
| Step_hook_runs n t d :
    tunnels m !! n = Some t → t_request t = Some d → t_hook t = Fired → step m (on_tunnel m n (run_hook d))
| Step_lease_ends n t :                 (** [<-entry.ctx.Done()] or [<-ctx.Done()] *)
    tunnels m !! n = Some t → t_stage t = Live → t_leased t = true → is_Some (t_ctx t) →
    step m (on_tunnel m n drop_lease)
| Step_monitor_wakes n t w :
    tunnels m !! n = Some t → t_monitor t = Watching → (w = WakeDone → is_Some (t_ctx t)) →
    step m (on_tunnel m n (woken w))
| Step_monitor_moves n t to now :
    tunnels m !! n = Some t → t_monitor t = Deciding to →
    step m (on_tunnel m n (λ t, set_monitor Releasing (move to now t)))
| Step_monitor_releases n t :
    tunnels m !! n = Some t → t_monitor t = Releasing →
    step m (on_tunnel m n (λ t, set_monitor Leaving (cancel plain_cancel t)))
| Step_monitor_leaves n t :
    tunnels m !! n = Some t → t_monitor t = Leaving →
    step m (with_wg (on_tunnel m n (set_monitor Finished)) (Nat.pred (wg m)))
| Step_close id m' : unlocked m →
    ClosePortForwardSession m id = Ok m' → step m m'
| Step_close_cancel l1 n l2 :
    closers m = l1 ++ (n, CloseCancel) :: l2 →
    step m (with_closers (on_tunnel m n (cancel (cancelled ErrSessionClosed))) (l1 ++ (n, CloseTransition) :: l2))
| Step_close_transition l1 n l2 now :
    closers m = l1 ++ (n, CloseTransition) :: l2 →
    step m (with_closers (on_tunnel m n (move SessionStateStopped now)) (l1 ++ (n, CloseSnapshot) :: l2))
| Step_close_return l1 n l2 :
    closers m = l1 ++ (n, CloseSnapshot) :: l2 → step m (with_closers m (l1 ++ l2))
| Step_stop : unlocked m → step m (StopAll m)
| Step_sweep_cancel id n :
    sweeping m = Some Scanning → sessions m !! id = Some n →
    step m (with_sweep (on_tunnel m n (cancel (cancelled ErrManagerStopped))) (Some (Stopping id n)))
| Step_sweep_transition id n now :
    sweeping m = Some (Stopping id n) →
    step m (with_sweep (on_tunnel m n (move SessionStateStopped now)) (Some (Dropping id)))
| Step_sweep_drop id :
    sweeping m = Some (Dropping id) →
    step m (with_sweep (with_sessions m (delete id (sessions m))) (Some Scanning))
| Step_sweep_end :
    sweeping m = Some Scanning → sessions m = ∅ →
    step m (mkManager (sessions m) (tunnels m) (stopped m) (wg m) None (closers m) (S (waiting m)))
| Step_stop_returns k :                 (** drained, or [closeTimeout] passed *)
    waiting m = S k →
    step m (mkManager (sessions m) (tunnels m) (stopped m) (wg m) (sweeping m) (closers m) k).

Definition reachable (m : Manager) : Prop := rtc step NewManager m.

(** ** The invariant *)

Definition live (t : tunnel) : Prop := t_stage t = Live.
Definition monitored (w : monitor) : bool := negb (bool_decide (w = Unwatched)) && negb (bool_decide (w = Finished)).
Definition watchers (l : list tunnel) : nat := length (filter (λ t, monitored (t_monitor t) = true) l).
Definition fenced (st : stage) : bool := match st with Fenced | Accepted | Live => true | _ => false end.
Definition refused (st : stage) : bool := match st with Refused _ => true | _ => false end.
Definition accepted (st : stage) : bool := match st with Accepted | Live => true | _ => false end.
Definition early (st : stage) : bool := match st with Accepted | Live | Refused _ => false | _ => true end.
Definition terminal (s : string) : Prop := s = SessionStateStopped ∨ s = SessionStateFailed.

Record tunnel_ok (t : tunnel) : Prop := {
  ok_monitor : live t ↔ t_monitor t ≠ Unwatched;
  ok_fresh : t_stage t = Accepted → State (t_session t) = SessionStateActive;
  ok_state : live t → State (t_session t) = SessionStateActive ∨ terminal (State (t_session t));
  ok_released : t_monitor t = Leaving ∨ t_monitor t = Finished → is_Some (t_ctx t);
  ok_verdict to : t_monitor t = Deciding to → terminal to;
  ok_moved : t_monitor t = Releasing ∨ t_monitor t = Leaving ∨ t_monitor t = Finished → terminal (State (t_session t));
  ok_terminal : live t → terminal (State (t_session t)) → is_Some (t_ctx t) ∨ t_monitor t = Releasing;
  ok_refused e : t_stage t = Refused e → is_Some (t_ctx t) ∧ t_leased t = false;
  ok_retained : t_retained t = true → t_hook t = NoHook ∧ (is_Some (t_request t) → is_Some (t_ctx t));
  ok_leased : t_retained t = true → refused (t_stage t) = false → t_ctx t = None → t_leased t = true;
  ok_fired : t_hook t = Fired → is_Some (t_request t);
  ok_hook : t_retained t = false → t_hook t ≠ NoHook;
  ok_early : t_retained t = false → early (t_stage t) = true → is_Some (t_ctx t) → is_Some (t_request t);
  ok_detached : t_retained t = false → fenced (t_stage t) = true → t_hook t ≠ Armed;
  ok_admitted : t_retained t = false → accepted (t_stage t) = true → t_hook t = Spent;
  ok_clean : t_retained t = false → t_stage t = Accepted → t_ctx t = None;
  ok_cause d : t_retained t = false → live t → t_ctx t = Some d →
    d = cancelled ErrSessionClosed ∨ d = cancelled ErrManagerStopped
    ∨ d = plain_cancel ∧ (t_monitor t = Leaving ∨ t_monitor t = Finished)
}.

Record inv (m : Manager) : Prop := {
  inv_tunnels n t : tunnels m !! n = Some t → tunnel_ok t;
  inv_sessions id n : sessions m !! id = Some n →
    ∃ t, tunnels m !! n = Some t ∧ live t ∧ ps_ID (t_session t) = id;
  inv_running n t : tunnels m !! n = Some t → live t → t_ctx t = None →
    sessions m !! ps_ID (t_session t) = Some n ∨ (n, CloseCancel) ∈ closers m;
  inv_active n t : tunnels m !! n = Some t → live t → ¬ terminal (State (t_session t)) →
    sessions m !! ps_ID (t_session t) = Some n ∨ (n, CloseCancel) ∈ closers m ∨ (n, CloseTransition) ∈ closers m;
  inv_closers n c : (n, c) ∈ closers m →
    ∃ t, tunnels m !! n = Some t ∧ live t ∧ (c ≠ CloseCancel → is_Some (t_ctx t));
  inv_wg : wg m = watchers (tunnels m);
  inv_sweep : match sweeping m with
              | None => stopped m = true → sessions m = ∅
              | Some Scanning => stopped m = true
              | Some (Stopping id n) => stopped m = true ∧ sessions m !! id = Some n
                  ∧ ∃ t, tunnels m !! n = Some t ∧ is_Some (t_ctx t)
              | Some (Dropping id) => stopped m = true ∧ ∃ n t, sessions m !! id = Some n ∧ tunnels m !! n = Some t
                  ∧ is_Some (t_ctx t) ∧ terminal (State (t_session t))
              end
}.

Lemma mgr_initial : inv NewManager.
Proof. split; cbn; try done. intros n c H. by apply elem_of_nil in H. Qed.

Lemma alter_at {A} (f : A → A) n k (l : list A) x : alter f n l !! k = Some x ↔
  (n = k ∧ ∃ y, l !! k = Some y ∧ x = f y) ∨ (n ≠ k ∧ l !! k = Some x).
Proof.
  destruct (decide (n = k)) as [->|Hne].
  - rewrite list_lookup_alter_eq, fmap_Some. naive_solver.
  - rewrite list_lookup_alter_ne by done. naive_solver.
Qed.

Lemma watchers_alter f n l : ∀ t, l !! n = Some t → monitored (t_monitor (f t)) = monitored (t_monitor t) →
  watchers (alter f n l) = watchers l.
Proof.
  unfold watchers. revert n. induction l as [|a l IH]; intros [|n] t; try done.
  - intros [= ->] E. change (alter f 0 (t :: l)) with (f t :: l). rewrite !filter_cons.
    repeat case_decide; cbn; congruence.
  - intros Ht E. change (alter f (S n) (a :: l)) with (a :: alter f n l). rewrite !filter_cons.
    case_decide; cbn; by rewrite (IH n t).
Qed.
Lemma watchers_step f n l d : ∀ t, l !! n = Some t →
  Nat.b2n (monitored (t_monitor (f t))) = Nat.b2n (monitored (t_monitor t)) + d →
  watchers (alter f n l) = watchers l + d.
Proof.
  unfold watchers. revert n. induction l as [|a l IH]; intros [|n] t; try done.
  - intros [= ->] E. change (alter f 0 (t :: l)) with (f t :: l). rewrite !filter_cons.
    destruct (monitored (t_monitor (f t))), (monitored (t_monitor t)); cbn in E; repeat case_decide; cbn; try done; lia.
  - intros Ht E. change (alter f (S n) (a :: l)) with (a :: alter f n l). rewrite !filter_cons.
    case_decide; cbn; rewrite (IH n t) by done; lia.
Qed.
Lemma watchers_gone f n l : ∀ t, l !! n = Some t → monitored (t_monitor t) = true → monitored (t_monitor (f t)) = false →
  S (watchers (alter f n l)) = watchers l.
Proof.
  unfold watchers. revert n. induction l as [|a l IH]; intros [|n] t; try done.
  - intros [= ->] E E'. change (alter f 0 (t :: l)) with (f t :: l). rewrite !filter_cons.
    repeat case_decide; cbn; congruence.
  - intros Ht E E'. change (alter f (S n) (a :: l)) with (a :: alter f n l). rewrite !filter_cons.
    case_decide; cbn; by rewrite <- (IH n t).
Qed.

(** A change of one tunnel that keeps what the manager records of it. *)
Record keeps (t t' : tunnel) : Prop := {
  keeps_live : live t' ↔ live t;
  keeps_id : live t → ps_ID (t_session t') = ps_ID (t_session t);
  keeps_ctx : is_Some (t_ctx t) → is_Some (t_ctx t');
  keeps_terminal : live t → terminal (State (t_session t)) → terminal (State (t_session t'));
  keeps_monitored : monitored (t_monitor t') = monitored (t_monitor t)
}.

Lemma inv_on_tunnel m n t f : tunnels m !! n = Some t → keeps t (f t) → (tunnel_ok t → tunnel_ok (f t)) →
  inv m → inv (on_tunnel m n f).
Proof.
  intros Ht [K1 K2 K3 K4 K5] Hok [I1 I2 I3 I4 I5 I6 I7].
  assert (Hup : ∀ k x, tunnels m !! k = Some x → ∃ y, alter f n (tunnels m) !! k = Some y
    ∧ (live y ↔ live x) ∧ (live x → ps_ID (t_session y) = ps_ID (t_session x)) ∧ (is_Some (t_ctx x) → is_Some (t_ctx y))
    ∧ (live x → terminal (State (t_session x)) → terminal (State (t_session y)))).
  { intros k x Hx. destruct (decide (n = k)) as [<-|Hne].
    - assert (x = t) as -> by congruence. exists (f t). split; [|done]. apply alter_at. left. eauto.
    - exists x. split; [|done]. apply alter_at. auto. }
  assert (Hdown : ∀ k y, alter f n (tunnels m) !! k = Some y → ∃ x, tunnels m !! k = Some x
    ∧ (live y ↔ live x) ∧ (live x → ps_ID (t_session y) = ps_ID (t_session x)) ∧ (is_Some (t_ctx x) → is_Some (t_ctx y))
    ∧ (live x → terminal (State (t_session x)) → terminal (State (t_session y)))).
  { intros k y. rewrite alter_at. intros [[<- (x & Hx & ->)]|[_ Hy]].
    - assert (x = t) as -> by congruence. exists t. done.
    - exists y. done. }
  split; unfold on_tunnel; cbn [tunnels sessions closers wg sweeping stopped].
  - intros k y. rewrite alter_at. intros [[<- (x & Hx & ->)]|[_ Hy]]; [|eauto].
    assert (x = t) as -> by congruence. apply Hok. eauto.
  - intros id k Hk. destruct (I2 id k Hk) as (x & Hx & Hl & Hid). destruct (Hup k x Hx) as (y & Hy & L & ID & _).
    exists y. split; [done|]. split; [by apply L|]. by rewrite ID.
  - intros k y Hy Hl Hc. destruct (Hdown k y Hy) as (x & Hx & L & ID & C & _). rewrite ID by by apply L.
    apply (I3 k x Hx); [by apply L|]. destruct (t_ctx x); [|done]. rewrite Hc in C. destruct C; eauto. done.
  - intros k y Hy Hl Hc. destruct (Hdown k y Hy) as (x & Hx & L & ID & _ & T). rewrite ID by by apply L.
    apply (I4 k x Hx); [by apply L|]. intros Hterm. apply Hc, T; [by apply L|done].
  - intros k c Hk. destruct (I5 k c Hk) as (x & Hx & Hl & Hc). destruct (Hup k x Hx) as (y & Hy & L & _ & C & _).
    exists y. split; [done|]. split; [by apply L|]. auto.
  - rewrite I6. symmetry. by eapply watchers_alter.
  - destruct (sweeping m) as [[|id k|id]|]; try done.
    + destruct I7 as (? & ? & x & Hx & Hc). destruct (Hup k x Hx) as (y & Hy & _ & _ & C & _). eauto 10.
    + destruct I7 as (? & k & x & Hk & Hx & Hc & Hterm). destruct (Hup k x Hx) as (y & Hy & _ & _ & C & T).
      destruct (I2 id k Hk) as (x' & Hx' & Hl & _). assert (x' = x) as -> by congruence. eauto 10.
Qed.

(** ** Each section keeps the invariant *)

Ltac tunnel_cases := repeat match goal with
  | |- tunnel_ok _ → _ => intros []
  | |- tunnel_ok _ => split
  end; unfold live, fenced, early, accepted, refused in *;
  cbn [set_stage set_monitor set_hook set_session set_id cancel refuse drop_lease
       t_id t_opts t_retained t_leased t_request t_hook t_ctx t_stage t_session t_monitor] in *.
(** A tunnel in a known stage: every clause is an instance, or vacuous. *)
Ltac tunnel_close :=
  match goal with
  | H : (?a = Live) ↔ _ |- (?b = Live) ↔ _ =>
    first [by (split; congruence)|transitivity (a = Live); [split; congruence|exact H]]
  | _ => intros; subst; cbn beta iota in *; repeat match goal with
           | H : ∀ d : done, _, H' : _ = Some ?a |- _ => specialize (H a)
           | H : ∀ d : done, _ → _ → Some ?a = _ → _ |- _ => specialize (H a)
           | H : ?P → _, H' : ?P |- _ => match type of P with Prop => specialize (H H') end
           | H : _ ∨ _ |- _ => destruct H
           | H : _ ∧ _ |- _ => destruct H
           | H : ?x = ?x → _ |- _ => specialize (H eq_refl)
           | H : ∀ e : failure, _, H' : _ = Refused ?a |- _ => specialize (H a H')
           | H : ∀ e : failure, Refused ?a = _ → _ |- _ => specialize (H a eq_refl)
           | |- _ ∧ _ => split
           | |- _ → _ => intros ?
           end; try done; try congruence; try (by eauto)
  end.
Ltac tunnel_solve := match goal with |- context [tunnel_ok ?t → _] => destruct t; cbn in *; subst; tunnel_cases; try done; try tunnel_close end.

(** A creation has no monitor. *)
Lemma creating t st : tunnel_ok t → t_stage t = st → st ≠ Live → t_monitor t = Unwatched.
Proof. intros [H] Hs Hn. unfold live in H. destruct (decide (t_monitor t = Unwatched)) as [|E]; [done|]. apply H in E. congruence. Qed.

Lemma watched_live t : tunnel_ok t → t_monitor t ≠ Unwatched → t_stage t = Live.
Proof. intros [H]. apply H. Qed.

Lemma refuse_ok d e t : tunnel_ok t → t_stage t ≠ Live → tunnel_ok (refuse d e t).
Proof.
  intros Hok Hs. pose proof (creating t _ Hok eq_refl Hs) as Hm. revert Hok. tunnel_solve.
Qed.
Lemma creating_step m n t f : tunnels m !! n = Some t → t_stage t ≠ Live → t_stage (f t) ≠ Live →
  (tunnel_ok t → tunnel_ok (f t)) → (is_Some (t_ctx t) → is_Some (t_ctx (f t))) → inv m → inv (on_tunnel m n f).
Proof.
  intros Ht Hs Hs' Hok Hc Hi. pose proof (inv_tunnels m Hi n t Ht) as Hot. eapply inv_on_tunnel; [done| |done|done].
  split; unfold live; try done.
  by rewrite (creating t _ Hot eq_refl Hs), (creating (f t) _ (Hok Hot) eq_refl Hs').
Qed.

Lemma inv_begin m o retained request uuid : inv m → inv (begin_creation m o retained request uuid).
Proof.
  intros [I1 I2 I3 I4 I5 I6 I7]. unfold begin_creation. set (t0 := mkTunnel _ _ _ _ _ _ _ _ _ _).
  assert (Hup : ∀ k x, tunnels m !! k = Some x → (tunnels m ++ [t0]) !! k = Some x) by (intros; by apply lookup_app_l_Some).
  assert (Hdown : ∀ k x, (tunnels m ++ [t0]) !! k = Some x → tunnels m !! k = Some x ∨ x = t0).
  { intros k x Hx. apply lookup_app_Some in Hx as [|[_ Hx]]; [auto|]. apply list_lookup_singleton_Some in Hx as [_ <-]. auto. }
  split; cbn [tunnels sessions closers wg sweeping stopped].
  - intros k x Hx. apply Hdown in Hx as [Hx| ->]; [eauto|]. unfold t0, live, fenced, early, accepted, refused.
    destruct retained; split; cbn; intros; repeat match goal with H : _ ∨ _ |- _ => destruct H end; try done; by destruct request.
  - intros id k Hk. destruct (I2 id k Hk) as (x & Hx & ?). eauto.
  - intros k x Hx. apply Hdown in Hx as [Hx| ->]; [eauto|done].
  - intros k x Hx. apply Hdown in Hx as [Hx| ->]; [eauto|done].
  - intros k c Hk. destruct (I5 k c Hk) as (x & Hx & ?). eauto.
  - rewrite I6. unfold watchers. rewrite filter_app, length_app. by rewrite (filter_cons_False _ t0 []), Nat.add_0_r.
  - destruct (sweeping m) as [[|id k|id]|]; try done; [destruct I7 as (? & ? & x & Hx & ?)|destruct I7 as (? & k & x & ? & Hx & ?)]; eauto 10.
Qed.

Lemma inv_check m n t : tunnels m !! n = Some t → t_stage t = Created → inv m → inv (on_tunnel m n (check_shutdown m)).
Proof.
  intros Ht Hs. unfold check_shutdown. destruct (stopped m); apply (creating_step m n t); try done; try congruence.
  - by intros; apply refuse_ok; congruence.
  - tunnel_solve.
Qed.
Lemma inv_invoked m n t r : tunnels m !! n = Some t → t_stage t = Invoking → inv m → inv (on_tunnel m n (invoked r)).
Proof.
  intros Ht Hs. destruct r as [r|e]; apply (creating_step m n t); try done; try congruence; unfold invoked.
  - case_bool_decide; tunnel_solve.
  - by case_bool_decide.
  - by intros; apply refuse_ok; congruence.
Qed.
Lemma inv_awaited m n t ready ev : tunnels m !! n = Some t → t_stage t = Awaiting ready → inv m → inv (on_tunnel m n (awaited ev)).
Proof.
  intros Ht Hs. apply (creating_step m n t); try done; try congruence; unfold awaited; destruct (waitForwarderReady _ _); try done.
  - by intros; apply refuse_ok; congruence.
  - tunnel_solve.
Qed.
Lemma inv_stop_request m n t : tunnels m !! n = Some t → t_stage t = Fencing → inv m → inv (on_tunnel m n stop_request).
Proof.
  intros Ht Hs. apply (creating_step m n t); try done; try congruence; unfold stop_request, withdraw.
  destruct (t_hook t) eqn:E; tunnel_solve.
Qed.
Lemma inv_fence m n t now : tunnels m !! n = Some t → t_stage t = Fenced → inv m → inv (on_tunnel m n (fence now)).
Proof.
  intros Ht Hs. apply (creating_step m n t); try done; try congruence; unfold fence; destruct (t_request t) eqn:Er; try done.
  - by intros; apply refuse_ok; congruence.
  - intros Hok. pose proof (creating t _ Hok eq_refl ltac:(congruence)) as Hm. revert Hok. tunnel_solve.
    + destruct t_hook0; try done. by destruct ok_fired0.
    + destruct t_ctx0; [|done]. destruct ok_early0; [by eexists|congruence].
Qed.

Lemma keeps_same t t' : t_stage t' = t_stage t → t_session t' = t_session t → t_monitor t' = t_monitor t →
  (is_Some (t_ctx t) → is_Some (t_ctx t')) → keeps t t'.
Proof. intros Hs Hp Hm Hc. split; unfold live; rewrite ?Hs, ?Hp, ?Hm; done. Qed.

Lemma inv_end_request m n t d : tunnels m !! n = Some t → t_request t = None → inv m → inv (on_tunnel m n (end_request d)).
Proof.
  intros Ht Hr. apply (inv_on_tunnel m n t); [done| |].
  - unfold end_request. destruct (t_retained t); by apply keeps_same.
  - unfold end_request. destruct (t_retained t) eqn:E; tunnel_solve.
Qed.
Lemma inv_hook_fires m n t d : tunnels m !! n = Some t → t_request t = Some d → t_hook t = Armed →
  inv m → inv (on_tunnel m n (set_hook Fired)).
Proof. intros Ht Hr Hh. apply (inv_on_tunnel m n t); [done|by apply keeps_same|]. tunnel_solve. Qed.
Lemma inv_hook_runs m n t d : tunnels m !! n = Some t → t_request t = Some d → t_hook t = Fired →
  inv m → inv (on_tunnel m n (run_hook d)).
Proof. intros Ht Hr Hh. apply (inv_on_tunnel m n t); [done|by apply keeps_same|]. unfold run_hook. tunnel_solve. Qed.
Lemma inv_drop_lease m n t : tunnels m !! n = Some t → is_Some (t_ctx t) → inv m → inv (on_tunnel m n drop_lease).
Proof.
  intros Ht [d Hc]. apply (inv_on_tunnel m n t); [done|by apply keeps_same|]. tunnel_solve.
Qed.

Lemma inv_woken m n t w : tunnels m !! n = Some t → t_monitor t = Watching → inv m → inv (on_tunnel m n (woken w)).
Proof.
  intros Ht Hm Hi. pose proof (inv_tunnels m Hi n t Ht) as Hok. revert Hi.
  pose proof (watched_live t Hok ltac:(congruence)) as Hl.
  apply (inv_on_tunnel m n t); [done| |].
  - split; try done. cbn. by rewrite Hm.
  - assert (Hv : terminal (monitorSession (t_ctx t) w)).
    { unfold monitorSession, terminal. destruct w as [|[e|]]; [by left| |by left]. destruct (_ || _); auto. }
    revert Hv. unfold woken. generalize (monitorSession (t_ctx t) w). intros to Hv. tunnel_solve.
Qed.

Lemma move_keeps to now t : keeps t (move to now t).
Proof.
  unfold move, transition. destruct (CanTransition _ _) eqn:E; [|by apply keeps_same].
  split; try done. cbn. intros _ [Hs|Hs]; unfold CanTransition in E; rewrite Hs in E; done.
Qed.
Lemma move_session to now t : ∃ s, move to now t = set_session s t
  ∧ (State (t_session t) = SessionStateActive ∨ terminal (State (t_session t)) → terminal to → terminal (State s)).
Proof.
  unfold move, transition. destruct (CanTransition _ _) eqn:E; [by eexists|].
  exists (t_session t). split; [by destruct t|]. intros [Hs|Hs] Ht; [|done]. exfalso. unfold CanTransition in E.
  rewrite Hs in E. destruct Ht as [-> | ->]; vm_compute in E; discriminate E.
Qed.

Lemma move_ok to now t : live t → terminal to → is_Some (t_ctx t) → tunnel_ok t → tunnel_ok (move to now t).
Proof.
  intros Hl Ht [d Hc] Hok. destruct (move_session to now t) as (s & -> & Hs).
  specialize (Hs (ok_state t Hok Hl) Ht). clear Ht. revert Hok. unfold live in Hl. tunnel_solve.
Qed.
Lemma move_releasing to now t : t_monitor t = Deciding to → tunnel_ok t →
  tunnel_ok (set_monitor Releasing (move to now t)).
Proof.
  intros Hd Hok. pose proof (watched_live t Hok ltac:(congruence)) as Hl.
  destruct (move_session to now t) as (s & -> & Hs).
  specialize (Hs (ok_state t Hok Hl) (ok_verdict t Hok to Hd)). revert Hok. tunnel_solve.
Qed.

Lemma inv_moves m n t to now : tunnels m !! n = Some t → t_monitor t = Deciding to →
  inv m → inv (on_tunnel m n (λ t, set_monitor Releasing (move to now t))).
Proof.
  intros Ht Hd. apply (inv_on_tunnel m n t); [done| |by apply move_releasing].
  destruct (move_keeps to now t). split; try done. cbn. by rewrite Hd.
Qed.
Lemma inv_releases m n t : tunnels m !! n = Some t → t_monitor t = Releasing →
  inv m → inv (on_tunnel m n (λ t, set_monitor Leaving (cancel plain_cancel t))).
Proof.
  intros Ht Hd. apply (inv_on_tunnel m n t); [done| |].
  - split; try done. cbn. by rewrite Hd.
  - intros Hok. pose proof (watched_live t Hok ltac:(congruence)) as Hl.
    destruct (t_ctx t) as [d|] eqn:Hc; revert Hok; tunnel_solve.
    all: right; right; split; [cbn in *; congruence|by left].
Qed.

Lemma inv_leaves m n t : tunnels m !! n = Some t → t_monitor t = Leaving →
  inv m → inv (with_wg (on_tunnel m n (set_monitor Finished)) (Nat.pred (wg m))).
Proof.
  intros Ht Hd Hi. pose proof (inv_tunnels m Hi n t Ht) as Hok. pose proof (watched_live t Hok ltac:(congruence)) as Hl.
  assert (Hok' : tunnel_ok (set_monitor Finished t)) by (revert Hok; tunnel_solve).
  (* The registry sees the same tunnel; only the count moves. *)
  assert (Hv : inv (on_tunnel m n (set_monitor Leaving))).
  { revert Hi. apply (inv_on_tunnel m n t); [done|split; try done; cbn; by rewrite Hd|]. tunnel_solve. }
  assert (Hw : S (watchers (alter (set_monitor Finished) n (tunnels m))) = watchers (tunnels m))
    by (eapply watchers_gone; [done|by rewrite Hd|done]).
  destruct Hv as [I1 I2 I3 I4 I5 I6 I7]. unfold on_tunnel, with_wg in *. cbn [tunnels sessions closers wg sweeping stopped] in *.
  assert (Hback : ∀ k x, alter (set_monitor Finished) n (tunnels m) !! k = Some x →
    ∃ y, alter (set_monitor Leaving) n (tunnels m) !! k = Some y ∧ t_stage x = t_stage y ∧ t_session x = t_session y ∧ t_ctx x = t_ctx y).
  { intros k x. setoid_rewrite alter_at. intros [[<- (y & Hy & ->)]|[Hne Hx]]; [|eauto 10].
    exists (set_monitor Leaving y). split; [left; eauto|done]. }
  assert (Hforth : ∀ k y, alter (set_monitor Leaving) n (tunnels m) !! k = Some y →
    ∃ x, alter (set_monitor Finished) n (tunnels m) !! k = Some x ∧ t_stage x = t_stage y ∧ t_session x = t_session y ∧ t_ctx x = t_ctx y).
  { intros k y. setoid_rewrite alter_at. intros [[<- (x & Hx & ->)]|[Hne Hy]]; [|eauto 10].
    exists (set_monitor Finished x). split; [left; eauto|done]. }
  pose proof (inv_wg m Hi) as Hwg. unfold live in *.
  split; unfold live; cbn [tunnels sessions closers wg sweeping stopped].
  - intros k x. rewrite alter_at. intros [[<- (y & Hy & ->)]|[Hne Hx]]; [by simplify_eq|]. by apply (inv_tunnels m Hi k).
  - intros id k Hk. destruct (I2 id k Hk) as (y & Hy & Hly & Hid). destruct (Hforth k y Hy) as (x & Hx & E1 & E2 & E3).
    exists x. by rewrite E1, E2.
  - intros k x Hx Hlx Hc. destruct (Hback k x Hx) as (y & Hy & E1 & E2 & E3). rewrite E2. apply (I3 k y); congruence.
  - intros k x Hx Hlx Hc. destruct (Hback k x Hx) as (y & Hy & E1 & E2 & E3). rewrite E2. apply (I4 k y); congruence.
  - intros k c Hk. destruct (I5 k c Hk) as (y & Hy & Hly & Hc). destruct (Hforth k y Hy) as (x & Hx & E1 & E2 & E3).
    exists x. by rewrite E1, E3.
  - lia.
  - destruct (sweeping m) as [[|id k|id]|]; try done.
    + destruct I7 as (? & ? & y & Hy & Hc). destruct (Hforth k y Hy) as (x & Hx & E1 & E2 & E3).
      split_and!; try done. exists x. by rewrite E3.
    + destruct I7 as (? & k & y & ? & Hy & Hc & Hterm). destruct (Hforth k y Hy) as (x & Hx & E1 & E2 & E3).
      split; [done|]. exists k, x. by rewrite E2, E3.
Qed.

Lemma mgr_publish m n t : unlocked m → tunnels m !! n = Some t → t_stage t = Accepted → inv m → inv (publishSession m n t).
Proof.
  intros Hu Ht Hs Hi. unfold publishSession. destruct (stopped m) eqn:Hst.
  { revert Hi. apply (creating_step m n t); try done; try congruence. intros. apply refuse_ok; congruence. }
  destruct (sessions m !! ps_ID (t_session t)) as [k'|] eqn:Hid.
  { revert Hi. apply (creating_step m n t); try done; try congruence. intros. apply refuse_ok; congruence. }
  pose proof (inv_tunnels m Hi n t Ht) as Hok. pose proof (creating t _ Hok Hs ltac:(done)) as Hm.
  set (f := λ t, set_monitor Watching (set_stage Live t)).
  assert (Hok' : tunnel_ok (f t)).
  { unfold f. pose proof (ok_fresh t Hok Hs) as Hfresh. revert Hok. tunnel_solve.
    all: exfalso; rewrite Hfresh in *; match goal with H : terminal _ |- _ => destruct H end; done. }
  assert (Hft : ∀ k x, alter f n (tunnels m) !! k = Some x → k ≠ n → tunnels m !! k = Some x).
  { intros k x. rewrite alter_at. intros [[-> _]|[_ Hx]] Hne; [done|done]. }
  assert (Hne : ∀ k x, tunnels m !! k = Some x → live x → k ≠ n).
  { intros k x Hx Hl ->. assert (x = t) as -> by congruence. unfold live in Hl. congruence. }
  assert (Hkeep : ∀ k x, tunnels m !! k = Some x → k ≠ n → alter f n (tunnels m) !! k = Some x).
  { intros k x Hx Hkn. apply alter_at. auto. }
  assert (Hat : alter f n (tunnels m) !! n = Some (f t)) by (apply alter_at; left; eauto).
  destruct Hi as [I1 I2 I3 I4 I5 I6 I7]. unfold unlocked in Hu. rewrite Hu in I7.
  split; unfold on_tunnel, with_wg, with_sessions; cbn [tunnels sessions closers wg sweeping stopped]; fold f.
  - intros k x Hx. destruct (decide (k = n)) as [->|Hkn]; [congruence|]. eauto.
  - intros id k. rewrite lookup_insert_Some. intros [[<- <-]|[Hin Hk]]; [by exists (f t)|].
    destruct (I2 id k Hk) as (x & Hx & Hl & Hix). exists x. eauto 10.
  - intros k x Hx Hl Hc. destruct (decide (k = n)) as [->|Hkn].
    { assert (x = f t) as -> by congruence. left. apply lookup_insert_eq. }
    destruct (I3 k x (Hft k x Hx Hkn) Hl Hc) as [Hk|]; [|auto]. left. apply lookup_insert_Some. right. split; [|done]. congruence.
  - intros k x Hx Hl Hc. destruct (decide (k = n)) as [->|Hkn].
    { assert (x = f t) as -> by congruence. left. apply lookup_insert_eq. }
    destruct (I4 k x (Hft k x Hx Hkn) Hl Hc) as [Hk|]; [|auto]. left. apply lookup_insert_Some. right. split; [|done]. congruence.
  - intros k c Hk. destruct (I5 k c Hk) as (x & Hx & Hl & Hc). exists x. eauto 10.
  - rewrite I6. rewrite (watchers_step f n (tunnels m) 1 t) by (done || by rewrite Hm). lia.
  - rewrite Hu. by rewrite Hst.
Qed.

(** The closing and sweeping steps that touch no tunnel. *)
Lemma mgr_close m id m' : unlocked m → ClosePortForwardSession m id = Ok m' → inv m → inv m'.
Proof.
  unfold ClosePortForwardSession. destruct (sessions m !! id) as [n|] eqn:Hn; [|done]. intros Hu [= <-] [I1 I2 I3 I4 I5 I6 I7].
  unfold unlocked in Hu. rewrite Hu in I7.
  destruct (I2 id n Hn) as (t & Ht & Hl & Hid).
  split; unfold with_closers, with_sessions; cbn [tunnels sessions closers wg sweeping stopped]; try done.
  - intros id' k. rewrite lookup_delete_Some. intros [_ Hk]. eauto.
  - intros k x Hx Hlx Hc. destruct (I3 k x Hx Hlx Hc) as [Hk|]; [|right; by right].
    destruct (decide (ps_ID (t_session x) = id)) as [E|E].
    + right. rewrite E in Hk. assert (k = n) as -> by congruence. left.
    + left. by rewrite lookup_delete_ne.
  - intros k x Hx Hlx Hc. destruct (I4 k x Hx Hlx Hc) as [Hk|[|]]; [|right; left; by right|right; right; by right].
    destruct (decide (ps_ID (t_session x) = id)) as [E|E].
    + right. left. rewrite E in Hk. assert (k = n) as -> by congruence. left.
    + left. by rewrite lookup_delete_ne.
  - intros k c. rewrite elem_of_cons. intros [[= -> ->]|Hk]; [|eauto]. by exists t.
  - rewrite Hu. intros Hs. rewrite (I7 Hs). apply delete_empty.
Qed.

(** A closer moves on: what it still has to do for its tunnel is done. *)
Lemma inv_closers_step m l1 n c l2 c' : closers m = l1 ++ (n, c) :: l2 →
  (∀ t, tunnels m !! n = Some t → c = CloseCancel → is_Some (t_ctx t)) →
  (∀ t, tunnels m !! n = Some t → c = CloseTransition → terminal (State (t_session t))) →
  (c = CloseCancel → c' = Some CloseTransition) → (c ≠ CloseCancel → c' ≠ Some CloseCancel) →
  inv m → inv (with_closers m (l1 ++ match c' with Some c' => [(n, c')] | None => [] end ++ l2)).
Proof.
  intros Hc H1 H2 H3 H4 [I1 I2 I3 I4 I5 I6 I7].
  assert (Hin : ∀ k d, (k, d) ∈ closers m → (k, d) = (n, c) ∨ (k, d) ∈ l1 ++ match c' with Some c' => [(n, c')] | None => [] end ++ l2).
  { intros k d. rewrite Hc, !elem_of_app, elem_of_cons. naive_solver. }
  assert (Hout : ∀ k d, (k, d) ∈ l1 ++ match c' with Some c' => [(n, c')] | None => [] end ++ l2 →
    (k = n ∧ c' = Some d) ∨ (k, d) ∈ closers m).
  { intros k d. rewrite Hc, !elem_of_app, elem_of_cons. destruct c'; rewrite ?list_elem_of_singleton, ?elem_of_nil; naive_solver. }
  destruct (I5 n c) as (t & Ht & Hl & Hct); [rewrite Hc; set_solver|].
  split; unfold with_closers; cbn [tunnels sessions closers wg sweeping stopped]; try done.
  - intros k x Hx Hlx Hcx. destruct (I3 k x Hx Hlx Hcx) as [|Hk]; [by left|]. destruct (Hin _ _ Hk) as [[= -> <-]|]; [|by right].
    assert (x = t) as -> by congruence. destruct (H1 t Ht eq_refl). congruence.
  - intros k x Hx Hlx Hcx. destruct (I4 k x Hx Hlx Hcx) as [|[Hk|Hk]]; [by left| |].
    + destruct (Hin _ _ Hk) as [[= -> <-]|]; [|by auto]. right. right. rewrite (H3 eq_refl). set_solver.
    + destruct (Hin _ _ Hk) as [[= -> <-]|]; [|by auto]. assert (x = t) as -> by congruence. destruct Hcx. by apply H2.
  - intros k d Hk. destruct (Hout k d Hk) as [[-> Hd]|]; [|eauto]. exists t. split_and!; try done.
    intros Hdn. destruct c; [by apply H1|by apply Hct|by apply Hct].
Qed.

Lemma cancel_ok c t : c = ErrSessionClosed ∨ c = ErrManagerStopped → live t → tunnel_ok t → tunnel_ok (cancel (cancelled c) t).
Proof.
  intros Hc Hl. unfold live in Hl. destruct (t_ctx t) as [d|] eqn:E; tunnel_solve.
  all: match goal with H : Some _ = Some _ |- _ => cbn in H; injection H as <- end; subst; auto.
Qed.
Lemma inv_cancel m n t c : c = ErrSessionClosed ∨ c = ErrManagerStopped → tunnels m !! n = Some t → live t →
  inv m → inv (on_tunnel m n (cancel (cancelled c))).
Proof. intros Hc Ht Hl. apply (inv_on_tunnel m n t); [done|by apply keeps_same|]. by apply cancel_ok. Qed.
Lemma inv_move m n t now : tunnels m !! n = Some t → live t → is_Some (t_ctx t) →
  inv m → inv (on_tunnel m n (move SessionStateStopped now)).
Proof.
  intros Ht Hl Hc. apply (inv_on_tunnel m n t); [done|apply move_keeps|]. apply move_ok; [done|by left|done].
Qed.

Lemma inv_close_cancel m l1 n l2 : closers m = l1 ++ (n, CloseCancel) :: l2 → inv m →
  inv (with_closers (on_tunnel m n (cancel (cancelled ErrSessionClosed))) (l1 ++ (n, CloseTransition) :: l2)).
Proof.
  intros Hc Hi. destruct (inv_closers m Hi n CloseCancel) as (t & Ht & Hl & _); [rewrite Hc; set_solver|].
  apply (inv_closers_step (on_tunnel m n (cancel (cancelled ErrSessionClosed))) l1 n CloseCancel l2 (Some CloseTransition)); try done.
  - intros x Hx _. cbn [tunnels on_tunnel] in Hx. apply alter_at in Hx as [[_ (y & _ & ->)]|[? _]]; [by eexists|done].
  - apply (inv_cancel m n t); auto.
Qed.
Lemma inv_close_transition m l1 n l2 now : closers m = l1 ++ (n, CloseTransition) :: l2 → inv m →
  inv (with_closers (on_tunnel m n (move SessionStateStopped now)) (l1 ++ (n, CloseSnapshot) :: l2)).
Proof.
  intros Hc Hi. destruct (inv_closers m Hi n CloseTransition) as (t & Ht & Hl & Hd); [rewrite Hc; set_solver|].
  apply (inv_closers_step (on_tunnel m n (move SessionStateStopped now)) l1 n CloseTransition l2 (Some CloseSnapshot)); try done.
  - intros x Hx _. cbn [tunnels on_tunnel] in Hx. apply alter_at in Hx as [[_ (y & Hy & ->)]|[? _]]; [|done].
    assert (y = t) as -> by congruence. destruct (move_session SessionStateStopped now t) as (s & -> & Hs).
    apply Hs; [|by left]. by apply (ok_state t (inv_tunnels m Hi n t Ht)).
  - apply (inv_move m n t); auto.
Qed.
Lemma inv_close_return m l1 n l2 : closers m = l1 ++ (n, CloseSnapshot) :: l2 → inv m → inv (with_closers m (l1 ++ l2)).
Proof. intros Hc. by apply (inv_closers_step m l1 n CloseSnapshot l2 None). Qed.

Lemma inv_stop m : unlocked m → inv m → inv (StopAll m).
Proof. intros Hu [I1 I2 I3 I4 I5 I6 I7]. by split. Qed.
Lemma inv_with_sweep m s : inv m →
  match s with
  | None => stopped m = true → sessions m = ∅
  | Some Scanning => stopped m = true
  | Some (Stopping id n) => stopped m = true ∧ sessions m !! id = Some n ∧ ∃ t, tunnels m !! n = Some t ∧ is_Some (t_ctx t)
  | Some (Dropping id) => stopped m = true ∧ ∃ n t, sessions m !! id = Some n ∧ tunnels m !! n = Some t
      ∧ is_Some (t_ctx t) ∧ terminal (State (t_session t))
  end → inv (with_sweep m s).
Proof. intros [I1 I2 I3 I4 I5 I6 I7] Hs. by split. Qed.

Lemma inv_sweep_cancel m id n : sweeping m = Some Scanning → sessions m !! id = Some n → inv m →
  inv (with_sweep (on_tunnel m n (cancel (cancelled ErrManagerStopped))) (Some (Stopping id n))).
Proof.
  intros Hs Hn Hi. destruct (inv_sessions m Hi id n Hn) as (t & Ht & Hl & _).
  pose proof (inv_sweep m Hi) as Hsw. rewrite Hs in Hsw.
  apply inv_with_sweep; [apply (inv_cancel m n t); auto|]. split_and!; [done|done|].
  exists (cancel (cancelled ErrManagerStopped) t). split; [|by eexists]. cbn [tunnels on_tunnel]. apply alter_at. left. eauto.
Qed.
Lemma inv_sweep_transition m id n now : sweeping m = Some (Stopping id n) → inv m →
  inv (with_sweep (on_tunnel m n (move SessionStateStopped now)) (Some (Dropping id))).
Proof.
  intros Hs Hi. pose proof (inv_sweep m Hi) as Hsw. rewrite Hs in Hsw. destruct Hsw as (Hst & Hn & t & Ht & Hc).
  destruct (inv_sessions m Hi id n Hn) as (t' & Ht' & Hl & _). assert (t' = t) as -> by congruence.
  apply inv_with_sweep; [apply (inv_move m n t); auto|]. split; [done|]. exists n, (move SessionStateStopped now t).
  destruct (move_session SessionStateStopped now t) as (s & Hm & Hterm). split_and!; [done| | |].
  - cbn [tunnels on_tunnel]. apply alter_at. left. eauto.
  - by rewrite Hm.
  - rewrite Hm. apply Hterm; [|by left]. by apply (ok_state t (inv_tunnels m Hi n t Ht)).
Qed.
Lemma inv_sweep_drop m id : sweeping m = Some (Dropping id) → inv m →
  inv (with_sweep (with_sessions m (delete id (sessions m))) (Some Scanning)).
Proof.
  intros Hs [I1 I2 I3 I4 I5 I6 I7]. rewrite Hs in I7. destruct I7 as (Hst & n & t & Hn & Ht & Hc & Hterm).
  assert (Hkey : ∀ k x, tunnels m !! k = Some x → live x → sessions m !! ps_ID (t_session x) = Some k → k ≠ n →
    delete id (sessions m) !! ps_ID (t_session x) = Some k).
  { intros k x Hx Hl Hk Hkn. rewrite lookup_delete_ne; [done|]. intros ->. congruence. }
  split; unfold with_sweep, with_sessions; cbn [tunnels sessions closers wg sweeping stopped]; try done.
  - intros id' k. rewrite lookup_delete_Some. intros [_ Hk]. eauto.
  - intros k x Hx Hl Hcx. destruct (I3 k x Hx Hl Hcx) as [Hk|]; [|by right].
    destruct (decide (k = n)) as [->|]; [|left; by apply Hkey]. assert (x = t) as -> by congruence. destruct Hc. congruence.
  - intros k x Hx Hl Hcx. destruct (I4 k x Hx Hl Hcx) as [Hk|]; [|by right].
    destruct (decide (k = n)) as [->|]; [|left; by apply Hkey]. assert (x = t) as -> by congruence. done.
Qed.

Lemma mgr_step m m' : step m m' → inv m → inv m'.
Proof.
  destruct 1; eauto using inv_begin, inv_check, inv_invoked, inv_awaited, inv_stop_request, inv_fence, mgr_publish,
    inv_end_request, inv_hook_fires, inv_hook_runs, inv_drop_lease, inv_woken, inv_moves, inv_releases, inv_leaves, mgr_close,
    inv_close_cancel, inv_close_transition, inv_close_return, inv_stop, inv_sweep_cancel, inv_sweep_transition, inv_sweep_drop.
  - intros [I1 I2 I3 I4 I5 I6 I7]. split; try assumption. intros _. assumption.
  - intros [I1 I2 I3 I4 I5 I6 I7]. by split.
Qed.
Lemma inv_reachable m : reachable m → inv m.
Proof. revert m. apply (rtc_ind_r inv); [apply mgr_initial|]. intros y z _ Hs Hi. by eapply mgr_step. Qed.

(** ** What a step does to an accepted tunnel *)

Definition rank (w : monitor) : nat :=
  match w with Watching => 4 | Deciding _ => 3 | Releasing => 2 | Leaving => 1 | Unwatched | Finished => 0 end.
Record evolves (t t' : tunnel) : Prop := {
  ev_live : live t';
  ev_id : ps_ID (t_session t') = ps_ID (t_session t);
  ev_state : State (t_session t') = State (t_session t) ∨ CanTransition (State (t_session t)) (State (t_session t')) = true;
  ev_ctx d : t_ctx t = Some d → t_ctx t' = Some d;
  ev_retained : t_retained t' = t_retained t;
  ev_rank : rank (t_monitor t') ≤ rank (t_monitor t);
  ev_doomed : t_monitor t ≠ Deciding SessionStateFailed → isIntentionalStop (ctx_Cause <$> t_ctx t) = true →
    t_monitor t' ≠ Deciding SessionStateFailed;
  ev_failed : State (t_session t') = SessionStateFailed →
    State (t_session t) = SessionStateFailed ∨ t_monitor t = Deciding SessionStateFailed
}.

Lemma tunnel_evolves_refl t : live t → evolves t t.
Proof. intros Hl. split; auto. Qed.
Lemma evolves_same t t' : live t → t_stage t' = t_stage t → t_session t' = t_session t → t_monitor t' = t_monitor t →
  t_retained t' = t_retained t → (∀ d, t_ctx t = Some d → t_ctx t' = Some d) → evolves t t'.
Proof. intros Hl Hs Hp Hm Hr Hc. split; unfold live in *; rewrite ?Hs, ?Hp, ?Hm; auto. Qed.
Lemma evolves_cancel d t : live t → evolves t (cancel d t).
Proof. intros Hl. apply evolves_same; try done. cbn. by intros d' ->. Qed.
Lemma evolves_move to now t : live t → (to = SessionStateStopped ∨ t_monitor t = Deciding to) → evolves t (move to now t).
Proof.
  intros Hl Hto. unfold move, transition. destruct (CanTransition _ _) eqn:E; [|by apply tunnel_evolves_refl].
  split; try done; cbn; auto. intros ->. destruct Hto; auto. done.
Qed.
Lemma evolves_monitor w t : live t → rank w ≤ rank (t_monitor t) →
  (t_monitor t ≠ Deciding SessionStateFailed → isIntentionalStop (ctx_Cause <$> t_ctx t) = true → w ≠ Deciding SessionStateFailed) →
  evolves t (set_monitor w t).
Proof. intros Hl Hr Hd. split; auto. Qed.
Lemma evolves_woken w t : live t → t_monitor t = Watching → evolves t (woken w t).
Proof.
  intros Hl Hm. apply evolves_monitor; [done|by rewrite Hm; cbn; lia|]. intros _ Hi. unfold monitorSession. rewrite Hi.
  destruct w as [|[e|]]; rewrite ?orb_true_r; done.
Qed.
Lemma evolves_releasing to now t : live t → t_monitor t = Deciding to → evolves t (set_monitor Releasing (move to now t)).
Proof.
  intros Hl Hm. pose proof (evolves_move to now t Hl (or_intror Hm)) as He.
  destruct (move_session to now t) as (s & E & _). rewrite E in *. destruct He.
  split; try done. cbn. rewrite Hm. cbn. lia.
Qed.
Lemma evolves_leaving t : live t → t_monitor t = Releasing → evolves t (set_monitor Leaving (cancel plain_cancel t)).
Proof. intros Hl Hm. destruct (evolves_cancel plain_cancel t Hl). split; try done. cbn. rewrite Hm. cbn. lia. Qed.

Lemma on_tunnel_evolves m n f k t : tunnels m !! k = Some t → live t → (n = k → evolves t (f t)) →
  ∃ t', alter f n (tunnels m) !! k = Some t' ∧ evolves t t'.
Proof.
  intros Ht Hl Hf. destruct (decide (n = k)) as [->|Hne].
  - exists (f t). split; [apply alter_at; left; eauto|auto].
  - exists t. split; [apply alter_at; auto|by apply tunnel_evolves_refl].
Qed.

Lemma tunnel_step_evolves m m' k t : step m m' → tunnels m !! k = Some t → live t →
  ∃ t', tunnels m' !! k = Some t' ∧ evolves t t'.
Proof.
  intros Hs Ht Hl. pose proof Hl as Hl'. unfold live in Hl'.
  assert (Hsame : ∃ t', tunnels m !! k = Some t' ∧ evolves t t') by (exists t; split; [done|by apply tunnel_evolves_refl]).
  destruct Hs; try exact Hsame; cbn [tunnels on_tunnel with_wg with_closers with_sweep with_sessions].
  all: try (apply on_tunnel_evolves; [done|done|]; intros ->).
  all: try (exfalso; congruence).
  all: try match goal with H : tunnels _ !! ?k = Some ?x, H' : tunnels _ !! ?k = Some ?y |- evolves _ _ => assert (x = y) as -> by congruence end.
  all: eauto using evolves_woken, evolves_releasing, evolves_leaving, evolves_cancel, evolves_move, evolves_monitor.
  - exists t. split; [by apply lookup_app_l_Some|by apply tunnel_evolves_refl].
  - assert (Hne : n ≠ k) by (intros ->; congruence). unfold publishSession.
    destruct (stopped m); [|destruct (sessions m !! _)]; cbn [tunnels on_tunnel with_wg with_sessions];
      (apply on_tunnel_evolves; [exact Ht|exact Hl|]; intros Heq; by destruct (Hne Heq)).
  - unfold end_request. destruct (t_retained t) eqn:Er; [|apply evolves_same; try done; by rewrite Er].
 apply evolves_same; try done. cbn. by intros d' ->.
  - by apply evolves_same.
  - apply evolves_same; try done. cbn. by intros d' ->.
  - by apply evolves_same.
  - apply evolves_monitor; [done|cbn; lia|done].
  - match goal with H : ClosePortForwardSession _ _ = _ |- _ => unfold ClosePortForwardSession in H end.
    destruct (sessions m !! id); [|done]. by simplify_eq.
Qed.

Lemma rtc_evolves m m' k t : rtc step m m' → tunnels m !! k = Some t → live t →
  ∃ t', tunnels m' !! k = Some t' ∧ live t' ∧ ps_ID (t_session t') = ps_ID (t_session t)
  ∧ (∀ d, t_ctx t = Some d → t_ctx t' = Some d) ∧ rank (t_monitor t') ≤ rank (t_monitor t)
  ∧ (terminal (State (t_session t)) → State (t_session t') = State (t_session t)).
Proof.
  intros Hs. revert t. induction Hs as [m|m m1 m2 Hst _ IH]; intros t Ht Hl; [by exists t|].
  destruct (tunnel_step_evolves m m1 k t Hst Ht Hl) as (t1 & Ht1 & [E1 E2 E3 E4 E5 E6 E7 E8]).
  destruct (IH t1 Ht1 E1) as (t2 & Ht2 & Hl2 & Hid & Hc & Hr & Hterm). exists t2. split_and!; [done|done|congruence|auto|lia|].
  intros Hx. assert (State (t_session t1) = State (t_session t)) as Heq.
  { destruct E3 as [|E3]; [done|]. unfold CanTransition in E3. destruct Hx as [Hx|Hx]; rewrite Hx in E3; done. }
  rewrite <- Heq in Hx |- *. auto.
Qed.

(** A session whose context carries an intentional cause, decided by no error. *)
Definition doomed (t : tunnel) : Prop :=
  isIntentionalStop (ctx_Cause <$> t_ctx t) = true ∧ t_monitor t ≠ Deciding SessionStateFailed
  ∧ State (t_session t) ≠ SessionStateFailed.
Lemma doomed_step m m' k t : step m m' → tunnels m !! k = Some t → live t → doomed t →
  ∃ t', tunnels m' !! k = Some t' ∧ live t' ∧ doomed t'.
Proof.
  intros Hs Ht Hl (D1 & D2 & D3). destruct (tunnel_step_evolves m m' k t Hs Ht Hl) as (t' & Ht' & [E1 E2 E3 E4 E5 E6 E7 E8]).
  exists t'. split; [done|]. split; [done|]. split_and!; [|auto|].
  - destruct (t_ctx t) as [d|] eqn:Ed; [|done]. by rewrite (E4 d eq_refl).
  - intros Hf. by destruct (E8 Hf).
Qed.
Lemma doomed_rtc m m' k t : rtc step m m' → tunnels m !! k = Some t → live t → doomed t →
  ∃ t', tunnels m' !! k = Some t' ∧ live t' ∧ doomed t'.
Proof.
  intros Hs. revert t. induction Hs as [m|m m1 m2 Hst _ IH]; intros t Ht Hl Hd; [by exists t|].
  destruct (doomed_step m m1 k t Hst Ht Hl Hd) as (t1 & Ht1 & Hl1 & Hd1). eauto.
Qed.

(** ** Once swept, always empty *)

Definition swept (m : Manager) : Prop := stopped m = true ∧ sessions m = ∅.
Lemma swept_step m m' : inv m → swept m → step m m' → swept m'
  ∧ ∀ k t', tunnels m' !! k = Some t' → live t' → ∃ t, tunnels m !! k = Some t ∧ live t.
Proof.
  intros Hi [Hst Hse] Hs.
  assert (Hkeep : ∀ n f, (∀ t, tunnels m !! n = Some t → live (f t) → live t) →
    ∀ k t', alter f n (tunnels m) !! k = Some t' → live t' → ∃ t, tunnels m !! k = Some t ∧ live t).
  { intros n f Hf k t'. rewrite alter_at. intros [[<- (y & Hy & ->)]|[_ Hy]]; eauto. }
  destruct Hs; unfold swept; cbn [stopped sessions tunnels on_tunnel with_wg with_closers with_sweep with_sessions StopAll].
  all: try (split; [by split|]; eauto; done).
  all: try (split; [by split|]; apply Hkeep; intros x Hx Hlx; unfold live in *; assert (x = t) as -> by congruence).
  all: try (match goal with H : t_stage (_ ?t) = Live |- t_stage ?t = Live =>
    revert H; unfold check_shutdown, invoked, awaited, stop_request, fence, end_request, woken, run_hook;
    repeat case_match; cbn; congruence end).
  all: try (split; [by split|]; apply Hkeep; intros x _; unfold live; try done; by destruct (move_session SessionStateStopped now x) as (? & -> & _)).
  - split; [by split|]. intros k t' Hx Hlx. apply lookup_app_Some in Hx as [Hx|[_ Hx]]; [eauto|].
    apply list_lookup_singleton_Some in Hx as [_ <-]. done.
  - unfold publishSession. rewrite Hst. cbn [stopped sessions tunnels on_tunnel]. split; [by split|]. apply Hkeep. done.
  - by destruct (move_session to now t) as (? & E & _); rewrite E in *.
  - exact Hlx.
  - match goal with H : ClosePortForwardSession _ _ = _ |- _ => unfold ClosePortForwardSession in H; rewrite Hse, lookup_empty in H end. done.
  - rewrite Hse, delete_empty. eauto.
Qed.
Lemma swept_rtc m m' : inv m → swept m → rtc step m m' → swept m'
  ∧ ∀ k t', tunnels m' !! k = Some t' → live t' → ∃ t, tunnels m !! k = Some t ∧ live t.
Proof.
  intros Hi Hw Hs. revert Hi Hw. induction Hs as [m|m m1 m2 Hst _ IH]; intros Hi Hw; [eauto|].
  destruct (swept_step m m1 Hi Hw Hst) as [Hw1 Hl1]. destruct (IH (mgr_step _ _ Hst Hi) Hw1) as [Hw2 Hl2].
  split; [done|]. intros k t' Ht' Hl. destruct (Hl2 k t' Ht' Hl) as (t & Ht & Hlt). eauto.
Qed.

(** ** Draining *)

Definition backlog (m : Manager) : nat := sum_list (map (λ t, rank (t_monitor t)) (tunnels m)).
Definition cancels (l : list (nat * close_stage)) : nat :=
  length (filter (λ e : nat * close_stage, match e.2 with CloseCancel => true | _ => false end = true) l).

Lemma backlog_alter f n l : ∀ t, l !! n = Some t →
  sum_list (map (λ t, rank (t_monitor t)) (alter f n l)) + rank (t_monitor t)
  = sum_list (map (λ t, rank (t_monitor t)) l) + rank (t_monitor (f t)).
Proof.
  revert n. induction l as [|a l IH]; intros [|n] t; try done.
  - intros [= ->]. change (alter f 0 (t :: l)) with (f t :: l). cbn. lia.
  - intros Ht. change (alter f (S n) (a :: l)) with (a :: alter f n l). cbn. specialize (IH n t Ht). lia.
Qed.
Lemma cancels_step l1 n l2 : cancels (l1 ++ (n, CloseCancel) :: l2) = S (cancels (l1 ++ (n, CloseTransition) :: l2)).
Proof. unfold cancels. rewrite !filter_app, !length_app, filter_cons_True, filter_cons_False by done. cbn. lia. Qed.

Lemma watchers_zero l : (∀ t, t ∈ l → monitored (t_monitor t) = false) → watchers l = 0.
Proof.
  induction l as [|t l IH]; intros Hl; [done|]. unfold watchers. rewrite filter_cons_False.
  - apply IH. intros x Hx. apply Hl. by right.
  - rewrite (Hl t); [done|by left].
Qed.

Ltac drained := unfold backlog; cbn [tunnels closers with_closers with_wg on_tunnel];
  match goal with H : tunnels ?m !! ?n = Some ?t, E : t_monitor ?t = _ |- context [alter ?f ?n _] =>
    let Hb := fresh in pose proof (backlog_alter f n (tunnels m) t H) as Hb; rewrite E in Hb;
    cbn [woken set_monitor t_monitor cancel move rank] in Hb; rewrite ?E in Hb; cbn [rank] in Hb; lia end.
(** A watched tunnel whose session is over, or about to be cancelled, moves on. *)
Lemma drain_step m n t : inv m → swept m → tunnels m !! n = Some t → monitored (t_monitor t) = true →
  ∃ m', step m m' ∧ backlog m' + cancels (closers m') < backlog m + cancels (closers m).
Proof.
  intros Hi [_ Hse] Ht Hm. pose proof (inv_tunnels m Hi n t Ht) as Hok.
  assert (Hl : live t) by (apply (ok_monitor t Hok); intros E; by rewrite E in Hm).
  destruct (t_monitor t) as [| |to| | |] eqn:E; try done.
  - destruct (t_ctx t) as [d|] eqn:Ec.
    + eexists. split; [by eapply (Step_monitor_wakes m n t WakeDone)|]. drained.
    + destruct (inv_running m Hi n t Ht Hl Ec) as [Hs|Hc]; [by rewrite Hse, lookup_empty in Hs|].
      apply list_elem_of_split in Hc as (l1 & l2 & Hc). eexists. split; [by apply (Step_close_cancel m l1 n l2)|].
      unfold backlog. cbn [tunnels closers with_closers on_tunnel]. rewrite Hc, cancels_step.
      drained.
  - eexists. split; [by apply (Step_monitor_moves m n t to zero_native)|]. drained.
  - eexists. split; [by apply (Step_monitor_releases m n t)|]. drained.
  - eexists. split; [by apply (Step_monitor_leaves m n t)|]. drained.
Qed.

Lemma drains m : inv m → swept m → ∃ m', rtc step m m' ∧ wg m' = 0.
Proof.
  remember (backlog m + cancels (closers m)) as k eqn:Ek. revert m Ek.
  induction (lt_wf k) as [k _ IH]; intros m -> Hi Hw.
  destruct (decide (Exists (λ t, monitored (t_monitor t) = true) (tunnels m))) as [Hx|Hx].
  - apply Exists_exists in Hx as (t & Hin & Hm). apply list_elem_of_lookup in Hin as [n Ht].
    destruct (drain_step m n t Hi Hw Ht Hm) as (m1 & Hs & Hlt).
    destruct (IH _ Hlt m1 eq_refl (mgr_step _ _ Hs Hi) (proj1 (swept_step m m1 Hi Hw Hs))) as (m2 & Hr & Hz).
    exists m2. split; [by eapply rtc_l|done].
  - exists m. split; [done|]. rewrite (inv_wg m Hi). apply watchers_zero. intros t Ht.
    destruct (monitored (t_monitor t)) eqn:E; [|done]. destruct Hx. apply Exists_exists. eauto.
Qed.

(** ** The manager *)

(** C6: No tunnel is lost. In every interleaving a session that is neither
    stopped nor failed is registered under its own ID, or a caller that removed
    it is about to cancel and stop it; an ID names one live tunnel of that ID;
    and the wait group counts the monitors that still run. *)
Theorem no_orphan m : reachable m →
  (∀ id n, sessions m !! id = Some n → ∃ t, tunnels m !! n = Some t ∧ live t ∧ ps_ID (t_session t) = id)
  ∧ (∀ n t, tunnels m !! n = Some t → live t →
     State (t_session t) = SessionStateActive ∧
       (sessions m !! ps_ID (t_session t) = Some n ∨ (n, CloseCancel) ∈ closers m ∨ (n, CloseTransition) ∈ closers m)
     ∨ terminal (State (t_session t)) ∧ (is_Some (t_ctx t) ∨ t_monitor t = Releasing))
  ∧ wg m = watchers (tunnels m).
Proof.
  intros Hi%inv_reachable. split; [apply (inv_sessions m Hi)|]. split; [|apply (inv_wg m Hi)]. intros n t Ht Hl.
  pose proof (inv_tunnels m Hi n t Ht) as Hok. destruct (ok_state t Hok Hl) as [Hs|Hs].
  - left. split; [done|]. apply (inv_active m Hi n t Ht Hl). rewrite Hs. by intros [].
  - right. split; [done|]. by apply (ok_terminal t Hok Hl).
Qed.

(** C10: StopAll is final and its wait can end. Once a sweep is over the registry
    is empty and stays empty, whatever is still being created: no creation ever
    becomes a session again, every session there is was there before, with its
    context cancelled or about to be, and there is always a way for the monitors
    to run out, so the wait group can reach zero. *)
Theorem stop_final m m' : reachable m → stopped m = true → sweeping m = None → rtc step m m' →
  stopped m' = true ∧ sessions m' = ∅
  ∧ (∀ n t', tunnels m' !! n = Some t' → live t' →
     (∃ t, tunnels m !! n = Some t ∧ live t) ∧ (is_Some (t_ctx t') ∨ (n, CloseCancel) ∈ closers m'))
  ∧ ∃ m'', rtc step m' m'' ∧ wg m'' = 0.
Proof.
  intros Hr Hst Hu Hs. pose proof (inv_reachable m Hr) as Hi. pose proof (inv_sweep m Hi) as Hsw. rewrite Hu in Hsw.
  destruct (swept_rtc m m' Hi (conj Hst (Hsw Hst)) Hs) as [[Hst' Hse'] Hlive].
  assert (Hi' : inv m') by (apply inv_reachable; unfold reachable in *; by etrans).
  split_and!; [done|done| |by apply drains].
  intros n t' Ht' Hl. split; [by eapply Hlive|]. destruct (t_ctx t') as [d|] eqn:Hc; [left; by eexists|right].
  destruct (inv_running m' Hi' n t' Ht' Hl Hc) as [Hx|]; [|done]. by rewrite Hse', lookup_empty in Hx.
Qed.

(** Termination is permanent and an intentional stop is never a failure. A
    session that stopped or failed keeps that state in every continuation; and
    once its context carries the cause of a close or a sweep, with no failure
    decided before, it never fails, whatever the forwarder reports then. *)
Theorem terminal_states m m' n t : tunnels m !! n = Some t → live t → rtc step m m' →
  ∃ t', tunnels m' !! n = Some t' ∧ live t' ∧ ps_ID (t_session t') = ps_ID (t_session t)
  ∧ (terminal (State (t_session t)) → State (t_session t') = State (t_session t))
  ∧ (doomed t → State (t_session t') ≠ SessionStateFailed).
Proof.
  intros Ht Hl Hs. destruct (rtc_evolves m m' n t Hs Ht Hl) as (t' & Ht' & Hl' & Hid & _ & _ & Hterm).
  exists t'. split_and!; try done. intros Hd. destruct (doomed_rtc m m' n t Hs Ht Hl Hd) as (t2 & Ht2 & _ & _ & _ & Hf).
  by assert (t2 = t') as <- by congruence.
Qed.

(** Every tunnel ends up owned by someone. A refused creation has cancelled
    the context it gave its forwarder and returned its lease; a resource tunnel
    holds its generation lease until its context is done; and an accepted static
    tunnel outlives the request that created it: its context ends only by a
    close, a sweep, or its own monitor's exit. *)
Theorem tunnel_lifetime m n t : reachable m → tunnels m !! n = Some t →
  (∀ e, t_stage t = Refused e → is_Some (t_ctx t) ∧ t_leased t = false)
  ∧ (t_retained t = true → live t → t_leased t = true ∨ is_Some (t_ctx t))
  ∧ (t_retained t = false → live t → ∀ d, t_ctx t = Some d →
     d = cancelled ErrSessionClosed ∨ d = cancelled ErrManagerStopped
     ∨ d = plain_cancel ∧ (t_monitor t = Leaving ∨ t_monitor t = Finished)).
Proof.
  intros Hi%inv_reachable Ht. pose proof (inv_tunnels m Hi n t Ht) as Hok. split_and!.
  - apply (ok_refused t Hok).
  - intros Hr Hl. destruct (t_ctx t) eqn:Hc; [right; by eexists|left]. apply (ok_leased t Hok); [done|by rewrite Hl|done].
  - intros Hr Hl d. by apply (ok_cause t Hok).
Qed.

(** ** A tunnel begun, published, and swept *)

Definition sample_options : PortForwardSessionOptions :=
  mkOptions (StaticTarget (mkStaticConnection "db:5432")) [("app", "db")] [] PortForwardProtocolTCP
    PortForwardConnectionTypeStatic (mkEncryption "" "" false) 8080 5432.
Definition sample_forwarders : gmap string answer := {["db:5432" := Ok (Some (mkResult "tunnel-1" false))]}.
Definition run1 : Manager := begin_creation NewManager sample_options false None "uuid".
Definition run2 : Manager := on_tunnel run1 0 (check_shutdown run1).
Definition run3 : Manager := on_tunnel run2 0 (invoked (invokeForwarder ∅ sample_forwarders sample_options "uuid")).
Definition run4 : Manager := on_tunnel run3 0 (awaited NoReady).
Definition run5 : Manager := on_tunnel run4 0 stop_request.
Definition run6 : Manager := on_tunnel run5 0 (fence zero_native).
Definition sample_tunnel : tunnel := default (mkTunnel "" sample_options false false None NoHook None Created no_session Unwatched) (tunnels run6 !! 0).
Definition run_live : Manager := publishSession run6 0 sample_tunnel.
Definition run_sweep1 : Manager := with_sweep (on_tunnel (StopAll run_live) 0 (cancel (cancelled ErrManagerStopped))) (Some (Stopping "tunnel-1" 0)).
Definition run_sweep2 : Manager := with_sweep (on_tunnel run_sweep1 0 (move SessionStateStopped zero_native)) (Some (Dropping "tunnel-1")).
Definition run_sweep3 : Manager := with_sweep (with_sessions run_sweep2 (delete "tunnel-1" (sessions run_sweep2))) (Some Scanning).
Definition run_swept : Manager :=
  mkManager (sessions run_sweep3) (tunnels run_sweep3) (stopped run_sweep3) (wg run_sweep3) None (closers run_sweep3) 1.

Lemma run_live_reachable : reachable run_live.
Proof.
  eapply rtc_l; [by apply (Step_begin NewManager sample_options false None "uuid" (Ok 1%Z) (λ _, false))|].
  eapply rtc_l; [by eapply (Step_check run1 0)|].
  eapply rtc_l; [by eapply (Step_invoke run2 0 _ ∅ sample_forwarders)|].
  eapply rtc_l; [by eapply (Step_await run3 0 _ false NoReady)|].
  eapply rtc_l; [by eapply (Step_stop_request run4 0)|].
  eapply rtc_l; [by eapply (Step_fence run5 0 _ zero_native)|].
  eapply rtc_l; [by apply (Step_publish run6 0 sample_tunnel)|]. apply rtc_refl.
Qed.
Lemma run_swept_reachable : rtc step run_live run_swept.
Proof.
  eapply rtc_l; [by apply Step_stop|].
  eapply rtc_l; [by apply (Step_sweep_cancel (StopAll run_live) "tunnel-1" 0)|].
  eapply rtc_l; [by apply (Step_sweep_transition run_sweep1 "tunnel-1" 0 zero_native)|].
  eapply rtc_l; [by apply (Step_sweep_drop run_sweep2 "tunnel-1")|].
  eapply rtc_l; [apply (Step_sweep_end run_sweep3); [done|by vm_compute]|]. apply rtc_refl.
Qed.

Lemma no_orphan_witness : reachable run_live ∧ wg run_live = 1
  ∧ ∃ t, tunnels run_live !! 0 = Some t ∧ live t ∧ ps_ID (t_session t) = "tunnel-1".
Proof.
  split; [exact run_live_reachable|]. split; [reflexivity|].
  destruct (no_orphan run_live run_live_reachable) as (H & _). apply (H "tunnel-1" 0). vm_compute. reflexivity.
Defined.
Lemma stop_final_witness : stopped run_swept = true ∧ sessions run_swept = ∅ ∧ ∃ m, rtc step run_swept m ∧ wg m = 0.
Proof.
  assert (Hr : reachable run_swept) by (unfold reachable; etrans; [exact run_live_reachable|exact run_swept_reachable]).
  destruct (stop_final run_swept run_swept Hr eq_refl eq_refl (rtc_refl _ _)) as (H1 & H2 & _ & H3). exact (conj H1 (conj H2 H3)).
Defined.
Lemma terminal_states_witness : ∃ t', tunnels run_swept !! 0 = Some t' ∧ live t' ∧ ps_ID (t_session t') = "tunnel-1".
Proof.
  destruct (tunnels run_live !! 0) as [t|] eqn:E; [|vm_compute in E; discriminate E].
  assert (Hl : live t) by (vm_compute in E; injection E as <-; reflexivity).
  destruct (terminal_states run_live run_swept 0 t E Hl run_swept_reachable) as (t' & H1 & H2 & H3 & _).
  exists t'. split; [exact H1|]. split; [exact H2|]. rewrite H3. vm_compute in E. injection E as <-. reflexivity.
Defined.
Lemma tunnel_lifetime_witness : ∃ t, tunnels run_swept !! 0 = Some t ∧ t_retained t = false
  ∧ ∀ d, t_ctx t = Some d → d = cancelled ErrSessionClosed ∨ d = cancelled ErrManagerStopped
    ∨ d = plain_cancel ∧ (t_monitor t = Leaving ∨ t_monitor t = Finished).
Proof.
  assert (Hr : reachable run_swept) by (unfold reachable; etrans; [exact run_live_reachable|exact run_swept_reachable]).
  destruct (tunnels run_swept !! 0) as [t|] eqn:E; [|vm_compute in E; discriminate E].
  exists t. split; [reflexivity|]. assert (Hl : live t ∧ t_retained t = false) by (vm_compute in E; injection E as <-; split; reflexivity).
  destruct Hl as [Hl Hret]. split; [exact Hret|].
  destruct (tunnel_lifetime run_swept 0 t Hr E) as (_ & _ & H3). exact (H3 Hret Hl).
Defined.
